(* ===== verification/_CoqProject ===== *)
-Q . S2P
Prelude.v
Coop.v
Chains.v
Wheel.v
WheelPlace.v
WheelInv.v
WheelOps.v
WheelAdvance.v
WheelSpec.v
Waiters.v
WaitersSlab.v
LocalSemaphore.v
LocalSemaphoreSpec.v
LocalSemaphoreBooks.v
LocalMutex.v
LocalMpsc.v
LocalMpscSpec.v
LocalOneshot.v
Bytes.v
PoolBuf.v
BufPool.v
BufPoolInv.v
BufPoolSpec.v
TaskWord.v
Task.v
TaskInv.v
TaskLife.v
TaskAwait.v
TaskSpec.v
ReadBuf.v
AtomicWaker.v
AtomicWaits.v
Pipe.v
PipeInv.v
PipeWrite.v
PipeSpec.v
Oneshot.v
OneshotInv.v
OneshotRecv.v
OneshotSpec.v
WaiterNode.v
WaiterNodeInv.v
WaiterNodeFuture.v
WaiterNodeQueue.v
WaiterNodeSpec.v
QueueWord.v
DrainRole.v
Spin.v
NodeCell.v
NodeCellSpec.v
Sums.v
RawSemaphore.v
RawSemaphoreWord.v
RawSemaphoreInv.v
RawSemaphoreCalls.v
RawSemaphoreDrain.v
RawSemaphoreSpec.v
RawSemaphoreWakes.v
RawSemaphoreMutex.v
Streams.v
Buffered.v
BufReads.v
Copy.v
CopyBoth.v
Numbers.v
Utf8.v
ReadExt.v
ReadExtSpec.v
WriteExt.v
Misc.v
Sleep.v
SleepInv.v
SleepSpec.v
Interval.v
Inbox.v
InboxInv.v
InboxSys.v
InboxPark.v
InboxSpec.v
ShardOrder.v
