(* ===== verification/Prelude.v ===== *)
(** * Nuclei: a verification development

    Nuclei is a thread-per-core asynchronous runtime: each shard, a thread with
    its own run loop, polls its tasks, keeps their timers in a wheel, lends them
    buffers from a pool, and gives them channels, locks and streams; threads
    hand tasks and wakes to a shard through its inbox. This library models the
    parts of it that are data structures and protocols as executable definitions
    and proves what makes them correct. Paths below are under [src/src/].

    ** How the code is modelled

    A [u64] or [usize] is a [Z]; a sum, a difference or an index that leaves its
    range is a panic, and a panic, a failed assertion or an access outside of a
    memory is [None] (or a fault of its own where a component tells them apart),
    so that a theorem that an operation answers says that it does not panic. A
    [Vec] is a list read by [!!z], a map a [gmap]. A method is a function of the
    object's state; a call that mutates several objects takes all of them. A
    loop is a [Fixpoint] on fuel or [while], and every theorem about one shows
    that the fuel given is enough: it is the measure by which the loop ends.
    A future is its state, and [poll] a function of it. A waker is the number of
    the task it wakes; a wake is logged, or ends the wait of whoever waits with
    it. Code on several threads is a transition system whose steps are single
    atomic operations or accesses to shared memory, taken in any order; an access
    another thread could make at the same moment is a fault. Trait objects and
    streams from outside are type classes: operations, and the promises the code
    relies on as laws.

    ** Parts

    - [Prelude], [Chains], [Bytes], [Sums]: machine words and bit scans,
      vectors, loops with their rule [while_spec], Rust's [Result] and [Poll];
      doubly linked chains over indices; slices; sums over the entries of a map.
    - [Coop] ([coop.rs], [task.rs]): the budget of a poll, what spends, refuses
      and refunds it.
    - [Wheel], [WheelPlace], [WheelInv], [WheelOps], [WheelAdvance], [WheelSpec]
      ([time/wheel.rs]): the hierarchical timer wheel with its slab, lists and
      bitmaps. [Wheel] has the code, [WheelPlace] where a deadline goes,
      [WheelInv] the invariant, the next two the operations and the advance.
    - [Sleep], [SleepInv], [SleepSpec], [Interval] ([time/sleep.rs],
      [time/units.rs], [time/interval.rs], [time/timeout.rs],
      [rt/shard/timers.rs]): the timers of a shard's tasks in its two wheels,
      under any acts of the tasks, the clock and the loop that fires; intervals
      and timeouts over them.
    - [Waiters], [WaitersSlab] ([sync/local/waiters.rs]): the waiter list of the
      single-shard primitives and its slab.
    - [LocalSemaphore], [LocalSemaphoreSpec], [LocalSemaphoreBooks],
      [LocalMutex], [LocalMpsc], [LocalMpscSpec], [LocalOneshot]
      ([sync/local/]): semaphore, mutex and channels of one shard, over the
      waiter list.
    - [PoolBuf], [BufPool], [BufPoolInv], [BufPoolSpec] ([buf/mod.rs]): a pooled
      buffer, and the pool with the threads that take and give back.
    - [TaskWord], [Task], [TaskInv], [TaskLife], [TaskAwait], [TaskSpec]
      ([rt/task/]): a task's allocation, its state word, its handle, its wakers
      and the one awaiting it, on any number of threads. [Task] has the steps,
      [TaskInv] and [TaskLife] who may free and touch what, [TaskAwait] who is
      woken.
    - [Inbox], [InboxInv], [InboxSys], [InboxPark], [InboxSpec]
      ([rt/inbox.rs], [rt/handshake.rs], [rt/shard/signal.rs]): the queue other
      threads push to and the park of the shard's thread. [InboxInv] has the
      links of the queue, [InboxSys] the threads around it, [InboxPark] who
      wakes a parked shard.
    - [ShardOrder] ([rt/shard/order.rs]): which runnable a shard takes next, and
      the bound within which every place is served.
    - [AtomicWaits]: what the transition systems share: the ways a step stops,
      runs of acts, and a wait that ends within a number of steps.
    - [AtomicWaker] ([sync/atomic_waker.rs]) and [Pipe], [PipeInv], [PipeWrite],
      [PipeSpec] ([io/util/duplex.rs]): the waker cell, and the pipe whose two
      sides wait by it, step by step.
    - [Oneshot], [OneshotInv], [OneshotRecv], [OneshotSpec]
      ([sync/oneshot.rs]): the one-shot channel between threads.
    - [WaiterNode], [WaiterNodeInv], [WaiterNodeFuture], [WaiterNodeQueue],
      [WaiterNodeSpec] ([sync/waiter/]): one waiter node between its future,
      its queue and a wake list: its word, its two waker slots, its references.
      [NodeCell] is the node as its users see it, one operation a step, and
      [NodeCellSpec] the proof that it is.
    - [QueueWord], [DrainRole] ([sync/queue.rs]): the state word and the drain
      role of the queue that every shared primitive waits in; the primitive's
      own changes and its pass are left open.
    - [Spin], [RawSemaphore], [RawSemaphoreWord], [RawSemaphoreInv],
      [RawSemaphoreCalls], [RawSemaphoreDrain], [RawSemaphoreSpec],
      [RawSemaphoreWakes], [RawSemaphoreMutex]
      ([sync/spin.rs], [sync/raw_semaphore.rs], [sync/contend.rs],
      [sync/list.rs]): the shared semaphore under any number of clients.
      [RawSemaphore] has the steps; [RawSemaphoreWord] what each change does to
      the bits and the permits of the word; [RawSemaphoreInv] the books, as
      sums over the clients; the next two that every step keeps them.
      [RawSemaphoreWakes] says who will wake a waiter of a mutex, the semaphore
      with one permit as [sync/mutex.rs] uses it, and [RawSemaphoreMutex] that
      every step keeps it so.
    - [ReadBuf] ([io/util/read_buf.rs]): a buffer over memory that may be
      uninitialized.
    - [Streams], [Buffered], [BufReads], [Copy], [CopyBoth]
      ([io/util/buffered.rs], [buf_read_ext.rs], [copy.rs]): the stream traits
      as classes with laws, and streams in memory that keep them; buffers in
      front of any stream, which keep the laws; splitting and copying proved
      against the laws alone.
    - [Numbers], [Utf8], [ReadExt], [ReadExtSpec], [WriteExt], [Misc]
      ([io/util/read_ext.rs], [write_ext.rs], [misc.rs]): the reads and writes
      that loop or keep state, over any stream; the numbers and the text they
      convert.

    ** What the theorems show

    C1: unless a shutdown walk meets its last reference being given up, a task
    is never used freed, dropped or scheduled twice, nor its output read twice.
    C2: the inbox hands out every item once and in the order of the pushes. C3:
    a task that sleeps is woken when its timer fires, which is when it is due.
    C4: a shard does not stay parked with an item in its inbox. C5: a sleep does
    not end before its deadline. C6: an advance of the wheel fires exactly the
    timers that are due. C7: a read to the end shows what it had and what the
    reader gave, never memory that was not written. C8: a pipe delivers its
    bytes in order without a race. C9: no side of a pipe waits for what is there
    already. C10: the three parties of a waiter node never race for it or use it
    freed, and recycle it once. C11: a marked waiter is woken with its newest
    waker. C12: every run of a waiter node is a run of the cell its users see,
    call by call. C13: a one-shot value is passed, given back or dropped once.
    C14: a one-shot receiver is woken within the steps of the send or of the
    drop. C15: the drain role has one holder, which gives it up only when every
    change was seen, and drops a request only when nobody was queued. C16: the
    permits of the shared semaphore add up under every interleaving, within the
    most it may hold. C17: a free mutex that somebody waits for has told a
    waiter, whose next poll takes it. C18: who holds all the permits there are
    excludes the rest. C19: with the same exception, a task is freed exactly
    when nobody is left. C20: who awaits a task is woken when it ends. C21: a
    read to the end appends all the reader has left. C22: the permits of the
    single-shard semaphore add up, within the most it may hold. C23: a release
    serves its waiters in order. C24: the slab of waiters is a queue. C25: the
    single-shard mutex excludes. C26: the channel delivers in order. C27: a
    receiver that waits was woken since, or is registered with nothing to
    receive; senders wait only while it is full. C28: every place a shard takes
    from is served within a bound. C29: the pool neither loses a buffer nor
    lends one twice, and stays under its cap unless that is lowered. C30: a
    pooled buffer is a queue of bytes. C31: a copy moves every byte up to the
    reader's end, and ends. C32: the segments of a split join back to what was
    read. C33: the number read is the number written. C34: an interval keeps its
    schedule as its policy says, up to the clock's range. C35: the level a
    deadline goes to by its bits is the one by its windows. C36: the mutex's
    first attempt is the general one for one permit. C37: a race that the drop
    of a last waker has with the shutdown walk. C38: a reader can be told of the
    end before the bytes. C39: a waiter can be left asleep beside a free permit.
    C40: permits added beside held ones can be lost.

    ** Bounds and fuel

    Counts that the code keeps in machine words are bounded where it relies on
    it (a buffer of at most [isize::MAX] bytes, fewer than 2^64 bytes through a
    pipe or a copy, fewer than 2^64 calls of a wheel, instants in the range of
    the clock, permits made and added up to [MAX], a pool's cap below the
    largest [usize]), as hypotheses or as the one panic a theorem allows; what
    the code does beyond those of the permits and the cap is shown by runs. The
    walk of a shutdown is kept out of the window in which a task's last
    reference is given up, by a hypothesis of the theorems on tasks it touches.
    The wheel's loops run by a measure of its lists; a copy's, a split's and a
    read's to the end by the bytes the reader has left; a buffered writer's
    flush by the bytes in the buffer; a run of a task by the step it is at. How
    much a [Vec] grows is a parameter [grow], of which only what [Vec::reserve]
    promises is assumed. Loops of compare-and-swap are steps of a transition
    system, with no bound; where a theorem says that a wake comes it bounds the
    steps of the one who wakes.

    ** Not modelled

    Memory orders weaker than sequential consistency: steps of threads
    interleave. Panics of wakers and of futures that unwind through the
    primitives, and the guards that go on after them ([CloseRest], [ServeRest],
    [Restore], [Abandon], [WakeOnUnwind], [OnUnwind]); wakes that call back into
    the object that wakes (the clones of wakers that do are modelled). The
    capacity of a [VecDeque]. The debug assertion that a spent budget is not
    spent again. Thread-local storage, except as the state of the thread at
    hand. Timers armed from another thread than their shard's, and a paused
    clock. The links and the free nodes of the shared waiter lists. The futures
    that forward one call. The shared locks and channels over the modelled queue
    (the reader-writer lock, the fair semaphore, the shared mpsc channels,
    broadcast, watch, notify), each a state machine of its own. Everything that
    is a conversation with the operating system (rings, sources, files, sockets,
    processes, signals), whose behaviour is the kernel's. The hand-off of a
    shard between threads and the run loop that puts the parts together, whose
    state is spread over thread-locals and the ring. *)

From Stdlib Require Export ZArith Lia.
From stdpp Require Export base tactics option numbers sets gmap list.
Open Scope Z_scope.

(** ** Machine words *)

Definition u64_size : Z := 2 ^ 64.
Definition u64_max : Z := 2 ^ 64 - 1.
Definition usize_max : Z := 2 ^ 64 - 1.
Definition isize_max : Z := 2 ^ 63 - 1.
Definition isize_min : Z := - 2 ^ 63.

(** A sum or difference of [u64] or [usize] values. Rust panics where the
    value leaves the type (and wraps where overflow checks are off): that is
    [None] here, so a theorem that an operation answers [Some] says that
    neither happens. *)
Definition add64 (a b : Z) : option Z :=
  if a + b <=? u64_max then Some (a + b) else None.

Definition sub64 (a b : Z) : option Z :=
  if b <=? a then Some (a - b) else None.

(** [wrapping_add] of a word of [bits] bits. *)
Definition wrapping_add (bits a b : Z) : Z := (a + b) mod 2 ^ bits.

Lemma add64_Some a b : a + b <= u64_max -> add64 a b = Some (a + b).
Proof. unfold add64. intros. destruct (Z.leb_spec (a + b) u64_max); [done | lia]. Qed.

Lemma sub64_Some a b : b <= a -> sub64 a b = Some (a - b).
Proof. unfold sub64. intros. destruct (Z.leb_spec b a); [done | lia]. Qed.

(** *** Bit scans *)

Fixpoint pos_trailing_zeros (p : positive) : Z :=
  match p with
  | xO q => 1 + pos_trailing_zeros q
  | _ => 0
  end.

(** [u64::trailing_zeros]. *)
Definition trailing_zeros (x : Z) : Z :=
  match x with
  | Zpos p => pos_trailing_zeros p
  | _ => 64
  end.

(** [u64::leading_zeros]. *)
Definition leading_zeros (x : Z) : Z :=
  if x =? 0 then 64 else 63 - Z.log2 x.

Lemma pos_trailing_zeros_nonneg p : 0 <= pos_trailing_zeros p.
Proof. induction p; simpl; lia. Qed.

Lemma trailing_zeros_spec x :
  0 < x ->
  0 <= trailing_zeros x /\
  Z.testbit x (trailing_zeros x) = true /\
  forall i, 0 <= i < trailing_zeros x -> Z.testbit x i = false.
Proof.
  destruct x as [|p|p]; try lia. intros _. simpl.
  induction p as [p IH|p IH|]; simpl.
  - split; [lia | split; [reflexivity | intros; lia]].
  - destruct IH as (H0 & H1 & H2). split; [lia | split].
    + rewrite Pos2Z.pos_xO, (Z.add_comm 1), Z.add_1_r, Z.double_bits_succ. done.
    + intros i Hi. rewrite Pos2Z.pos_xO.
      destruct (Z.eq_dec i 0) as [-> | Hne]; [done |].
      replace i with (Z.succ (i - 1)) by lia.
      rewrite Z.double_bits_succ. apply H2. lia.
  - split; [lia | split; [reflexivity | intros; lia]].
Qed.

(** The bits of [x] lie below [n] exactly when [x < 2^n]. *)
Lemma testbit_lt_pow2 x n i :
  0 <= x < 2 ^ n -> 0 <= n -> Z.testbit x i = true -> 0 <= i < n.
Proof.
  intros Hx Hn Hb. destruct (Z.lt_ge_cases i 0) as [Hneg | Hi].
  { rewrite Z.testbit_neg_r in Hb by lia. done. }
  split; [done |]. destruct (Z.lt_ge_cases i n) as [|Hge]; [done |].
  destruct (Z.eq_dec x 0) as [-> | Hnz]; [by rewrite Z.bits_0 in Hb |].
  rewrite Z.bits_above_log2 in Hb; [done | lia |].
  enough (Z.log2 x < n) by lia. apply Z.log2_lt_pow2; lia.
Qed.

Lemma nonneg_bit_exists x : 0 < x -> exists i, 0 <= i /\ Z.testbit x i = true.
Proof.
  intros Hx. destruct (trailing_zeros_spec x Hx) as (? & ? & _). eauto.
Qed.

Lemma land_pow2_bound a b n :
  0 <= a < 2 ^ n -> 0 <= b -> 0 <= n -> 0 <= Z.land a b < 2 ^ n.
Proof.
  intros Ha Hb Hn. split; [apply Z.land_nonneg; lia |].
  destruct (Z.eq_dec (Z.land a b) 0) as [-> | Hne]; [lia |].
  apply Z.log2_lt_pow2; [pose proof (proj2 (Z.land_nonneg a b)); lia |].
  assert (Hl : Z.log2 (Z.land a b) <= Z.min (Z.log2 a) (Z.log2 b))
    by (apply Z.log2_land; lia).
  destruct (Z.eq_dec a 0) as [-> | Hnz]; [by rewrite Z.land_0_l in Hne |].
  enough (Z.log2 a < n) by lia. apply Z.log2_lt_pow2; lia.
Qed.

Lemma lor_pow2_bound a b n :
  0 <= a < 2 ^ n -> 0 <= b < 2 ^ n -> 0 <= n -> 0 <= Z.lor a b < 2 ^ n.
Proof.
  intros Ha Hb Hn. split; [apply Z.lor_nonneg; lia |].
  destruct (Z.eq_dec (Z.lor a b) 0) as [-> | Hne]; [lia |].
  apply Z.log2_lt_pow2; [pose proof (proj2 (Z.lor_nonneg a b)); lia |].
  rewrite Z.log2_lor by lia.
  destruct (Z.eq_dec a 0) as [-> | Ha0]; destruct (Z.eq_dec b 0) as [-> | Hb0].
  - by rewrite Z.lor_0_l in Hne.
  - assert (Z.log2 b < n) by (apply Z.log2_lt_pow2; lia).
    change (Z.log2 0) with 0. pose proof (Z.log2_nonneg b). lia.
  - assert (Z.log2 a < n) by (apply Z.log2_lt_pow2; lia).
    change (Z.log2 0) with 0. pose proof (Z.log2_nonneg a). lia.
  - assert (Z.log2 a < n) by (apply Z.log2_lt_pow2; lia).
    assert (Z.log2 b < n) by (apply Z.log2_lt_pow2; lia). lia.
Qed.

(** ** Vectors indexed by machine words *)

(** [v.get(i)], and what [v[i]] reads: [None] out of range, where the index
    expression panics. *)
Definition vget {A} (l : list A) (i : Z) : option A :=
  if (0 <=? i) && (i <? Z.of_nat (length l)) then l !! Z.to_nat i else None.

(** [v[i] = x], for an index the code has just read through [vget]. *)
Definition vset {A} (l : list A) (i : Z) (x : A) : list A :=
  if (0 <=? i) && (i <? Z.of_nat (length l)) then <[Z.to_nat i := x]> l else l.

Definition vlen {A} (l : list A) : Z := Z.of_nat (length l).

(** [v.push(x)]: a [Vec] holds at most [isize::MAX] bytes, hence entries, and
    panics beyond. *)
Definition vec_push {A} (l : list A) (x : A) : option (list A) :=
  if vlen l <? isize_max then Some (l ++ [x]) else None.

Declare Scope nuclei_scope.
Delimit Scope nuclei_scope with nuclei.
Notation "l '!!z' i" := (vget l i) (at level 20, no associativity) : nuclei_scope.
Open Scope nuclei_scope.

Section vectors.
Context {A : Type}.
Implicit Types (l : list A) (i j : Z) (x y : A).

Lemma vget_Some l i x :
  l !!z i = Some x <-> 0 <= i < vlen l /\ l !! Z.to_nat i = Some x.
Proof.
  unfold vget, vlen.
  destruct (Z.leb_spec 0 i), (Z.ltb_spec i (Z.of_nat (length l))); simpl;
    split; intros H'; destruct_and?; try done; lia.
Qed.

Lemma vget_bound l i x : l !!z i = Some x -> 0 <= i < vlen l.
Proof. rewrite vget_Some. tauto. Qed.

Lemma vget_is_Some l i : 0 <= i < vlen l -> exists x, l !!z i = Some x.
Proof.
  intros Hi. destruct (lookup_lt_is_Some_2 l (Z.to_nat i)) as [x Hx].
  { unfold vlen in Hi. lia. }
  exists x. by apply vget_Some.
Qed.

Lemma vget_None l i : ~ (0 <= i < vlen l) -> l !!z i = None.
Proof.
  intros H. destruct (l !!z i) as [x|] eqn:E; [| done].
  apply vget_bound in E. done.
Qed.

Lemma vlen_vset l i x : vlen (vset l i x) = vlen l.
Proof. unfold vset, vlen. destruct andb; [| done]. by rewrite length_insert. Qed.

Lemma vlen_app l1 l2 : vlen (l1 ++ l2) = vlen l1 + vlen l2.
Proof. unfold vlen. rewrite length_app. lia. Qed.

Lemma vlen_cons x l : vlen (x :: l) = 1 + vlen l.
Proof. unfold vlen. cbn [length]. lia. Qed.

Lemma vlen_nonneg l : 0 <= vlen l.
Proof. unfold vlen. lia. Qed.

Lemma vget_vset l i j x :
  0 <= i < vlen l ->
  vset l i x !!z j = if j =? i then Some x else l !!z j.
Proof.
  intros Hi. unfold vget, vset. unfold vlen in Hi.
  destruct (Z.leb_spec 0 i), (Z.ltb_spec i (Z.of_nat (length l))); try lia.
  simpl. rewrite length_insert.
  destruct (Z.eqb_spec j i) as [-> | Hne].
  - destruct (Z.leb_spec 0 i), (Z.ltb_spec i (Z.of_nat (length l))); try lia.
    simpl. apply list_lookup_insert_eq. lia.
  - destruct (Z.leb_spec 0 j), (Z.ltb_spec j (Z.of_nat (length l))); simpl;
      try done.
    apply list_lookup_insert_ne. lia.
Qed.

Lemma vget_vset_eq l i x y : l !!z i = Some y -> vset l i x !!z i = Some x.
Proof. intros H%vget_bound. rewrite vget_vset by done. by rewrite Z.eqb_refl. Qed.

Lemma vget_vset_ne l i j x : j <> i -> vset l i x !!z j = l !!z j.
Proof.
  intros Hne. destruct (decide (0 <= i < vlen l)) as [Hi | Hi].
  - rewrite vget_vset by done. by destruct (Z.eqb_spec j i).
  - unfold vset. unfold vlen in Hi.
    destruct (Z.leb_spec 0 i), (Z.ltb_spec i (Z.of_nat (length l))); simpl;
      first [done | lia].
Qed.

Lemma vset_id l i x : l !!z i = Some x -> vset l i x = l.
Proof.
  intros [Hi Hl]%vget_Some. unfold vset. destruct andb; [| done].
  by apply list_insert_id.
Qed.

Lemma vset_vset l i x y : vset (vset l i x) i y = vset l i y.
Proof.
  unfold vset.
  destruct ((0 <=? i) && (i <? Z.of_nat (length l))) eqn:E; [| by rewrite E].
  rewrite length_insert, E. apply list_insert_insert_eq.
Qed.

Lemma vget_app_l l1 l2 i : i < vlen l1 -> (l1 ++ l2) !!z i = l1 !!z i.
Proof.
  intros Hi. unfold vget, vlen in *. rewrite length_app.
  destruct (Z.leb_spec 0 i); [| done].
  destruct (Z.ltb_spec i (Z.of_nat (length l1 + length l2))),
    (Z.ltb_spec i (Z.of_nat (length l1))); simpl; try lia.
  apply lookup_app_l. lia.
Qed.

Lemma vget_snoc l x : (l ++ [x]) !!z vlen l = Some x.
Proof.
  apply vget_Some. rewrite vlen_app. unfold vlen. simpl. split; [lia |].
  rewrite Nat2Z.id. by rewrite list_lookup_middle.
Qed.
End vectors.

Lemma vlen_fmap {A B} (f : A -> B) (l : list A) : vlen (f <$> l) = vlen l.
Proof. unfold vlen. by rewrite length_fmap. Qed.

Lemma vget_ext {A} (l l' : list A) : (forall j, l !!z j = l' !!z j) -> l = l'.
Proof.
  intros H. apply list_eq. intros i. specialize (H (Z.of_nat i)). unfold vget in H.
  rewrite Nat2Z.id in H.
  destruct (Z.leb_spec 0 (Z.of_nat i)); [| lia].
  destruct (Z.ltb_spec (Z.of_nat i) (Z.of_nat (length l))),
    (Z.ltb_spec (Z.of_nat i) (Z.of_nat (length l'))); simpl in H; try done.
  - by rewrite H, lookup_ge_None_2 by lia.
  - by rewrite <- H, lookup_ge_None_2 by lia.
  - by rewrite !lookup_ge_None_2 by lia.
Qed.

(** *** Automation *)

(** Lengths: [len] brings every length in sight to those of its parts. *)
Create Rewrite HintDb vlen.
#[export] Hint Rewrite @vlen_app @vlen_cons @vlen_fmap @vlen_vset : vlen.

Create HintDb nuclei.
#[export] Hint Resolve vlen_nonneg : nuclei.

Ltac len := autorewrite with vlen in *; unfold vlen in *; cbn [length] in *; lia.

(** The first [n] conjuncts are at hand. *)
Tactic Notation "at_hand" int_or_var(n) := do n (split; [done |]).

(** ** Lists *)

Lemma filter_all {A} (P : A -> Prop) `{forall x, Decision (P x)} (l : list A) :
  Forall P l -> filter P l = l.
Proof.
  induction 1 as [|x l Hx _ IH]; [done |]. rewrite filter_cons_True by done. by rewrite IH.
Qed.

(** Distinct indices below [n] are at most [n]. *)
Lemma NoDup_bounded (l : list Z) n :
  NoDup l -> (forall i, i ∈ l -> 0 <= i < n) -> vlen l <= Z.max 0 n.
Proof.
  intros Hl Hb. assert (Hs : l ⊆+ seqZ 0 n).
  { apply NoDup_submseteq; [done |]. intros i Hi. apply elem_of_seqZ. specialize (Hb i Hi). lia. }
  apply submseteq_length in Hs. rewrite length_seqZ in Hs. unfold vlen. lia.
Qed.

Lemma length_omap_le {A B} (f : A -> option B) (l : list A) : (length (omap f l) <= length l)%nat.
Proof.
  induction l as [|x l IH]; [done |]. cbn. destruct (f x); cbn [length].
  - by apply le_n_S.
  - by apply Nat.le_le_succ_r.
Qed.

Lemma size_list_to_set_le (l : list Z) : (size (list_to_set l : gset Z) <= length l)%nat.
Proof.
  induction l as [|x l IH]; [done |]. rewrite list_to_set_cons, size_union_alt, size_singleton.
  cbn [length]. apply le_n_S. etrans; [| exact IH]. apply subseteq_size. set_solver.
Qed.

(** The indices of the entries a test holds of are as many as the entries. *)
Lemma count_indices {B} (P : B -> bool) (l : list B) (A : gset Z) :
  (forall i, i ∈ A <-> exists x, l !!z i = Some x /\ P x = true) ->
  size A = length (List.filter P l).
Proof.
  revert A. induction l as [|x l IH] using rev_ind; intros A HA.
  - simpl. apply size_empty_iff. intros i. rewrite HA. split; [| set_solver].
    intros (x & Hx%vget_bound & _). unfold vlen in Hx. simpl in Hx. lia.
  - rewrite List.filter_app, length_app, <- (IH (A ∖ {[vlen l]})).
    + simpl. destruct (P x) eqn:HP; simpl.
      * assert (Hin : vlen l ∈ A) by (apply HA; exists x; by rewrite vget_snoc).
        rewrite size_difference, size_singleton by set_solver.
        assert (size A <> 0%nat) by (apply size_non_empty_iff; set_solver). lia.
      * assert (Hout : vlen l ∉ A).
        { intros Hin. apply HA in Hin as (y & Hy & HPy). rewrite vget_snoc in Hy. congruence. }
        rewrite Nat.add_0_r. f_equal. apply leibniz_equiv. set_solver.
    + intros i. rewrite elem_of_difference, elem_of_singleton, HA. split.
      * intros [(y & Hy & HPy) Hne]. exists y. split; [| done].
        pose proof (vget_bound _ _ _ Hy) as Hb. rewrite vlen_app in Hb. change (vlen [x]) with 1 in Hb.
        rewrite vget_app_l in Hy by lia. done.
      * intros (y & Hy & HPy). pose proof (vget_bound _ _ _ Hy). split; [| lia].
        exists y. by rewrite vget_app_l by lia.
Qed.

(** ** Loops *)

(** What one pass of a loop body answers: go round again, or leave. *)
Inductive flow (S : Type) : Type :=
| Go (s : S)
| Stop (s : S).
Arguments Go {S} _.
Arguments Stop {S} _.

Section loops.
Context {S : Type}.
Implicit Types (body : S -> option (flow S)) (s : S).

(** At most [p] passes of [body]. A panic of a pass ([None]) ends the loop. *)
Fixpoint passes (p : positive) body s : option (flow S) :=
  match p with
  | xH => body s
  | xO q =>
      match passes q body s with
      | Some (Go s') => passes q body s'
      | r => r
      end
  | xI q =>
      match body s with
      | Some (Go s') =>
          match passes q body s' with
          | Some (Go s'') => passes q body s''
          | r => r
          end
      | r => r
      end
  end.

(** A [while] or [loop] of the source, cut after [fuel] passes: [None] then,
    which [while_spec] rules out for a loop whose measure is below [fuel]. *)
Definition while (fuel : Z) body s : option S :=
  match passes (Z.to_pos fuel) body s with
  | Some (Stop s') => Some s'
  | _ => None
  end.

Context (body : S -> option (flow S)).
Context (I : Z -> S -> Prop) (Q : S -> Prop).
Hypothesis pass :
  forall m s, I m s ->
  0 <= m /\
  ((exists m' s', body s = Some (Go s') /\ I m' s' /\ m' < m) \/
   (exists s', body s = Some (Stop s') /\ Q s')).

Lemma passes_spec p m s :
  I m s ->
  (exists m' s', passes p body s = Some (Go s') /\ I m' s' /\ m' <= m - Zpos p) \/
  (exists s', passes p body s = Some (Stop s') /\ Q s').
Proof using pass.
  revert m s. induction p as [p IH|p IH|]; intros m s HI; cbn [passes].
  - destruct (pass m s HI) as (_ & [(m0 & s0 & -> & HI0 & Hm0) | (s0 & -> & HQ)]); [| eauto].
    destruct (IH m0 s0 HI0) as [(m1 & s1 & -> & HI1 & Hm1) | (s1 & -> & HQ)]; [| eauto].
    destruct (IH m1 s1 HI1) as [(m2 & s2 & -> & HI2 & Hm2) | (s2 & -> & HQ)]; [| eauto].
    left. exists m2, s2. split; [done | split; [done | lia]].
  - destruct (IH m s HI) as [(m1 & s1 & -> & HI1 & Hm1) | (s1 & -> & HQ)]; [| eauto].
    destruct (IH m1 s1 HI1) as [(m2 & s2 & -> & HI2 & Hm2) | (s2 & -> & HQ)]; [| eauto].
    left. exists m2, s2. split; [done | split; [done | lia]].
  - destruct (pass m s HI) as (_ & [(m' & s' & -> & HI' & Hm) | ?]); [| eauto].
    left. exists m', s'. split; [done | split; [done | lia]].
Qed.

(** A loop each of whose passes keeps the invariant at a smaller measure
    ends, and leaves with what its last pass establishes. *)
Lemma while_spec fuel m s :
  I m s -> m < fuel -> exists s', while fuel body s = Some s' /\ Q s'.
Proof using pass.
  intros HI Hm. unfold while. destruct (pass m s HI) as [Hm0 _].
  destruct (passes_spec (Z.to_pos fuel) m s HI) as [(m' & s' & _ & HI' & Hm') | (s' & -> & HQ)].
  - destruct (pass m' s' HI') as [? _]. rewrite Z2Pos.id in Hm' by lia. lia.
  - eauto.
Qed.
End loops.

(** ** Rust's result type and wakers *)

Inductive Result (T E : Type) : Type :=
| Ok (t : T)
| Err (e : E).
Arguments Ok {T E} _.
Arguments Err {T E} _.

(** [core::task::Poll]. *)
Inductive Poll (T : Type) : Type :=
| Ready (t : T)
| Pending.
Arguments Ready {T} _.
Arguments Pending {T}.

(** A [core::task::Waker], by the task it wakes: a clone wakes the same task,
    and [will_wake] compares the two. *)
Definition Waker : Type := Z.
Definition will_wake (a b : Waker) : bool := a =? b.
