(* ===== verification/Coop.v ===== *)
(** * The cooperative budget

    [coop.rs]: what a poll may complete before it yields, as the thread's one
    counter, saved and restored around each poll. [Thread] is the part of the
    thread's context ([rt/context.rs]) the budget uses, with the wakes a poll
    made, in order. *)

From S2P Require Import Prelude.
Open Scope Z_scope.

(** ** The code *)

Definition BUDGET : Z := 128.
Definition UNBUDGETED : Z := u64_max.

(** The thread's context: the budget left, the task being polled, the yields
    counted for a spent budget, and the tasks woken. *)
Record Thread : Type := {
  budget : Z;
  task : option Z;
  budget_yields : Z;
  woken : list Waker
}.

(** A thread outside any poll. *)
Definition thread_new : Thread :=
  {| budget := UNBUDGETED; task := None; budget_yields := 0; woken := [] |}.

Definition set_budget x t :=
  {| budget := x; task := task t; budget_yields := budget_yields t; woken := woken t |}.
Definition set_task x t :=
  {| budget := budget t; task := x; budget_yields := budget_yields t; woken := woken t |}.

(** [waker.wake()] and [waker.wake_by_ref()]: the task is queued to run. *)
Definition wake (w : Waker) (t : Thread) : Thread :=
  {| budget := budget t; task := task t; budget_yields := budget_yields t;
     woken := woken t ++ [w] |}.

(** [rt::counters::budget_yield], on a thread inside a shard. *)
Definition budget_yield (t : Thread) : Thread :=
  {| budget := budget t; task := task t; budget_yields := budget_yields t + 1;
     woken := woken t |}.

(** What [enter_task] replaced. *)
Record Entered : Type := { entered_left : Z; entered_task : option Z }.

Definition enter_task (id : Z) (t : Thread) : Entered * Thread :=
  ({| entered_left := budget t; entered_task := task t |},
   set_task (Some id) (set_budget BUDGET t)).

Definition leave_task (e : Entered) (t : Thread) : Thread :=
  set_task (entered_task e) (set_budget (entered_left e) t).

Definition current_task (t : Thread) : option Z := task t.

Definition enter (t : Thread) : Z * Thread := (budget t, set_budget BUDGET t).

Definition leave (previous : Z) (t : Thread) : Thread := set_budget previous t.

(** Runs [f] outside the budget. *)
Definition outside {T} (f : Thread -> T * Thread) (t : Thread) : T * Thread :=
  let saved := budget t in
  let '(result, t) := f (set_budget UNBUDGETED t) in
  (result, set_budget saved t).

(** [left.get().overflowing_sub(1)], stored, and a spent budget's zero put back. *)
Definition try_spend (t : Thread) : bool * Thread :=
  let rest := (budget t - 1) mod u64_size in
  let spent := budget t <? 1 in
  let t := set_budget rest t in
  let t := if spent then set_budget 0 t else t in
  (negb spent, t).

Definition refused (w : Waker) (t : Thread) : bool * Thread :=
  (false, wake w (budget_yield t)).

Definition spend (w : Waker) (t : Thread) : bool * Thread :=
  let '(ok, t) := try_spend t in
  if ok : bool then (true, t) else refused w t.

(** Whether the budget is spent; then the task is woken. *)
Definition exhausted (w : Waker) (t : Thread) : bool * Thread :=
  if budget t =? 0 then let '(r, t) := refused w t in (negb r, t) else (false, t).

(** As a build without debug assertions runs it: the assertion that the budget
    is not spent is left out. *)
Definition spent_one (t : Thread) : Thread := set_budget ((budget t - 1) mod u64_size) t.

Definition refund (t : Thread) : Thread := set_budget (Z.min (budget t + 1) u64_max) t.

Definition is_pending {T} (p : Poll T) : bool :=
  match p with Pending => true | Ready _ => false end.

(** Spends one operation of the budget for [poll], or yields when it is spent. *)
Definition poll_budget {T} (w : Waker) (poll : Thread -> Poll T * Thread) (t : Thread) :
    Poll T * Thread :=
  let '(ok, t) := try_spend t in
  let '(ok, t) := if ok : bool then (true, t) else refused w t in
  if negb ok then (Pending, t)
  else
    let '(result, t) := poll t in
    let t := if is_pending result then refund t else t in
    (result, t).

Definition has_budget_remaining (t : Thread) : bool := negb (budget t =? 0).

(** One poll of [consume_budget]'s future. *)
Definition consume_budget (w : Waker) (t : Thread) : Poll unit * Thread :=
  poll_budget w (fun t => (Ready tt, t)) t.

(** One poll of [Unconstrained] and of [Cooperative]. *)
Definition unconstrained_poll {T} (poll : Thread -> Poll T * Thread) (t : Thread) :
    Poll T * Thread :=
  outside poll t.

Definition cooperative_poll {T} (w : Waker) (poll : Thread -> Poll T * Thread) (t : Thread) :
    Poll T * Thread :=
  poll_budget w poll t.

(** One poll of [task::YieldNow], whose state is whether it yielded. *)
Definition yield_now_poll (w : Waker) (yielded : bool) (t : Thread) :
    Poll unit * bool * Thread :=
  if yielded then (Ready tt, yielded, t) else (Pending, true, wake w t).

(** ** A poll's operations *)

Definition budget_ok (t : Thread) : Prop := 0 <= budget t <= u64_max.

Lemma try_spend_spec t :
  budget_ok t ->
  try_spend t = (negb (budget t =? 0), set_budget (Z.max 0 (budget t - 1)) t).
Proof.
  intros Ht. unfold budget_ok, try_spend, u64_max in *.
  destruct (Z.eqb_spec (budget t) 0) as [E | E]; destruct (Z.ltb_spec (budget t) 1); try lia; simpl.
  - by rewrite E.
  - rewrite Z.mod_small by (unfold u64_size; lia). by rewrite Z.max_r by lia.
Qed.

Lemma exhausted_spec w t :
  exhausted w t =
  if budget t =? 0 then (true, wake w (budget_yield t)) else (false, t).
Proof. unfold exhausted. by destruct (budget t =? 0). Qed.

Lemma spent_one_spec t :
  budget_ok t -> budget t <> 0 -> spent_one t = set_budget (budget t - 1) t.
Proof.
  unfold budget_ok, spent_one, u64_max. intros ? ?. rewrite Z.mod_small; [done | unfold u64_size; lia].
Qed.

(** What [poll_budget] does with a body that leaves the budget as it finds it. *)
Lemma poll_budget_spec {T} w (poll : Thread -> Poll T * Thread) t :
  budget_ok t -> (forall t, budget (poll t).2 = budget t) ->
  poll_budget w poll t =
  if budget t =? 0 then (Pending, wake w (budget_yield t))
  else
    let '(r, t') := poll (set_budget (budget t - 1) t) in
    (r, if is_pending r then set_budget (budget t) t' else t').
Proof.
  intros Ht Hp. unfold poll_budget. rewrite try_spend_spec by done.
  destruct (Z.eqb_spec (budget t) 0) as [E | E]; simpl.
  - unfold wake, budget_yield, set_budget. simpl. rewrite E. by destruct t; simpl in *; subst.
  - unfold budget_ok in Ht. rewrite Z.max_r by lia.
    specialize (Hp (set_budget (budget t - 1) t)). destruct (poll _) as [r t'] eqn:Er. simpl in Hp.
    destruct (is_pending r); [| done]. unfold refund. rewrite Hp. do 2 f_equal. lia.
Qed.

(** The operations of one poll, each the answer its body gives: how many
    complete, and the thread after them. *)
Fixpoint run_ops (w : Waker) (answers : list (Poll Z)) (t : Thread) : Z * Thread :=
  match answers with
  | [] => (0, t)
  | a :: rest =>
      let '(r, t) := poll_budget w (fun t => (a, t)) t in
      let '(done, t) := run_ops w rest t in
      ((if is_pending r then 0 else 1) + done, t)
  end.

Definition readies (answers : list (Poll Z)) : Z :=
  vlen (filter (fun a => is_pending a = false) answers).

Lemma run_ops_spec w answers t :
  budget_ok t ->
  let '(n, t') := run_ops w answers t in
  n = Z.min (budget t) (readies answers) /\ budget t' = budget t - n /\ task t' = task t.
Proof.
  revert t. induction answers as [|a rest IH]; intros t Ht; simpl.
  { change (readies []) with 0. unfold budget_ok in *. repeat split; lia. }
  rewrite poll_budget_spec by done.
  assert (Hr : readies (a :: rest) = (if is_pending a then 0 else 1) + readies rest).
  { unfold readies. destruct (is_pending a) eqn:E.
    - rewrite filter_cons_False by (by rewrite E). lia.
    - rewrite filter_cons_True, vlen_cons by done. done. }
  assert (Hpos : 0 <= readies rest) by apply vlen_nonneg.
  unfold budget_ok in *. destruct (Z.eqb_spec (budget t) 0) as [E | E].
  - specialize (IH (wake w (budget_yield t))). simpl in IH. specialize (IH Ht).
    destruct (run_ops _ _ _) as [n t']. destruct IH as (-> & -> & ->). simpl.
    rewrite Hr. destruct (is_pending a); repeat split; lia.
  - rewrite Hr. destruct (is_pending a); simpl.
    + specialize (IH (set_budget (budget t) (set_budget (budget t - 1) t))). simpl in IH.
      specialize (IH Ht). destruct (run_ops _ _ _) as [n t']. destruct IH as (-> & -> & ->).
      repeat split; lia.
    + specialize (IH (set_budget (budget t - 1) t)). simpl in IH.
      destruct (run_ops _ _ _) as [n t']. destruct IH as (-> & -> & ->); [lia |].
      repeat split; lia.
Qed.

Lemma run_ops_woken w answers t x : x ∈ woken t -> x ∈ woken (run_ops w answers t).2.
Proof.
  revert t. induction answers as [|a rest IH]; intros t Hx; [done |]. simpl.
  destruct (poll_budget w _ t) as [r t1] eqn:E. destruct (run_ops w rest t1) as [n t2] eqn:E2.
  change t2 with (n, t2).2. rewrite <- E2. apply IH. unfold poll_budget, try_spend, refused in E.
  destruct (budget t <? 1); simpl in E; injection E as <- <-; [set_solver |].
  by destruct (is_pending a).
Qed.

Lemma run_ops_yields w answers t :
  budget_ok t -> budget t < readies answers -> w ∈ woken (run_ops w answers t).2.
Proof.
  revert t. induction answers as [|a rest IH]; intros t Ht Hlt; unfold budget_ok in *.
  { change (readies []) with 0 in Hlt. lia. }
  simpl. rewrite poll_budget_spec by done. destruct (Z.eqb_spec (budget t) 0) as [E | E].
  - destruct (run_ops _ _ _) as [n t2] eqn:E2. simpl. change t2 with (n, t2).2. rewrite <- E2.
    apply run_ops_woken. simpl. set_solver.
  - destruct (run_ops _ _ _) as [n t2] eqn:E2. simpl. change t2 with (n, t2).2. rewrite <- E2.
    unfold readies in *. destruct (is_pending a) eqn:Ea.
    + rewrite filter_cons_False in Hlt by congruence. by apply IH.
    + rewrite filter_cons_True, vlen_cons in Hlt by done. apply IH; simpl; lia.
Qed.

(** One poll of a task completes at most [BUDGET] operations, however many
    are ready: with the budget [enter_task] gives, the operations that complete
    are the ready ones up to the budget; a task that had more ready is woken
    again; and [leave_task] puts back the budget and the task from before. *)
Theorem poll_completes_at_most_budget id w answers t :
  let '(e, t1) := enter_task id t in
  let '(n, t2) := run_ops w answers t1 in
  n = Z.min BUDGET (readies answers) /\
  (BUDGET < readies answers -> w ∈ woken t2) /\
  current_task t1 = Some id /\ current_task t2 = Some id /\
  budget (leave_task e t2) = budget t /\ current_task (leave_task e t2) = current_task t.
Proof.
  simpl. set (t1 := set_task _ _).
  pose proof (run_ops_spec w answers t1 ltac:(done)) as Hs.
  pose proof (run_ops_yields w answers t1 ltac:(done)) as Hy.
  destruct (run_ops w answers t1) as [n t2]. destruct Hs as (Hn & _ & Ht). simpl in *.
  unfold current_task. simpl. by rewrite Ht.
Qed.
