(* ===== verification/Chains.v ===== *)
(** * Chains: lists linked by index through a slab

    The timer wheel ([time/wheel.rs]) and the waiter list of the single-shard
    primitives ([sync/local/waiters.rs]) keep their entries in a [Vec] and
    link them by index: doubly for the lists entries are taken out of in the
    middle, singly for the list of free entries. This file says once what it
    means that such a slab holds a given list of indices, and what the edits
    the two components make do to it. *)

From S2P Require Import Prelude.
Open Scope Z_scope.

(** The end of a list, [usize::MAX] in both components. *)
Definition NIL : Z := usize_max.

Set Default Proof Using "Type".

Section chains.
Context {E : Type} (prev next : E -> Z).
Implicit Types (l : list E) (a b c : list Z) (i p n : Z) (e : E).

(** [dseg l p a n]: the entries [a] of [l] are doubly linked in order, the
    first one's [prev] is [p] and the last one's [next] is [n]. *)
Fixpoint dseg l p a n : Prop :=
  match a with
  | [] => True
  | i :: r =>
      exists e, l !!z i = Some e /\ prev e = p /\ next e = List.hd n r /\ dseg l i r n
  end.

(** [fseg l a n]: the same through [next] alone. *)
Fixpoint fseg l a n : Prop :=
  match a with
  | [] => True
  | i :: r => exists e, l !!z i = Some e /\ next e = List.hd n r /\ fseg l r n
  end.

Lemma dseg_app l p a b n :
  dseg l p (a ++ b) n <-> dseg l p a (List.hd n b) /\ dseg l (List.last a p) b n.
Proof.
  revert p. induction a as [|i a IH]; intros p; simpl; [tauto |].
  setoid_rewrite IH. destruct a as [|j a]; simpl.
  - split; [intros (e & ? & ? & ? & _ & ?) | intros [(e & ? & ? & ? & _) ?]]; eauto 10.
  - assert (Hl : forall q, List.last (j :: a) q = List.last (j :: a) i).
    { clear. intros q. revert j. induction a as [|k a IH]; intros j; [done |].
      change (List.last (k :: a) q = List.last (k :: a) i). apply IH. }
    simpl in Hl. rewrite (Hl p).
    split; [intros (e & ? & ? & ? & ? & ?) | intros [(e & ? & ? & ? & ?) ?]]; eauto 10.
Qed.

Lemma dseg_fseg l p a n : dseg l p a n -> fseg l a n.
Proof.
  revert p. induction a as [|i a IH]; intros p; simpl; [done |].
  intros (e & ? & ? & ? & ?). eauto.
Qed.

(** Two slabs that agree on the links of the entries of [a]. *)
Lemma dseg_frame l l' p a n :
  (forall i e, i ∈ a -> l !!z i = Some e ->
     exists e', l' !!z i = Some e' /\ prev e' = prev e /\ next e' = next e) ->
  dseg l p a n -> dseg l' p a n.
Proof.
  revert p. induction a as [|i a IH]; intros p Hf; simpl; [done |].
  intros (e & Hi & Hp & Hn & Hs).
  destruct (Hf i e) as (e' & ? & ? & ?); [set_solver | done |].
  exists e'. split; [done |]. split; [congruence |]. split; [congruence |].
  apply IH; [| done]. intros. apply Hf; set_solver.
Qed.

Lemma fseg_frame l l' a n :
  (forall i e, i ∈ a -> l !!z i = Some e ->
     exists e', l' !!z i = Some e' /\ next e' = next e) ->
  fseg l a n -> fseg l' a n.
Proof.
  clear prev.
  induction a as [|i a IH]; intros Hf; simpl; [done |].
  intros (e & Hi & Hn & Hs).
  destruct (Hf i e) as (e' & ? & ?); [set_solver | done |].
  exists e'. split; [done |]. split; [congruence |].
  apply IH; [| done]. intros. apply Hf; set_solver.
Qed.

Lemma dseg_vset l p a n i e :
  i ∉ a -> dseg l p a n -> dseg (vset l i e) p a n.
Proof.
  intros Hi. apply dseg_frame. intros j f Hj Hl.
  exists f. rewrite vget_vset_ne by set_solver. done.
Qed.

Lemma fseg_vset l a n i e : i ∉ a -> fseg l a n -> fseg (vset l i e) a n.
Proof.
  clear prev.
  intros Hi. apply fseg_frame. intros j f Hj Hl.
  exists f. rewrite vget_vset_ne by set_solver. done.
Qed.

(** Changing an entry in place, its links kept. *)
Lemma dseg_vset_same l p a n i e e' :
  l !!z i = Some e -> prev e' = prev e -> next e' = next e ->
  dseg l p a n -> dseg (vset l i e') p a n.
Proof.
  intros Hi Hp Hn. apply dseg_frame. intros j f Hj Hl.
  destruct (Z.eq_dec j i) as [-> | Hne].
  - rewrite (vget_vset_eq _ _ _ e) by done. exists e'. split; [done |].
    split; congruence.
  - rewrite vget_vset_ne by done. eauto.
Qed.

Lemma fseg_vset_same l a n i e e' :
  l !!z i = Some e -> next e' = next e -> fseg l a n -> fseg (vset l i e') a n.
Proof.
  clear prev.
  intros Hi Hn. apply fseg_frame. intros j f Hj Hl.
  destruct (Z.eq_dec j i) as [-> | Hne].
  - rewrite (vget_vset_eq _ _ _ e) by done. exists e'. split; [done | congruence].
  - rewrite vget_vset_ne by done. eauto.
Qed.

Lemma dseg_in l p a n i : dseg l p a n -> i ∈ a -> exists e, l !!z i = Some e.
Proof.
  revert p. induction a as [|j a IH]; intros p; simpl; [set_solver |].
  intros (e & ? & _ & _ & ?) [-> | Hi]%elem_of_cons; eauto.
Qed.

Lemma fseg_in l a n i : fseg l a n -> i ∈ a -> exists e, l !!z i = Some e.
Proof.
  clear prev.
  induction a as [|j a IH]; simpl; [set_solver |].
  intros (e & ? & _ & ?) [-> | Hi]%elem_of_cons; eauto.
Qed.

Lemma dseg_middle l p a i b n :
  dseg l p (a ++ i :: b) n ->
  exists e, l !!z i = Some e /\ prev e = List.last a p /\ next e = List.hd n b /\
  dseg l p a i /\ dseg l i b n.
Proof. rewrite dseg_app. simpl. intros [? (e & ? & ? & ? & ?)]. eauto 10. Qed.

(** The first entry's [prev] is set to [p']. *)
Lemma dseg_set_first l p p' i b n e e' :
  dseg l p (i :: b) n -> i ∉ b -> l !!z i = Some e ->
  prev e' = p' -> next e' = next e ->
  dseg (vset l i e') p' (i :: b) n.
Proof.
  simpl. intros (f & Hf & Hp & Hn & Hs) Hi He Hp' Hn'.
  exists e'. rewrite (vget_vset_eq _ _ _ e) by done.
  split; [done |]. split; [done |]. split; [congruence |].
  by apply dseg_vset.
Qed.

(** The last entry's [next] is set to [n']. *)
Lemma dseg_set_last l p a i n n' e e' :
  dseg l p (a ++ [i]) n -> i ∉ a -> l !!z i = Some e ->
  next e' = n' -> prev e' = prev e ->
  dseg (vset l i e') p (a ++ [i]) n'.
Proof.
  rewrite !dseg_app. simpl. intros [Ha (f & Hf & Hp & Hn & _)] Hi He Hn' Hp'.
  split.
  - by apply dseg_vset.
  - exists e'. rewrite (vget_vset_eq _ _ _ e) by done.
    split; [done |]. split; [congruence |]. done.
Qed.

(** Indices of a chain are below the slab's length, so none is [NIL]. *)
Lemma hd_chain_NIL l p a :
  dseg l p a NIL -> vlen l <= NIL -> List.hd NIL a = NIL <-> a = [].
Proof.
  destruct a as [|i a]; simpl; [tauto |].
  intros (e & Hi%vget_bound & _) Hl. split; [lia | done].
Qed.

Lemma hd_fchain_NIL l a :
  fseg l a NIL -> vlen l <= NIL -> List.hd NIL a = NIL <-> a = [].
Proof.
  clear prev.
  destruct a as [|i a]; simpl; [tauto |].
  intros (e & Hi%vget_bound & _) Hl. split; [lia | done].
Qed.

Lemma last_chain_NIL l p n a :
  dseg l p a n -> vlen l <= NIL -> List.last a NIL = NIL <-> a = [].
Proof.
  intros Hs Hl. destruct a as [|i a] using rev_ind; [simpl; tauto |].
  rewrite last_last. apply dseg_app in Hs as [_ (e & Hi%vget_bound & _)].
  split; [lia |]. intros H. by apply app_eq_nil in H as [_ ?].
Qed.
End chains.

(** ** Edits of the neighbours *)

Section edits.
Context {E : Type} (prev next : E -> Z) (set_prev set_next : Z -> E -> E).
Hypothesis prev_set_prev : forall x e, prev (set_prev x e) = x.
Hypothesis next_set_prev : forall x e, next (set_prev x e) = next e.
Hypothesis next_set_next : forall x e, next (set_next x e) = x.
Hypothesis prev_set_next : forall x e, prev (set_next x e) = prev e.
Implicit Types (l : list E) (a b : list Z) (i p n : Z) (e : E).

(** The entry [j] changed by [f], where [j] names one. *)
Definition edit (f : E -> E) l (j : Z) : list E :=
  if j =? NIL then l
  else match l !!z j with Some e => vset l j (f e) | None => l end.

(** The neighbours [p] and [n] of an entry taken out, each told of the other. *)
Definition cut l p n : list E := edit (set_prev p) (edit (set_next n) l p) n.

Lemma vlen_edit f l j : vlen (edit f l j) = vlen l.
Proof.
  unfold edit. destruct (j =? NIL); [done |]. destruct (l !!z j); [apply vlen_vset | done].
Qed.

Lemma edit_ne f l j k : k <> j -> edit f l j !!z k = l !!z k.
Proof.
  intros. unfold edit. destruct (j =? NIL); [done |]. destruct (l !!z j); [| done].
  by apply vget_vset_ne.
Qed.

Lemma edit_eq f l j e : j <> NIL -> l !!z j = Some e -> edit f l j = vset l j (f e).
Proof. intros Hj He. unfold edit. destruct (Z.eqb_spec j NIL); [done |]. by rewrite He. Qed.

Lemma edit_next_last l a n n' :
  dseg prev next l NIL a n -> NoDup a -> vlen l <= NIL ->
  dseg prev next (edit (set_next n') l (List.last a NIL)) NIL a n'.
Proof using All.
  intros Hs Hn Hl. destruct a as [|x a _] using rev_ind; [done |].
  rewrite last_last. pose proof Hs as Hx. apply dseg_app in Hx as [_ (e & He & _)].
  rewrite (edit_eq _ _ _ e) by (try done; apply vget_bound in He; lia).
  apply NoDup_app in Hn as (_ & Hdis & _).
  eapply dseg_set_last; [done | | done | apply next_set_next | apply prev_set_next].
  intros Hx. apply (Hdis x Hx). set_solver.
Qed.

Lemma edit_prev_first l b p p' :
  dseg prev next l p b NIL -> NoDup b -> vlen l <= NIL ->
  dseg prev next (edit (set_prev p') l (List.hd NIL b)) p' b NIL.
Proof using All.
  intros Hs Hn Hl. destruct b as [|y b]; [done |]. cbn [List.hd].
  pose proof Hs as (e & He & _). apply NoDup_cons in Hn as [Hy _].
  rewrite (edit_eq _ _ _ e) by (try done; apply vget_bound in He; lia).
  eapply dseg_set_first; [done | done | done | apply prev_set_prev | apply next_set_prev].
Qed.

Lemma edit_dseg_out f l p a n j :
  j ∉ a -> dseg prev next l p a n -> dseg prev next (edit f l j) p a n.
Proof.
  intros Hj. apply dseg_frame. intros i e Hi He. exists e.
  rewrite edit_ne by (by intros ->). done.
Qed.

(** Taking [i] out of the middle leaves the rest linked. *)
Lemma cut_dseg l a i b :
  dseg prev next l NIL (a ++ i :: b) NIL -> NoDup (a ++ i :: b) -> vlen l <= NIL ->
  dseg prev next (cut l (List.last a NIL) (List.hd NIL b)) NIL (a ++ b) NIL.
Proof using All.
  intros Hs (Ha & Hdis & Hb)%NoDup_app Hl. apply NoDup_cons in Hb as [Hi Hb].
  apply dseg_middle in Hs as (e & He & _ & _ & Hsa & Hsb).
  apply dseg_app. unfold cut.
  assert (Hla : a <> [] -> List.last a NIL ∈ a).
  { intros Hne. destruct a as [|x a _] using rev_ind; [done |]. rewrite last_last. set_solver. }
  assert (Hhb : b <> [] -> List.hd NIL b ∈ b) by (destruct b; [done | set_solver]).
  split.
  - destruct b as [|y b]; [cbn [List.hd]; unfold edit at 1; simpl; by eapply edit_next_last |].
    cbn [List.hd]. apply edit_dseg_out; [| by eapply edit_next_last].
    intros Hy. apply (Hdis y Hy). set_solver.
  - apply (edit_prev_first _ _ i); [| done | by rewrite vlen_edit].
    destruct a as [|x a _] using rev_ind; [done |]. rewrite last_last in *.
    apply edit_dseg_out; [| done]. intros Hx. apply (Hdis x); set_solver.
Qed.
End edits.
