(* ===== verification/Wheel.v ===== *)
(** * The timer wheel of a shard: [time/wheel.rs]

    The data and every operation of [Wheel], as the source has them. The
    entries are a slab linked by index ([Chains]); a read out of range, a
    sum past the word and a failed [debug_assert] are [None]. *)

From S2P Require Import Prelude Chains.
Open Scope Z_scope.

Definition SLOT_BITS : Z := 6.
Definition SLOTS : Z := Z.shiftl 1 SLOT_BITS.
Definition LEVELS : Z := 6.
Definition SPAN : Z := Z.shiftl 1 (SLOT_BITS * LEVELS).

Record TimerKey := { key_index : Z; key_generation : Z }.

Inductive Place :=
| Free
| Armed (level slot : Z).

Record Entry := {
  when : Z;
  waker : option Waker;
  prev : Z;
  next : Z;
  generation : Z;
  place : Place;
}.

Record Level := { occupied : Z; heads : list Z }.

Record Wheel := {
  elapsed : Z;
  levels : list Level;
  entries : list Entry;
  free : Z;
  armed : Z;
  phantom : Z;
  tag : Z;
}.

(** ** Field updates *)

Definition set_elapsed (x : Z) (w : Wheel) : Wheel :=
  {| elapsed := x; levels := levels w; entries := entries w; free := free w;
     armed := armed w; phantom := phantom w; tag := tag w |}.
Definition set_levels (x : list Level) (w : Wheel) : Wheel :=
  {| elapsed := elapsed w; levels := x; entries := entries w; free := free w;
     armed := armed w; phantom := phantom w; tag := tag w |}.
Definition set_entries (x : list Entry) (w : Wheel) : Wheel :=
  {| elapsed := elapsed w; levels := levels w; entries := x; free := free w;
     armed := armed w; phantom := phantom w; tag := tag w |}.
Definition set_free (x : Z) (w : Wheel) : Wheel :=
  {| elapsed := elapsed w; levels := levels w; entries := entries w; free := x;
     armed := armed w; phantom := phantom w; tag := tag w |}.
Definition set_armed (x : Z) (w : Wheel) : Wheel :=
  {| elapsed := elapsed w; levels := levels w; entries := entries w; free := free w;
     armed := x; phantom := phantom w; tag := tag w |}.
Definition set_phantom_field (x : Z) (w : Wheel) : Wheel :=
  {| elapsed := elapsed w; levels := levels w; entries := entries w; free := free w;
     armed := armed w; phantom := x; tag := tag w |}.
Definition set_tag (x : Z) (w : Wheel) : Wheel :=
  {| elapsed := elapsed w; levels := levels w; entries := entries w; free := free w;
     armed := armed w; phantom := phantom w; tag := x |}.

Definition set_when (x : Z) (e : Entry) : Entry :=
  {| when := x; waker := waker e; prev := prev e; next := next e;
     generation := generation e; place := place e |}.
Definition set_waker (x : option Waker) (e : Entry) : Entry :=
  {| when := when e; waker := x; prev := prev e; next := next e;
     generation := generation e; place := place e |}.
Definition set_prev (x : Z) (e : Entry) : Entry :=
  {| when := when e; waker := waker e; prev := x; next := next e;
     generation := generation e; place := place e |}.
Definition set_next (x : Z) (e : Entry) : Entry :=
  {| when := when e; waker := waker e; prev := prev e; next := x;
     generation := generation e; place := place e |}.
Definition set_generation (x : Z) (e : Entry) : Entry :=
  {| when := when e; waker := waker e; prev := prev e; next := next e;
     generation := x; place := place e |}.
Definition set_place (x : Place) (e : Entry) : Entry :=
  {| when := when e; waker := waker e; prev := prev e; next := next e;
     generation := generation e; place := x |}.

(** [self.entries[index]] changed in place by [f]; a panic out of range. *)
Definition on_entry (index : Z) (f : Entry -> Entry) (w : Wheel) : option Wheel :=
  e ← entries w !!z index;
  Some (set_entries (vset (entries w) index (f e)) w).

(** [self.levels[level]] changed in place by [f]; a panic out of range. *)
Definition on_level (level : Z) (f : Level -> Level) (w : Wheel) : option Wheel :=
  lv ← levels w !!z level;
  Some (set_levels (vset (levels w) level (f lv)) w).

Definition set_head (slot x : Z) (lv : Level) : Level :=
  {| occupied := occupied lv; heads := vset (heads lv) slot x |}.
Definition set_bit (slot : Z) (lv : Level) : Level :=
  {| occupied := Z.lor (occupied lv) (Z.shiftl 1 slot); heads := heads lv |}.
Definition clear_bit (slot : Z) (lv : Level) : Level :=
  {| occupied := Z.ldiff (occupied lv) (Z.shiftl 1 slot); heads := heads lv |}.

(** ** Placement *)

Definition level_for (elapsed when : Z) : Z :=
  let masked := Z.min (Z.lor (Z.lxor elapsed when) (SLOTS - 1)) (SPAN - 1) in
  let significant := 63 - leading_zeros masked in
  significant / SLOT_BITS.

Definition slot_for (when level : Z) : Z :=
  Z.land (Z.shiftr when (level * SLOT_BITS)) (SLOTS - 1).

Definition level_by_windows (elapsed when : Z) : Z :=
  default (LEVELS - 1)
    (List.find
       (fun l =>
          let width := SLOT_BITS * (l + 1) in
          Z.shiftr elapsed width =? Z.shiftr when width)
       (seqZ 0 LEVELS)).

(** ** Making a wheel *)

Definition Level_new : Level :=
  {| occupied := 0; heads := replicate (Z.to_nat SLOTS) NIL |}.

Definition new : Wheel :=
  {| elapsed := 0; levels := replicate (Z.to_nat LEVELS) Level_new; entries := [];
     free := NIL; armed := 0; phantom := 0; tag := 0 |}.

Definition tagged (t : Z) : Wheel := set_tag t new.

Definition set_phantom (n : Z) (w : Wheel) : option Wheel :=
  own ← sub64 (armed w) (phantom w);
  total ← add64 own n;
  Some (set_phantom_field n (set_armed total w)).

Definition take_wakers (w : Wheel) : list Waker * Wheel :=
  (omap waker (entries w), set_entries (set_waker None <$> entries w) w).

(** ** Entries *)

Definition Place_eqb (a b : Place) : bool :=
  match a, b with
  | Free, Free => true
  | Armed l s, Armed l' s' => (l =? l') && (s =? s')
  | _, _ => false
  end.

Definition is_free (p : Place) : bool := Place_eqb p Free.

(** The entry of a key that is not stale. *)
Definition entry (w : Wheel) (key : TimerKey) : option Entry :=
  e ← entries w !!z key_index key;
  if (generation e =? key_generation key) && negb (is_free (place e)) then Some e else None.

(** The index of a key that is not stale. *)
Definition live (w : Wheel) (key : TimerKey) : option Z :=
  (fun _ => key_index key) <$> entry w key.

Definition grow (w : Wheel) : Z * Wheel :=
  (vlen (entries w),
   set_entries
     (entries w ++ [{| when := 0; waker := None; prev := NIL; next := NIL;
                       generation := tag w; place := Free |}]) w).

Definition alloc (w : Wheel) : option (Z * Wheel) :=
  if negb (free w =? NIL) then
    let index := free w in
    e ← entries w !!z index;
    Some (index, set_free (next e) w)
  else Some (grow w).

(** Puts the unlinked entry [index] on the free list; answers its waker. *)
Definition release (index : Z) (w : Wheel) : option (option Waker * Wheel) :=
  e ← entries w !!z index;
  let e' :=
    set_next (free w)
      (set_generation (wrapping_add 64 (generation e) 1)
         (set_place Free (set_waker None e))) in
  Some (waker e, set_free index (set_entries (vset (entries w) index e') w)).

(** Links an entry into the slot its deadline belongs to now. *)
Definition link (index : Z) (w : Wheel) : option Wheel :=
  e ← entries w !!z index;
  edge ← add64 (elapsed w) SPAN;
  edge ← sub64 edge 1;
  let placed := Z.min (when e) edge in
  let level := level_for (elapsed w) placed in
  let slot := slot_for placed level in
  lv ← levels w !!z level;
  head ← heads lv !!z slot;
  w ← on_level level (fun lv => set_bit slot (set_head slot index lv)) w;
  w ← (if negb (head =? NIL) then on_entry head (set_prev index) w else Some w);
  w ← on_entry index
        (fun e => set_place (Armed level slot) (set_next head (set_prev NIL e))) w;
  total ← add64 (armed w) 1;
  Some (set_armed total w).

(** Unlinks an armed entry from its slot. *)
Definition unlink (index : Z) (w : Wheel) : option Wheel :=
  e ← entries w !!z index;
  match place e with
  | Free => Some w
  | Armed level slot =>
      let p := prev e in
      let n := next e in
      w ← (if p =? NIL then
             w ← on_level level (set_head slot n) w;
             if n =? NIL then on_level level (clear_bit slot) w else Some w
           else on_entry p (set_next n) w);
      w ← (if negb (n =? NIL) then on_entry n (set_prev p) w else Some w);
      total ← sub64 (armed w) 1;
      Some (set_armed total w)
  end.

(** ** The public operations *)

Definition insert (w : Wheel) (at_ : Z) (wk : Waker) : option (Result TimerKey Waker * Wheel) :=
  if at_ <=? elapsed w then Some (Err wk, w)
  else
    '(index, w) ← alloc w;
    w ← on_entry index (fun e => set_waker (Some wk) (set_when at_ e)) w;
    w ← link index w;
    e ← entries w !!z index;
    Some (Ok {| key_index := index; key_generation := generation e |}, w).

Definition is_fired (w : Wheel) (key : TimerKey) : bool :=
  match entry w key with None => true | Some _ => false end.

Definition wakes (w : Wheel) (key : TimerKey) (wk : Waker) : bool :=
  match entry w key with
  | Some e => match waker e with Some old => will_wake old wk | None => false end
  | None => false
  end.

Definition replace_waker (w : Wheel) (key : TimerKey) (wk : Waker)
    : option (option Waker * Wheel) :=
  match live w key with
  | Some index =>
      e ← entries w !!z index;
      w ← on_entry index (set_waker (Some wk)) w;
      Some (waker e, w)
  | None => Some (Some wk, w)
  end.

Definition remove (w : Wheel) (key : TimerKey) : option (option Waker * Wheel) :=
  match live w key with
  | None => Some (None, w)
  | Some index =>
      w ← unlink index w;
      release index w
  end.

Definition reset (w : Wheel) (key : TimerKey) (at_ : Z) (wk : Waker) : option Wheel :=
  match live w key with
  | None => Some w
  | Some index =>
      w ← unlink index w;
      if at_ <=? elapsed w then
        '(_, w) ← release index w;
        Some w
      else
        w ← on_entry index
              (fun e =>
                 let e := set_when at_ e in
                 if match waker e with Some x => will_wake x wk | None => false end
                 then e else set_waker (Some wk) e) w;
        link index w
  end.

(** ** The next slot *)

(** The first occupied slot of a level after the wheel's position, and the
    time it comes: in the window the wheel is in, or, on the top level alone,
    in the next one. *)
Definition first_occupied (now level occ : Z) : option (Z * Z) :=
  let shift := level * SLOT_BITS in
  let now_slot := slot_for now level in
  let range := Z.shiftl 1 (shift + SLOT_BITS) in
  let window := Z.ldiff now (range - 1) in
  let after :=
    if now_slot + 1 <? SLOTS
    then Z.land occ (Z.shiftl u64_max (now_slot + 1) mod u64_size)
    else 0 in
  if negb (after =? 0) then
    let slot := trailing_zeros after in
    deadline ← add64 window (Z.shiftl slot shift);
    Some (slot, deadline)
  else if level =? LEVELS - 1 then
    let slot := trailing_zeros occ in
    deadline ← add64 window range;
    deadline ← add64 deadline (Z.shiftl slot shift);
    Some (slot, deadline)
  else None.

(** What one level adds to the search: its first occupied slot, or [best]
    where the level holds nothing or comes no earlier. *)
Definition scan_level (now level : Z) (lv : Level) (best : option (Z * Z * Z))
    : option (option (Z * Z * Z)) :=
  if occupied lv =? 0 then Some best
  else
    '(slot, deadline) ← first_occupied now level (occupied lv);
    Some (match best with
          | Some (_, _, d) => if deadline <? d then Some (level, slot, deadline) else best
          | None => Some (level, slot, deadline)
          end).

Fixpoint scan_levels (now level : Z) (lvs : list Level) (best : option (Z * Z * Z))
    : option (option (Z * Z * Z)) :=
  match lvs with
  | [] => Some best
  | lv :: rest =>
      best ← scan_level now level lv best;
      scan_levels now (level + 1) rest best
  end.

Definition next_slot (w : Wheel) : option (option (Z * Z * Z)) :=
  scan_levels (elapsed w) 0 (levels w) None.

Definition next_deadline (w : Wheel) : option (option Z) :=
  best ← next_slot w;
  Some (match best with Some (_, _, deadline) => Some deadline | None => None end).

(** ** Time passes *)

(** One entry of a slot that came: fired if it is due, placed again if not. *)
Definition drain_pass (now : Z) (st : Wheel * list Waker * Z)
    : option (flow (Wheel * list Waker * Z)) :=
  let '(w, fired, index) := st in
  if index =? NIL then Some (Stop st)
  else
    e ← entries w !!z index;
    let nxt := next e in
    if when e <=? now then
      total ← sub64 (armed w) 1;
      let w := set_armed total w in
      let fired := match waker e with Some x => fired ++ [x] | None => fired end in
      w ← on_entry index (set_waker None) w;
      '(_, w) ← release index w;
      Some (Go (w, fired, nxt))
    else
      total ← sub64 (armed w) 1;
      w ← link index (set_armed total w);
      Some (Go (w, fired, nxt)).

(** One slot that is due at [now], if there is one. *)
Definition advance_pass (now : Z) (st : Wheel * list Waker)
    : option (flow (Wheel * list Waker)) :=
  let '(w, fired) := st in
  best ← next_slot w;
  match best with
  | None => Some (Stop st)
  | Some (level, slot, deadline) =>
      if now <? deadline then Some (Stop st)
      else
        let w := set_elapsed deadline w in
        lv ← levels w !!z level;
        index ← heads lv !!z slot;
        w ← on_level level (fun lv => clear_bit slot (set_head slot NIL lv)) w;
        '(w, fired, _) ← while (vlen (entries w) + 1) (drain_pass now) (w, fired, index);
        Some (Go (w, fired))
  end.

Definition advance (w : Wheel) (now : Z) (fired : list Waker) : option (Wheel * list Waker) :=
  '(w, fired) ← while (Z.max 0 (now - elapsed w) + 1) (advance_pass now) (w, fired);
  Some (set_elapsed (Z.max (elapsed w) now) w, fired).
