(* ===== verification/WheelPlace.v ===== *)
(** * Where the wheel places a timer

    The arithmetic of [level_for], [slot_for] and the slot search of
    [time/wheel.rs]: the time a slot comes is one function [slot_time] of the
    wheel's time, the same on every level, and stays what it was while the
    wheel's time has not reached it. *)

From Stdlib Require Import Btauto.
From S2P Require Import Prelude Chains Wheel.
Open Scope Z_scope.

Lemma SLOTS_eq : SLOTS = 64. Proof. reflexivity. Qed.
Lemma SPAN_eq : SPAN = 2 ^ 36. Proof. reflexivity. Qed.

(** The first time after the slot the wheel is in now at which slot [s] of
    [level] begins. *)
Definition slot_time (now level s : Z) : Z :=
  let c := now / 64 ^ level in
  (c + 1 + (s - c - 1) mod 64) * 64 ^ level.

(** The six levels, for case analysis down to numerals. *)
Lemma level_cases level :
  0 <= level < LEVELS ->
  level = 0 \/ level = 1 \/ level = 2 \/ level = 3 \/ level = 4 \/ level = 5.
Proof. unfold LEVELS. lia. Qed.

Ltac on_each_level H :=
  apply level_cases in H as [-> | [-> | [-> | [-> | [-> | ->]]]]].

Lemma pow64_pos level : 0 <= level -> 0 < 64 ^ level.
Proof. intros. apply Z.pow_pos_nonneg; lia. Qed.

(** ** [level_for] picks the level of [level_by_windows] *)

Lemma shiftr_eq_lt a b k :
  0 <= a -> 0 <= b -> 0 <= k ->
  (Z.shiftr a k =? Z.shiftr b k) = (Z.lxor a b <? 2 ^ k).
Proof.
  intros Ha Hb Hk.
  assert (Hx : 0 <= Z.lxor a b) by (apply Z.lxor_nonneg; lia).
  assert (Hp : 0 < 2 ^ k) by (apply Z.pow_pos_nonneg; lia).
  destruct (Z.ltb_spec (Z.lxor a b) (2 ^ k)) as [Hlt | Hge].
  - apply Z.eqb_eq, Z.lxor_eq. rewrite <- Z.shiftr_lxor, Z.shiftr_div_pow2 by lia.
    by apply Z.div_small.
  - apply Z.eqb_neq. intros Heq%Z.lxor_eq_0_iff.
    rewrite <- Z.shiftr_lxor, Z.shiftr_div_pow2 in Heq by lia.
    apply Z.div_small_iff in Heq; lia.
Qed.

(** The level by how far apart the two times are, in bits. *)
Definition level_of_xor (x : Z) : Z :=
  if x <? 2 ^ 6 then 0 else if x <? 2 ^ 12 then 1 else if x <? 2 ^ 18 then 2
  else if x <? 2 ^ 24 then 3 else if x <? 2 ^ 30 then 4 else 5.

Lemma level_by_windows_xor a b :
  0 <= a -> 0 <= b -> level_by_windows a b = level_of_xor (Z.lxor a b).
Proof.
  intros Ha Hb. unfold level_by_windows, level_of_xor.
  change (seqZ 0 LEVELS) with [0; 1; 2; 3; 4; 5]. cbn [List.find]. cbv zeta.
  unfold SLOT_BITS, LEVELS. rewrite !shiftr_eq_lt by lia.
  change (6 * (0 + 1)) with 6. change (6 * (1 + 1)) with 12. change (6 * (2 + 1)) with 18.
  change (6 * (3 + 1)) with 24. change (6 * (4 + 1)) with 30.
  repeat (destruct (Z.ltb _ _); [done |]). done.
Qed.

Lemma ltb_pow2_log2 x k : 0 < x -> 0 <= k -> (x <? 2 ^ k) = (Z.log2 x <? k).
Proof.
  intros Hx Hk. apply eq_bool_prop_intro. rewrite !Is_true_true, !Z.ltb_lt.
  by apply Z.log2_lt_pow2.
Qed.

Lemma log2_min a b : Z.log2 (Z.min a b) = Z.min (Z.log2 a) (Z.log2 b).
Proof.
  destruct (Z.le_ge_cases a b) as [H | H]; pose proof (Z.log2_le_mono _ _ H);
    [rewrite !Z.min_l | rewrite !Z.min_r]; lia.
Qed.

Lemma level_for_xor a b :
  0 <= a -> 0 <= b -> level_for a b = level_of_xor (Z.lxor a b).
Proof.
  intros Ha Hb. unfold level_for. rewrite SLOTS_eq, SPAN_eq. unfold SLOT_BITS.
  set (x := Z.lxor a b).
  assert (Hx : 0 <= x) by (apply Z.lxor_nonneg; lia).
  assert (Hor : 63 <= Z.lor x (64 - 1)).
  { change (64 - 1) with 63.
    assert (H : Z.ldiff 63 (Z.lor x 63) = 0).
    { apply Z.bits_inj'. intros n Hn. rewrite Z.ldiff_spec, Z.lor_spec, Z.bits_0. btauto. }
    apply Z.ldiff_le in H; [lia |]. apply Z.lor_nonneg. lia. }
  unfold leading_zeros. destruct (Z.eqb_spec (Z.min (Z.lor x (64 - 1)) (2 ^ 36 - 1)) 0); [lia |].
  replace (63 - (63 - Z.log2 (Z.min (Z.lor x (64 - 1)) (2 ^ 36 - 1))))
    with (Z.log2 (Z.min (Z.lor x (64 - 1)) (2 ^ 36 - 1))) by lia.
  rewrite log2_min, Z.log2_lor by lia.
  change (Z.log2 (64 - 1)) with 5. change (Z.log2 (2 ^ 36 - 1)) with 35.
  unfold level_of_xor. destruct (Z.eq_dec x 0) as [-> | Hnz]; [done |].
  rewrite !ltb_pow2_log2 by lia. pose proof (Z.log2_nonneg x).
  repeat match goal with |- context [?u <? ?v] => destruct (Z.ltb_spec u v) end;
    Z.to_euclidean_division_equations; lia.
Qed.

(** The fast [level_for] and the definition by windows agree. *)
Lemma level_for_windows a b :
  0 <= a -> 0 <= b -> level_for a b = level_by_windows a b.
Proof. intros. by rewrite level_for_xor, level_by_windows_xor. Qed.

Lemma level_for_bound a b : 0 <= a -> 0 <= b -> 0 <= level_for a b < LEVELS.
Proof.
  intros. rewrite level_for_xor by done. unfold level_of_xor, LEVELS.
  repeat destruct (_ <? _); lia.
Qed.

(** The two times share the window of their level (below the top one), and
    differ in the slot. *)
Lemma level_for_window a b :
  0 <= a -> 0 <= b -> level_for a b < LEVELS - 1 ->
  a / 64 ^ (level_for a b + 1) = b / 64 ^ (level_for a b + 1).
Proof.
  intros Ha Hb. rewrite level_for_windows by done. unfold level_by_windows.
  change (seqZ 0 LEVELS) with [0; 1; 2; 3; 4; 5]. cbn [List.find]. cbv zeta.
  unfold SLOT_BITS, LEVELS.
  repeat match goal with
  | |- context [Z.shiftr a ?k =? Z.shiftr b ?k] =>
      destruct (Z.eqb_spec (Z.shiftr a k) (Z.shiftr b k)) as [Heq | _]
  end; cbn [default]; intros Hl; try lia;
    rewrite !Z.shiftr_div_pow2 in Heq by lia; exact Heq.
Qed.

Lemma level_for_slot a b :
  0 <= a -> 0 <= b -> a <> b -> a / 64 ^ level_for a b <> b / 64 ^ level_for a b.
Proof.
  intros Ha Hb Hne. rewrite level_for_windows by done. unfold level_by_windows.
  change (seqZ 0 LEVELS) with [0; 1; 2; 3; 4; 5]. cbn [List.find]. cbv zeta.
  unfold SLOT_BITS, LEVELS.
  repeat match goal with
  | |- context [Z.shiftr a ?k =? Z.shiftr b ?k] =>
      let H := fresh "Hk" in
      destruct (Z.eqb_spec (Z.shiftr a k) (Z.shiftr b k)) as [_ | H];
      [| rewrite !Z.shiftr_div_pow2 in H by lia]
  end; cbn [default]; try assumption.
  rewrite !Z.pow_0_r, !Z.div_1_r. done.
Qed.

(** ** When a slot comes *)

Lemma slot_for_eq t level : 0 <= level -> slot_for t level = (t / 64 ^ level) mod 64.
Proof.
  intros Hl. unfold slot_for. rewrite SLOTS_eq. change (64 - 1) with (Z.ones 6).
  rewrite Z.land_ones, Z.shiftr_div_pow2 by (unfold SLOT_BITS; lia).
  unfold SLOT_BITS. rewrite (Z.mul_comm level), Z.pow_mul_r by lia. done.
Qed.

Lemma slot_for_bound t level : 0 <= level -> 0 <= slot_for t level < SLOTS.
Proof. intros. rewrite slot_for_eq by done. rewrite SLOTS_eq. apply Z.mod_pos_bound. lia. Qed.

Lemma slot_time_bound now level s :
  0 <= level -> now < slot_time now level s <= (now / 64 ^ level + 64) * 64 ^ level.
Proof.
  intros Hl. unfold slot_time. pose proof (pow64_pos level Hl) as Hp.
  set (W := 64 ^ level) in *. set (c := now / W).
  pose proof (Z.mod_pos_bound (s - c - 1) 64 ltac:(lia)).
  pose proof (Z.div_mod now W ltac:(lia)) as Hd. fold c in Hd.
  pose proof (Z.mod_pos_bound now W Hp). nia.
Qed.

Lemma slot_time_gt now level s : 0 <= level -> now < slot_time now level s.
Proof. intros. by apply slot_time_bound. Qed.

Lemma slot_time_le_span now level s :
  0 <= now -> 0 <= level < LEVELS -> slot_time now level s <= now + SPAN.
Proof.
  intros Hn Hl. destruct (slot_time_bound now level s) as [_ H]; [lia |].
  pose proof (pow64_pos level ltac:(lia)) as Hp.
  assert (Hw : 64 ^ level * 64 <= SPAN).
  { rewrite SPAN_eq. on_each_level Hl; done || lia. }
  pose proof (Z.mul_div_le now (64 ^ level) Hp). nia.
Qed.

(** The slot's number in the count of all slots of its level that ever come. *)
Lemma slot_time_div now level s :
  0 <= level ->
  slot_time now level s / 64 ^ level = now / 64 ^ level + 1 + (s - now / 64 ^ level - 1) mod 64.
Proof.
  intros Hl. unfold slot_time. pose proof (pow64_pos level Hl).
  rewrite Z.div_mul by lia. done.
Qed.

(** Which slot it is: the unique one with index [s] among the next 64. *)
Lemma slot_time_unique now level s q :
  0 <= level ->
  now / 64 ^ level < q <= now / 64 ^ level + 64 -> q mod 64 = s mod 64 ->
  slot_time now level s = q * 64 ^ level.
Proof.
  intros Hl Hq Hm. unfold slot_time. f_equal.
  set (c := now / 64 ^ level) in *.
  enough ((s - c - 1) mod 64 = q - c - 1) by lia.
  symmetry. apply Z.mod_unique_pos with (s / 64 - q / 64); [lia |].
  pose proof (Z.div_mod s 64). pose proof (Z.div_mod q 64). lia.
Qed.

Lemma slot_time_mod now level s :
  0 <= level -> (slot_time now level s / 64 ^ level) mod 64 = s mod 64.
Proof.
  intros Hl. rewrite slot_time_div by done. set (c := now / 64 ^ level).
  rewrite <- Z.add_mod_idemp_r, Z.mod_mod, Z.add_mod_idemp_r by lia. f_equal. lia.
Qed.

(** A slot's time does not change while the wheel has not reached it. *)
Lemma slot_time_stable now now' level s :
  0 <= level -> now <= now' < slot_time now level s ->
  slot_time now' level s = slot_time now level s.
Proof.
  intros Hl Hn. pose proof (pow64_pos level Hl) as Hp.
  set (q := slot_time now level s / 64 ^ level).
  assert (Hq : slot_time now level s = q * 64 ^ level).
  { unfold q. rewrite slot_time_div by done. reflexivity. }
  rewrite Hq. apply slot_time_unique; [done | | by apply slot_time_mod].
  assert (now / 64 ^ level <= now' / 64 ^ level) by (apply Z.div_le_mono; lia).
  split.
  - apply Z.div_lt_upper_bound; lia.
  - unfold q. rewrite slot_time_div by done.
    pose proof (Z.mod_pos_bound (s - now / 64 ^ level - 1) 64). lia.
Qed.

(** Two slots of a level come at different times. *)
Lemma slot_time_inj now level s s' :
  0 <= level -> 0 <= s < 64 -> 0 <= s' < 64 ->
  slot_time now level s = slot_time now level s' -> s = s'.
Proof.
  intros Hl Hs Hs' Heq. rewrite <- (Z.mod_small s 64), <- (Z.mod_small s' 64) by lia.
  rewrite <- (slot_time_mod now level s), <- (slot_time_mod now level s') by done.
  by rewrite Heq.
Qed.

(** ** A timer's place *)

(** A timer due at [due] may sit in slot [s] of [level]: the slot comes no
    later than the timer, and, below the top level, in the window the wheel
    is in now. *)
Definition well_placed (now level s due : Z) : Prop :=
  0 <= level < LEVELS /\ 0 <= s < SLOTS /\ slot_time now level s <= due /\
  (level < LEVELS - 1 -> slot_time now level s / 64 ^ (level + 1) = now / 64 ^ (level + 1)).

Lemma well_placed_mono now now' level s due :
  well_placed now level s due -> now <= now' < slot_time now level s ->
  well_placed now' level s due.
Proof.
  intros (Hl & Hs & Hd & Hw) Hn. unfold well_placed.
  rewrite (slot_time_stable now) by lia. split_and!; try tauto.
  intros Hlt. specialize (Hw Hlt). pose proof (pow64_pos (level + 1) ltac:(lia)) as Hp.
  assert (now / 64 ^ (level + 1) <= now' / 64 ^ (level + 1)) by (apply Z.div_le_mono; lia).
  assert (now' / 64 ^ (level + 1) <= slot_time now level s / 64 ^ (level + 1))
    by (apply Z.div_le_mono; lia).
  lia.
Qed.

(** [link] places a timer well. *)
Lemma link_well_placed now due :
  0 <= now -> now < due ->
  let placed := Z.min due (now + SPAN - 1) in
  let level := level_for now placed in
  well_placed now level (slot_for placed level) due.
Proof.
  intros Hn Hd placed level.
  assert (Hpl : now < placed <= due /\ placed <= now + SPAN - 1)
    by (unfold placed; rewrite SPAN_eq; lia).
  assert (Hl : 0 <= level < LEVELS) by (apply level_for_bound; lia).
  assert (Hslot : now / 64 ^ level < placed / 64 ^ level).
  { assert (now / 64 ^ level <= placed / 64 ^ level)
      by (apply Z.div_le_mono; [apply pow64_pos |]; lia).
    pose proof (level_for_slot now placed ltac:(lia) ltac:(lia) ltac:(lia)). fold level in H0. lia. }
  pose proof (pow64_pos level ltac:(lia)) as Hp.
  assert (Hw : level < LEVELS - 1 -> now / 64 ^ (level + 1) = placed / 64 ^ (level + 1))
    by (intros; apply level_for_window; unfold level in *; lia).
  assert (H64 : placed / 64 ^ level <= now / 64 ^ level + 64).
  { destruct (Z.lt_ge_cases level (LEVELS - 1)) as [Hlt | Hge].
    - specialize (Hw Hlt). rewrite Z.pow_add_r, <- !Z.div_div in Hw by lia.
      change (64 ^ 1) with 64 in Hw.
      pose proof (Z.div_mod (now / 64 ^ level) 64). pose proof (Z.div_mod (placed / 64 ^ level) 64).
      pose proof (Z.mod_pos_bound (now / 64 ^ level) 64).
      pose proof (Z.mod_pos_bound (placed / 64 ^ level) 64). lia.
    - replace level with 5 in * by (unfold LEVELS in *; lia).
      change (64 ^ 5) with (2 ^ 30) in *. rewrite SPAN_eq in *.
      Z.to_euclidean_division_equations. lia. }
  assert (Ht : slot_time now level (slot_for placed level) = placed / 64 ^ level * 64 ^ level).
  { apply slot_time_unique; [lia | lia |]. rewrite slot_for_eq, Z.mod_mod by lia. done. }
  split; [done |]. split; [apply slot_for_bound; lia |]. rewrite Ht. split.
  - pose proof (Z.mul_div_le placed (64 ^ level) Hp). lia.
  - intros Hlt. rewrite (Hw Hlt). rewrite Z.pow_add_r, <- !Z.div_div by lia.
    rewrite Z.div_mul by lia. done.
Qed.

(** ** The slot search *)

(** A slot's time by the window: a slot at or behind the wheel's position
    comes in the next window. *)
Lemma slot_time_window now level s :
  0 <= level -> 0 <= s < 64 ->
  let c := now / 64 ^ level in
  slot_time now level s = (c / 64 * 64 + s + if s <=? c mod 64 then 64 else 0) * 64 ^ level.
Proof.
  intros Hl Hs c. pose proof (Z.div_mod c 64). pose proof (Z.mod_pos_bound c 64).
  apply slot_time_unique; [done | fold c; destruct (Z.leb_spec s (c mod 64)); lia |].
  destruct (Z.leb_spec s (c mod 64)).
  - replace (c / 64 * 64 + s + 64) with (s + (c / 64 + 1) * 64) by lia. apply Z.mod_add; lia.
  - replace (c / 64 * 64 + s + 0) with (s + c / 64 * 64) by lia. apply Z.mod_add; lia.
Qed.

Lemma window_eq now level :
  0 <= now -> 0 <= level ->
  Z.ldiff now (Z.shiftl 1 (level * SLOT_BITS + SLOT_BITS) - 1) =
  now / 64 ^ level / 64 * 64 * 64 ^ level.
Proof.
  intros Hn Hl. unfold SLOT_BITS.
  rewrite Z.shiftl_1_l.
  replace (2 ^ (level * 6 + 6) - 1) with (Z.ones (level * 6 + 6))
    by (rewrite Z.ones_equiv; lia).
  rewrite Z.ldiff_ones_r, Z.shiftl_mul_pow2, Z.shiftr_div_pow2 by lia.
  replace (2 ^ (level * 6 + 6)) with (64 ^ level * 64).
  - rewrite <- Z.div_div by (try apply Z.pow_nonzero; lia). lia.
  - rewrite Z.pow_add_r, (Z.mul_comm level), Z.pow_mul_r by lia. done.
Qed.

(** The mask of the slots after the wheel's position. *)
Lemma after_bits occ k i :
  0 <= occ < u64_size -> 0 <= k < 64 ->
  Z.testbit (if k + 1 <? SLOTS
             then Z.land occ (Z.shiftl u64_max (k + 1) mod u64_size) else 0) i =
  Z.testbit occ i && (k <? i).
Proof.
  intros Ho Hk. rewrite SLOTS_eq. unfold u64_size, u64_max in *.
  assert (Hhi : 64 <= i -> Z.testbit occ i = false).
  { intros Hi. destruct (Z.testbit occ i) eqn:E; [| done].
    apply (testbit_lt_pow2 _ 64) in E; lia. }
  destruct (Z.ltb_spec (k + 1) 64).
  - rewrite Z.land_spec. destruct (Z.testbit occ i) eqn:E; [| done]. simpl.
    assert (0 <= i < 64).
    { destruct (Z.lt_ge_cases i 0); [by rewrite Z.testbit_neg_r in E |].
      destruct (Z.lt_ge_cases i 64); [lia |]. specialize (Hhi ltac:(lia)); congruence. }
    rewrite Z.mod_pow2_bits_low, Z.shiftl_spec by lia.
    change (2 ^ 64 - 1) with (Z.ones 64).
    destruct (Z.ltb_spec k i).
    + apply Z.ones_spec_low. lia.
    + apply Z.testbit_neg_r. lia.
  - rewrite Z.bits_0. destruct (Z.testbit occ i) eqn:E; [| done]. simpl. symmetry.
    apply Z.ltb_ge. destruct (Z.lt_ge_cases i 64); [lia |]. specialize (Hhi ltac:(lia)); congruence.
Qed.

(** [first_occupied] answers the occupied slot of the level that comes first,
    and its time. *)
(** The time of a slot at or behind the current one is in the next turn of the
    level; that of a slot ahead is in this turn. *)
Lemma slot_time_behind now level s :
  0 <= now -> 0 <= level < LEVELS -> 0 <= s < 64 -> s <= now / 64 ^ level mod 64 ->
  slot_time now level s = (now / 64 ^ level / 64 * 64 + s + 64) * 64 ^ level.
Proof. intros. rewrite slot_time_window by lia. destruct (Z.leb_spec s (now / 64 ^ level mod 64)); [done | lia]. Qed.

Lemma slot_time_ahead now level s :
  0 <= now -> 0 <= level < LEVELS -> 0 <= s < 64 -> now / 64 ^ level mod 64 < s ->
  slot_time now level s = (now / 64 ^ level / 64 * 64 + s) * 64 ^ level.
Proof.
  intros. rewrite slot_time_window by lia. destruct (Z.leb_spec s (now / 64 ^ level mod 64)); [lia |]. f_equal. lia.
Qed.

(** Only the top level has slots in its next turn. *)
Lemma behind_is_top now level s :
  0 <= now -> 0 <= level < LEVELS -> 0 <= s < 64 -> s <= now / 64 ^ level mod 64 ->
  (level < LEVELS - 1 -> slot_time now level s / 64 ^ (level + 1) = now / 64 ^ (level + 1)) ->
  (level =? LEVELS - 1) = true.
Proof.
  intros Hn Hl Hs Hk Hw. pose proof (pow64_pos level ltac:(lia)) as Hp. apply Z.eqb_eq.
  destruct (Z.lt_ge_cases level (LEVELS - 1)) as [Hlt |]; [exfalso | lia].
  specialize (Hw Hlt). rewrite slot_time_behind, Z.pow_add_r, <- !Z.div_div in Hw by lia.
  rewrite Z.div_mul in Hw by lia. change (64 ^ 1) with 64 in Hw. set (c := now / 64 ^ level) in *.
  replace (c / 64 * 64 + s + 64) with (s + (c / 64 + 1) * 64) in Hw by lia.
  rewrite Z.div_add, Z.div_small in Hw by lia. lia.
Qed.

Lemma shift_level level x : 0 <= level -> Z.shiftl x (level * SLOT_BITS) = x * 64 ^ level.
Proof.
  intros. unfold SLOT_BITS. rewrite Z.shiftl_mul_pow2 by lia. rewrite (Z.mul_comm level), Z.pow_mul_r by lia. done.
Qed.

Lemma level_range level : 0 <= level -> Z.shiftl 1 (level * SLOT_BITS + SLOT_BITS) = 64 * 64 ^ level.
Proof.
  intros. rewrite <- Z.shiftl_shiftl, shift_level by (unfold SLOT_BITS; lia).
  rewrite Z.shiftl_mul_pow2 by done. change (2 ^ SLOT_BITS) with 64. lia.
Qed.

Lemma first_occupied_spec now level occ :
  0 <= now -> now + SPAN <= u64_max -> 0 <= level < LEVELS -> 0 < occ < u64_size ->
  (forall s, Z.testbit occ s = true -> level < LEVELS - 1 ->
     slot_time now level s / 64 ^ (level + 1) = now / 64 ^ (level + 1)) ->
  exists slot,
    first_occupied now level occ = Some (slot, slot_time now level slot) /\
    Z.testbit occ slot = true /\
    forall s, Z.testbit occ s = true -> slot_time now level slot <= slot_time now level s.
Proof.
  intros Hn Hspan Hl Ho Hw. unfold first_occupied. cbv zeta.
  rewrite slot_for_eq, window_eq, !shift_level, level_range by lia.
  set (c := now / 64 ^ level). set (k := c mod 64).
  assert (Hk : 0 <= k < 64) by (apply Z.mod_pos_bound; lia).
  pose proof (after_bits occ k) as Hbits. set (after := if k + 1 <? SLOTS then _ else _) in *.
  pose proof (pow64_pos level ltac:(lia)) as Hp.
  assert (Hin : forall s, Z.testbit occ s = true -> 0 <= s < 64)
    by (intros s; apply testbit_lt_pow2; unfold u64_size in *; lia).
  destruct (Z.eqb_spec after 0) as [Hz | Hnz]; simpl.
  - assert (Hle : forall s, Z.testbit occ s = true -> s <= k).
    { intros s Hs. specialize (Hbits s ltac:(lia) Hk). rewrite Hz, Z.bits_0, Hs in Hbits. simpl in Hbits.
      symmetry in Hbits. by apply Z.ltb_ge in Hbits. }
    destruct (trailing_zeros_spec occ) as (_ & Hs & Hmin); [lia |]. set (s := trailing_zeros occ) in *.
    pose proof (Hin s Hs) as Hsb. pose proof (slot_time_le_span now level s) as Ht.
    rewrite (behind_is_top now level s) by auto. exists s.
    rewrite (slot_time_behind now level s) in Ht |- * by auto. fold c in Ht |- *.
    rewrite add64_Some by nia. simpl. rewrite add64_Some by nia. simpl.
    split; [f_equal; f_equal; lia |]. split; [done |].
    intros s' Hs'. pose proof (Hin s' Hs'). rewrite (slot_time_behind now level s') by auto. fold c.
    destruct (Z.lt_ge_cases s' s); [| nia]. rewrite Hmin in Hs'; [done | lia].
  - assert (Hpos : 0 < after).
    { assert (0 <= after); [| lia]. unfold after. destruct (_ <? _); [| lia]. apply Z.land_nonneg. lia. }
    destruct (trailing_zeros_spec after Hpos) as (_ & Hs & Hmin). set (s := trailing_zeros after) in *.
    rewrite Hbits in Hs by lia. apply andb_prop in Hs as [Hs Hks%Z.ltb_lt].
    pose proof (Hin s Hs) as Hsb. pose proof (slot_time_le_span now level s) as Ht. exists s.
    rewrite (slot_time_ahead now level s) in Ht |- * by auto. fold c in Ht |- *. rewrite add64_Some by nia. simpl.
    split; [f_equal; f_equal; lia |]. split; [done |].
    intros s' Hs'. pose proof (Hin s' Hs'). destruct (Z.le_gt_cases s' k).
    + rewrite slot_time_behind by auto. fold c. nia.
    + rewrite slot_time_ahead by auto. fold c. destruct (Z.lt_ge_cases s' s); [| nia].
      specialize (Hmin s' ltac:(lia)). rewrite Hbits, Hs' in Hmin by lia.
      simpl in Hmin. apply Z.ltb_ge in Hmin. lia.
Qed.

(** Two slots that hold timers come at different times, on any two levels. *)
Lemma well_placed_lt_level now l s x l' s' :
  well_placed now l s x -> l < l' < LEVELS -> slot_time now l s <> slot_time now l' s'.
Proof.
  intros ([Hl _] & _ & _ & Hw) Hl' Heq. specialize (Hw ltac:(lia)).
  pose proof (slot_time_gt now l s Hl) as Hgt.
  assert (Hdiv : slot_time now l s mod 64 ^ (l + 1) = 0).
  { rewrite Heq. unfold slot_time.
    replace (64 ^ l') with (64 ^ (l' - (l + 1)) * 64 ^ (l + 1)).
    - rewrite Z.mul_assoc. apply Z.mod_mul. apply Z.pow_nonzero; lia.
    - rewrite <- Z.pow_add_r by lia. f_equal. lia. }
  pose proof (pow64_pos (l + 1) ltac:(lia)) as Hp.
  pose proof (Z.div_mod (slot_time now l s) (64 ^ (l + 1)) ltac:(lia)) as Hd.
  pose proof (Z.mul_div_le now (64 ^ (l + 1)) Hp). rewrite Hdiv, Hw in Hd. lia.
Qed.

Lemma well_placed_distinct now l s x l' s' x' :
  well_placed now l s x -> well_placed now l' s' x' ->
  slot_time now l s = slot_time now l' s' -> (l, s) = (l', s').
Proof.
  intros H H' Heq. destruct (Z.lt_trichotomy l l') as [Hlt | [-> | Hgt]].
  - by destruct (well_placed_lt_level now l s x l' s' H ltac:(destruct H' as [? _]; lia)).
  - f_equal. destruct H as (Hl & Hs & _), H' as (_ & Hs' & _).
    rewrite SLOTS_eq in *. eapply slot_time_inj; [| | | done]; lia.
  - by destruct (well_placed_lt_level now l' s' x' l s H' ltac:(destruct H as [? _]; lia)).
Qed.
