(* ===== verification/WheelInv.v ===== *)
(** * The wheel's invariant, and the slab steps that keep it

    [layout w L F D A] says what the slab and the levels of a wheel hold:
    [L l s] is the list of slot [s] of level [l], [F] the free list, [A] the
    set of linked entries and [D] the entries an operation holds between two
    steps, on no list. [view] is what the wheel's clients can tell of an
    entry. Each step of the source ([alloc], [link], [unlink], [release])
    is total on a wheel with a layout, keeps one, and does one thing to the
    view. *)

From S2P Require Import Prelude Chains Wheel WheelPlace.
Open Scope Z_scope.

(** ** The invariant *)

Definition valid_slot (l s : Z) : Prop := 0 <= l < LEVELS /\ 0 <= s < SLOTS.

(** One level: its heads and its bitmap say what its lists are. *)
Definition level_ok (lv : Level) (f : Z -> list Z) : Prop :=
  vlen (heads lv) = SLOTS /\ 0 <= occupied lv < u64_size /\
  forall s, 0 <= s < SLOTS ->
    heads lv !!z s = Some (List.hd NIL (f s)) /\
    Z.testbit (occupied lv) s = negb (bool_decide (f s = [])).

Definition levels_ok (lvs : list Level) (L : Z -> Z -> list Z) : Prop :=
  vlen lvs = LEVELS /\
  forall l, 0 <= l < LEVELS -> exists lv, lvs !!z l = Some lv /\ level_ok lv (L l).

(** One slot's list: linked both ways, each entry where the wheel placed it. *)
Definition slot_ok (es : list Entry) (now l s : Z) (a : list Z) : Prop :=
  dseg prev next es NIL a NIL /\ NoDup a /\
  forall i, i ∈ a ->
    exists e, es !!z i = Some e /\ place e = Armed l s /\ well_placed now l s (when e).

Definition slots_ok (es : list Entry) (now : Z) (L : Z -> Z -> list Z) : Prop :=
  forall l s, valid_slot l s -> slot_ok es now l s (L l s).

Definition free_ok (es : list Entry) (fr : Z) (F : list Z) : Prop :=
  fr = List.hd NIL F /\ fseg next es F NIL /\ NoDup F /\
  forall i, i ∈ F -> exists e, es !!z i = Some e /\ place e = Free.

(** Every entry is on one list, or held. *)
Record parts_ok (n : Z) (L : Z -> Z -> list Z) (F D : list Z) (A : gset Z) : Prop := {
  parts_A : forall i, i ∈ A <-> exists l s, valid_slot l s /\ i ∈ L l s;
  parts_all : forall i, 0 <= i < n <-> i ∈ F \/ i ∈ D \/ i ∈ A;
  parts_FA : forall i, i ∈ F -> i ∉ A;
  parts_D : NoDup D;
  parts_DF : forall i, i ∈ D -> i ∉ F;
  parts_DA : forall i, i ∈ D -> i ∉ A;
}.

Record layout (w : Wheel) (L : Z -> Z -> list Z) (F D : list Z) (A : gset Z) : Prop := {
  lay_time : 0 <= elapsed w /\ elapsed w + SPAN <= u64_max;
  lay_room : 0 <= phantom w /\ phantom w + vlen (entries w) <= u64_max;
  lay_levels : levels_ok (levels w) L;
  lay_slots : slots_ok (entries w) (elapsed w) L;
  lay_free : free_ok (entries w) (free w) F;
  lay_parts : parts_ok (vlen (entries w)) L F D A;
}.

(** A wheel between two operations. *)
Definition wf (w : Wheel) : Prop :=
  exists L F A, layout w L F [] A /\ armed w = phantom w + Z.of_nat (size A).

(** What clients can tell of an entry: its generation and, of an armed one,
    its deadline and its waker. *)
Definition stub (e : Entry) : Z * option (Z * option Waker) :=
  (generation e, if is_free (place e) then None else Some (when e, waker e)).

Definition view (w : Wheel) (i : Z) : option (Z * option (Z * option Waker)) :=
  stub <$> entries w !!z i.

Definition upd {B} (f : Z -> B) (i : Z) (x : B) : Z -> B :=
  fun j => if j =? i then x else f j.

Definition Lupd (L : Z -> Z -> list Z) (l s : Z) (x : list Z) : Z -> Z -> list Z :=
  fun l' s' => if (l' =? l) && (s' =? s) then x else L l' s'.

(** ** Levels and slots *)

Lemma Lupd_eq L l s x : Lupd L l s x l s = x.
Proof. unfold Lupd. by rewrite !Z.eqb_refl. Qed.

Lemma Lupd_ne L l s x l' s' : (l', s') <> (l, s) -> Lupd L l s x l' s' = L l' s'.
Proof.
  intros H. unfold Lupd. destruct (Z.eqb_spec l' l), (Z.eqb_spec s' s); simpl; try done.
  congruence.
Qed.

Lemma levels_ok_get lvs L l s :
  levels_ok lvs L -> valid_slot l s ->
  exists lv, lvs !!z l = Some lv /\ level_ok lv (L l) /\
             heads lv !!z s = Some (List.hd NIL (L l s)).
Proof.
  intros [_ H] [Hl Hs]. destruct (H l Hl) as (lv & Hlv & Hok).
  exists lv. split; [done |]. split; [done |]. by apply Hok.
Qed.

(** Setting slot [s] of a level to the list [x]. *)
Lemma level_ok_upd lv lv' f s x :
  level_ok lv f -> 0 <= s < SLOTS ->
  heads lv' = vset (heads lv) s (List.hd NIL x) ->
  0 <= occupied lv' < u64_size ->
  (forall t, Z.testbit (occupied lv') t =
     if t =? s then negb (bool_decide (x = [])) else Z.testbit (occupied lv) t) ->
  level_ok lv' (fun t => if t =? s then x else f t).
Proof.
  intros (Hlen & Ho & H) Hs Hh Ho' Hb. unfold level_ok.
  rewrite Hh, vlen_vset. split; [done |]. split; [done |].
  intros t Ht. destruct (H t Ht) as [H1 H2].
  rewrite vget_vset, Hb by lia. destruct (Z.eqb_spec t s) as [-> | Hne]; done.
Qed.

Lemma levels_ok_upd lvs L l s x lv lv' :
  levels_ok lvs L -> 0 <= l < LEVELS -> lvs !!z l = Some lv ->
  level_ok lv' (fun t => if t =? s then x else L l t) ->
  levels_ok (vset lvs l lv') (Lupd L l s x).
Proof.
  intros [Hlen H] Hl Hlv Hok. split; [by rewrite vlen_vset |].
  intros k Hk. rewrite vget_vset by lia. unfold Lupd.
  destruct (Z.eqb_spec k l) as [-> | Hne].
  - exists lv'. split; [done |]. exact Hok.
  - destruct (H k Hk) as (lv1 & ? & ?). eauto.
Qed.

Lemma slot_ok_frame es es' now l s a :
  (forall i, i ∈ a -> es' !!z i = es !!z i) ->
  slot_ok es now l s a -> slot_ok es' now l s a.
Proof.
  intros Hf (Hd & Hn & Hp). split.
  - eapply dseg_frame; [| done]. intros i e Hi He. exists e. by rewrite Hf.
  - split; [done |]. intros i Hi. rewrite Hf by done. by apply Hp.
Qed.

Lemma slots_ok_frame es es' now L (A : gset Z) :
  (forall i, i ∈ A <-> exists l s, valid_slot l s /\ i ∈ L l s) ->
  (forall i, i ∈ A -> es' !!z i = es !!z i) ->
  slots_ok es now L -> slots_ok es' now L.
Proof.
  intros HA Hf H l s Hv. eapply slot_ok_frame; [| by apply H].
  intros i Hi. apply Hf, HA. eauto.
Qed.

(** Two slots' lists are disjoint: an entry knows its place. *)
Lemma slots_ok_disjoint es now L l s l' s' i :
  slots_ok es now L -> valid_slot l s -> valid_slot l' s' ->
  i ∈ L l s -> i ∈ L l' s' -> (l, s) = (l', s').
Proof.
  intros H Hv Hv' Hi Hi'.
  destruct (H l s Hv) as (_ & _ & H1). destruct (H l' s' Hv') as (_ & _ & H2).
  destruct (H1 i Hi) as (e & He & Hp & _). destruct (H2 i Hi') as (e' & He' & Hp' & _).
  rewrite He in He'. congruence.
Qed.

Lemma slots_ok_upd es es' now L l s x :
  slots_ok es now L ->
  (forall l' s' i, valid_slot l' s' -> (l', s') <> (l, s) -> i ∈ L l' s' ->
     es' !!z i = es !!z i) ->
  slot_ok es' now l s x ->
  slots_ok es' now (Lupd L l s x).
Proof.
  intros H Hf Hx l' s' Hv.
  destruct (decide ((l', s') = (l, s))) as [[= -> ->] | Hne].
  - by rewrite Lupd_eq.
  - rewrite Lupd_ne by done. eapply slot_ok_frame; [| by apply H]. eauto.
Qed.

Lemma slots_ok_time es now now' L :
  slots_ok es now L -> now <= now' ->
  (forall l s, valid_slot l s -> L l s <> [] -> now' < slot_time now l s) ->
  slots_ok es now' L.
Proof.
  intros H Hle Hlt l s Hv. destruct (H l s Hv) as (Hd & Hn & Hp).
  split; [done |]. split; [done |]. intros i Hi.
  destruct (Hp i Hi) as (e & He & Hpl & Hw). exists e. split; [done |]. split; [done |].
  eapply well_placed_mono; [done |]. split; [done |]. apply Hlt; [done |].
  intros Hnil. rewrite Hnil in Hi. set_solver.
Qed.

Lemma free_ok_frame es es' fr F :
  (forall i, i ∈ F -> es' !!z i = es !!z i) -> free_ok es fr F -> free_ok es' fr F.
Proof.
  intros Hf (H1 & H2 & H3 & H4). split; [done |]. split.
  - eapply fseg_frame; [| done]. intros i e Hi He. exists e. by rewrite Hf.
  - split; [done |]. intros i Hi. rewrite Hf by done. by apply H4.
Qed.

(** ** The partition of the slab *)

Section parts.
Context (n : Z) (L : Z -> Z -> list Z) (F D : list Z) (A : gset Z) (i : Z).

Lemma parts_take : NoDup (i :: F) -> parts_ok n L (i :: F) D A -> parts_ok n L F (i :: D) A.
Proof.
  intros [Hi HF]%NoDup_cons [HA Hall HFA HD HDF HDA]. constructor; [done | | | | |].
  - intros j. rewrite Hall. set_solver.
  - set_solver.
  - apply NoDup_cons. split; [| done]. intros Hd. apply (HDF i Hd). set_solver.
  - intros j [-> | Hj]%elem_of_cons; [done |]. specialize (HDF j Hj). set_solver.
  - intros j [-> | Hj]%elem_of_cons; [| auto]. apply HFA. set_solver.
Qed.

Lemma parts_give : parts_ok n L F (i :: D) A -> parts_ok n L (i :: F) D A.
Proof.
  intros [HA Hall HFA [Hi HD]%NoDup_cons HDF HDA]. constructor; [done | | | done | |].
  - intros j. rewrite Hall. set_solver.
  - intros j [-> | Hj]%elem_of_cons; [apply HDA; set_solver | auto].
  - intros j Hj Hj'. apply elem_of_cons in Hj' as [-> | Hj']; [done |].
    apply (HDF j); set_solver.
  - intros j Hj. apply HDA. set_solver.
Qed.

Lemma parts_grow : 0 <= n -> parts_ok n L F D A -> parts_ok (n + 1) L F (n :: D) A.
Proof.
  intros Hn [HA Hall HFA HD HDF HDA].
  assert (Hnot : n ∉ F /\ n ∉ D /\ n ∉ A).
  { split_and!; intros H; assert (0 <= n < n) by (apply Hall; tauto); lia. }
  destruct Hnot as (H1 & H2 & H3). constructor; [done | | done | | |].
  - intros j. rewrite elem_of_cons. specialize (Hall j).
    destruct (Z.eq_dec j n) as [-> |]; [split; [tauto | lia] |].
    assert (0 <= j < n + 1 <-> 0 <= j < n) as -> by lia. tauto.
  - by apply NoDup_cons.
  - intros j [-> | Hj]%elem_of_cons; auto.
  - intros j [-> | Hj]%elem_of_cons; auto.
Qed.

Lemma parts_link l s :
  valid_slot l s -> parts_ok n L F (i :: D) A ->
  parts_ok n (Lupd L l s (i :: L l s)) F D ({[i]} ∪ A).
Proof.
  intros Hv [HA Hall HFA [Hi HD]%NoDup_cons HDF HDA]. constructor.
  - intros j. rewrite elem_of_union, elem_of_singleton, HA. split.
    + intros [-> | (l' & s' & Hv' & Hj)].
      * exists l, s. rewrite Lupd_eq. set_solver.
      * exists l', s'. split; [done |]. destruct (decide ((l', s') = (l, s))) as [[= -> ->] | Hne].
        -- rewrite Lupd_eq. set_solver.
        -- by rewrite Lupd_ne.
    + intros (l' & s' & Hv' & Hj). destruct (decide ((l', s') = (l, s))) as [[= -> ->] | Hne].
      * rewrite Lupd_eq in Hj. apply elem_of_cons in Hj as [? | ?]; eauto 6.
      * rewrite Lupd_ne in Hj by done. eauto 6.
  - intros j. rewrite Hall. set_solver.
  - intros j Hj. specialize (HFA j Hj). specialize (HDF i ltac:(set_solver)).
    intros [Hji | ?]%elem_of_union; [| done]. apply elem_of_singleton in Hji. by subst.
  - done.
  - intros j Hj. apply HDF. set_solver.
  - intros j Hj [Hji | ?]%elem_of_union; [apply elem_of_singleton in Hji; by subst |].
    apply (HDA j); set_solver.
Qed.

(** [a] leaves the list of slot [(l, s)], which keeps [b]. *)
Lemma parts_detach l s (a b : list Z) :
  valid_slot l s -> NoDup a ->
  (forall j, j ∈ L l s <-> j ∈ a \/ j ∈ b) ->
  (forall j, j ∈ a -> j ∉ b) ->
  (forall l' s' j, valid_slot l' s' -> (l', s') <> (l, s) -> j ∈ a -> j ∉ L l' s') ->
  parts_ok n L F D A ->
  parts_ok n (Lupd L l s b) F (a ++ D) (A ∖ list_to_set a).
Proof.
  intros Hv Ha Hab Hdis Hoth [HA Hall HFA HD HDF HDA].
  assert (HaA : forall j, j ∈ a -> j ∈ A).
  { intros j Hj. apply HA. exists l, s. split; [done |]. apply Hab. auto. }
  constructor.
  - intros j. rewrite elem_of_difference, elem_of_list_to_set, HA. split.
    + intros [(l' & s' & Hv' & Hj) Hn]. exists l', s'. split; [done |].
      destruct (decide ((l', s') = (l, s))) as [[= -> ->] | Hne].
      * rewrite Lupd_eq. apply Hab in Hj. tauto.
      * by rewrite Lupd_ne.
    + intros (l' & s' & Hv' & Hj).
      destruct (decide ((l', s') = (l, s))) as [[= -> ->] | Hne].
      * rewrite Lupd_eq in Hj. split; [| intros Hj'; by apply (Hdis j)].
        exists l, s. split; [done |]. apply Hab. auto.
      * rewrite Lupd_ne in Hj by done. split; [eauto |].
        intros Hj'. by apply (Hoth l' s' j).
  - intros j. rewrite Hall, elem_of_difference, elem_of_app, elem_of_list_to_set.
    specialize (HaA j). destruct (decide (j ∈ a)); tauto.
  - intros j Hj [? _]%elem_of_difference. by apply (HFA j).
  - apply NoDup_app. split; [done |]. split; [| done].
    intros j Hj Hj'. apply (HDA j Hj'). auto.
  - intros j [Hj | Hj]%elem_of_app; [| auto]. intros HF. apply (HFA j HF). auto.
  - intros j [Hj | Hj]%elem_of_app [? Hn]%elem_of_difference.
    + apply Hn. by apply elem_of_list_to_set.
    + by apply (HDA j).
Qed.

Lemma parts_size : 0 <= n -> parts_ok n L F D A -> Z.of_nat (size A) + vlen D <= n.
Proof.
  intros Hn [HA Hall HFA HD HDF HDA].
  assert (Hsub : A ∪ list_to_set D ⊆ list_to_set (C := gset Z) (seqZ 0 n)).
  { intros j Hj. apply elem_of_list_to_set, elem_of_seqZ.
    enough (0 <= j < n) by lia. apply Hall. set_solver. }
  apply subseteq_size in Hsub.
  rewrite size_union in Hsub by (intros j; rewrite elem_of_list_to_set; intros ? ?; by apply (HDA j)).
  rewrite !size_list_to_set, length_seqZ in Hsub by (done || apply NoDup_seqZ).
  unfold vlen. lia.
Qed.
End parts.

(** ** The steps *)

Lemma upd_eq {B} (f : Z -> B) i x : upd f i x i = x.
Proof. unfold upd. by rewrite Z.eqb_refl. Qed.

Lemma upd_ne {B} (f : Z -> B) i x j : j <> i -> upd f i x j = f j.
Proof. intros. unfold upd. by destruct (Z.eqb_spec j i). Qed.

(** What the steps leave alone. *)
Definition same_base (w w' : Wheel) : Prop :=
  elapsed w' = elapsed w /\ phantom w' = phantom w /\ tag w' = tag w.

Lemma lay_len w L F D A : layout w L F D A -> vlen (entries w) <= NIL.
Proof. intros H. destruct (lay_room _ _ _ _ _ H). unfold NIL, usize_max, u64_max in *. lia. Qed.

(** A held entry may be changed at will. *)
Lemma layout_held w L F D A i e :
  layout w L F D A -> i ∈ D -> layout (set_entries (vset (entries w) i e) w) L F D A.
Proof.
  intros [Ht Hr Hlv Hs Hf Hp] Hi.
  assert (Hne : forall j, j ∈ F \/ j ∈ A -> j <> i).
  { intros j [Hj | Hj] ->; [by apply (parts_DF _ _ _ _ _ Hp i) | by apply (parts_DA _ _ _ _ _ Hp i)]. }
  constructor; simpl; rewrite ?vlen_vset; try done.
  - eapply slots_ok_frame; [by apply (parts_A _ _ _ _ _ Hp) | | done].
    intros j Hj. apply vget_vset_ne. auto.
  - eapply free_ok_frame; [| done]. intros j Hj. apply vget_vset_ne. auto.
Qed.

Lemma view_vset w i e e0 :
  entries w !!z i = Some e0 ->
  forall j, view (set_entries (vset (entries w) i e) w) j = upd (view w) i (Some (stub e)) j.
Proof.
  intros Hi j. unfold view, upd. simpl. destruct (Z.eqb_spec j i) as [-> | Hne].
  - by rewrite (vget_vset_eq _ _ _ e0).
  - by rewrite vget_vset_ne.
Qed.

Lemma alloc_ok w L F D A :
  layout w L F D A -> phantom w + vlen (entries w) + 1 <= u64_max ->
  exists i e w' F',
    alloc w = Some (i, w') /\ layout w' L F' (i :: D) A /\ same_base w w' /\
    armed w' = armed w /\ entries w' !!z i = Some e /\ place e = Free /\
    generation e = match view w i with Some (g, _) => g | None => tag w end /\
    (forall d, view w i <> Some (generation e, Some d)) /\
    (forall j, j <> i -> view w' j = view w j).
Proof.
  intros H Hroom. pose proof (lay_len _ _ _ _ _ H) as Hlen. destruct H as [Ht Hr Hlv Hs Hf Hp].
  destruct Hf as (Hfr & Hfs & Hfd & Hfp). unfold alloc.
  destruct (Z.eqb_spec (free w) NIL) as [Hnil | Hnil]; simpl.
  - rewrite Hfr in Hnil. apply (hd_fchain_NIL next (entries w)) in Hnil as ->; [| done | done].
    exists (vlen (entries w)). eexists _, _, []. split; [done |].
    pose proof (vlen_nonneg (entries w)) as Hvl.
    assert (Hv : view w (vlen (entries w)) = None).
    { unfold view. rewrite vget_None by lia. done. }
    split; [| split; [done |]].
    + constructor; simpl; rewrite ?vlen_app; try done.
      * cbn [vlen length]. unfold vlen at 2. simpl. lia.
      * eapply slots_ok_frame; [by apply (parts_A _ _ _ _ _ Hp) | | done].
        intros j Hj. apply vget_app_l. enough (0 <= j < vlen (entries w)) by lia.
        apply (parts_all _ _ _ _ _ Hp). auto.
      * split; [done |]. split; [done |]. split; [constructor |]. set_solver.
      * apply parts_grow; [lia | done].
    + split; [done |]. rewrite Hv. split; [apply vget_snoc |]. split; [done |]. split; [done |].
      split; [done |]. intros j Hj. unfold view. simpl.
      destruct (Z.lt_ge_cases j (vlen (entries w))); [by rewrite vget_app_l |].
      rewrite (vget_None (entries w)) by lia.
      rewrite vget_None by (rewrite vlen_app; unfold vlen at 2; simpl; lia). done.
  - destruct F as [|i F]; [done |]. simpl in Hfr. subst i.
    destruct (Hfp (free w)) as (e & He & Hfree); [set_solver |].
    rewrite He. simpl. exists (free w), e. eexists _, F. split; [done |].
    assert (Hview : view w (free w) = Some (generation e, None)).
    { unfold view. rewrite He. simpl. unfold stub. by rewrite Hfree. }
    split; [| split; [done |]].
    + constructor; simpl; try done.
      * destruct Hfs as (e' & He' & Hn & Hfs). rewrite He in He'. injection He' as <-.
        split; [done |]. split; [done |]. split; [by apply NoDup_cons in Hfd as [_ ?] |].
        intros j Hj. apply Hfp. set_solver.
      * by apply parts_take.
    + split; [done |]. rewrite Hview. split_and!; try done.
Qed.

Lemma release_ok w L F D A i e :
  layout w L F (i :: D) A -> entries w !!z i = Some e ->
  exists w', release i w = Some (waker e, w') /\ layout w' L (i :: F) D A /\ same_base w w' /\
    armed w' = armed w /\ (forall j, j ∈ D -> entries w' !!z j = entries w !!z j) /\
    (forall j, view w' j = upd (view w) i (Some (wrapping_add 64 (generation e) 1, None)) j).
Proof.
  intros [Ht Hr Hlv Hs Hf Hp] He. unfold release. rewrite He. simpl.
  eexists. split; [done |].
  assert (HiD : i ∉ D) by (pose proof (parts_D _ _ _ _ _ Hp) as Hn; apply NoDup_cons in Hn; tauto).
  assert (HiA : i ∉ A) by (apply (parts_DA _ _ _ _ _ Hp); set_solver).
  assert (HiF : i ∉ F) by (apply (parts_DF _ _ _ _ _ Hp); set_solver).
  split; [constructor; simpl; rewrite ?vlen_vset; try done | split; [done |]].
  - eapply slots_ok_frame; [by apply (parts_A _ _ _ _ _ Hp) | | done].
    intros j Hj. apply vget_vset_ne. by intros ->.
  - destruct Hf as (Hfr & Hfs & Hfd & Hfp). split; [done |]. split; [| split].
    + simpl. rewrite (vget_vset_eq _ _ _ e) by done. eexists. split; [done |].
      split; [done |]. by apply fseg_vset.
    + by apply NoDup_cons.
    + intros j [-> | Hj]%elem_of_cons.
      * rewrite (vget_vset_eq _ _ _ e) by done. eauto.
      * rewrite vget_vset_ne by (by intros ->). auto.
  - by apply parts_give.
  - split; [done |]. split.
    + intros j Hj. apply vget_vset_ne. by intros ->.
    + intros j. unfold view at 1, upd. simpl. destruct (Z.eqb_spec j i) as [-> | Hne].
      * by rewrite (vget_vset_eq _ _ _ e).
      * by rewrite vget_vset_ne.
Qed.

(** [es'] is [es] with other links in the entries [X]. *)
Record relinked (es es' : list Entry) (X : list Z) : Prop := {
  rel_len : vlen es' = vlen es;
  rel_out : forall j, j ∉ X -> es' !!z j = es !!z j;
  rel_in : forall j e, es !!z j = Some e ->
    exists e', es' !!z j = Some e' /\ when e' = when e /\ waker e' = waker e /\
               generation e' = generation e /\ place e' = place e;
}.

Lemma relinked_refl es X : relinked es es X.
Proof. constructor; eauto 10. Qed.

Lemma relinked_trans es es1 es2 X :
  relinked es es1 X -> relinked es1 es2 X -> relinked es es2 X.
Proof.
  intros [H1 H2 H3] [H4 H5 H6]. constructor; [lia | |].
  - intros j Hj. by rewrite H5, H2.
  - intros j e He. destruct (H3 j e He) as (e1 & He1 & ? & ? & ? & ?).
    destruct (H6 j e1 He1) as (e2 & He2 & ? & ? & ? & ?). exists e2. split; [done |].
    split_and!; congruence.
Qed.

Lemma relinked_vset es X i e e' :
  es !!z i = Some e -> i ∈ X ->
  when e' = when e -> waker e' = waker e -> generation e' = generation e -> place e' = place e ->
  relinked es (vset es i e') X.
Proof.
  intros He Hi H1 H2 H3 H4. constructor; [apply vlen_vset | |].
  - intros j Hj. apply vget_vset_ne. by intros ->.
  - intros j ej Hj. destruct (Z.eq_dec j i) as [-> | Hne].
    + rewrite (vget_vset_eq _ _ _ e) by done. rewrite He in Hj. injection Hj as <-. eauto 10.
    + rewrite vget_vset_ne by done. eauto 10.
Qed.

Lemma relinked_stub es es' X j :
  relinked es es' X -> stub <$> es' !!z j = stub <$> es !!z j.
Proof.
  intros [Hl Hout Hin]. destruct (es !!z j) as [e|] eqn:E.
  - destruct (Hin j e E) as (e' & -> & H1 & H2 & H3 & H4). simpl. unfold stub.
    by rewrite H1, H2, H3, H4.
  - assert (es' !!z j = None) as ->; [| done]. apply vget_None. rewrite Hl.
    intros Hj. destruct (vget_is_Some es j Hj) as [e He]. congruence.
Qed.

Lemma set_entries_id w : set_entries (entries w) w = w.
Proof. by destruct w. Qed.

(** An edit of the entry [j] a link names, if it names one. *)
Lemma edit_link w j (f : Entry -> Entry) :
  (j <> NIL -> exists e, entries w !!z j = Some e) ->
  exists es', (if negb (j =? NIL) then on_entry j f w else Some w) = Some (set_entries es' w) /\
    (j = NIL -> es' = entries w) /\
    (forall e, j <> NIL -> entries w !!z j = Some e -> es' = vset (entries w) j (f e)).
Proof.
  intros Hj. destruct (Z.eqb_spec j NIL) as [-> | Hne]; simpl.
  - exists (entries w). rewrite set_entries_id. done.
  - destruct (Hj Hne) as [e He]. unfold on_entry. rewrite He. simpl. eexists.
    split; [done |]. split; [done |]. intros e0 _ He0. congruence.
Qed.

(** A new entry before the first of a list: the first one's [prev]. *)
Lemma relink_front w l s a i now :
  slot_ok (entries w) now l s a -> vlen (entries w) <= NIL ->
  exists es',
    (if negb (List.hd NIL a =? NIL) then on_entry (List.hd NIL a) (set_prev i) w else Some w)
      = Some (set_entries es' w) /\
    relinked (entries w) es' a /\ dseg prev next es' i a NIL.
Proof.
  intros (Hd & Hn & Hp) Hlen.
  destruct a as [|h a]; simpl.
  - exists (entries w). rewrite set_entries_id. auto using relinked_refl.
  - pose proof Hd as (e & He & Hpe & Hne & Hda).
    destruct (edit_link w h (set_prev i)) as (es' & -> & _ & Hes'); [eauto |].
    assert (Hh : h <> NIL) by (apply vget_bound in He; lia).
    rewrite (Hes' e Hh He). exists (vset (entries w) h (set_prev i e)). split; [done |].
    apply NoDup_cons in Hn as [Hni Hn]. split.
    + apply (relinked_vset _ _ _ e); set_solver.
    + eapply (dseg_set_first prev next _ NIL); done.
Qed.

Lemma Zlor_bit x s t :
  0 <= s -> Z.testbit (Z.lor x (Z.shiftl 1 s)) t = if t =? s then true else Z.testbit x t.
Proof.
  intros Hs. rewrite Z.lor_spec, Z.shiftl_1_l. destruct (Z.eqb_spec t s) as [-> | Hne].
  - rewrite Z.pow2_bits_true by done. apply orb_true_r.
  - destruct (Z.lt_ge_cases t 0); [by rewrite !Z.testbit_neg_r |].
    rewrite Z.pow2_bits_false by lia. apply orb_false_r.
Qed.

Lemma Zldiff_bit x s t :
  0 <= s -> Z.testbit (Z.ldiff x (Z.shiftl 1 s)) t = if t =? s then false else Z.testbit x t.
Proof.
  intros Hs. rewrite Z.ldiff_spec, Z.shiftl_1_l. destruct (Z.eqb_spec t s) as [-> | Hne].
  - rewrite Z.pow2_bits_true by done. apply andb_false_r.
  - destruct (Z.lt_ge_cases t 0); [by rewrite !Z.testbit_neg_r |].
    rewrite Z.pow2_bits_false by lia. apply andb_true_r.
Qed.

Lemma set_bit_ok lv f s i x :
  level_ok lv f -> 0 <= s < SLOTS ->
  level_ok (set_bit s (set_head s i lv)) (fun t => if t =? s then i :: x else f t).
Proof.
  intros H Hs. apply (level_ok_upd lv); try done.
  - simpl. destruct H as (_ & Ho & _). apply lor_pow2_bound; [done | | lia].
    rewrite Z.shiftl_1_l. split; [apply Z.pow_nonneg; lia |].
    apply Z.pow_lt_mono_r; [lia | lia |]. change SLOTS with 64 in Hs. lia.
  - intros t. simpl. by rewrite Zlor_bit by lia.
Qed.

Lemma clear_bit_ok lv f s :
  level_ok lv f -> 0 <= s < SLOTS ->
  level_ok (clear_bit s (set_head s NIL lv)) (fun t => if t =? s then [] else f t).
Proof.
  intros H Hs. apply (level_ok_upd lv); try done.
  - simpl. destruct H as (_ & Ho & _).
    assert (0 <= Z.ldiff (occupied lv) (Z.shiftl 1 s)) by (apply Z.ldiff_nonneg; lia).
    split; [done |].
    enough (Z.ldiff (occupied lv) (Z.shiftl 1 s) <= occupied lv) by lia.
    apply Z.ldiff_le; [lia |]. apply Z.bits_inj'. intros n _.
    rewrite Z.ldiff_spec, Zldiff_bit, Z.bits_0 by lia.
    destruct (n =? s); [done |]. destruct (Z.testbit (occupied lv) n); done.
  - intros t. simpl. by rewrite Zldiff_bit by lia.
Qed.

(** A slot's list with a new entry at its front. *)
Lemma slot_ok_front es es' now l s a i e :
  slot_ok es now l s a -> relinked es es' a -> dseg prev next es' i a NIL -> i ∉ a -> es !!z i = Some e ->
  well_placed now l s (when e) ->
  slot_ok (vset es' i (set_place (Armed l s) (set_next (List.hd NIL a) (set_prev NIL e)))) now l s (i :: a).
Proof.
  intros (Hd & Hn & Hpl) Hrel Hds Hia He Hwp.
  assert (HeI : es' !!z i = Some e) by (by rewrite (rel_out _ _ _ Hrel)).
  split; [| split].
  - simpl. rewrite (vget_vset_eq _ _ _ e) by done. eexists. split; [done |].
    split; [done |]. split; [done |]. by apply dseg_vset.
  - by apply NoDup_cons.
  - intros j [-> | Hj]%elem_of_cons.
    + rewrite (vget_vset_eq _ _ _ e) by done. eexists. split; [done |]. split; [done |]. done.
    + rewrite vget_vset_ne by (by intros ->). destruct (Hpl j Hj) as (ej & Hej & Hpj & Hwj).
      destruct (rel_in _ _ _ Hrel j ej Hej) as (ej' & Hej' & Hw1 & _ & _ & Hp1).
      exists ej'. split; [done |]. split; [congruence |]. by rewrite Hw1.
Qed.

Lemma link_ok w L F D A i e :
  layout w L F (i :: D) A -> entries w !!z i = Some e -> elapsed w < when e ->
  armed w + 1 <= u64_max ->
  exists w' l s,
    link i w = Some w' /\ valid_slot l s /\
    layout w' (Lupd L l s (i :: L l s)) F D ({[i]} ∪ A) /\ same_base w w' /\
    armed w' = armed w + 1 /\ (forall j, j ∈ D -> entries w' !!z j = entries w !!z j) /\
    (forall j, view w' j = upd (view w) i (Some (generation e, Some (when e, waker e))) j).
Proof.
  intros H He Hdue Harm. pose proof (lay_len _ _ _ _ _ H) as Hlen.
  destruct H as [Ht Hr Hlv Hs Hf Hp]. unfold link. rewrite He. simpl.
  rewrite add64_Some by lia. simpl. rewrite sub64_Some by (rewrite SPAN_eq; lia). simpl.
  pose proof (link_well_placed (elapsed w) (when e) ltac:(lia) Hdue) as Hwp. simpl in Hwp.
  set (l := level_for _ _) in *. set (s := slot_for _ _) in *.
  assert (Hwp' := Hwp). destruct Hwp as (Hvl & Hvs & Hwhen & Hwin).
  destruct (levels_ok_get _ _ l s Hlv) as (lv & Hgl & Hlok & Hhd); [done |].
  rewrite Hgl. simpl. rewrite Hhd. simpl. unfold on_level. rewrite Hgl. simpl.
  destruct (Hs l s) as (Hd & Hn & Hpl); [done |].
  assert (Hia : forall l' s', valid_slot l' s' -> i ∉ L l' s').
  { intros l' s' Hv Hi. apply (parts_DA _ _ _ _ _ Hp i); [set_solver |].
    apply (parts_A _ _ _ _ _ Hp). eauto. }
  assert (HiF : i ∉ F) by (apply (parts_DF _ _ _ _ _ Hp); set_solver).
  assert (HiD : i ∉ D) by (pose proof (parts_D _ _ _ _ _ Hp) as X; apply NoDup_cons in X; tauto).
  destruct (relink_front
    (set_levels (vset (levels w) l (set_bit s (set_head s i lv))) w) l s (L l s) i (elapsed w))
    as (es' & -> & Hrel & Hds); [done | done |].
  simpl in *. unfold on_entry. simpl.
  rewrite (rel_out _ _ _ Hrel) by (by apply Hia). rewrite He. simpl.
  rewrite add64_Some by done. simpl.
  eexists _, l, s. split; [done |]. split; [done |].
  assert (HeI : es' !!z i = Some e) by (rewrite (rel_out _ _ _ Hrel) by (by apply Hia); done).
  set (e' := set_place _ _).
  assert (Hother : forall j, j ∉ i :: L l s -> vset es' i e' !!z j = entries w !!z j).
  { intros j [Hj1 Hj2]%not_elem_of_cons. rewrite vget_vset_ne by done. by apply (rel_out _ _ _ Hrel). }
  split; [constructor; simpl | split; [done | split; [done | split]]].
  - done.
  - by rewrite vlen_vset, (rel_len _ _ _ Hrel).
  - eapply levels_ok_upd; [done | done | done |]. apply set_bit_ok; [done | done].
  - eapply slots_ok_upd; [done | |].
    + intros l' s' j Hv Hne Hj. apply Hother. intros [-> | Hj']%elem_of_cons.
      * by apply (Hia l' s').
      * apply Hne. symmetry. by eapply slots_ok_disjoint.
    + apply (slot_ok_front (entries w)); [by apply Hs | done | done | by apply Hia | done | done].
  - eapply free_ok_frame; [| done]. intros j Hj. apply Hother.
    intros [-> | Hj']%elem_of_cons; [done |].
    apply (parts_FA _ _ _ _ _ Hp j Hj). apply (parts_A _ _ _ _ _ Hp). by exists l, s.
  - rewrite vlen_vset, (rel_len _ _ _ Hrel). by apply parts_link.
  - intros j Hj. apply Hother. intros [-> | Hj']%elem_of_cons; [done |].
    apply (parts_DA _ _ _ _ _ Hp j); [set_solver |]. apply (parts_A _ _ _ _ _ Hp). by exists l, s.
  - intros j. unfold view at 1, upd. simpl. destruct (Z.eqb_spec j i) as [-> | Hne].
    + by rewrite (vget_vset_eq _ _ _ e).
    + rewrite vget_vset_ne by done. apply (relinked_stub _ _ _ j Hrel).
Qed.

(** ** Unlinking *)

Lemma levels_ok_same lvs L l s x :
  levels_ok lvs L -> valid_slot l s -> List.hd NIL x = List.hd NIL (L l s) ->
  (x = [] <-> L l s = []) -> levels_ok lvs (Lupd L l s x).
Proof.
  intros [Hlen H] [Hl Hs] Hhd Hnil. split; [done |]. intros k Hk.
  destruct (H k Hk) as (lv & Hlv & Hlen' & Ho & Hok). exists lv. split; [done |].
  split; [done |]. split; [done |]. intros t Ht. destruct (Hok t Ht) as [H1 H2].
  unfold Lupd. destruct (Z.eqb_spec k l) as [-> |], (Z.eqb_spec t s) as [-> |]; simpl; try done.
  rewrite Hhd, H1, H2. split; [done |]. f_equal. apply bool_decide_ext. by rewrite Hnil.
Qed.

(** The heads and bitmap after the first of a list went. *)
Lemma unlink_head_ok lv f s i b :
  level_ok lv f -> 0 <= s < SLOTS -> f s = i :: b -> List.hd NIL b = NIL <-> b = [] ->
  level_ok (if List.hd NIL b =? NIL then clear_bit s (set_head s (List.hd NIL b) lv)
            else set_head s (List.hd NIL b) lv)
           (fun t => if t =? s then b else f t).
Proof.
  intros H Hs Hf Hnil. destruct (Z.eqb_spec (List.hd NIL b) NIL) as [Heq | Hne].
  - rewrite Heq. apply Hnil in Heq as ->. by apply clear_bit_ok.
  - apply (level_ok_upd lv); try done; [apply H |]. intros t. simpl.
    destruct (Z.eqb_spec t s) as [-> |]; [| done].
    destruct H as (_ & _ & H). destruct (H s Hs) as [_ ->]. rewrite Hf.
    destruct b; [by destruct Hne |]. done.
Qed.

Lemma wheel_cut_dseg es a i b :
  dseg prev next es NIL (a ++ i :: b) NIL -> NoDup (a ++ i :: b) -> vlen es <= NIL ->
  dseg prev next (cut set_prev set_next es (List.last a NIL) (List.hd NIL b)) NIL (a ++ b) NIL.
Proof. by apply cut_dseg. Qed.

Lemma relinked_edit es X j f :
  (forall e, when (f e) = when e /\ waker (f e) = waker e /\
             generation (f e) = generation e /\ place (f e) = place e) ->
  (j <> NIL -> j ∈ X) -> relinked es (edit f es j) X.
Proof.
  intros Hf Hj. unfold edit. destruct (Z.eqb_spec j NIL); [apply relinked_refl |].
  destruct (es !!z j) as [e|] eqn:E; [| apply relinked_refl].
  destruct (Hf e) as (? & ? & ? & ?). apply (relinked_vset _ _ _ e); auto.
Qed.

Lemma last_in (a : list Z) d : a <> [] -> List.last a d ∈ a.
Proof. destruct a as [|x a _] using rev_ind; [done |]. rewrite last_last. set_solver. Qed.

(** The entries [unlink] leaves, whatever branches it takes. *)
Lemma relinked_cut es a b :
  relinked es (cut set_prev set_next es (List.last a NIL) (List.hd NIL b)) (a ++ b).
Proof.
  unfold cut. eapply relinked_trans; apply relinked_edit; try done.
  - intros Hne. apply elem_of_app. left. apply last_in. by intros ->.
  - intros Hne. apply elem_of_app. right. destruct b; [done | set_solver].
Qed.

Lemma on_entry_edit w j f :
  j <> NIL -> (exists e, entries w !!z j = Some e) ->
  on_entry j f w = Some (set_entries (edit f (entries w) j) w).
Proof. intros Hj [e He]. unfold on_entry. by rewrite (edit_eq _ _ _ e), He. Qed.

(** The end of [unlink]: the entry after the one unlinked is told of the one
    before it, and one timer less is armed. *)
Lemma unlink_end w w1 p n :
  entries w1 = edit (set_next n) (entries w) p -> armed w1 = armed w -> 1 <= armed w -> n <> p \/ n = NIL ->
  (n <> NIL -> is_Some (entries w !!z n)) ->
  (w2 ← (if negb (n =? NIL) then on_entry n (set_prev p) w1 else Some w1);
   total ← sub64 (armed w2) 1; Some (set_armed total w2))
  = Some (set_armed (armed w - 1) (set_entries (cut set_prev set_next (entries w) p n) w1)).
Proof.
  intros Hw1 Ha1 Harm Hnp Hn. destruct (Z.eqb_spec n NIL) as [Hz | Hnz]; simpl.
  - rewrite Ha1, sub64_Some by done. simpl. unfold cut. rewrite Hz.
    unfold edit at 1. simpl. rewrite Hz in Hw1. rewrite <- Hw1, set_entries_id. done.
  - rewrite on_entry_edit; [| done |].
    + simpl. rewrite Ha1, sub64_Some by done. simpl. by rewrite Hw1.
    + rewrite Hw1, edit_ne by (by destruct Hnp). by apply Hn.
Qed.

(** What [unlink] does to the entry [i] of a slot's list [a ++ i :: b]. *)
Lemma unlink_code w L F D A l s a i b :
  layout w L F D A -> valid_slot l s -> L l s = a ++ i :: b -> 1 <= armed w ->
  exists lvs', levels_ok lvs' (Lupd L l s (a ++ b)) /\
    unlink i w = Some (set_armed (armed w - 1)
      (set_entries (cut set_prev set_next (entries w) (List.last a NIL) (List.hd NIL b)) (set_levels lvs' w))).
Proof.
  intros H Hv HL Harm. pose proof (lay_len _ _ _ _ _ H) as Hlen. destruct H as [Ht Hr Hlv Hs Hf Hp]. destruct (Hs l s Hv) as (Hd & Hn & Hpl).
  rewrite HL in Hd, Hn, Hpl. destruct (Hpl i) as (e & He & Hplace & _); [set_solver |].
  pose proof Hd as Hmid. apply dseg_middle in Hmid as (e0 & He0 & Hprev & Hnext & Hda & Hdb). rewrite He in He0. injection He0 as <-.
  assert (Hbnil : List.hd NIL b = NIL <-> b = []) by (by eapply hd_chain_NIL).
  assert (Hanil : List.last a NIL = NIL <-> a = []) by (by eapply last_chain_NIL).
  apply NoDup_app in Hn as (Hna & Hdis & [Hib Hnb]%NoDup_cons).
  destruct (levels_ok_get _ _ l s Hlv) as (lv & Hgl & Hlok & Hhd); [done |].
  assert (Hne : List.hd NIL b <> List.last a NIL \/ List.hd NIL b = NIL).
  { destruct b as [|y b]; [by right | left; simpl]. intros ->. destruct a as [|x a _] using rev_ind.
    - simpl in *. destruct Hdb as (? & Hb0%vget_bound & _). lia.
    - rewrite last_last in *. apply (Hdis x); set_solver. }
  assert (Hsome : List.hd NIL b <> NIL -> is_Some (entries w !!z List.hd NIL b)).
  { destruct b as [|y b]; [done |]. destruct Hdb as (ey & Hy & _). intros _. by exists ey. }
  unfold unlink. rewrite He. simpl. rewrite Hplace, Hprev, Hnext.
  destruct (Z.eqb_spec (List.last a NIL) NIL) as [Hz | Hnz].
  - apply Hanil in Hz as ->. simpl in *.
    exists (vset (levels w) l (if List.hd NIL b =? NIL
      then clear_bit s (set_head s (List.hd NIL b) lv) else set_head s (List.hd NIL b) lv)).
    split.
    { eapply levels_ok_upd; [done | apply Hv | done |]. by apply (unlink_head_ok lv (L l) s i b); [| apply Hv | |]. }
    unfold on_level. rewrite Hgl. simpl.
    assert (Hend : forall lvs, _) by (intros lvs; apply (unlink_end w (set_levels lvs w) NIL (List.hd NIL b)); done).
    destruct (List.hd NIL b =? NIL) eqn:Hb; simpl in *.
    + rewrite (vget_vset_eq _ _ _ lv) by done. simpl. rewrite vset_vset. apply Hend.
    + apply Hend.
  - rewrite on_entry_edit; [| done |].
    + simpl. exists (levels w). split.
      * apply levels_ok_same; [done | done | |]; rewrite HL; by destruct a.
      * rewrite (unlink_end w (set_entries (edit (set_next (List.hd NIL b)) (entries w) (List.last a NIL)) w));
          [by destruct w | done ..].
    + eapply dseg_in; [exact Hda |]. apply last_in. by rewrite <- Hanil.
Qed.

Lemma unlink_ok w L F D A l s a i b :
  layout w L F D A -> valid_slot l s -> L l s = a ++ i :: b -> 1 <= armed w ->
  exists w',
    unlink i w = Some w' /\
    layout w' (Lupd L l s (a ++ b)) F (i :: D) (A ∖ list_to_set [i]) /\ same_base w w' /\
    armed w' = armed w - 1 /\ (forall j, view w' j = view w j).
Proof.
  intros H Hv HL Harm. pose proof (lay_len _ _ _ _ _ H) as Hlen.
  destruct (unlink_code w L F D A l s a i b H Hv HL Harm) as (lvs' & Hlvs & ->).
  destruct H as [Ht Hr Hlv Hs Hf Hp]. destruct (Hs l s Hv) as (Hd & Hn & Hpl).
  rewrite HL in Hd, Hn, Hpl.
  pose proof (wheel_cut_dseg _ _ _ _ Hd Hn Hlen) as Hcut.
  pose proof (relinked_cut (entries w) a b) as Hrel.
  set (es' := cut set_prev set_next (entries w) (List.last a NIL) (List.hd NIL b)) in *.
  apply NoDup_app in Hn as (Hna & Hdis & [Hib Hnb]%NoDup_cons).
  assert (Hia : i ∉ a) by (intros Hi; apply (Hdis i Hi); set_solver).
  eexists. split; [done |].
  assert (Hother : forall j, j ∉ a ++ b -> es' !!z j = entries w !!z j)
    by (intros; by apply (rel_out _ _ _ Hrel)).
  assert (HsA : forall j, j ∈ a ++ b -> j ∈ A).
  { intros j Hj. apply (parts_A _ _ _ _ _ Hp). exists l, s. split; [done |]. rewrite HL. set_solver. }
  split; [constructor; simpl | split; [done | split; [done |]]].
  - done.
  - by rewrite (rel_len _ _ _ Hrel).
  - done.
  - eapply slots_ok_upd; [done | |].
    + intros l' s' j Hv' Hne Hj. apply Hother. intros Hj'. apply Hne. symmetry.
      eapply slots_ok_disjoint; try done. rewrite HL. set_solver.
    + split; [done |]. split.
      * apply NoDup_app. split; [done |]. split; [| done]. intros j Hj Hj'. apply (Hdis j Hj). set_solver.
      * intros j Hj. destruct (Hpl j) as (ej & Hej & Hpj & Hwj); [set_solver |].
        destruct (rel_in _ _ _ Hrel j ej Hej) as (ej' & Hej' & Hw1 & _ & _ & Hp1).
        exists ej'. split; [done |]. split; [congruence |]. by rewrite Hw1.
  - eapply free_ok_frame; [| done]. intros j Hj. apply Hother.
    intros Hj'. apply (parts_FA _ _ _ _ _ Hp j Hj). auto.
  - rewrite (rel_len _ _ _ Hrel). apply (parts_detach _ L F D A l s [i] (a ++ b)); try done.
    + apply NoDup_singleton.
    + intros j. rewrite HL. set_solver.
    + set_solver.
    + intros l' s' j Hv' Hne Hj Hj'. apply list_elem_of_singleton in Hj as ->. apply Hne. symmetry.
      eapply slots_ok_disjoint; try done. rewrite HL. set_solver.
  - intros j. unfold view. simpl. apply (relinked_stub _ _ _ j Hrel).
Qed.
