(* ===== verification/WheelOps.v ===== *)
(** * What the wheel promises its clients

    Arming, cancelling and looking at timers, in terms of [timer]: what a key
    reaches. Each operation is total on a well-formed wheel, keeps it
    well-formed, and changes what one key reaches. *)

From S2P Require Import Prelude Chains Wheel WheelPlace WheelInv.
Open Scope Z_scope.

(** The deadline and the waker of the timer a key names; [None] for a stale key. *)
Definition timer (w : Wheel) (k : TimerKey) : option (Z * option Waker) :=
  (fun e => (when e, waker e)) <$> entry w k.

(** ** Keys and views *)

Definition reach (x : option (Z * option (Z * option Waker))) (g : Z) : option (Z * option Waker) :=
  match x with
  | Some (g', Some d) => if g' =? g then Some d else None
  | _ => None
  end.

Lemma timer_view w k : timer w k = reach (view w (key_index k)) (key_generation k).
Proof.
  unfold timer, entry, view. destruct (entries w !!z key_index k) as [e|]; [| done].
  simpl. unfold stub, reach. destruct (generation e =? key_generation k), (is_free (place e)); done.
Qed.

Lemma timer_frame w w' k :
  view w' (key_index k) = view w (key_index k) -> timer w' k = timer w k.
Proof. intros H. by rewrite !timer_view, H. Qed.

Lemma live_timer w k :
  live w k = match timer w k with Some _ => Some (key_index k) | None => None end.
Proof. unfold live, timer. by destruct (entry w k). Qed.

Lemma is_free_eq p : is_free p = true <-> p = Free.
Proof. destruct p; done. Qed.

Lemma key_eta k i g : key_index k = i -> key_generation k = g ->
  k = {| key_index := i; key_generation := g |}.
Proof. destruct k. simpl. by intros -> ->. Qed.

(** A live key's entry is linked in the slot it names. *)
Lemma timer_linked w L F A k d :
  layout w L F [] A -> timer w k = Some d ->
  exists e l s a b,
    entries w !!z key_index k = Some e /\ (when e, waker e) = d /\
    generation e = key_generation k /\
    valid_slot l s /\ L l s = a ++ key_index k :: b /\ key_index k ∈ A.
Proof.
  intros H Ht. unfold timer, entry in Ht.
  destruct (entries w !!z key_index k) as [e|] eqn:He; [| done]. simpl in Ht.
  destruct (Z.eqb_spec (generation e) (key_generation k)) as [Hg |]; [| done].
  destruct (is_free (place e)) eqn:Hfree; [done |]. simpl in Ht. injection Ht as <-.
  destruct H as [_ _ _ Hs Hf Hp].
  assert (HA : key_index k ∈ A).
  { destruct (proj1 (parts_all _ _ _ _ _ Hp (key_index k))) as [HF | [? | ?]]; [by apply vget_bound in He | | set_solver | done].
    destruct Hf as (_ & _ & _ & Hf). destruct (Hf _ HF) as (e' & He' & Hfree').
    rewrite He in He'. injection He' as <-. rewrite Hfree' in Hfree. done. }
  apply (parts_A _ _ _ _ _ Hp) in HA as HA'. destruct HA' as (l & s & Hv & Hi).
  apply list_elem_of_split in Hi as (a & b & HL).
  exists e, l, s, a, b. done.
Qed.

(** ** A new wheel *)

Lemma wf_new t : wf (tagged t).
Proof.
  exists (fun _ _ => []), [], ∅. split; [| done].
  constructor; simpl; try (unfold u64_max; rewrite ?SPAN_eq; unfold vlen; simpl; lia).
  - split; [done |]. intros l Hl. exists Level_new. split.
    + on_each_level Hl; done.
    + split; [done |]. split; [done |]. intros s Hs. split; [| by rewrite Z.bits_0].
      apply vget_Some. split; [done |]. apply lookup_replicate_2. change SLOTS with 64 in *. lia.
  - intros l s _. split; [done |]. split; [constructor |]. set_solver.
  - split; [done |]. split; [done |]. split; [constructor |]. set_solver.
  - constructor; try set_solver; [| constructor].
    intros i. unfold vlen. simpl. split; [lia | set_solver].
Qed.

(** ** Arming *)

Lemma insert_armed w at_ wk :
  wf w -> elapsed w < at_ -> phantom w + vlen (entries w) + 1 <= u64_max ->
  exists k w',
    insert w at_ wk = Some (Ok k, w') /\ wf w' /\ same_base w w' /\ armed w' = armed w + 1 /\
    timer w k = None /\ timer w' k = Some (at_, Some wk) /\
    (forall k', k' <> k -> timer w' k' = timer w k') /\
    key_generation k = (match view w (key_index k) with Some (g, _) => g | None => tag w end) /\
    (forall j, view w' j =
       upd (view w) (key_index k) (Some (key_generation k, Some (at_, Some wk))) j).
Proof.
  intros (L & F & A & Hlay & Hcount) Hat Hroom. unfold insert.
  destruct (Z.leb_spec at_ (elapsed w)); [lia |].
  destruct (alloc_ok _ _ _ _ _ Hlay Hroom)
    as (i & e & w1 & F' & -> & Hlay1 & (He1 & Hp1 & Ht1) & Ha1 & Hi & Hfree & Hg & Hnot & Hv1).
  simpl. unfold on_entry. rewrite Hi. simpl.
  set (e1 := set_waker (Some wk) (set_when at_ e)).
  pose proof (layout_held _ _ _ _ _ i e1 Hlay1 ltac:(set_solver)) as Hlay2.
  set (w2 := set_entries (vset (entries w1) i e1) w1) in *.
  assert (Hi2 : entries w2 !!z i = Some e1) by (by apply (vget_vset_eq _ _ _ e)).
  pose proof (parts_size _ _ _ _ _ (vlen_nonneg _) (lay_parts _ _ _ _ _ Hlay2)) as Hsize.
  pose proof (lay_room _ _ _ _ _ Hlay2) as Hroom2. simpl in Hroom2.
  change (vlen [i]) with 1 in Hsize.
  destruct (link_ok _ _ _ _ _ i e1 Hlay2 Hi2)
    as (w3 & l & s & -> & Hvs & Hlay3 & (He3 & Hp3 & Ht3) & Ha3 & _ & Hv3);
    [simpl; lia | simpl in *; lia |].
  simpl.
  assert (Hvi : view w3 i = Some (generation e, Some (at_, Some wk))) by (by rewrite Hv3, upd_eq).
  pose proof Hvi as Hvi'. unfold view in Hvi'.
  destruct (entries w3 !!z i) as [e3|] eqn:Hi3; [| done]. simpl in *.
  injection Hvi' as Hg3 _. rewrite Hg3.
  assert (Hold : forall j, j <> i -> view w3 j = view w j).
  { intros j Hj. rewrite Hv3, upd_ne by done. rewrite <- Hv1 by done.
    unfold w2. erewrite view_vset by done. by rewrite upd_ne. }
  eexists _, w3. split; [done |].
  split; [| split; [| split; [| split; [| split; [| split; [| split]]]]]].
  - exists (Lupd L l s (i :: L l s)), F', ({[i]} ∪ A). split; [done |].
    rewrite size_union, size_singleton.
    + simpl in Hp3. rewrite Ha3, Hp3, Hp1. simpl. lia.
    + pose proof (parts_DA _ _ _ _ _ (lay_parts _ _ _ _ _ Hlay1) i). set_solver.
  - unfold same_base. simpl in *. split_and!; congruence.
  - rewrite Ha3. simpl. lia.
  - rewrite timer_view. simpl. unfold reach. destruct (view w i) as [[g [d|]]|]; try done.
    destruct (Z.eqb_spec g (generation e)) as [-> |]; [| done]. by destruct (Hnot d).
  - rewrite timer_view. simpl. rewrite Hvi. simpl. by rewrite Z.eqb_refl.
  - intros k' Hk'. rewrite !timer_view.
    destruct (Z.eq_dec (key_index k') i) as [Heq | Hne]; [| by rewrite Hold].
    rewrite Heq, Hvi. simpl.
    destruct (Z.eqb_spec (generation e) (key_generation k')) as [Hge | Hge].
    + destruct Hk'. by apply key_eta.
    + unfold reach. destruct (view w i) as [[g [d|]]|]; try done.
      by destruct (Z.eqb_spec g (key_generation k')); [congruence |].
  - done.
  - intros j. simpl. unfold upd. destruct (Z.eqb_spec j i) as [-> | Hne]; [done | by apply Hold].
Qed.

(** ** Cancelling and looking *)

Lemma remove_stale w k : timer w k = None -> remove w k = Some (None, w).
Proof. intros Ht. unfold remove. by rewrite live_timer, Ht. Qed.

Lemma armed_pos w L F D A i :
  layout w L F D A -> armed w = phantom w + Z.of_nat (size A) -> i ∈ A -> 1 <= armed w.
Proof.
  intros H Hc Hi. destruct (lay_room _ _ _ _ _ H) as [Hph _].
  assert (size A <> 0%nat) by (apply size_non_empty_iff; set_solver). lia.
Qed.

Lemma size_remove (A : gset Z) i :
  i ∈ A -> Z.of_nat (size (A ∖ list_to_set [i])) = Z.of_nat (size A) - 1.
Proof.
  intros Hi. assert (Hs : list_to_set [i] ⊆ A) by set_solver.
  rewrite size_difference by done.
  assert (Heq : (list_to_set [i] : gset Z) = {[i]}) by set_solver. rewrite Heq, size_singleton.
  assert (size A <> 0%nat) by (apply size_non_empty_iff; set_solver). lia.
Qed.

(** Taking a live timer off the wheel, for [remove] and [reset]. *)
Lemma unlink_live w L F A k d :
  layout w L F [] A -> armed w = phantom w + Z.of_nat (size A) -> timer w k = Some d ->
  exists w' L' A' e,
    unlink (key_index k) w = Some w' /\ layout w' L' F [key_index k] A' /\
    armed w' = phantom w' + Z.of_nat (size A') /\ same_base w w' /\ armed w' = armed w - 1 /\
    entries w' !!z key_index k = Some e /\ (when e, waker e) = d /\
    generation e = key_generation k /\ (forall j, view w' j = view w j).
Proof.
  intros Hlay Hcount Ht.
  destruct (timer_linked _ _ _ _ _ _ Hlay Ht) as (e & l & s & a & b & He & Hd & Hg & Hv & HL & HA).
  destruct (unlink_ok _ _ _ _ _ _ _ _ _ _ Hlay Hv HL)
    as (w' & Hu & Hlay' & Hbase & Harm & Hview); [by eapply armed_pos |].
  pose proof (Hview (key_index k)) as Hk. unfold view in Hk. rewrite He in Hk.
  destruct (entries w' !!z key_index k) as [e'|] eqn:He'; [| done]. simpl in Hk.
  unfold stub in Hk. injection Hk as Hg' Hd'.
  eexists w', _, _, e'. split; [done |]. split; [done |]. split; [| split; [done |]].
  { rewrite Harm, size_remove, Hcount by done. destruct Hbase as (_ & -> & _). lia. }
  split; [done |]. split; [done |]. split; [| split; [congruence | done]].
  pose proof Ht as Ht'. rewrite timer_view in Ht'. unfold view, reach in Ht'.
  rewrite He in Ht'. simpl in Ht'.
  destruct (is_free (place e)); [done |].
  destruct (is_free (place e')); [done |]. congruence.
Qed.

Lemma remove_live w k d :
  wf w -> timer w k = Some d ->
  exists w',
    remove w k = Some (snd d, w') /\ wf w' /\ same_base w w' /\ armed w' = armed w - 1 /\
    timer w' k = None /\ (forall k', k' <> k -> timer w' k' = timer w k') /\
    (forall j, view w' j =
       upd (view w) (key_index k) (Some (wrapping_add 64 (key_generation k) 1, None)) j).
Proof.
  intros (L & F & A & Hlay & Hcount) Ht. unfold remove. rewrite live_timer, Ht.
  destruct (unlink_live _ _ _ _ _ _ Hlay Hcount Ht)
    as (w1 & L1 & A1 & e & -> & Hlay1 & Hc1 & Hb1 & Ha1 & He & Hd & Hg & Hv1).
  simpl. destruct (release_ok _ _ _ _ _ _ _ Hlay1 He) as (w2 & -> & Hlay2 & Hb2 & Ha2 & _ & Hv2).
  exists w2. subst d. split; [done |]. split; [| split; [| split; [| split; [| split]]]].
  - exists L1, (key_index k :: F), A1. split; [done |]. destruct Hb2 as (_ & Hph & _). lia.
  - unfold same_base in *. destruct Hb1 as (? & ? & ?), Hb2 as (? & ? & ?). split_and!; congruence.
  - lia.
  - by rewrite timer_view, Hv2, upd_eq.
  - intros k' Hk'. rewrite !timer_view, Hv2.
    destruct (Z.eq_dec (key_index k') (key_index k)) as [Heq | Hne]; [| by rewrite upd_ne, Hv1].
    rewrite Heq, upd_eq. simpl.
    rewrite timer_view in Ht. unfold reach in *.
    destruct (view w (key_index k)) as [[g [d|]]|]; try done.
    destruct (Z.eqb_spec g (key_generation k)) as [-> |]; [| done].
    destruct (Z.eqb_spec (key_generation k) (key_generation k')); [| done].
    destruct Hk'. destruct k, k'. simpl in *. congruence.
  - intros j. rewrite Hv2, Hg. unfold upd. by destruct (j =? key_index k).
Qed.

(** The waker of a timer replaced. *)
Lemma layout_waker w L F D A i e x :
  layout w L F D A -> entries w !!z i = Some e ->
  layout (set_entries (vset (entries w) i (set_waker x e)) w) L F D A.
Proof.
  intros [Ht Hr Hlv Hs Hf Hp] He.
  assert (Hex : forall j ej, entries w !!z j = Some ej ->
    exists ej', vset (entries w) i (set_waker x e) !!z j = Some ej' /\
      place ej' = place ej /\ when ej' = when ej).
  { intros j ej Hj. destruct (Z.eq_dec j i) as [-> | Hne].
    - rewrite (vget_vset_eq _ _ _ e) by done. rewrite He in Hj. injection Hj as <-. eauto.
    - rewrite vget_vset_ne by done. eauto. }
  constructor; simpl; rewrite ?vlen_vset; try done.
  - intros l s Hv. destruct (Hs l s Hv) as (Hd & Hn & Hpl).
    split; [by eapply dseg_vset_same |]. split; [done |]. intros j Hj.
    destruct (Hpl j Hj) as (ej & Hej & Hplj & Hw).
    destruct (Hex j ej Hej) as (ej' & -> & ? & Hwh). exists ej'.
    split; [done |]. split; [congruence |]. by rewrite Hwh.
  - destruct Hf as (H1 & H2 & H3 & H4). split; [done |]. split; [by eapply fseg_vset_same |].
    split; [done |]. intros j Hj. destruct (H4 j Hj) as (ej & Hej & Hplj).
    destruct (Hex j ej Hej) as (ej' & -> & ? & _). exists ej'. split; [done | congruence].
Qed.

Lemma replace_waker_live w k d wk :
  wf w -> timer w k = Some d ->
  exists w',
    replace_waker w k wk = Some (snd d, w') /\ wf w' /\ same_base w w' /\ armed w' = armed w /\
    timer w' k = Some (fst d, Some wk) /\ (forall k', k' <> k -> timer w' k' = timer w k') /\
    (forall j, fst <$> view w' j = fst <$> view w j).
Proof.
  intros (L & F & A & Hlay & Hcount) Ht. unfold replace_waker. rewrite live_timer, Ht.
  destruct (timer_linked _ _ _ _ _ _ Hlay Ht) as (e & l & s & a & b & He & <- & Hg & _).
  simpl. rewrite He. simpl. unfold on_entry. rewrite He. simpl.
  eexists. split; [done |]. split; [| split; [done | split; [done |]]].
  { exists L, F, A. split; [by apply layout_waker | done]. }
  assert (Hfree : is_free (place e) = false).
  { unfold timer, entry in Ht. rewrite He in Ht. simpl in Ht.
    destruct (is_free (place e)); [| done]. by rewrite andb_false_r in Ht. }
  split; [| split].
  - rewrite timer_view. erewrite view_vset by done. rewrite upd_eq.
    unfold reach, stub. simpl. by rewrite Hfree, Hg, Z.eqb_refl.
  - intros k' Hk'. rewrite !timer_view. erewrite view_vset by done.
    destruct (Z.eq_dec (key_index k') (key_index k)) as [Heq | Hne]; [| by rewrite upd_ne].
    rewrite Heq, upd_eq. unfold view. rewrite He. unfold reach, stub. simpl. rewrite Hfree.
    destruct (Z.eqb_spec (generation e) (key_generation k')); [| done].
    destruct Hk'. destruct k, k'. simpl in *. congruence.
  - intros j. erewrite view_vset by done. unfold upd.
    destruct (Z.eqb_spec j (key_index k)) as [-> |]; [| done]. unfold view. by rewrite He.
Qed.

Lemma replace_waker_stale w k wk :
  timer w k = None -> replace_waker w k wk = Some (Some wk, w).
Proof. intros Ht. unfold replace_waker. by rewrite live_timer, Ht. Qed.

Lemma is_fired_timer w k : is_fired w k = bool_decide (timer w k = None).
Proof. unfold is_fired, timer. by destruct (entry w k). Qed.
