(* ===== verification/WheelAdvance.v ===== *)
(** * Time passing

    The slot search and [advance]: the search finds the slot that comes
    first, and [advance now] fires exactly the timers due by [now], whatever
    levels they are on, and ends. *)

From S2P Require Import Prelude Chains Wheel WheelPlace WheelInv WheelOps.
Open Scope Z_scope.

(** ** The slot search *)

(** [best] is the first slot to come of the levels below [n]. *)
Definition best_below (now : Z) (L : Z -> Z -> list Z) (n : Z) (best : option (Z * Z * Z)) : Prop :=
  match best with
  | None => forall l s, valid_slot l s -> l < n -> L l s = []
  | Some (l, s, d) =>
      valid_slot l s /\ L l s <> [] /\ d = slot_time now l s /\
      forall l' s', valid_slot l' s' -> l' < n -> L l' s' <> [] -> d <= slot_time now l' s'
  end.

Lemma level_ok_bit lv f s :
  level_ok lv f -> Z.testbit (occupied lv) s = true -> 0 <= s < SLOTS /\ f s <> [].
Proof.
  intros (_ & Ho & H) Hb.
  assert (Hs : 0 <= s < SLOTS) by (apply (testbit_lt_pow2 (occupied lv) 64); [done | lia | done]).
  split; [done |]. destruct (H s Hs) as [_ Hb']. rewrite Hb in Hb'. intros Hf. by rewrite Hf in Hb'.
Qed.

Lemma scan_level_ok w L F D A l lv best :
  layout w L F D A -> 0 <= l < LEVELS -> levels w !!z l = Some lv -> level_ok lv (L l) ->
  best_below (elapsed w) L l best ->
  exists best', scan_level (elapsed w) l lv best = Some best' /\
                best_below (elapsed w) L (l + 1) best'.
Proof.
  intros Hlay Hl Hlv Hok Hbest. unfold scan_level.
  pose proof Hok as (_ & Ho & Hbits).
  destruct (Z.eqb_spec (occupied lv) 0) as [Hz | Hnz].
  - exists best. split; [done |].
    assert (Hnil : forall s, 0 <= s < SLOTS -> L l s = []).
    { intros s Hs. destruct (Hbits s Hs) as [_ Hb]. rewrite Hz, Z.bits_0 in Hb.
      by destruct (bool_decide_reflect (L l s = [])). }
    destruct best as [[[l0 s0] d0]|]; simpl in *.
    + destruct Hbest as (H1 & H2 & H3 & H4). split_and!; try done. intros l' s' Hv Hlt Hne.
      destruct (Z.eq_dec l' l) as [-> |]; [| apply H4; [done | lia | done]].
      destruct Hne. apply Hnil. apply Hv.
    + intros l' s' Hv Hlt. destruct (Z.eq_dec l' l) as [-> |]; [apply Hnil, Hv |].
      apply Hbest; [done | lia].
  - destruct (lay_time _ _ _ _ _ Hlay) as [Ht0 Ht1].
    destruct (first_occupied_spec (elapsed w) l (occupied lv)) as (slot & -> & Hb & Hmin);
      [lia | lia | lia | unfold u64_size in *; lia | |].
    { intros s Hb Hlt. destruct (level_ok_bit _ _ _ Hok Hb) as [Hs Hne].
      destruct (lay_slots _ _ _ _ _ Hlay l s) as (_ & _ & Hp); [done |].
      destruct (L l s) as [|i r]; [done |].
      destruct (Hp i) as (e & _ & _ & (_ & _ & _ & Hw)); [set_solver | by apply Hw]. }
    destruct (level_ok_bit _ _ _ Hok Hb) as [Hs Hne].
    assert (Hhere : forall l' s', valid_slot l' s' -> l' = l -> L l' s' <> [] ->
      slot_time (elapsed w) l slot <= slot_time (elapsed w) l' s').
    { intros l' s' [_ Hs'] -> Hne'. apply Hmin. destruct (Hbits s' Hs') as [_ ->].
      by destruct (bool_decide_reflect (L l s' = [])). }
    simpl. destruct best as [[[l0 s0] d0]|]; simpl in *; (eexists; split; [done |]).
    + destruct Hbest as (H1 & H2 & H3 & H4).
      destruct (Z.ltb_spec (slot_time (elapsed w) l slot) d0); simpl; split_and!; try done;
        intros l' s' Hv Hlt Hne'; destruct (Z.eq_dec l' l) as [Heq |].
      * by apply Hhere.
      * specialize (H4 l' s' Hv ltac:(lia) Hne'). lia.
      * specialize (Hhere l' s' Hv Heq Hne'). lia.
      * apply H4; [done | lia | done].
    + split_and!; try done. intros l' s' Hv Hlt Hne'. destruct (Z.eq_dec l' l) as [Heq |].
      * by apply Hhere.
      * destruct Hne'. apply Hbest; [done | lia].
Qed.

Lemma scan_levels_ok w L F D A lvs l best :
  layout w L F D A -> 0 <= l -> l + vlen lvs = LEVELS ->
  (forall k, 0 <= k < vlen lvs -> levels w !!z (l + k) = lvs !!z k) ->
  best_below (elapsed w) L l best ->
  exists best', scan_levels (elapsed w) l lvs best = Some best' /\
                best_below (elapsed w) L LEVELS best'.
Proof.
  intros Hlay. revert l best. induction lvs as [|lv lvs IH]; intros l best Hl Hlen Hsub Hbest.
  - exists best. split; [done |]. unfold vlen in Hlen. simpl in Hlen.
    by replace LEVELS with l by lia.
  - assert (Hcons : vlen (lv :: lvs) = vlen lvs + 1) by (unfold vlen; simpl; lia).
    pose proof (vlen_nonneg lvs).
    assert (Hlv : levels w !!z l = Some lv).
    { specialize (Hsub 0 ltac:(lia)). rewrite Z.add_0_r in Hsub. rewrite Hsub.
      apply vget_Some. split; [lia | done]. }
    destruct (proj2 (lay_levels _ _ _ _ _ Hlay) l) as (lv' & Hlv' & Hok); [lia |].
    rewrite Hlv in Hlv'. injection Hlv' as <-.
    destruct (scan_level_ok _ _ _ _ _ l lv best Hlay) as (b1 & Hb1 & Hbest1); [lia | done | done | done |].
    simpl. rewrite Hb1. simpl. apply IH; [lia | lia | | done].
    intros k Hk. replace (l + 1 + k) with (l + (k + 1)) by lia. rewrite Hsub by lia.
    unfold vget, vlen in *. simpl.
    destruct (Z.leb_spec 0 (k + 1)), (Z.leb_spec 0 k); try lia.
    destruct (Z.ltb_spec (k + 1) (Z.of_nat (S (length lvs)))),
      (Z.ltb_spec k (Z.of_nat (length lvs))); try lia; simpl.
    by replace (Z.to_nat (k + 1)) with (S (Z.to_nat k)) by lia.
Qed.

(** The search is total and finds the slot that comes first. *)
Lemma next_slot_ok w L F D A :
  layout w L F D A ->
  exists best, next_slot w = Some best /\ best_below (elapsed w) L LEVELS best.
Proof.
  intros Hlay. unfold next_slot. destruct (lay_levels _ _ _ _ _ Hlay) as [Hlen _].
  eapply scan_levels_ok; try done.
  intros l s [Hl _] Hlt. lia.
Qed.

(** No timer is due before the slot the search finds. *)
Lemma best_below_due w L F A best k at_ x :
  layout w L F [] A -> best_below (elapsed w) L LEVELS best -> timer w k = Some (at_, x) ->
  exists l s d, best = Some (l, s, d) /\ d <= at_.
Proof.
  intros Hlay Hbest Ht.
  destruct (timer_linked _ _ _ _ _ _ Hlay Ht) as (e & l & s & a & b & He & Hd & Hg & Hv & HL & HA).
  destruct best as [[[l0 s0] d0]|]; simpl in Hbest.
  - destruct Hbest as (_ & _ & _ & Hmin). exists l0, s0, d0. split; [done |].
    specialize (Hmin l s Hv (proj2 (proj1 Hv))). rewrite HL in Hmin.
    specialize (Hmin ltac:(by destruct a)).
    destruct (lay_slots _ _ _ _ _ Hlay l s Hv) as (_ & _ & Hp).
    destruct (Hp (key_index k)) as (e' & He' & _ & (_ & _ & Hle & _)); [rewrite HL; set_solver |].
    rewrite He in He'. injection He' as <-. injection Hd as <- _. lia.
  - specialize (Hbest l s Hv (proj2 (proj1 Hv))). rewrite HL in Hbest. by destruct a.
Qed.

(** ** Firing *)

(** What firing by [now] does to one entry as clients see it. *)
Definition fire (now : Z) (x : Z * option (Z * option Waker)) : Z * option (Z * option Waker) :=
  match x with
  | (g, Some (at_, _)) => if at_ <=? now then (wrapping_add 64 g 1, None) else x
  | _ => x
  end.

(** The waker an entry due by [now] holds. *)
Definition due_waker (now : Z) (x : Z * option (Z * option Waker)) : option Waker :=
  match x with
  | (_, Some (at_, wk)) => if at_ <=? now then wk else None
  | _ => None
  end.

Definition stubs (w : Wheel) : list (Z * option (Z * option Waker)) := stub <$> entries w.

(** The wakers of the timers due by [now]. *)
Definition due_wakers (now : Z) (w : Wheel) : list Waker := omap (due_waker now) (stubs w).

Lemma stubs_view w j : stubs w !!z j = view w j.
Proof.
  unfold stubs, view, vget. rewrite length_fmap. destruct (_ && _); [| done].
  apply list_lookup_fmap.
Qed.

Lemma stubs_same w w' : (forall j, view w' j = view w j) -> stubs w' = stubs w.
Proof. intros H. apply vget_ext. intros j. by rewrite !stubs_view. Qed.

Lemma stubs_upd w w' i x :
  (exists y, view w i = Some y) -> (forall j, view w' j = upd (view w) i (Some x) j) ->
  stubs w' = vset (stubs w) i x.
Proof.
  intros [y Hy] H. apply vget_ext. intros j. rewrite stubs_view, H.
  unfold upd. destruct (Z.eqb_spec j i) as [-> | Hne].
  - symmetry. apply (vget_vset_eq _ _ _ y). by rewrite stubs_view.
  - by rewrite vget_vset_ne, stubs_view.
Qed.

Lemma omap_all_None {A B} (f : A -> option B) (l : list A) :
  (forall x, x ∈ l -> f x = None) -> omap f l = [].
Proof.
  induction l as [|x l IH]; intros H; [done |]. simpl. rewrite H by set_solver.
  apply IH. set_solver.
Qed.

Lemma omap_vset {A B} (f : A -> option B) (l : list A) i x y :
  l !!z i = Some x ->
  exists l1 l2, omap f l = l1 ++ option_list (f x) ++ l2 /\
                omap f (vset l i y) = l1 ++ option_list (f y) ++ l2.
Proof.
  intros [Hi Hl]%vget_Some. pose proof (take_drop_middle _ _ _ Hl) as Hsplit.
  exists (omap f (take (Z.to_nat i) l)), (omap f (drop (S (Z.to_nat i)) l)).
  assert (Hset : vset l i y = take (Z.to_nat i) l ++ y :: drop (S (Z.to_nat i)) l).
  { unfold vset, vlen in *. destruct (Z.leb_spec 0 i), (Z.ltb_spec i (Z.of_nat (length l))); try lia.
    simpl. apply insert_take_drop. lia. }
  rewrite Hset. rewrite <- Hsplit at 1. rewrite !omap_app. simpl.
  split; [by destruct (f x) | by destruct (f y)].
Qed.

(** How far [advance now] has come from the entries [S0]: some of the due
    ones are fired and their wakers are in [out]; the others are as they were. *)
Record progress (now : Z) (S0 : list (Z * option (Z * option Waker))) (w : Wheel)
    (out : list Waker) : Prop := {
  pro_len : vlen (stubs w) = vlen S0;
  pro_each : forall j x, S0 !!z j = Some x ->
    stubs w !!z j = Some x \/ stubs w !!z j = Some (fire now x);
  pro_out : out ++ due_wakers now w ≡ₚ omap (due_waker now) S0;
}.

Lemma progress_same now S0 w w' out :
  progress now S0 w out -> stubs w' = stubs w -> progress now S0 w' out.
Proof. intros [H1 H2 H3] Hs. constructor; unfold due_wakers in *; by rewrite ?Hs. Qed.

Lemma fire_idem now x : fire now (fire now x) = fire now x.
Proof.
  destruct x as [g [[at_ wk]|]]; [| done]. simpl. destruct (at_ <=? now) eqn:E; [done |].
  simpl. by rewrite E.
Qed.

(** One more timer fires. *)
Lemma progress_fire now S0 w w' out i g at_ wk :
  progress now S0 w out -> view w i = Some (g, Some (at_, wk)) -> at_ <= now ->
  stubs w' = vset (stubs w) i (wrapping_add 64 g 1, None) ->
  progress now S0 w' (out ++ option_list wk).
Proof.
  intros [H1 H2 H3] Hv Hdue Hs. rewrite <- stubs_view in Hv.
  assert (Hd : (at_ <=? now) = true) by (by apply Z.leb_le).
  constructor; rewrite ?Hs, ?vlen_vset; [done | |].
  - intros j x Hx. destruct (Z.eq_dec j i) as [-> | Hne]; [| rewrite vget_vset_ne by done; auto].
    right. rewrite (vget_vset_eq _ _ _ _ Hv). f_equal.
    destruct (H2 i x Hx) as [Heq | Heq]; rewrite Hv in Heq; injection Heq as Heq.
    + subst x. simpl. by rewrite Hd.
    + assert (Hf : fire now (fire now x) = fire now x) by apply fire_idem.
      rewrite <- Heq in Hf. simpl in Hf. rewrite Hd in Hf. done.
  - rewrite <- H3. unfold due_wakers. rewrite Hs.
    destruct (omap_vset (due_waker now) (stubs w) i _ (wrapping_add 64 g 1, None) Hv)
      as (l1 & l2 & -> & ->). simpl. rewrite Hd. rewrite <- app_assoc.
    apply Permutation_app_head. rewrite app_assoc, (Permutation_app_comm (option_list wk) l1).
    by rewrite app_assoc.
Qed.

(** The entries of one slot between two passes of the drain: [r] is left. *)
Record draining (now t : Z) (w0 : Wheel) (S0 : list (Z * option (Z * option Waker)))
    (r : list Z) (w : Wheel) (out : list Waker) : Prop := {
  dr_layout : exists L F A,
    layout w L F r A /\ armed w = phantom w + Z.of_nat (size A) + vlen r;
  dr_chain : fseg next (entries w) r NIL;
  dr_armed : forall i, i ∈ r -> exists e, entries w !!z i = Some e /\ is_free (place e) = false;
  dr_base : elapsed w = t /\ phantom w = phantom w0 /\ tag w = tag w0;
  dr_progress : progress now S0 w out;
}.

(** What is at hand of the first entry left. *)
Lemma drain_head now t w0 S0 i r w out :
  draining now t w0 S0 (i :: r) w out ->
  exists L F A e,
    layout w L F (i :: r) A /\ armed w = phantom w + Z.of_nat (size A) + (vlen r + 1) /\
    0 <= phantom w /\ armed w <= u64_max /\ i <> NIL /\ i ∉ r /\ i ∉ A /\
    entries w !!z i = Some e /\ view w i = Some (generation e, Some (when e, waker e)) /\
    next e = List.hd NIL r /\ fseg next (entries w) r NIL.
Proof.
  intros [(L & F & A & Hlay & Hcount) Hchain Harmed _ _]. exists L, F, A.
  destruct (Harmed i) as (e & He & Hfree); [set_solver |]. exists e.
  pose proof Hchain as (e' & He' & Hnext & Hrest). rewrite He in He'. injection He' as <-.
  pose proof (lay_room _ _ _ _ _ Hlay) as Hroom. pose proof (lay_parts _ _ _ _ _ Hlay) as Hp.
  pose proof (parts_size _ _ _ _ _ (vlen_nonneg _) Hp) as Hsize. rewrite vlen_cons in *.
  pose proof (parts_D _ _ _ _ _ Hp) as [Hir _]%NoDup_cons.
  split; [done |]. split; [lia |]. split; [lia |]. split; [lia |].
  split; [apply vget_bound in He; pose proof (lay_len _ _ _ _ _ Hlay); lia |]. split; [done |].
  split; [apply (parts_DA _ _ _ _ _ Hp); set_solver |]. split; [done |]. split; [| done].
  unfold view. rewrite He. simpl. unfold stub. by rewrite Hfree.
Qed.

Lemma drain_fires now t w0 S0 i r w out e :
  draining now t w0 S0 (i :: r) w out -> entries w !!z i = Some e -> when e <= now ->
  exists wk w2,
    release i (set_entries (vset (entries w) i (set_waker None e)) (set_armed (armed w - 1) w)) = Some (wk, w2) /\
    draining now t w0 S0 r w2 (out ++ option_list (waker e)).
Proof.
  intros Hdr He Hdue.
  destruct (drain_head _ _ _ _ _ _ _ _ Hdr) as (L & F & A & e' & Hlay & Hcount & ? & ? & _ & Hir & _ & He' & Hview & _ & Hrest).
  rewrite He in He'. injection He' as <-. destruct Hdr as [_ _ Harmed (Het & Hph & Htag) Hpro].
  assert (Hlay1 : layout (set_entries (vset (entries w) i (set_waker None e)) (set_armed (armed w - 1) w)) L F (i :: r) A).
  { destruct (layout_held w L F (i :: r) A i (set_waker None e) Hlay ltac:(set_solver)). by constructor. }
  destruct (release_ok _ _ _ _ _ i (set_waker None e) Hlay1) as (w2 & -> & Hlay2 & (Hb1 & Hb2 & Hb3) & Ha2 & Hsame & Hv2).
  { by apply (vget_vset_eq _ _ _ e). }
  simpl in *. eexists _, w2. split; [done |].
  assert (Hents : forall j, j ∈ r -> entries w2 !!z j = entries w !!z j).
  { intros j Hj. rewrite Hsame by done. apply vget_vset_ne. by intros ->. }
  constructor.
  - exists L, (i :: F), A. split; [done |]. rewrite Ha2, Hb2. simpl. lia.
  - eapply fseg_frame; [| done]. intros j ej Hj Hej. exists ej. by rewrite Hents.
  - intros j Hj. rewrite Hents by done. apply Harmed. set_solver.
  - split_and!; congruence.
  - eapply progress_fire; [done | done | done |]. apply stubs_upd; [eauto |].
    intros j. rewrite Hv2. unfold upd. destruct (Z.eqb_spec j i) as [-> | Hne]; [done |].
    unfold view. simpl. by rewrite vget_vset_ne.
Qed.

Lemma drain_relinks now t w0 S0 i r w out e :
  t <= now -> draining now t w0 S0 (i :: r) w out -> entries w !!z i = Some e -> now < when e ->
  exists w2, link i (set_armed (armed w - 1) w) = Some w2 /\ draining now t w0 S0 r w2 out.
Proof.
  intros Htn Hdr He Hlate.
  destruct (drain_head _ _ _ _ _ _ _ _ Hdr) as (L & F & A & e' & Hlay & Hcount & ? & ? & _ & Hir & HiA & He' & Hview & _ & Hrest).
  rewrite He in He'. injection He' as <-. destruct Hdr as [_ _ Harmed (Het & Hph & Htag) Hpro].
  assert (Hlay1 : layout (set_armed (armed w - 1) w) L F (i :: r) A) by (destruct Hlay; by constructor).
  destruct (link_ok _ _ _ _ _ i e Hlay1 He) as (w2 & l & s & -> & Hvs & Hlay2 & (Hb1 & Hb2 & Hb3) & Ha2 & Hsame & Hv2).
  { simpl. lia. }
  { simpl. lia. }
  simpl in *. exists w2. split; [done |]. constructor.
  - eexists _, F, ({[i]} ∪ A). split; [done |]. rewrite size_union, size_singleton by set_solver.
    rewrite Ha2, Hb2. lia.
  - eapply fseg_frame; [| done]. intros j ej Hj Hej. exists ej. by rewrite Hsame.
  - intros j Hj. rewrite Hsame by done. apply Harmed. set_solver.
  - split_and!; congruence.
  - eapply progress_same; [done |]. apply stubs_same. intros j. rewrite Hv2.
    unfold upd. destruct (Z.eqb_spec j i) as [-> | Hne]; [| done]. by rewrite <- Hview.
Qed.

Lemma drain_pass_ok now t w0 S0 i r w out fired :
  t <= now ->
  draining now t w0 S0 (i :: r) w out ->
  exists w' out',
    drain_pass now (w, fired ++ out, i) = Some (Go (w', fired ++ out', List.hd NIL r)) /\
    draining now t w0 S0 r w' out'.
Proof.
  intros Htn Hdr. pose proof (vlen_nonneg r).
  destruct (drain_head _ _ _ _ _ _ _ _ Hdr) as (L & F & A & e & _ & Hcount & ? & ? & Hnil & _ & _ & He & _ & Hnext & _).
  unfold drain_pass. destruct (Z.eqb_spec i NIL) as [Hz | _]; [done |].
  rewrite He. simpl. rewrite sub64_Some by lia. simpl. rewrite Hnext.
  destruct (Z.leb_spec (when e) now) as [Hdue | Hlate]; simpl.
  - destruct (drain_fires _ _ _ _ _ _ _ _ e Hdr He Hdue) as (wk & w2 & Hrel & Hdr2).
    unfold on_entry. simpl. rewrite He. simpl. rewrite Hrel. simpl. eexists w2, _. split; [| exact Hdr2].
    destruct (waker e); simpl; by rewrite ?app_nil_r, <- ?app_assoc.
  - destruct (drain_relinks _ _ _ _ _ _ _ _ e Htn Hdr He Hlate) as (w2 & Hlink & Hdr2).
    rewrite Hlink. simpl. by exists w2, out.
Qed.

(** The drain of a slot ends with every entry of it fired or placed again. *)
Lemma drain_ok now t w0 S0 r w out fired :
  t <= now -> draining now t w0 S0 r w out ->
  exists w' out' i',
    while (vlen (entries w) + 1) (drain_pass now) (w, fired ++ out, List.hd NIL r) = Some (w', fired ++ out', i') /\
    draining now t w0 S0 [] w' out'.
Proof.
  intros Htn Hdr.
  destruct (while_spec (drain_pass now)
    (fun m st => exists r w out, st = (w, fired ++ out, List.hd NIL r) /\
                 draining now t w0 S0 r w out /\ m = vlen r)
    (fun st => exists w out i, st = (w, fired ++ out, i) /\ draining now t w0 S0 [] w out))
    with (fuel := vlen (entries w) + 1) (m := vlen r) (s := (w, fired ++ out, List.hd NIL r)) as (st' & Hw & (w' & out' & i' & -> & Hd')).
  - intros m st (r1 & w1 & out1 & -> & Hd & ->). split; [apply vlen_nonneg |].
    destruct r1 as [|i r1].
    + right. eexists. split; [done |]. eauto.
    + left. destruct (drain_pass_ok now t w0 S0 i r1 w1 out1 fired Htn Hd) as (w2 & out2 & Hp & Hd2).
      exists (vlen r1). eexists. split; [exact Hp |]. split; [eauto 10 |]. unfold vlen. simpl. lia.
  - eauto 10.
  - destruct Hdr as [(L & F & A & Hlay & _) _ _ _ _].
    pose proof (parts_size _ _ _ _ _ (vlen_nonneg _) (lay_parts _ _ _ _ _ Hlay)).
    lia.
  - eauto 10.
Qed.

(** A slot's list taken off the wheel as its time comes. *)
Lemma detach_ok w L F A l s lv d :
  layout w L F [] A -> armed w = phantom w + Z.of_nat (size A) ->
  valid_slot l s -> levels w !!z l = Some lv -> L l s <> [] -> d = slot_time (elapsed w) l s ->
  (forall l' s', valid_slot l' s' -> L l' s' <> [] -> d <= slot_time (elapsed w) l' s') ->
  d + SPAN <= u64_max ->
  let w' := set_levels (vset (levels w) l (clear_bit s (set_head s NIL lv))) (set_elapsed d w) in
  layout w' (Lupd L l s []) F (L l s) (A ∖ list_to_set (L l s)) /\
  armed w' = phantom w' + Z.of_nat (size (A ∖ list_to_set (L l s))) + vlen (L l s).
Proof.
  intros [Ht Hr Hlv Hs Hf Hp] Hcount Hv Hgl Hne Hd Hmin Hspan w'.
  destruct (Hs l s Hv) as (Hds & Hnd & Hpl).
  pose proof (slot_time_gt (elapsed w) l s (proj1 (proj1 Hv))) as Hgt.
  assert (HsA : forall j, j ∈ L l s -> j ∈ A).
  { intros j Hj. apply (parts_A _ _ _ _ _ Hp). eauto. }
  assert (Hdis : forall l' s' j, valid_slot l' s' -> (l', s') <> (l, s) -> j ∈ L l s -> j ∉ L l' s').
  { intros l' s' j Hv' Hne' Hj Hj'. apply Hne'. by eapply slots_ok_disjoint. }
  split.
  - constructor; simpl.
    + lia.
    + done.
    + destruct (levels_ok_get _ _ l s Hlv Hv) as (lv' & Hgl' & Hlok & _).
      rewrite Hgl in Hgl'. injection Hgl' as <-.
      eapply levels_ok_upd; [done | apply Hv | done |]. apply clear_bit_ok; [done | apply Hv].
    + intros l' s' Hv'. destruct (decide ((l', s') = (l, s))) as [[= -> ->] | Hne'].
      { rewrite Lupd_eq. split; [done |]. split; [constructor |]. set_solver. }
      rewrite Lupd_ne by done. destruct (Hs l' s' Hv') as (H1 & H2 & H3).
      split; [done |]. split; [done |]. intros i Hi.
      destruct (H3 i Hi) as (e & He & Hpe & Hwe). exists e. split; [done |]. split; [done |].
      eapply well_placed_mono; [done |]. split; [lia |].
      assert (Hle : d <= slot_time (elapsed w) l' s').
      { apply Hmin; [done |]. intros Hnil. rewrite Hnil in Hi. by apply not_elem_of_nil in Hi. }
      destruct (Z.eq_dec d (slot_time (elapsed w) l' s')) as [Heq |]; [exfalso | lia].
      destruct (L l s) as [|i0 r0]; [done |].
      destruct (Hpl i0) as (e0 & _ & _ & Hw0); [apply elem_of_cons; auto |].
      apply Hne'. symmetry. eapply well_placed_distinct; [done | done |]. congruence.
    + done.
    + rewrite <- (app_nil_r (L l s)) at 1.
      apply (parts_detach _ L F [] A l s (L l s) []); try done.
      * intros j. rewrite elem_of_nil. tauto.
      * intros j _. apply not_elem_of_nil.
  - simpl. assert (Hsub : list_to_set (L l s) ⊆ A).
    { intros j Hj. apply HsA. by apply elem_of_list_to_set in Hj. }
    rewrite size_difference, size_list_to_set by done. unfold vlen.
    assert (length (L l s) <= size A)%nat; [| lia].
    rewrite <- (size_list_to_set (C := gset Z)) by done. by apply subseteq_size.
Qed.

(** What [advance now] keeps between two slots. *)
Record advancing (now : Z) (w0 : Wheel) (w : Wheel) (out : list Waker) : Prop := {
  adv_wf : wf w;
  adv_base : phantom w = phantom w0 /\ tag w = tag w0;
  adv_time : elapsed w0 <= elapsed w <= Z.max (elapsed w0) now;
  adv_progress : progress now (stubs w0) w out;
}.

(** Nothing is left that is due. *)
Definition nothing_due (now : Z) (w : Wheel) : Prop :=
  forall k at_ x, timer w k = Some (at_, x) -> now < at_.

(** The wheel's time moved up to [now], before the first slot to come. *)
Lemma settle_ok now w L F A best :
  layout w L F [] A -> now + SPAN <= u64_max -> best_below (elapsed w) L LEVELS best ->
  (forall l s d, best = Some (l, s, d) -> now < d) ->
  layout (set_elapsed (Z.max (elapsed w) now) w) L F [] A.
Proof.
  intros [Ht Hr Hlv Hs Hf Hp] Hspan Hbest Hlt. constructor; simpl; try done; [lia |].
  eapply slots_ok_time; [done | lia |]. intros l s Hv Hne.
  destruct best as [[[l0 s0] d0]|]; simpl in Hbest.
  - destruct Hbest as (_ & _ & _ & Hmin). specialize (Hmin l s Hv (proj2 (proj1 Hv)) Hne).
    specialize (Hlt _ _ _ eq_refl). pose proof (slot_time_gt (elapsed w) l s (proj1 (proj1 Hv))). lia.
  - by destruct Hne; apply Hbest; [| apply Hv].
Qed.

Lemma advance_pass_stop now w L F A best :
  layout w L F [] A -> armed w = phantom w + Z.of_nat (size A) -> now + SPAN <= u64_max ->
  best_below (elapsed w) L LEVELS best -> (forall l s d, best = Some (l, s, d) -> now < d) ->
  nothing_due now w /\ wf (set_elapsed (Z.max (elapsed w) now) w).
Proof.
  intros Hlay Hcount Hspan Hbest Hlt. split.
  - intros k at_ x Ht. destruct (best_below_due w L F A best k at_ x) as (l & s & d & Hb & ?); try done.
    specialize (Hlt l s d Hb). lia.
  - exists L, F, A. split; [by eapply settle_ok | done].
Qed.

(** The slot that came is drained. *)
Lemma advance_pass_go now w0 w out fired L F A l s d lv :
  now + SPAN <= u64_max -> advancing now w0 w out ->
  layout w L F [] A -> armed w = phantom w + Z.of_nat (size A) -> levels w !!z l = Some lv ->
  best_below (elapsed w) L LEVELS (Some (l, s, d)) -> d <= now ->
  exists w' out' i,
    while (vlen (entries w) + 1) (drain_pass now)
      (set_levels (vset (levels w) l (clear_bit s (set_head s NIL lv))) (set_elapsed d w),
       fired ++ out, List.hd NIL (L l s)) = Some (w', fired ++ out', i) /\
    advancing now w0 w' out' /\ elapsed w' = d /\ elapsed w < d.
Proof.
  intros Hspan [_ (Hph & Htag) Htime Hpro] Hlay Hcount Hgl (Hv & Hne & Hd & Hmin) Hge.
  destruct (detach_ok w L F A l s lv d) as [Hlay1 Hcount1]; try done; [| lia |].
  { intros l' s' Hv' Hne'. apply Hmin; [done | apply Hv' | done]. }
  set (w1 := set_levels _ _) in *.
  destruct (lay_slots _ _ _ _ _ Hlay l s Hv) as (Hds & _ & Hpl).
  destruct (drain_ok now d w1 (stubs w0) (L l s) w1 out fired) as (w2 & out2 & i2 & Hw & Hdr); [lia | |].
  { constructor; [eauto | by eapply dseg_fseg | | done | by eapply progress_same].
    intros i Hi. destruct (Hpl i Hi) as (e & He & Hp & _). exists e. split; [done |]. by rewrite Hp. }
  exists w2, out2, i2. split; [done |].
  destruct Hdr as [(L2 & F2 & A2 & Hlay2 & Hc2) _ _ (He2 & Hp2 & Ht2) Hpro2].
  pose proof (slot_time_gt (elapsed w) l s (proj1 (proj1 Hv))) as Hgt.
  split; [| split; [done | lia]]. constructor.
  - exists L2, F2, A2. split; [done |]. unfold vlen in Hc2. simpl in Hc2. lia.
  - split; [by rewrite Hp2 | by rewrite Ht2].
  - lia.
  - done.
Qed.

(** One pass on a slot that came, its steps but the drain carried out. *)
Lemma advance_pass_eq now w f l s d lv i w' f' j :
  next_slot w = Some (Some (l, s, d)) -> d <= now -> levels w !!z l = Some lv ->
  heads lv !!z s = Some i ->
  while (vlen (entries w) + 1) (drain_pass now)
    (set_levels (vset (levels w) l (clear_bit s (set_head s NIL lv))) (set_elapsed d w), f, i)
    = Some (w', f', j) ->
  advance_pass now (w, f) = Some (Go (w', f')).
Proof.
  intros Hns Hd Hl Hh Hw. unfold advance_pass. rewrite Hns. cbn [mbind option_bind].
  destruct (Z.ltb_spec now d); [lia |].
  change (levels (set_elapsed d w)) with (levels w). rewrite Hl. cbn [mbind option_bind].
  rewrite Hh. cbn [mbind option_bind]. unfold on_level.
  change (levels (set_elapsed d w)) with (levels w). rewrite Hl. cbn [mbind option_bind].
  apply (f_equal (fun x => '(w, fired, _) ← x; Some (Go (w, fired)))) in Hw. exact Hw.
Qed.

Lemma advance_pass_ok now w0 w out fired :
  now + SPAN <= u64_max -> advancing now w0 w out ->
  (exists w' out',
     advance_pass now (w, fired ++ out) = Some (Go (w', fired ++ out')) /\
     advancing now w0 w' out' /\ elapsed w < elapsed w' <= now) \/
  (advance_pass now (w, fired ++ out) = Some (Stop (w, fired ++ out)) /\
   nothing_due now w /\ wf (set_elapsed (Z.max (elapsed w) now) w)).
Proof.
  intros Hspan Hadv. pose proof Hadv as [(L & F & A & Hlay & Hcount) _ _ _].
  destruct (next_slot_ok _ _ _ _ _ Hlay) as (best & Hns & Hbest).
  destruct best as [[[l s] d]|].
  - destruct (Z.lt_ge_cases now d) as [Hlt | Hge].
    + right. split.
      { unfold advance_pass. rewrite Hns. simpl. by destruct (Z.ltb_spec now d); [| lia]. }
      eapply advance_pass_stop; try done. by intros ? ? ? [= <- <- <-].
    + left. pose proof Hbest as (Hv & _).
      destruct (levels_ok_get _ _ l s (lay_levels _ _ _ _ _ Hlay) Hv) as (lv & Hgl & _ & Hhd).
      destruct (advance_pass_go now w0 w out fired L F A l s d lv)
        as (w' & out' & i & Hw & Hadv' & Hel & Hlt); try done.
      exists w', out'. split; [by eapply advance_pass_eq |]. split; [done | lia].
  - right. split; [| by eapply advance_pass_stop]. unfold advance_pass. by rewrite Hns.
Qed.

Lemma nothing_due_view now w j g at_ x :
  nothing_due now w -> view w j = Some (g, Some (at_, x)) -> now < at_.
Proof.
  intros H Hv. apply (H {| key_index := j; key_generation := g |} at_ x).
  rewrite timer_view. simpl. rewrite Hv. simpl. by rewrite Z.eqb_refl.
Qed.

(** With nothing due left, every entry is what firing makes it. *)
Lemma progress_done now S0 w out :
  progress now S0 w out -> nothing_due now w ->
  stubs w = fire now <$> S0 /\ out ≡ₚ omap (due_waker now) S0.
Proof.
  intros [Hlen Heach Hout] Hnd.
  assert (Hfix : forall j x, stubs w !!z j = Some x -> fire now x = x /\ due_waker now x = None).
  { intros j [g [[at_ wk]|]] Hx; [| done]. rewrite stubs_view in Hx.
    pose proof (nothing_due_view _ _ _ _ _ _ Hnd Hx). simpl.
    by destruct (Z.leb_spec at_ now); [lia |]. }
  split.
  - apply vget_ext. intros j.
    assert (Hmap : (fire now <$> S0) !!z j = fire now <$> S0 !!z j).
    { unfold vget. rewrite length_fmap. destruct (_ && _); [apply list_lookup_fmap | done]. }
    rewrite Hmap. destruct (S0 !!z j) as [x|] eqn:Hx; simpl.
    + destruct (Heach j x Hx) as [Hj | Hj]; [| done].
      rewrite Hj. f_equal. symmetry. by eapply Hfix.
    + apply vget_None. rewrite Hlen. intros Hj. destruct (vget_is_Some S0 j Hj). congruence.
  - assert (Hnil : due_wakers now w = []); [| by rewrite Hnil, app_nil_r in Hout].
    unfold due_wakers. assert (Hall : forall x, x ∈ stubs w -> due_waker now x = None).
    { intros x [i Hi]%list_elem_of_lookup. apply (Hfix (Z.of_nat i)).
      apply vget_Some. rewrite Nat2Z.id. split; [| done].
      apply lookup_lt_Some in Hi. unfold vlen. lia. }
    by apply omap_all_None.
Qed.

Lemma advance_ok now w fired :
  wf w -> now + SPAN <= u64_max ->
  exists w' out,
    advance w now fired = Some (w', fired ++ out) /\ wf w' /\
    elapsed w' = Z.max (elapsed w) now /\ phantom w' = phantom w /\ tag w' = tag w /\
    stubs w' = fire now <$> stubs w /\ out ≡ₚ due_wakers now w.
Proof.
  intros Hwf Hspan. unfold advance.
  destruct (while_spec (advance_pass now)
    (fun m st => exists w1 out, st = (w1, fired ++ out) /\ advancing now w w1 out /\
                 m = Z.max 0 (now - elapsed w1))
    (fun st => exists w1 out, st = (w1, fired ++ out) /\ advancing now w w1 out /\
               nothing_due now w1 /\ wf (set_elapsed (Z.max (elapsed w1) now) w1)))
    with (fuel := Z.max 0 (now - elapsed w) + 1) (m := Z.max 0 (now - elapsed w)) (s := (w, fired))
    as (st & -> & (w1 & out & -> & [_ [Hph Htag] Htime Hpro] & Hnd & Hwf')).
  - intros m st (w1 & out & -> & Hadv & ->). split; [lia |].
    destruct (advance_pass_ok now w w1 out fired Hspan Hadv)
      as [(w2 & out2 & Hp & Hadv2 & Hlt) | (Hp & Hnd & Hwf1)].
    + left. exists (Z.max 0 (now - elapsed w2)). eexists. split; [exact Hp |]. split; [eauto 10 | lia].
    + right. eexists. split; [exact Hp |]. eauto 10.
  - exists w, []. rewrite app_nil_r. split; [done |]. split; [| done].
    constructor; [done | done | lia |]. constructor; [done | auto | done].
  - lia.
  - simpl. eexists _, out. split; [done |]. split; [done |].
    destruct (progress_done _ _ _ _ Hpro Hnd) as [Hst Hout].
    split_and!; try done. simpl. lia.
Qed.
