(* ===== verification/WheelSpec.v ===== *)
(** * The timer wheel: what it guarantees

    The remaining operations keep the invariant, runs of operations as a
    step relation, and the properties of [time/wheel.rs] stated for its
    clients, each with a concrete instance. *)

From S2P Require Import Prelude Chains Wheel WheelPlace WheelInv WheelOps WheelAdvance.
Open Scope Z_scope.

(** ** The remaining operations *)

Lemma vget_fmap {A B} (f : A -> B) (l : list A) j : (f <$> l) !!z j = f <$> l !!z j.
Proof. unfold vget. rewrite length_fmap. destruct (_ && _); [apply list_lookup_fmap | done]. Qed.

Lemma take_wakers_wf w : wf w -> wf (snd (take_wakers w)).
Proof.
  intros (L & F & A & [Ht Hr Hlv Hs Hf Hp] & Hcount). exists L, F, A. split; [| done].
  assert (Hex : forall j ej, entries w !!z j = Some ej ->
    (set_waker None <$> entries w) !!z j = Some (set_waker None ej)).
  { intros j ej Hj. by rewrite vget_fmap, Hj. }
  constructor; simpl; rewrite ?vlen_fmap; try done.
  - intros l s Hv. destruct (Hs l s Hv) as (Hd & Hn & Hpl). split; [| split; [done |]].
    + eapply dseg_frame; [| done]. intros i e _ Hi. rewrite (Hex i e Hi). eauto.
    + intros i Hi. destruct (Hpl i Hi) as (e & He & ? & ?). rewrite (Hex i e He). eauto.
  - destruct Hf as (H1 & H2 & H3 & H4). split; [done |]. split; [| split; [done |]].
    + eapply fseg_frame; [| done]. intros i e _ Hi. rewrite (Hex i e Hi). eauto.
    + intros i Hi. destruct (H4 i Hi) as (e & He & ?). rewrite (Hex i e He). eauto.
Qed.

Lemma set_phantom_ok w n :
  wf w -> 0 <= n -> n + vlen (entries w) <= u64_max ->
  exists w', set_phantom n w = Some w' /\ wf w' /\ tag w' = tag w /\ (forall j, view w' j = view w j).
Proof.
  intros (L & F & A & Hlay & Hcount) Hn Hroom. pose proof Hlay as [Ht Hr Hlv Hs Hf Hp].
  pose proof (parts_size _ _ _ _ _ (vlen_nonneg _) Hp) as Hsize.
  change (vlen []) with 0 in Hsize.
  unfold set_phantom. rewrite sub64_Some by lia. simpl. rewrite add64_Some by lia. simpl.
  eexists. split; [done |]. split; [| done]. exists L, F, A. split; [by constructor |].
  simpl. lia.
Qed.

Lemma reset_ok w k at_ wk :
  wf w -> exists w', reset w k at_ wk = Some w' /\ wf w' /\ tag w' = tag w /\
    (timer w k = None -> w' = w) /\
    (timer w k <> None ->
       timer w' k = (if at_ <=? elapsed w then None else Some (at_, Some wk)) /\
       (forall j, j <> key_index k -> view w' j = view w j) /\
       fst <$> view w' (key_index k) =
         Some (if at_ <=? elapsed w then wrapping_add 64 (key_generation k) 1
               else key_generation k)).
Proof.
  intros Hwf. unfold reset. rewrite live_timer.
  destruct (timer w k) as [d|] eqn:Ht; [| exists w; split; [done |]; split; [done |]; split; [done |]; split; done].
  destruct Hwf as (L & F & A & Hlay & Hcount).
  destruct (unlink_live _ _ _ _ _ _ Hlay Hcount Ht)
    as (w1 & L1 & A1 & e & -> & Hlay1 & Hc1 & (Hel & Hph & Htg) & Ha1 & He & Hd & Hg & Hv1).
  simpl. rewrite Hel. destruct (Z.leb_spec at_ (elapsed w)) as [Hle | Hgt].
  - destruct (release_ok _ _ _ _ _ _ _ Hlay1 He) as (w2 & -> & Hlay2 & (_ & Hph2 & Htg2) & Ha2 & _ & Hv2).
    simpl. exists w2. split; [done |]. split; [| split; [congruence | split; [done |]]].
    { eexists _, _, A1. split; [done |]. lia. }
    intros _. split; [by rewrite timer_view, Hv2, upd_eq |]. split.
    + intros j Hj. by rewrite Hv2, upd_ne, Hv1.
    + rewrite Hv2, upd_eq. simpl. by rewrite Hg.
  - unfold on_entry. rewrite He. simpl.
    set (e1 := if match waker e with Some x => will_wake x wk | None => false end
               then set_when at_ e else set_waker (Some wk) (set_when at_ e)).
    assert (He1 : when e1 = at_ /\ waker e1 = Some wk /\ generation e1 = key_generation k).
    { unfold e1, will_wake. destruct (waker e) as [x|] eqn:Hwk; [| done].
      destruct (Z.eqb_spec x wk) as [-> |]; done. }
    pose proof (layout_held _ _ _ _ _ (key_index k) e1 Hlay1 ltac:(set_solver)) as Hlay2.
    pose proof (parts_size _ _ _ _ _ (vlen_nonneg _) (lay_parts _ _ _ _ _ Hlay2)) as Hsize.
    pose proof (lay_room _ _ _ _ _ Hlay2) as Hroom. change (vlen [key_index k]) with 1 in Hsize.
    destruct He1 as (Hw1 & Hw2 & Hw3).
    destruct (link_ok _ _ _ _ _ (key_index k) e1 Hlay2)
      as (w3 & l & s & -> & Hvs & Hlay3 & (_ & Hph3 & Htg3) & Ha3 & _ & Hv3).
    { by apply (vget_vset_eq _ _ _ e). }
    { simpl. lia. }
    { simpl in *. lia. }
    simpl in *. exists w3. split; [done |]. split; [| split; [congruence | split; [done |]]].
    { eexists _, _, _. split; [done |]. rewrite size_union, size_singleton.
      - lia.
      - pose proof (parts_DA _ _ _ _ _ (lay_parts _ _ _ _ _ Hlay1) (key_index k)). set_solver. }
    intros _. split; [| split].
    + rewrite timer_view, Hv3, upd_eq. simpl. by rewrite Hw1, Hw2, Hw3, Z.eqb_refl.
    + intros j Hj. rewrite Hv3, upd_ne by done. erewrite view_vset by done. by rewrite upd_ne, Hv1.
    + rewrite Hv3, upd_eq. simpl. by rewrite Hw3.
Qed.

(** ** Runs *)

(** One call of a client, with what Rust's types and the shard give it: words
    in range and memory for one more entry. *)
Inductive step : Wheel -> Wheel -> Prop :=
| step_insert w at_ wk r w' :
    phantom w + vlen (entries w) + 1 <= u64_max ->
    insert w at_ wk = Some (r, w') -> step w w'
| step_remove w k r w' : remove w k = Some (r, w') -> step w w'
| step_replace w k wk r w' : replace_waker w k wk = Some (r, w') -> step w w'
| step_reset w k at_ wk w' : reset w k at_ wk = Some w' -> step w w'
| step_take w : step w (snd (take_wakers w))
| step_phantom w n w' :
    0 <= n -> n + vlen (entries w) <= u64_max -> set_phantom n w = Some w' -> step w w'
| step_advance w now fired w' fired' :
    now + SPAN <= u64_max -> advance w now fired = Some (w', fired') -> step w w'.

Inductive steps : nat -> Wheel -> Wheel -> Prop :=
| steps_O w : steps O w w
| steps_S n w w' w'' : step w w' -> steps n w' w'' -> steps (S n) w w''.

(** What one call may do to the generation of an entry of a wheel tagged [t]:
    keep it, or move it on by one; a new entry starts at the tag. *)
Definition gen_step (t : Z) (x y : option Z) : Prop :=
  match x, y with
  | Some g, Some g' => g' = g \/ g' = wrapping_add 64 g 1
  | None, Some g' => g' = t
  | None, None => True
  | Some _, None => False
  end.

Definition gen (w : Wheel) (i : Z) : option Z := fst <$> view w i.

Lemma gen_step_refl t x : gen_step t x x.
Proof. destruct x; simpl; auto. Qed.

Lemma step_insert_ok w at_ wk r w' i :
  wf w -> phantom w + vlen (entries w) + 1 <= u64_max -> insert w at_ wk = Some (r, w') ->
  wf w' /\ tag w' = tag w /\ gen_step (tag w) (gen w i) (gen w' i).
Proof.
  intros Hwf Hroom Hins. destruct (Z.le_gt_cases at_ (elapsed w)) as [Hle | Hgt].
  - unfold insert in Hins. destruct (Z.leb_spec at_ (elapsed w)); [| lia].
    injection Hins as <- <-. split; [done | split; [done | apply gen_step_refl]].
  - destruct (insert_armed w at_ wk Hwf Hgt Hroom)
      as (k & w1 & Hins' & Hwf1 & (_ & _ & Htag) & _ & _ & _ & _ & Hg & Hv).
    rewrite Hins in Hins'. injection Hins' as -> ->. split; [done |]. split; [done |].
    unfold gen. rewrite Hv. unfold upd. destruct (Z.eqb_spec i (key_index k)) as [-> | Hne].
    + rewrite Hg. destruct (view w (key_index k)) as [[g d]|]; simpl; auto.
    + apply gen_step_refl.
Qed.

Lemma step_remove_ok w k r w' i :
  wf w -> remove w k = Some (r, w') -> wf w' /\ tag w' = tag w /\ gen_step (tag w) (gen w i) (gen w' i).
Proof.
  intros Hwf Hrem. destruct (timer w k) as [d|] eqn:Ht.
  - destruct (remove_live w k d Hwf Ht) as (w1 & Hrem' & Hwf1 & (_ & _ & Htag) & _ & _ & _ & Hv).
    rewrite Hrem in Hrem'. injection Hrem' as -> ->. split; [done |]. split; [done |].
    unfold gen. rewrite Hv. unfold upd. destruct (Z.eqb_spec i (key_index k)) as [-> | Hne].
    + rewrite timer_view in Ht. unfold reach in Ht.
      destruct (view w (key_index k)) as [[g [d'|]]|]; try done.
      destruct (Z.eqb_spec g (key_generation k)) as [-> |]; [| done]. simpl. auto.
    + apply gen_step_refl.
  - rewrite remove_stale in Hrem by done. injection Hrem as <- <-.
    split; [done | split; [done | apply gen_step_refl]].
Qed.

Lemma step_reset_ok w k at_ wk w' i :
  wf w -> reset w k at_ wk = Some w' -> wf w' /\ tag w' = tag w /\ gen_step (tag w) (gen w i) (gen w' i).
Proof.
  intros Hwf Hres. destruct (reset_ok w k at_ wk Hwf) as (w1 & Hres' & Hwf1 & Htag & Hstale & Hlive).
  rewrite Hres in Hres'. injection Hres' as ->. split; [done |]. split; [done |].
  destruct (timer w k) as [d|] eqn:Ht.
  - destruct (Hlive ltac:(done)) as (_ & Hoth & Hk). unfold gen.
    destruct (Z.eq_dec i (key_index k)) as [-> | Hne]; [| by rewrite Hoth; [apply gen_step_refl |]].
    rewrite Hk. rewrite timer_view in Ht. unfold reach in Ht.
    destruct (view w (key_index k)) as [[g [d'|]]|]; try done.
    destruct (Z.eqb_spec g (key_generation k)) as [-> |]; [| done]. simpl.
    destruct (at_ <=? elapsed w); auto.
  - rewrite (Hstale eq_refl). apply gen_step_refl.
Qed.

Lemma fire_gen now x : fst (fire now x) = fst x \/ fst (fire now x) = wrapping_add 64 (fst x) 1.
Proof. destruct x as [g [[at_ wk]|]]; simpl; [destruct (at_ <=? now) |]; auto. Qed.

(** Every call keeps the wheel well-formed and moves a generation on by at
    most one. *)
Lemma step_ok w w' i : wf w -> step w w' -> wf w' /\ tag w' = tag w /\ gen_step (tag w) (gen w i) (gen w' i).
Proof.
  intros Hwf Hst. destruct Hst as [w at_ wk r w' Hroom H | w k r w' H | w k wk r w' H
    | w k at_ wk w' H | w | w n w' Hn Hroom H | w now fired w' fired' Hspan H].
  - by eapply step_insert_ok.
  - by eapply step_remove_ok.
  - destruct (timer w k) as [d|] eqn:Ht.
    + destruct (replace_waker_live w k d wk Hwf Ht) as (w1 & H' & Hwf1 & (_ & _ & Htag) & _ & _ & _ & Hg).
      rewrite H in H'. injection H' as -> ->. split; [done |]. split; [done |]. unfold gen. rewrite Hg. apply gen_step_refl.
    + rewrite replace_waker_stale in H by done. injection H as <- <-.
      split; [done | split; [done | apply gen_step_refl]].
  - by eapply step_reset_ok.
  - split; [by apply take_wakers_wf |]. split; [done |]. unfold gen, view. simpl. rewrite vget_fmap.
    destruct (entries w !!z i); simpl; auto.
  - destruct (set_phantom_ok w n Hwf Hn Hroom) as (w1 & H' & Hwf1 & Htag & Hv).
    rewrite H in H'. injection H' as ->. split; [done |]. split; [done |]. unfold gen. rewrite Hv. apply gen_step_refl.
  - destruct (advance_ok now w fired Hwf Hspan) as (w1 & out & H' & Hwf1 & _ & _ & Htag & Hst & _).
    rewrite H in H'. injection H' as -> ->. split; [done |]. split; [done |].
    unfold gen. rewrite <- !stubs_view, Hst, vget_fmap.
    destruct (stubs w !!z i) as [x|]; simpl; [apply fire_gen | done].
Qed.

Lemma steps_wf n w w' : wf w -> steps n w w' -> wf w'.
Proof.
  intros Hwf Hst. induction Hst as [|n w w' w'' H1 H2 IH]; [done |].
  apply IH. by apply (step_ok w w' 0).
Qed.

Lemma steps_gen n w w' i g :
  wf w -> steps n w w' -> gen w i = Some g -> 0 <= g < 2 ^ 64 ->
  exists m, 0 <= m <= Z.of_nat n /\ gen w' i = Some ((g + m) mod 2 ^ 64).
Proof.
  intros Hwf Hst. revert g Hwf. induction Hst as [w|n w w' w'' H1 H2 IH]; intros g Hwf Hg Hr.
  - exists 0. rewrite Z.add_0_r, Z.mod_small by done. split; [lia | done].
  - destruct (step_ok w w' i Hwf H1) as (Hwf' & _ & Hgs). rewrite Hg in Hgs.
    destruct (gen w' i) as [g'|] eqn:Hg'; [| done]. simpl in Hgs.
    destruct Hgs as [-> | ->].
    + destruct (IH g Hwf' eq_refl Hr) as (m & Hm & Hgm). exists m. split; [lia | done].
    + unfold wrapping_add in *.
      destruct (IH _ Hwf' eq_refl) as (m & Hm & Hgm); [apply Z.mod_pos_bound; lia |].
      exists (m + 1). split; [lia |]. rewrite Hgm, Z.add_mod_idemp_l by lia. do 2 f_equal. lia.
Qed.

(** Generations of a wheel tagged [t] count up from the tag. *)
Lemma steps_gen_range n w w' t c i g :
  wf w -> steps n w w' -> tag w = t -> 0 <= t -> t + Z.of_nat c + Z.of_nat n < 2 ^ 64 ->
  (forall j h, gen w j = Some h -> t <= h <= t + Z.of_nat c) ->
  gen w' i = Some g -> t <= g <= t + Z.of_nat c + Z.of_nat n.
Proof.
  intros Hwf Hst. revert c Hwf. induction Hst as [w|n w w' w'' H1 H2 IH]; intros c Hwf Ht H0 Hb Hall Hg.
  - specialize (Hall i g Hg). lia.
  - destruct (step_ok w w' 0 Hwf H1) as (Hwf' & Htag & _).
    specialize (IH (S c) Hwf' ltac:(congruence) H0 ltac:(lia)).
    enough (t <= g <= t + Z.of_nat (S c) + Z.of_nat n) by lia. apply IH; [| done].
    intros j h Hj. destruct (step_ok w w' j Hwf H1) as (_ & _ & Hgs). rewrite Hj in Hgs.
    destruct (gen w j) as [h0|] eqn:Hh0; simpl in Hgs; [| lia].
    specialize (Hall j h0 Hh0). destruct Hgs as [-> | ->]; [lia |].
    unfold wrapping_add. rewrite Z.mod_small by lia. lia.
Qed.

Lemma timer_gen w k d : timer w k = Some d -> gen w (key_index k) = Some (key_generation k).
Proof.
  rewrite timer_view. unfold reach, gen. destruct (view w (key_index k)) as [[g [d'|]]|]; try done.
  by destruct (Z.eqb_spec g (key_generation k)) as [-> |].
Qed.

(** The armed timers of a wheel. *)
Definition armed_entries (w : Wheel) : list Entry :=
  List.filter (fun e => negb (is_free (place e))) (entries w).

Lemma wf_armed w : wf w -> armed w = phantom w + vlen (armed_entries w).
Proof.
  intros (L & F & A & [_ _ _ Hs Hf Hp] & ->). unfold vlen, armed_entries. do 2 f_equal.
  apply count_indices. intros i. split.
  - intros Hi. apply (parts_A _ _ _ _ _ Hp) in Hi as (l & s & Hv & Hi).
    destruct (Hs l s Hv) as (_ & _ & Hpl). destruct (Hpl i Hi) as (e & He & Hpe & _).
    exists e. by rewrite Hpe.
  - intros (e & He & Hfree).
    destruct (proj1 (parts_all _ _ _ _ _ Hp i)) as [HF | [? | ?]];
      [by apply vget_bound in He | | set_solver | done].
    destruct Hf as (_ & _ & _ & Hf). destruct (Hf i HF) as (e' & He' & Hpe).
    rewrite He in He'. injection He' as <-. by rewrite Hpe in Hfree.
Qed.

(** ** A wheel to look at: three timers, on levels 0, 2 and 5 *)

Definition demo_insert (w : Wheel) (at_ wk : Z) : Wheel :=
  match insert w at_ wk with Some (_, w') => w' | None => w end.

Definition demo : Wheel := demo_insert (demo_insert (demo_insert new 5 1) 100000 2) 70000000000 3.

Lemma demo_steps : steps 3 new demo.
Proof.
  eapply steps_S; [eapply (step_insert _ 5 1); [vm_compute; discriminate | vm_compute; reflexivity] |].
  eapply steps_S; [eapply (step_insert _ 100000 2); [vm_compute; discriminate | vm_compute; reflexivity] |].
  eapply steps_S; [eapply (step_insert _ 70000000000 3); [vm_compute; discriminate | vm_compute; reflexivity] |].
  constructor.
Qed.

Lemma demo_wf : wf demo.
Proof. eapply steps_wf; [exact (wf_new 0) | exact demo_steps]. Qed.

(** ** Properties *)

(** C6. [advance now] ends, and fires exactly the timers due by [now]: every
    key whose deadline is at most [now] goes stale, every other key reaches
    what it reached before, the wakers handed out are those of the timers
    that were due, each once, and the wheel's time is [now] (or stays, if it
    was past it). Nothing fires early and nothing due is left, whatever
    levels the timers are on. [now] is a wheel's span at least below the largest
    [u64]. *)
Theorem advance_fires_due w now fired :
  wf w -> now + SPAN <= u64_max ->
  exists w' out,
    advance w now fired = Some (w', fired ++ out) /\ wf w' /\
    elapsed w' = Z.max (elapsed w) now /\
    (forall k, timer w' k =
       match timer w k with
       | Some (at_, wk) => if at_ <=? now then None else Some (at_, wk)
       | None => None
       end) /\
    out ≡ₚ due_wakers now w.
Proof.
  intros Hwf Hspan.
  destruct (advance_ok now w fired Hwf Hspan) as (w' & out & Hadv & Hwf' & Hel & _ & _ & Hst & Hout).
  exists w', out. split_and!; try done. intros k. rewrite !timer_view, <- !stubs_view, Hst, vget_fmap.
  destruct (stubs w !!z key_index k) as [[g [[at_ wk]|]]|]; simpl; [| done | done].
  destruct (at_ <=? now) eqn:E; simpl; destruct (g =? key_generation k); by rewrite ?E.
Qed.

Lemma advance_fires_due_witness :
  due_wakers 100 demo = [1] /\
  exists w' out,
    advance demo 100 [] = Some (w', [] ++ out) /\ wf w' /\
    elapsed w' = Z.max (elapsed demo) 100 /\
    (forall k, timer w' k =
       match timer demo k with
       | Some (at_, wk) => if at_ <=? 100 then None else Some (at_, wk)
       | None => None
       end) /\
    out ≡ₚ due_wakers 100 demo.
Proof.
  split; [vm_compute; reflexivity |].
  apply (advance_fires_due demo 100 []); [exact demo_wf | vm_compute; discriminate].
Defined.

(** Arming a timer for a time the wheel has not reached gives a key that
    reached nothing before and reaches that deadline and waker now, and
    changes what no other key reaches; one for a time the wheel passed takes
    no entry and hands the waker back. *)
Theorem insert_arms w at_ wk :
  wf w -> phantom w + vlen (entries w) + 1 <= u64_max ->
  if at_ <=? elapsed w then insert w at_ wk = Some (Err wk, w)
  else exists k w',
    insert w at_ wk = Some (Ok k, w') /\ wf w' /\ armed w' = armed w + 1 /\
    elapsed w' = elapsed w /\
    timer w k = None /\ timer w' k = Some (at_, Some wk) /\
    (forall k', k' <> k -> timer w' k' = timer w k').
Proof.
  intros Hwf Hroom. destruct (Z.leb_spec at_ (elapsed w)) as [Hle | Hgt].
  - unfold insert. by destruct (Z.leb_spec at_ (elapsed w)); [| lia].
  - destruct (insert_armed w at_ wk Hwf Hgt Hroom)
      as (k & w' & Hi & Hwf' & (Hel & _) & Ha & Ht & Ht' & Hoth & _).
    exists k, w'. done.
Qed.

Lemma insert_arms_witness :
  exists k w',
    insert demo 64 9 = Some (Ok k, w') /\ wf w' /\ armed w' = armed demo + 1 /\
    elapsed w' = elapsed demo /\
    timer demo k = None /\ timer w' k = Some (64, Some 9) /\
    (forall k', k' <> k -> timer w' k' = timer demo k').
Proof. apply (insert_arms demo 64 9); [exact demo_wf | vm_compute; discriminate]. Defined.

(** Removing a timer hands its waker back and makes its key, and no other,
    stale; removing through a stale key does nothing at all. *)
Theorem remove_cancels w k :
  wf w ->
  match timer w k with
  | Some (_, wk) =>
      exists w', remove w k = Some (wk, w') /\ wf w' /\ armed w' = armed w - 1 /\
        elapsed w' = elapsed w /\
        timer w' k = None /\ (forall k', k' <> k -> timer w' k' = timer w k')
  | None => remove w k = Some (None, w)
  end.
Proof.
  intros Hwf. destruct (timer w k) as [[at_ wk]|] eqn:Ht; [| by apply remove_stale].
  destruct (remove_live w k (at_, wk) Hwf Ht) as (w' & Hr & Hwf' & (Hel & _) & Ha & Ht' & Hoth & _).
  by exists w'.
Qed.

Lemma remove_cancels_witness :
  exists w', remove demo {| key_index := 1; key_generation := 0 |} = Some (Some 2, w') /\
    wf w' /\ armed w' = armed demo - 1 /\ elapsed w' = elapsed demo /\
    timer w' {| key_index := 1; key_generation := 0 |} = None /\
    (forall k', k' <> {| key_index := 1; key_generation := 0 |} -> timer w' k' = timer demo k').
Proof. exact (remove_cancels demo {| key_index := 1; key_generation := 0 |} demo_wf). Defined.

(** [next_deadline] is total, answers a time only while a timer is armed,
    and answers one past the wheel's time that no timer precedes: a shard
    that parks until then and advances wakes no timer late. *)
Theorem next_deadline_earliest w :
  wf w ->
  exists r, next_deadline w = Some r /\
    match r with
    | None => forall k, timer w k = None
    | Some d =>
        elapsed w < d <= elapsed w + SPAN /\
        (exists k, timer w k <> None) /\
        (forall k at_ wk, timer w k = Some (at_, wk) -> d <= at_)
    end.
Proof.
  intros (L & F & A & Hlay & _). unfold next_deadline.
  destruct (next_slot_ok _ _ _ _ _ Hlay) as (best & -> & Hbest). simpl. eexists. split; [done |].
  destruct best as [[[l s] d]|].
  - pose proof Hbest as (Hv & Hne & -> & _). pose proof Hv as [Hl _].
    destruct (lay_time _ _ _ _ _ Hlay) as [Ht0 _]. split; [| split].
    + split; [apply slot_time_gt; lia | by apply slot_time_le_span].
    + destruct (lay_slots _ _ _ _ _ Hlay l s Hv) as (_ & _ & Hp).
      destruct (L l s) as [|i r]; [done |]. destruct (Hp i) as (e & He & Hpe & _); [set_solver |].
      exists {| key_index := i; key_generation := generation e |}.
      unfold timer, entry. simpl. rewrite He. simpl. by rewrite Z.eqb_refl, Hpe.
    + intros k at_ wk Ht. destruct (best_below_due _ _ _ _ _ _ _ _ Hlay Hbest Ht)
        as (? & ? & ? & [= <- <- <-] & ?). done.
  - intros k. destruct (timer w k) as [[at_ wk]|] eqn:Ht; [| done].
    destruct (best_below_due _ _ _ _ _ _ _ _ Hlay Hbest Ht) as (? & ? & ? & ? & _). done.
Qed.

Lemma next_deadline_earliest_witness :
  exists r, next_deadline demo = Some r /\
    match r with
    | None => forall k, timer demo k = None
    | Some d =>
        elapsed demo < d <= elapsed demo + SPAN /\
        (exists k, timer demo k <> None) /\
        (forall k at_ wk, timer demo k = Some (at_, wk) -> d <= at_)
    end.
Proof. exact (next_deadline_earliest demo demo_wf). Defined.

(** C35. The fast [level_for], a scan for the highest bit in which the two times
    differ, is the definition by windows, for all pairs of times. *)
Theorem level_for_is_by_windows elapsed_ when_ :
  0 <= elapsed_ -> 0 <= when_ -> level_for elapsed_ when_ = level_by_windows elapsed_ when_.
Proof. apply level_for_windows. Qed.

Lemma level_for_is_by_windows_witness : level_for 63 64 = level_by_windows 63 64.
Proof. apply (level_for_is_by_windows 63 64); lia. Defined.

(** The slot a timer is linked into comes after the wheel's time and no
    later than the timer's deadline, its time does not change while the wheel
    has not reached it, and on level 0 it is the deadline itself. *)
Theorem placed_in_time now due :
  0 <= now -> now < due ->
  let placed := Z.min due (now + SPAN - 1) in
  let level := level_for now placed in
  let slot := slot_for placed level in
  0 <= level < LEVELS /\ 0 <= slot < SLOTS /\
  now < slot_time now level slot <= due /\
  (forall now', now <= now' < slot_time now level slot ->
     slot_time now' level slot = slot_time now level slot) /\
  (level = 0 -> slot_time now level slot = due).
Proof.
  intros Hn Hd placed level slot.
  pose proof (link_well_placed now due Hn Hd) as Hwp. cbv zeta in Hwp.
  fold placed level slot in Hwp. destruct Hwp as (Hl & Hs & Hle & Hw).
  pose proof (slot_time_gt now level slot (proj1 Hl)) as Hgt.
  split_and!; try lia.
  - intros now' Hn'. apply slot_time_stable; lia.
  - intros H0.
    assert (Hpl : placed <= due /\ now < placed) by (unfold placed; rewrite SPAN_eq; lia).
    assert (Hsame : now / 64 = placed / 64).
    { pose proof (level_for_window now placed Hn ltac:(lia)) as Hww. fold level in Hww.
      rewrite H0 in Hww. apply Hww. unfold LEVELS. lia. }
    assert (Hspan : placed = due).
    { unfold placed in *. rewrite SPAN_eq in *. Z.to_euclidean_division_equations. lia. }
    assert (Hu : slot_time now 0 slot = placed * 64 ^ 0).
    { apply slot_time_unique; [lia | |].
      - rewrite Z.pow_0_r, Z.div_1_r. Z.to_euclidean_division_equations. lia.
      - unfold slot. rewrite H0, slot_for_eq, Z.pow_0_r, Z.div_1_r, Z.mod_mod by lia. done. }
    rewrite H0, Hu, Z.pow_0_r. lia.
Qed.

Lemma placed_in_time_witness :
  0 <= level_for 63 (Z.min 64 (63 + SPAN - 1)) < LEVELS.
Proof. apply (placed_in_time 63 64); lia. Defined.

(** A key whose timer was removed reaches nothing again, whatever is armed
    in its place, for the next [2^64 - 2] calls. *)
Theorem stale_key_stays_stale n w w1 w2 k d r :
  wf w -> timer w k = Some d -> 0 <= key_generation k < 2 ^ 64 ->
  remove w k = Some (r, w1) -> steps n w1 w2 -> Z.of_nat n < 2 ^ 64 - 1 ->
  timer w2 k = None.
Proof.
  intros Hwf Ht Hk Hr Hst Hn.
  destruct (remove_live w k d Hwf Ht) as (w1' & Hr' & Hwf1 & _ & _ & _ & _ & Hv).
  rewrite Hr in Hr'. injection Hr' as -> ->.
  assert (Hg : gen w1' (key_index k) = Some ((key_generation k + 1) mod 2 ^ 64)).
  { unfold gen. by rewrite Hv, upd_eq. }
  destruct (steps_gen n w1' w2 (key_index k) _ Hwf1 Hst Hg) as (m & Hm & Hg2);
    [apply Z.mod_pos_bound; lia |].
  destruct (timer w2 k) as [d2|] eqn:Ht2; [| done]. apply timer_gen in Ht2.
  rewrite Hg2 in Ht2. injection Ht2 as Ht2. exfalso. revert Ht2.
  rewrite Z.add_mod_idemp_l by lia. intros Ht2.
  assert (Hz : (1 + m) mod 2 ^ 64 = 0).
  { replace (1 + m) with (key_generation k + 1 + m - key_generation k) by lia.
    rewrite Zminus_mod, Ht2, (Z.mod_small (key_generation k)) by lia.
    by rewrite Z.sub_diag. }
  rewrite Z.mod_small in Hz by lia. lia.
Qed.

Lemma stale_key_stays_stale_witness :
  exists w1 w2 : Wheel,
    steps 1 w1 w2 /\ timer w2 {| key_index := 0; key_generation := 0 |} = None.
Proof.
  destruct (remove demo {| key_index := 0; key_generation := 0 |}) as [[r w1]|] eqn:E;
    [| vm_compute in E; discriminate].
  destruct (insert w1 7 9) as [[r2 w2]|] eqn:E2;
    [| vm_compute in E; injection E as _ <-; vm_compute in E2; discriminate].
  assert (Hs : steps 1 w1 w2).
  { eapply steps_S; [| constructor]. eapply step_insert; [| exact E2].
    vm_compute in E. injection E as _ <-. vm_compute. discriminate. }
  exists w1, w2. split; [exact Hs |].
  apply (stale_key_stays_stale 1 demo w1 w2 {| key_index := 0; key_generation := 0 |} (5, Some 1) r);
    [exact demo_wf | vm_compute; reflexivity | simpl; lia | exact E | exact Hs | lia].
Defined.

(** No key of a wheel reaches a timer of a wheel whose tag is further up
    than the calls made on the first: the wheels a shard keeps aside cannot
    be mistaken for its own. *)
Theorem tagged_keys_disjoint n n' t t' w w' k d :
  0 <= t -> t + Z.of_nat n < t' -> t' + Z.of_nat n' < 2 ^ 64 ->
  steps n (tagged t) w -> steps n' (tagged t') w' ->
  timer w k = Some d -> timer w' k = None.
Proof.
  intros Ht0 Htt Hb Hst Hst' Ht.
  destruct (timer w' k) as [d'|] eqn:Ht'; [exfalso | done].
  apply timer_gen in Ht. apply timer_gen in Ht'.
  assert (Hnone : forall u j h, gen (tagged u) j = Some h -> u <= h <= u + Z.of_nat 0).
  { intros u j h. unfold gen, view. rewrite vget_None; [done |]. unfold vlen. simpl. lia. }
  pose proof (steps_gen_range n (tagged t) w t 0 _ _ (wf_new t) Hst eq_refl Ht0 ltac:(lia) (Hnone t) Ht).
  pose proof (steps_gen_range n' (tagged t') w' t' 0 _ _ (wf_new t') Hst' eq_refl ltac:(lia) ltac:(lia) (Hnone t') Ht').
  lia.
Qed.

Lemma tagged_keys_disjoint_witness :
  timer (tagged (2 ^ 48)) {| key_index := 1; key_generation := 0 |} = None.
Proof.
  apply (tagged_keys_disjoint 3 0 0 (2 ^ 48) demo (tagged (2 ^ 48))
           {| key_index := 1; key_generation := 0 |} (100000, Some 2));
    [lia | lia | lia | exact demo_steps | constructor | vm_compute; reflexivity].
Defined.

(** On every wheel a run of calls reaches, no operation panics (no index
    out of range, no overflow, no failed assertion, no loop that does not
    end), and [armed] counts the armed timers exactly. *)
Theorem reachable_wheel_is_safe n t w :
  steps n (tagged t) w ->
  armed w = phantom w + vlen (armed_entries w) /\
  (forall at_ wk, phantom w + vlen (entries w) + 1 <= u64_max -> is_Some (insert w at_ wk)) /\
  (forall k, is_Some (remove w k)) /\
  (forall k wk, is_Some (replace_waker w k wk)) /\
  (forall k at_ wk, is_Some (reset w k at_ wk)) /\
  is_Some (next_deadline w) /\
  (forall now fired, now + SPAN <= u64_max -> is_Some (advance w now fired)).
Proof.
  intros Hst. assert (Hwf : wf w) by (eapply steps_wf; [apply (wf_new t) | done]).
  split; [by apply wf_armed |]. split_and!.
  - intros at_ wk Hroom. destruct (Z.le_gt_cases at_ (elapsed w)).
    + unfold insert. destruct (Z.leb_spec at_ (elapsed w)); [eauto | lia].
    + destruct (insert_armed w at_ wk Hwf ltac:(lia) Hroom) as (k & w' & -> & _). eauto.
  - intros k. destruct (timer w k) as [d|] eqn:Ht.
    + destruct (remove_live w k d Hwf Ht) as (w' & -> & _). eauto.
    + rewrite remove_stale by done. eauto.
  - intros k wk. destruct (timer w k) as [d|] eqn:Ht.
    + destruct (replace_waker_live w k d wk Hwf Ht) as (w' & -> & _). eauto.
    + rewrite replace_waker_stale by done. eauto.
  - intros k at_ wk. destruct (reset_ok w k at_ wk Hwf) as (w' & -> & _). eauto.
  - destruct Hwf as (L & F & A & Hlay & _). unfold next_deadline.
    destruct (next_slot_ok _ _ _ _ _ Hlay) as (best & -> & _). simpl. eauto.
  - intros now fired Hspan. destruct (advance_ok now w fired Hwf Hspan) as (w' & out & -> & _). eauto.
Qed.

Lemma reachable_wheel_is_safe_witness :
  armed demo = phantom demo + vlen (armed_entries demo).
Proof. exact (proj1 (reachable_wheel_is_safe 3 0 demo demo_steps)). Defined.
