(* ===== verification/Waiters.v ===== *)
(** * The waiter list of the single-shard primitives

    [sync/local/waiters.rs]: the FIFO of waiters behind the semaphore, the
    mutex and the channels of one shard. The slab of entries, its list and its
    free list are modelled as the code has them; [line] is what the list
    promises its users, and [slab_waiter_list] proves the promise. *)

From S2P Require Import Prelude Chains Coop.
Open Scope Z_scope.

(** ** The code *)

(** [Key]: a waiter in the list. *)
Record Key : Type := { key_index : Z; key_generation : Z }.

(** [State]: where an entry is. *)
Inductive State : Type :=
| Waiting
| Granted
| Closed
| Free.

#[global] Instance Key_eq_dec : EqDecision Key.
Proof. solve_decision. Defined.
#[global] Instance Key_countable : Countable Key.
Proof.
  apply (inj_countable' (fun k => (key_index k, key_generation k))
           (fun p => {| key_index := p.1; key_generation := p.2 |})).
  by intros [].
Defined.
#[global] Instance State_eq_dec : EqDecision State.
Proof. solve_decision. Defined.

Record Entry : Type := {
  waker : option Waker;
  need : Z;
  state : State;
  prev : Z;
  next : Z;
  generation : Z
}.

Record Slab : Type := {
  entries : list Entry;
  free : Z;
  head : Z;
  tail : Z
}.

Definition set_waker x e :=
  {| waker := x; need := need e; state := state e; prev := prev e; next := next e;
     generation := generation e |}.
Definition set_state x e :=
  {| waker := waker e; need := need e; state := x; prev := prev e; next := next e;
     generation := generation e |}.
Definition set_prev x e :=
  {| waker := waker e; need := need e; state := state e; prev := x; next := next e;
     generation := generation e |}.
Definition set_next x e :=
  {| waker := waker e; need := need e; state := state e; prev := prev e; next := x;
     generation := generation e |}.
Definition set_generation x e :=
  {| waker := waker e; need := need e; state := state e; prev := prev e; next := next e;
     generation := x |}.

Definition set_entries x s :=
  {| entries := x; free := free s; head := head s; tail := tail s |}.
Definition set_free x s :=
  {| entries := entries s; free := x; head := head s; tail := tail s |}.
Definition set_head x s :=
  {| entries := entries s; free := free s; head := x; tail := tail s |}.
Definition set_tail x s :=
  {| entries := entries s; free := free s; head := head s; tail := x |}.

(** [self.entries[index]] changed in place. *)
Definition on_entry (f : Entry -> Entry) (index : Z) (s : Slab) : option Slab :=
  e ← entries s !!z index;
  Some (set_entries (vset (entries s) index (f e)) s).

Definition slab_new : Slab := {| entries := []; free := NIL; head := NIL; tail := NIL |}.

(** The entry of [key], if it is still the one [key] was made for. *)
Definition live (s : Slab) (key : Key) : option Entry :=
  e ← entries s !!z key_index key;
  if (generation e =? key_generation key) && negb (bool_decide (state e = Free))
  then Some e else None.

Definition slab_push (need_ : Z) (w : Waker) (s : Slab) : option (Key * Slab) :=
  let tail_ := tail s in
  let entry :=
    {| waker := Some w; need := need_; state := Waiting; prev := tail_; next := NIL;
       generation := 0 |} in
  '(index, s) ←
    (if free s =? NIL then
       es ← vec_push (entries s) entry;
       Some (vlen es - 1, set_entries es s)
     else
       let index := free s in
       slot ← entries s !!z index;
       Some (index,
             set_entries (vset (entries s) index (set_generation (generation slot) entry))
               (set_free (next slot) s)));
  s ← (if tail_ =? NIL then Some (set_head index s) else on_entry (set_next index) tail_ s);
  let s := set_tail index s in
  e ← entries s !!z index;
  Some ({| key_index := index; key_generation := generation e |}, s).

(** Takes the entry at [index] out of the list. *)
Definition unlink (index : Z) (s : Slab) : option Slab :=
  e ← entries s !!z index;
  let p := prev e in
  let n := next e in
  s ← (if p =? NIL then Some (set_head n s) else on_entry (set_next n) p s);
  if n =? NIL then Some (set_tail p s) else on_entry (set_prev p) n s.

(** Frees the entry at [index], which is not linked; its key goes stale. *)
Definition free_entry (index : Z) (s : Slab) : option Slab :=
  slot ← entries s !!z index;
  let slot :=
    set_next (free s)
      (set_generation (wrapping_add 32 (generation slot) 1)
         (set_waker None (set_state Free slot))) in
  Some (set_free index (set_entries (vset (entries s) index slot) s)).

(** Unlinks the front entry, marks it [st] and takes its waker. *)
Definition pop_front (st : State) (s : Slab) : option (option (Z * option Waker) * Slab) :=
  let index := head s in
  if index =? NIL then Some (None, s)
  else
    s ← unlink index s;
    entry ← entries s !!z index;
    Some (Some (need entry, waker entry),
          set_entries (vset (entries s) index (set_waker None (set_state st entry))) s).

(** The steps of [Waiters]. *)
Definition slab_is_empty (s : Slab) : bool := head s =? NIL.

Definition slab_front_fits (available : Z) (s : Slab) : option bool :=
  if negb (head s =? NIL) then e ← entries s !!z head s; Some (need e <=? available)
  else Some false.

Definition slab_grant_front_if (available : Z) (s : Slab) :
    option (option (Z * option Waker) * Slab) :=
  fits ← slab_front_fits available s;
  if fits : bool then pop_front Granted s else Some (None, s).

Definition slab_close_front (s : Slab) : option (option (option Waker) * Slab) :=
  '(popped, s) ← pop_front Closed s;
  Some (option_map snd popped, s).

(** The first step of [refresh]: the state of [key], and whether the entry
    wants no other waker. *)
Definition slab_refresh (key : Key) (w : Waker) (s : Slab) : State * bool :=
  match live s key with
  | None => (Free, true)
  | Some e =>
      (state e,
       negb (bool_decide (state e = Waiting)) ||
       match waker e with Some old => will_wake old w | None => false end)
  end.

(** The step of [refresh_clone] after the clone. *)
Definition slab_refresh_clone (key : Key) (fresh : Waker) (s : Slab) : State * Slab :=
  match live s key with
  | Some e =>
      if bool_decide (state e = Waiting)
      then (Waiting,
            set_entries (vset (entries s) (key_index key) (set_waker (Some fresh) e)) s)
      else (state e, s)
  | None => (Free, s)
  end.

(** Frees a granted or closed entry once its owner took the result. *)
Definition slab_take (key : Key) (s : Slab) : option Slab :=
  match live s key with
  | Some e =>
      if bool_decide (state e = Waiting) then Some s else free_entry (key_index key) s
  | None => Some s
  end.

(** Removes the entry of [key] whatever its state. *)
Definition slab_cancel (key : Key) (s : Slab) :
    option ((State * bool * option Waker) * Slab) :=
  match live s key with
  | None => Some ((Free, false, None), s)
  | Some entry =>
      let st := state entry in
      let s := set_entries (vset (entries s) (key_index key) (set_waker None entry)) s in
      let was_front := bool_decide (st = Waiting) && (head s =? key_index key) in
      s ← (if bool_decide (st = Waiting) then unlink (key_index key) s else Some s);
      s ← free_entry (key_index key) s;
      Some ((st, was_front, waker entry), s)
  end.

(** ** What the list promises *)

(** The waiters in line, in the order they came, and the results their owners
    have not taken, with the need each was queued with. *)
Record line : Type := Line {
  queue : list (Key * Z * Waker);
  results : gmap Key (State * Z)
}.

Definition line_new : line := Line [] ∅.

Definition in_line (k : Key) (l : line) : Prop := k ∈ (queue l).*1.*1.

#[global] Instance in_line_dec k l : Decision (in_line k l).
Proof. unfold in_line. apply _. Defined.

(** A key that no waiter holds. *)
Definition unused (k : Key) (l : line) : Prop := ~ in_line k l /\ results l !! k = None.

Definition line_push (k : Key) (n : Z) (w : Waker) (l : line) : line :=
  Line (queue l ++ [(k, n, w)]) (results l).

(** The front waiter's need and waker; it leaves the line with result [st]. *)
Definition line_pop (st : State) (l : line) : option (Z * Waker) * line :=
  match queue l with
  | [] => (None, l)
  | (k, n, w) :: q => (Some (n, w), Line q (<[k := (st, n)]> (results l)))
  end.

Definition line_fits (available : Z) (l : line) : bool :=
  match queue l with
  | [] => false
  | (_, n, _) :: _ => n <=? available
  end.

Definition line_grant (available : Z) (l : line) : option (Z * Waker) * line :=
  if line_fits available l then line_pop Granted l else (None, l).

Definition line_state (k : Key) (l : line) : State :=
  if decide (in_line k l) then Waiting
  else match results l !! k with Some (st, _) => st | None => Free end.

(** The waiter [k] wakes [w] from now on. *)
Definition line_rewake (k : Key) (w : Waker) (l : line) : line :=
  Line ((fun x => if decide (x.1.1 = k) then (x.1, w) else x) <$> queue l) (results l).

Definition line_take (k : Key) (l : line) : line := Line (queue l) (delete k (results l)).

Definition line_cancel (k : Key) (l : line) : line :=
  Line (filter (fun x => x.1.1 <> k) (queue l)) (delete k (results l)).

Definition is_front (k : Key) (l : line) : bool :=
  match queue l with
  | [] => false
  | (k', _, _) :: _ => bool_decide (k' = k)
  end.

(** The places the list holds: a key and the need it was queued with, for a
    waiter in line and for one whose result is not taken. *)
Definition tickets (l : line) : list (Key * Z) :=
  (queue l).*1 ++ (prod_map id snd <$> map_to_list (results l)).

(** The keys of a line are distinct. *)
Record line_ok (l : line) : Prop := {
  lo_queue : NoDup ((queue l).*1.*1);
  lo_apart : forall k, in_line k l -> results l !! k = None;
  lo_states : forall k st n, results l !! k = Some (st, n) -> st = Granted \/ st = Closed
}.

(** The operations of [Waiters], one step on the list each. *)
Class WaiterList (W : Type) : Type := {
  new : W;
  is_empty : W -> bool;
  push : Z -> Waker -> W -> option (Key * W);
  front_fits : Z -> W -> option bool;
  grant_front_if : Z -> W -> option (option (Z * option Waker) * W);
  close_front : W -> option (option (option Waker) * W);
  refresh_look : Key -> Waker -> W -> State * bool;
  refresh_clone : Key -> Waker -> W -> State * W;
  take : Key -> W -> option W;
  cancel : Key -> W -> option ((State * bool * option Waker) * W);
  (** How many waiters the list can still take, and how many it can hold
      without growing: the first bounds a push, the second a loop that
      empties the line. *)
  room : W -> Z;
  slots : W -> Z
}.

(** What they do, on the line the list stands for. No step panics, but a push
    into a list that is full. *)
Class WaiterListLaws (W : Type) `{WaiterList W} : Type := {
  rep : W -> line -> Prop;
  rep_distinct w l : rep w l -> line_ok l;
  rep_slots w l : rep w l -> vlen (queue l) <= slots w;
  rep_room w l : rep w l -> isize_max - vlen (tickets l) <= room w;
  rep_new : rep new line_new;
  rep_is_empty w l : rep w l -> is_empty w = bool_decide (queue l = []);
  rep_push w l n wk :
    rep w l -> 0 < room w ->
    exists k w', push n wk w = Some (k, w') /\ unused k l /\ rep w' (line_push k n wk l);
  rep_front_fits w l a : rep w l -> front_fits a w = Some (line_fits a l);
  rep_grant_front_if w l a :
    rep w l ->
    exists w', grant_front_if a w =
        Some (option_map (prod_map id Some) (line_grant a l).1, w') /\
      rep w' (line_grant a l).2;
  rep_close_front w l :
    rep w l ->
    exists w', close_front w = Some (option_map (fun p => Some p.2) (line_pop Closed l).1, w') /\
      rep w' (line_pop Closed l).2;
  rep_refresh_look w l k wk :
    rep w l ->
    exists same, refresh_look k wk w = (line_state k l, same) /\
      (same = true -> rep w (line_rewake k wk l));
  rep_refresh_clone w l k wk :
    rep w l ->
    exists w', refresh_clone k wk w = (line_state k l, w') /\ rep w' (line_rewake k wk l);
  rep_take w l k :
    rep w l -> exists w', take k w = Some w' /\ rep w' (line_take k l);
  rep_cancel w l k :
    rep w l ->
    exists w' wk, cancel k w = Some ((line_state k l, is_front k l, wk), w') /\
      (forall n w, (k, n, w) ∈ queue l -> wk = Some w) /\ rep w' (line_cancel k l)
}.

(** The slab as a waiter list. A list is full when its entries, none of them
    free, are as many as a [Vec] holds. *)
#[global] Instance slab_ops : WaiterList Slab := {
  new := slab_new;
  is_empty := slab_is_empty;
  push := slab_push;
  front_fits := slab_front_fits;
  grant_front_if := slab_grant_front_if;
  close_front := slab_close_front;
  refresh_look := slab_refresh;
  refresh_clone := slab_refresh_clone;
  take := slab_take;
  cancel := slab_cancel;
  room s := isize_max - vlen (List.filter (fun e => negb (bool_decide (state e = Free))) (entries s));
  slots s := vlen (entries s)
}.

(** ** Ending every wait *)

Section wake_closed.
Context {W : Type} `{WaiterList W}.

(** One pass of [wake_closed]'s loop. *)
Definition close_one (st : W * Thread) : option (flow (W * Thread)) :=
  let '(ws, t) := st in
  '(front, ws) ← close_front ws;
  match front with
  | None => Some (Stop (ws, t))
  | Some None => Some (Go (ws, t))
  | Some (Some wk) => Some (Go (ws, wake wk t))
  end.

(** Ends every waiting entry without serving it, waking each. *)
Definition wake_closed (ws : W) (t : Thread) : option (W * Thread) :=
  while (slots ws + 1) close_one (ws, t).

(** [refresh]: the state of [key], after making [w] the one a waiting entry
    wakes. Cloning a waker is user code, [clone], which may do anything to the
    state [S] the list is part of: the state of [key] is read after it. *)
Definition refresh {S} (get : S -> W) (put : W -> S -> S) (clone : S -> option S)
    (key : Key) (w : Waker) (s : S) : option (State * S) :=
  let '(st, same) := refresh_look key w (get s) in
  if same : bool then Some (st, s)
  else
    s ← clone s;
    let '(st, ws) := refresh_clone key w (get s) in
    Some (st, put ws s).
End wake_closed.

(** ** Facts for the users of a waiter list *)

(** The waiters [q] have result [st] now. *)
Definition mark_all (st : State) (q : list (Key * Z * Waker)) (r : gmap Key (State * Z)) :
    gmap Key (State * Z) :=
  foldl (fun r x => <[x.1.1 := (st, x.1.2)]> r) r q.

Definition wake_all (ws : list Waker) (t : Thread) : Thread :=
  foldl (fun t w => wake w t) t ws.

Lemma in_queue k n w l : (k, n, w) ∈ queue l -> in_line k l.
Proof. intros H. by apply (list_elem_of_fmap_2 fst), (list_elem_of_fmap_2 fst) in H. Qed.

Lemma cancel_unqueued k l : ~ in_line k l -> line_cancel k l = line_take k l.
Proof.
  intros Hk. unfold line_cancel, line_take. f_equal. apply filter_all, Forall_forall.
  intros [[k' n] w] Hx Hk'. simpl in Hk'. subst. by apply in_queue in Hx.
Qed.

Lemma in_tickets k l : k ∈ (tickets l).*1 <-> in_line k l \/ is_Some (results l !! k).
Proof.
  unfold tickets, in_line. rewrite fmap_app, elem_of_app. apply or_iff_compat_l.
  rewrite <- list_fmap_compose, list_elem_of_fmap. split.
  - intros ([k' x] & -> & Hx). apply elem_of_map_to_list in Hx. simpl. eauto.
  - intros [x Hx]. exists (k, x). split; [done |]. by apply elem_of_map_to_list.
Qed.

(** *** Places through the steps *)

Lemma in_ticket k n l :
  (k, n) ∈ tickets l <->
  (exists w, (k, n, w) ∈ queue l) \/ (exists st, results l !! k = Some (st, n)).
Proof.
  unfold tickets. rewrite elem_of_app, !list_elem_of_fmap. split.
  - intros [([[k' n'] w] & [= -> ->] & Hx) | ([k' [st n']] & [= -> ->] & Hx)].
    + left. eauto.
    + right. apply elem_of_map_to_list in Hx. eauto.
  - intros [(w & Hx) | (st & Hx)].
    + left. by exists (k, n, w).
    + right. exists (k, (st, n)). split; [done |]. by apply elem_of_map_to_list.
Qed.

Lemma tickets_NoDup l : line_ok l -> NoDup ((tickets l).*1).
Proof.
  intros [Hq Ha _]. unfold tickets. rewrite fmap_app. apply NoDup_app. split; [done |].
  assert ((prod_map id snd <$> map_to_list (results l)).*1 = (map_to_list (results l)).*1) as ->.
  { by rewrite <- list_fmap_compose. }
  split; [| apply NoDup_fst_map_to_list].
  intros k Hk Hr. specialize (Ha k Hk).
  apply list_elem_of_fmap in Hr as ([k' x] & -> & Hx). apply elem_of_map_to_list in Hx.
  simpl in *. congruence.
Qed.

Lemma ticket_unique l k n n' :
  line_ok l -> (k, n) ∈ tickets l -> (k, n') ∈ tickets l -> n = n'.
Proof.
  intros Hl%tickets_NoDup (i & Hi)%list_elem_of_lookup (j & Hj)%list_elem_of_lookup.
  assert (i = j) as ->; [| congruence].
  eapply (NoDup_lookup _ _ _ k Hl); rewrite list_lookup_fmap; [by rewrite Hi | by rewrite Hj].
Qed.

Lemma tickets_result q r k st n :
  r !! k = None -> tickets (Line q (<[k := (st, n)]> r)) ≡ₚ (k, n) :: tickets (Line q r).
Proof.
  intros Hk. unfold tickets. simpl. rewrite map_to_list_insert by done.
  rewrite fmap_cons. simpl. by rewrite <- Permutation_middle.
Qed.

Lemma tickets_push k n w l : tickets (line_push k n w l) ≡ₚ (k, n) :: tickets l.
Proof.
  unfold tickets, line_push. simpl. rewrite fmap_app. simpl.
  rewrite <- app_assoc. simpl. by rewrite <- Permutation_middle.
Qed.

Lemma rewake_keys k w l : (queue (line_rewake k w l)).*1 = (queue l).*1.
Proof.
  unfold line_rewake. simpl. rewrite <- list_fmap_compose.
  apply list_fmap_ext. intros i x _. simpl. by case_decide.
Qed.

Lemma tickets_rewake k w l : tickets (line_rewake k w l) = tickets l.
Proof. unfold tickets. by rewrite rewake_keys. Qed.

Lemma line_state_rewake k k' w l : line_state k (line_rewake k' w l) = line_state k l.
Proof.
  unfold line_state. apply decide_ext. unfold in_line. by rewrite rewake_keys.
Qed.

Lemma tickets_take k st n l :
  results l !! k = Some (st, n) -> tickets l ≡ₚ (k, n) :: tickets (line_take k l).
Proof.
  intros Hk. destruct l as [q r]. unfold line_take. simpl in *.
  rewrite <- (insert_delete_id r k (st, n)) at 1 by done.
  apply tickets_result, lookup_delete_eq.
Qed.

Lemma queue_cancel k n w q :
  NoDup (q.*1.*1) -> (k, n, w) ∈ q ->
  q ≡ₚ (k, n, w) :: filter (fun x : Key * Z * Waker => x.1.1 <> k) q.
Proof.
  intros Hnd Hx. induction q as [|[[k' n'] w'] q IH]; [set_solver |].
  rewrite !fmap_cons in Hnd. apply NoDup_cons in Hnd as [Hk Hnd]. simpl in Hk.
  apply elem_of_cons in Hx as [[= -> -> ->] | Hx].
  - rewrite filter_cons_False by (simpl; tauto). rewrite filter_all; [done |].
    apply Forall_forall. intros x Hxq E. apply Hk. rewrite <- E.
    by apply list_elem_of_fmap_2, list_elem_of_fmap_2.
  - rewrite filter_cons_True.
    2: { simpl. intros ->. apply Hk.
         by apply (list_elem_of_fmap_2 fst), (list_elem_of_fmap_2 fst) in Hx. }
    rewrite Permutation_swap. by rewrite <- IH.
Qed.

Lemma tickets_cancel k n w l :
  line_ok l -> (k, n, w) ∈ queue l -> tickets l ≡ₚ (k, n) :: tickets (line_cancel k l).
Proof.
  intros Hl Hx. unfold tickets, line_cancel. simpl.
  rewrite delete_id. 2: { apply Hl. by eapply in_queue. }
  rewrite (queue_cancel k n w (queue l)) at 1 by (done || apply Hl). done.
Qed.

Section facts.
Context {W : Type} `{WaiterListLaws W}.

(** Ending every wait empties the line, marks each result and wakes each
    waiter once, in the order they came. *)
Lemma wake_closed_ok ws l t :
  rep ws l ->
  exists ws', wake_closed ws t = Some (ws', wake_all (queue l).*2 t) /\
    rep ws' (Line [] (mark_all Closed (queue l) (results l))).
Proof.
  intros Hr. unfold wake_closed.
  pose (I := fun m (x : W * Thread) => exists l', rep x.1 l' /\ m = vlen (queue l') /\
    wake_all (queue l').*2 x.2 = wake_all (queue l).*2 t /\
    mark_all Closed (queue l') (results l') = mark_all Closed (queue l) (results l)).
  pose (Q := fun x : W * Thread => x.2 = wake_all (queue l).*2 t /\
    rep x.1 (Line [] (mark_all Closed (queue l) (results l)))).
  destruct (while_spec close_one I Q) with (fuel := slots ws + 1) (m := vlen (queue l))
    (s := (ws, t)) as ([ws' t'] & Hw & Ht & Hr').
  - intros m [ws1 t1] (l' & Hr1 & -> & Hwk & Hc). split; [apply vlen_nonneg |].
    unfold close_one. cbn [fst snd] in *.
    destruct (rep_close_front _ _ Hr1) as (ws2 & -> & Hr2). cbn [mbind option_bind].
    destruct l' as [[|[[k n] w] q] r]; simpl in *.
    + right. eexists. split; [reflexivity |]. split; [done |]. simpl. by rewrite <- Hc.
    + left. eexists (vlen q), _. split; [reflexivity |]. rewrite vlen_cons. split; [| lia].
      exists (Line q (<[k:=(Closed, n)]> r)). done.
  - by exists l.
  - pose proof (rep_slots _ _ Hr). lia.
  - simpl in *. subst t'. by exists ws'.
Qed.
End facts.
