(* ===== verification/WaitersSlab.v ===== *)
(** * The slab keeps the waiter list's promise

    The invariant of the slab of [sync/local/waiters.rs] (its list and its
    free list are chains that share no entry, and an entry is on one of them
    exactly when its state says so) and the proof that every step of the slab
    does on the line of waiters what [WaiterListLaws] says. *)

From S2P Require Import Prelude Chains Waiters.
Open Scope Z_scope.

(** ** The links *)

(** What an entry holds besides its links. *)
Definition stub (e : Entry) : State * Z * option Waker * Z :=
  (state e, need e, waker e, generation e).

Definition stubs (s : Slab) (i : Z) : option (State * Z * option Waker * Z) :=
  stub <$> entries s !!z i.

(** [Q] is the list, [F] the free list. *)
Record links (s : Slab) (Q F : list Z) : Prop := {
  links_len : vlen (entries s) <= isize_max;
  links_queue : dseg prev next (entries s) NIL Q NIL;
  links_head : head s = List.hd NIL Q;
  links_tail : tail s = List.last Q NIL;
  links_free_list : fseg next (entries s) F NIL;
  links_free : free s = List.hd NIL F;
  links_NoDup : NoDup (Q ++ F)
}.

Lemma isize_max_NIL : isize_max < NIL.
Proof. done. Qed.

Lemma stubs_Some s i e : entries s !!z i = Some e -> stubs s i = Some (stub e).
Proof. unfold stubs. by intros ->. Qed.

Lemma links_index s Q F i : links s Q F -> i ∈ Q ++ F -> exists e, entries s !!z i = Some e.
Proof.
  intros H [Hi | Hi]%elem_of_app.
  - eapply (dseg_in prev next); [apply H | done].
  - eapply (fseg_in next); [apply H | done].
Qed.

Lemma links_not_NIL s Q F i : links s Q F -> i ∈ Q ++ F -> i <> NIL.
Proof.
  intros H Hi ->. destruct (links_index _ _ _ _ H Hi) as (e & He%vget_bound).
  pose proof (links_len _ _ _ H). pose proof isize_max_NIL. lia.
Qed.

Lemma last_elem (Q : list Z) : Q <> [] -> List.last Q NIL ∈ Q.
Proof. destruct Q as [|x Q _] using rev_ind; [done |]. rewrite last_last. set_solver. Qed.

Lemma hd_elem (Q : list Z) : Q <> [] -> List.hd NIL Q ∈ Q.
Proof. destruct Q; [done | set_solver]. Qed.

(** An edit of the links of an entry keeps every stub. *)
Lemma stubs_edit f l j i :
  (forall e, stub (f e) = stub e) -> stub <$> edit f l j !!z i = stub <$> l !!z i.
Proof.
  intros Hf. unfold edit. destruct (j =? NIL); [done |].
  destruct (l !!z j) as [e|] eqn:He; [| done].
  destruct (Z.eq_dec i j) as [-> | Hne].
  - rewrite (vget_vset_eq _ _ _ e) by done. rewrite He. simpl. by rewrite Hf.
  - by rewrite vget_vset_ne.
Qed.

(** The source's [if p == NIL { self.end = x } else { self.entries[p].. = x }]. *)
Lemma on_entry_or_end f p s s0 :
  (p <> NIL -> exists e, entries s !!z p = Some e) -> entries s0 = entries s ->
  (if p =? NIL then Some s0 else on_entry f p s) =
  Some (set_entries (edit f (entries s) p) (if p =? NIL then s0 else s)).
Proof.
  intros Hp Hs. unfold edit. destruct (Z.eqb_spec p NIL) as [-> | Hne].
  - destruct s0; simpl in *. by subst.
  - destruct (Hp Hne) as (e & He). unfold on_entry. by rewrite He.
Qed.

Lemma fseg_edit f l F j :
  (j <> NIL -> j ∉ F) -> fseg next l F NIL -> fseg next (edit f l j) F NIL.
Proof.
  intros Hj. destruct (Z.eq_dec j NIL) as [-> | Hne]; [done |].
  apply fseg_frame. intros i e Hi He. exists e.
  rewrite edit_ne; [done |]. intros ->. by apply Hj.
Qed.

Lemma last_out (a F : list Z) :
  (forall x, x ∈ a -> x ∉ F) -> List.last a NIL <> NIL -> List.last a NIL ∉ F.
Proof. intros Ha Hne. apply Ha, last_elem. by intros ->. Qed.

Lemma hd_out (a F : list Z) :
  (forall x, x ∈ a -> x ∉ F) -> List.hd NIL a <> NIL -> List.hd NIL a ∉ F.
Proof. intros Ha Hne. apply Ha, hd_elem. by intros ->. Qed.

Lemma links_cut s a i b F :
  links s (a ++ i :: b) F ->
  dseg prev next (cut set_prev set_next (entries s) (List.last a NIL) (List.hd NIL b))
    NIL (a ++ b) NIL /\
  fseg next (cut set_prev set_next (entries s) (List.last a NIL) (List.hd NIL b)) F NIL.
Proof.
  intros H. pose proof (links_NoDup _ _ _ H) as (Hq & Hdis & _)%NoDup_app. split.
  - apply (cut_dseg prev next set_prev set_next) with (i := i); try done; [apply H |].
    pose proof (links_len _ _ _ H). pose proof isize_max_NIL. lia.
  - apply fseg_edit; [apply hd_out; set_solver |].
    apply fseg_edit; [apply last_out; set_solver | apply H].
Qed.

Lemma last_cons_default (x : Z) a d d' : List.last (x :: a) d = List.last (x :: a) d'.
Proof. revert x. induction a as [|y a IH]; intros x; [done | apply IH]. Qed.

Lemma last_app (a b : list Z) d : List.last (a ++ b) d = List.last b (List.last a d).
Proof.
  induction b as [|x b _] using rev_ind; [by rewrite app_nil_r |].
  by rewrite app_assoc, !last_last.
Qed.

Lemma ends_cut s a i b F :
  links s (a ++ i :: b) F ->
  (if List.last a NIL =? NIL then List.hd NIL b else head s) = List.hd NIL (a ++ b) /\
  (if List.hd NIL b =? NIL then List.last a NIL else tail s) = List.last (a ++ b) NIL.
Proof.
  intros H. rewrite (links_head _ _ _ H), (links_tail _ _ _ H).
  assert (Hne : forall x, x ∈ a ++ i :: b -> x <> NIL).
  { intros x Hx. apply (links_not_NIL s (a ++ i :: b) F); set_solver. }
  split.
  - destruct a as [|x a]; [done |].
    destruct (Z.eqb_spec (List.last (x :: a) NIL) NIL) as [E | _]; [| done].
    exfalso. eapply Hne; [| exact E]. apply elem_of_app; left. by apply last_elem.
  - destruct b as [|y b]; [by rewrite app_nil_r |].
    destruct (Z.eqb_spec (List.hd NIL (y :: b)) NIL) as [E | _].
    { exfalso. eapply Hne; [| exact E]. set_solver. }
    rewrite !last_app. apply (last_cons_default y b).
Qed.

(** Taking an entry out of the middle of the list. *)
Lemma unlink_links s a i b F :
  links s (a ++ i :: b) F ->
  exists s', unlink i s = Some s' /\ links s' (a ++ b) F /\
    (forall j, stubs s' j = stubs s j).
Proof.
  intros H. destruct (links_cut _ _ _ _ _ H) as [Hd Hf].
  pose proof (links_NoDup _ _ _ H) as Hnd.
  pose proof (links_queue _ _ _ H) as Hq.
  apply dseg_middle in Hq as (e & He & Hp & Hn & _ & _).
  unfold unlink. rewrite He. cbn [mbind option_bind]. rewrite Hp, Hn.
  rewrite on_entry_or_end; [| | done].
  2: { intros Hne. apply (links_index _ _ _ _ H).
       apply elem_of_app; left; apply elem_of_app; left. apply last_elem. by intros ->. }
  cbn [mbind option_bind]. rewrite on_entry_or_end; [| | done].
  2: { intros Hne. destruct (links_index s (a ++ i :: b) F (List.hd NIL b) H) as (f & Hfe).
       { apply elem_of_app; left; apply elem_of_app; right; apply elem_of_cons; right.
         apply hd_elem. by intros ->. }
       destruct (vget_is_Some (edit (set_next (List.hd NIL b)) (entries s) (List.last a NIL))
         (List.hd NIL b)) as (g & Hg); [rewrite vlen_edit; by eapply vget_bound |].
       exists g. done. }
  eexists. split; [reflexivity |]. split.
  - pose proof (ends_cut s a i b F H) as [Hhd Htl].
    constructor; cbn [entries set_entries set_head set_tail free].
    + rewrite !vlen_edit. apply H.
    + exact Hd.
    + rewrite <- Hhd. by repeat case_match.
    + rewrite <- Htl. by repeat case_match.
    + exact Hf.
    + rewrite <- (links_free _ _ _ H). by repeat case_match.
    + eapply sublist_NoDup; [exact Hnd |]. apply sublist_app; [| done].
      apply sublist_app; [done |]. by apply sublist_cons.
  - intros j. unfold stubs at 1. cbn [entries set_entries].
    by rewrite !stubs_edit.
Qed.

(** Changing what an entry holds, its links kept. *)
Lemma set_stub_links s Q F i e e' :
  links s Q F -> entries s !!z i = Some e -> prev e' = prev e -> next e' = next e ->
  links (set_entries (vset (entries s) i e') s) Q F.
Proof.
  intros H He Hp Hn. constructor; cbn [entries set_entries head tail free]; try apply H.
  - rewrite vlen_vset. apply H.
  - eapply dseg_vset_same; [done .. | apply H].
  - eapply fseg_vset_same; [done .. | apply H].
Qed.

Lemma stubs_set s i e e' j :
  entries s !!z i = Some e ->
  stubs (set_entries (vset (entries s) i e') s) j =
  if j =? i then Some (stub e') else stubs s j.
Proof.
  intros He. unfold stubs. cbn [entries set_entries].
  rewrite vget_vset by (by eapply vget_bound). by destruct (j =? i).
Qed.

Lemma free_entry_links s Q F i e :
  links s Q F -> entries s !!z i = Some e -> i ∉ Q ++ F ->
  exists s', free_entry i s = Some s' /\ links s' Q (i :: F) /\
    (forall j, stubs s' j =
       if j =? i then Some (Free, need e, None, wrapping_add 32 (generation e) 1)
       else stubs s j).
Proof.
  intros H He Hi. unfold free_entry. rewrite He. cbn [mbind option_bind].
  eexists. split; [reflexivity |]. split.
  - constructor; cbn [entries set_entries set_free head tail free List.hd]; try apply H.
    + rewrite vlen_vset. apply H.
    + apply dseg_vset; [set_solver | apply H].
    + exists (set_next (free s) (set_generation (wrapping_add 32 (generation e) 1)
        (set_waker None (set_state Free e)))).
      rewrite (vget_vset_eq _ _ _ e) by done. split; [done |].
      split; [apply (links_free _ _ _ H) |]. apply fseg_vset; [set_solver | apply H].
    + done.
    + rewrite <- Permutation_middle. apply NoDup_cons. split; [done | apply H].
  - intros j. exact (stubs_set s i e (set_next (free s)
      (set_generation (wrapping_add 32 (generation e) 1) (set_waker None (set_state Free e))))
      j He).
Qed.

(** Every entry is on the list its state says, and a waiting one has a waker. *)
Definition states (s : Slab) (Q F : list Z) : Prop :=
  forall i st n w g, stubs s i = Some (st, n, w, g) ->
  (st = Waiting <-> i ∈ Q) /\ (st = Free <-> i ∈ F) /\ (st = Waiting -> is_Some w).

Lemma states_full s Q :
  states s Q [] ->
  List.filter (fun e => negb (bool_decide (state e = Free))) (entries s) = entries s.
Proof.
  intros H. apply List.forallb_filter_id, List.forallb_forall.
  intros e (j & Hj)%list_elem_of_In%list_elem_of_lookup.
  case_bool_decide as Hfree; [| done]. exfalso.
  destruct (H (Z.of_nat j) (state e) (need e) (waker e) (generation e)) as (_ & [Hf _] & _).
  - unfold stubs. apply fmap_Some. exists e. split; [| done].
    apply vget_Some. apply lookup_lt_Some in Hj as Hlt. unfold vlen. split; [lia |].
    by rewrite Nat2Z.id.
  - specialize (Hf Hfree). set_solver.
Qed.

(** What a push has after it filled its entry [i], before it links it. *)
Record filled (s : Slab) (Q : list Z) (n : Z) (w : Waker) (s1 : Slab) (i g : Z)
    (F' : list Z) : Prop := {
  filled_entry : exists e, entries s1 !!z i = Some e /\ prev e = tail s /\ next e = NIL /\
    stub e = (Waiting, n, Some w, g);
  filled_rest : forall j, j <> i -> entries s1 !!z j = entries s !!z j;
  filled_len : vlen (entries s1) <= isize_max;
  filled_free_list : fseg next (entries s1) F' NIL;
  filled_free : free s1 = List.hd NIL F';
  filled_NoDup : NoDup (i :: Q ++ F');
  filled_head : head s1 = head s
}.

(** [g] is the generation of the entry [i] a push fills: a new entry's, or
    the one the free entry kept. *)
Definition vacant (s : Slab) (F : list Z) (i g : Z) (F' : list Z) : Prop :=
  (F = [] /\ F' = [] /\ i = vlen (entries s) /\ g = 0) \/
  (F = i :: F' /\ exists e, entries s !!z i = Some e /\ generation e = g).

Lemma push_alloc s Q F n w :
  links s Q F -> states s Q F -> 0 < room s ->
  exists i s1 g F',
    (if free s =? NIL then
       es ← vec_push (entries s) {| waker := Some w; need := n; state := Waiting;
         prev := tail s; next := NIL; generation := 0 |};
       Some (vlen es - 1, set_entries es s)
     else
       slot ← entries s !!z free s;
       Some (free s,
         set_entries (vset (entries s) (free s) (set_generation (generation slot)
           {| waker := Some w; need := n; state := Waiting;
              prev := tail s; next := NIL; generation := 0 |}))
           (set_free (next slot) s))) = Some (i, s1) /\
    filled s Q n w s1 i g F' /\ vacant s F i g F'.
Proof.
  intros H Hst Hroom. pose proof (links_free _ _ _ H) as Hfree.
  pose proof (links_NoDup _ _ _ H) as Hnd.
  destruct F as [|i F].
  - cbn [List.hd] in Hfree. rewrite Hfree, Z.eqb_refl.
    simpl in Hroom. rewrite (states_full _ _ Hst) in Hroom.
    unfold vec_push. destruct (Z.ltb_spec (vlen (entries s)) isize_max); [| lia].
    cbn [mbind option_bind]. rewrite vlen_app. exists (vlen (entries s)). eexists _, 0, [].
    split; [by f_equal; f_equal; unfold vlen; simpl; lia |]. split; [| by left].
    assert (Hout : vlen (entries s) ∉ Q ++ []).
    { intros Hi. destruct (links_index _ _ _ _ H Hi) as (e & He%vget_bound). lia. }
    constructor; cbn [entries set_entries free head]; try done.
    + eexists. by rewrite vget_snoc.
    + intros j Hj. destruct (Z.lt_ge_cases j (vlen (entries s))); [by apply vget_app_l |].
      rewrite !vget_None; [done | lia |]. rewrite vlen_app. unfold vlen at 2. simpl. lia.
    + rewrite vlen_app. unfold vlen at 2. simpl. lia.
    + by apply NoDup_cons.
  - cbn [List.hd] in Hfree. rewrite Hfree.
    destruct (Z.eqb_spec i NIL) as [-> | Hne].
    { exfalso. apply (links_not_NIL s Q (NIL :: F) NIL); [done | set_solver | done]. }
    pose proof (links_free_list _ _ _ H) as (e & He & Hnx & Hfs). rewrite He.
    cbn [mbind option_bind]. eexists i, _, (generation e), F.
    split; [reflexivity |]. split; [| right; eauto].
    rewrite <- Permutation_middle in Hnd. pose proof Hnd as [Hi Hnd']%NoDup_cons.
    constructor; cbn [entries set_entries set_free free head]; try done.
    + eexists. by rewrite (vget_vset_eq _ _ _ e).
    + intros j Hj. by apply vget_vset_ne.
    + rewrite vlen_vset. apply H.
    + apply fseg_vset; [set_solver | done].
Qed.

(** The push itself: the entry goes to the back. *)
Lemma push_links s Q F n w :
  links s Q F -> states s Q F -> 0 < room s ->
  exists i s' g F',
    slab_push n w s = Some ({| key_index := i; key_generation := g |}, s') /\
    links s' (Q ++ [i]) F' /\ vacant s F i g F' /\
    (forall j, stubs s' j = if j =? i then Some (Waiting, n, Some w, g) else stubs s j).
Proof.
  intros H Hst Hroom.
  destruct (push_alloc s Q F n w H Hst Hroom) as (i & s1 & g & F' & Ha & Hf & Hv).
  exists i. unfold slab_push. rewrite Ha. cbn [mbind option_bind].
  destruct Hf as [(e & He & Hp & Hn & Hs) Hrest Hlen Hfl Hfree Hnd Hhd].
  pose proof (links_tail _ _ _ H) as Htl. pose proof Hnd as [Hi Hnd']%NoDup_cons.
  assert (Hin : tail s <> NIL -> tail s ∈ Q).
  { rewrite Htl. intros Hne. apply last_elem. by intros ->. }
  assert (Hti : i <> tail s).
  { intros Hti. apply Hi, elem_of_app; left. rewrite Hti. apply Hin. rewrite <- Hti.
    apply vget_bound in He. pose proof isize_max_NIL. lia. }
  rewrite on_entry_or_end; [| | done].
  2: { intros Hne. rewrite Hrest by done. apply (links_index s Q F); set_solver. }
  cbn [mbind option_bind]. cbn [entries set_tail set_entries].
  rewrite edit_ne, He by done. cbn [mbind option_bind].
  injection Hs as Hs1 Hs2 Hs3 Hs4. rewrite Hs4.
  eexists _, g, F'. split; [reflexivity |]. split; [| split; [done |]].
  - constructor; cbn [entries set_tail set_entries tail free].
    + by rewrite vlen_edit.
    + apply dseg_app. cbn [List.hd dseg]. rewrite <- Htl. split.
      * rewrite Htl. apply (edit_next_last prev next set_prev set_next) with (n := NIL); try done.
        -- eapply dseg_frame; [| apply H]. intros j f Hj Hf. exists f.
           rewrite Hrest; [done |]. set_solver.
        -- by apply NoDup_app in Hnd' as [? _].
        -- pose proof isize_max_NIL. lia.
      * exists e. by rewrite edit_ne.
    + destruct Q as [|x Q]; [cbn [List.last] in Htl; by rewrite Htl |].
      destruct (Z.eqb_spec (tail s) NIL) as [E | _].
      * exfalso. apply (links_not_NIL s (x :: Q) F (tail s)); [done | | done].
        rewrite Htl. apply elem_of_app; left. by apply last_elem.
      * cbn [head set_tail set_entries]. by rewrite Hhd, (links_head _ _ _ H).
    + by rewrite last_last.
    + apply fseg_edit; [| done]. intros Hne HF. apply Hin in Hne.
      apply NoDup_app in Hnd' as (_ & Hdis & _). by apply (Hdis (tail s)).
    + by destruct (tail s =? NIL).
    + rewrite <- app_assoc. cbn [app]. by rewrite <- Permutation_middle.
  - intros j. unfold stubs at 1. cbn [entries set_tail set_entries].
    rewrite stubs_edit by done. destruct (Z.eqb_spec j i) as [-> | Hne].
    + rewrite He. simpl. unfold stub. by rewrite Hs1, Hs2, Hs3, Hs4.
    + by rewrite Hrest.
Qed.

(** ** The line a slab stands for *)

Definition waits_at (s : Slab) (i : Z) (x : Key * Z * Waker) : Prop :=
  key_index x.1.1 = i /\ stubs s i = Some (Waiting, x.1.2, Some x.2, key_generation x.1.1).

Definition served_at (s : Slab) (k : Key) (st : State) (n : Z) : Prop :=
  (st = Granted \/ st = Closed) /\
  exists w, stubs s (key_index k) = Some (st, n, w, key_generation k).

Record stands_for (s : Slab) (l : line) (Q F : list Z) : Prop := {
  sf_links : links s Q F;
  sf_states : states s Q F;
  sf_queue : Forall2 (waits_at s) Q (queue l);
  sf_results : forall k st n, results l !! k = Some (st, n) <-> served_at s k st n
}.

Definition slab_rep (s : Slab) (l : line) : Prop := exists Q F, stands_for s l Q F.

Lemma waits_at_keys s Q q : Forall2 (waits_at s) Q q -> key_index <$> q.*1.*1 = Q.
Proof. induction 1 as [|i x Q q [Hk _] _ IH]; [done |]. by rewrite !fmap_cons, Hk, IH. Qed.

Lemma in_line_index s l Q F k :
  stands_for s l Q F -> in_line k l -> key_index k ∈ Q.
Proof.
  intros H Hk. rewrite <- (waits_at_keys _ _ _ (sf_queue _ _ _ _ H)).
  by apply list_elem_of_fmap_2.
Qed.

(** The queued waiter of an index of the list. *)
Lemma waits_at_in s Q q i :
  Forall2 (waits_at s) Q q -> i ∈ Q -> exists x, x ∈ q /\ waits_at s i x.
Proof.
  intros H Hi. apply list_elem_of_lookup in Hi as (j & Hj).
  destruct (Forall2_lookup_l _ _ _ _ _ H Hj) as (x & Hx & Hw).
  exists x. split; [by eapply list_elem_of_lookup_2 | done].
Qed.

Lemma in_line_waits s l Q F k :
  stands_for s l Q F -> in_line k l ->
  exists n w, (k, n, w) ∈ queue l /\
    stubs s (key_index k) = Some (Waiting, n, Some w, key_generation k).
Proof.
  intros H Hk. unfold in_line in Hk.
  apply list_elem_of_fmap_1 in Hk as ([k' n] & -> & ([[k'' n'] w] & E & Hx)%list_elem_of_fmap_1).
  simpl in *. injection E as -> ->. exists n', w. split; [done |].
  apply list_elem_of_lookup in Hx as (j & Hj).
  destruct (Forall2_lookup_r _ _ _ _ _ (sf_queue _ _ _ _ H) Hj) as (i & _ & Hi & Hs).
  simpl in *. by subst i.
Qed.

(** ** The steps *)

Lemma rep_keys s l Q F :
  stands_for s l Q F ->
  NoDup ((queue l).*1.*1) /\ (forall k, in_line k l -> results l !! k = None).
Proof.
  intros H. split.
  - apply (NoDup_fmap_1 key_index). rewrite (waits_at_keys _ _ _ (sf_queue _ _ _ _ H)).
    by pose proof (links_NoDup _ _ _ (sf_links _ _ _ _ H)) as [? _]%NoDup_app.
  - intros k Hk. destruct (results l !! k) as [[st n]|] eqn:Hr; [| done].
    apply (sf_results _ _ _ _ H) in Hr as [Hst (w & Hw)].
    destruct (in_line_waits _ _ _ _ _ H Hk) as (n' & w' & _ & Hs).
    rewrite Hw in Hs. destruct Hst; congruence.
Qed.

(** What a key finds. *)
Lemma live_line s l Q F k :
  stands_for s l Q F ->
  match live s k with
  | Some e =>
      entries s !!z key_index k = Some e /\ generation e = key_generation k /\
      state e <> Free /\ line_state k l = state e /\ (in_line k l <-> state e = Waiting)
  | None => line_state k l = Free /\ unused k l
  end.
Proof.
  intros H. unfold live.
  assert (Hno : (forall st n w, st <> Free ->
      stubs s (key_index k) <> Some (st, n, w, key_generation k)) ->
    line_state k l = Free /\ unused k l).
  { intros Hno. assert (Hu : unused k l).
    { split.
      - intros Hk. destruct (in_line_waits _ _ _ _ _ H Hk) as (n & w & _ & Hs). by apply Hno in Hs.
      - destruct (results l !! k) as [[st n]|] eqn:Hr; [| done].
        apply (sf_results _ _ _ _ H) in Hr as [Hst (w & Hw)]. apply Hno in Hw; [done |].
        by destruct Hst as [-> | ->]. }
    split; [| done]. unfold line_state. destruct Hu as [Hu ->]. by destruct (decide _). }
  destruct (entries s !!z key_index k) as [e|] eqn:He; cbn [mbind option_bind].
  2: { apply Hno. intros st n w _. unfold stubs. by rewrite He. }
  pose proof (stubs_Some _ _ _ He) as Hs.
  destruct (Z.eqb_spec (generation e) (key_generation k)) as [Hg | Hg]; simpl.
  2: { apply Hno. intros st n w _. rewrite Hs. unfold stub. congruence. }
  case_bool_decide as Hfree; simpl.
  { apply Hno. intros st n w Hst. rewrite Hs. unfold stub. congruence. }
  assert (Hin : in_line k l <-> state e = Waiting).
  { split.
    - intros Hk. destruct (in_line_waits _ _ _ _ _ H Hk) as (n & w & _ & Hw).
      rewrite Hs in Hw. unfold stub in Hw. congruence.
    - intros Hw. apply (proj1 (sf_states _ _ _ _ H _ _ _ _ _ Hs)) in Hw.
      destruct (waits_at_in _ _ _ _ (sf_queue _ _ _ _ H) Hw) as (x & Hx & Hi & Hsx).
      rewrite Hs in Hsx. injection Hsx as _ _ _ Hgx.
      assert (x.1.1 = k) as <- by (destruct (x.1.1), k; simpl in *; congruence).
      by apply list_elem_of_fmap_2, list_elem_of_fmap_2. }
  split; [done |]. split; [done |]. split; [done |]. split; [| done].
  unfold line_state. destruct (decide (in_line k l)) as [Hk | Hk]; [symmetry; tauto |].
  enough (Hr : results l !! k = Some (state e, need e)) by (by rewrite Hr).
  apply (sf_results _ _ _ _ H). split.
  - destruct (state e); naive_solver.
  - exists (waker e). rewrite Hs. unfold stub. by rewrite Hg.
Qed.

(** *** One stub changes *)

Definition restubbed (s s' : Slab) (i : Z) (t : State * Z * option Waker * Z) : Prop :=
  forall j, stubs s' j = if j =? i then Some t else stubs s j.

Section restub.
Context (s s' : Slab) (i n g : Z) (st : State) (w : option Waker).
Hypothesis Hstub : restubbed s s' i (st, n, w, g).

Lemma restub_states Q F Q' F' :
  states s Q F ->
  (forall j, j <> i -> (j ∈ Q' <-> j ∈ Q) /\ (j ∈ F' <-> j ∈ F)) ->
  (st = Waiting <-> i ∈ Q') -> (st = Free <-> i ∈ F') -> (st = Waiting -> is_Some w) ->
  states s' Q' F'.
Proof using Hstub.
  intros Hs Hne Hq Hf Hw j st' n' w' g' Hj. rewrite Hstub in Hj.
  destruct (Z.eqb_spec j i) as [-> | Hji].
  - by injection Hj as <- <- <- <-.
  - destruct (Hne j Hji) as [-> ->]. by eapply Hs.
Qed.

Lemma restub_waits Q q :
  i ∉ Q -> Forall2 (waits_at s) Q q -> Forall2 (waits_at s') Q q.
Proof using Hstub.
  intros Hi H. induction H as [|j x Q q [Hk Hs] _ IH]; constructor.
  - split; [done |]. rewrite Hstub. destruct (Z.eqb_spec j i) as [-> |]; [set_solver | done].
  - apply IH. set_solver.
Qed.

Lemma restub_served k st' n' :
  served_at s' k st' n' <->
  if key_index k =? i
  then (st = Granted \/ st = Closed) /\ st' = st /\ n' = n /\ key_generation k = g
  else served_at s k st' n'.
Proof using Hstub.
  unfold served_at. rewrite Hstub. destruct (key_index k =? i); [| done].
  split.
  - intros [Hst (w' & [= -> -> -> ->])]. done.
  - intros (Hst & -> & -> & ->). eauto.
Qed.

(** The entry was not served before and is not now. *)
Lemma restub_results_same (r : gmap Key (State * Z)) :
  (forall k st n, r !! k = Some (st, n) <-> served_at s k st n) ->
  (st = Waiting \/ st = Free) ->
  (forall k st n, key_index k = i -> ~ served_at s k st n) ->
  forall k st n, r !! k = Some (st, n) <-> served_at s' k st n.
Proof using Hstub.
  intros Hr Hst Hno k st' n'. rewrite restub_served, Hr.
  destruct (Z.eqb_spec (key_index k) i) as [Hk | Hk]; [| done].
  split; [intros Hs; by apply Hno in Hs |]. intros [[-> | ->] _]; naive_solver.
Qed.

(** The entry is served now. *)
Lemma restub_results_insert (r : gmap Key (State * Z)) k :
  (forall k st n, r !! k = Some (st, n) <-> served_at s k st n) ->
  (st = Granted \/ st = Closed) -> key_index k = i -> key_generation k = g ->
  (forall k st n, key_index k = i -> ~ served_at s k st n) ->
  forall k' st' n', <[k := (st, n)]> r !! k' = Some (st', n') <-> served_at s' k' st' n'.
Proof using Hstub.
  intros Hr Hst Hk Hg Hno k' st' n'. rewrite restub_served.
  destruct (decide (k' = k)) as [-> | Hne].
  - rewrite lookup_insert_eq, Hk, Z.eqb_refl. naive_solver.
  - rewrite lookup_insert_ne by done.
    destruct (Z.eqb_spec (key_index k') i) as [Hi' | Hi']; [| apply Hr].
    split; [intros Hx%Hr; by apply Hno in Hx |].
    intros (_ & _ & _ & Hg'). destruct Hne. destruct k', k; simpl in *; congruence.
Qed.

(** The entry of [k] is free now, whatever it was. *)
Lemma restub_results_delete (r : gmap Key (State * Z)) k :
  (forall k st n, r !! k = Some (st, n) <-> served_at s k st n) ->
  st = Free -> key_index k = i ->
  (forall k' st n, key_index k' = i -> served_at s k' st n -> k' = k) ->
  forall k' st' n', delete k r !! k' = Some (st', n') <-> served_at s' k' st' n'.
Proof using Hstub.
  intros Hr Hst Hk Hg k' st' n'. rewrite restub_served.
  destruct (decide (k' = k)) as [-> | Hne].
  - rewrite lookup_delete_eq, Hk, Z.eqb_refl. naive_solver.
  - rewrite lookup_delete_ne by done.
    destruct (Z.eqb_spec (key_index k') i) as [Hi' | Hi']; [| apply Hr].
    split; [intros Hx%Hr; by apply Hg in Hx | naive_solver].
Qed.
End restub.

Lemma not_served_at s l Q F i st n w g :
  stands_for s l Q F -> stubs s i = Some (st, n, w, g) -> st = Waiting \/ st = Free ->
  forall k st' n', key_index k = i -> ~ served_at s k st' n'.
Proof. intros H Hs Hst k st' n' <- [Hst' (w' & Hs')]. rewrite Hs in Hs'. naive_solver. Qed.

Lemma slab_rep_push s l n w :
  slab_rep s l -> 0 < room s ->
  exists k s', slab_push n w s = Some (k, s') /\ unused k l /\ slab_rep s' (line_push k n w l).
Proof.
  intros (Q & F & H) Hroom.
  destruct (push_links s Q F n w (sf_links _ _ _ _ H) (sf_states _ _ _ _ H) Hroom)
    as (i & s' & g & F' & Hp & Hl & Hv & Hs).
  pose proof (links_NoDup _ _ _ Hl) as Hnd. rewrite <- app_assoc in Hnd. cbn [app] in Hnd.
  rewrite <- Permutation_middle in Hnd. apply NoDup_cons in Hnd as [Hi _].
  assert (HF : forall j, j <> i -> j ∈ F' <-> j ∈ F) by (destruct Hv as [(-> & -> & _) | [-> _]]; set_solver).
  assert (Hno : forall k st n, key_index k = i -> ~ served_at s k st n).
  { intros k st' n' Hk [Hst (w' & Hw')]. rewrite Hk in Hw'.
    destruct Hv as [(_ & _ & -> & _) | [-> _]].
    - unfold stubs in Hw'. by rewrite vget_None in Hw' by lia.
    - destruct (sf_states _ _ _ _ H _ _ _ _ _ Hw') as (_ & [_ Hf] & _).
      rewrite Hf in Hst by set_solver. by destruct Hst. }
  exists {| key_index := i; key_generation := g |}, s'. split; [done |]. split.
  - split.
    + intros Hk. apply (in_line_index _ _ _ _ _ H) in Hk. simpl in Hk. set_solver.
    + destruct (results l !! _) as [[st m]|] eqn:Hr; [| done].
      by apply (sf_results _ _ _ _ H), Hno in Hr.
  - exists (Q ++ [i]), F'. constructor; [done | | |].
    + eapply restub_states; [exact Hs | apply H | | | | done].
      * intros j Hj. split; [set_solver | by apply HF].
      * set_solver.
      * split; [done | set_solver].
    + apply Forall2_app; [eapply restub_waits; [exact Hs | set_solver | apply H] |].
      constructor; [| done]. split; [done |]. simpl. rewrite Hs. by rewrite Z.eqb_refl.
    + eapply restub_results_same; [exact Hs | apply H | by left | exact Hno].
Qed.

Lemma slab_rep_is_empty s l : slab_rep s l -> slab_is_empty s = bool_decide (queue l = []).
Proof.
  intros (Q & F & H). unfold slab_is_empty. pose proof (sf_queue _ _ _ _ H) as Hq.
  rewrite (links_head _ _ _ (sf_links _ _ _ _ H)).
  destruct Hq as [|i x Q q _ _]; [done |]. rewrite bool_decide_eq_false_2 by done.
  apply Z.eqb_neq. eapply links_not_NIL; [apply H | set_solver].
Qed.

(** The front of the list and of the line. *)
Lemma slab_front s l i Q F :
  stands_for s l (i :: Q) F ->
  exists k n w q e, queue l = (k, n, w) :: q /\ key_index k = i /\ head s = i /\ i <> NIL /\
    entries s !!z i = Some e /\ stub e = (Waiting, n, Some w, key_generation k) /\
    Forall2 (waits_at s) Q q.
Proof.
  intros H. pose proof (sf_queue _ _ _ _ H) as Hq.
  apply Forall2_cons_inv_l in Hq as ([[k n] w] & q & [Hk Hs] & Hq & Hl). simpl in *.
  unfold stubs in Hs. apply fmap_Some in Hs as (e & He & Hs).
  exists k, n, w, q, e. split; [done |]. split; [done |].
  split; [apply (links_head _ _ _ (sf_links _ _ _ _ H)) |].
  split; [eapply links_not_NIL; [apply H | set_solver] |]. done.
Qed.

Lemma slab_rep_front_fits s l a :
  slab_rep s l -> slab_front_fits a s = Some (line_fits a l).
Proof.
  intros (Q & F & H). unfold slab_front_fits, line_fits. destruct Q as [|i Q].
  - pose proof (sf_queue _ _ _ _ H) as Hq. apply Forall2_nil_inv_l in Hq as ->.
    by rewrite (links_head _ _ _ (sf_links _ _ _ _ H)).
  - destruct (slab_front s l i Q F H) as (k & n & w & q & e & -> & _ & -> & Hne & He & Hs & _).
    destruct (Z.eqb_spec i NIL); [done |]. simpl. rewrite He. cbn [mbind option_bind].
    by injection Hs as _ -> _ _.
Qed.

(** The front entry leaves the list for its result. *)
Lemma slab_rep_pop s l st :
  slab_rep s l -> st = Granted \/ st = Closed ->
  exists s', pop_front st s =
      Some (option_map (prod_map id Some) (line_pop st l).1, s') /\
    slab_rep s' (line_pop st l).2.
Proof.
  intros (Q & F & H) Hst. unfold pop_front, line_pop. destruct Q as [|i Q].
  { pose proof (sf_queue _ _ _ _ H) as Hq. apply Forall2_nil_inv_l in Hq as ->.
    rewrite (links_head _ _ _ (sf_links _ _ _ _ H)). simpl. exists s. split; [done |]. by exists [], F. }
  destruct (slab_front s l i Q F H) as (k & n & w & q & e & -> & Hk & -> & Hne & He & Hs & Hq).
  destruct (Z.eqb_spec i NIL); [done |].
  destruct (unlink_links s [] i Q F (sf_links _ _ _ _ H)) as (s1 & -> & Hl1 & Hs1).
  cbn [mbind option_bind app] in *.
  destruct (fmap_Some (stub) (entries s1 !!z i) (stub e)) as [Hf _].
  destruct Hf as (e1 & He1 & Hst1); [rewrite <- (stubs_Some _ _ _ He); apply Hs1 |].
  rewrite He1. cbn [mbind option_bind]. rewrite Hs in Hst1. injection Hst1 as Hx1 Hx2 Hx3 Hx4.
  rewrite <- Hx2, <- Hx3. eexists. split; [reflexivity |].
  assert (Hre : restubbed s (set_entries (vset (entries s1) i (set_waker None (set_state st e1))) s1)
    i (st, n, None, key_generation k)).
  { intros j. rewrite (stubs_set _ _ e1) by done. rewrite Hs1.
    unfold stub. simpl. by rewrite <- Hx2, <- Hx4. }
  pose proof (links_NoDup _ _ _ (sf_links _ _ _ _ H)) as Hnd. cbn [app] in Hnd.
  apply NoDup_cons in Hnd as [Hi _].
  exists Q, F. simpl. constructor.
  - by eapply set_stub_links.
  - eapply restub_states; [exact Hre | apply H | | | | by destruct Hst as [-> | ->]].
    + intros j Hj. set_solver.
    + split; [by destruct Hst as [-> | ->] | set_solver].
    + split; [by destruct Hst as [-> | ->] | set_solver].
  - eapply restub_waits; [exact Hre | set_solver | done].
  - eapply restub_results_insert; [exact Hre | apply H | done .. |].
    eapply not_served_at; [exact H | by rewrite (stubs_Some _ _ _ He), Hs | by left].
Qed.

Lemma slab_rep_grant s l a :
  slab_rep s l ->
  exists s', slab_grant_front_if a s =
      Some (option_map (prod_map id Some) (line_grant a l).1, s') /\
    slab_rep s' (line_grant a l).2.
Proof.
  intros H. unfold slab_grant_front_if, line_grant. rewrite (slab_rep_front_fits _ _ _ H).
  cbn [mbind option_bind]. destruct (line_fits a l); [apply slab_rep_pop; auto |]. by exists s.
Qed.

Lemma slab_rep_close s l :
  slab_rep s l ->
  exists s', slab_close_front s =
      Some (option_map (fun p => Some p.2) (line_pop Closed l).1, s') /\
    slab_rep s' (line_pop Closed l).2.
Proof.
  intros H. unfold slab_close_front.
  destruct (slab_rep_pop s l Closed H) as (s' & -> & H'); [by right |].
  exists s'. split; [| done]. cbn [mbind option_bind].
  by destruct (line_pop Closed l) as [[[n w]|] l'].
Qed.

Lemma rewake_same k w l :
  (forall n w', (k, n, w') ∈ queue l -> w' = w) -> line_rewake k w l = l.
Proof.
  intros Hk. destruct l as [q r]. unfold line_rewake. simpl in *. f_equal.
  rewrite <- (list_fmap_id q) at 2. apply list_fmap_ext.
  intros i [[k' n] w'] Hi. simpl. case_decide as E; [| done]. subst k'.
  apply list_elem_of_lookup_2, Hk in Hi. by subst.
Qed.

Lemma rewake_unused k w l : ~ in_line k l -> line_rewake k w l = l.
Proof. intros Hk. apply rewake_same. intros n w' Hx. by apply in_queue in Hx. Qed.

Lemma queue_stub s l Q F k n w :
  stands_for s l Q F -> (k, n, w) ∈ queue l ->
  stubs s (key_index k) = Some (Waiting, n, Some w, key_generation k).
Proof.
  intros H (j & Hj)%list_elem_of_lookup.
  destruct (Forall2_lookup_r _ _ _ _ _ (sf_queue _ _ _ _ H) Hj) as (i & _ & Hi & Hs).
  simpl in *. by subst i.
Qed.

(** The entry of a waiting key. *)
Lemma waiting_entry s l Q F k e :
  stands_for s l Q F -> entries s !!z key_index k = Some e -> generation e = key_generation k ->
  state e = Waiting ->
  key_index k ∈ Q /\ exists w, waker e = Some w /\ (k, need e, w) ∈ queue l.
Proof.
  intros H He Hg Hw. pose proof (stubs_Some _ _ _ He) as Hs. unfold stub in Hs. rewrite Hw in Hs.
  destruct (sf_states _ _ _ _ H _ _ _ _ _ Hs) as ([Hq _] & _).
  split; [by apply Hq |].
  destruct (waits_at_in _ _ _ _ (sf_queue _ _ _ _ H) (Hq eq_refl)) as ([[k' n] w] & Hx & Hk & Hs').
  simpl in *. rewrite Hs in Hs'. injection Hs' as Hn Hwk Hg'. exists w. split; [done |].
  assert (k' = k) as -> by (destruct k', k; simpl in *; congruence). by rewrite Hn.
Qed.

Lemma slab_rep_look s l k w :
  slab_rep s l ->
  exists same, slab_refresh k w s = (line_state k l, same) /\
    (same = true -> slab_rep s (line_rewake k w l)).
Proof.
  intros (Q & F & H). unfold slab_refresh. pose proof (live_line s l Q F k H) as Hl.
  destruct (live s k) as [e|].
  - destruct Hl as (He & Hg & Hf & -> & Hin). eexists. split; [reflexivity |].
    case_bool_decide as Hw; simpl.
    + destruct (waiting_entry s l Q F k e H He Hg Hw) as (_ & w' & -> & Hx).
      unfold will_wake. intros ->%Z.eqb_eq.
      rewrite rewake_same; [by exists Q, F |]. intros n w' Hx'.
      apply (queue_stub _ _ _ _ _ _ _ H) in Hx, Hx'. congruence.
    + intros _. rewrite rewake_unused by tauto. by exists Q, F.
  - destruct Hl as (-> & Hu & _). eexists. split; [reflexivity |]. intros _.
    rewrite rewake_unused by done. by exists Q, F.
Qed.

(** A waiting entry takes another waker. *)
Lemma slab_rep_rewake s l Q F k e w :
  stands_for s l Q F -> entries s !!z key_index k = Some e -> generation e = key_generation k ->
  state e = Waiting ->
  stands_for (set_entries (vset (entries s) (key_index k) (set_waker (Some w) e)) s)
    (line_rewake k w l) Q F.
Proof.
  intros H He Hg Hw.
  assert (Hre : restubbed s
    (set_entries (vset (entries s) (key_index k) (set_waker (Some w) e)) s) (key_index k)
    (Waiting, need e, Some w, key_generation k)).
  { intros j. rewrite (stubs_set _ _ e) by done. unfold stub. simpl. by rewrite Hw, Hg. }
  destruct (waiting_entry s l Q F k e H He Hg Hw) as (Hq & w' & Hwk & Hx).
  pose proof (stubs_Some _ _ _ He) as Hs. unfold stub in Hs. rewrite Hw in Hs.
  constructor.
  - eapply set_stub_links; [apply H | done ..].
  - eapply restub_states; [exact Hre | apply H | done | done | | done].
    destruct (sf_states _ _ _ _ H _ _ _ _ _ Hs) as (_ & Hf & _). exact Hf.
  - simpl. pose proof (sf_queue _ _ _ _ H) as HQ. apply Forall2_fmap_r.
    eapply Forall2_impl; [exact HQ |]. intros i [[k' n] w''] [Hk Hsi]. simpl in *.
    destruct (decide (k' = k)) as [-> | Hne]; (split; [done |]); simpl; rewrite Hre.
    + rewrite <- Hk, Z.eqb_refl. rewrite <- Hk, Hs in Hsi. congruence.
    + destruct (Z.eqb_spec i (key_index k)) as [E | _]; [| done].
      destruct Hne. rewrite E, Hs in Hsi. destruct k', k; simpl in *; congruence.
  - eapply restub_results_same; [exact Hre | apply H | by left |].
    eapply not_served_at; [exact H | exact Hs | by left].
Qed.

Lemma slab_rep_clone s l k w :
  slab_rep s l ->
  exists s', slab_refresh_clone k w s = (line_state k l, s') /\ slab_rep s' (line_rewake k w l).
Proof.
  intros (Q & F & H). unfold slab_refresh_clone. pose proof (live_line s l Q F k H) as Hl.
  destruct (live s k) as [e|].
  - destruct Hl as (He & Hg & Hf & -> & Hin). case_bool_decide as Hw.
    + rewrite Hw. eexists. split; [reflexivity |]. exists Q, F. by apply slab_rep_rewake.
    + exists s. rewrite rewake_unused by tauto. split; [done | by exists Q, F].
  - destruct Hl as (-> & Hu & _). exists s. rewrite rewake_unused by done.
    split; [done | by exists Q, F].
Qed.

(** Freeing the entry of [k] once it is out of the list. *)
Lemma free_key s l Q F k e s1 Q' :
  stands_for s l Q F -> entries s !!z key_index k = Some e -> generation e = key_generation k ->
  state e <> Free ->
  links s1 Q' F -> (forall j, j <> key_index k -> stubs s1 j = stubs s j) ->
  is_Some (entries s1 !!z key_index k) ->
  key_index k ∉ Q' -> (forall j, j <> key_index k -> j ∈ Q' <-> j ∈ Q) ->
  Forall2 (waits_at s) Q' (queue (line_cancel k l)) ->
  exists s', free_entry (key_index k) s1 = Some s' /\ slab_rep s' (line_cancel k l).
Proof.
  intros H He Hg Hf Hl Hs1 [e1 He1] Hk HQ Hq.
  pose proof (stubs_Some _ _ _ He) as Hs. unfold stub in Hs.
  destruct (sf_states _ _ _ _ H _ _ _ _ _ Hs) as (_ & HF & _).
  destruct (free_entry_links s1 Q' F (key_index k) e1) as (s' & Hfe & Hl' & Hs'); [done .. | set_solver |].
  exists s'. split; [done |]. exists Q', (key_index k :: F).
  assert (Hre : restubbed s s' (key_index k)
    (Free, need e1, None, wrapping_add 32 (generation e1) 1)).
  { intros j. rewrite Hs'. destruct (Z.eqb_spec j (key_index k)); [done |]. by apply Hs1. }
  constructor; [done | | |].
  - eapply restub_states; [exact Hre | apply H | | | | done].
    + intros j Hj. split; [by apply HQ | set_solver].
    + done.
    + set_solver.
  - eapply restub_waits; [exact Hre | done | done].
  - eapply restub_results_delete; [exact Hre | apply H | done .. |].
    intros k' st n Hk' [_ (w & Hw)]. rewrite Hk', Hs in Hw.
    destruct k', k; simpl in *; congruence.
Qed.

Lemma slab_rep_take s l k :
  slab_rep s l -> exists s', slab_take k s = Some s' /\ slab_rep s' (line_take k l).
Proof.
  intros (Q & F & H). unfold slab_take. pose proof (live_line s l Q F k H) as Hl.
  destruct (live s k) as [e|].
  - destruct Hl as (He & Hg & Hf & _ & Hin). case_bool_decide as Hw.
    { exists s. split; [done |]. exists Q, F. unfold line_take.
      rewrite delete_id by (apply (rep_keys _ _ _ _ H); tauto). by destruct l. }
    assert (Hk : ~ in_line k l) by tauto.
    rewrite <- cancel_unqueued by done.
    eapply (free_key s l Q F k e s Q); try done; [apply H | | ].
    + pose proof (stubs_Some _ _ _ He) as Hs. unfold stub in Hs.
      destruct (sf_states _ _ _ _ H _ _ _ _ _ Hs) as (HQ & _). tauto.
    + rewrite cancel_unqueued by done. apply H.
  - destruct Hl as (_ & _ & Hr). exists s. split; [done |]. exists Q, F.
    unfold line_take. rewrite delete_id by done. by destruct l.
Qed.

(** The queue without the waiter of an entry in its middle. *)
Lemma cancel_queue s a i b q k st n w :
  Forall2 (waits_at s) (a ++ i :: b) q -> NoDup (a ++ i :: b) -> key_index k = i ->
  stubs s i = Some (st, n, w, key_generation k) ->
  Forall2 (waits_at s) (a ++ b) (filter (fun x => x.1.1 <> k) q).
Proof.
  intros H Hnd Hi Hs.
  apply Forall2_app_inv_l in H as (qa & qb' & Ha & Hb & ->).
  apply Forall2_cons_inv_l in Hb as (y & qb & [Hy Hys] & Hb & ->).
  assert (Hout : forall Q q, Forall2 (waits_at s) Q q -> i ∉ Q -> filter (fun x => x.1.1 <> k) q = q).
  { clear -Hi. intros Q q H HQ. apply filter_all, Forall_forall. intros x Hx Hk.
    apply HQ. rewrite <- (waits_at_keys _ _ _ H), <- Hi, <- Hk.
    by apply list_elem_of_fmap_2, list_elem_of_fmap_2, list_elem_of_fmap_2. }
  apply NoDup_app in Hnd as (_ & Hdis & [Hib _]%NoDup_cons).
  rewrite filter_app, (Hout a) by (try done; intros Hia; by apply (Hdis i); [| set_solver]).
  rewrite filter_cons_False, (Hout b); [by apply Forall2_app | done .. |].
  intros Hne. apply Hne. rewrite Hs in Hys. destruct (y.1.1), k; simpl in *; congruence.
Qed.

Lemma is_front_head s l Q F k :
  stands_for s l Q F -> line_state k l = Waiting ->
  is_front k l = (head s =? key_index k).
Proof.
  intros H Hk. unfold line_state in Hk. destruct (decide (in_line k l)) as [Hin | Hin].
  2: { destruct (results l !! k) as [[st n]|] eqn:Hr; [| done]. subst st.
       apply (sf_results _ _ _ _ H) in Hr as [[? | ?] _]; done. }
  destruct (in_line_waits _ _ _ _ _ H Hin) as (n & w & Hx & Hs).
  pose proof (sf_queue _ _ _ _ H) as Hq. unfold is_front.
  rewrite (links_head _ _ _ (sf_links _ _ _ _ H)).
  destruct Hq as [|i [[k' n'] w'] Q q [Hi Hsi] Hq]; [set_solver |]. simpl in *.
  case_bool_decide as E; [subst; by rewrite Z.eqb_refl |].
  symmetry. apply Z.eqb_neq. intros ->. apply E. rewrite Hs in Hsi.
  destruct k', k; simpl in *; congruence.
Qed.

Lemma not_front k l : ~ in_line k l -> is_front k l = false.
Proof.
  unfold in_line, is_front. destruct (queue l) as [|[[k' n] w] q]; [done |].
  intros Hk. apply bool_decide_eq_false. set_solver.
Qed.

(** Leaving the line, waiting or not. *)
Lemma slab_rep_cancel s l k :
  slab_rep s l ->
  exists s' w, slab_cancel k s = Some ((line_state k l, is_front k l, w), s') /\
    (forall n w', (k, n, w') ∈ queue l -> w = Some w') /\ slab_rep s' (line_cancel k l).
Proof.
  intros (Q & F & H). unfold slab_cancel. pose proof (live_line s l Q F k H) as Hl.
  destruct (live s k) as [e|].
  2: { destruct Hl as (-> & Hu & Hr). exists s, None. rewrite not_front by done. split; [done |].
       split; [intros n w' Hx; by apply in_queue in Hx |].
       rewrite cancel_unqueued by done. exists Q, F. unfold line_take.
       rewrite delete_id by done. by destruct l. }
  destruct Hl as (He & Hg & Hf & Hst & Hin).
  pose proof (stubs_Some _ _ _ He) as Hs. unfold stub in Hs.
  pose proof (sf_states _ _ _ _ H _ _ _ _ _ Hs) as (HQ & _).
  assert (Hwk : forall n w', (k, n, w') ∈ queue l -> waker e = Some w').
  { intros n w' Hx. apply (queue_stub _ _ _ _ _ _ _ H) in Hx. congruence. }
  set (s0 := set_entries (vset (entries s) (key_index k) (set_waker None e)) s).
  assert (Hl0 : links s0 Q F) by (eapply set_stub_links; [apply H | done ..]).
  assert (Hs0 : forall j, j <> key_index k -> stubs s0 j = stubs s j).
  { intros j Hj. unfold s0. rewrite (stubs_set _ _ e) by done.
    destruct (Z.eqb_spec j (key_index k)); [done | done]. }
  assert (He0 : is_Some (entries s0 !!z key_index k)).
  { unfold s0. simpl. rewrite (vget_vset_eq _ _ _ e) by done. eauto. }
  destruct (decide (state e = Waiting)) as [Hw | Hw].
  - rewrite bool_decide_eq_true_2 by done. cbn [andb].
    rewrite (is_front_head _ _ _ _ _ H) by (by rewrite Hst).
    destruct (list_elem_of_split Q (key_index k)) as (a & b & ->); [tauto |].
    destruct (unlink_links s0 a (key_index k) b F Hl0) as (s1 & -> & Hl1 & Hs1).
    cbn [mbind option_bind]. pose proof (links_NoDup _ _ _ Hl0) as (Hnd & _)%NoDup_app.
    destruct (free_key s l (a ++ key_index k :: b) F k e s1 (a ++ b)) as (s' & -> & Hr); try done.
    + intros j Hj. rewrite Hs1. by apply Hs0.
    + specialize (Hs1 (key_index k)). destruct He0 as [e0 He0]. unfold stubs in Hs1.
      rewrite He0 in Hs1. by destruct (entries s1 !!z key_index k).
    + apply NoDup_app in Hnd as (_ & Hd & [Hb _]%NoDup_cons). set_solver.
    + set_solver.
    + simpl. eapply cancel_queue; [apply H | done | done |]. rewrite <- Hg. exact Hs.
    + cbn [mbind option_bind]. exists s', (waker e). by rewrite Hst.
  - rewrite bool_decide_eq_false_2 by done. cbn [andb mbind option_bind].
    destruct (free_key s l Q F k e s0 Q) as (s' & -> & Hr); try done; [tauto | |].
    + rewrite cancel_unqueued by tauto. apply H.
    + cbn [mbind option_bind]. exists s', (waker e). rewrite Hst, not_front by tauto. done.
Qed.

Lemma slab_rep_distinct s l : slab_rep s l -> line_ok l.
Proof.
  intros (Q & F & H). destruct (rep_keys _ _ _ _ H) as [? ?]. constructor; [done | done |].
  intros k st n Hr. by apply (sf_results _ _ _ _ H) in Hr as [? _].
Qed.

Lemma slab_rep_slots s l : slab_rep s l -> vlen (queue l) <= slots s.
Proof.
  intros (Q & F & H). pose proof (sf_queue _ _ _ _ H) as Hq. apply Forall2_length in Hq.
  assert (vlen (queue l) = vlen Q) as -> by (unfold vlen; lia).
  pose proof (links_NoDup _ _ _ (sf_links _ _ _ _ H)) as (Hnd & _)%NoDup_app.
  simpl. rewrite <- (Z.max_r 0 (vlen (entries s))) by apply vlen_nonneg.
  apply NoDup_bounded; [done |]. intros i Hi.
  destruct (links_index s Q F i) as (e & He); [apply H | set_solver |]. by eapply vget_bound.
Qed.

(** The entries in use are the places the line holds. *)
Lemma slab_rep_room s l : slab_rep s l -> isize_max - vlen (tickets l) <= room s.
Proof.
  intros (Q & F & H). cbn [room slab_ops].
  assert (Hc : size (list_to_set (C := gset Z) (key_index <$> (tickets l).*1)) =
    length (List.filter (fun e => negb (bool_decide (state e = Free))) (entries s))).
  { apply count_indices. intros i. rewrite elem_of_list_to_set, list_elem_of_fmap. split.
    - intros (k & -> & [Hk | [[st n] Hk]]%in_tickets).
      + destruct (in_line_waits _ _ _ _ _ H Hk) as (n & w & _ & (e & He & Hs)%fmap_Some).
        exists e. split; [done |]. by injection Hs as <- _ _ _.
      + apply (sf_results _ _ _ _ H) in Hk as [Hst (w & (e & He & Hs)%fmap_Some)].
        exists e. split; [done |]. injection Hs as <- _ _ _. by destruct Hst as [-> | ->].
    - intros (e & He & Hf). exists {| key_index := i; key_generation := generation e |}.
      split; [done |]. apply in_tickets. apply negb_true_iff, bool_decide_eq_false in Hf.
      pose proof (live_line s l Q F {| key_index := i; key_generation := generation e |} H) as Hl.
      unfold live in Hl. simpl in Hl. rewrite He in Hl. cbn [mbind option_bind] in Hl.
      rewrite Z.eqb_refl, bool_decide_eq_false_2 in Hl by done. simpl in Hl.
      destruct Hl as (_ & _ & _ & Hls & Hin). unfold line_state in Hls.
      destruct (decide _) as [Hi | _]; [by left |]. right.
      destruct (results l !! _); [done | by rewrite Hls in Hf]. }
  unfold vlen. rewrite <- Hc.
  enough (size (list_to_set (C := gset Z) (key_index <$> (tickets l).*1)) <= length (tickets l))%nat
    by lia.
  etrans; [apply size_list_to_set_le |]. by rewrite !length_fmap.
Qed.

Lemma slab_rep_new : slab_rep slab_new line_new.
Proof.
  assert (Hno : forall i, stubs slab_new i = None).
  { intros i. unfold stubs. by rewrite vget_None by (unfold vlen; simpl; lia). }
  exists [], []. constructor; simpl.
  - constructor; simpl; try done. by apply NoDup_nil.
  - intros i st n w g Hi. by rewrite Hno in Hi.
  - done.
  - intros k st n. rewrite lookup_empty. split; [done | intros [_ (w & Hw)]]. by rewrite Hno in Hw.
Qed.

#[global] Instance slab_waiter_list : WaiterListLaws Slab := {
  rep := slab_rep;
  rep_distinct := slab_rep_distinct;
  rep_slots := slab_rep_slots;
  rep_room := slab_rep_room;
  rep_new := slab_rep_new;
  rep_is_empty := slab_rep_is_empty;
  rep_push := slab_rep_push;
  rep_front_fits := slab_rep_front_fits;
  rep_grant_front_if := slab_rep_grant;
  rep_close_front := slab_rep_close;
  rep_refresh_look := slab_rep_look;
  rep_refresh_clone := slab_rep_clone;
  rep_take := slab_rep_take;
  rep_cancel := slab_rep_cancel
}.

(** ** The slab implements the line *)

(** The calls of the waiter list and what they answer. *)
Inductive call : Type :=
| CEmpty
| CPush (n : Z) (w : Waker)
| CFits (available : Z)
| CGrant (available : Z)
| CClose
| CRefresh (k : Key) (w : Waker)
| CTake (k : Key)
| CCancel (k : Key).

Inductive answer : Type :=
| AEmpty (b : bool)
| AKey (k : Key)
| AFits (b : bool)
| AFront (front : option (Z * option Waker))
| AClosed (front : option (option Waker))
| AState (st : State)
| ADone
| ALeft (st : State) (front : bool) (w : option Waker).

Definition slab_call (c : call) (s : Slab) : option (answer * Slab) :=
  match c with
  | CEmpty => Some (AEmpty (slab_is_empty s), s)
  | CPush n w => '(k, s) ← slab_push n w s; Some (AKey k, s)
  | CFits a => b ← slab_front_fits a s; Some (AFits b, s)
  | CGrant a => '(r, s) ← slab_grant_front_if a s; Some (AFront r, s)
  | CClose => '(r, s) ← slab_close_front s; Some (AClosed r, s)
  | CRefresh k w => '(st, s) ← refresh id (fun s _ => s) Some k w s; Some (AState st, s)
  | CTake k => s ← slab_take k s; Some (ADone, s)
  | CCancel k => '((st, f, w), s) ← slab_cancel k s; Some (ALeft st f w, s)
  end.

Fixpoint slab_calls (cs : list call) (s : Slab) : option (list answer * Slab) :=
  match cs with
  | [] => Some ([], s)
  | c :: cs =>
      '(a, s) ← slab_call c s;
      '(r, s) ← slab_calls cs s;
      Some (a :: r, s)
  end.

(** What the line answers. *)
Inductive line_call (l : line) : call -> answer -> line -> Prop :=
| lc_empty : line_call l CEmpty (AEmpty (bool_decide (queue l = []))) l
| lc_push n w k : unused k l -> line_call l (CPush n w) (AKey k) (line_push k n w l)
| lc_fits a : line_call l (CFits a) (AFits (line_fits a l)) l
| lc_grant a :
    line_call l (CGrant a) (AFront (option_map (prod_map id Some) (line_grant a l).1))
      (line_grant a l).2
| lc_close :
    line_call l CClose (AClosed (option_map (fun p => Some p.2) (line_pop Closed l).1))
      (line_pop Closed l).2
| lc_refresh k w : line_call l (CRefresh k w) (AState (line_state k l)) (line_rewake k w l)
| lc_take k : line_call l (CTake k) ADone (line_take k l)
| lc_cancel k wk :
    (forall n w, (k, n, w) ∈ queue l -> wk = Some w) ->
    line_call l (CCancel k) (ALeft (line_state k l) (is_front k l) wk) (line_cancel k l).

Inductive line_calls : line -> list call -> list answer -> line -> Prop :=
| lcs_nil l : line_calls l [] [] l
| lcs_cons l c a l1 cs r l' :
    line_call l c a l1 -> line_calls l1 cs r l' -> line_calls l (c :: cs) (a :: r) l'.

Lemma slab_refresh_ok s l k w :
  slab_rep s l ->
  exists s', refresh id (fun s _ => s) Some k w s = Some (line_state k l, s') /\
    slab_rep s' (line_rewake k w l).
Proof.
  intros H. unfold refresh. unfold id at 1.
  destruct (slab_rep_look s l k w H) as (same & Hl & Hs). simpl. rewrite Hl.
  destruct same; [by exists s; auto |]. cbn [mbind option_bind].
  destruct (slab_rep_clone s l k w H) as (s' & Hc & Hr). unfold id. rewrite Hc. by exists s'.
Qed.

Lemma slab_call_ok c s l :
  slab_rep s l -> vlen (tickets l) < isize_max ->
  exists a s' l', slab_call c s = Some (a, s') /\ line_call l c a l' /\ slab_rep s' l'.
Proof.
  intros H Hr. destruct c as [|n w|a|a| |k w|k|k]; cbn [slab_call].
  - rewrite (slab_rep_is_empty s l H). eexists _, s, l. split; [done |]. by split; [constructor |].
  - destruct (slab_rep_push s l n w H) as (k & s' & -> & Hu & H').
    { pose proof (slab_rep_room _ _ H). lia. }
    eexists _, s', _. split; [done |]. split; [by constructor | done].
  - rewrite (slab_rep_front_fits s l a H). eexists _, s, l. split; [done |]. by split; [constructor |].
  - destruct (slab_rep_grant s l a H) as (s' & -> & H'). eexists _, s', _. split; [done |].
    by split; [constructor |].
  - destruct (slab_rep_close s l H) as (s' & -> & H'). eexists _, s', _. split; [done |].
    by split; [constructor |].
  - destruct (slab_refresh_ok s l k w H) as (s' & -> & H'). eexists _, s', _. split; [done |].
    by split; [constructor |].
  - destruct (slab_rep_take s l k H) as (s' & -> & H'). eexists _, s', _. split; [done |].
    by split; [constructor |].
  - destruct (slab_rep_cancel s l k H) as (s' & wk & -> & Hw & H'). eexists _, s', _. split; [done |].
    by split; [constructor |].
Qed.

Lemma vlen_tickets l : vlen (tickets l) = vlen (queue l) + Z.of_nat (size (results l)).
Proof.
  unfold tickets, vlen. rewrite length_app, !length_fmap, length_map_to_list. lia.
Qed.

Lemma size_delete_le k (r : gmap Key (State * Z)) : (size (delete k r) <= size r)%nat.
Proof. rewrite map_size_delete. destruct (r !! k); simpl; lia. Qed.

Lemma line_pop_tickets st l : vlen (tickets (line_pop st l).2) <= vlen (tickets l).
Proof.
  unfold line_pop. destruct l as [[|[[k n] w] q] r]; simpl; [lia |].
  rewrite !vlen_tickets. simpl. rewrite vlen_cons, map_size_insert. destruct (r !! k); simpl; lia.
Qed.

(** A call adds at most one place. *)
Lemma line_call_tickets l c a l' :
  line_call l c a l' -> vlen (tickets l') <= vlen (tickets l) + 1.
Proof.
  intros []; rewrite ?tickets_rewake; try lia.
  - rewrite !vlen_tickets. simpl. rewrite vlen_app. change (vlen [(k, n, w)]) with 1. lia.
  - unfold line_grant. destruct (line_fits a0 l); simpl; [| lia].
    pose proof (line_pop_tickets Granted l). lia.
  - pose proof (line_pop_tickets Closed l). lia.
  - rewrite !vlen_tickets. simpl. pose proof (size_delete_le k (results l)). lia.
  - rewrite !vlen_tickets. simpl. pose proof (size_delete_le k (results l)).
    pose proof (length_filter (fun x : Key * Z * Waker => x.1.1 <> k) (queue l)). unfold vlen. lia.
Qed.

Lemma slab_calls_ok cs s l :
  slab_rep s l -> vlen (tickets l) + vlen cs <= isize_max ->
  exists r s' l', slab_calls cs s = Some (r, s') /\ line_calls l cs r l' /\ slab_rep s' l'.
Proof.
  revert s l. induction cs as [|c cs IH]; intros s l H Hr; cbn [slab_calls].
  { exists [], s, l. split; [done |]. split; [constructor | done]. }
  rewrite vlen_cons in Hr. pose proof (vlen_nonneg cs).
  destruct (slab_call_ok c s l H ltac:(lia)) as (a & s1 & l1 & -> & Hc & H1). cbn [mbind option_bind].
  pose proof (line_call_tickets _ _ _ _ Hc).
  destruct (IH s1 l1 H1 ltac:(lia)) as (r & s' & l' & -> & Hcs & H'). cbn [mbind option_bind].
  exists (a :: r), s', l'. split; [done |]. split; [by econstructor | done].
Qed.

(** C24. The waiter list is a line of waiters: run through any calls, as many
    as a list can hold places, it never panics, and it answers every call as
    the line does, which serves and ends waits first come, first served, gives
    every waiter a key no other place holds, and lets a place be left from
    anywhere in the line. *)
Theorem slab_refines_line cs :
  vlen cs <= isize_max ->
  exists r s l, slab_calls cs slab_new = Some (r, s) /\ line_calls line_new cs r l /\ slab_rep s l.
Proof. intros Hr. apply slab_calls_ok; [apply slab_rep_new | by apply Hr]. Qed.

Lemma slab_refines_line_witness :
  exists r s l,
    slab_calls [CPush 2 7; CPush 1 8; CCancel {| key_index := 0; key_generation := 0 |};
                CPush 3 9; CEmpty; CGrant 1; CFits 2] slab_new = Some (r, s) /\
    line_calls line_new
      [CPush 2 7; CPush 1 8; CCancel {| key_index := 0; key_generation := 0 |};
       CPush 3 9; CEmpty; CGrant 1; CFits 2] r l /\ slab_rep s l.
Proof. apply slab_refines_line. vm_compute. discriminate. Defined.
