(* ===== verification/LocalSemaphore.v ===== *)
(** * The single-shard semaphore

    [sync/local/semaphore.rs]: a strictly first-come, first-served counting
    semaphore over a waiter list. The definitions and theorems are over any
    list that keeps the promise of [WaiterListLaws]. *)

From S2P Require Import Prelude Coop Waiters.
Open Scope Z_scope.

(** ** The code *)

Definition MAX_PERMITS : Z := Z.shiftr usize_max 3.

(** [isize::saturating_add] and a checked [isize] difference. *)
Definition saturating_add (a b : Z) : Z := Z.max isize_min (Z.min isize_max (a + b)).
Definition sub_isize (a b : Z) : option Z :=
  if (isize_min <=? a - b) && (a - b <=? isize_max) then Some (a - b) else None.

Inductive AcquireError : Type := AcquireClosed.
Inductive TryAcquireError : Type := TryClosed | NoPermits.

(** [SemaphorePermit]: the permits it holds. *)
Definition SemaphorePermit : Type := Z.

(** [Acquire]: how many permits it waits for, and its place in line. *)
Record Acquire : Type := { acquire_n : Z; acquire_key : option Key }.

Definition set_acquire_key k a := {| acquire_n := acquire_n a; acquire_key := k |}.

(** [checked_permits]: [n], or a panic when no semaphore could satisfy it. *)
Definition checked_permits (n : Z) : option Z := if n <=? MAX_PERMITS then Some n else None.

Section semaphore.
Context {W : Type} `{WaiterList W}.

Record Semaphore : Type := {
  permits : Z;
  closed : bool;
  waiters : W
}.

Definition set_permits x s := {| permits := x; closed := closed s; waiters := waiters s |}.
Definition set_closed x s := {| permits := permits s; closed := x; waiters := waiters s |}.
Definition set_waiters x s := {| permits := permits s; closed := closed s; waiters := x |}.

Definition semaphore_new (n : Z) : option Semaphore :=
  if n <=? MAX_PERMITS then Some {| permits := n; closed := false; waiters := new |} else None.

Definition available_permits (s : Semaphore) : Z := Z.max (permits s) 0.

(** One pass of [serve_waiters]'s loop: a front waiter whose request fits is
    granted and woken. *)
Definition serve_one (st : Semaphore * Thread) : option (flow (Semaphore * Thread)) :=
  let '(s, t) := st in
  if permits s <? 0 then Some (Stop (s, t))
  else
    '(granted, ws) ← grant_front_if (permits s) (waiters s);
    let s := set_waiters ws s in
    match granted with
    | None => Some (Stop (s, t))
    | Some (need, waker) =>
        p ← sub_isize (permits s) need;
        let s := set_permits p s in
        Some (Go (s, match waker with Some w => wake w t | None => t end))
    end.

Definition serve_waiters (s : Semaphore) (t : Thread) : option (Semaphore * Thread) :=
  while (slots (waiters s) + 1) serve_one (s, t).

Definition serve (s : Semaphore) (t : Thread) : option (Semaphore * Thread) :=
  if closed s then Some (s, t)
  else if permits s <? 0 then Some (s, t)
  else
    fits ← front_fits (permits s) (waiters s);
    if fits : bool then serve_waiters s t else Some (s, t).

Definition add_permits (n : Z) (s : Semaphore) (t : Thread) : option (Semaphore * Thread) :=
  let total := saturating_add (permits s) (Z.min n (MAX_PERMITS + 1)) in
  if total <=? MAX_PERMITS then serve (set_permits total s) t else None.

Definition forget_permits (n : Z) (s : Semaphore) : option (Z * Semaphore) :=
  let removed := Z.min n (available_permits s) in
  p ← sub_isize (permits s) removed;
  Some (removed, set_permits p s).

Definition acquire_many (n : Z) : option Acquire :=
  n ← checked_permits n;
  Some {| acquire_n := n; acquire_key := None |}.

Definition try_acquire_many (n : Z) (s : Semaphore) :
    option (Result SemaphorePermit TryAcquireError * Semaphore) :=
  n ← checked_permits n;
  if closed s then Some (Err TryClosed, s)
  else if negb (is_empty (waiters s)) || (permits s <? n) then Some (Err NoPermits, s)
  else
    p ← sub_isize (permits s) n;
    Some (Ok n, set_permits p s).

Definition close (s : Semaphore) (t : Thread) : option (Semaphore * Thread) :=
  if closed s then Some (s, t)
  else
    let s := set_closed true s in
    '(ws, t) ← wake_closed (waiters s) t;
    Some (set_waiters ws s, t).

Definition is_closed (s : Semaphore) : bool := closed s.

(** Takes [n] permits back and serves the line. *)
Definition release (n : Z) (s : Semaphore) (t : Thread) : option (Semaphore * Thread) :=
  serve (set_permits (saturating_add (permits s) n) s) t.

(** Takes back permits that were handed on, as a debt. *)
Definition debit (n : Z) (s : Semaphore) : option Semaphore :=
  p ← sub_isize (permits s) n;
  Some (set_permits p s).

Definition holds (n : Z) (s : Semaphore) : bool := permits s =? n.

(** Dropping a permit; [forget] makes it one of no permits first. *)
Definition drop_permit (p : SemaphorePermit) (s : Semaphore) (t : Thread) :
    option (Semaphore * Thread) :=
  if 0 <? p then release p s t else Some (s, t).

Definition forget_permit (p : SemaphorePermit) (s : Semaphore) (t : Thread) :
    option (Semaphore * Thread) :=
  drop_permit 0 s t.

(** Merging a permit of the same semaphore into another. *)
Definition merge (a b : SemaphorePermit) : option SemaphorePermit := add64 a b.

(** [Acquire::cancel] and [leave_line], which dropping the future calls. *)
Definition leave_line (a : Acquire) (s : Semaphore) (t : Thread) :
    option (Acquire * Semaphore * Thread) :=
  match acquire_key a with
  | None => Some (a, s, t)
  | Some key =>
      let a := set_acquire_key None a in
      '((st, was_front, _), ws) ← cancel key (waiters s);
      let s := set_waiters ws s in
      '(s, t) ←
        match st with
        | Waiting => if was_front : bool then serve s t else Some (s, t)
        | Granted => release (acquire_n a) s t
        | _ => Some (s, t)
        end;
      Some (a, s, t)
  end.

Definition acquire_cancel (a : Acquire) (s : Semaphore) (t : Thread) :
    option (Acquire * Semaphore * Thread) :=
  match acquire_key a with
  | Some _ => leave_line a s t
  | None => Some (a, s, t)
  end.

(** The world a poll runs in: the semaphore, the thread, and [G], what else
    the code that runs in a waker's clone reaches. [clone] is that code. *)
Section poll.
Context {G : Type}.
Definition World : Type := Semaphore * Thread * G.
Context (clone : World -> option World).

Definition get_waiters (x : World) : W := waiters x.1.1.
Definition put_waiters (ws : W) (x : World) : World := (set_waiters ws x.1.1, x.1.2, x.2).

(** Takes the permits at once if they are free and nobody waits. *)
Definition take_now (n : Z) (s : Semaphore) : option (option Semaphore) :=
  if is_empty (waiters s) && (n <=? permits s)
  then p ← sub_isize (permits s) n; Some (Some (set_permits p s))
  else Some None.

Definition queue_poll (a : Acquire) (w : Waker) (x : World) :
    option (Poll (Result SemaphorePermit AcquireError) * Acquire * World) :=
  '(s, t, g) ← clone x;
  if closed s then Some (Ready (Err AcquireClosed), a, (s, spent_one t, g))
  else
    taken ← take_now (acquire_n a) s;
    match taken with
    | Some s => Some (Ready (Ok (acquire_n a)), a, (s, spent_one t, g))
    | None =>
        '(key, ws) ← push (acquire_n a) w (waiters s);
        Some (Pending, set_acquire_key (Some key) a, (set_waiters ws s, t, g))
    end.

(** The part of [Acquire::poll] for a future that holds no place. *)
Definition first_poll (a : Acquire) (w : Waker) (x : World) :
    option (Poll (Result SemaphorePermit AcquireError) * Acquire * World) :=
  let '(s, t, g) := x in
  let '(spent, t) := exhausted w t in
  if spent : bool then Some (Pending, a, (s, t, g))
  else if closed s then Some (Ready (Err AcquireClosed), a, (s, spent_one t, g))
  else
    taken ← take_now (acquire_n a) s;
    match taken with
    | Some s => Some (Ready (Ok (acquire_n a)), a, (s, spent_one t, g))
    | None => queue_poll a w (s, t, g)
    end.

Definition acquire_poll (a : Acquire) (w : Waker) (x : World) :
    option (Poll (Result SemaphorePermit AcquireError) * Acquire * World) :=
  match acquire_key a with
  | None => first_poll a w x
  | Some key =>
      '(st, x) ← refresh get_waiters put_waiters clone key w x;
      match st with
      | Waiting => Some (Pending, a, x)
      | Granted =>
          ws ← take key (get_waiters x);
          Some (Ready (Ok (acquire_n a)), set_acquire_key None a, put_waiters ws x)
      | Closed =>
          ws ← take key (get_waiters x);
          Some (Ready (Err AcquireClosed), set_acquire_key None a, put_waiters ws x)
      | Free => first_poll (set_acquire_key None a) w x
      end
  end.
End poll.
End semaphore.

Arguments Semaphore W : clear implicits.
Arguments World W G : clear implicits.
