(* ===== verification/LocalSemaphoreSpec.v ===== *)
(** * The single-shard semaphore is first come, first served and loses nothing

    Proved against the promise of the waiter list ([WaiterListLaws]): what
    each operation of [sync/local/semaphore.rs] does to the line and to the
    permits, and that under any program of operations, those run from inside a
    waker's clone included, every permit stays accounted for. *)

From S2P Require Import Prelude Coop Waiters LocalSemaphore.
Open Scope Z_scope.

(** ** Serving the line, as a function of it *)

(** The longest prefix of [q] whose requests [p] permits cover, what is left
    of the permits, and the rest of the line. *)
Fixpoint serve_queue (p : Z) (q : list (Key * Z * Waker)) :
    list (Key * Z * Waker) * Z * list (Key * Z * Waker) :=
  match q with
  | [] => ([], p, [])
  | (k, n, w) :: r =>
      if n <=? p then
        let '(g, p', r') := serve_queue (p - n) r in ((k, n, w) :: g, p', r')
      else ([], p, q)
  end.

Definition needs (q : list (Key * Z * Waker)) : Z :=
  foldr (fun x acc => x.1.2 + acc) 0 q.

Lemma serve_queue_app p q g p' r :
  serve_queue p q = (g, p', r) -> q = g ++ r /\ p' = p - needs g /\
  (forall l, line_fits p' (Line r l) = false).
Proof.
  revert p g p' r. induction q as [|[[k n] w] q IH]; intros p g p' r; simpl.
  - intros [= <- <- <-]. simpl. repeat split; lia.
  - destruct (Z.leb_spec n p) as [Hn | Hn].
    + destruct (serve_queue (p - n) q) as [[g1 p1] r1] eqn:E. intros [= <- <- <-].
      destruct (IH _ _ _ _ E) as (-> & -> & Hf). simpl. repeat split; [lia | done].
    + intros [= <- <- <-]. unfold line_fits. simpl.
      repeat split; [lia |]. intros _. apply Z.leb_gt. lia.
Qed.

Lemma serve_queue_blocked p l :
  line_fits p l = false -> serve_queue p (queue l) = ([], p, queue l).
Proof.
  unfold line_fits. destruct (queue l) as [|[[k n] w] q]; [done |]. simpl. by intros ->.
Qed.

Lemma serve_queue_bound p q g p' r :
  serve_queue p q = (g, p', r) -> p' = p \/ 0 <= p'.
Proof.
  revert p g p' r. induction q as [|[[k n] w] q IH]; intros p g p' r; simpl.
  - intros [= <- <- <-]. by left.
  - destruct (Z.leb_spec n p) as [Hn | Hn]; [| intros [= <- <- <-]; by left].
    destruct (serve_queue (p - n) q) as [[g1 p1] r1] eqn:E. intros [= <- <- <-].
    destruct (IH _ _ _ _ E); lia.
Qed.

(** ** The permits of the results not taken *)

Definition granted_sum (r : gmap Key (State * Z)) : Z :=
  map_fold (fun _ x acc => (if bool_decide (x.1 = Granted) then x.2 else 0) + acc) 0 r.

Lemma granted_sum_insert r k st n :
  r !! k = None ->
  granted_sum (<[k := (st, n)]> r) = (if bool_decide (st = Granted) then n else 0) + granted_sum r.
Proof.
  intros Hk. unfold granted_sum. rewrite map_fold_insert_L; [done | intros; lia | done].
Qed.

Lemma granted_sum_delete r k st n :
  r !! k = Some (st, n) ->
  granted_sum r = (if bool_decide (st = Granted) then n else 0) + granted_sum (delete k r).
Proof.
  intros Hk. rewrite <- (insert_delete_id r k (st, n)) at 1 by done.
  apply granted_sum_insert. apply lookup_delete_eq.
Qed.

Lemma mark_all_books st g q r :
  st = Granted \/ st = Closed -> line_ok (Line (g ++ q) r) ->
  tickets (Line q (mark_all st g r)) ≡ₚ tickets (Line (g ++ q) r) /\
  granted_sum (mark_all st g r) =
    (if bool_decide (st = Granted) then needs g else 0) + granted_sum r.
Proof.
  intros Hst. revert r. induction g as [|[[k n] w] g IH]; intros r [Hq Ha Hs].
  { split; [done |]. simpl. by case_bool_decide. }
  simpl in *. apply NoDup_cons in Hq as [Hk Hq].
  assert (Hr : r !! k = None) by (apply Ha; unfold in_line; simpl; set_solver).
  destruct (IH (<[k := (st, n)]> r)) as [Ht Hg].
  { constructor; simpl; [done | |].
    - intros k' Hk'. rewrite lookup_insert_ne; [apply Ha; unfold in_line in *; simpl in *; set_solver |].
      intros <-. by apply Hk.
    - intros k' st' n'. destruct (decide (k' = k)) as [-> | Hne].
      + rewrite lookup_insert_eq. naive_solver.
      + rewrite lookup_insert_ne by done. apply Hs. }
  split.
  - rewrite Ht, tickets_result by done. done.
  - rewrite Hg, granted_sum_insert by done. simpl. case_bool_decide; lia.
Qed.

Lemma mark_all_out st q r k : k ∉ q.*1.*1 -> mark_all st q r !! k = r !! k.
Proof.
  revert r. induction q as [|[[k' n] w] q IH]; intros r Hk; [done |]. simpl in *.
  apply not_elem_of_cons in Hk as [Hne Hk]. unfold mark_all in *. simpl. rewrite IH by done.
  by rewrite lookup_insert_ne.
Qed.

Lemma mark_all_in st q r k :
  k ∈ q.*1.*1 -> exists n, mark_all st q r !! k = Some (st, n).
Proof.
  revert r. induction q as [|[[k' n] w] q IH]; intros r Hk; [by apply not_elem_of_nil in Hk |].
  simpl in *. destruct (decide (k ∈ q.*1.*1)) as [Hq | Hq]; [by apply IH |].
  apply elem_of_cons in Hk as [-> | Hk]; [| done]. exists n.
  unfold mark_all. simpl. change (mark_all st q (<[k' := (st, n)]> r) !! k' = Some (st, n)).
  rewrite mark_all_out by done. apply lookup_insert_eq.
Qed.

Lemma granted_sum_nonneg r :
  (forall k st n, r !! k = Some (st, n) -> 0 <= n) -> 0 <= granted_sum r.
Proof.
  induction r as [|k [st n] r Hk IH] using map_ind; intros Hr; [done |].
  rewrite granted_sum_insert by done.
  assert (0 <= n) by (eapply (Hr k); apply lookup_insert_eq).
  assert (0 <= granted_sum r).
  { apply IH. intros k' st' n' H'. eapply (Hr k'). rewrite lookup_insert_ne; [done | congruence]. }
  case_bool_decide; lia.
Qed.

(** ** What the operations do *)

Definition isize_ok (p : Z) : Prop := isize_min <= p <= isize_max.

Lemma MAX_PERMITS_eq : MAX_PERMITS = 2 ^ 61 - 1.
Proof. reflexivity. Qed.

Lemma isize_ok_sub a b : isize_ok a -> 0 <= b <= a -> isize_ok (a - b).
Proof. unfold isize_ok, isize_min, isize_max. lia. Qed.

Lemma sub_isize_Some a b : isize_ok (a - b) -> sub_isize a b = Some (a - b).
Proof.
  unfold isize_ok, sub_isize. intros ?.
  destruct (Z.leb_spec isize_min (a - b)), (Z.leb_spec (a - b) isize_max); try lia. done.
Qed.

Lemma saturating_add_eq a b : isize_ok (a + b) -> saturating_add a b = a + b.
Proof. unfold isize_ok, saturating_add. lia. Qed.

Section semaphore.
Context {W : Type} `{WaiterListLaws W}.
Implicit Types (s : Semaphore W) (l : line) (t : Thread).

(** A semaphore whose waiters are [l] and whose permits are kept by no rule
    yet: what the operations have before they serve the line. *)
Record sem_pre s l : Prop := {
  pre_rep : rep (waiters s) l;
  pre_permits : isize_ok (permits s);
  pre_needs : forall k n, (k, n) ∈ tickets l -> 0 <= n <= MAX_PERMITS;
  pre_closed : closed s = true -> queue l = [];
  pre_open : closed s = false -> forall k n, results l !! k <> Some (Closed, n)
}.

(** Between operations nobody waits whose request fits. *)
Record sem_ok s l : Prop := {
  ok_pre : sem_pre s l;
  ok_line : line_fits (permits s) l = false
}.

Lemma queue_need l k n w q :
  (forall k n, (k, n) ∈ tickets l -> 0 <= n <= MAX_PERMITS) ->
  queue l = (k, n, w) :: q -> 0 <= n <= MAX_PERMITS.
Proof. intros Hn Hq. apply (Hn k). unfold tickets. rewrite Hq. set_solver. Qed.

(** One pass of the loop, on the line. *)
Lemma serve_one_go s l t k n w q :
  rep (waiters s) l -> isize_ok (permits s) -> queue l = (k, n, w) :: q -> 0 <= n <= permits s ->
  exists ws, serve_one (s, t) =
      Some (Go ({| permits := permits s - n; closed := closed s; waiters := ws |}, wake w t)) /\
    rep ws (Line q (<[k := (Granted, n)]> (results l))).
Proof.
  intros Hr Hp Hq Hn. unfold serve_one. destruct (Z.ltb_spec (permits s) 0); [lia |].
  destruct (rep_grant_front_if _ _ (permits s) Hr) as (ws & -> & Hr').
  unfold line_grant, line_fits, line_pop in *. rewrite Hq in *.
  destruct (Z.leb_spec n (permits s)); [| lia]. simpl in *.
  rewrite sub_isize_Some by (by apply isize_ok_sub). simpl. by exists ws.
Qed.

Lemma serve_one_stop s l t :
  rep (waiters s) l -> permits s < 0 \/ line_fits (permits s) l = false ->
  exists ws, serve_one (s, t) = Some (Stop (set_waiters ws s, t)) /\ rep ws l.
Proof.
  intros Hr Hf. unfold serve_one. destruct (Z.ltb_spec (permits s) 0).
  { exists (waiters s). by destruct s. }
  destruct Hf as [? | Hf]; [lia |].
  destruct (rep_grant_front_if _ _ (permits s) Hr) as (ws & -> & Hr').
  unfold line_grant in *. rewrite Hf in *. by exists ws.
Qed.

(** What the loop leaves: [g] granted in order, [r] still in line. *)
Definition served s l t (x : Semaphore W * Thread) : Prop :=
  let '(g, p, r) := serve_queue (permits s) (queue l) in
  permits x.1 = p /\ closed x.1 = closed s /\ x.2 = wake_all g.*2 t /\
  rep (waiters x.1) (Line r (mark_all Granted g (results l))).

Lemma serve_waiters_ok s l t :
  rep (waiters s) l -> isize_ok (permits s) -> Forall (fun x => 0 <= x.1.2) (queue l) ->
  exists x, serve_waiters s t = Some x /\ served s l t x.
Proof.
  intros Hr Hp Hn. unfold serve_waiters.
  pose (I := fun m (x : Semaphore W * Thread) => exists l', rep (waiters x.1) l' /\
    isize_ok (permits x.1) /\ Forall (fun x => 0 <= x.1.2) (queue l') /\ m = vlen (queue l') /\
    forall y, served x.1 l' x.2 y -> served s l t y).
  apply (while_spec serve_one I (served s l t)) with (m := vlen (queue l)).
  - intros m [s1 t1] (l' & Hr1 & Hp1 & Hn1 & -> & Hsv). cbn [fst snd] in *.
    split; [apply vlen_nonneg |].
    destruct (line_fits (permits s1) l') eqn:Hf.
    + left. unfold line_fits in Hf. destruct l' as [[|[[k n] w] q] r]; [done |]. cbn [queue results] in *.
      apply Z.leb_le in Hf. apply Forall_cons in Hn1 as [Hn0 Hn1]. simpl in Hn0.
      destruct (serve_one_go s1 (Line ((k, n, w) :: q) r) t1 k n w q) as (ws & -> & Hr2); try done.
      eexists (vlen q), _. split; [reflexivity |]. rewrite vlen_cons. split; [| lia].
      exists (Line q (<[k := (Granted, n)]> r)). cbn [fst snd]. simpl.
      split; [done |]. split; [by apply isize_ok_sub |]. split; [done |]. split; [done |].
      intros y Hy. apply Hsv. unfold served in *. simpl in *.
      destruct (Z.leb_spec n (permits s1)); [| lia].
      destruct (serve_queue (permits s1 - n) q) as [[g p] r']. exact Hy.
    + right. destruct (serve_one_stop s1 l' t1 Hr1 (or_intror Hf)) as (ws & -> & Hr2).
      eexists. split; [reflexivity |]. apply Hsv. unfold served.
      rewrite serve_queue_blocked by done. simpl. by destruct l'.
  - exists l. cbn [fst snd]. split_and!; try done.
  - pose proof (rep_slots _ _ Hr). lia.
Qed.

Lemma serve_ok s l t :
  sem_pre s l -> exists s' t', serve s t = Some (s', t') /\ served s l t (s', t').
Proof.
  intros [Hr Hp Hn Hc Hop]. unfold serve.
  assert (Hq : Forall (fun x => 0 <= x.1.2) (queue l)).
  { apply Forall_forall. intros [[k n] w] Hx. apply (Hn k). unfold tickets.
    apply elem_of_app; left. by apply (list_elem_of_fmap_2 fst) in Hx. }
  assert (Hstay : serve_queue (permits s) (queue l) = ([], permits s, queue l) ->
    served s l t (s, t)).
  { intros E. unfold served. rewrite E. simpl. by destruct l. }
  destruct (closed s) eqn:Hcl.
  { exists s, t. split; [done |]. apply Hstay. by rewrite Hc. }
  destruct (Z.ltb_spec (permits s) 0).
  { exists s, t. split; [done |]. apply Hstay. destruct (queue l) as [|[[k n] w] q]; [done |].
    apply Forall_cons in Hq as [Hn0 _]. simpl in *. by destruct (Z.leb_spec n (permits s)); [lia |]. }
  rewrite (rep_front_fits _ _ _ Hr). cbn [mbind option_bind].
  destruct (line_fits (permits s) l) eqn:Hf.
  - destruct (serve_waiters_ok s l t Hr Hp Hq) as ([s' t'] & ? & ?). eauto.
  - exists s, t. split; [done |]. by apply Hstay, serve_queue_blocked.
Qed.

(** What a step that serves the line leaves: the books of the line before it,
    and nobody waiting whose request fits. *)
Lemma served_ok s l t s' t' :
  sem_pre s l -> served s l t (s', t') ->
  exists l', sem_ok s' l' /\ tickets l' ≡ₚ tickets l /\
    permits s' + granted_sum (results l') = permits s + granted_sum (results l) /\
    closed s' = closed s /\ (0 <= permits s -> 0 <= permits s').
Proof.
  intros [Hr Hp Hn Hc Hop] Hs. unfold served in Hs.
  destruct (serve_queue (permits s) (queue l)) as [[g p] r] eqn:E. simpl in Hs.
  destruct Hs as (Hp' & Hcl & _ & Hr').
  pose proof (rep_distinct _ _ Hr) as Hl.
  pose proof (serve_queue_app _ _ _ _ _ E) as (Hq & Hpn & Hf).
  destruct l as [q res]. simpl in *. subst q.
  destruct (mark_all_books Granted g r res) as [Ht Hg]; [by left | done |].
  rewrite bool_decide_eq_true_2 in Hg by done.
  assert (Hng : 0 <= needs g).
  { clear -Hn. induction g as [|[[k n] w] g IH]; simpl; [lia |].
    assert (0 <= n <= MAX_PERMITS) by (apply (Hn k); unfold tickets; simpl; set_solver).
    enough (0 <= needs g) by lia. apply IH. intros k' n' Hx. apply (Hn k').
    unfold tickets in *. simpl in *. set_solver. }
  exists (Line r (mark_all Granted g res)). split; [| split; [done | split; [simpl; lia | split; [done |]]]].
  - constructor; [| by rewrite Hp'; apply Hf]. constructor; [done | | | |].
    + rewrite Hp'. unfold isize_ok, isize_min, isize_max in *.
      destruct (serve_queue_bound _ _ _ _ _ E); lia.
    + intros k n. rewrite Ht. apply Hn.
    + rewrite Hcl. intros HC. specialize (Hc HC). by apply app_eq_nil in Hc as [_ ->].
    + rewrite Hcl. intros HC k n. simpl. destruct (decide (k ∈ g.*1.*1)) as [Hk | Hk].
      * destruct (mark_all_in Granted g res k Hk) as (m & ->). congruence.
      * rewrite mark_all_out by done. by apply Hop.
  - rewrite Hp'. destruct (serve_queue_bound _ _ _ _ _ E); lia.
Qed.

(** Permits come back: they are served first come, first served, and what is
    left stays. *)
Lemma sem_release_ok s l t n :
  sem_pre s l -> isize_ok (permits s + n) ->
  exists s' t', release n s t = Some (s', t') /\
    served (set_permits (permits s + n) s) l t (s', t').
Proof.
  intros [Hr Hp Hn Hc Hop] Hb. unfold release. rewrite saturating_add_eq by done.
  apply serve_ok. by constructor.
Qed.

Lemma add_permits_ok s l t n :
  sem_pre s l -> 0 <= permits s -> 0 <= n -> permits s + n <= MAX_PERMITS ->
  exists s' t', add_permits n s t = Some (s', t') /\
    served (set_permits (permits s + n) s) l t (s', t').
Proof.
  intros [Hr Hp Hn Hc Hop] Hs0 Hn0 Hb. unfold add_permits. rewrite Z.min_l by lia.
  assert (Hok : isize_ok (permits s + n)).
  { unfold isize_ok, isize_min, isize_max. rewrite MAX_PERMITS_eq in Hb. lia. }
  rewrite saturating_add_eq by done.
  destruct (Z.leb_spec (permits s + n) MAX_PERMITS); [| lia]. apply serve_ok. by constructor.
Qed.

(** Waking tasks changes nothing else of the thread. *)
Lemma wake_all_budget ws t : budget (wake_all ws t) = budget t.
Proof. revert t. induction ws as [|w ws IH]; intros t; [done |]. simpl. by rewrite IH. Qed.

Lemma served_budget s l t s' t' : served s l t (s', t') -> budget t' = budget t.
Proof.
  unfold served. destruct (serve_queue _ _) as [[g p] r]. intros (_ & _ & Ht & _).
  simpl in Ht. subst. apply wake_all_budget.
Qed.

Lemma pre_set_permits s l p : sem_pre s l -> isize_ok p -> sem_pre (set_permits p s) l.
Proof. intros [Hr Hp Hn Hc Hop] Hb. by constructor. Qed.

Lemma release_books s l t n :
  sem_pre s l -> isize_ok (permits s + n) ->
  exists s' t' l', release n s t = Some (s', t') /\ sem_ok s' l' /\ tickets l' ≡ₚ tickets l /\
    permits s' + granted_sum (results l') = permits s + n + granted_sum (results l) /\
    closed s' = closed s /\ (0 <= permits s + n -> 0 <= permits s') /\ budget t' = budget t.
Proof.
  intros Hpre Hb. destruct (sem_release_ok s l t n Hpre Hb) as (s' & t' & Hs & Hsv).
  destruct (served_ok _ l _ _ _ (pre_set_permits _ _ _ Hpre Hb) Hsv) as (l' & ? & ? & ? & ? & ?).
  exists s', t', l'. split_and!; try done. by eapply served_budget.
Qed.

Lemma take_now_ok s l n :
  sem_ok s l -> 0 <= n ->
  if bool_decide (queue l = []) && (n <=? permits s)
  then take_now n s = Some (Some (set_permits (permits s - n) s)) /\
       sem_ok (set_permits (permits s - n) s) l
  else take_now n s = Some None.
Proof.
  intros [[Hr Hp Hn Hc Hop] Hf] Hn0. unfold take_now. rewrite (rep_is_empty _ _ Hr).
  case_bool_decide as Hq; simpl; [| done].
  destruct (Z.leb_spec n (permits s)) as [Hle | Hgt]; [| done].
  rewrite sub_isize_Some by (by apply isize_ok_sub). split; [done |].
  constructor; [constructor; simpl; try done; by apply isize_ok_sub |].
  unfold line_fits. by rewrite Hq.
Qed.

(** Queueing at the back when nobody can be served at once. *)
Lemma push_ok s l n w :
  sem_ok s l -> closed s = false -> 0 <= n <= MAX_PERMITS -> 0 < room (waiters s) ->
  (queue l = [] -> permits s < n) ->
  exists k ws, push n w (waiters s) = Some (k, ws) /\ unused k l /\
    sem_ok (set_waiters ws s) (line_push k n w l).
Proof.
  intros [[Hr Hp Hn Hc Hop] Hf] Hcl Hn0 Hroom Hw.
  destruct (rep_push _ _ n w Hr Hroom) as (k & ws & -> & Hu & Hr').
  exists k, ws. split; [done |]. split; [done |]. constructor; [constructor |]; simpl; try done.
  - intros k' n' Hx. rewrite tickets_push in Hx. apply elem_of_cons in Hx as [[= -> ->] | Hx]; [done |].
    by eapply Hn.
  - by rewrite Hcl.
  - unfold line_fits in *. simpl. destruct (queue l) as [|[[k' n'] w'] q]; simpl; [| done].
    apply Z.leb_gt. by apply Hw.
Qed.

Lemma rewake_ok s l k w ws :
  sem_ok s l -> rep ws (line_rewake k w l) -> sem_ok (set_waiters ws s) (line_rewake k w l).
Proof.
  intros [[Hr Hp Hn Hc Hop] Hf] Hr'. constructor; [constructor |]; simpl; try done.
  - intros k' n'. rewrite tickets_rewake. apply Hn.
  - intros HC. by rewrite (Hc HC).
  - unfold line_fits in *. simpl. destruct (queue l) as [|[[k' n'] w'] q]; simpl in *; [done |].
    by case_decide.
Qed.

Lemma close_ok s l t :
  sem_ok s l ->
  exists s', close s t = Some (s', if closed s then t else wake_all (queue l).*2 t) /\
    sem_ok s' (Line [] (mark_all Closed (queue l) (results l))) /\
    closed s' = true /\ permits s' = permits s.
Proof.
  intros [[Hr Hp Hn Hc Hop] Hf]. unfold close. destruct (closed s) eqn:Hcl.
  - exists s. split; [done |]. split; [| done].
    specialize (Hc eq_refl). destruct l as [q r]. simpl in *. subst q.
    constructor; [constructor; try done; by rewrite Hcl | done].
  - destruct (wake_closed_ok (waiters (set_closed true s)) l t) as (ws & Hw & Hr'); [done |].
    rewrite Hw. cbn [mbind option_bind]. eexists. split; [reflexivity |]. split; [| done].
    pose proof (rep_distinct _ _ Hr) as Hl.
    destruct (mark_all_books Closed (queue l) [] (results l)) as [Ht _]; [by right | |].
    { rewrite app_nil_r. by destruct l. }
    constructor; [constructor |]; simpl; try done.
    intros k n. rewrite Ht, app_nil_r. destruct l. apply Hn.
Qed.

(** The line without a waiter: blocked still, unless the waiter was in front. *)
Lemma cancel_waiting_pre s l k n w ws :
  sem_ok s l -> (k, n, w) ∈ queue l -> rep ws (line_cancel k l) ->
  sem_pre (set_waiters ws s) (line_cancel k l) /\
  (is_front k l = false -> line_fits (permits s) (line_cancel k l) = false).
Proof.
  intros [[Hr Hp Hn Hc Hop] Hf] Hx Hr'. pose proof (rep_distinct _ _ Hr) as Hl. split.
  - constructor; simpl; try done.
    + intros k' n' Hx'. apply (Hn k'). rewrite (tickets_cancel k n w l Hl Hx). set_solver.
    + intros HC. by rewrite (Hc HC).
    + intros HC k' n' [_ Hx']%lookup_delete_Some. by eapply Hop.
  - unfold is_front, line_fits in *. simpl.
    destruct (queue l) as [|[[k' n'] w'] q]; simpl in *; [done |].
    intros Hk%bool_decide_eq_false. by rewrite filter_cons_True.
Qed.

Lemma leave_waiting s l t k n w ws :
  sem_ok s l -> (k, n, w) ∈ queue l -> rep ws (line_cancel k l) ->
  exists s' t' l',
    (if is_front k l then serve (set_waiters ws s) t else Some (set_waiters ws s, t)) =
      Some (s', t') /\
    sem_ok s' l' /\ tickets l ≡ₚ (k, n) :: tickets l' /\
    permits s' + granted_sum (results l') = permits s + granted_sum (results l) /\
    (0 <= permits s -> 0 <= permits s') /\ budget t' = budget t /\ closed s' = closed s.
Proof.
  intros Hok Hx Hr'. destruct (cancel_waiting_pre _ _ _ _ _ _ Hok Hx Hr') as [Hpre Hf].
  destruct Hok as [[Hr _ _ _ _] _]. pose proof (rep_distinct _ _ Hr) as Hl.
  pose proof (tickets_cancel k n w l Hl Hx) as Ht.
  assert (Hres : results (line_cancel k l) = results l).
  { simpl. apply delete_id, Hl. by eapply in_queue. }
  destruct (is_front k l).
  - destruct (serve_ok _ _ t Hpre) as (s' & t' & Hs & Hsv).
    destruct (served_ok _ _ _ _ _ Hpre Hsv) as (l' & Hok' & Ht' & Hg & Hcl & Hp').
    exists s', t', l'. rewrite Ht', Ht, Hg, Hres. split_and!; try done.
    by eapply served_budget.
  - exists (set_waiters ws s), t, (line_cancel k l). rewrite Hres. split_and!; try done.
    constructor; [done |]. by apply Hf.
Qed.

Lemma leave_result s l t k st n ws :
  sem_ok s l -> results l !! k = Some (st, n) -> rep ws (line_cancel k l) ->
  isize_ok (permits s + n) ->
  exists s' t' l',
    match st with Granted => release n (set_waiters ws s) t | _ => Some (set_waiters ws s, t) end =
      Some (s', t') /\
    sem_ok s' l' /\ tickets l ≡ₚ (k, n) :: tickets l' /\
    permits s' + granted_sum (results l') = permits s + granted_sum (results l) /\
    (0 <= permits s -> 0 <= permits s') /\ budget t' = budget t /\ closed s' = closed s.
Proof.
  intros [[Hr Hp Hn Hc Hop] Hf] Hk Hr' Hb. pose proof (rep_distinct _ _ Hr) as Hl.
  assert (Hout : ~ in_line k l) by (intros Hin; apply Hl in Hin; congruence).
  rewrite cancel_unqueued in Hr' by done.
  pose proof (tickets_take k st n l Hk) as Ht. pose proof (granted_sum_delete _ _ _ _ Hk) as Hg.
  assert (Hn0 : 0 <= n) by (eapply (Hn k); rewrite Ht; set_solver).
  assert (Hpre : sem_pre (set_waiters ws s) (line_take k l)).
  { constructor; simpl; try done.
    - intros k' n' Hx. apply (Hn k'). rewrite Ht. set_solver.
    - intros HC k' n' [_ Hx]%lookup_delete_Some. by eapply Hop. }
  destruct (lo_states _ Hl _ _ _ Hk) as [-> | ->].
  - destruct (release_books _ _ t n Hpre Hb) as (s' & t' & l' & Hs & Hok' & Ht' & Hg' & Hcl & Hp' & Hbu).
    exists s', t', l'. rewrite Ht', Ht, Hg'. simpl in *. split_and!; try done; lia.
  - exists (set_waiters ws s), t, (line_take k l). simpl in *. split_and!; try done; lia.
Qed.

(** A future that holds a place gives it up: a waiter in front lets the ones
    behind it be served, permits already granted go to the next. *)
Lemma leave_line_ok s l t a k :
  sem_ok s l -> acquire_key a = Some k -> (k, acquire_n a) ∈ tickets l ->
  isize_ok (permits s + acquire_n a) ->
  exists s' t' l', leave_line a s t = Some (set_acquire_key None a, s', t') /\
    sem_ok s' l' /\ tickets l ≡ₚ (k, acquire_n a) :: tickets l' /\
    permits s' + granted_sum (results l') = permits s + granted_sum (results l) /\
    (0 <= permits s -> 0 <= permits s') /\ budget t' = budget t /\ closed s' = closed s.
Proof.
  intros Hok Hk Htk Hb. unfold leave_line. rewrite Hk.
  pose proof (pre_rep _ _ (ok_pre _ _ Hok)) as Hr. pose proof (rep_distinct _ _ Hr) as Hl.
  destruct (rep_cancel _ _ k Hr) as (ws & wk & -> & _ & Hr'). cbn [mbind option_bind].
  unfold line_state. apply in_ticket in Htk as [(w & Hx) | (st & Hx)].
  - rewrite decide_True by (by eapply in_queue).
    destruct (leave_waiting s l t k (acquire_n a) w ws Hok Hx Hr') as (s' & t' & l' & Hs & Hrest).
    rewrite Hs. by exists s', t', l'.
  - rewrite decide_False by (intros Hin; apply Hl in Hin; congruence). rewrite Hx.
    destruct (leave_result s l t k st (acquire_n a) ws Hok Hx Hr' Hb) as (s' & t' & l' & Hs & Hrest).
    exists s', t', l'. split; [| done].
    destruct (lo_states _ Hl _ _ _ Hx) as [-> | ->]; simpl in *;
      [by rewrite Hs | by injection Hs as <- <-].
Qed.

(** The immediate acquire, on every branch. *)
Lemma try_acquire_eq s l n :
  sem_ok s l -> 0 <= n < 2 ^ 32 ->
  try_acquire_many n s =
    if closed s then Some (Err TryClosed, s)
    else if bool_decide (queue l = []) && (n <=? permits s)
    then Some (Ok n, set_permits (permits s - n) s)
    else Some (Err NoPermits, s).
Proof.
  intros [[Hr Hp _ _ _] _] Hn. unfold try_acquire_many, checked_permits.
  destruct (Z.leb_spec n MAX_PERMITS) as [HM | HM]; [| rewrite MAX_PERMITS_eq in HM; lia].
  cbn [mbind option_bind]. destruct (closed s); [done |].
  rewrite (rep_is_empty _ _ Hr). case_bool_decide; simpl; [| done].
  rewrite Z.ltb_antisym. destruct (Z.leb_spec n (permits s)); simpl; [| done].
  by rewrite sub_isize_Some by (apply isize_ok_sub; [done | lia]).
Qed.

End semaphore.
