(* ===== verification/LocalSemaphoreBooks.v ===== *)
(** * Programs over the single-shard semaphore keep the books

    Any program of the semaphore's public operations ([op]), those it runs
    from inside a waker's clone included, that makes no more permits than the
    semaphore may hold: every call answers, and every permit is free, granted
    and not yet taken, or held by a client, at all times. *)

From S2P Require Import Prelude Coop Waiters WaitersSlab LocalSemaphore LocalSemaphoreSpec.
Open Scope Z_scope.

(** What the clients have: the futures alive that are not in a poll, the
    permits they hold, and two counts of the whole: permits made (less those
    forgotten) and futures alive. *)
Record Clients : Type := {
  acquires : list Acquire;
  held : list SemaphorePermit;
  minted : Z;
  futures : Z
}.

Definition no_clients : Clients := {| acquires := []; held := []; minted := 0; futures := 0 |}.

Definition set_acquires x c :=
  {| acquires := x; held := held c; minted := minted c; futures := futures c |}.
Definition set_held x c :=
  {| acquires := acquires c; held := x; minted := minted c; futures := futures c |}.
Definition set_minted x c :=
  {| acquires := acquires c; held := held c; minted := x; futures := futures c |}.
Definition set_futures x c :=
  {| acquires := acquires c; held := held c; minted := minted c; futures := x |}.

(** One call a client makes. A call whose documented condition does not hold
    (a count out of range, an index of nothing) is not made. [inner] is what
    the waker of a poll does if it is cloned. *)
Inductive op : Type :=
| OAdd (n : Z)
| OForget (n : Z)
| OAcquire (n : Z)
| OTry (n : Z)
| OClose
| ODropPermit (i : nat)
| OForgetPermit (i : nat)
| OMerge (i j : nat)
| OCancel (i : nat)
| OPoll (i : nat) (w : Waker) (inner : list op).

Section clients.
Context {W : Type} `{WaiterListLaws W}.
Implicit Types (s : Semaphore W) (t : Thread) (c : Clients).

(** The permits a poll's answer carries. *)
Definition granted_by (r : Poll (Result SemaphorePermit AcquireError)) : list SemaphorePermit :=
  match r with Ready (Ok p) => [p] | _ => [] end.

Fixpoint run_op (o : op) (x : World W Clients) : option (World W Clients) :=
  let '(s, t, c) := x in
  let run_all := fix run_all (os : list op) x :=
    match os with
    | [] => Some x
    | o :: os => x ← run_op o x; run_all os x
    end in
  match o with
  | OAdd n =>
      if 0 <=? n then
        '(s, t) ← add_permits n s t;
        Some (s, t, set_minted (minted c + n) c)
      else Some x
  | OForget n =>
      if 0 <=? n then
        '(r, s) ← forget_permits n s;
        Some (s, t, set_minted (minted c - r) c)
      else Some x
  | OAcquire n =>
      if (0 <=? n) && (n <? 2 ^ 32) && (futures c <? isize_max) then
        a ← acquire_many n;
        Some (s, t, set_acquires (a :: acquires c) (set_futures (futures c + 1) c))
      else Some x
  | OTry n =>
      if (0 <=? n) && (n <? 2 ^ 32) then
        '(r, s) ← try_acquire_many n s;
        Some (s, t, match r with Ok p => set_held (p :: held c) c | Err _ => c end)
      else Some x
  | OClose => '(s, t) ← close s t; Some (s, t, c)
  | ODropPermit i =>
      match held c !! i with
      | Some p => '(s, t) ← drop_permit p s t; Some (s, t, set_held (delete i (held c)) c)
      | None => Some x
      end
  | OForgetPermit i =>
      match held c !! i with
      | Some p =>
          '(s, t) ← forget_permit p s t;
          Some (s, t, set_minted (minted c - p) (set_held (delete i (held c)) c))
      | None => Some x
      end
  | OMerge i j =>
      match held c !! i, delete i (held c) !! j with
      | Some p, Some q =>
          r ← merge p q;
          Some (s, t, set_held (r :: delete j (delete i (held c))) c)
      | _, _ => Some x
      end
  | OCancel i =>
      match acquires c !! i with
      | Some a =>
          '(_, s, t) ← acquire_cancel a s t;
          Some (s, t, set_acquires (delete i (acquires c)) (set_futures (futures c - 1) c))
      | None => Some x
      end
  | OPoll i w inner =>
      match acquires c !! i with
      | Some a =>
          '(r, a, (s, t, c)) ←
            acquire_poll (run_all inner) a w (s, t, set_acquires (delete i (acquires c)) c);
          Some (s, t, set_held (granted_by r ++ held c) (set_acquires (a :: acquires c) c))
      | None => Some x
      end
  end.

Fixpoint run_all (os : list op) (x : World W Clients) : option (World W Clients) :=
  match os with
  | [] => Some x
  | o :: os => x ← run_op o x; run_all os x
  end.

(** ** The books *)

Definition total (ps : list Z) : Z := foldr Z.add 0 ps.

(** [N] is what the clients keep to in the sizes they ask for, [C] in closing
    the semaphore and in making permits. *)
Context (N : Z -> Prop) (C : bool -> Z -> Prop).

Definition okp (p : SemaphorePermit) : Prop := 0 <= p /\ N p.

Definition ticket (a : Acquire) : option (Key * Z) :=
  option_map (fun k => (k, acquire_n a)) (acquire_key a).

(** [busy] are the futures in a poll, [out] the permits on their way to a
    client. *)
Record books (busy : list Acquire) (out : Z) s t c l : Prop := {
  bk_sem : sem_ok s l;
  bk_free : 0 <= permits s;
  bk_out : 0 <= out;
  bk_held : Forall okp (held c);
  bk_ledger : permits s + granted_sum (results l) + out + total (held c) = minted c;
  bk_minted : minted c <= MAX_PERMITS;
  bk_places : omap ticket (busy ++ acquires c) ≡ₚ tickets l;
  bk_sizes : Forall (fun a => 0 <= acquire_n a <= MAX_PERMITS /\ N (acquire_n a)) (busy ++ acquires c);
  bk_futures : vlen (busy ++ acquires c) = futures c /\ futures c <= isize_max;
  bk_budget : budget_ok t;
  bk_closed : C (closed s) (minted c)
}.

Definition sys_ok (busy : list Acquire) (out : Z) (x : World W Clients) : Prop :=
  let '(s, t, c) := x in exists l, books busy out s t c l.

Lemma total_nonneg ps : Forall okp ps -> 0 <= total ps.
Proof. induction 1 as [|p ps [Hp _] _ IH]; simpl; lia. Qed.

Lemma total_perm ps qs : ps ≡ₚ qs -> total ps = total qs.
Proof. induction 1; simpl; lia. Qed.

Lemma books_bounds busy out s t c l :
  books busy out s t c l ->
  0 <= granted_sum (results l) /\ 0 <= total (held c) /\ permits s <= MAX_PERMITS.
Proof.
  intros B. assert (0 <= granted_sum (results l)).
  { apply granted_sum_nonneg. intros k st n Hk.
    apply (pre_needs _ _ (ok_pre _ _ (bk_sem _ _ _ _ _ _ B)) k n). apply in_ticket. eauto. }
  pose proof (total_nonneg _ (bk_held _ _ _ _ _ _ B)).
  destruct B. lia.
Qed.

Lemma MAX_isize p : 0 <= p <= 2 * MAX_PERMITS -> isize_ok p.
Proof. rewrite MAX_PERMITS_eq. unfold isize_ok, isize_min, isize_max. lia. Qed.

(** The semaphore changed and the clients' permits with it; the futures did not. *)
Lemma books_same_futures busy out s t c l out' s' t' l' c' :
  books busy out s t c l -> acquires c' = acquires c -> futures c' = futures c ->
  sem_ok s' l' -> tickets l' ≡ₚ tickets l -> 0 <= permits s' -> 0 <= out' ->
  Forall okp (held c') ->
  permits s' + granted_sum (results l') + out' + total (held c') = minted c' ->
  minted c' <= MAX_PERMITS -> budget t' = budget t -> C (closed s') (minted c') ->
  books busy out' s' t' c' l'.
Proof.
  intros [] Ha Hf Hok Ht Hp Ho Hh Hm Hmm Hb HC. unfold budget_ok in *.
  constructor; unfold budget_ok; rewrite ?Ha, ?Hf, ?Hb; try done. by rewrite Ht.
Qed.

Lemma run_add busy out x n :
  (forall b m, C b m -> C b (m + n)) -> (0 <= n -> minted x.2 + n <= MAX_PERMITS) -> sys_ok busy out x ->
  exists x', run_op (OAdd n) x = Some x' /\ sys_ok busy out x' /\ minted x'.2 = minted x.2 + Z.max 0 n.
Proof.
  intros HCm Hmax. destruct x as [[s t] c]. intros [l B]. pose proof (books_bounds _ _ _ _ _ _ B) as (Hg & Ht & Hp).
  cbn [run_op snd] in *. destruct (Z.leb_spec 0 n) as [Hn|Hn]; [| eexists; split; [done |]; split; [by exists l | simpl; lia]].
  specialize (Hmax Hn). pose proof B as [Hok Hp0 Ho Hh Hl Hm _ _ _ Hbu HC].
  destruct (add_permits_ok s l t n (ok_pre _ _ Hok)) as (s' & t' & -> & Hs); [lia .. |].
  cbn [mbind option_bind].
  assert (Hb : isize_ok (permits s + n)) by (apply MAX_isize; lia).
  destruct (served_ok _ l _ _ _ (pre_set_permits _ _ _ (ok_pre _ _ Hok) Hb) Hs)
    as (l' & Hok' & Ht' & Hg' & Hcl & Hp'). simpl in Hg', Hp', Hcl.
  eexists. split; [reflexivity |]. split; [| simpl; lia]. exists l'.
  eapply books_same_futures; try done; simpl; try lia; [by eapply served_budget | rewrite Hcl; by apply HCm].
Qed.

Lemma run_forget busy out x n :
  (forall b m r, 0 <= r -> C b m -> C b (m - r)) -> sys_ok busy out x -> exists x', run_op (OForget n) x = Some x' /\ sys_ok busy out x'.
Proof.
  intros HCm. destruct x as [[s t] c]. intros [l B]. pose proof (books_bounds _ _ _ _ _ _ B) as (Hg & Ht & Hp).
  cbn [run_op]. destruct (Z.leb_spec 0 n); [| eexists; split; [done | by exists l]].
  pose proof B as [[[Hr Hpi Hn Hc Hop] Hf] Hp0 Ho Hh Hl Hm _ _ _ Hbu HC].
  unfold forget_permits, available_permits.
  rewrite sub_isize_Some by (apply isize_ok_sub; [done | lia]). cbn [mbind option_bind].
  eexists. split; [reflexivity |]. exists l.
  eapply books_same_futures; try done; simpl; try lia; [| apply HCm; [lia | done]].
  constructor; [constructor; simpl; try done; apply isize_ok_sub; [done | lia] |].
  unfold line_fits in *. simpl. destruct (queue l) as [|[[k m] w] q]; [done |].
  apply Z.leb_gt in Hf. apply Z.leb_gt. lia.
Qed.

Lemma run_try busy out x n :
  N n -> sys_ok busy out x -> exists x', run_op (OTry n) x = Some x' /\ sys_ok busy out x'.
Proof.
  intros HN. destruct x as [[s t] c]. intros [l B].
  cbn [run_op]. destruct (Z.leb_spec 0 n); simpl; [| eexists; split; [done | by exists l]].
  destruct (Z.ltb_spec n (2 ^ 32)); [| eexists; split; [done | by exists l]].
  pose proof B as [Hok Hp0 Ho Hh Hl Hm _ _ _ Hbu HC].
  unfold try_acquire_many, checked_permits.
  destruct (Z.leb_spec n MAX_PERMITS) as [HM | HM]; [| rewrite MAX_PERMITS_eq in HM; lia].
  cbn [mbind option_bind]. destruct (closed s) eqn:Hcl; [eexists; split; [done | by exists l] |].
  rewrite (rep_is_empty _ _ (pre_rep _ _ (ok_pre _ _ Hok))).
  pose proof (take_now_ok s l n Hok ltac:(lia)) as Ht. unfold take_now in Ht.
  rewrite (rep_is_empty _ _ (pre_rep _ _ (ok_pre _ _ Hok))) in Ht.
  case_bool_decide as Hq; simpl in *; [| eexists; split; [done | by exists l]].
  rewrite (Z.ltb_antisym n). destruct (Z.leb_spec n (permits s)); simpl in *;
    [| eexists; split; [done | by exists l]].
  destruct Ht as [Ht Hok']. destruct (sub_isize (permits s) n) as [p|]; [| done].
  simpl in Ht. injection Ht as ->. cbn [mbind option_bind].
  eexists. split; [reflexivity |]. exists l.
  eapply books_same_futures; try done; simpl; try lia; [by apply Forall_cons | by rewrite Hcl].
Qed.

Lemma run_close busy out x :
  (forall b m, C b m -> C true m) -> sys_ok busy out x -> exists x', run_op OClose x = Some x' /\ sys_ok busy out x'.
Proof.
  intros HCt. destruct x as [[s t] c]. intros [l B]. pose proof B as [Hok Hp0 Ho Hh Hl Hm _ _ _ Hbu HC].
  cbn [run_op]. destruct (close_ok s l t Hok) as (s' & -> & Hok' & Hc & Hp). cbn [mbind option_bind].
  eexists. split; [reflexivity |]. exists (Line [] (mark_all Closed (queue l) (results l))).
  pose proof (rep_distinct _ _ (pre_rep _ _ (ok_pre _ _ Hok))) as Hlo.
  destruct (mark_all_books Closed (queue l) [] (results l)) as [Ht Hg]; [by right | |].
  { rewrite app_nil_r. by destruct l. }
  rewrite app_nil_r in Ht. eapply (books_same_futures _ _ _ _ _ _ _ _ _ _ _ B); try done.
  - lia.
  - cbn [results]. rewrite Hg, bool_decide_eq_false_2 by done. lia.
  - destruct (closed s); [done | apply wake_all_budget].
  - rewrite Hc. by eapply HCt.
Qed.

Lemma held_split c i p :
  held c !! i = Some p -> Forall okp (held c) ->
  okp p /\ Forall okp (delete i (held c)) /\
  total (held c) = p + total (delete i (held c)).
Proof.
  intros Hi Hh. pose proof (delete_Permutation _ _ _ Hi) as Hp.
  rewrite Hp in Hh. apply Forall_cons in Hh as [? ?]. rewrite (total_perm _ _ Hp). done.
Qed.

Lemma run_drop_permit busy out x i :
  sys_ok busy out x -> exists x', run_op (ODropPermit i) x = Some x' /\ sys_ok busy out x'.
Proof.
  destruct x as [[s t] c]. intros [l B]. pose proof B as [Hok Hp0 Ho Hh Hl Hm _ _ _ Hbu HC].
  pose proof (books_bounds _ _ _ _ _ _ B) as (Hg & Ht & Hp). cbn [run_op].
  destruct (held c !! i) as [p|] eqn:Hi; [| eexists; split; [done | by exists l]].
  destruct (held_split c i p Hi Hh) as ([Hp1 HN1] & Hh' & Htot).
  pose proof (total_nonneg _ Hh'). unfold drop_permit.
  destruct (Z.ltb_spec 0 p).
  - destruct (release_books s l t p (ok_pre _ _ Hok))
      as (s' & t' & l' & -> & Hok' & Ht' & Hg' & Hcl & Hp' & Hb'); [apply MAX_isize; lia |].
    cbn [mbind option_bind]. eexists. split; [reflexivity |]. exists l'.
    eapply books_same_futures; try done; simpl; try lia. by rewrite Hcl.
  - cbn [mbind option_bind]. eexists. split; [reflexivity |]. exists l.
    eapply books_same_futures; try done; simpl; lia.
Qed.

Lemma run_forget_permit busy out x i :
  (forall b m r, 0 <= r -> C b m -> C b (m - r)) -> sys_ok busy out x -> exists x', run_op (OForgetPermit i) x = Some x' /\ sys_ok busy out x'.
Proof.
  intros HCm. destruct x as [[s t] c]. intros [l B]. pose proof B as [Hok Hp0 Ho Hh Hl Hm _ _ _ Hbu HC].
  pose proof (books_bounds _ _ _ _ _ _ B) as (Hg & Ht & Hp). cbn [run_op].
  destruct (held c !! i) as [p|] eqn:Hi; [| eexists; split; [done | by exists l]].
  destruct (held_split c i p Hi Hh) as ([Hp1 HN1] & Hh' & Htot).
  unfold forget_permit, drop_permit. simpl. eexists. split; [reflexivity |]. exists l.
  eapply books_same_futures; try done; simpl; try lia. by apply HCm.
Qed.

Lemma run_merge busy out x i j :
  (forall p q, N p -> N q -> N (p + q)) ->
  sys_ok busy out x -> exists x', run_op (OMerge i j) x = Some x' /\ sys_ok busy out x'.
Proof.
  intros HN. destruct x as [[s t] c]. intros [l B]. pose proof B as [Hok Hp0 Ho Hh Hl Hm _ _ _ Hbu HC].
  pose proof (books_bounds _ _ _ _ _ _ B) as (Hg & Ht & Hp). cbn [run_op].
  destruct (held c !! i) as [p|] eqn:Hi; [| eexists; split; [done | by exists l]].
  destruct (delete i (held c) !! j) as [q|] eqn:Hj; [| eexists; split; [done | by exists l]].
  destruct (held_split c i p Hi Hh) as ([Hp1 HN1] & Hh' & Htot).
  destruct (held_split (set_held (delete i (held c)) c) j q Hj Hh') as ([Hq1 HN2] & Hh'' & Htot').
  simpl in *. pose proof (total_nonneg _ Hh''). unfold merge.
  rewrite add64_Some by (unfold u64_max; rewrite MAX_PERMITS_eq in *; lia).
  cbn [mbind option_bind]. eexists. split; [reflexivity |]. exists l.
  eapply books_same_futures; try done; simpl; try lia. apply Forall_cons. split; [split; [lia | by apply HN] | done].
Qed.

Lemma run_acquire busy out x n :
  N n -> sys_ok busy out x -> exists x', run_op (OAcquire n) x = Some x' /\ sys_ok busy out x'.
Proof.
  intros HN. destruct x as [[s t] c]. intros [l B]. cbn [run_op].
  destruct (Z.leb_spec 0 n); simpl; [| eexists; split; [done | by exists l]].
  destruct (Z.ltb_spec n (2 ^ 32)); simpl; [| eexists; split; [done | by exists l]].
  destruct (Z.ltb_spec (futures c) isize_max); [| eexists; split; [done | by exists l]].
  unfold acquire_many, checked_permits.
  destruct (Z.leb_spec n MAX_PERMITS) as [HM | HM]; [| rewrite MAX_PERMITS_eq in HM; lia].
  cbn [mbind option_bind]. eexists. split; [reflexivity |]. exists l.
  destruct B as [Hok Hp0 Ho Hh Hl Hm Hpl Hsz [Hf Hf'] Hbu HC].
  constructor; simpl; try done.
  - rewrite <- Permutation_middle. done.
  - rewrite <- Permutation_middle. apply Forall_cons. split; [simpl; split; [lia | done] | done].
  - rewrite !vlen_app, !vlen_cons in *. lia.
Qed.

(** *** Futures *)

Lemma books_ticket busy out s t c l a k :
  books (a :: busy) out s t c l -> acquire_key a = Some k ->
  (k, acquire_n a) ∈ tickets l.
Proof.
  intros B Hk. rewrite <- (bk_places _ _ _ _ _ _ B). simpl. unfold ticket at 1. rewrite Hk.
  set_solver.
Qed.

Lemma books_perm busy busy' out s t c c' l :
  books busy out s t c l -> busy ++ acquires c ≡ₚ busy' ++ acquires c' ->
  held c' = held c -> minted c' = minted c -> futures c' = futures c ->
  books busy' out s t c' l.
Proof.
  intros [] Hp Hh Hm Hf. constructor; rewrite ?Hh, ?Hm, ?Hf, <- ?Hp; try done.
  split; [| tauto]. unfold vlen in *. rewrite <- (Permutation_length Hp). tauto.
Qed.

Lemma books_borrow busy out s t c l i a :
  books busy out s t c l -> acquires c !! i = Some a ->
  books (a :: busy) out s t (set_acquires (delete i (acquires c)) c) l.
Proof.
  intros B Hi. eapply books_perm; [exact B | | done ..]. simpl.
  rewrite (delete_Permutation _ _ _ Hi) at 1. by rewrite <- Permutation_middle.
Qed.

(** A future gave up or got its place's result, or got a place. *)
Lemma books_poll busy out s t c l a a' out' s' t' l' :
  books (a :: busy) out s t c l -> acquire_n a' = acquire_n a ->
  sem_ok s' l' -> 0 <= permits s' -> 0 <= out' ->
  permits s' + granted_sum (results l') + out' = permits s + granted_sum (results l) + out ->
  budget_ok t' -> C (closed s') (minted c) -> option_list (ticket a') ++ omap ticket (busy ++ acquires c) ≡ₚ tickets l' ->
  books (a' :: busy) out' s' t' c l'.
Proof.
  intros [] Hn Hok Hp Ho Hl Hb HC Ht. constructor; try done; try lia.
  - simpl. destruct (ticket a'); simpl in *; by rewrite Ht.
  - simpl in *. apply Forall_cons in bk_sizes0 as [? ?]. apply Forall_cons. by rewrite Hn.
Qed.

(** A future in hand is dropped. *)
Lemma books_done busy out s t c l a :
  books (set_acquire_key None a :: busy) out s t c l ->
  books busy out s t (set_futures (futures c - 1) c) l.
Proof.
  intros []. constructor; simpl in *; try done.
  - by apply Forall_cons in bk_sizes0 as [_ ?].
  - rewrite vlen_cons in *. lia.
Qed.

Lemma cancel_books busy out s t c l a :
  books (a :: busy) out s t c l ->
  exists s' t' l', acquire_cancel a s t = Some (set_acquire_key None a, s', t') /\
    books busy out s' t' (set_futures (futures c - 1) c) l' /\
    closed s' = closed s /\ budget t' = budget t.
Proof.
  intros B. pose proof (books_bounds _ _ _ _ _ _ B) as (Hg & Ht & Hp).
  unfold acquire_cancel. destruct (acquire_key a) as [k|] eqn:Hk.
  - pose proof B as [Hok Hp0 Ho _ _ _ Hpl Hsz _ Hbu HC]. simpl in Hpl, Hsz.
    apply Forall_cons in Hsz as [[Hsz HN] _].
    destruct (leave_line_ok s l t a k Hok Hk)
      as (s' & t' & l' & -> & Hok' & Ht' & Hg' & Hp' & Hb' & Hcl);
      [by eapply books_ticket | apply MAX_isize; destruct B; lia |].
    exists s', t', l'. split; [done |]. split; [| done]. apply (books_done _ _ _ _ _ _ a).
    eapply books_poll; try done;
      [by apply Hp' | lia | unfold budget_ok in *; by rewrite Hb' | by rewrite Hcl |].
    simpl. apply (Permutation_cons_inv (a := (k, acquire_n a))). rewrite <- Ht', <- Hpl.
    unfold ticket at 2. by rewrite Hk.
  - assert (a = set_acquire_key None a) as E by (destruct a; simpl in *; by subst).
    exists s, t, l. split; [by rewrite <- E |]. split; [| done].
    apply (books_done _ _ _ _ _ _ a). by rewrite <- E.
Qed.

Lemma run_cancel busy out x i :
  sys_ok busy out x -> exists x', run_op (OCancel i) x = Some x' /\ sys_ok busy out x'.
Proof.
  destruct x as [[s t] c]. intros [l B]. cbn [run_op].
  destruct (acquires c !! i) as [a|] eqn:Hi; [| eexists; split; [done | by exists l]].
  destruct (cancel_books _ _ _ _ _ _ _ (books_borrow _ _ _ _ _ _ _ _ B Hi))
    as (s' & t' & l' & -> & B' & _).
  cbn [mbind option_bind]. eexists. split; [reflexivity |]. by exists l'.
Qed.

(** **** Polls

    [cl] finds the clients in what else the world holds. [J] is what else holds
    of it before a poll and [J'] after one, which permits taken do not harm; the
    code a waker's clone runs may take the world from the one to the other. *)
Section polls.
Context {G : Type} (cl : G -> Clients).

Definition world_ok (J : Semaphore W -> G -> Prop) (busy : list Acquire) (out : Z) (x : World W G) : Prop :=
  let '(s, t, g) := x in exists l, books busy out s t (cl g) l /\ J s g.

Context (J J' : Semaphore W -> G -> Prop).
Hypothesis J_after : forall s g, J s g -> J' s g.
Hypothesis J_taken : forall s s' g,
  J' s g -> closed s' = closed s -> permits s' <= permits s -> J' s' g.

(** The code a waker's clone runs keeps the books. *)
Definition keeps (f : World W G -> option (World W G)) : Prop :=
  forall busy out x, world_ok J busy out x -> exists x', f x = Some x' /\ world_ok J' busy out x'.

Definition polled a busy out (y : option (Poll (Result SemaphorePermit AcquireError) * Acquire *
    World W G)) : Prop :=
  exists r a' x', y = Some (r, a', x') /\
    (acquire_n a' = acquire_n a /\ (granted_by r = [] \/ granted_by r = [acquire_n a]) /\
     (r = Ready (Err AcquireClosed) -> exists m, C true m)) /\
    world_ok J' (a' :: busy) (out + total (granted_by r)) x'.

Lemma books_room busy out s t c l a :
  books (a :: busy) out s t c l -> acquire_key a = None -> 0 < room (waiters s).
Proof.
  intros B Ha. pose proof B as [[[Hr _ _ _ _] _] _ _ _ _ _ Hpl _ [Hf Hf'] _ _].
  pose proof (rep_room _ _ Hr) as Hrm.
  enough (vlen (tickets l) < isize_max) by lia.
  assert (omap ticket ((a :: busy) ++ acquires c) = omap ticket (busy ++ acquires c)) as E
    by (simpl; unfold ticket at 1; by rewrite Ha).
  rewrite E in Hpl. apply Permutation_length in Hpl. unfold vlen in *. rewrite <- Hpl.
  pose proof (length_omap_le ticket (busy ++ acquires c)). cbn [app length] in Hf. lia.
Qed.

(** Taking the permits at once, in the first look or after the clone. *)
Lemma take_now_books busy out s t g l a :
  books (a :: busy) out s t (cl g) l -> J' s g -> acquire_key a = None ->
  if bool_decide (queue l = []) && (acquire_n a <=? permits s)
  then exists s', take_now (acquire_n a) s = Some (Some s') /\
       forall t', budget_ok t' -> world_ok J' (a :: busy) (out + acquire_n a) (s', t', g)
  else take_now (acquire_n a) s = Some None.
Proof.
  intros B HJ Ha. pose proof B as [Hok Hp0 Ho Hh Hl Hm Hpl Hsz _ Hbu HC].
  simpl in Hpl, Hsz. unfold ticket at 1 in Hpl. rewrite Ha in Hpl. simpl in Hpl.
  apply Forall_cons in Hsz as [[Hsz HN] _].
  pose proof (take_now_ok s l (acquire_n a) Hok ltac:(lia)) as Ht.
  case_bool_decide; simpl in *; [| done].
  destruct (Z.leb_spec (acquire_n a) (permits s)); [| done]. destruct Ht as [Ht Hok'].
  eexists. split; [exact Ht |]. intros t' Hb'. exists l.
  split; [| eapply J_taken; [exact HJ | done | simpl; lia]].
  eapply books_poll; try done; simpl; try lia. unfold ticket at 1. by rewrite Ha.
Qed.

Lemma books_spent busy out s t c l : books busy out s t c l -> budget_ok (spent_one t).
Proof.
  intros B. pose proof (bk_budget _ _ _ _ _ _ B). unfold budget_ok, spent_one, u64_max, u64_size in *.
  simpl. pose proof (Z.mod_pos_bound (budget t - 1) (2 ^ 64)). lia.
Qed.

Lemma books_thread busy out s t c l t' :
  books busy out s t c l -> budget_ok t' -> books busy out s t' c l.
Proof. intros [] Hb. by constructor. Qed.

Lemma queue_poll_ok clone a w busy out x :
  keeps clone -> acquire_key a = None -> world_ok J (a :: busy) out x ->
  polled a busy out (queue_poll clone a w x).
Proof.
  intros Hk Ha Hx. unfold queue_poll. destruct (Hk _ _ _ Hx) as ([[s t] g] & -> & [l [B HJ]]).
  cbn [mbind option_bind]. pose proof (books_spent _ _ _ _ _ _ B) as Hsp.
  pose proof (bk_closed _ _ _ _ _ _ B) as HCs.
  destruct (closed s) eqn:Hcl.
  { exists (Ready (Err AcquireClosed)), a, (s, spent_one t, g). split; [done |]. split; [split; [done | split; [by simpl; auto | by eauto]] |].
    simpl. rewrite Z.add_0_r. exists l. split; [by eapply books_thread | done]. }
  pose proof (take_now_books _ _ _ _ _ _ _ B HJ Ha) as Ht.
  destruct (bool_decide (queue l = []) && (acquire_n a <=? permits s)) eqn:Hn.
  { destruct Ht as (s' & -> & Hs'). cbn [mbind option_bind].
    exists (Ready (Ok (acquire_n a))), a, (s', spent_one t, g). split; [done |]. split; [split; [done | split; [by simpl; auto | by eauto]] |].
    simpl. rewrite Z.add_0_r. by apply Hs'. }
  rewrite Ht. cbn [mbind option_bind]. pose proof B as [Hok Hp0 Ho _ _ _ Hpl Hsz _ Hbu HC].
  simpl in Hpl, Hsz. unfold ticket at 1 in Hpl. rewrite Ha in Hpl. simpl in Hpl.
  apply Forall_cons in Hsz as [[Hsz HN] _].
  destruct (push_ok s l (acquire_n a) w Hok Hcl Hsz) as (k & ws & -> & Hu & Hok').
  { by eapply books_room. }
  { intros Hq. rewrite bool_decide_eq_true_2 in Hn by done. simpl in Hn. apply Z.leb_gt in Hn. lia. }
  cbn [mbind option_bind].
  eexists Pending, _, _. split; [reflexivity |]. split; [split; [done | split; [by simpl; auto | by eauto]] |]. simpl. rewrite Z.add_0_r.
  exists (line_push k (acquire_n a) w l). split; [| by eapply J_taken].
  eapply books_poll; try done.
  rewrite tickets_push. simpl. by rewrite Hpl.
Qed.

Lemma first_poll_ok clone a w busy out x :
  keeps clone -> acquire_key a = None -> world_ok J (a :: busy) out x ->
  polled a busy out (first_poll clone a w x).
Proof.
  intros Hk Ha Hx. destruct x as [[s t] g]. unfold first_poll. rewrite exhausted_spec.
  pose proof Hx as [l [B HJ]]. apply J_after in HJ. pose proof (books_spent _ _ _ _ _ _ B) as Hsp.
  pose proof (bk_closed _ _ _ _ _ _ B) as HCs.
  destruct (budget t =? 0).
  { eexists Pending, a, _. split; [reflexivity |]. split; [split; [done | split; [by simpl; auto | by eauto]] |]. simpl. rewrite Z.add_0_r.
    exists l. split; [| done]. eapply books_thread; [done |]. apply (bk_budget _ _ _ _ _ _ B). }
  destruct (closed s) eqn:Hcl.
  { exists (Ready (Err AcquireClosed)), a, (s, spent_one t, g). split; [done |]. split; [split; [done | split; [by simpl; auto | by eauto]] |].
    simpl. rewrite Z.add_0_r. exists l. split; [by eapply books_thread | done]. }
  pose proof (take_now_books _ _ _ _ _ _ _ B HJ Ha) as Ht.
  destruct (bool_decide (queue l = []) && (acquire_n a <=? permits s)).
  { destruct Ht as (s' & -> & Hs'). cbn [mbind option_bind].
    exists (Ready (Ok (acquire_n a))), a, (s', spent_one t, g). split; [done |]. split; [split; [done | split; [by simpl; auto | by eauto]] |].
    simpl. rewrite Z.add_0_r. by apply Hs'. }
  rewrite Ht. cbn [mbind option_bind]. by apply queue_poll_ok.
Qed.

Lemma refresh_ok clone a k w busy out x :
  keeps clone -> acquire_key a = Some k -> world_ok J (a :: busy) out x ->
  exists s t g l, refresh get_waiters put_waiters clone k w x =
      Some (line_state k l, (s, t, g)) /\ books (a :: busy) out s t (cl g) l /\ J' s g.
Proof.
  intros Hk Ha Hx. unfold refresh. destruct x as [[s t] g]. pose proof Hx as [l [B HJ]].
  unfold get_waiters at 1. cbn [fst].
  destruct (rep_refresh_look _ _ k w (pre_rep _ _ (ok_pre _ _ (bk_sem _ _ _ _ _ _ B)))) as (same & -> & _).
  destruct same; [exists s, t, g, l; auto |].
  destruct (Hk _ _ _ Hx) as ([[s' t'] g'] & -> & [l' [B' HJ']]). cbn [mbind option_bind].
  unfold get_waiters. cbn [fst].
  destruct (rep_refresh_clone _ _ k w (pre_rep _ _ (ok_pre _ _ (bk_sem _ _ _ _ _ _ B')))) as (ws & -> & Hr).
  exists (set_waiters ws s'), t', g', (line_rewake k w l'). split.
  - unfold put_waiters. simpl. by rewrite line_state_rewake.
  - split; [| by eapply J_taken].
    pose proof B' as [Hok Hp0 Ho _ _ _ Hpl _ _ Hbu HC]. eapply books_poll; try done; [by apply rewake_ok |].
    rewrite tickets_rewake, <- Hpl. simpl. by destruct (ticket a).
Qed.

(** A future takes the result of its place. *)
Lemma take_books busy out s t g l a k st n :
  books (a :: busy) out s t (cl g) l -> J' s g -> acquire_key a = Some k ->
  results l !! k = Some (st, n) ->
  exists ws, take k (waiters s) = Some ws /\
    world_ok J' (set_acquire_key None a :: busy)
      (out + if bool_decide (st = Granted) then acquire_n a else 0) (set_waiters ws s, t, g).
Proof.
  intros B HJ Ha Hr. pose proof B as [Hok Hp0 Ho _ _ _ Hpl Hsz _ Hbu HC].
  pose proof Hok as [[Hrep Hpi Hn Hc Hop] Hf]. pose proof (rep_distinct _ _ Hrep) as Hl.
  simpl in Hsz. apply Forall_cons in Hsz as [[Hsz HN] _].
  assert (n = acquire_n a) as ->.
  { eapply ticket_unique; [exact Hl | | by eapply books_ticket]. apply in_ticket. eauto. }
  destruct (rep_take _ _ k Hrep) as (ws & -> & Hrep').
  pose proof (tickets_take k st (acquire_n a) l Hr) as Ht.
  pose proof (granted_sum_delete _ _ _ _ Hr) as Hg.
  exists ws. split; [done |]. exists (line_take k l). split; [| by eapply J_taken].
  eapply books_poll; try done; simpl.
  - constructor; [constructor; simpl; try done | done].
    + intros k' n' Hx. apply (Hn k'). rewrite Ht. apply elem_of_cons. by right.
    + intros HCl k' n' [_ Hx]%lookup_delete_Some. by eapply Hop.
  - case_bool_decide; lia.
  - case_bool_decide; lia.
  - apply (Permutation_cons_inv (a := (k, acquire_n a))). rewrite <- Ht, <- Hpl.
    simpl. unfold ticket at 2. by rewrite Ha.
Qed.

Lemma acquire_poll_ok clone a w busy out x :
  keeps clone -> world_ok J (a :: busy) out x -> polled a busy out (acquire_poll clone a w x).
Proof.
  intros Hk Hx. unfold acquire_poll. destruct (acquire_key a) as [k|] eqn:Ha; [| by apply first_poll_ok].
  destruct (refresh_ok clone a k w busy out x Hk Ha Hx) as (s & t & g & l & -> & B & HJ).
  cbn [mbind option_bind]. pose proof (books_ticket _ _ _ _ _ _ _ _ B Ha) as Htk.
  pose proof (rep_distinct _ _ (pre_rep _ _ (ok_pre _ _ (bk_sem _ _ _ _ _ _ B)))) as Hl.
  unfold line_state. apply in_ticket in Htk as [(wk & Hq) | (st & Hr)].
  - rewrite decide_True by (by eapply in_queue).
    eexists Pending, a, _. split; [reflexivity |]. split; [split; [done | split; [by simpl; auto | by eauto]] |]. simpl. rewrite Z.add_0_r.
    by exists l.
  - rewrite decide_False by (intros Hin; apply Hl in Hin; congruence). rewrite Hr.
    destruct (take_books _ _ _ _ _ _ _ _ _ _ B HJ Ha Hr) as (ws & Ht & Hs).
    unfold get_waiters, put_waiters. cbn [fst snd].
    destruct (lo_states _ Hl _ _ _ Hr) as [-> | ->]; rewrite Ht; cbn [mbind option_bind].
    + eexists (Ready (Ok (acquire_n a))), _, _. split; [reflexivity |]. split; [split; [done | split; [by simpl; auto | by eauto]] |].
      cbn [granted_by total foldr]. by rewrite Z.add_0_r.
    + eexists (Ready (Err AcquireClosed)), _, _. split; [reflexivity |].
      split; [| done]. split; [done |]. split; [by simpl; auto |]. intros _.
      pose proof (bk_closed _ _ _ _ _ _ B) as HCs. destruct (closed s) eqn:Hcl; [by eauto |].
      exfalso. eapply (pre_open _ _ (ok_pre _ _ (bk_sem _ _ _ _ _ _ B))); done.
Qed.
End polls.

(** A poll answered: the future is the client's again, and what it was given. *)
Lemma books_answer busy out s t c l a g :
  books (a :: busy) (out + total g) s t c l -> g = [] \/ g = [acquire_n a] -> 0 <= out ->
  books busy out s t (set_held (g ++ held c) (set_acquires (a :: acquires c) c)) l.
Proof.
  intros [? ? Ho ? ? ? Hpl Hsz [Hf Hf'] ? ?] Hg Hout.
  assert (Ha : okp (acquire_n a)).
  { simpl in Hsz. apply Forall_cons in Hsz as [[? ?] _]. split; [lia | done]. }
  assert (Hgt : Forall okp g) by (destruct Hg as [-> | ->]; [done | by apply Forall_singleton]).
  assert (Happ : total (g ++ held c) = total g + total (held c)).
  { destruct Hg as [-> | ->]; simpl; lia. }
  constructor; cbn [set_held set_acquires acquires held minted futures];
    rewrite <- ?Permutation_middle; try done; try lia.
  - by apply Forall_app.
  - split; [| done]. rewrite <- Hf. unfold vlen.
    by rewrite <- (Permutation_length (Permutation_middle _ _ a)).
Qed.

(** The calls keep to [N] and [C]. *)
Fixpoint keeps_to (o : op) : Prop :=
  match o with
  | OAcquire n | OTry n => N n
  | OClose => forall b m, C b m -> C true m
  | OAdd n => forall b m, C b m -> C b (m + n)
  | OForget _ | OForgetPermit _ => forall b m r, 0 <= r -> C b m -> C b (m - r)
  | OMerge _ _ => forall p q, N p -> N q -> N (p + q)
  | OPoll _ _ inner => foldr (fun o P => keeps_to o /\ P) True inner
  | _ => True
  end.
End clients.

(** ** Programs of the public calls *)

(** The permits a program asks to add, those of the code in its wakers' clones
    included. *)
Fixpoint asks (o : op) : Z :=
  match o with
  | OAdd n => Z.max 0 n
  | OPoll _ _ inner => foldr (fun o m => asks o + m) 0 inner
  | _ => 0
  end.
Definition asks_all (os : list op) : Z := foldr (fun o m => asks o + m) 0 os.

Fixpoint asks_nonneg (o : op) : 0 <= asks o.
Proof.
  destruct o as [n| | | | | | | | |i w inner]; cbn [asks]; try lia.
  induction inner as [|o inner IH]; cbn [foldr]; [lia |]. pose proof (asks_nonneg o). lia.
Qed.

Lemma asks_all_nonneg os : 0 <= asks_all os.
Proof. unfold asks_all. induction os as [|o os IH]; cbn [foldr]; [lia |]. pose proof (asks_nonneg o). lia. Qed.

Section programs.
Context {W : Type} `{WaiterListLaws W} (N : Z -> Prop) (C : bool -> Z -> Prop).
Implicit Types (s : Semaphore W) (t : Thread) (c : Clients).

(** [r] permits more can be made. *)
Definition roomy (r : Z) (b : bool) (m : Z) : Prop := C b m /\ m + r <= MAX_PERMITS.

Lemma books_roomy r busy out s t c l :
  books N (roomy r) busy out s t c l <-> books N C busy out s t c l /\ minted c + r <= MAX_PERMITS.
Proof.
  split; [intros [? ? ? ? ? ? ? ? ? ? []]; by split | intros [[] ?]; constructor; try done; by split].
Qed.

(** A program that asks for [k] leaves the room there was beyond it. *)
Definition keeps_room (k : Z) (f : World W Clients -> option (World W Clients)) : Prop :=
  forall r busy out x, 0 <= r -> sys_ok N (roomy (k + r)) busy out x ->
  exists x', f x = Some x' /\ sys_ok N (roomy r) busy out x'.

Lemma run_add_room n : (forall b m, C b m -> C b (m + n)) -> keeps_room (Z.max 0 n) (run_op (OAdd n)).
Proof.
  intros HC r busy out [[s t] c] Hr [l [B Hm]%books_roomy].
  destruct (run_add N C busy out (s, t, c) n HC) as ([[s' t'] c'] & -> & [l' B'] & Hm'); [cbn; lia | by exists l |].
  cbn in Hm'. eexists. split; [done |]. exists l'. apply books_roomy. split; [done | lia].
Qed.

Lemma run_poll_room i w inner k : 0 <= k -> keeps_room k (run_all inner) -> keeps_room k (run_op (OPoll i w inner)).
Proof.
  intros Hk0 Hk r busy out [[s t] c] Hr [l [B Hm]%books_roomy]. cbn [run_op]. fold (@run_all W _).
  destruct (acquires c !! i) as [a|] eqn:Hi; [| eexists; split; [done |]; exists l; apply books_roomy; split; [done | lia]].
  pose proof (books_borrow _ _ _ _ _ _ _ _ _ _ B Hi) as B1.
  destruct (acquire_poll_ok N C (fun c => c) (fun _ c => minted c + (k + r) <= MAX_PERMITS) (fun _ c => minted c + r <= MAX_PERMITS)
    ltac:(cbn; intros; lia) ltac:(done) (run_all inner) a w busy out (s, t, set_acquires (delete i (acquires c)) c))
    as (r' & a' & [[s' t'] c'] & -> & (Hn & Hgr & _) & l' & B' & Hm').
  - intros busy' out' [[s1 t1] c1] [l1 [B2 Hm2]]. destruct (Hk r busy' out' (s1, t1, c1) Hr) as ([[s2 t2] c2] & -> & l2 & [B3 Hm3]%books_roomy).
    { exists l1. by apply books_roomy. }
    eexists. split; [done |]. by exists l2.
  - by exists l.
  - cbn [mbind option_bind]. eexists. split; [reflexivity |]. exists l'. apply books_roomy. split; [| done].
    apply books_answer; [done | by rewrite Hn | apply (bk_out _ _ _ _ _ _ _ _ B)].
Qed.

Lemma keeps_room_list os :
  Forall (fun o => keeps_room (asks o) (run_op o)) os -> keeps_room (asks_all os) (run_all os).
Proof.
  induction 1 as [|o os Ho _ IH]; intros r busy out x Hr Hx; [by exists x |]. cbn [run_all]. pose proof (asks_all_nonneg os).
  change (asks_all (o :: os)) with (asks o + asks_all os) in Hx. rewrite <- Z.add_assoc in Hx.
  destruct (Ho (asks_all os + r) busy out x ltac:(lia) Hx) as (x1 & -> & Hx1). cbn [mbind option_bind]. by apply IH.
Qed.

(** Programs, by the structure of their calls. *)
Fixpoint run_op_room (o : op) : keeps_to N C o -> keeps_room (asks o) (run_op o).
Proof.
  intros HN.
  destruct o as [n|n|n|n| |i|i|i j|i|i w inner]; [by apply run_add_room | intros r busy out x Hr Hx; cbn [asks Z.add] in Hx ..|].
  - apply run_forget; [| done]. intros b m d Hd [HC ?]. split; [by apply HN | lia].
  - by apply run_acquire.
  - by apply run_try.
  - apply run_close; [| done]. intros b m [HC ?]. split; [by eapply HN | lia].
  - by apply run_drop_permit.
  - apply run_forget_permit; [| done]. intros b m d Hd [HC ?]. split; [by apply HN | lia].
  - by apply run_merge.
  - by apply run_cancel.
  - apply run_poll_room; [apply (asks_all_nonneg inner) |]. apply keeps_room_list.
    induction inner as [|o inner IH]; [done |]. destruct HN as [Ho HN]. constructor; [by apply run_op_room | by apply IH].
Qed.

(** A call that asks for no permits, whatever room there is. *)
Lemma run_op_ok o busy out x :
  keeps_to N C o -> asks o = 0 -> sys_ok N C busy out x -> exists x', run_op o x = Some x' /\ sys_ok N C busy out x'.
Proof.
  intros Ho Ha. destruct x as [[s t] c]. intros [l B].
  destruct (run_op_room o Ho 0 busy out (s, t, c) ltac:(lia)) as ([[s' t'] c'] & -> & l' & [B' _]%books_roomy).
  - rewrite Ha. exists l. apply books_roomy. split; [done |]. pose proof (bk_minted _ _ _ _ _ _ _ _ B). lia.
  - eexists. split; [done |]. by exists l'.
Qed.
End programs.

(** A program that keeps to nothing. *)
Fixpoint any_call (o : op) : keeps_to (fun _ => True) (fun _ _ => True) o.
Proof.
  destruct o as [| | | | | | |i j| |i w inner]; cbn [keeps_to];
    try (intros; exact I).
  induction inner as [|o inner IH]; [exact I |]. split; [apply any_call | apply IH].
Qed.

(** ** The properties *)

Lemma semaphore_new_ok {W} `{WaiterListLaws W} n :
  0 <= n <= MAX_PERMITS ->
  exists s : Semaphore W, semaphore_new n = Some s /\ permits s = n /\ closed s = false /\
    sem_ok s line_new.
Proof.
  intros Hn. unfold semaphore_new. destruct (Z.leb_spec n MAX_PERMITS); [| lia].
  eexists. split; [reflexivity |]. split; [done |]. split; [done |].
  constructor; [constructor |]; simpl; try done.
  - apply rep_new.
  - apply MAX_isize. lia.
  - intros k m Hx. by apply not_elem_of_nil in Hx.
Qed.

Lemma book_needs {W} `{WaiterListLaws W} N C busy out (s : Semaphore W) t c l k n :
  books N C busy out s t c l -> (k, n) ∈ tickets l -> N n.
Proof.
  intros B Hx. rewrite <- (bk_places _ _ _ _ _ _ _ _ B) in Hx.
  apply list_elem_of_omap in Hx as (a & Ha & Ht). unfold ticket in Ht.
  destruct (acquire_key a); [| done]. simpl in Ht. injection Ht as -> <-.
  pose proof (bk_sizes _ _ _ _ _ _ _ _ B) as Hs. rewrite Forall_forall in Hs. by apply Hs.
Qed.

(** C22. A semaphore keeps its books under every program of public calls,
    calls made from inside a waker's clone included, that asks to add no more
    permits than make it [MAX_PERMITS] with those it began with: no call panics,
    every permit made is free, granted and not yet taken, or held by a client;
    the places in the list are those of the futures alive; and whenever the
    semaphore is open the request in front does not fit the free permits, when
    it is closed nobody waits. Beyond that bound [add_permits], which checks the
    free permits alone, lets the semaphore hold more than [MAX_PERMITS] and
    panics later: [overfull_semaphore_panics]. *)
Theorem semaphore_accounts {W} `{WaiterListLaws W} n os :
  0 <= n -> n + asks_all os <= MAX_PERMITS ->
  exists (s0 s : Semaphore W) t c l,
    semaphore_new n = Some s0 /\
    run_all os (s0, thread_new, set_minted n no_clients) = Some (s, t, c) /\
    rep (waiters s) l /\ 0 <= permits s /\
    permits s + granted_sum (results l) + total (held c) = minted c /\
    omap ticket (acquires c) ≡ₚ tickets l /\
    line_fits (permits s) l = false /\ (closed s = true -> queue l = []).
Proof.
  intros Hn Ha. pose proof (asks_all_nonneg os).
  destruct (semaphore_new_ok (W := W) n ltac:(lia)) as (s0 & Hs0 & Hp & Hcl & Hok).
  assert (Hall : Forall (fun o => keeps_room (W := W) (fun _ => True) (fun _ _ => True) (asks o) (run_op o)) os)
    by (apply Forall_forall; intros o _; apply run_op_room, any_call).
  destruct (keeps_room_list _ _ os Hall 0 [] 0 (s0, thread_new, set_minted n no_clients) ltac:(lia)) as ([[s t] c] & Hr & l & B).
  { exists line_new. constructor; simpl; try done; try lia; [change (granted_sum ∅) with 0; lia |]. split; [done | lia]. }
  exists s0, s, t, c, l. destruct B as [[[] ?]]. split_and!; try done. lia.
Qed.

Lemma semaphore_accounts_witness :
  exists (s0 s : Semaphore Slab) t c l,
    semaphore_new 1 = Some s0 /\
    run_all [OTry 1; OAcquire 1; OPoll 0 4 [ODropPermit 0; OTry 1; OAdd 3]; OCancel 0]
      (s0, thread_new, set_minted 1 no_clients) = Some (s, t, c) /\
    rep (waiters s) l /\ 0 <= permits s /\
    permits s + granted_sum (results l) + total (held c) = minted c /\
    omap ticket (acquires c) ≡ₚ tickets l /\
    line_fits (permits s) l = false /\ (closed s = true -> queue l = []).
Proof. apply semaphore_accounts; vm_compute; discriminate. Defined.

(** A semaphore made with all the permits it may hold: with one of them held,
    one more is added; when the held one is given back the semaphore holds one
    too many, and an [add_permits(0)] panics. *)
Lemma overfull_semaphore_panics :
  let full : World Slab Clients := ({| permits := MAX_PERMITS; closed := false; waiters := slab_new |}, thread_new, set_minted MAX_PERMITS no_clients) in
  semaphore_new MAX_PERMITS = Some full.1.1 /\
  option_map (fun x => permits x.1.1) (run_all [OTry 1; OAdd 1; ODropPermit 0] full) = Some (MAX_PERMITS + 1) /\
  run_all [OTry 1; OAdd 1; ODropPermit 0; OAdd 0] full = None.
Proof. split_and!; vm_compute; reflexivity. Qed.

(** C23. Permits that come back go to the line first come, first served: the
    longest prefix of the line the permits cover is granted, each of it woken
    once in order, nobody behind it passes, and the rest of the permits stays
    free. *)
Theorem release_serves_in_order {W} `{WaiterListLaws W} (s : Semaphore W) l t n :
  sem_ok s l -> 0 <= n -> isize_ok (permits s + n) ->
  let '(g, p, r) := serve_queue (permits s + n) (queue l) in
  exists s', release n s t = Some (s', wake_all g.*2 t) /\
    permits s' = p /\ closed s' = closed s /\
    rep (waiters s') (Line r (mark_all Granted g (results l))) /\
    queue l = g ++ r /\ p = permits s + n - needs g.
Proof.
  intros Hok Hn Hb. destruct (sem_release_ok s l t n (ok_pre _ _ Hok) Hb) as (s' & t' & Hr & Hs).
  unfold served in Hs. simpl in Hs.
  destruct (serve_queue (permits s + n) (queue l)) as [[g p] r] eqn:E.
  destruct (serve_queue_app _ _ _ _ _ E) as (Hq & Hp & _).
  destruct Hs as (Hp' & Hc & Ht & Hrep). simpl in *. subst t'. by exists s'.
Qed.

(** A semaphore of no permits with two waiters, for one permit and for two. *)
Definition demo_semaphore : option (Semaphore Slab) :=
  s ← semaphore_new (W := Slab) 0;
  '(_, ws) ← push 1 7 (waiters s);
  '(_, ws) ← push 2 8 ws;
  Some (set_waiters ws s).

Definition demo_line : line :=
  Line [({| key_index := 0; key_generation := 0 |}, 1, 7);
        ({| key_index := 1; key_generation := 0 |}, 2, 8)] ∅.

Definition demo_sem : Semaphore Slab :=
  match demo_semaphore with Some s => s | None => {| permits := 0; closed := false; waiters := new |} end.

Lemma demo_sem_ok : sem_ok demo_sem demo_line.
Proof.
  destruct (slab_rep_push slab_new line_new 1 7 slab_rep_new) as (k1 & s1 & H1 & _ & R1); [done |].
  destruct (slab_rep_push s1 _ 2 8 R1) as (k2 & s2 & H2 & _ & R2).
  { vm_compute in H1. injection H1 as <- <-. done. }
  vm_compute in H1. injection H1 as <- <-. vm_compute in H2. injection H2 as <- <-.
  constructor; [constructor |]; try done.
  intros k n Hx.
  assert (tickets demo_line = [({| key_index := 0; key_generation := 0 |}, 1);
    ({| key_index := 1; key_generation := 0 |}, 2)]) as E by reflexivity.
  rewrite E, !elem_of_cons in Hx.
  destruct Hx as [[= -> ->] | [[= -> ->] | Hx]]; [vm_compute; split; discriminate .. |].
  by apply not_elem_of_nil in Hx.
Qed.

Lemma release_serves_in_order_witness :
  let '(g, p, r) := serve_queue (permits demo_sem + 2) (queue demo_line) in
  exists s', release 2 demo_sem thread_new = Some (s', wake_all g.*2 thread_new) /\
    permits s' = p /\ closed s' = closed demo_sem /\
    rep (waiters s') (Line r (mark_all Granted g (results demo_line))) /\
    queue demo_line = g ++ r /\ p = permits demo_sem + 2 - needs g.
Proof.
  apply (release_serves_in_order demo_sem demo_line thread_new 2);
    [apply demo_sem_ok | done | vm_compute; split; discriminate].
Defined.

(** Nobody barges: an immediate acquire takes its permits exactly when the
    semaphore is open, nobody waits and they are free; in every other case it
    answers why not and changes nothing. *)
Theorem try_acquire_never_barges {W} `{WaiterListLaws W} (s : Semaphore W) l n :
  sem_ok s l -> 0 <= n < 2 ^ 32 ->
  try_acquire_many n s =
    if closed s then Some (Err TryClosed, s)
    else if bool_decide (queue l = []) && (n <=? permits s)
    then Some (Ok n, set_permits (permits s - n) s)
    else Some (Err NoPermits, s).
Proof. apply try_acquire_eq. Qed.

Lemma try_acquire_never_barges_witness :
  try_acquire_many 1 demo_sem = Some (Err NoPermits, demo_sem).
Proof.
  rewrite (try_acquire_never_barges demo_sem demo_line 1); [reflexivity | apply demo_sem_ok | lia].
Defined.

(** Closing ends every wait and only the waits: each waiter is woken once,
    in order, and finds its wait closed; permits already granted stay granted
    and the free ones stay free; closing again does nothing. *)
Theorem close_ends_every_wait {W} `{WaiterListLaws W} (s : Semaphore W) l t :
  sem_ok s l ->
  exists s', close s t = Some (s', if closed s then t else wake_all (queue l).*2 t) /\
    closed s' = true /\ permits s' = permits s /\
    sem_ok s' (Line [] (mark_all Closed (queue l) (results l))) /\
    (forall k, in_line k l ->
       line_state k (Line [] (mark_all Closed (queue l) (results l))) = Closed) /\
    (forall k, results l !! k <> None ->
       mark_all Closed (queue l) (results l) !! k = results l !! k) /\
    (closed s = true -> s' = s).
Proof.
  intros Hok. destruct (close_ok s l t Hok) as (s' & Hc & Hok' & Hcl & Hp).
  pose proof (rep_distinct _ _ (pre_rep _ _ (ok_pre _ _ Hok))) as [Hnd Ha _].
  exists s'. split_and!; try done.
  - intros k Hk. unfold line_state. rewrite decide_False by (unfold in_line; simpl; set_solver).
    simpl. by destruct (mark_all_in Closed (queue l) (results l) k Hk) as (n & ->).
  - intros k Hk. apply mark_all_out. intros Hin. by apply Hk, Ha.
  - intros HC. unfold close in Hc. rewrite HC in Hc. congruence.
Qed.

Lemma close_ends_every_wait_witness :
  exists s', close demo_sem thread_new =
      Some (s', wake_all (queue demo_line).*2 thread_new) /\
    closed s' = true /\ permits s' = permits demo_sem /\
    sem_ok s' (Line [] (mark_all Closed (queue demo_line) (results demo_line))) /\
    (forall k, in_line k demo_line ->
       line_state k (Line [] (mark_all Closed (queue demo_line) (results demo_line))) = Closed) /\
    (forall k, results demo_line !! k <> None ->
       mark_all Closed (queue demo_line) (results demo_line) !! k = results demo_line !! k) /\
    (closed demo_sem = true -> s' = demo_sem).
Proof. apply (close_ends_every_wait demo_sem demo_line thread_new demo_sem_ok). Defined.

(** An acquire that has to clone its waker looks again after the clone,
    whose code may have released permits or closed the semaphore: it then
    answers as the semaphore is then, and queues at the back only when it
    cannot be served at once. *)
Theorem queue_looks_again {W} `{WaiterListLaws W} {G} (clone : World W G -> option (World W G))
    a w (x : World W G) s t g l :
  clone x = Some (s, t, g) -> sem_ok s l -> acquire_key a = None ->
  0 <= acquire_n a <= MAX_PERMITS -> 0 < room (waiters s) ->
  if closed s then queue_poll clone a w x = Some (Ready (Err AcquireClosed), a, (s, spent_one t, g))
  else if bool_decide (queue l = []) && (acquire_n a <=? permits s)
  then queue_poll clone a w x =
    Some (Ready (Ok (acquire_n a)), a, (set_permits (permits s - acquire_n a) s, spent_one t, g))
  else exists k ws,
    queue_poll clone a w x = Some (Pending, set_acquire_key (Some k) a, (set_waiters ws s, t, g)) /\
    unused k l /\ sem_ok (set_waiters ws s) (line_push k (acquire_n a) w l).
Proof.
  intros Hc Hok Ha Hn Hroom. unfold queue_poll. rewrite Hc. cbn [mbind option_bind].
  destruct (closed s) eqn:Hcl; [done |].
  pose proof (take_now_ok s l (acquire_n a) Hok ltac:(lia)) as Ht.
  destruct (bool_decide (queue l = []) && (acquire_n a <=? permits s)) eqn:E.
  - destruct Ht as [-> _]. done.
  - rewrite Ht. cbn [mbind option_bind].
    destruct (push_ok s l (acquire_n a) w Hok Hcl Hn Hroom) as (k & ws & -> & Hu & Hok').
    { intros Hq. rewrite bool_decide_eq_true_2 in E by done. simpl in E. apply Z.leb_gt in E. lia. }
    by exists k, ws.
Qed.

Lemma queue_looks_again_witness :
  exists k ws,
    queue_poll (fun x => Some x) {| acquire_n := 3; acquire_key := None |} 9
        (demo_sem, thread_new, tt) =
      Some (Pending, {| acquire_n := 3; acquire_key := Some k |},
            (set_waiters ws demo_sem, thread_new, tt)) /\
    unused k demo_line /\ sem_ok (set_waiters ws demo_sem) (line_push k 3 9 demo_line).
Proof.
  apply (queue_looks_again (fun x => Some x) {| acquire_n := 3; acquire_key := None |} 9
           (demo_sem, thread_new, tt) demo_sem thread_new tt demo_line);
    [reflexivity | apply demo_sem_ok | reflexivity | vm_compute; split; discriminate | vm_compute; reflexivity].
Defined.

(** A future that is dropped leaves nothing behind: its place is gone, a
    grant it had not taken goes to the next waiters, and a line it held up
    from the front moves on, so that no permit is lost and nobody is left
    waiting whose request fits. *)
Theorem dropped_acquire_passes_on {W} `{WaiterListLaws W} (s : Semaphore W) l t a k :
  sem_ok s l -> acquire_key a = Some k -> (k, acquire_n a) ∈ tickets l ->
  isize_ok (permits s + acquire_n a) ->
  exists s' t' l', acquire_cancel a s t = Some (set_acquire_key None a, s', t') /\
    sem_ok s' l' /\ tickets l ≡ₚ (k, acquire_n a) :: tickets l' /\
    permits s' + granted_sum (results l') = permits s + granted_sum (results l).
Proof.
  intros Hok Hk Hx Hb. unfold acquire_cancel. rewrite Hk.
  destruct (leave_line_ok s l t a k Hok Hk Hx Hb) as (s' & t' & l' & ? & ? & ? & ? & _).
  by exists s', t', l'.
Qed.

Lemma dropped_acquire_passes_on_witness :
  exists s' t' l',
    acquire_cancel {| acquire_n := 1; acquire_key := Some {| key_index := 0; key_generation := 0 |} |}
        demo_sem thread_new =
      Some ({| acquire_n := 1; acquire_key := None |}, s', t') /\
    sem_ok s' l' /\
    tickets demo_line ≡ₚ ({| key_index := 0; key_generation := 0 |}, 1) :: tickets l' /\
    permits s' + granted_sum (results l') = permits demo_sem + granted_sum (results demo_line).
Proof.
  apply (dropped_acquire_passes_on demo_sem demo_line thread_new
    {| acquire_n := 1; acquire_key := Some {| key_index := 0; key_generation := 0 |} |}
    {| key_index := 0; key_generation := 0 |});
    [apply demo_sem_ok | reflexivity | apply elem_of_cons; by left | vm_compute; split; discriminate].
Defined.
