(* ===== verification/LocalMutex.v ===== *)
(** * The single-shard mutex

    [sync/local/mutex.rs]: a one-permit semaphore around a value. A guard is
    the semaphore's permit, forgotten as a permit and given back by the
    guard's drop; the proofs are those of the semaphore, with one permit. *)

From S2P Require Import Prelude Coop Waiters WaitersSlab.
From S2P Require Import LocalSemaphore LocalSemaphoreSpec LocalSemaphoreBooks.
Open Scope Z_scope.

(** ** The code *)

Inductive TryLockError : Type := WouldBlock.

(** [MutexGuard]: it has no state of its own. *)
Inductive MutexGuard : Type := Guard.

Section mutex.
Context {W : Type} `{WaiterList W} {T : Type}.

Record Mutex : Type := { sem : Semaphore W; value : T }.

Definition set_sem x m := {| sem := x; value := value m |}.

Definition mutex_new (v : T) : option Mutex :=
  s ← semaphore_new 1;
  Some {| sem := s; value := v |}.

Definition into_inner (m : Mutex) : T := value m.

(** [Lock]: the wait of [Mutex::lock]. *)
Definition Lock : Type := Acquire.
Definition lock : option Lock := acquire_many 1.

Definition try_lock (m : Mutex) (t : Thread) :
    option (Result MutexGuard TryLockError * Mutex * Thread) :=
  '(r, s) ← try_acquire_many 1 (sem m);
  match r with
  | Ok permit =>
      '(s, t) ← forget_permit permit s t;
      Some (Ok Guard, set_sem s m, t)
  | Err _ => Some (Err WouldBlock, set_sem s m, t)
  end.

(** [Lock::poll]. The semaphore of a mutex is never closed: an acquire that
    fails is the source's [unreachable!], [None] here. *)
Definition lock_poll {G} (clone : World W (T * G) -> option (World W (T * G)))
    (a : Lock) (w : Waker) (x : World W (T * G)) :
    option (Poll MutexGuard * Lock * World W (T * G)) :=
  '(r, a, (s, t, g)) ← acquire_poll clone a w x;
  match r with
  | Ready (Ok permit) =>
      '(s, t) ← forget_permit permit s t;
      Some (Ready Guard, a, (s, t, g))
  | Ready (Err _) => None
  | Pending => Some (Pending, a, (s, t, g))
  end.

(** Dropping a [Lock] is dropping its acquire; dropping a guard unlocks. *)
Definition drop_lock (a : Lock) (m : Mutex) (t : Thread) : option (Mutex * Thread) :=
  '(_, s, t) ← acquire_cancel a (sem m) t;
  Some (set_sem s m, t).

Definition drop_guard (m : Mutex) (t : Thread) : option (Mutex * Thread) :=
  '(s, t) ← release 1 (sem m) t;
  Some (set_sem s m, t).
End mutex.

Arguments Mutex W T : clear implicits.

(** ** Programs over a mutex *)

(** A call of a client; [inner] is what the waker of a poll does if it is
    cloned. [MSet] writes the value through a guard. *)
Inductive mop (T : Type) : Type :=
| MLock
| MTry
| MPoll (i : nat) (w : Waker) (inner : list (mop T))
| MCancel (i : nat)
| MUnlock
| MSet (v : T).
Arguments MLock {T}.
Arguments MTry {T}.
Arguments MPoll {T} i w inner.
Arguments MCancel {T} i.
Arguments MUnlock {T}.
Arguments MSet {T} v.

Section programs.
Context {W : Type} `{WaiterListLaws W} {T : Type}.

(** The state of a program: the semaphore, the thread, the value, and what
    the clients have: the waits alive and the guards held. *)
Definition MWorld : Type := World W (T * Clients).

Definition guards (c : Clients) : Z := vlen (held c).

Definition poll_guards (r : Poll MutexGuard) : list SemaphorePermit :=
  match r with Ready _ => [1] | Pending => [] end.

Fixpoint run_mop (o : mop T) (x : MWorld) : option MWorld :=
  let '(s, t, (v, c)) := x in
  let run_mops := fix run_mops (os : list (mop T)) x :=
    match os with
    | [] => Some x
    | o :: os => x ← run_mop o x; run_mops os x
    end in
  match o with
  | MLock =>
      if futures c <? isize_max then
        a ← lock;
        Some (s, t, (v, set_acquires (a :: acquires c) (set_futures (futures c + 1) c)))
      else Some x
  | MTry =>
      '(r, m, t) ← try_lock {| sem := s; value := v |} t;
      Some (sem m, t, (value m, match r with Ok _ => set_held (1 :: held c) c | Err _ => c end))
  | MPoll i w inner =>
      match acquires c !! i with
      | Some a =>
          '(r, a, (s, t, (v, c))) ←
            lock_poll (run_mops inner) a w (s, t, (v, set_acquires (delete i (acquires c)) c));
          Some (s, t, (v, set_held (poll_guards r ++ held c) (set_acquires (a :: acquires c) c)))
      | None => Some x
      end
  | MCancel i =>
      match acquires c !! i with
      | Some a =>
          '(m, t) ← drop_lock a {| sem := s; value := v |} t;
          Some (sem m, t, (value m,
            set_acquires (delete i (acquires c)) (set_futures (futures c - 1) c)))
      | None => Some x
      end
  | MUnlock =>
      match held c with
      | _ :: h =>
          '(m, t) ← drop_guard {| sem := s; value := v |} t;
          Some (sem m, t, (value m, set_held h c))
      | [] => Some x
      end
  | MSet v' => match held c with _ :: _ => Some (s, t, (v', c)) | [] => Some x end
  end.

Fixpoint run_mops (os : list (mop T)) (x : MWorld) : option MWorld :=
  match os with
  | [] => Some x
  | o :: os => x ← run_mop o x; run_mops os x
  end.

(** ** The books of a mutex: one permit, never closed *)

Definition one (n : Z) : Prop := n = 1.
Definition never (b : bool) (m : Z) : Prop := b = false /\ m = 1.

Definition any_value (_ : Semaphore W) (_ : T * Clients) : Prop := True.

Definition mkeeps : (MWorld -> option MWorld) -> Prop := keeps one never snd any_value any_value.

(** The calls are the semaphore's, but for the value. *)
Definition as_op (o : mop T) : op :=
  match o with
  | MLock => OAcquire 1
  | MTry => OTry 1
  | MCancel i => OCancel i
  | MUnlock => ODropPermit 0
  | _ => OCancel 0
  end.

Lemma forget_permit_eq p (s : Semaphore W) t : forget_permit p s t = Some (s, t).
Proof. reflexivity. Qed.

Lemma try_acquire_Ok n (s : Semaphore W) p s' :
  try_acquire_many n s = Some (Ok p, s') -> p = n.
Proof.
  unfold try_acquire_many, checked_permits. destruct (n <=? MAX_PERMITS); [| done].
  cbn [mbind option_bind]. destruct (closed s); [done |].
  destruct (negb _ || _); [done |]. destruct (sub_isize _ _); [| done].
  cbn [mbind option_bind]. congruence.
Qed.

Lemma mutex_as_op o (s : Semaphore W) t v c s' t' c' :
  match o with MPoll _ _ _ | MSet _ => False | _ => True end ->
  Forall (okp one) (held c) ->
  run_op (as_op o) (s, t, c) = Some (s', t', c') ->
  run_mop o (s, t, (v, c)) = Some (s', t', (v, c')).
Proof.
  intros Ho Hh. destruct o as [| |i w inner|i| |v']; try done; cbn [as_op run_op run_mop].
  - simpl. by destruct (futures c <? isize_max); intros [= <- <- <-].
  - simpl. unfold try_lock. cbn [sem]. destruct (try_acquire_many 1 s) as [[[p | e] s1]|] eqn:E;
      simpl; intros [= <- <- <-]; [| done]. by apply try_acquire_Ok in E as ->.
  - destruct (acquires c !! i) as [a|]; [| by intros [= <- <- <-]]. unfold drop_lock. cbn [sem].
    destruct (acquire_cancel a s t) as [[[a' s1] t1]|]; simpl; [| done]. by intros [= <- <- <-].
  - destruct (held c) as [|p h]; simpl; [by intros [= <- <- <-] |].
    apply Forall_cons in Hh as [[_ ->] _]. unfold drop_permit, drop_guard. cbn [sem].
    simpl. destruct (release 1 s t) as [[s1 t1]|]; simpl; [| done]. by intros [= <- <- <-].
Qed.

Lemma mutex_op_keeps o :
  match o with MPoll _ _ _ | MSet _ => False | _ => True end -> mkeeps (run_mop o).
Proof.
  intros Ho busy out [[s t] [v c]] [l [B _]].
  assert (Hk : keeps_to one never (as_op o)) by (destruct o; done).
  destruct (run_op_ok one never (as_op o) busy out (s, t, c) Hk ltac:(by destruct o) (ex_intro _ l B))
    as ([[s' t'] c'] & Hr & [l' B']).
  exists (s', t', (v, c')). split; [| by exists l'].
  apply mutex_as_op; [done | apply (bk_held _ _ _ _ _ _ _ _ B) | done].
Qed.

Lemma mutex_poll_keeps i w inner : mkeeps (run_mops inner) -> mkeeps (run_mop (MPoll i w inner)).
Proof.
  intros Hk busy out [[s t] [v c]] [l [B _]]. cbn [run_mop]. fold run_mops.
  destruct (acquires c !! i) as [a|] eqn:Hi; [| eexists; split; [done | by exists l]].
  pose proof (books_borrow _ _ _ _ _ _ _ _ _ _ B Hi) as B1.
  set (x1 := (s, t, (v, set_acquires (delete i (acquires c)) c)) : MWorld).
  destruct (acquire_poll_ok one never snd any_value any_value ltac:(done) ltac:(done) (run_mops inner) a w busy out x1 Hk
    (ex_intro _ l (conj B1 I)))
    as (r & a' & [[s' t'] [v' c']] & Hp & (Hn & Hgr & Herr) & l' & B' & _).
  unfold lock_poll. rewrite Hp. cbn [mbind option_bind].
  pose proof (bk_out _ _ _ _ _ _ _ _ B) as Hout.
  destruct r as [[p | []] |]; [| by destruct (Herr eq_refl) as (m & [=] & _) |].
  - rewrite forget_permit_eq. cbn [mbind option_bind]. eexists. split; [reflexivity |]. exists l'.
    assert (p = 1) as ->.
    { destruct Hgr as [? | [= ->]]; [done |]. destruct B1. simpl in bk_sizes.
      by apply Forall_cons in bk_sizes as [[_ ->] _]. }
    split; [| done]. apply books_answer; [done | by rewrite Hn | done].
  - eexists. split; [reflexivity |]. exists l'.
    split; [| done]. apply (books_answer _ _ _ _ _ _ _ _ _ []); [done | by left | done].
Qed.

Lemma mutex_set_keeps v' : mkeeps (run_mop (MSet v')).
Proof.
  intros busy out [[s t] [v c]] Hx. cbn [run_mop].
  destruct (held c); eexists; (split; [reflexivity | exact Hx]).
Qed.

Fixpoint run_mop_ok (o : mop T) : mkeeps (run_mop o).
Proof.
  destruct o as [| |i w inner|i| |v'].
  1: exact (mutex_op_keeps MLock I).
  1: exact (mutex_op_keeps MTry I).
  2: exact (mutex_op_keeps (MCancel i) I).
  2: exact (mutex_op_keeps MUnlock I).
  2: apply mutex_set_keeps.
  apply mutex_poll_keeps. induction inner as [|o inner IH]; intros busy out x Hx; [by exists x |].
  cbn [run_mops]. destruct (run_mop_ok o busy out x Hx) as (x1 & -> & Hx1). by apply IH.
Qed.

Lemma run_mops_ok os : mkeeps (run_mops os).
Proof.
  induction os as [|o os IH]; intros busy out x Hx; [by exists x |].
  cbn [run_mops]. destruct (run_mop_ok o busy out x Hx) as (x1 & -> & Hx1). by apply IH.
Qed.
End programs.

(** ** The properties *)

Lemma total_ones h : Forall (okp one) h -> total h = vlen h.
Proof. induction 1 as [|p h [_ ->] _ IH]; [done |]. rewrite vlen_cons. simpl. lia. Qed.

(** C25. Mutual exclusion: under every program of locks, waits, drops and
    unlocks, calls made from inside a waker's clone included, no call panics,
    at most one guard is held; and while nobody holds the lock and no waiter
    has been given it, nobody waits for it. *)
Theorem mutex_excludes {W} `{WaiterListLaws W} {T} (v0 : T) os :
  exists (m0 : Mutex W T) s t v c l,
    mutex_new v0 = Some m0 /\
    run_mops os (sem m0, thread_new, (value m0, set_minted 1 no_clients)) = Some (s, t, (v, c)) /\
    rep (waiters s) l /\ guards c <= 1 /\
    (guards c = 0 -> granted_sum (results l) = 0 -> queue l = []).
Proof.
  destruct (semaphore_new_ok (W := W) 1) as (s0 & Hs0 & Hp & Hcl & Hok); [rewrite MAX_PERMITS_eq; lia |].
  set (x0 := (s0, thread_new, (v0, set_minted 1 no_clients)) : MWorld (T := T)).
  assert (Hx : world_ok one never snd any_value [] 0 x0).
  { exists line_new. split; [| done]. constructor; simpl; try done; try lia.
    - change (granted_sum ∅) with 0. lia. }
  destruct (run_mops_ok os [] 0 x0 Hx) as ([[s t] [v c]] & Hr & l & B & _).
  exists {| sem := s0; value := v0 |}, s, t, v, c, l.
  pose proof (books_bounds _ _ _ _ _ _ _ _ B) as (Hg & _ & _).
  assert (Hone : forall k n w q, queue l = (k, n, w) :: q -> n = 1).
  { intros k n w q Hq. eapply (book_needs _ _ _ _ _ _ _ _ k n B). unfold tickets. rewrite Hq. set_solver. }
  destruct B as [[[Hrep _ Hn Hc _] Hf] Hp0 _ Hh Hl _ _ _ _ _ [_ HC]]. simpl in *.
  rewrite total_ones in Hl by done. unfold guards.
  split; [unfold mutex_new; by rewrite Hs0 |]. split; [done |]. split; [done |].
  split; [lia |]. intros Hgu Hgr. unfold line_fits in Hf.
  destruct (queue l) as [|[[k n] w] q] eqn:Hq; [done |].
  rewrite (Hone k n w q eq_refl) in Hf. apply Z.leb_gt in Hf. lia.
Qed.

Lemma mutex_excludes_witness :
  exists (m0 : Mutex Slab Z) s t v c l,
    mutex_new 5 = Some m0 /\
    run_mops [MTry; MSet 6; MLock; MLock; MPoll 0 3 []; MPoll 1 4 [MUnlock]; MTry; MPoll 1 3 []]
      (sem m0, thread_new, (value m0, set_minted 1 no_clients)) = Some (s, t, (v, c)) /\
    rep (waiters s) l /\ guards c <= 1 /\
    (guards c = 0 -> granted_sum (results l) = 0 -> queue l = []).
Proof. exact (mutex_excludes (W := Slab) 5 _). Defined.
