(* ===== verification/LocalMpsc.v ===== *)
(** * The single-shard channels

    [sync/local/mpsc]: the state both flavours share ([chan.rs]), the bounded
    flavour, whose slots are a semaphore ([bounded.rs]), and the unbounded one
    ([unbounded.rs]). *)

From S2P Require Import Prelude Coop Waiters LocalSemaphore.
Open Scope Z_scope.

Inductive TryRecvError : Type := Empty | Disconnected.
Inductive SendError (T : Type) : Type := SendErr (value : T).
Inductive TrySendError (T : Type) : Type := Full (value : T) | ChanClosed (value : T).
Arguments SendErr {T} value.
Arguments Full {T} value.
Arguments ChanClosed {T} value.

(** What bounds a channel. *)
Class Limit (L : Type) : Type := {
  lim_release : Z -> L -> Thread -> option (L * Thread);
  is_idle : L -> bool;
  lim_close : L -> Thread -> option (L * Thread);
  lim_debit : Z -> L -> option L
}.

Section chan.
Context {W : Type} `{WaiterList W} {T L : Type} `{Limit L}.

Record Chan : Type := {
  queue_ : list T;
  rx_waker : option Waker;
  senders : Z;
  rx_closed : bool;
  closed_waiters : W;
  limit : L
}.

Definition set_queue x c :=
  {| queue_ := x; rx_waker := rx_waker c; senders := senders c; rx_closed := rx_closed c;
     closed_waiters := closed_waiters c; limit := limit c |}.
Definition set_rx_waker x c :=
  {| queue_ := queue_ c; rx_waker := x; senders := senders c; rx_closed := rx_closed c;
     closed_waiters := closed_waiters c; limit := limit c |}.
Definition set_senders x c :=
  {| queue_ := queue_ c; rx_waker := rx_waker c; senders := x; rx_closed := rx_closed c;
     closed_waiters := closed_waiters c; limit := limit c |}.
Definition set_rx_closed x c :=
  {| queue_ := queue_ c; rx_waker := rx_waker c; senders := senders c; rx_closed := x;
     closed_waiters := closed_waiters c; limit := limit c |}.
Definition set_closed_waiters x c :=
  {| queue_ := queue_ c; rx_waker := rx_waker c; senders := senders c; rx_closed := rx_closed c;
     closed_waiters := x; limit := limit c |}.
Definition set_limit x c :=
  {| queue_ := queue_ c; rx_waker := rx_waker c; senders := senders c; rx_closed := rx_closed c;
     closed_waiters := closed_waiters c; limit := x |}.

Definition chan_new (l : L) : Chan :=
  {| queue_ := []; rx_waker := None; senders := 1; rx_closed := false; closed_waiters := new;
     limit := l |}.

Definition chan_len (c : Chan) : Z := vlen (queue_ c).

Definition wake_rx (c : Chan) (t : Thread) : Chan * Thread :=
  match rx_waker c with
  | Some w => (set_rx_waker None c, wake w t)
  | None => (c, t)
  end.

(** Appends a value and wakes the receiver. *)
Definition chan_push (v : T) (c : Chan) (t : Thread) : Chan * Thread :=
  wake_rx (set_queue (queue_ c ++ [v]) c) t.

Definition pop (c : Chan) : option T * Chan :=
  match queue_ c with
  | [] => (None, c)
  | v :: q => (Some v, set_queue q c)
  end.

(** Moves up to [n] values into [buf]; answers how many. *)
Definition take_many (buf : list T) (n : Z) (c : Chan) : Z * list T * Chan :=
  let k := Z.min (vlen (queue_ c)) n in
  (k, buf ++ firstn (Z.to_nat k) (queue_ c), set_queue (skipn (Z.to_nat k) (queue_ c)) c).

(** Pops a value and gives its slot back, which serves a waiting sender. *)
Definition pop_released (c : Chan) (t : Thread) : option (option T * Chan * Thread) :=
  match pop c with
  | (None, c) => Some (None, c, t)
  | (Some v, c) =>
      '(l, t) ← lim_release 1 (limit c) t;
      Some (Some v, set_limit l c, t)
  end.

Definition add_sender (c : Chan) : option Chan :=
  n ← add64 (senders c) 1;
  Some (set_senders n c).

Definition drop_sender (c : Chan) (t : Thread) : option (Chan * Thread) :=
  left ← sub64 (senders c) 1;
  let c := set_senders left c in
  Some (if left =? 0 then wake_rx c t else (c, t)).

Definition chan_is_closed (c : Chan) : bool := rx_closed c.
Definition rx_is_closed (c : Chan) : bool := rx_closed c || (senders c =? 0).

Definition finished (c : Chan) : bool :=
  rx_is_closed c && (chan_len c =? 0) && is_idle (limit c).

Definition wake_if_finished (c : Chan) (t : Thread) : Chan * Thread :=
  if finished c then wake_rx c t else (c, t).

Definition give_back (n : Z) (c : Chan) (t : Thread) : option (Chan * Thread) :=
  '(l, t) ← lim_release n (limit c) t;
  Some (wake_if_finished (set_limit l c) t).

Definition try_recv (c : Chan) (t : Thread) : option (Result T TryRecvError * Chan * Thread) :=
  '(v, c, t) ← pop_released c t;
  match v with
  | Some v => Some (Ok v, c, t)
  | None => Some (Err (if finished c then Disconnected else Empty), c, t)
  end.

Definition close_rx (c : Chan) (t : Thread) : option (Chan * Thread) :=
  if rx_closed c then Some (c, t)
  else
    let c := set_rx_closed true c in
    '(l, t) ← lim_close (limit c) t;
    let c := set_limit l c in
    '(ws, t) ← wake_closed (closed_waiters c) t;
    Some (set_closed_waiters ws c, t).

(** What dropping the receiver does; answers the values dropped with it. *)
Definition drop_rx (c : Chan) (t : Thread) : option (list T * Chan * Thread) :=
  '(c, t) ← close_rx c t;
  let c := set_rx_waker None c in
  let left := queue_ c in
  let c := set_queue [] c in
  '(l, t) ← lim_release (vlen left) (limit c) t;
  Some (left, set_limit l c, t).

(** The receiver's polls. The world is the channel, the thread and [G], what
    else the code of a waker's clone reaches; [clone] is that code. *)
Section poll.
Context {G : Type}.
Definition CWorld : Type := Chan * Thread * G.
Context (clone : CWorld -> option CWorld).

(** Makes [w] the receiver's waker. Answers whether it cloned. *)
Definition register_rx (w : Waker) (x : CWorld) : option (bool * CWorld) :=
  let '(c, t, g) := x in
  let old := rx_waker c in
  let c := set_rx_waker None c in
  if match old with Some o => will_wake o w | None => false end
  then Some (false, (set_rx_waker old c, t, g))
  else
    '(c, t, g) ← clone (c, t, g);
    Some (true, (set_rx_waker (Some w) c, t, g)).

Definition look_again (x : CWorld) : option (Poll (option T) * CWorld) :=
  let '(c, t, g) := x in
  '(v, c, t) ← pop_released c t;
  match v with
  | Some v => Some (Ready (Some v), (c, spent_one t, g))
  | None =>
      if finished c then Some (Ready None, (c, spent_one t, g)) else Some (Pending, (c, t, g))
  end.

Definition poll_recv (w : Waker) (x : CWorld) : option (Poll (option T) * CWorld) :=
  let '(c, t, g) := x in
  let '(spent, t) := exhausted w t in
  if spent : bool then Some (Pending, (c, t, g))
  else
    '(v, c, t) ← pop_released c t;
    match v with
    | Some v => Some (Ready (Some v), (c, spent_one t, g))
    | None =>
        '(cloned, (c, t, g)) ← register_rx w (c, t, g);
        if cloned && negb (chan_len c =? 0) then look_again (c, t, g)
        else if finished c then
          Some (Ready None, (set_rx_waker None c, spent_one t, g))
        else Some (Pending, (c, t, g))
    end.

(** A batch of up to [n] values moved into [buf], its slots given back. *)
Definition take_released (buf : list T) (n : Z) (c : Chan) (t : Thread) :
    option (Z * list T * Chan * Thread) :=
  let '(taken, buf, c) := take_many buf n c in
  if 0 <? taken then
    '(l, t) ← lim_release taken (limit c) t;
    Some (taken, buf, set_limit l c, t)
  else Some (taken, buf, c, t).

Definition look_again_many (buf : list T) (n : Z) (x : CWorld) :
    option (Poll Z * list T * CWorld) :=
  let '(c, t, g) := x in
  '(taken, buf, c, t) ← take_released buf n c t;
  if 0 <? taken then Some (Ready taken, buf, (c, spent_one t, g))
  else if finished c then Some (Ready 0, buf, (c, spent_one t, g))
  else Some (Pending, buf, (c, t, g)).

Definition poll_recv_many (w : Waker) (buf : list T) (n : Z) (x : CWorld) :
    option (Poll Z * list T * CWorld) :=
  if n =? 0 then Some (Ready 0, buf, x)
  else
    let '(c, t, g) := x in
    let '(spent, t) := exhausted w t in
    if spent : bool then Some (Pending, buf, (c, t, g))
    else
      '(taken, buf, c, t) ← take_released buf n c t;
      if 0 <? taken then Some (Ready taken, buf, (c, spent_one t, g))
      else
        '(cloned, (c, t, g)) ← register_rx w (c, t, g);
        if cloned && negb (chan_len c =? 0) then look_again_many buf n (c, t, g)
        else if finished c then
          Some (Ready 0, buf, (set_rx_waker None c, spent_one t, g))
        else Some (Pending, buf, (c, t, g)).

(** [ClosedWait::poll]: the wait of [Sender::closed], whose state is its place
    among the waits. *)
Definition get_closed_waiters (x : CWorld) : W := closed_waiters x.1.1.
Definition put_closed_waiters (ws : W) (x : CWorld) : CWorld :=
  (set_closed_waiters ws x.1.1, x.1.2, x.2).

Definition closed_queue (w : Waker) (x : CWorld) : option (Poll unit * option Key * CWorld) :=
  x ← clone x;
  if rx_closed x.1.1 then Some (Ready tt, None, x)
  else
    '(key, ws) ← push 0 w (get_closed_waiters x);
    Some (Pending, Some key, put_closed_waiters ws x).

Definition closed_poll (key : option Key) (w : Waker) (x : CWorld) :
    option (Poll unit * option Key * CWorld) :=
  if rx_closed x.1.1 then
    match key with
    | Some key =>
        '(_, ws) ← cancel key (get_closed_waiters x);
        Some (Ready tt, None, put_closed_waiters ws x)
    | None => Some (Ready tt, None, x)
    end
  else
    match key with
    | Some key =>
        '(st, x) ← refresh get_closed_waiters put_closed_waiters clone key w x;
        if bool_decide (st = Waiting) then Some (Pending, Some key, x)
        else
          '(_, ws) ← cancel key (get_closed_waiters x);
          closed_queue w (put_closed_waiters ws x)
    | None => closed_queue w x
    end.
End poll.

Definition drop_closed (key : option Key) (c : Chan) : option Chan :=
  match key with
  | Some key => '(_, ws) ← cancel key (closed_waiters c); Some (set_closed_waiters ws c)
  | None => Some c
  end.
End chan.

Arguments Chan W T L : clear implicits.
Arguments CWorld W T L G : clear implicits.

(** ** The bounded flavour *)

Section bounded.
Context {W : Type} `{WaiterList W} {T : Type}.

Record Bounded : Type := { slots_ : Semaphore W; max : Z }.

Definition set_slots x b := {| slots_ := x; max := max b |}.

#[global] Instance bounded_limit : Limit Bounded := {
  lim_release n b t :=
    if 0 <? n then '(s, t) ← release n (slots_ b) t; Some (set_slots s b, t) else Some (b, t);
  is_idle b := holds (max b) (slots_ b);
  lim_close b t := '(s, t) ← close (slots_ b) t; Some (set_slots s b, t);
  lim_debit n b := s ← debit n (slots_ b); Some (set_slots s b)
}.

Definition channel (buffer : Z) : option (Chan W T Bounded) :=
  if 0 <? buffer then
    s ← semaphore_new buffer;
    Some (chan_new {| slots_ := s; max := buffer |})
  else None.

Definition slots_of (c : Chan W T Bounded) : Semaphore W := slots_ (limit c).
Definition put_slots (s : Semaphore W) (c : Chan W T Bounded) : Chan W T Bounded :=
  set_limit (set_slots s (limit c)) c.

(** [Sender::try_reserve]: a permit for one message. *)
Inductive Permit : Type := OnePermit.

Definition try_reserve (c : Chan W T Bounded) (t : Thread) :
    option (Result Permit (TrySendError unit) * Chan W T Bounded * Thread) :=
  '(r, s) ← try_acquire_many 1 (slots_of c);
  match r with
  | Ok p =>
      '(s, t) ← forget_permit p s t;
      Some (Ok OnePermit, put_slots s c, t)
  | Err NoPermits => Some (Err (Full tt), put_slots s c, t)
  | Err TryClosed => Some (Err (ChanClosed tt), put_slots s c, t)
  end.

(** [Permit::send] and dropping a permit unused. *)
Definition permit_send (v : T) (c : Chan W T Bounded) (t : Thread) : Chan W T Bounded * Thread :=
  chan_push v c t.

Definition drop_permit_slot (c : Chan W T Bounded) (t : Thread) :
    option (Chan W T Bounded * Thread) :=
  give_back 1 c t.

Definition try_send (v : T) (c : Chan W T Bounded) (t : Thread) :
    option (Result unit (TrySendError T) * Chan W T Bounded * Thread) :=
  '(r, c, t) ← try_reserve c t;
  match r with
  | Ok _ => let '(c, t) := permit_send v c t in Some (Ok tt, c, t)
  | Err (Full _) => Some (Err (Full v), c, t)
  | Err (ChanClosed _) => Some (Err (ChanClosed v), c, t)
  end.

Definition capacity (c : Chan W T Bounded) : Z := available_permits (slots_of c).
Definition max_capacity (c : Chan W T Bounded) : Z := max (limit c).

(** [Reserve]: the wait for a slot. *)
Definition reserve : option Acquire := acquire_many 1.

Definition drop_reserve (a : Acquire) (c : Chan W T Bounded) (t : Thread) :
    option (Chan W T Bounded * Thread) :=
  '(_, s, t) ← acquire_cancel a (slots_of c) t;
  Some (wake_if_finished (put_slots s c) t).

Section poll.
Context {G : Type} (clone : CWorld W T Bounded G -> option (CWorld W T Bounded G)).

(** The channel's world as the world of its semaphore. *)
Definition to_sem (x : CWorld W T Bounded G) : World W (Chan W T Bounded * G) :=
  (slots_of x.1.1, x.1.2, (x.1.1, x.2)).
Definition of_sem (x : World W (Chan W T Bounded * G)) : CWorld W T Bounded G :=
  (put_slots x.1.1 x.2.1, x.1.2, x.2.2).
Definition clone_sem (x : World W (Chan W T Bounded * G)) :
    option (World W (Chan W T Bounded * G)) :=
  x ← clone (of_sem x);
  Some (to_sem x).

(** [Reserve::poll]. *)
Definition reserve_poll (a : Acquire) (w : Waker) (x : CWorld W T Bounded G) :
    option (Poll (Result Permit (SendError unit)) * Acquire * CWorld W T Bounded G) :=
  '(r, a, (s, t, g)) ← acquire_poll clone_sem a w (to_sem x);
  match r with
  | Ready (Ok p) =>
      '(s, t) ← forget_permit p s t;
      Some (Ready (Ok OnePermit), a, of_sem (s, t, g))
  | Ready (Err _) => Some (Ready (Err (SendErr tt)), a, of_sem (s, t, g))
  | Pending => Some (Pending, a, of_sem (s, t, g))
  end.

(** One poll of [Sender::send]'s future: the reservation, dropped when it is
    over, and the send through it. *)
Definition send_poll (v : T) (a : Acquire) (w : Waker) (x : CWorld W T Bounded G) :
    option (Poll (Result unit (SendError T)) * Acquire * CWorld W T Bounded G) :=
  '(r, a, (c, t, g)) ← reserve_poll a w x;
  match r with
  | Pending => Some (Pending, a, (c, t, g))
  | Ready r =>
      '(c, t) ← drop_reserve a c t;
      match r with
      | Ok _ =>
          let '(c, t) := permit_send v c t in
          Some (Ready (Ok tt), set_acquire_key None a, (c, t, g))
      | Err _ => Some (Ready (Err (SendErr v)), set_acquire_key None a, (c, t, g))
      end
  end.
End poll.
End bounded.

Arguments Bounded W : clear implicits.

(** ** The unbounded flavour *)

Inductive Unbounded : Type := NoLimit.

#[global] Instance unbounded_limit : Limit Unbounded := {
  lim_release _ l t := Some (l, t);
  is_idle _ := true;
  lim_close l t := Some (l, t);
  lim_debit _ l := Some l
}.

Section unbounded.
Context {W : Type} `{WaiterList W} {T : Type}.

Definition unbounded_channel : Chan W T Unbounded := chan_new NoLimit.

Definition unbounded_send (v : T) (c : Chan W T Unbounded) (t : Thread) :
    Result unit (SendError T) * Chan W T Unbounded * Thread :=
  if chan_is_closed c then (Err (SendErr v), c, t)
  else let '(c, t) := chan_push v c t in (Ok tt, c, t).
End unbounded.
