(* ===== verification/LocalMpscSpec.v ===== *)
(** * The single-shard bounded channel keeps order, capacity and wakes

    Programs of the channel's calls ([cop]), those made from inside a waker's
    clone included: what comes out is what went in, in order; the slots are
    accounted for; and a receiver that waits was woken, or has nothing to
    receive. *)

From S2P Require Import Prelude Coop Waiters WaitersSlab.
From S2P Require Import LocalSemaphore LocalSemaphoreSpec LocalSemaphoreBooks LocalMpsc.
Open Scope Z_scope.

(** What the holders of the channel's ends have, and what has gone through:
    the waits for a slot alive and not in a poll, how many permits to send are
    held, how many waits are alive; the values sent, received, and dropped
    with the receiver; whether the receiver is there and not in a poll, and
    whether its last call was a poll that went to sleep; and, if that poll was
    pending, with which waker it came and who had been woken before it. *)
Record Ends (T : Type) : Type := {
  reserves : list Acquire;
  to_send : Z;
  waits : Z;
  sent : list T;
  received : list T;
  discarded : list T;
  rx_here : bool;
  asleep : bool;
  pended : option (Waker * list Waker)
}.
Arguments reserves {T} _.
Arguments to_send {T} _.
Arguments waits {T} _.
Arguments sent {T} _.
Arguments received {T} _.
Arguments discarded {T} _.
Arguments rx_here {T} _.
Arguments asleep {T} _.
Arguments pended {T} _.

Section ends.
Context {T : Type}.
Implicit Type e : Ends T.

Definition new_ends : Ends T :=
  {| reserves := []; to_send := 0; waits := 0; sent := []; received := []; discarded := [];
     rx_here := true; asleep := false; pended := None |}.

Definition set_reserves x n e :=
  {| reserves := x; to_send := to_send e; waits := n; sent := sent e; received := received e;
     discarded := discarded e; rx_here := rx_here e; asleep := asleep e;
     pended := pended e |}.
Definition set_to_send x e :=
  {| reserves := reserves e; to_send := x; waits := waits e; sent := sent e;
     received := received e; discarded := discarded e; rx_here := rx_here e; asleep := asleep e;
     pended := pended e |}.
Definition set_sent x e :=
  {| reserves := reserves e; to_send := to_send e; waits := waits e; sent := x;
     received := received e; discarded := discarded e; rx_here := rx_here e; asleep := asleep e;
     pended := pended e |}.
Definition set_received x e :=
  {| reserves := reserves e; to_send := to_send e; waits := waits e; sent := sent e;
     received := x; discarded := discarded e; rx_here := rx_here e; asleep := asleep e;
     pended := pended e |}.
Definition set_discarded x e :=
  {| reserves := reserves e; to_send := to_send e; waits := waits e; sent := sent e;
     received := received e; discarded := x; rx_here := rx_here e; asleep := asleep e;
     pended := pended e |}.
Definition set_rx x z e :=
  {| reserves := reserves e; to_send := to_send e; waits := waits e; sent := sent e;
     received := received e; discarded := discarded e; rx_here := x; asleep := z; pended := None |}.
Definition set_pended x e :=
  {| reserves := reserves e; to_send := to_send e; waits := waits e; sent := sent e;
     received := received e; discarded := discarded e; rx_here := rx_here e; asleep := asleep e;
     pended := x |}.
End ends.

(** A call on one of the channel's ends; [inner] is what the waker of a poll
    does if it is cloned. *)
Inductive cop (T : Type) : Type :=
| KTrySend (v : T)
| KTryReserve
| KPermitSend (v : T)
| KPermitDrop
| KReserve
| KReservePoll (i : nat) (w : Waker) (inner : list (cop T))
| KSendPoll (i : nat) (v : T) (w : Waker) (inner : list (cop T))
| KReserveDrop (i : nat)
| KAddSender
| KDropSender
| KRecv (w : Waker) (inner : list (cop T))
| KRecvMany (w : Waker) (n : Z) (inner : list (cop T))
| KTryRecv
| KClose
| KDropRx.
Arguments KTrySend {T} v.
Arguments KTryReserve {T}.
Arguments KPermitSend {T} v.
Arguments KPermitDrop {T}.
Arguments KReserve {T}.
Arguments KReservePoll {T} i w inner.
Arguments KSendPoll {T} i v w inner.
Arguments KReserveDrop {T} i.
Arguments KAddSender {T}.
Arguments KDropSender {T}.
Arguments KRecv {T} w inner.
Arguments KRecvMany {T} w n inner.
Arguments KTryRecv {T}.
Arguments KClose {T}.
Arguments KDropRx {T}.

Section programs.
Context {W : Type} `{WaiterListLaws W} {T : Type}.
Implicit Types (c : Chan W T (Bounded W)) (t : Thread) (e : Ends T).

Definition BWorld : Type := CWorld W T (Bounded W) (Ends T).

(** The receiver sleeps when its poll is pending and has not woken it itself,
    as one without budget does. *)
Definition sleeps {A} (r : Poll A) (t : Thread) : bool := is_pending r && negb (budget t =? 0).

(** What is noted of a poll with waker [w] that began on the thread [t]. *)
Definition pends {A} (r : Poll A) (w : Waker) (t : Thread) : option (Waker * list Waker) :=
  if is_pending r then Some (w, woken t) else None.

Fixpoint run_cop (o : cop T) (x : BWorld) : option BWorld :=
  let '(c, t, e) := x in
  let run_cops := fix run_cops (os : list (cop T)) x :=
    match os with
    | [] => Some x
    | o :: os => x ← run_cop o x; run_cops os x
    end in
  match o with
  | KTrySend v =>
      '(r, c, t) ← try_send v c t;
      Some (c, t, match r with Ok _ => set_sent (sent e ++ [v]) e | Err _ => e end)
  | KTryReserve =>
      '(r, c, t) ← try_reserve c t;
      Some (c, t, match r with Ok _ => set_to_send (to_send e + 1) e | Err _ => e end)
  | KPermitSend v =>
      if 0 <? to_send e then
        let '(c, t) := permit_send v c t in
        Some (c, t, set_sent (sent e ++ [v]) (set_to_send (to_send e - 1) e))
      else Some x
  | KPermitDrop =>
      if 0 <? to_send e then
        '(c, t) ← drop_permit_slot c t;
        Some (c, t, set_to_send (to_send e - 1) e)
      else Some x
  | KReserve =>
      if waits e <? isize_max then
        a ← reserve;
        Some (c, t, set_reserves (a :: reserves e) (waits e + 1) e)
      else Some x
  | KReservePoll i w inner =>
      match reserves e !! i with
      | Some a =>
          '(r, a, (c, t, e)) ← reserve_poll (run_cops inner) a w
            (c, t, set_reserves (delete i (reserves e)) (waits e) e);
          match r with
          | Pending => Some (c, t, set_reserves (a :: reserves e) (waits e) e)
          | Ready r =>
              '(c, t) ← drop_reserve a c t;
              let e := set_reserves (reserves e) (waits e - 1) e in
              Some (c, t, match r with Ok _ => set_to_send (to_send e + 1) e | Err _ => e end)
          end
      | None => Some x
      end
  | KSendPoll i v w inner =>
      match reserves e !! i with
      | Some a =>
          '(r, a, (c, t, e)) ← send_poll (run_cops inner) v a w
            (c, t, set_reserves (delete i (reserves e)) (waits e) e);
          match r with
          | Pending => Some (c, t, set_reserves (a :: reserves e) (waits e) e)
          | Ready r =>
              let e := set_reserves (reserves e) (waits e - 1) e in
              Some (c, t, match r with Ok _ => set_sent (sent e ++ [v]) e | Err _ => e end)
          end
      | None => Some x
      end
  | KReserveDrop i =>
      match reserves e !! i with
      | Some a =>
          '(c, t) ← drop_reserve a c t;
          Some (c, t, set_reserves (delete i (reserves e)) (waits e - 1) e)
      | None => Some x
      end
  | KAddSender =>
      if senders c <? u64_max then c ← add_sender c; Some (c, t, e) else Some x
  | KDropSender =>
      if 0 <? senders c then '(c, t) ← drop_sender c t; Some (c, t, e) else Some x
  | KRecv w inner =>
      if rx_here e then
        '(r, (c', t', e)) ← poll_recv (run_cops inner) w (c, t, set_rx false false e);
        let e := match r with Ready (Some v) => set_received (received e ++ [v]) e | _ => e end in
        Some (c', t', set_pended (pends r w t) (set_rx true (sleeps r t) e))
      else Some x
  | KRecvMany w n inner =>
      if rx_here e && (0 <=? n) then
        '(r, buf, (c', t', e)) ← poll_recv_many (run_cops inner) w [] n (c, t, set_rx false false e);
        Some (c', t', set_pended (pends r w t) (set_rx true (sleeps r t) (set_received (received e ++ buf) e)))
      else Some x
  | KTryRecv =>
      if rx_here e then
        '(r, c, t) ← try_recv c t;
        let e := set_rx true false e in
        Some (c, t, match r with Ok v => set_received (received e ++ [v]) e | Err _ => e end)
      else Some x
  | KClose =>
      if rx_here e then '(c, t) ← close_rx c t; Some (c, t, set_rx true false e) else Some x
  | KDropRx =>
      if rx_here e then
        '(rest, c, t) ← drop_rx c t;
        Some (c, t, set_discarded (discarded e ++ rest) (set_rx false false e))
      else Some x
  end.

Fixpoint run_cops (os : list (cop T)) (x : BWorld) : option BWorld :=
  match os with
  | [] => Some x
  | o :: os => x ← run_cop o x; run_cops os x
  end.

(** ** What holds of a channel *)

(** The holders of the ends as clients of the slots' semaphore: a permit to
    send and a value queued hold one slot each. *)
Definition slot_holders (c : Chan W T (Bounded W)) (e : Ends T) : Clients :=
  {| acquires := reserves e;
     held := replicate (Z.to_nat (to_send e + vlen (queue_ c))) 1;
     minted := max (limit c);
     futures := waits e |}.

Definition one (n : Z) : Prop := n = 1.
Definition cap (m : Z) (_ : bool) (m' : Z) : Prop := m' = m.

(** [rxb] says that the receiver is in a poll. *)
Section inv.
Context (rxb : bool).

(** Besides the slots: the channel and its semaphore close together, what went
    in came out, is queued or was dropped with the receiver, in order, and a
    receiver that sleeps and was not woken has nothing to receive. *)
Record chan_base c e : Prop := {
  ci_closed : rx_closed c = closed (slots_of c);
  ci_free : permits (slots_of c) <= max (limit c);
  ci_to_send : 0 <= to_send e;
  ci_senders : 0 <= senders c <= u64_max;
  ci_order : received e ++ discarded e ++ queue_ c = sent e;
  ci_gone : rx_here e = true \/ rxb = true -> discarded e = [];
  ci_poll : rxb = true -> rx_here e = false /\ asleep e = false;
  ci_waits : exists lw, rep (closed_waiters c) lw
}.

Record chan_inv c e : Prop := {
  ci_base : chan_base c e;
  ci_sleep : asleep e = true -> rx_waker c <> None -> queue_ c = [] /\ finished c = false
}.

Definition chan_ok (m : Z) (busy : list Acquire) (out : Z) (x : BWorld) : Prop :=
  let '(c, t, e) := x in
  (exists l, books one (cap m) busy out (slots_of c) t (slot_holders c e) l) /\ chan_inv c e.

Definition ckeeps (m : Z) (f : BWorld -> option BWorld) : Prop :=
  forall busy out x, chan_ok m busy out x -> exists x', f x = Some x' /\ chan_ok m busy out x'.

(** The rest of the channel, as the semaphore's polls see it. *)
Definition rest_inv (s : Semaphore W) (g : Chan W T (Bounded W) * Ends T) : Prop :=
  chan_inv (put_slots s g.1) g.2.

Definition rest_clients (g : Chan W T (Bounded W) * Ends T) : Clients := slot_holders g.1 g.2.

Lemma put_slots_id c : put_slots (slots_of c) c = c.
Proof. by destruct c as [? ? ? ? ? []]. Qed.

Lemma finished_slots s s' c :
  permits s' <= permits s -> permits s <= max (limit c) ->
  finished (put_slots s c) = false -> finished (put_slots s' c) = false.
Proof.
  unfold finished, rx_is_closed, chan_len. simpl. unfold holds. intros Hle Hmax.
  rewrite !andb_false_iff. intros [? | Hp]; [by left |]. right.
  apply Z.eqb_neq in Hp. apply Z.eqb_neq. lia.
Qed.

Lemma rest_inv_taken s s' g :
  rest_inv s g -> closed s' = closed s -> permits s' <= permits s -> rest_inv s' g.
Proof.
  destruct g as [c e]. unfold rest_inv. simpl. intros [[] Hs] Hc Hp.
  unfold slots_of in *. cbn in *. constructor; [constructor; cbn; try done; [congruence | lia] |].
  intros Ha Hw. specialize (Hs Ha Hw) as [Hq Hf]. split; [done |].
  by eapply finished_slots.
Qed.

Lemma keeps_sem m f :
  ckeeps m f -> keeps one (cap m) rest_clients rest_inv rest_inv (clone_sem f).
Proof.
  intros Hf busy out [[s t] [c e]] [l [B HJ]]. unfold clone_sem, of_sem. simpl.
  destruct (Hf busy out (put_slots s c, t, e)) as ([[c' t'] e'] & -> & [l' B'] & HJ').
  { split; [by exists l | done]. }
  cbn [mbind option_bind]. eexists. split; [reflexivity |]. exists l'. split; [done |].
  unfold rest_inv. simpl. by rewrite put_slots_id.
Qed.

(** *** The slots *)

Lemma total_replicate n : total (replicate n 1) = Z.of_nat n.
Proof. induction n as [|n IH]; [done |]. cbn [replicate total foldr] in *. unfold total in IH. lia. Qed.

Definition taken_slots c e : Z := to_send e + vlen (queue_ c).

(** The semaphore and the slots held changed together; the waits did not. *)
Lemma books_slots m busy out s t c e l s' t' c' e' l' :
  books one (cap m) busy out s t (slot_holders c e) l -> 0 <= taken_slots c e ->
  reserves e' = reserves e -> waits e' = waits e -> max (limit c') = max (limit c) ->
  sem_ok s' l' -> tickets l' ≡ₚ tickets l -> 0 <= permits s' -> 0 <= taken_slots c' e' ->
  permits s' + granted_sum (results l') + taken_slots c' e' =
    permits s + granted_sum (results l) + taken_slots c e ->
  budget t' = budget t ->
  books one (cap m) busy out s' t' (slot_holders c' e') l'.
Proof.
  intros B Hn Hr Hw Hm Hok Ht Hp Hn' Hl Hb.
  pose proof B as [_ _ Ho _ Hbal Hmax _ _ _ _ HC]. unfold cap, taken_slots in *.
  cbn [slot_holders held minted] in Hbal, Hmax, HC. rewrite total_replicate in Hbal.
  eapply books_same_futures; [exact B | ..]; unfold cap;
    cbn [slot_holders acquires futures held minted]; try done; try congruence; try lia.
  - apply Forall_replicate. by split.
  - rewrite total_replicate. lia.
Qed.

(** A slot on its way to a sender becomes a permit to send. *)
Lemma books_given m busy out s t c e l :
  books one (cap m) busy (out + 1) s t (slot_holders c e) l -> 0 <= taken_slots c e -> 0 <= out ->
  books one (cap m) busy out s t (slot_holders c (set_to_send (to_send e + 1) e)) l.
Proof.
  intros B Hn Ho. pose proof B as [Hok Hp _ _ Hbal Hmax _ _ _ _ HC]. unfold cap, taken_slots in *.
  cbn [slot_holders held minted] in Hbal, Hmax, HC. rewrite total_replicate in Hbal.
  eapply books_same_futures; [exact B | ..]; unfold cap;
    cbn [slot_holders acquires futures held minted]; try done.
  - apply Forall_replicate. by split.
  - rewrite total_replicate. simpl. lia.
Qed.

(** *** Waking the receiver *)

Lemma wake_rx_eq c t :
  exists t', wake_rx c t = (set_rx_waker None c, t') /\ budget t' = budget t.
Proof.
  unfold wake_rx. destruct (rx_waker c) eqn:E; [by eexists |].
  exists t. split; [| done]. destruct c. simpl in *. by subst.
Qed.

Lemma inv_woken c e : chan_base c e -> chan_inv (set_rx_waker None c) e.
Proof. intros []. constructor; [by constructor | done]. Qed.

Lemma inv_awake c e : chan_base c e -> asleep e = false -> chan_inv c e.
Proof. intros Hb Ha. constructor; [done |]. by rewrite Ha. Qed.

Lemma books_set_thread m busy out s t cl l t' :
  books one (cap m) busy out s t cl l -> budget t' = budget t ->
  books one (cap m) busy out s t' cl l.
Proof.
  intros B Hb. eapply books_thread; [exact B |]. unfold budget_ok. rewrite Hb.
  apply (bk_budget _ _ _ _ _ _ _ _ B).
Qed.

(** A step that ends in a wake of the receiver. *)
Lemma ok_woken m busy out c t e l :
  books one (cap m) busy out (slots_of c) t (slot_holders c e) l -> chan_base c e ->
  exists c' t', wake_rx c t = (c', t') /\ chan_ok m busy out (c', t', e).
Proof.
  intros B Hb. destruct (wake_rx_eq c t) as (t' & -> & Ht). eexists _, _. split; [reflexivity |].
  split; [| by apply inv_woken]. exists l. by eapply books_set_thread.
Qed.

(** A step that ends by waking the receiver if the channel is finished. *)
Lemma ok_wake_if_finished m busy out c t e l :
  books one (cap m) busy out (slots_of c) t (slot_holders c e) l -> chan_base c e ->
  (asleep e = true -> rx_waker c <> None -> queue_ c = []) ->
  exists c' t', wake_if_finished c t = (c', t') /\ chan_ok m busy out (c', t', e).
Proof.
  intros B Hb Hq. unfold wake_if_finished. destruct (finished c) eqn:Hf; [by eapply ok_woken |].
  eexists _, _. split; [reflexivity |]. split; [by exists l |]. constructor; [done |].
  intros Ha Hw. split; [by apply Hq | done].
Qed.

(** *** Sending *)

Lemma free_le m busy out s t cl l :
  books one (cap m) busy out s t cl l -> permits s <= m.
Proof.
  intros B. pose proof (books_bounds _ _ _ _ _ _ _ _ B) as (? & ? & _). destruct B as [].
  unfold cap in *. lia.
Qed.

Lemma try_reserve_ok m busy out c t e :
  chan_ok m busy out (c, t, e) ->
  exists r s', try_reserve c t = Some (r, put_slots s' c, t) /\
    chan_ok m busy out (put_slots s' c, t,
      match r with Ok _ => set_to_send (to_send e + 1) e | Err _ => e end).
Proof.
  intros Hx. pose proof Hx as [[l B] Hi]. unfold try_reserve.
  assert (Hsame : chan_ok m busy out (put_slots (slots_of c) c, t, e)) by (by rewrite put_slots_id).
  pose proof B as [Hok Hp0 Ho Hh Hl Hm _ _ _ _ _].
  rewrite (try_acquire_eq _ l 1 Hok) by lia.
  destruct (closed (slots_of c)) eqn:Hcl; [by eexists (Err (ChanClosed tt)), _ |].
  case_bool_decide as Hq; simpl; [| by eexists (Err (Full tt)), _].
  destruct (Z.leb_spec 1 (permits (slots_of c))) as [Hle | Hgt]; simpl; [| by eexists (Err (Full tt)), _].
  eexists (Ok OnePermit), _. split; [reflexivity |].
  pose proof (ci_base _ _ Hi) as Hb.
  pose proof (vlen_nonneg (queue_ c)). pose proof (ci_to_send _ _ Hb). split.
  - exists l. eapply books_slots; [exact B | ..]; unfold taken_slots; try done; simpl; try lia.
    pose proof (take_now_ok (slots_of c) l 1 Hok ltac:(lia)) as Ht.
    rewrite bool_decide_eq_true_2, (proj2 (Z.leb_le 1 _)) in Ht by done. by destruct Ht as [_ ?].
  - assert (Hri : rest_inv (set_permits (permits (slots_of c) - 1) (slots_of c)) (c, e)).
    { eapply (rest_inv_taken (slots_of c)); [| done | simpl; lia]. unfold rest_inv. simpl.
      by rewrite put_slots_id. }
    destruct Hri as [[] Hs]. constructor; [constructor; simpl in *; try done; lia | done].
Qed.

(** A value goes into the slot a permit held. *)
Lemma permit_send_ok m busy out c t e v :
  chan_ok m busy out (c, t, set_to_send (to_send e + 1) e) -> 0 <= to_send e ->
  exists c' t', permit_send v c t = (c', t') /\
    chan_ok m busy out (c', t', set_sent (sent e ++ [v]) e).
Proof.
  intros [[l B] [Hb _]] He. unfold permit_send, chan_push.
  pose proof (vlen_nonneg (queue_ c)).
  eapply (ok_woken m busy out (set_queue (queue_ c ++ [v]) c) t _ l).
  - pose proof B as [Hok Hp0 _ _ _ _ _ _ _ _ _].
    eapply books_slots; [exact B | ..]; unfold taken_slots; try done; simpl; try lia;
      change (slots_of (set_queue (queue_ c ++ [v]) c)) with (slots_of c);
      rewrite vlen_app; change (vlen [v]) with 1; lia.
  - destruct Hb as [? ? ? ? Ho ?]. constructor; simpl in *; try done.
    rewrite <- Ho, !app_assoc. done.
Qed.

Lemma try_send_ok m busy out c t e v :
  chan_ok m busy out (c, t, e) ->
  exists r c' t', try_send v c t = Some (r, c', t') /\
    chan_ok m busy out (c', t', match r with Ok _ => set_sent (sent e ++ [v]) e | Err _ => e end).
Proof.
  intros Hx. unfold try_send. destruct (try_reserve_ok m busy out c t e Hx) as (r & s' & -> & Hx').
  cbn [mbind option_bind]. destruct r as [[] | [u | u]].
  - pose proof Hx as [_ [Hb _]].
    destruct (permit_send_ok m busy out _ t e v Hx' (ci_to_send _ _ Hb)) as (c' & t' & -> & Hx'').
    by exists (Ok tt), c', t'.
  - by eexists (Err (Full v)), _, _.
  - by eexists (Err (ChanClosed v)), _, _.
Qed.

(** [n] slots come back, from the values or the permits that held them. *)
Lemma lim_release_ok m busy out c t e n :
  (exists l, books one (cap m) busy out (slots_of c) t (slot_holders c e) l) ->
  chan_base c e -> 0 <= n ->
  forall c1 e1, taken_slots c1 e1 = taken_slots c e - n -> 0 <= taken_slots c1 e1 ->
  limit c1 = limit c -> rx_closed c1 = rx_closed c ->
  reserves e1 = reserves e -> waits e1 = waits e ->
  exists s' t', lim_release n (limit c1) t = Some (set_slots s' (limit c), t') /\
    (exists l', books one (cap m) busy out s' t' (slot_holders c1 e1) l') /\
    closed s' = closed (slots_of c) /\ permits s' <= max (limit c) /\ budget t' = budget t.
Proof.
  intros [l B] Hb Hn c1 e1 Htk Hpos Hlim Hcl Hres Hw. cbn [lim_release bounded_limit].
  rewrite Hlim. pose proof B as [Hok Hp0 Ho _ Hbal Hmx _ _ _ _ HC].
  pose proof (books_bounds _ _ _ _ _ _ _ _ B) as (? & ? & Hpm).
  destruct (Z.ltb_spec 0 n) as [Hlt | Hge].
  - assert (Hnb : n <= taken_slots c e) by lia.
    assert (Hib : isize_ok (permits (slots_of c) + n)).
    { apply MAX_isize. unfold taken_slots in *. cbn [slot_holders held minted] in Hbal, Hmx.
      rewrite total_replicate in Hbal. lia. }
    destruct (release_books _ _ t n (ok_pre _ _ Hok) Hib)
      as (s' & t' & l' & Hr & Hok' & Ht' & Hg' & Hc' & Hp' & Hbu).
    unfold slots_of in Hr. rewrite Hr. cbn [mbind option_bind].
    exists s', t'. split; [done |].
    assert (B' : books one (cap m) busy out s' t' (slot_holders c1 e1) l').
    { eapply books_slots; [exact B | ..]; try done; try lia. by rewrite Hlim. }
    split_and!; [by exists l' | done | | done].
    pose proof (free_le _ _ _ _ _ _ _ B'). unfold cap in HC. cbn [slot_holders minted] in HC. lia.
  - assert (n = 0) as -> by lia. exists (slots_of c), t.
    split; [unfold slots_of, set_slots; by destruct (limit c) |].
    split_and!; [| done | apply Hb | done].
    exists l. eapply books_slots; [exact B | ..]; try done; try lia. by rewrite Hlim.
Qed.

Lemma permit_drop_ok m busy out c t e :
  chan_ok m busy out (c, t, e) -> 0 < to_send e ->
  exists c' t', drop_permit_slot c t = Some (c', t') /\
    chan_ok m busy out (c', t', set_to_send (to_send e - 1) e).
Proof.
  intros [HB [Hb Hs]] He. unfold drop_permit_slot, give_back.
  pose proof (vlen_nonneg (queue_ c)).
  destruct (lim_release_ok m busy out c t e 1 HB Hb ltac:(lia) c (set_to_send (to_send e - 1) e))
    as (s' & t' & -> & [l' B'] & Hc' & Hp' & Hbu); unfold taken_slots; simpl; try lia; try done.
  cbn [mbind option_bind].
  destruct (ok_wake_if_finished m busy out (set_limit (set_slots s' (limit c)) c) t'
    (set_to_send (to_send e - 1) e) l') as (c2 & t2 & Hw & Hx); [done | | |].
  - destruct Hb. constructor; simpl in *; try done; [| lia]. unfold slots_of. simpl. congruence.
  - intros Ha Hw. by apply Hs.
  - rewrite Hw. by exists c2, t2.
Qed.

Lemma add_sender_ok m busy out c t e :
  chan_ok m busy out (c, t, e) -> senders c < u64_max ->
  exists c', add_sender c = Some c' /\ chan_ok m busy out (c', t, e).
Proof.
  intros [HB [Hb Hs]] He. unfold add_sender. rewrite add64_Some by lia. cbn [mbind option_bind].
  eexists. split; [reflexivity |]. split; [done |]. constructor.
  - destruct Hb. constructor; simpl in *; try done. lia.
  - intros Ha Hw. destruct (Hs Ha Hw) as [Hq Hf]. split; [done |].
    pose proof (ci_senders _ _ Hb). unfold finished, rx_is_closed, chan_len in *. simpl.
    destruct (rx_closed c); simpl in *; [done |].
    by rewrite (proj2 (Z.eqb_neq _ 0)) by lia.
Qed.

Lemma drop_sender_ok m busy out c t e :
  chan_ok m busy out (c, t, e) -> 0 < senders c ->
  exists c' t', drop_sender c t = Some (c', t') /\ chan_ok m busy out (c', t', e).
Proof.
  intros [[l B] [Hb Hs]] He. unfold drop_sender. rewrite sub64_Some by lia. cbn [mbind option_bind].
  assert (Hb' : chan_base (set_senders (senders c - 1) c) e).
  { destruct Hb. constructor; simpl in *; try done. lia. }
  destruct (Z.eqb_spec (senders c - 1) 0).
  - destruct (ok_woken m busy out (set_senders (senders c - 1) c) t e l) as (c' & t' & -> & Hx); [done .. |].
    by exists c', t'.
  - eexists _, _. split; [reflexivity |]. split; [by exists l |]. constructor; [done |].
    intros Ha Hw. destruct (Hs Ha Hw) as [Hq Hf]. split; [done |].
    unfold finished, rx_is_closed, chan_len in *. simpl in *.
    rewrite (proj2 (Z.eqb_neq (senders c) 0)) in Hf by lia.
    by rewrite (proj2 (Z.eqb_neq (senders c - 1) 0)) by lia.
Qed.

(** *** Waiting for a slot *)

Lemma drop_reserve_ok m busy out c t e a :
  chan_ok m (a :: busy) out (c, t, e) ->
  exists c' t', drop_reserve a c t = Some (c', t') /\
    chan_ok m busy out (c', t', set_reserves (reserves e) (waits e - 1) e).
Proof.
  intros [[l B] [Hb Hs]]. unfold drop_reserve.
  destruct (cancel_books _ _ _ _ _ _ _ _ _ B) as (s' & t' & l' & -> & B' & Hc & Hbu).
  cbn [mbind option_bind].
  destruct (ok_wake_if_finished m busy out (put_slots s' c) t'
    (set_reserves (reserves e) (waits e - 1) e) l') as (c2 & t2 & Hw & Hx); [done | | |].
  - pose proof (free_le _ _ _ _ _ _ _ B') as Hle. pose proof (bk_closed _ _ _ _ _ _ _ _ B) as HC.
    unfold cap in HC. cbn [slot_holders minted] in HC.
    destruct Hb. constructor; unfold slots_of in *; cbn in *; try done; [congruence | lia].
  - intros Ha Hw. by apply Hs.
  - rewrite Hw. by exists c2, t2.
Qed.

Lemma reserve_poll_ok m clone a w busy out x :
  ckeeps m clone -> chan_ok m (a :: busy) out x ->
  exists r a' c' t' e', reserve_poll clone a w x = Some (r, a', (c', t', e')) /\
    match r with
    | Ready (Ok _) =>
        0 <= to_send e' /\ chan_ok m (a' :: busy) out (c', t', set_to_send (to_send e' + 1) e')
    | _ => chan_ok m (a' :: busy) out (c', t', e')
    end.
Proof.
  destruct x as [[c t] e]. intros Hk [[l B] Hi]. unfold reserve_poll, to_sem. cbn [fst snd].
  destruct (acquire_poll_ok one (cap m) rest_clients rest_inv rest_inv ltac:(done) rest_inv_taken (clone_sem clone) a w
    busy out (slots_of c, t, (c, e)) (keeps_sem m clone Hk))
    as (r & a' & [[s' t'] [c' e']] & -> & (Hn & Hgr & _) & l' & B' & HJ').
  { exists l. split; [done |]. unfold rest_inv. simpl. by rewrite put_slots_id. }
  cbn [mbind option_bind]. unfold rest_inv in HJ'. simpl in HJ'.
  assert (Ha1 : acquire_n a = 1).
  { pose proof (bk_sizes _ _ _ _ _ _ _ _ B) as Hs. by apply Forall_cons in Hs as [[_ ?] _]. }
  destruct r as [[p | er] |].
  - unfold forget_permit, drop_permit. simpl. cbn [mbind option_bind].
    eexists (Ready (Ok OnePermit)), a', _, _, _. split; [reflexivity |].
    assert (p = 1) as -> by (destruct Hgr as [? | [= ->]]; done).
    simpl in B'. destruct HJ' as [Hb' Hs']. pose proof (ci_to_send _ _ Hb').
    pose proof (vlen_nonneg (queue_ c')).
    split; [done |].
    split; [exists l' | constructor; [destruct Hb'; constructor; simpl in *; try done; lia | done]].
    apply (books_given m _ _ _ _ c'); [done | unfold taken_slots; simpl in *; lia |].
    apply (bk_out _ _ _ _ _ _ _ _ B).
  - eexists (Ready (Err (SendErr tt))), a', _, _, _. split; [reflexivity |].
    split; [exists l' | done]. simpl in B'. by rewrite Z.add_0_r in B'.
  - eexists Pending, a', _, _, _. split; [reflexivity |].
    split; [exists l' | done]. simpl in B'. by rewrite Z.add_0_r in B'.
Qed.

Lemma send_poll_ok m clone v a w busy out x :
  ckeeps m clone -> chan_ok m (a :: busy) out x ->
  exists r a' c' t' e', send_poll clone v a w x = Some (r, a', (c', t', e')) /\
    match r with
    | Pending => chan_ok m (a' :: busy) out (c', t', e')
    | Ready (Ok _) => chan_ok m busy out
        (c', t', set_sent (sent e' ++ [v]) (set_reserves (reserves e') (waits e' - 1) e'))
    | Ready (Err _) => chan_ok m busy out (c', t', set_reserves (reserves e') (waits e' - 1) e')
    end.
Proof.
  intros Hk Hx. unfold send_poll.
  destruct (reserve_poll_ok m clone a w busy out x Hk Hx) as (r & a' & c' & t' & e' & -> & Hr).
  cbn [mbind option_bind]. destruct r as [[[] | er] |].
  - destruct Hr as [He' Hr].
    destruct (drop_reserve_ok _ _ _ _ _ _ _ Hr) as (c2 & t2 & -> & Hx2). cbn [mbind option_bind].
    set (e2 := set_reserves (reserves e') (waits e' - 1) e').
    destruct (permit_send_ok m busy out c2 t2 e2 v) as (c3 & t3 & -> & Hx3); [exact Hx2 | done |].
    by eexists (Ready (Ok tt)), _, c3, t3, e'.
  - destruct (drop_reserve_ok _ _ _ _ _ _ _ Hr) as (c2 & t2 & -> & Hx2). cbn [mbind option_bind].
    by eexists (Ready (Err (SendErr v))), _, c2, t2, e'.
  - by eexists Pending, _, c', t', e'.
Qed.

(** *** Receiving *)

Lemma pop_released_ok m busy out c t e :
  chan_ok m busy out (c, t, e) -> asleep e = false -> discarded e = [] ->
  exists v c' t', pop_released c t = Some (v, c', t') /\ budget t' = budget t /\
    match v with
    | Some v => chan_ok m busy out (c', t', set_received (received e ++ [v]) e)
    | None => c' = c /\ t' = t /\ queue_ c = []
    end.
Proof.
  intros [HB [Hb _]] Ha Hd. unfold pop_released, pop.
  destruct (queue_ c) as [|v q] eqn:Hq; [by eexists None, c, t |].
  pose proof (vlen_nonneg q). pose proof (ci_to_send _ _ Hb).
  destruct (lim_release_ok m busy out c t e 1 HB Hb ltac:(lia) (set_queue q c) e)
    as (s' & t' & Hr & [l' B'] & Hc' & Hp' & Hbu);
    [unfold taken_slots; simpl; rewrite Hq, vlen_cons; lia | unfold taken_slots; simpl; lia | done .. |].
  rewrite Hr. cbn [mbind option_bind]. eexists (Some v), _, _. split; [reflexivity |]. split; [done |].
  split; [by exists l' |]. apply inv_awake; [| done].
  destruct Hb as [? ? ? ? Ho ? ? ?].
  constructor; unfold slots_of in *; simpl in *; try done; [congruence |].
  rewrite <- Ho, Hq, Hd. simpl. by rewrite <- app_assoc.
Qed.

Lemma close_rx_ok m busy out c t e :
  chan_ok m busy out (c, t, e) -> asleep e = false ->
  exists c' t', close_rx c t = Some (c', t') /\ chan_ok m busy out (c', t', e).
Proof.
  intros [[l B] [Hb Hs]] Ha. unfold close_rx.
  destruct (rx_closed c) eqn:Hrc.
  { exists c, t. split; [done |]. split; [by exists l | done]. }
  cbn [lim_close bounded_limit]. simpl (slots_ _).
  pose proof B as [Hok Hp0 _ _ _ _ _ _ _ _ _].
  destruct (close_ok (slots_of c) l t Hok) as (s' & Hcl & Hok' & Hc' & Hp').
  unfold slots_of in Hcl. rewrite Hcl. cbn [mbind option_bind].
  destruct (ci_waits _ _ Hb) as (lw & Hlw). simpl (closed_waiters _).
  set (t1 := if closed (slots_ (limit c)) then t else wake_all (queue l).*2 t).
  assert (Ht1 : budget t1 = budget t).
  { unfold t1. destruct (closed _); [done | apply wake_all_budget]. }
  destruct (wake_closed_ok (closed_waiters c) lw t1 Hlw) as (ws & -> & Hws). cbn [mbind option_bind].
  eexists _, _. split; [reflexivity |].
  pose proof (rep_distinct _ _ (pre_rep _ _ (ok_pre _ _ Hok))) as Hlo.
  destruct (mark_all_books Closed (queue l) [] (results l)) as [Ht Hg]; [by right | |].
  { rewrite app_nil_r. by destruct l. }
  rewrite app_nil_r in Ht. rewrite bool_decide_eq_false_2 in Hg by done.
  pose proof (vlen_nonneg (queue_ c)). pose proof (ci_to_send _ _ Hb).
  split.
  - exists (Line [] (mark_all Closed (queue l) (results l))).
    eapply books_slots; [exact B | ..]; unfold taken_slots; try done; cbn; try lia.
    by rewrite wake_all_budget.
  - apply inv_awake; [| done]. destruct Hb. constructor; unfold slots_of in *; cbn in *; try done; [lia |].
    eauto.
Qed.

Lemma drop_rx_ok m busy out c t e :
  chan_ok m busy out (c, t, e) -> asleep e = false -> discarded e = [] -> rx_here e = false ->
  rxb = false ->
  exists rest c' t', drop_rx c t = Some (rest, c', t') /\
    chan_ok m busy out (c', t', set_discarded (discarded e ++ rest) e).
Proof.
  intros Hx Ha Hd Hh Hrx. unfold drop_rx.
  destruct (close_rx_ok m busy out c t e Hx Ha) as (c1 & t1 & -> & [HB1 [Hb1 _]]).
  cbn [mbind option_bind]. pose proof (vlen_nonneg (queue_ c1)). pose proof (ci_to_send _ _ Hb1).
  set (c2 := set_queue [] (set_rx_waker None c1)).
  destruct (lim_release_ok m busy out c1 t1 e (vlen (queue_ c1)) HB1 Hb1 ltac:(lia) c2
    (set_discarded (discarded e ++ queue_ c1) e))
    as (s' & t' & Hr & [l' B'] & Hc' & Hp' & Hbu);
    [unfold taken_slots; simpl; change (vlen (@nil T)) with 0; lia .. | done | done | done | done |].
  cbn [queue_ set_rx_waker]. fold c2. rewrite Hr. cbn [mbind option_bind].
  eexists _, _, _. split; [reflexivity |]. split; [by exists l' |]. apply inv_awake; [| done].
  destruct Hb1 as [? ? ? ? Ho ? ? ?].
  constructor; unfold slots_of in *; simpl in *; try done; [congruence | |].
  - rewrite <- Ho, app_nil_r. done.
  - intros [Hx' | Hx']; congruence.
Qed.
End inv.

(** **** The receiver's polls *)

Section recv.
Context (m : Z) (clone : BWorld -> option BWorld) (Hclone : ckeeps true m clone).

Lemma ok_thread rxb busy out c t e t' :
  chan_ok rxb m busy out (c, t, e) -> budget_ok t' -> chan_ok rxb m busy out (c, t', e).
Proof. intros [[l B] Hi] Ht. split; [| done]. exists l. by eapply books_thread. Qed.

Lemma ok_spent rxb busy out c t e :
  chan_ok rxb m busy out (c, t, e) -> chan_ok rxb m busy out (c, spent_one t, e).
Proof.
  intros Hx. eapply ok_thread; [exact Hx |]. destruct Hx as [[l B] _]. by eapply books_spent.
Qed.

Lemma in_poll busy out c t e :
  chan_ok true m busy out (c, t, e) -> asleep e = false /\ discarded e = [].
Proof.
  intros [_ [Hb _]]. destruct (ci_poll _ _ _ Hb eq_refl). split; [done |].
  apply (ci_gone _ _ _ Hb). by right.
Qed.

Lemma ok_rx_waker busy out c t e w :
  chan_ok true m busy out (c, t, e) -> chan_ok true m busy out (set_rx_waker w c, t, e).
Proof.
  intros Hx. destruct (in_poll _ _ _ _ _ Hx) as [Ha _]. destruct Hx as [HB [Hb _]].
  split; [done |]. apply inv_awake; [by destruct Hb; constructor | done].
Qed.

Lemma register_rx_ok busy out c t e w :
  chan_ok true m busy out (c, t, e) ->
  exists b c' t' e', register_rx clone w (c, t, e) = Some (b, (c', t', e')) /\
    chan_ok true m busy out (c', t', e') /\ rx_waker c' <> None /\
    (b = false -> queue_ c' = queue_ c).
Proof.
  intros Hx. unfold register_rx. destruct (match rx_waker c with Some o => _ | None => _ end) eqn:E.
  - eexists false, _, _, _. split; [reflexivity |].
    split; [by apply ok_rx_waker, ok_rx_waker |]. split; [| done].
    simpl. by destruct (rx_waker c).
  - destruct (Hclone busy out _ (ok_rx_waker _ _ _ _ _ None Hx)) as ([[c' t'] e'] & -> & Hx').
    cbn [mbind option_bind]. eexists true, _, _, _. split; [reflexivity |].
    split; [by apply ok_rx_waker |]. done.
Qed.

(** What a poll of the receiver leaves. *)
Definition recv_done busy out t (r : Poll (option T)) c' t' e' : Prop :=
  match r with
  | Ready (Some v) => chan_ok true m busy out (c', t', set_received (received e' ++ [v]) e')
  | Ready None => chan_ok true m busy out (c', t', e')
  | Pending => chan_ok true m busy out (c', t', e') /\
      (budget t <> 0 -> queue_ c' = [] /\ finished c' = false)
  end.

Lemma look_again_ok busy out t0 c t e :
  chan_ok true m busy out (c, t, e) ->
  exists r c' t' e', look_again (c, t, e) = Some (r, (c', t', e')) /\
    recv_done busy out t0 r c' t' e'.
Proof.
  intros Hx. destruct (in_poll _ _ _ _ _ Hx) as [Ha Hd]. unfold look_again.
  destruct (pop_released_ok true m busy out c t e Hx Ha Hd) as (v & c' & t' & -> & Hbu & Hv).
  cbn [mbind option_bind]. destruct v as [v|].
  - eexists (Ready (Some v)), _, _, _. split; [reflexivity |]. by apply ok_spent.
  - destruct Hv as (-> & -> & Hq). destruct (finished c) eqn:Hf.
    + eexists (Ready None), _, _, _. split; [reflexivity |]. by apply ok_spent.
    + eexists Pending, _, _, _. by split; [reflexivity |].
Qed.

Lemma poll_recv_ok busy out c t e w :
  chan_ok true m busy out (c, t, e) ->
  exists r c' t' e', poll_recv clone w (c, t, e) = Some (r, (c', t', e')) /\
    recv_done busy out t r c' t' e'.
Proof.
  intros Hx. destruct (in_poll _ _ _ _ _ Hx) as [Ha Hd]. unfold poll_recv. rewrite exhausted_spec.
  destruct (Z.eqb_spec (budget t) 0) as [Hb0 | Hb0].
  { eexists Pending, _, _, _. split; [reflexivity |]. split; [| done].
    eapply ok_thread; [exact Hx |]. destruct Hx as [[l B] _]. apply (bk_budget _ _ _ _ _ _ _ _ B). }
  destruct (pop_released_ok true m busy out c t e Hx Ha Hd) as (v & c' & t' & -> & Hbu & Hv).
  cbn [mbind option_bind]. destruct v as [v|].
  { eexists (Ready (Some v)), _, _, _. split; [reflexivity |]. by apply ok_spent. }
  destruct Hv as (-> & -> & Hq).
  destruct (register_rx_ok busy out c t e w Hx) as (b & c1 & t1 & e1 & -> & Hx1 & Hw & Hq1).
  cbn [mbind option_bind].
  destruct (b && negb (chan_len c1 =? 0)) eqn:Hl; [by apply look_again_ok |].
  destruct (finished c1) eqn:Hf.
  - eexists (Ready None), _, _, _. split; [reflexivity |]. by apply ok_spent, ok_rx_waker.
  - eexists Pending, _, _, _. split; [reflexivity |]. split; [done |]. intros _. split; [| done].
    destruct b; simpl in Hl; [| by rewrite Hq1].
    apply negb_false_iff, Z.eqb_eq in Hl. unfold chan_len, vlen in Hl.
    destruct (queue_ c1); [done | simpl in Hl; lia].
Qed.

Lemma take_released_ok busy out c t e buf n :
  chan_ok true m busy out (c, t, set_received (received e ++ buf) e) -> 0 < n ->
  exists k buf' c' t', take_released buf n c t = Some (k, buf', c', t') /\
    chan_ok true m busy out (c', t', set_received (received e ++ buf') e) /\
    (k <= 0 -> buf' = buf /\ queue_ c = [] /\ queue_ c' = []).
Proof.
  intros Hx Hn. destruct (in_poll _ _ _ _ _ Hx) as [Ha Hd]. unfold take_released, take_many.
  pose proof (vlen_nonneg (queue_ c)) as Hv. set (k := Z.min (vlen (queue_ c)) n).
  destruct (Z.ltb_spec 0 k) as [Hk | Hk].
  - destruct Hx as [HB [Hb _]]. pose proof (ci_to_send _ _ _ Hb).
    set (e' := set_received (received e ++ buf) e) in *.
    assert (Hlen : vlen (skipn (Z.to_nat k) (queue_ c)) = vlen (queue_ c) - k).
    { unfold vlen in *. rewrite length_skipn. lia. }
    destruct (lim_release_ok true m busy out c t e' k HB Hb ltac:(lia)
      (set_queue (skipn (Z.to_nat k) (queue_ c)) c)
      (set_received (received e ++ buf ++ firstn (Z.to_nat k) (queue_ c)) e))
      as (s' & t' & Hr & [l' B'] & Hc' & Hp' & Hbu);
      [unfold taken_slots; simpl in *; rewrite Hlen; lia .. | done | done | done | done |].
    rewrite Hr. cbn [mbind option_bind]. eexists _, _, _, _. split; [reflexivity |].
    split; [| intros; lia]. split; [by exists l' |]. apply inv_awake; [| done].
    destruct Hb as [? ? ? ? Ho ? ? ?].
    constructor; unfold slots_of in *; simpl in *; try done; [congruence |].
    rewrite <- Ho, Hd. simpl. rewrite <- !app_assoc, firstn_skipn. done.
  - assert (Hq : queue_ c = []).
    { unfold k in Hk. clear k. destruct (queue_ c) as [|x q]; [done |].
      rewrite vlen_cons in Hk. pose proof (vlen_nonneg q). lia. }
    assert (Hk0 : k = 0) by (unfold k, vlen; rewrite Hq; simpl; lia).
    eexists _, _, _, _. split; [reflexivity |]. rewrite Hk0, Hq. simpl. rewrite app_nil_r.
    split; [| done]. replace (set_queue [] c) with c; [done |]. destruct c. simpl in *. by subst.
Qed.

Definition recv_many_done busy out t (r : Poll Z) buf c' t' e' : Prop :=
  chan_ok true m busy out (c', t', set_received (received e' ++ buf) e') /\
  (is_pending r = true -> budget t <> 0 -> queue_ c' = [] /\ finished c' = false).

Lemma received_nil e : set_received (received e ++ []) e = e.
Proof. rewrite app_nil_r. by destruct e. Qed.

Lemma look_again_many_ok busy out t0 c t e n :
  chan_ok true m busy out (c, t, e) -> 0 < n ->
  exists r buf c' t' e', look_again_many [] n (c, t, e) = Some (r, buf, (c', t', e')) /\
    recv_many_done busy out t0 r buf c' t' e'.
Proof.
  intros Hx Hn. unfold look_again_many.
  destruct (take_released_ok busy out c t e [] n) as (k & buf & c' & t' & -> & Hx' & Hk);
    [by rewrite received_nil | done |].
  cbn [mbind option_bind]. destruct (Z.ltb_spec 0 k) as [Hp | Hp].
  - eexists (Ready k), _, _, _, _. split; [reflexivity |]. split; [by apply ok_spent | done].
  - destruct (Hk Hp) as (-> & _ & Hq). destruct (finished c') eqn:Hf.
    + eexists (Ready 0), _, _, _, _. split; [reflexivity |]. split; [by apply ok_spent | done].
    + eexists Pending, _, _, _, _. split; [reflexivity |]. by split.
Qed.

Lemma poll_recv_many_ok busy out c t e w n :
  chan_ok true m busy out (c, t, e) -> 0 <= n ->
  exists r buf c' t' e', poll_recv_many clone w [] n (c, t, e) = Some (r, buf, (c', t', e')) /\
    recv_many_done busy out t r buf c' t' e'.
Proof.
  intros Hx Hn. unfold poll_recv_many. destruct (Z.eqb_spec n 0) as [-> | Hn0].
  { eexists (Ready 0), _, _, _, _. split; [reflexivity |]. split; [| done]. by rewrite received_nil. }
  rewrite exhausted_spec. destruct (Z.eqb_spec (budget t) 0) as [Hb0 | Hb0].
  { eexists Pending, _, _, _, _. split; [reflexivity |]. split; [| done]. rewrite received_nil.
    eapply ok_thread; [exact Hx |]. destruct Hx as [[l B] _]. apply (bk_budget _ _ _ _ _ _ _ _ B). }
  destruct (take_released_ok busy out c t e [] n) as (k & buf & c' & t' & -> & Hx' & Hk);
    [by rewrite received_nil | lia |].
  cbn [mbind option_bind]. destruct (Z.ltb_spec 0 k) as [Hp | Hp].
  { eexists (Ready k), _, _, _, _. split; [reflexivity |]. split; [by apply ok_spent | done]. }
  destruct (Hk Hp) as (-> & _ & Hq). rewrite received_nil in Hx'.
  destruct (register_rx_ok busy out c' t' e w Hx') as (b & c1 & t1 & e1 & -> & Hx1 & Hw & Hq1).
  cbn [mbind option_bind].
  destruct (b && negb (chan_len c1 =? 0)) eqn:Hl; [apply look_again_many_ok; [done | lia] |].
  destruct (finished c1) eqn:Hf.
  - eexists (Ready 0), _, _, _, _. split; [reflexivity |]. split; [| done]. rewrite received_nil.
    by apply ok_spent, ok_rx_waker.
  - eexists Pending, _, _, _, _. split; [reflexivity |]. split; [by rewrite received_nil |].
    intros _ _. split; [| done]. destruct b; simpl in Hl; [| by rewrite Hq1].
    apply negb_false_iff, Z.eqb_eq in Hl. unfold chan_len, vlen in Hl.
    destruct (queue_ c1); [done | simpl in Hl; lia].
Qed.
End recv.

(** The receiver goes into a poll and comes back. *)
Lemma rx_borrow rxb m busy out c t e :
  chan_ok rxb m busy out (c, t, e) -> rx_here e = true ->
  rxb = false /\ chan_ok true m busy out (c, t, set_rx false false e).
Proof.
  intros [HB [Hb _]] Hh. assert (rxb = false) as ->.
  { destruct rxb; [| done]. destruct (ci_poll _ _ _ Hb eq_refl). congruence. }
  split; [done |]. split; [done |]. apply inv_awake; [| done].
  destruct Hb as [? ? ? ? ? Hg ? ?]. constructor; simpl; try done. intros _. apply Hg. by left.
Qed.

Lemma ok_pended rxb m busy out c t e p : chan_ok rxb m busy out (c, t, e) -> chan_ok rxb m busy out (c, t, set_pended p e).
Proof. intros [HB [[] Hs]]. split; [done |]. by constructor; [constructor |]. Qed.

Lemma rx_return m busy out c t e z :
  chan_ok true m busy out (c, t, e) -> (z = true -> queue_ c = [] /\ finished c = false) ->
  chan_ok false m busy out (c, t, set_rx true z e).
Proof.
  intros [HB [Hb _]] Hz. split; [done |]. constructor; [| intros Hzz _; by apply Hz].
  destruct Hb as [? ? ? ? ? Hg ? ?]. constructor; simpl; try done. intros _. apply Hg. by right.
Qed.

(** A wait for a slot goes into a poll and comes back. *)
Lemma inv_reserves rxb c e rs n : chan_inv rxb c e -> chan_inv rxb c (set_reserves rs n e).
Proof. intros [[] Hs]. constructor; [by constructor | done]. Qed.

Lemma reserve_borrow rxb m busy out c t e i a :
  chan_ok rxb m busy out (c, t, e) -> reserves e !! i = Some a ->
  chan_ok rxb m (a :: busy) out (c, t, set_reserves (delete i (reserves e)) (waits e) e).
Proof.
  intros [[l B] Hi] Hr. split; [exists l | by apply inv_reserves].
  eapply books_perm; [exact B | | done ..]. simpl. rewrite (delete_Permutation _ _ _ Hr) at 1.
  by rewrite <- Permutation_middle.
Qed.

Lemma reserve_return rxb m busy out c t e a :
  chan_ok rxb m (a :: busy) out (c, t, e) ->
  chan_ok rxb m busy out (c, t, set_reserves (a :: reserves e) (waits e) e).
Proof.
  intros [[l B] Hi]. split; [exists l | by apply inv_reserves].
  eapply books_perm; [exact B | | done ..]. simpl. by rewrite <- Permutation_middle.
Qed.

Lemma reserve_new rxb m busy out c t e :
  chan_ok rxb m busy out (c, t, e) -> waits e < isize_max ->
  chan_ok rxb m busy out (c, t,
    set_reserves ({| acquire_n := 1; acquire_key := None |} :: reserves e) (waits e + 1) e).
Proof.
  intros [[l B] Hi] Hw. split; [exists l | by apply inv_reserves].
  destruct B as [? ? ? ? ? ? ? ? [? ?] ? ?]. constructor; simpl in *; try done.
  - by rewrite <- Permutation_middle.
  - rewrite <- Permutation_middle. apply Forall_cons. split; [| done]. simpl.
    rewrite MAX_PERMITS_eq. split; [lia | done].
  - rewrite !vlen_app, vlen_cons in *. lia.
Qed.

Definition ckeeps_all m (f : BWorld -> option BWorld) : Prop := forall rxb, ckeeps rxb m f.

Lemma cop_send_keeps m o :
  match o with
  | KTrySend _ | KTryReserve | KPermitSend _ | KPermitDrop | KReserve | KReserveDrop _
  | KAddSender | KDropSender => True
  | _ => False
  end -> ckeeps_all m (run_cop o).
Proof.
  intros Ho rxb busy out [[c t] e] Hx. destruct o as [v| |v| | |i w inner|i v w inner|i| | |w inner|w n inner| | |];
    try done; cbn [run_cop].
  - destruct (try_send_ok rxb m busy out c t e v Hx) as (r & c' & t' & -> & Hx').
    cbn [mbind option_bind]. by eexists.
  - destruct (try_reserve_ok rxb m busy out c t e Hx) as (r & s' & -> & Hx').
    cbn [mbind option_bind]. by eexists.
  - destruct (Z.ltb_spec 0 (to_send e)); [| by eexists].
    destruct (permit_send_ok rxb m busy out c t (set_to_send (to_send e - 1) e) v) as (c' & t' & -> & Hx');
      [| simpl; lia | by eexists].
    replace (set_to_send _ _) with e; [done |]. destruct e. unfold set_to_send. simpl. f_equal. lia.
  - destruct (Z.ltb_spec 0 (to_send e)); [| by eexists].
    destruct (permit_drop_ok rxb m busy out c t e Hx) as (c' & t' & -> & Hx'); [done |].
    cbn [mbind option_bind]. by eexists.
  - destruct (Z.ltb_spec (waits e) isize_max); [| by eexists].
    eexists. split; [reflexivity |]. by apply reserve_new.
  - destruct (reserves e !! i) as [a|] eqn:Hi; [| by eexists].
    destruct (drop_reserve_ok rxb m busy out c t _ a (reserve_borrow _ _ _ _ _ _ _ _ _ Hx Hi))
      as (c' & t' & -> & Hx'). cbn [mbind option_bind]. by eexists.
  - destruct (Z.ltb_spec (senders c) u64_max); [| by eexists].
    destruct (add_sender_ok rxb m busy out c t e Hx) as (c' & -> & Hx'); [done |]. by eexists.
  - destruct (Z.ltb_spec 0 (senders c)); [| by eexists].
    destruct (drop_sender_ok rxb m busy out c t e Hx) as (c' & t' & -> & Hx'); [done |]. by eexists.
Qed.

Lemma cop_wait_keeps m i w inner :
  ckeeps_all m (run_cops inner) -> ckeeps_all m (run_cop (KReservePoll i w inner)).
Proof.
  intros Hk rxb busy out [[c t] e] Hx. cbn [run_cop]. fold run_cops.
  destruct (reserves e !! i) as [a|] eqn:Hi; [| by eexists].
  destruct (reserve_poll_ok rxb m (run_cops inner) a w busy out _ (Hk rxb)
    (reserve_borrow _ _ _ _ _ _ _ _ _ Hx Hi)) as (r & a' & c' & t' & e' & -> & Hr).
  cbn [mbind option_bind]. destruct r as [[[] | er] |].
  - destruct Hr as [He' Hr].
    destruct (drop_reserve_ok rxb _ _ _ _ _ _ _ Hr) as (c2 & t2 & -> & Hx2). by eexists.
  - destruct (drop_reserve_ok rxb _ _ _ _ _ _ _ Hr) as (c2 & t2 & -> & Hx2). by eexists.
  - eexists. split; [reflexivity |]. by apply reserve_return.
Qed.

Lemma cop_send_poll_keeps m i v w inner :
  ckeeps_all m (run_cops inner) -> ckeeps_all m (run_cop (KSendPoll i v w inner)).
Proof.
  intros Hk rxb busy out [[c t] e] Hx. cbn [run_cop]. fold run_cops.
  destruct (reserves e !! i) as [a|] eqn:Hi; [| by eexists].
  destruct (send_poll_ok rxb m (run_cops inner) v a w busy out _ (Hk rxb)
    (reserve_borrow _ _ _ _ _ _ _ _ _ Hx Hi)) as (r & a' & c' & t' & e' & -> & Hr).
  cbn [mbind option_bind]. destruct r as [[u | er] |]; [by eexists | by eexists |].
  eexists. split; [reflexivity |]. by apply reserve_return.
Qed.

Lemma sleeps_pending {A} (r : Poll A) t : sleeps r t = true -> is_pending r = true /\ budget t <> 0.
Proof. unfold sleeps. intros [? Hb]%andb_true_iff. apply negb_true_iff, Z.eqb_neq in Hb. done. Qed.

Lemma cop_recv_keeps m w inner :
  ckeeps_all m (run_cops inner) -> ckeeps_all m (run_cop (KRecv w inner)).
Proof.
  intros Hk rxb busy out [[c t] e] Hx. cbn [run_cop]. fold run_cops.
  destruct (rx_here e) eqn:Hh; [| by eexists].
  destruct (rx_borrow _ _ _ _ _ _ _ Hx Hh) as [-> Hx1].
  destruct (poll_recv_ok m (run_cops inner) (Hk true) busy out c t _ w Hx1)
    as (r & c' & t' & e' & -> & Hd).
  cbn [mbind option_bind]. eexists. split; [reflexivity |]. apply ok_pended. unfold recv_done in Hd.
  destruct r as [[v|] |]; [by apply rx_return | by apply rx_return |].
  destruct Hd as [Hx' Hd]. apply rx_return; [done |].
  intros [_ Hb]%sleeps_pending. by apply Hd.
Qed.

Lemma cop_recv_many_keeps m w n inner :
  ckeeps_all m (run_cops inner) -> ckeeps_all m (run_cop (KRecvMany w n inner)).
Proof.
  intros Hk rxb busy out [[c t] e] Hx. cbn [run_cop]. fold run_cops.
  destruct (rx_here e) eqn:Hh; [| by eexists]. simpl.
  destruct (Z.leb_spec 0 n); [| by eexists].
  destruct (rx_borrow _ _ _ _ _ _ _ Hx Hh) as [-> Hx1].
  destruct (poll_recv_many_ok m (run_cops inner) (Hk true) busy out c t _ w n Hx1)
    as (r & buf & c' & t' & e' & -> & Hx' & Hd); [done |].
  cbn [mbind option_bind]. eexists. split; [reflexivity |]. apply ok_pended, rx_return; [done |].
  intros [Hp Hb]%sleeps_pending. by apply Hd.
Qed.

(** The receiver's calls that do not wait. *)
Lemma rx_awake rxb m busy out c t e :
  chan_ok rxb m busy out (c, t, e) -> rx_here e = true ->
  rxb = false /\ chan_ok false m busy out (c, t, set_rx true false e) /\ discarded e = [].
Proof.
  intros Hx Hh. destruct (rx_borrow _ _ _ _ _ _ _ Hx Hh) as [-> Hx1]. split; [done |].
  split; [| by apply (ci_gone _ _ _ (ci_base _ _ _ (proj2 Hx))); left].
  by apply (rx_return _ _ _ _ _ (set_rx false false e) false).
Qed.

Lemma cop_rx_keeps m o :
  match o with KTryRecv | KClose | KDropRx => True | _ => False end -> ckeeps_all m (run_cop o).
Proof.
  intros Ho rxb busy out [[c t] e] Hx. destruct o; try done; cbn [run_cop];
    (destruct (rx_here e) eqn:Hh; [| by eexists]);
    destruct (rx_awake _ _ _ _ _ _ _ Hx Hh) as (-> & Hx1 & Hd).
  - unfold try_recv.
    destruct (pop_released_ok false m busy out c t _ Hx1 eq_refl Hd) as (v & c' & t' & -> & _ & Hv).
    cbn [mbind option_bind]. destruct v as [v|]; [by eexists |].
    destruct Hv as (-> & -> & _). by eexists.
  - destruct (close_rx_ok false m busy out c t _ Hx1 eq_refl) as (c' & t' & -> & Hx'). by eexists.
  - assert (Hx2 : chan_ok false m busy out (c, t, set_rx false false e)).
    { destruct Hx1 as [HB [Hb _]]. split; [done |]. apply inv_awake; [| done].
      destruct Hb. constructor; simpl; try done. }
    destruct (drop_rx_ok false m busy out c t _ Hx2) as (rest & c' & t' & -> & Hx'); [done .. |].
    by eexists.
Qed.

Fixpoint run_cop_ok m (o : cop T) {struct o} : ckeeps_all m (run_cop o).
Proof.
  assert (Hall : forall os, (fix all os := match os with [] => True | o :: os =>
    ckeeps_all m (run_cop o) /\ all os end) os -> ckeeps_all m (run_cops os)).
  { induction os as [|o' os IH]; intros Ho rxb busy out x Hx; [by eexists |].
    destruct Ho as [Ho Hos]. cbn [run_cops].
    destruct (Ho rxb busy out x Hx) as (x1 & -> & Hx1). exact (IH Hos rxb busy out x1 Hx1). }
  destruct o as [v| |v| | |i w inner|i v w inner|i| | |w inner|w n inner| | |];
    try (apply cop_send_keeps; exact I); try (apply cop_rx_keeps; exact I).
  - apply cop_wait_keeps, Hall. induction inner as [|o os IH]; [exact I |].
    exact (conj (run_cop_ok m o) IH).
  - apply cop_send_poll_keeps, Hall. induction inner as [|o os IH]; [exact I |].
    exact (conj (run_cop_ok m o) IH).
  - apply cop_recv_keeps, Hall. induction inner as [|o os IH]; [exact I |].
    exact (conj (run_cop_ok m o) IH).
  - apply cop_recv_many_keeps, Hall. induction inner as [|o os IH]; [exact I |].
    exact (conj (run_cop_ok m o) IH).
Qed.

Lemma run_cops_ok m os : ckeeps_all m (run_cops os).
Proof.
  induction os as [|o os IH]; intros rxb busy out x Hx; [by eexists |]. cbn [run_cops].
  destruct (run_cop_ok m o rxb busy out x Hx) as (x1 & -> & Hx1). exact (IH rxb busy out x1 Hx1).
Qed.

Lemma channel_ok n :
  0 < n <= MAX_PERMITS ->
  exists c0, channel (W := W) (T := T) n = Some c0 /\
    chan_ok false n [] 0 (c0, thread_new, new_ends).
Proof.
  intros Hn. unfold channel. destruct (Z.ltb_spec 0 n); [| lia].
  destruct (semaphore_new_ok (W := W) n) as (s0 & -> & Hp & Hcl & Hok); [lia |].
  cbn [mbind option_bind]. eexists. split; [reflexivity |]. split.
  - exists line_new. constructor; cbn; try done; try lia.
    change (granted_sum ∅) with 0. unfold slots_of. simpl. lia.
  - apply inv_awake; [| done]. constructor; cbn; try done.
    + unfold slots_of. simpl. lia.
    + exists line_new. apply rep_new.
Qed.
End programs.

(** ** Wakes

    What the calls do to the wakes the thread made: they add to them, and a
    receiver's waker that leaves the channel is woken. *)

Lemma passes_keep {S : Type} (P : S -> Prop) (body : S -> option (flow S)) :
  (forall s f, body s = Some f -> P s -> P (match f with Go s | Stop s => s end)) ->
  forall p s f, passes p body s = Some f -> P s -> P (match f with Go s | Stop s => s end).
Proof.
  intros Hb p. induction p as [p IH|p IH|]; intros s f; cbn [passes]; [| | apply Hb].
  - destruct (body s) as [[s1|s1]|] eqn:E; [| intros [= <-]; exact (Hb _ _ E) | done].
    destruct (passes p body s1) as [[s2|s2]|] eqn:E1; [| | done].
    + intros E2 Hs. apply (IH _ _ E2), (IH _ _ E1), (Hb _ _ E), Hs.
    + intros [= <-] Hs. apply (IH _ _ E1), (Hb _ _ E), Hs.
  - destruct (passes p body s) as [[s1|s1]|] eqn:E; [| intros [= <-]; exact (IH _ _ E) | done].
    intros E2 Hs. apply (IH _ _ E2), (IH _ _ E), Hs.
Qed.

Lemma while_keeps {S : Type} (P : S -> Prop) (body : S -> option (flow S)) fuel s s' :
  (forall s f, body s = Some f -> P s -> P (match f with Go s | Stop s => s end)) ->
  while fuel body s = Some s' -> P s -> P s'.
Proof.
  intros Hb. unfold while. destruct (passes _ body s) as [[s1|s1]|] eqn:E; [done | | done].
  intros [= <-]. exact (passes_keep P body Hb _ _ _ E).
Qed.

(** The wakes of a thread are those of another, and later ones. *)
Definition later (t t' : Thread) : Prop := woken t `prefix_of` woken t'.

#[global] Instance later_preorder : PreOrder later.
Proof. unfold later. split; [intros t; reflexivity | intros t1 t2 t3 H1 H2; by etrans]. Qed.
#[local] Hint Extern 0 (later ?t ?t) => reflexivity : core.

Lemma later_wake w t : later t (wake w t).
Proof. by exists [w]. Qed.
Lemma later_spent t : later t (spent_one t).
Proof. exists []. by rewrite app_nil_r. Qed.
Lemma later_exhausted w t : later t (exhausted w t).2.
Proof. rewrite exhausted_spec. destruct (_ =? _); cbn; [by exists [w] | done]. Qed.
#[local] Hint Resolve later_wake later_spent later_exhausted : later.

(** Takes an equation between binds apart. *)
Section wakes.
Context {W : Type} `{WaiterList W} {T : Type}.

Lemma later_serve s t s' t' : serve s t = Some (s', t') -> later t t'.
Proof.
  unfold serve. destruct (closed s); [by intros [= <- <-] |]. destruct (permits s <? 0); [by intros [= <- <-] |].
  destruct (front_fits _ _) as [[]|]; cbn; [| by intros [= <- <-] | done]. unfold serve_waiters. intros E.
  apply (while_keeps (fun x => later t x.2)) in E; [done | | done]. clear s' t' E.
  intros [s1 t1] f. unfold serve_one. destruct (permits s1 <? 0); [by intros [= <-] |].
  destruct (grant_front_if _ _) as [[[[need waker]|] ws]|]; cbn; [| by intros [= <-] | done].
  destruct (sub_isize _ _); cbn; [| done]. intros [= <-] Ht. cbn in *. destruct waker; [etrans; eauto with later | done].
Qed.

Lemma later_wake_closed (ws : W) t ws' t' : wake_closed ws t = Some (ws', t') -> later t t'.
Proof.
  unfold wake_closed. intros E. apply (while_keeps (fun x => later t x.2)) in E; [done | | done]. clear ws' t' E.
  intros [w1 t1] f. unfold close_one. destruct (close_front w1) as [[[[wk|]|] w2]|]; cbn; [| | | done]; intros [= <-] Ht; cbn in *; try done.
  etrans; eauto with later.
Qed.

Lemma later_release n s t s' t' : release n s t = Some (s', t') -> later t t'.
Proof. apply later_serve. Qed.

Lemma later_close s t s' t' : close s t = Some (s', t') -> later t t'.
Proof.
  unfold close. destruct (closed s); [by intros [= <- <-] |]. destruct (wake_closed _ t) as [[ws t1]|] eqn:E; cbn; [| done].
  intros [= <- <-]. by apply later_wake_closed in E.
Qed.

Lemma later_cancel a s t a' s' t' : acquire_cancel a s t = Some (a', s', t') -> later t t'.
Proof.
  unfold acquire_cancel. destruct (acquire_key a) as [k|] eqn:Ek; [| by intros [= <- <- <-]]. unfold leave_line. rewrite Ek.
  destruct (cancel k _) as [[[[st front] wk] ws]|]; cbn; [| done].
  destruct (match st with Waiting => _ | _ => _ end) as [[s1 t1]|] eqn:E; cbn; [| done]. intros [= <- <- <-].
  destruct st, front; first [by injection E as <- <- | by apply later_release in E | by apply later_serve in E].
Qed.

Lemma later_lim_release n (l : Bounded W) t l' t' : lim_release n l t = Some (l', t') -> later t t'.
Proof.
  cbn. destruct (0 <? n); [| by intros [= <- <-]]. destruct (release n _ t) as [[s1 t1]|] eqn:E; cbn; [| done].
  intros [= <- <-]. by apply later_release in E.
Qed.

(** *** Polls of a semaphore *)

(** What holds whatever becomes of the semaphore, and however many are woken,
    outlasts a poll if the clones keep it. *)
Section acquire.
Context {G : Type} (clone : World W G -> option (World W G)) (P : Thread -> G -> Prop).
Context (P_later : forall t t' g, P t g -> later t t' -> P t' g).
Context (P_clone : forall s t g s' t' g', clone (s, t, g) = Some (s', t', g') -> P t g -> P t' g').

Lemma queue_poll_keeps a w s t g r a' s' t' g' :
  queue_poll clone a w (s, t, g) = Some (r, a', (s', t', g')) -> P t g -> P t' g'.
Proof using P_later P_clone.
  unfold queue_poll. destruct (clone (s, t, g)) as [[[s1 t1] g1]|] eqn:E; cbn; [| done]. intros Ep Hp.
  apply (P_clone _ _ _ _ _ _ E) in Hp. destruct (closed s1); [injection Ep as <- <- <- <- <-; eauto with later |].
  destruct (take_now _ s1) as [[s2|]|]; cbn in Ep; [injection Ep as <- <- <- <- <-; eauto with later | | done].
  destruct (push _ w _) as [[k ws]|]; cbn in Ep; [| done]. by injection Ep as <- <- <- <- <-.
Qed.

Lemma first_poll_keeps a w s t g r a' s' t' g' :
  first_poll clone a w (s, t, g) = Some (r, a', (s', t', g')) -> P t g -> P t' g'.
Proof using P_later P_clone.
  unfold first_poll. pose proof (later_exhausted w t) as Hl. destruct (exhausted w t) as [spent t1]. cbn in Hl. intros Ep Hp.
  apply (P_later _ _ _ Hp) in Hl. destruct spent; [by injection Ep as <- <- <- <- <- |].
  destruct (closed s); [injection Ep as <- <- <- <- <-; eauto with later |].
  destruct (take_now _ s) as [[s2|]|]; cbn in Ep; [injection Ep as <- <- <- <- <-; eauto with later | | done].
  by eapply queue_poll_keeps.
Qed.

Lemma refresh_keeps k w s t g st s' t' g' :
  refresh get_waiters put_waiters clone k w (s, t, g) = Some (st, (s', t', g')) -> P t g -> P t' g'.
Proof using P_later P_clone.
  unfold refresh. destruct (refresh_look _ _ _) as [st1 []]; [by intros [= <- <- <- <-] |].
  destruct (clone (s, t, g)) as [[[s2 t2] g2]|] eqn:Ec; cbn; [| done]. destruct (refresh_clone _ _ _). intros [= <- <- <- <-]. eauto.
Qed.

Lemma acquire_poll_keeps a w s t g r a' s' t' g' :
  acquire_poll clone a w (s, t, g) = Some (r, a', (s', t', g')) -> P t g -> P t' g'.
Proof using P_later P_clone.
  unfold acquire_poll. destruct (acquire_key a) as [k|]; [| apply first_poll_keeps].
  destruct (refresh _ _ _ _ _ _) as [[st [[s1 t1] g1]]|] eqn:E; cbn [mbind option_bind]; [| done]. intros Ep Hp. apply (refresh_keeps _ _ _ _ _ _ _ _ _ E) in Hp.
  destruct st; try (by injection Ep as <- <- <- <- <-); try (by eapply first_poll_keeps);
    (destruct (take k _); cbn in Ep; [| done]; by injection Ep as <- <- <- <- <-).
Qed.
End acquire.
End wakes.

(** *** The receiver is told *)

Section told.
Context {W : Type} `{WaiterList W} {T : Type}.
Implicit Types (c : Chan W T (Bounded W)) (t : Thread) (e : Ends T).

(** A receiver whose last poll was pending has been woken since, or sleeps with
    its waker registered. *)
Definition told c t e : Prop :=
  match pended e with
  | None => asleep e = false
  | Some (w, before) => exists more, woken t = before ++ more /\ (w ∈ more \/ asleep e = true /\ rx_waker c = Some w)
  end.

(** A call adds wakes, and leaves the receiver told. *)
Definition tells (x x' : BWorld (W := W) (T := T)) : Prop :=
  let '(c, t, e) := x in let '(c', t', e') := x' in later t t' /\ (told c t e -> told c' t' e').

Lemma tells_refl x : tells x x.
Proof. destruct x as [[c t] e]. by split. Qed.

Lemma tells_trans x y z : tells x y -> tells y z -> tells x z.
Proof. destruct x as [[c1 t1] e1], y as [[c2 t2] e2], z as [[c3 t3] e3]. intros [L1 H1] [L2 H2]. split; [by etrans | auto]. Qed.

Lemma tells_later c t e c' t' e' :
  later t t' -> rx_waker c' = rx_waker c -> pended e' = pended e -> asleep e' = asleep e -> tells (c, t, e) (c', t', e').
Proof.
  intros Hl Hw Hp Ha. split; [done |]. unfold told. rewrite Hp, Ha, Hw. destruct (pended e) as [[w before]|]; [| done].
  destruct Hl as [new Hn]. intros (more & Hm & Hor). exists (more ++ new). rewrite Hn, Hm, app_assoc. split; [done |].
  destruct Hor as [Hin | ?]; [left; apply elem_of_app; by left | by right].
Qed.

(** The receiver's waker is woken as it is taken. *)
Lemma wake_rx_tells c t e c' t' : wake_rx c t = (c', t') -> tells (c, t, e) (c', t', e).
Proof.
  unfold wake_rx. destruct (rx_waker c) as [w|] eqn:Ew; intros [= <- <-]; [| apply tells_refl]. split; [apply later_wake |].
  unfold told. destruct (pended e) as [[w' before]|]; [| done]. cbn. intros (more & -> & Hor). exists (more ++ [w]).
  rewrite app_assoc. split; [done |]. left. apply elem_of_app. destruct Hor as [? | [_ Hw]]; [by left | right]. rewrite Ew in Hw. injection Hw as ->. by left.
Qed.

Lemma wake_if_finished_tells c t e c' t' : wake_if_finished c t = (c', t') -> tells (c, t, e) (c', t', e).
Proof. unfold wake_if_finished. destruct (finished c); [apply wake_rx_tells | intros [= <- <-]; apply tells_refl]. Qed.

Lemma push_tells c t e v c' t' e' :
  chan_push v c t = (c', t') -> pended e' = pended e -> asleep e' = asleep e -> tells (c, t, e) (c', t', e').
Proof.
  intros E Hp Ha. eapply tells_trans; [| exact (wake_rx_tells _ _ e' _ _ E)]. by apply tells_later.
Qed.

Lemma try_reserve_later c t r c' t' : try_reserve c t = Some (r, c', t') -> rx_waker c' = rx_waker c /\ later t t'.
Proof.
  unfold try_reserve. destruct (try_acquire_many 1 _) as [[[p|[]] s]|]; cbn; [| by intros [= <- <- <-] .. | done].
  unfold forget_permit, drop_permit. cbn. by intros [= <- <- <-].
Qed.

Lemma drop_reserve_tells a c t e e' c' t' :
  drop_reserve a c t = Some (c', t') -> pended e' = pended e -> asleep e' = asleep e -> tells (c, t, e) (c', t', e').
Proof.
  unfold drop_reserve. destruct (acquire_cancel a _ t) as [[[a1 s1] t1]|] eqn:E; cbn [mbind option_bind]; [| done]. intros [= Ew] Hp Ha.
  eapply tells_trans; [| exact (wake_if_finished_tells _ _ e' _ _ Ew)]. apply tells_later; try done. by apply later_cancel in E.
Qed.

Lemma reserve_poll_tells clone a w c t e r a' c' t' e' :
  (forall x x', clone x = Some x' -> tells x x') -> reserve_poll clone a w (c, t, e) = Some (r, a', (c', t', e')) -> tells (c, t, e) (c', t', e').
Proof.
  intros Hc. unfold reserve_poll, to_sem. cbn [fst snd].
  destruct (acquire_poll _ _ _ _) as [[[r1 a1] [[s1 t1] [c1 e1]]]|] eqn:E; cbn [mbind option_bind]; [| done].
  assert (Ht : tells (c, t, e) (c1, t1, e1)).
  { apply (acquire_poll_keeps (clone_sem clone) (fun t' g => tells (c, t, e) (g.1, t', g.2))) in E; [done | | | by cbn].
    - intros t2 t3 [c2 e2] H1 H2. eapply tells_trans; [exact H1 |]. by apply tells_later.
    - intros s2 t2 [c2 e2] s3 t3 [c3 e3]. unfold clone_sem, of_sem. cbn [fst snd]. destruct (clone _) as [[[c4 t4] e4]|] eqn:Ec; cbn [mbind option_bind]; [| done].
      intros [= <- <- <- <-] H1. eapply tells_trans; [exact H1 |]. eapply tells_trans; [| exact (Hc _ _ Ec)]. by apply tells_later. }
  assert (Ht2 : forall s, tells (c, t, e) (put_slots s c1, t1, e1)) by (intros s; eapply tells_trans; [exact Ht | by apply tells_later]).
  destruct r1 as [[p|er]|]; [| by intros [= <- <- <- <- <-] ..]. unfold forget_permit, drop_permit. cbn [mbind option_bind]. change (0 <? 0) with false. cbn [mbind option_bind]. by intros [= <- <- <- <- <-].
Qed.
End told.

Section told_polls.
Context {W : Type} `{WaiterList W} {T : Type}.
Implicit Types (c : Chan W T (Bounded W)) (t : Thread) (e : Ends T).

Lemma pop_released_later c t v c' t' : pop_released c t = Some (v, c', t') -> rx_waker c' = rx_waker c /\ later t t'.
Proof.
  unfold pop_released, pop. destruct (queue_ c); [by intros [= <- <- <-] |].
  destruct (lim_release _ _ t) as [[lim t1]|] eqn:E; cbn [mbind option_bind]; [| done]. intros [= <- <- <-]. by apply later_lim_release in E.
Qed.

Lemma take_released_later buf n c t k buf' c' t' :
  take_released buf n c t = Some (k, buf', c', t') -> rx_waker c' = rx_waker c /\ later t t'.
Proof.
  unfold take_released, take_many. destruct (0 <? _); [| by intros [= <- <- <- <-]].
  destruct (lim_release _ _ t) as [[lim t1]|] eqn:E; cbn [mbind option_bind]; [| done]. intros [= <- <- <- <-]. by apply later_lim_release in E.
Qed.

Section recv.
Context (clone : BWorld (W := W) (T := T) -> option BWorld) (Hc : forall x x', clone x = Some x' -> tells x x').

(** A pending poll with [w] has woken [w] itself, or leaves it registered. *)
Definition waits_told {A} (w : Waker) t (r : Poll A) c' t' : Prop :=
  exists more, woken t' = woken t ++ more /\ (is_pending r = true -> w ∈ more \/ budget t <> 0 /\ rx_waker c' = Some w).

Lemma waits_told_later {A} w t (r : Poll A) c' t' :
  later t t' -> (is_pending r = true -> budget t <> 0 /\ rx_waker c' = Some w) -> waits_told w t r c' t'.
Proof. intros [more Hm] Hp. exists more. split; [done |]. auto. Qed.

Lemma register_rx_tells w c t e b c' t' e' :
  register_rx clone w (c, t, e) = Some (b, (c', t', e')) -> later t t' /\ rx_waker c' = Some w.
Proof using Hc.
  unfold register_rx. destruct (rx_waker c) as [o|]; [destruct (will_wake o w) eqn:Eo |].
  - intros [= <- <- <- <-]. split; [done |]. cbn. apply Z.eqb_eq in Eo. by rewrite Eo.
  - destruct (clone _) as [[[c1 t1] e1]|] eqn:E; cbn [mbind option_bind]; [| done]. intros [= <- <- <- <-]. split; [apply (Hc _ _ E) | done].
  - destruct (clone _) as [[[c1 t1] e1]|] eqn:E; cbn [mbind option_bind]; [| done]. intros [= <- <- <- <-]. split; [apply (Hc _ _ E) | done].
Qed.

Lemma look_again_tells c t e r c' t' e' :
  look_again (c, t, e) = Some (r, (c', t', e')) -> later t t' /\ (is_pending r = true -> rx_waker c' = rx_waker c).
Proof.
  unfold look_again. destruct (pop_released c t) as [[[v c1] t1]|] eqn:E; cbn [mbind option_bind]; [| done].
  apply pop_released_later in E as [Hw Hl]. destruct v as [v|]; [| destruct (finished c1)]; intros [= <- <- <- <-]; (split; [| done]);
    try done; try (etrans; [exact Hl | apply later_spent]).
Qed.

Lemma poll_recv_told w c t e r c' t' e' : poll_recv clone w (c, t, e) = Some (r, (c', t', e')) -> waits_told w t r c' t'.
Proof using Hc.
  unfold poll_recv. rewrite exhausted_spec. destruct (Z.eqb_spec (budget t) 0) as [|Hb].
  { intros [= <- <- <- <-]. exists [w]. split; [done |]. intros _. left. by left. }
  destruct (pop_released c t) as [[[v c1] t1]|] eqn:E1; cbn [mbind option_bind]; [| done]. apply pop_released_later in E1 as [_ L1].
  destruct v as [v|]; [intros [= <- <- <- <-]; apply waits_told_later; [etrans; [exact L1 | apply later_spent] | done] |].
  destruct (register_rx clone w _) as [[b [[c2 t2] e2]]|] eqn:E2; cbn [mbind option_bind]; [| done]. apply register_rx_tells in E2 as [L2 Hw].
  assert (L : later t t2) by (by etrans). destruct (b && _).
  - intros [L3 Hp]%look_again_tells. apply waits_told_later; [by etrans |]. intros Hr. split; [done |]. by rewrite Hp.
  - destruct (finished c2); intros [= <- <- <- <-]; apply waits_told_later; try done; try (etrans; [exact L | apply later_spent]).
Qed.

Lemma poll_recv_many_told w n c t e r buf c' t' e' :
  poll_recv_many clone w [] n (c, t, e) = Some (r, buf, (c', t', e')) -> waits_told w t r c' t'.
Proof using Hc.
  unfold poll_recv_many. destruct (n =? 0); [by intros [= <- <- <- <- <-]; apply waits_told_later |].
  rewrite exhausted_spec. destruct (Z.eqb_spec (budget t) 0) as [|Hb].
  { intros [= <- <- <- <- <-]. exists [w]. split; [done |]. intros _. left. by left. }
  destruct (take_released [] n c t) as [[[[k b1] c1] t1]|] eqn:E1; cbn [mbind option_bind]; [| done]. apply take_released_later in E1 as [_ L1].
  destruct (0 <? k); [intros [= <- <- <- <- <-]; apply waits_told_later; [etrans; [exact L1 | apply later_spent] | done] |].
  destruct (register_rx clone w _) as [[b [[c2 t2] e2]]|] eqn:E2; cbn [mbind option_bind]; [| done]. apply register_rx_tells in E2 as [L2 Hw].
  assert (L : later t t2) by (by etrans). destruct (b && _).
  - unfold look_again_many. destruct (take_released b1 n c2 t2) as [[[[k2 b2] c3] t3]|] eqn:E3; cbn [mbind option_bind]; [| done].
    apply take_released_later in E3 as [Hw3 L3]. assert (L' : later t t3) by (by etrans).
    destruct (0 <? k2); [| destruct (finished c3)]; intros [= <- <- <- <- <-]; apply waits_told_later; try done; try (etrans; [exact L' | apply later_spent]).
    intros _. split; [done |]. by rewrite Hw3.
  - destruct (finished c2); intros [= <- <- <- <- <-]; apply waits_told_later; try done; try (etrans; [exact L | apply later_spent]).
Qed.

(** The receiver's poll is over. *)
Lemma poll_tells {A} w c t e (r : Poll A) c' t' e' x z :
  waits_told w t r c' t' -> tells (c, t, e) (c', t', set_pended (pends r w t) (set_rx x (sleeps r t) (set_received z e'))).
Proof.
  intros (more & Hm & Hp). split; [by exists more |]. intros _. unfold told, pends, sleeps. cbn. destruct (is_pending r); [| done].
  exists more. split; [done |]. destruct (Hp eq_refl) as [? | [Hb Hw]]; [by left |]. right. split; [| done]. cbn. by apply negb_true_iff, Z.eqb_neq.
Qed.
End recv.

Lemma close_rx_later c t c' t' : close_rx c t = Some (c', t') -> later t t'.
Proof.
  unfold close_rx. destruct (rx_closed c); [by intros [= <- <-] |]. cbn.
  destruct (close _ t) as [[s1 t1]|] eqn:E1; cbn; [| done]. destruct (wake_closed _ t1) as [[ws t2]|] eqn:E2; cbn; [| done].
  intros [= <- <-]. apply later_close in E1. apply later_wake_closed in E2. by etrans.
Qed.
End told_polls.

Section told_programs.
Context {W : Type} `{WaiterList W} {T : Type}.
Implicit Types (c : Chan W T (Bounded W)) (t : Thread) (e : Ends T) (x : BWorld (W := W) (T := T)).

Definition tells_all (f : BWorld (W := W) (T := T) -> option BWorld) : Prop := forall x x', f x = Some x' -> tells x x'.

(** The senders' calls. *)
Lemma send_cop_tells (o : cop T) :
  match o with KTrySend _ | KTryReserve | KPermitSend _ | KPermitDrop | KReserve | KReserveDrop _ | KAddSender | KDropSender => True | _ => False end ->
  tells_all (run_cop o).
Proof.
  intros Ho [[c t] e] x'. destruct o; try done; cbn [run_cop].
  - unfold try_send. destruct (try_reserve c t) as [[[r c1] t1]|] eqn:E; cbn [mbind option_bind]; [| done].
    apply try_reserve_later in E as [Hw Hl]. destruct r as [p|[u|u]]; cbn [mbind option_bind];
      [| intros [= <-]; by apply tells_later ..].
    destruct (permit_send v c1 t1) as [c2 t2] eqn:Ep. cbn [mbind option_bind]. intros [= <-].
    eapply tells_trans; [| by eapply (push_tells c1 t1 e)]. by apply tells_later.
  - destruct (try_reserve c t) as [[[r c1] t1]|] eqn:E; cbn [mbind option_bind]; [| done]. apply try_reserve_later in E as [Hw Hl].
    intros [= <-]. by destruct r; apply tells_later.
  - destruct (0 <? to_send e); [| intros [= <-]; apply tells_refl]. destruct (permit_send v c t) as [c2 t2] eqn:Ep. intros [= <-].
    by eapply push_tells.
  - destruct (0 <? to_send e); [| intros [= <-]; apply tells_refl]. unfold drop_permit_slot, give_back.
    destruct (lim_release 1 _ t) as [[lim t1]|] eqn:E; cbn [mbind option_bind]; [| done].
    destruct (wake_if_finished _ t1) as [c2 t2] eqn:Ew. cbn [mbind option_bind]. intros [= <-].
    eapply tells_trans; [| exact (wake_if_finished_tells _ _ _ _ _ Ew)]. apply tells_later; try done. by apply later_lim_release in E.
  - destruct (waits e <? isize_max); [| intros [= <-]; apply tells_refl]. destruct reserve; cbn [mbind option_bind]; [| done].
    intros [= <-]. by apply tells_later.
  - destruct (reserves e !! i) as [a|]; [| intros [= <-]; apply tells_refl].
    destruct (drop_reserve a c t) as [[c2 t2]|] eqn:E; cbn [mbind option_bind]; [| done]. intros [= <-]. by eapply drop_reserve_tells.
  - destruct (senders c <? u64_max); [| intros [= <-]; apply tells_refl]. unfold add_sender. destruct (add64 _ _); cbn [mbind option_bind]; [| done].
    intros [= <-]. by apply tells_later.
  - destruct (0 <? senders c); [| intros [= <-]; apply tells_refl]. unfold drop_sender. destruct (sub64 _ _) as [n|]; cbn [mbind option_bind]; [| done].
    destruct (n =? 0); [| intros [= <-]; by apply tells_later]. destruct (wake_rx _ t) as [c2 t2] eqn:Ew. intros [= <-].
    eapply tells_trans; [| exact (wake_rx_tells _ _ _ _ _ Ew)]. by apply tells_later.
Qed.

(** The polls for a slot. *)
Lemma wait_cop_tells i w inner : tells_all (run_cops inner) -> tells_all (run_cop (KReservePoll i w inner)).
Proof.
  intros Hc [[c t] e] x'. cbn [run_cop]. fold (@run_cops W _ T). destruct (reserves e !! i) as [a|]; [| intros [= <-]; apply tells_refl].
  destruct (reserve_poll _ a w _) as [[[r a1] [[c1 t1] e1]]|] eqn:E; cbn [mbind option_bind]; [| done]. apply (reserve_poll_tells _ _ _ _ _ _ _ _ _ _ _ Hc) in E.
  assert (E' : tells (c, t, e) (c1, t1, e1)) by (eapply tells_trans; [| exact E]; by apply tells_later).
  destruct r as [r|]; [| intros [= <-]; eapply tells_trans; [exact E' | by apply tells_later]].
  destruct (drop_reserve a1 c1 t1) as [[c2 t2]|] eqn:Ed; cbn [mbind option_bind]; [| done]. intros [= <-]. eapply tells_trans; [exact E' |].
  eapply drop_reserve_tells; [exact Ed | by destruct r ..].
Qed.

Lemma send_poll_cop_tells i v w inner : tells_all (run_cops inner) -> tells_all (run_cop (KSendPoll i v w inner)).
Proof.
  intros Hc [[c t] e] x'. cbn [run_cop]. fold (@run_cops W _ T). destruct (reserves e !! i) as [a|]; [| intros [= <-]; apply tells_refl]. unfold send_poll.
  destruct (reserve_poll _ a w _) as [[[r a1] [[c1 t1] e1]]|] eqn:E; cbn [mbind option_bind]; [| done]. apply (reserve_poll_tells _ _ _ _ _ _ _ _ _ _ _ Hc) in E.
  assert (E' : tells (c, t, e) (c1, t1, e1)) by (eapply tells_trans; [| exact E]; by apply tells_later).
  destruct r as [r|]; cbn [mbind option_bind]; [| intros [= <-]; eapply tells_trans; [exact E' | by apply tells_later]].
  destruct (drop_reserve a1 c1 t1) as [[c2 t2]|] eqn:Ed; cbn [mbind option_bind]; [| done].
  assert (E2 : tells (c, t, e) (c2, t2, e1)) by (eapply tells_trans; [exact E' |]; by eapply drop_reserve_tells).
  destruct r as [p|er]; cbn [mbind option_bind].
  - destruct (permit_send v c2 t2) as [c3 t3] eqn:Ep. cbn [mbind option_bind]. intros [= <-]. eapply tells_trans; [exact E2 |]. by eapply push_tells.
  - intros [= <-]. eapply tells_trans; [exact E2 |]. by apply tells_later.
Qed.

(** The receiver's calls. *)
Lemma rx_cop_tells (o : cop T) : match o with KTryRecv | KClose | KDropRx => True | _ => False end -> tells_all (run_cop o).
Proof.
  intros Ho [[c t] e] x'. destruct o; try done; cbn [run_cop]; (destruct (rx_here e); [| intros [= <-]; apply tells_refl]).
  - unfold try_recv. destruct (pop_released c t) as [[[v c1] t1]|] eqn:E; cbn [mbind option_bind]; [| done]. apply pop_released_later in E as [_ Hl].
    destruct v as [v|]; cbn [mbind option_bind]; intros [= <-]; by split.
  - destruct (close_rx c t) as [[c1 t1]|] eqn:E; cbn [mbind option_bind]; [| done]. apply close_rx_later in E. intros [= <-]. by split.
  - unfold drop_rx. destruct (close_rx c t) as [[c1 t1]|] eqn:E; cbn [mbind option_bind]; [| done]. apply close_rx_later in E.
    destruct (lim_release _ _ t1) as [[lim t2]|] eqn:E2; cbn [mbind option_bind]; [| done]. apply later_lim_release in E2. intros [= <-]. split; [by etrans | done].
Qed.

Lemma received_same e : set_received (received e) e = e.
Proof. by destruct e. Qed.

Lemma recv_cop_tells w inner : tells_all (run_cops inner) -> tells_all (run_cop (KRecv w inner)).
Proof.
  intros Hc [[c t] e] x'. cbn [run_cop]. fold (@run_cops W _ T). destruct (rx_here e); [| intros [= <-]; apply tells_refl].
  destruct (poll_recv _ w _) as [[r [[c1 t1] e1]]|] eqn:E; cbn [mbind option_bind]; [| done]. apply (poll_recv_told _ Hc) in E. intros [= <-].
  destruct r as [[v|]|]; [by apply poll_tells | rewrite <- (received_same e1); by apply poll_tells ..].
Qed.

Lemma recv_many_cop_tells w n inner : tells_all (run_cops inner) -> tells_all (run_cop (KRecvMany w n inner)).
Proof.
  intros Hc [[c t] e] x'. cbn [run_cop]. fold (@run_cops W _ T). destruct (rx_here e && _); [| intros [= <-]; apply tells_refl].
  destruct (poll_recv_many _ w [] n _) as [[[r buf] [[c1 t1] e1]]|] eqn:E; cbn [mbind option_bind]; [| done].
  apply (poll_recv_many_told _ Hc) in E. intros [= <-]. by apply poll_tells.
Qed.

Lemma tells_list (os : list (cop T)) : Forall (fun o => tells_all (run_cop o)) os -> tells_all (run_cops os).
Proof.
  induction 1 as [|o os Ho Hos IH]; intros x x'; cbn [run_cops]; [intros [= <-]; apply tells_refl |].
  destruct (run_cop o x) as [x1|] eqn:E; cbn [mbind option_bind]; [| done]. intros E2. eapply tells_trans; [exact (Ho _ _ E) | exact (IH _ _ E2)].
Qed.

Fixpoint run_cop_tells (o : cop T) {struct o} : tells_all (run_cop o).
Proof.
  destruct o as [v| |v| | |i w inner|i v w inner|i| | |w inner|w n inner| | |];
    try (apply send_cop_tells; exact I); try (apply rx_cop_tells; exact I).
  - apply wait_cop_tells, tells_list. induction inner as [|o os IH]; constructor; [exact (run_cop_tells o) | exact IH].
  - apply send_poll_cop_tells, tells_list. induction inner as [|o os IH]; constructor; [exact (run_cop_tells o) | exact IH].
  - apply recv_cop_tells, tells_list. induction inner as [|o os IH]; constructor; [exact (run_cop_tells o) | exact IH].
  - apply recv_many_cop_tells, tells_list. induction inner as [|o os IH]; constructor; [exact (run_cop_tells o) | exact IH].
Qed.

Lemma run_cops_tells (os : list (cop T)) : tells_all (run_cops os).
Proof. apply tells_list, Forall_forall. intros o _. apply run_cop_tells. Qed.
End told_programs.

(** ** What the channel promises *)

(** C26. A bounded channel delivers in order and within its capacity, under
    every program of calls on its two ends, calls made from inside a waker's
    clone included: no call panics; the values received, then those dropped
    with the receiver, then those queued, are the values sent, in order; and
    the slots free, on their way to a waiting sender, held by a permit to send
    or taken by a queued value are the channel's capacity. *)
Theorem channel_delivers_in_order {W} `{WaiterListLaws W} {T} n (os : list (cop T)) :
  0 < n <= MAX_PERMITS ->
  exists (c0 c : Chan W T (Bounded W)) t e l,
    channel n = Some c0 /\
    run_cops os (c0, thread_new, new_ends) = Some (c, t, e) /\
    received e ++ discarded e ++ queue_ c = sent e /\
    rep (waiters (slots_of c)) l /\ 0 <= permits (slots_of c) /\
    permits (slots_of c) + granted_sum (results l) + to_send e + chan_len c = n /\
    max_capacity c = n /\ 0 <= granted_sum (results l) /\ 0 <= to_send e.
Proof.
  intros Hn. destruct (channel_ok (W := W) (T := T) n Hn) as (c0 & Hc0 & Hx0).
  destruct (run_cops_ok n os false [] 0 _ Hx0) as ([[c t] e] & Hr & [l B] & [Hb _]).
  pose proof (books_bounds _ _ _ _ _ _ _ _ B) as (Hg & _ & _).
  destruct B as [[[Hrep _ _ _ _] _] Hp0 _ _ Hl _ _ _ _ _ HC]. unfold cap in HC.
  cbn [slot_holders held minted] in Hl, HC. rewrite total_replicate in Hl.
  pose proof (ci_to_send _ _ _ Hb). pose proof (vlen_nonneg (queue_ c)).
  exists c0, c, t, e, l. split_and!; try done; [apply (ci_order _ _ _ Hb) |].
  unfold chan_len. lia.
Qed.

Lemma channel_delivers_in_order_witness :
  exists (c0 c : Chan Slab Z (Bounded Slab)) t e l,
    channel 1 = Some c0 /\
    run_cops [KTrySend 4; KTrySend 5; KReserve; KSendPoll 0 6 9 [KRecv 2 []]; KRecv 2 [KTrySend 7]]
      (c0, thread_new, new_ends) = Some (c, t, e) /\
    received e ++ discarded e ++ queue_ c = sent e /\
    rep (waiters (slots_of c)) l /\ 0 <= permits (slots_of c) /\
    permits (slots_of c) + granted_sum (results l) + to_send e + chan_len c = 1 /\
    max_capacity c = 1 /\ 0 <= granted_sum (results l) /\ 0 <= to_send e.
Proof. apply channel_delivers_in_order. vm_compute. split; [reflexivity | discriminate]. Defined.



(** Closing the receiver lets everybody go: the senders waiting for a slot
    and those waiting for the close are woken once each, in order; the values
    queued stay to be received; and from then on a send is refused with its
    value and changes nothing. *)
Theorem close_rx_lets_go {W} `{WaiterListLaws W} {T} (c : Chan W T (Bounded W)) l lw t :
  sem_ok (slots_of c) l -> closed (slots_of c) = false -> rx_closed c = false ->
  rep (closed_waiters c) lw ->
  exists c', close_rx c t = Some (c', wake_all (queue lw).*2 (wake_all (queue l).*2 t)) /\
    rx_closed c' = true /\ queue_ c' = queue_ c /\
    sem_ok (slots_of c') (Line [] (mark_all Closed (queue l) (results l))) /\
    rep (closed_waiters c') (Line [] (mark_all Closed (queue lw) (results lw))) /\
    forall v t', try_send v c' t' = Some (Err (ChanClosed v), c', t').
Proof.
  intros Hok Hcl Hrc Hw. unfold close_rx. rewrite Hrc. cbn [lim_close bounded_limit].
  destruct (close_ok (slots_of c) l t Hok) as (s' & Hc & Hok' & Hc' & Hp'). rewrite Hcl in Hc.
  change (slots_ (limit (set_rx_closed true c))) with (slots_of c). rewrite Hc.
  cbn [mbind option_bind]. change (closed_waiters (set_limit _ _)) with (closed_waiters c).
  destruct (wake_closed_ok (closed_waiters c) lw (wake_all (queue l).*2 t) Hw) as (ws & -> & Hws).
  eexists. split; [reflexivity |]. split_and!; try done. intros v t'.
  unfold try_send, try_reserve. unfold slots_of. simpl (slots_ _).
  rewrite (try_acquire_eq s' _ 1 Hok') by lia. rewrite Hc'. done.
Qed.

(** A channel of one slot with a value queued and a sender waiting. *)
Definition demo_chan : Chan Slab Z (Bounded Slab) :=
  set_queue [3] (chan_new {| slots_ := demo_sem; max := 1 |}).

Lemma close_rx_lets_go_witness :
  exists c', close_rx demo_chan thread_new =
      Some (c', wake_all (queue line_new).*2 (wake_all (queue demo_line).*2 thread_new)) /\
    rx_closed c' = true /\ queue_ c' = queue_ demo_chan /\
    sem_ok (slots_of c') (Line [] (mark_all Closed (queue demo_line) (results demo_line))) /\
    rep (closed_waiters c') (Line [] (mark_all Closed (queue line_new) (results line_new))) /\
    forall v t', try_send v c' t' = Some (Err (ChanClosed v), c', t').
Proof.
  apply close_rx_lets_go; [apply demo_sem_ok | reflexivity | reflexivity | apply slab_rep_new].
Defined.
