(* ===== verification/LocalOneshot.v ===== *)
(** * The single-shard one-shot channel

    [sync/local/oneshot.rs]: one value from one sender to one receiver, with a
    byte of three bits for the state, and what it promises: the value arrives
    once or is accounted for, and neither half sleeps past what it waits for. *)

From S2P Require Import Prelude Coop.
Open Scope Z_scope.

(** ** The code *)

Definition VALUE_SENT : Z := 1.
Definition RX_CLOSED : Z := 2.
Definition TX_DROPPED : Z := 4.

Inductive RecvError : Type := RecvErr.
Inductive TryRecvError : Type := TryEmpty | TryClosed.

Create HintDb oneshot_bits.

Section oneshot.
Context {T : Type}.

Record Inner : Type := {
  state : Z;
  value : option T;
  rx_waker : option Waker;
  tx_waker : option Waker
}.

Definition set_state x i :=
  {| state := x; value := value i; rx_waker := rx_waker i; tx_waker := tx_waker i |}.
Definition set_value x i :=
  {| state := state i; value := x; rx_waker := rx_waker i; tx_waker := tx_waker i |}.
Definition set_rx_waker x i :=
  {| state := state i; value := value i; rx_waker := x; tx_waker := tx_waker i |}.
Definition set_tx_waker x i :=
  {| state := state i; value := value i; rx_waker := rx_waker i; tx_waker := x |}.

Definition has (bit : Z) (i : Inner) : bool := negb (Z.land (state i) bit =? 0).
Definition set (bit : Z) (i : Inner) : Inner := set_state (Z.lor (state i) bit) i.
Definition put (v : T) (i : Inner) : Inner := set_value (Some v) i.
Definition take (i : Inner) : option T * Inner := (value i, set_value None i).

(** [wake] on either slot. *)
Definition wake_rx (i : Inner) (t : Thread) : Inner * Thread :=
  match rx_waker i with
  | Some w => (set_rx_waker None i, wake w t)
  | None => (i, t)
  end.

Definition wake_tx (i : Inner) (t : Thread) : Inner * Thread :=
  match tx_waker i with
  | Some w => (set_tx_waker None i, wake w t)
  | None => (i, t)
  end.

Definition channel : Inner :=
  {| state := 0; value := None; rx_waker := None; tx_waker := None |}.

(** [Sender::send], on a sender that has not sent: it is consumed. *)
Definition send (v : T) (i : Inner) (t : Thread) : Result unit T * Inner * Thread :=
  if has RX_CLOSED i then (Err v, set TX_DROPPED i, t)
  else
    let i := put v i in
    let i := set (Z.lor VALUE_SENT TX_DROPPED) i in
    let '(i, t) := wake_rx i t in
    (Ok tt, i, t).

Definition is_closed (i : Inner) : bool := has RX_CLOSED i.

Definition drop_sender (i : Inner) (t : Thread) : Inner * Thread :=
  let i := set TX_DROPPED i in
  let '(i, t) := wake_rx i t in
  (set_tx_waker None i, t).

(** The receiver's [inner] is [Some] until it completes; [rx] says whether. *)
Definition close (rx : bool) (i : Inner) (t : Thread) : Inner * Thread :=
  if rx then wake_tx (set RX_CLOSED i) t else (i, t).

Definition is_terminated (rx : bool) : bool := negb rx.
Definition is_empty (rx : bool) (i : Inner) : bool := if rx then negb (has VALUE_SENT i) else true.

Definition try_recv (rx : bool) (i : Inner) : Result T TryRecvError * bool * Inner :=
  if rx then
    match take i with
    | (Some v, i) => (Ok v, false, i)
    | (None, i) =>
        if has (Z.lor RX_CLOSED TX_DROPPED) i then (Err TryClosed, false, i)
        else (Err TryEmpty, true, i)
    end
  else (Err TryClosed, rx, i).

(** Answers the value dropped with the receiver. *)
Definition drop_receiver (rx : bool) (i : Inner) (t : Thread) : option T * Inner * Thread :=
  if rx then
    let '(i, t) := wake_tx (set RX_CLOSED i) t in
    let i := set_rx_waker None i in
    let '(v, i) := take i in
    (v, i, t)
  else (None, i, t).

(** The polls, in a world of the channel, the thread and [G], which the code of
    a waker's [clone] reaches. *)
Section poll.
Context {G : Type}.
Definition World : Type := Inner * Thread * G.
Context (clone : World -> option World).

(** [register], on a slot by its accessors. Answers whether it cloned. *)
Definition register (slot : Inner -> option Waker) (put_slot : option Waker -> Inner -> Inner)
    (w : Waker) (x : World) : option (bool * World) :=
  if match slot x.1.1 with Some old => will_wake old w | None => false end
  then Some (false, x)
  else
    '(i, t, g) ← clone x;
    Some (true, (put_slot (Some w) i, t, g)).

Definition poll_closed (w : Waker) (x : World) : option (Poll unit * World) :=
  if has RX_CLOSED x.1.1 then Some (Ready tt, x)
  else
    '(cloned, x) ← register tx_waker set_tx_waker w x;
    if cloned && has RX_CLOSED x.1.1 then Some (Ready tt, x) else Some (Pending, x).

Definition DONE : Z := Z.lor (Z.lor VALUE_SENT RX_CLOSED) TX_DROPPED.

(** [Receiver::poll]; a receiver that completed panics. *)
Definition recv_finish (w : Waker) (x : World) : option (Poll (Result T RecvError) * bool * World) :=
  let '(i, t, g) := x in
  let '(spent, t) := exhausted w t in
  if spent : bool then Some (Pending, true, (i, t, g))
  else
    let '(v, i) := take i in
    let done := match v with Some v => Ok v | None => Err RecvErr end in
    Some (Ready done, false, (i, spent_one t, g)).

Definition recv_poll (rx : bool) (w : Waker) (x : World) :
    option (Poll (Result T RecvError) * bool * World) :=
  if rx then
    if has DONE x.1.1 then recv_finish w x
    else
      '(cloned, x) ← register rx_waker set_rx_waker w x;
      if cloned && has DONE x.1.1 then recv_finish w x else Some (Pending, true, x)
  else None.
End poll.
End oneshot.

Arguments Inner T : clear implicits.
Arguments World T G : clear implicits.

(** ** Programs of calls on the two halves *)

(** The halves: which are there and not in a poll, whether the receiver has its
    [inner], what was sent, received and dropped with the receiver, and whether
    the half's last call was a poll that went to sleep. *)
Record Halves (T : Type) : Type := {
  tx_here : bool;
  rx_here : bool;
  rx_open : bool;
  sent : option T;
  received : option T;
  dropped : option T;
  tx_sleeps : bool;
  rx_sleeps : bool
}.
Arguments tx_here {T} _.
Arguments rx_here {T} _.
Arguments rx_open {T} _.
Arguments sent {T} _.
Arguments received {T} _.
Arguments dropped {T} _.
Arguments tx_sleeps {T} _.
Arguments rx_sleeps {T} _.

(** A call; [inner] is what the waker of a poll does if it is cloned. *)
Inductive oop (T : Type) : Type :=
| OSend (v : T)
| ODropTx
| OPollClosed (w : Waker) (inner : list (oop T))
| ORecv (w : Waker) (inner : list (oop T))
| OTryRecv
| OClose
| ODropRx.
Arguments OSend {T} v.
Arguments ODropTx {T}.
Arguments OPollClosed {T} w inner.
Arguments ORecv {T} w inner.
Arguments OTryRecv {T}.
Arguments OClose {T}.
Arguments ODropRx {T}.

Section programs.
Context {T : Type}.
Implicit Types (i : Inner T) (t : Thread) (h : Halves T).

Definition new_halves : Halves T :=
  {| tx_here := true; rx_here := true; rx_open := true; sent := None; received := None;
     dropped := None; tx_sleeps := false; rx_sleeps := false |}.

Definition set_tx here sleeps h :=
  {| tx_here := here; rx_here := rx_here h; rx_open := rx_open h; sent := sent h;
     received := received h; dropped := dropped h; tx_sleeps := sleeps; rx_sleeps := rx_sleeps h |}.
Definition set_rx here opn sleeps h :=
  {| tx_here := tx_here h; rx_here := here; rx_open := opn; sent := sent h;
     received := received h; dropped := dropped h; tx_sleeps := tx_sleeps h; rx_sleeps := sleeps |}.
Definition set_sent x h :=
  {| tx_here := tx_here h; rx_here := rx_here h; rx_open := rx_open h; sent := x;
     received := received h; dropped := dropped h; tx_sleeps := tx_sleeps h;
     rx_sleeps := rx_sleeps h |}.
Definition set_received x h :=
  {| tx_here := tx_here h; rx_here := rx_here h; rx_open := rx_open h; sent := sent h;
     received := x; dropped := dropped h; tx_sleeps := tx_sleeps h; rx_sleeps := rx_sleeps h |}.
Definition set_dropped x h :=
  {| tx_here := tx_here h; rx_here := rx_here h; rx_open := rx_open h; sent := sent h;
     received := received h; dropped := x; tx_sleeps := tx_sleeps h; rx_sleeps := rx_sleeps h |}.

Definition OWorld : Type := World T (Halves T).

Fixpoint run_oop (o : oop T) (x : OWorld) : option OWorld :=
  let '(i, t, h) := x in
  let run_oops := fix run_oops (os : list (oop T)) x :=
    match os with
    | [] => Some x
    | o :: os => x ← run_oop o x; run_oops os x
    end in
  match o with
  | OSend v =>
      if tx_here h then
        let '(r, i, t) := send v i t in
        let h := set_tx false false h in
        Some (i, t, match r with Ok _ => set_sent (Some v) h | Err _ => h end)
      else Some x
  | ODropTx =>
      if tx_here h then let '(i, t) := drop_sender i t in Some (i, t, set_tx false false h)
      else Some x
  | OPollClosed w inner =>
      if tx_here h then
        '(r, (i, t, h)) ← poll_closed (run_oops inner) w (i, t, set_tx false false h);
        Some (i, t, set_tx true (is_pending r) h)
      else Some x
  | ORecv w inner =>
      if rx_here h && rx_open h then
        '(r, opn, (i, t, h)) ← recv_poll (run_oops inner) true w (i, t, set_rx false true false h);
        let h := match r with Ready (Ok v) => set_received (Some v) h | _ => h end in
        Some (i, t, set_rx true opn (is_pending r && negb (budget t =? 0)) h)
      else Some x
  | OTryRecv =>
      if rx_here h then
        let '(r, opn, i) := try_recv (rx_open h) i in
        let h := match r with Ok v => set_received (Some v) h | Err _ => h end in
        Some (i, t, set_rx true opn false h)
      else Some x
  | OClose =>
      if rx_here h then
        let '(i, t) := close (rx_open h) i t in Some (i, t, set_rx true (rx_open h) false h)
      else Some x
  | ODropRx =>
      if rx_here h then
        let '(v, i, t) := drop_receiver (rx_open h) i t in
        let h := match v with Some v => set_dropped (Some v) h | None => h end in
        Some (i, t, set_rx false (rx_open h) false h)
      else Some x
  end.

Fixpoint run_oops (os : list (oop T)) (x : OWorld) : option OWorld :=
  match os with
  | [] => Some x
  | o :: os => x ← run_oop o x; run_oops os x
  end.

(** Where the value sent is: in the channel, received, or dropped with the
    receiver. *)
Definition accounted i h : Prop :=
  match sent h with
  | None => value i = None /\ received h = None /\ dropped h = None
  | Some v =>
      (value i = Some v /\ received h = None /\ dropped h = None) \/
      (value i = None /\ received h = Some v /\ dropped h = None) \/
      (value i = None /\ received h = None /\ dropped h = Some v)
  end.

(** [txb] and [rxb] say that the half is in a poll. *)
Record shot_ok (txb rxb : bool) (x : OWorld) : Prop := {
  so_state : 0 <= state x.1.1 < 8;
  so_sent : has VALUE_SENT x.1.1 = match sent x.2 with Some _ => true | None => false end;
  so_tx : has TX_DROPPED x.1.1 = negb (tx_here x.2 || txb);
  so_used : has VALUE_SENT x.1.1 = true -> has TX_DROPPED x.1.1 = true;
  so_value : accounted x.1.1 x.2;
  so_open : value x.1.1 <> None -> rx_open x.2 = true;
  so_txb : txb = true -> tx_here x.2 = false /\ tx_sleeps x.2 = false;
  so_rxb : rxb = true -> rx_here x.2 = false /\ rx_sleeps x.2 = false /\ rx_open x.2 = true;
  so_gone : rx_open x.2 = false \/ (rx_here x.2 = false /\ rxb = false) ->
    has (Z.lor RX_CLOSED TX_DROPPED) x.1.1 = true;
  so_rx : rx_sleeps x.2 = true -> rx_waker x.1.1 <> None -> has DONE x.1.1 = false;
  so_tx_wait : tx_sleeps x.2 = true -> tx_waker x.1.1 <> None -> has RX_CLOSED x.1.1 = false;
  so_budget : budget_ok x.1.2
}.

(** ** The bits *)

Lemma has_set b c i : has b (set c i) = has b i || negb (Z.land c b =? 0).
Proof.
  unfold has, set. simpl. rewrite Z.land_lor_distr_l.
  destruct (Z.eqb_spec (Z.land (state i) b) 0) as [E1 | E1];
    destruct (Z.eqb_spec (Z.land c b) 0) as [E2 | E2]; simpl.
  - by rewrite E1, E2.
  - apply negb_true_iff, Z.eqb_neq. rewrite Z.lor_eq_0_iff. tauto.
  - apply negb_true_iff, Z.eqb_neq. rewrite Z.lor_eq_0_iff. tauto.
  - apply negb_true_iff, Z.eqb_neq. rewrite Z.lor_eq_0_iff. tauto.
Qed.

Lemma has_lor b c i : has (Z.lor b c) i = has b i || has c i.
Proof.
  unfold has. rewrite Z.land_lor_distr_r.
  destruct (Z.eqb_spec (Z.land (state i) b) 0) as [E1 | E1];
    destruct (Z.eqb_spec (Z.land (state i) c) 0) as [E2 | E2]; simpl.
  - by rewrite E1, E2.
  - apply negb_true_iff, Z.eqb_neq. rewrite Z.lor_eq_0_iff. tauto.
  - apply negb_true_iff, Z.eqb_neq. rewrite Z.lor_eq_0_iff. tauto.
  - apply negb_true_iff, Z.eqb_neq. rewrite Z.lor_eq_0_iff. tauto.
Qed.

Lemma set_range c i : 0 <= state i < 8 -> 0 <= c < 8 -> 0 <= state (set c i) < 8.
Proof. intros. unfold set. simpl. by apply (lor_pow2_bound _ _ 3). Qed.

(** The other fields do not matter. *)
Lemma has_rx_waker b x i : has b (set_rx_waker x i) = has b i.
Proof. done. Qed.
Lemma has_tx_waker b x i : has b (set_tx_waker x i) = has b i.
Proof. done. Qed.
Lemma has_value b x i : has b (set_value x i) = has b i.
Proof. done. Qed.

#[local] Hint Rewrite has_lor has_set has_rx_waker has_tx_waker has_value : oneshot_bits.

(** Every bit of the state by the three flags. *)
Ltac bits :=
  unfold DONE, put in *; autorewrite with oneshot_bits in *;
  unfold VALUE_SENT, RX_CLOSED, TX_DROPPED in *; simpl in *.

Lemma shot_wake_rx i t : exists t', wake_rx i t = (set_rx_waker None i, t') /\ budget t' = budget t.
Proof.
  unfold wake_rx. destruct (rx_waker i) eqn:E; [by eexists |]. exists t.
  by destruct i; simpl in *; subst.
Qed.

Lemma shot_wake_tx i t : exists t', wake_tx i t = (set_tx_waker None i, t') /\ budget t' = budget t.
Proof.
  unfold wake_tx. destruct (tx_waker i) eqn:E; [by eexists |]. exists t.
  by destruct i; simpl in *; subst.
Qed.

(** ** The calls keep [shot_ok] *)

Definition okeeps (f : OWorld -> option OWorld) : Prop :=
  forall txb rxb x, shot_ok txb rxb x -> exists x', f x = Some x' /\ shot_ok txb rxb x'.

Ltac shot i :=
  constructor; unfold accounted, budget_ok in *; simpl in *; bits;
  try (apply set_range; [done | done]); try congruence; try (intuition congruence);
  destruct (has 1 i), (has 2 i), (has 4 i); simpl in *; try (intuition congruence);
  match goal with ro : bool |- _ -> ?ro = true => destruct ro end; intuition congruence.

(** A world's halves and what is known of it, field by field. *)
Ltac open_shot h Hx :=
  let Hs := fresh "Hs" in let Hv := fresh "Hv" in let Ht := fresh "Ht" in
  let Hu := fresh "Hu" in let Ha := fresh "Ha" in let Ho := fresh "Ho" in
  let Htb := fresh "Htb" in let Hrb := fresh "Hrb" in let Hg := fresh "Hg" in
  let Hr := fresh "Hr" in let Hw := fresh "Hw" in let Hb := fresh "Hb" in
  destruct h as [th rh ro se re dr ts rs];
  destruct Hx as [Hs Hv Ht Hu Ha Ho Htb Hrb Hg Hr Hw Hb];
  unfold accounted in *; simpl in *; subst; simpl in *.

Lemma send_keeps v : okeeps (run_oop (OSend v)).
Proof.
  intros txb rxb [[i t] h] Hx. cbn [run_oop]. destruct (tx_here h) eqn:Hh; [| by eexists].
  open_shot h Hx. destruct txb; [by destruct Htb |].
  destruct se; [by rewrite Ht in Hu; specialize (Hu Hv) |]. unfold send.
  destruct (has RX_CLOSED i) eqn:Hc.
  - eexists. split; [reflexivity |]. shot i.
  - destruct (shot_wake_rx (set (Z.lor VALUE_SENT TX_DROPPED) (put v i)) t) as (t' & -> & Hbt).
    eexists. split; [reflexivity |]. shot i.
Qed.

Lemma drop_tx_keeps : okeeps (run_oop ODropTx).
Proof.
  intros txb rxb [[i t] h] Hx. cbn [run_oop]. destruct (tx_here h) eqn:Hh; [| by eexists].
  open_shot h Hx. destruct txb; [by destruct Htb |].
  destruct se; [by rewrite Ht in Hu; specialize (Hu Hv) |]. unfold drop_sender.
  destruct (shot_wake_rx (set TX_DROPPED i) t) as (t' & -> & Hbt).
  eexists. split; [reflexivity |]. shot i.
Qed.

Lemma try_recv_keeps : okeeps (run_oop OTryRecv).
Proof.
  intros txb rxb [[i t] h] Hx. cbn [run_oop]. destruct (rx_here h) eqn:Hh; [| by eexists].
  open_shot h Hx. destruct rxb; [by destruct Hrb |]. unfold try_recv, take.
  destruct ro; [| eexists; split; [reflexivity |]; shot i].
  destruct (value i) as [v|] eqn:Ev.
  - eexists. split; [reflexivity |]. destruct se; shot i.
  - destruct (has (Z.lor RX_CLOSED TX_DROPPED) (set_value None i)) eqn:Ec;
      (eexists; split; [reflexivity |]); rewrite has_lor in Ec; destruct se; shot i.
Qed.

Lemma close_keeps : okeeps (run_oop OClose).
Proof.
  intros txb rxb [[i t] h] Hx. cbn [run_oop]. destruct (rx_here h) eqn:Hh; [| by eexists].
  open_shot h Hx. destruct rxb; [by destruct Hrb |]. unfold close.
  destruct ro; [| eexists; split; [reflexivity |]; shot i].
  destruct (shot_wake_tx (set RX_CLOSED i) t) as (t' & -> & Hbt).
  eexists. split; [reflexivity |]. destruct se; shot i.
Qed.

Lemma drop_rx_keeps : okeeps (run_oop ODropRx).
Proof.
  intros txb rxb [[i t] h] Hx. cbn [run_oop]. destruct (rx_here h) eqn:Hh; [| by eexists].
  open_shot h Hx. destruct rxb; [by destruct Hrb |]. unfold drop_receiver.
  destruct ro; [| eexists; split; [reflexivity |]; shot i].
  destruct (shot_wake_tx (set RX_CLOSED i) t) as (t' & -> & Hbt). unfold take. simpl.
  destruct (value i) as [v|] eqn:Ev; (eexists; split; [reflexivity |]); destruct se; shot i.
Qed.

(** ** The polls *)

Lemma shot_tx_waker txb rxb i t h w :
  shot_ok txb rxb (i, t, h) -> tx_sleeps h = false -> shot_ok txb rxb (set_tx_waker w i, t, h).
Proof. intros [] Hs. constructor; simpl in *; try done. congruence. Qed.

Lemma shot_rx_waker txb rxb i t h w :
  shot_ok txb rxb (i, t, h) -> rx_sleeps h = false -> shot_ok txb rxb (set_rx_waker w i, t, h).
Proof. intros [] Hs. constructor; simpl in *; try done. congruence. Qed.

Lemma shot_tx_borrow txb rxb i t h :
  shot_ok txb rxb (i, t, h) -> tx_here h = true ->
  txb = false /\ shot_ok true rxb (i, t, set_tx false false h).
Proof.
  intros [] Hh. simpl in *. rewrite Hh in *.
  assert (txb = false) as -> by (destruct txb; [by destruct so_txb0 | done]).
  split; [done |]. by constructor.
Qed.

Lemma shot_tx_return rxb i t h z :
  shot_ok true rxb (i, t, h) -> (z = true -> tx_waker i <> None -> has RX_CLOSED i = false) ->
  shot_ok false rxb (i, t, set_tx true z h).
Proof.
  intros [] Hz. simpl in *. constructor; simpl; try done. by rewrite orb_true_r in so_tx0.
Qed.

Lemma shot_rx_borrow txb rxb i t h :
  shot_ok txb rxb (i, t, h) -> rx_here h = true -> rx_open h = true ->
  rxb = false /\ shot_ok txb true (i, t, set_rx false true false h).
Proof.
  intros [] Hh Ho. simpl in *. rewrite Hh, Ho in *.
  assert (rxb = false) as -> by (destruct rxb; [by destruct so_rxb0 | done]).
  split; [done |]. constructor; simpl; try done. intros [? | [_ ?]]; done.
Qed.

Lemma shot_rx_return txb i t h z :
  shot_ok txb true (i, t, h) -> (z = true -> rx_waker i <> None -> has DONE i = false) ->
  shot_ok txb false (i, t, set_rx true true z h).
Proof.
  intros [] Hz. simpl in *. constructor; simpl; try done. intros [? | [? _]]; done.
Qed.

Lemma poll_closed_keeps w inner :
  okeeps (run_oops inner) -> okeeps (run_oop (OPollClosed w inner)).
Proof.
  intros Hk txb rxb [[i t] h] Hx. cbn [run_oop]. fold run_oops.
  destruct (tx_here h) eqn:Hh; [| by eexists].
  destruct (shot_tx_borrow _ _ _ _ _ Hx Hh) as [-> Hx1]. unfold poll_closed. simpl.
  destruct (has RX_CLOSED i) eqn:Hc.
  { eexists. split; [reflexivity |]. by apply shot_tx_return. }
  unfold register. simpl.
  destruct (match tx_waker i with Some old => will_wake old w | None => false end) eqn:Ew.
  { eexists. split; [reflexivity |]. simpl. by apply shot_tx_return. }
  destruct (Hk true rxb _ Hx1) as ([[i' t'] h'] & -> & Hx'). cbn [mbind option_bind]. simpl.
  assert (Hsl : tx_sleeps h' = false) by (by destruct (so_txb _ _ _ Hx' eq_refl)).
  apply (shot_tx_waker _ _ _ _ _ (Some w)) in Hx'; [| done].
  rewrite has_tx_waker in *. destruct (has RX_CLOSED i') eqn:Hc'; cbn [mbind option_bind];
    (eexists; split; [reflexivity |]); by apply shot_tx_return.
Qed.

(** A receive that completes takes the value if there is one. *)
Lemma recv_finish_ok txb w i t h :
  shot_ok txb true (i, t, h) -> has DONE i = true ->
  exists r opn i' t', recv_finish w (i, t, h) = Some (r, opn, (i', t', h)) /\
    shot_ok txb false (i', t',
      set_rx true opn (is_pending r && negb (budget t' =? 0))
        (match r with Ready (Ok v) => set_received (Some v) h | _ => h end)).
Proof.
  intros Hx Hd. unfold recv_finish. rewrite exhausted_spec.
  destruct (Z.eqb_spec (budget t) 0) as [Hb | Hb].
  - eexists Pending, true, _, _. split; [reflexivity |]. simpl. rewrite Hb. simpl.
    apply shot_rx_return; [| done]. destruct Hx. by constructor.
  - pose proof (so_budget _ _ _ Hx) as Hbo. simpl in Hbo. unfold take.
    eexists (Ready _), false, _, _. split; [reflexivity |]. rewrite spent_one_spec by done.
    open_shot h Hx. assert (Hbt : 0 <= budget t - 1 <= u64_max) by (unfold budget_ok in *; lia).
    destruct (value i) eqn:Ev; destruct se; shot i.
Qed.

Lemma recv_keeps w inner :
  okeeps (run_oops inner) -> okeeps (run_oop (ORecv w inner)).
Proof.
  intros Hk txb rxb [[i t] h] Hx. cbn [run_oop]. fold run_oops.
  destruct (rx_here h) eqn:Hh; [| by eexists]. destruct (rx_open h) eqn:Ho; [| by eexists].
  destruct (shot_rx_borrow _ _ _ _ _ Hx Hh Ho) as [-> Hx1]. unfold recv_poll. cbn [fst andb].
  destruct (has DONE i) eqn:Hd.
  { destruct (recv_finish_ok txb w i t _ Hx1 Hd) as (r & opn & i' & t' & -> & Hx'). by eexists. }
  unfold register. cbn [fst].
  destruct (match rx_waker i with Some old => will_wake old w | None => false end) eqn:Ew.
  { eexists. split; [reflexivity |]. by apply shot_rx_return. }
  destruct (Hk txb true _ Hx1) as ([[i' t'] h'] & -> & Hx'). cbn [mbind option_bind fst andb].
  assert (Hsl : rx_sleeps h' = false) by (by destruct (so_rxb _ _ _ Hx' eq_refl) as (? & ? & ?)).
  apply (shot_rx_waker _ _ _ _ _ (Some w)) in Hx'; [| done].
  destruct (has DONE (set_rx_waker (Some w) i')) eqn:Hd'; cbn [mbind option_bind fst andb].
  - destruct (recv_finish_ok txb w _ t' h' Hx' Hd') as (r & opn & i2 & t2 & -> & Hx2). by eexists.
  - eexists. split; [reflexivity |]. by apply shot_rx_return.
Qed.

Fixpoint run_oop_ok (o : oop T) {struct o} : okeeps (run_oop o).
Proof.
  assert (Hall : forall os, (fix all os := match os with [] => True | o :: os =>
    okeeps (run_oop o) /\ all os end) os -> okeeps (run_oops os)).
  { induction os as [|o' os IH]; intros Ho txb rxb x Hx; [by eexists |].
    destruct Ho as [Ho Hos]. cbn [run_oops].
    destruct (Ho txb rxb x Hx) as (x1 & -> & Hx1). exact (IH Hos txb rxb x1 Hx1). }
  destruct o as [v| |w inner|w inner| | |].
  - apply send_keeps.
  - apply drop_tx_keeps.
  - apply poll_closed_keeps, Hall. induction inner as [|o os IH]; [exact I |].
    exact (conj (run_oop_ok o) IH).
  - apply recv_keeps, Hall. induction inner as [|o os IH]; [exact I |].
    exact (conj (run_oop_ok o) IH).
  - apply try_recv_keeps.
  - apply close_keeps.
  - apply drop_rx_keeps.
Qed.

Lemma run_oops_ok os : okeeps (run_oops os).
Proof.
  induction os as [|o os IH]; intros txb rxb x Hx; [by eexists |]. cbn [run_oops].
  destruct (run_oop_ok o txb rxb x Hx) as (x1 & -> & Hx1). exact (IH txb rxb x1 Hx1).
Qed.
End programs.

(** The one-shot channel delivers once: under every program of calls on
    the two halves, calls made from inside a waker's clone included, no call
    panics; a value sent is in the channel, received, or dropped with the
    receiver, in exactly one of these places; a receiver that sleeps with its
    waker registered has no value, close or drop to report; a sender that
    sleeps waiting for the close has an open receiver; and once the receiver
    is gone or has completed, nothing more can be sent. *)
Theorem oneshot_delivers_once {T} (os : list (oop T)) :
  exists i t h,
    run_oops os (channel, thread_new, new_halves) = Some (i, t, h) /\
    accounted i h /\
    (value i <> None -> has VALUE_SENT i = true /\ rx_open h = true) /\
    (rx_sleeps h = true -> rx_waker i <> None -> has DONE i = false) /\
    (tx_sleeps h = true -> tx_waker i <> None -> has RX_CLOSED i = false) /\
    (rx_here h = false \/ rx_open h = false -> forall v t', tx_here h = true ->
       send v i t' = (Err v, set TX_DROPPED i, t')).
Proof.
  destruct (run_oops_ok os false false (channel, thread_new, new_halves)) as ([[i t] h] & Hr & Hx).
  { by constructor; simpl; try done; intros [? | [? ?]]. }
  exists i, t, h. destruct Hx as [Hs Hv Ht Hu Ha Ho Htb Hrb Hg Hrw Hw Hb]. simpl in *.
  split_and!; try done.
  - intros Hn. split; [| by apply Ho]. rewrite Hv. unfold accounted in Ha.
    destruct (sent h); [done | by destruct Ha].
  - intros Hgone v t' Htx. rewrite Htx in Ht. simpl in Ht.
    assert (Hc : has (Z.lor RX_CLOSED TX_DROPPED) i = true) by (apply Hg; tauto).
    rewrite has_lor, Ht, orb_false_r in Hc. unfold send. by rewrite Hc.
Qed.

Lemma oneshot_delivers_once_witness :
  exists i t h,
    run_oops [ORecv 1 [OSend 5]; OPollClosed 2 []; ODropRx] (channel, thread_new, new_halves) =
      Some (i, t, h) /\
    accounted i h /\
    (value i <> None -> has VALUE_SENT i = true /\ rx_open h = true) /\
    (rx_sleeps h = true -> rx_waker i <> None -> has DONE i = false) /\
    (tx_sleeps h = true -> tx_waker i <> None -> has RX_CLOSED i = false) /\
    (rx_here h = false \/ rx_open h = false -> forall v t', tx_here h = true ->
       send v i t' = (Err v, set TX_DROPPED i, t')).
Proof. exact (oneshot_delivers_once _). Defined.
