(* ===== verification/Bytes.v ===== *)
(** * Slices

    What the code does with slices of memory: the front, the rest, a range read
    and a range written, by [usize] positions. A range out of the slice is what
    panics, or reads and writes past the memory: [None]. *)

From S2P Require Import Prelude.
Open Scope Z_scope.

Section slices.
Context {A : Type}.
Implicit Types (l k : list A) (n m : Z).

(** The first [n], and all but the first [n]. *)
Definition takez n l : list A := firstn (Z.to_nat n) l.
Definition dropz n l : list A := skipn (Z.to_nat n) l.

(** [l[a..b]]. *)
Definition slice (a b : Z) l : option (list A) :=
  if (0 <=? a) && (a <=? b) && (b <=? vlen l) then Some (takez (b - a) (dropz a l)) else None.

(** [l[a..a + k.len()].copy_from_slice(k)]. *)
Definition write_at (a : Z) k l : option (list A) :=
  if (0 <=? a) && (a + vlen k <=? vlen l)
  then Some (takez a l ++ k ++ dropz (a + vlen k) l) else None.

Lemma vlen_takez n l : 0 <= n <= vlen l -> vlen (takez n l) = n.
Proof. unfold vlen, takez. rewrite length_take. lia. Qed.

Lemma vlen_takez_min n l : 0 <= n -> vlen (takez n l) = Z.min n (vlen l).
Proof. unfold vlen, takez. rewrite length_take. lia. Qed.

Lemma vlen_dropz n l : 0 <= n <= vlen l -> vlen (dropz n l) = vlen l - n.
Proof. unfold vlen, dropz. rewrite length_drop. lia. Qed.

Lemma takez_dropz n l : takez n l ++ dropz n l = l.
Proof. apply take_drop. Qed.

Lemma takez_all n l : vlen l <= n -> takez n l = l.
Proof. intros. unfold takez, vlen in *. apply take_ge. lia. Qed.

Lemma dropz_all n l : vlen l <= n -> dropz n l = [].
Proof. intros. unfold dropz, vlen in *. apply drop_ge. lia. Qed.

Lemma takez_0 n l : n <= 0 -> takez n l = [].
Proof. intros. unfold takez. by replace (Z.to_nat n) with 0%nat by lia. Qed.

Lemma dropz_0 n l : n <= 0 -> dropz n l = l.
Proof. intros. unfold dropz. by replace (Z.to_nat n) with 0%nat by lia. Qed.

Lemma dropz_nil n : dropz n ([] : list A) = [].
Proof. apply drop_nil. Qed.

Lemma dropz_dropz n m l : 0 <= n -> 0 <= m -> dropz n (dropz m l) = dropz (m + n) l.
Proof. intros. unfold dropz. rewrite drop_drop. f_equal. lia. Qed.

Lemma takez_takez n m l : 0 <= n -> 0 <= m -> takez n (takez m l) = takez (Z.min n m) l.
Proof. intros. unfold takez. rewrite take_take. f_equal. lia. Qed.

Lemma takez_app_l n l k : n <= vlen l -> takez n (l ++ k) = takez n l.
Proof. intros. unfold takez, vlen in *. apply take_app_le. lia. Qed.

Lemma takez_app_r n l k : vlen l <= n -> takez n (l ++ k) = l ++ takez (n - vlen l) k.
Proof.
  intros. unfold takez, vlen in *. rewrite take_app. rewrite take_ge by lia. do 2 f_equal. lia.
Qed.

Lemma dropz_app_l n l k : n <= vlen l -> dropz n (l ++ k) = dropz n l ++ k.
Proof. intros. unfold dropz, vlen in *. apply drop_app_le. lia. Qed.

Lemma dropz_app_r n l k : vlen l <= n -> dropz n (l ++ k) = dropz (n - vlen l) k.
Proof. intros. unfold dropz, vlen in *. rewrite drop_app_ge by lia. f_equal. lia. Qed.

Lemma dropz_takez n m l : 0 <= n <= m -> dropz n (takez m l) = takez (m - n) (dropz n l).
Proof.
  intros. unfold dropz, takez. rewrite skipn_firstn_comm. f_equal. lia.
Qed.

Lemma takez_split n m l : 0 <= n <= m -> takez m l = takez n l ++ takez (m - n) (dropz n l).
Proof.
  intros. rewrite <- (takez_dropz n (takez m l)). rewrite takez_takez, dropz_takez by lia.
  by rewrite Z.min_l by lia.
Qed.

Lemma slice_Some a b l :
  0 <= a <= b -> b <= vlen l -> slice a b l = Some (takez (b - a) (dropz a l)).
Proof.
  intros. unfold slice. destruct (Z.leb_spec 0 a); [| lia]. destruct (Z.leb_spec a b); [| lia].
  by destruct (Z.leb_spec b (vlen l)); [| lia].
Qed.

Lemma slice_front n l : 0 <= n <= vlen l -> slice 0 n l = Some (takez n l).
Proof. intros. rewrite slice_Some by lia. rewrite dropz_0 by lia. by rewrite Z.sub_0_r. Qed.

Lemma write_at_Some a k l :
  0 <= a -> a + vlen k <= vlen l ->
  write_at a k l = Some (takez a l ++ k ++ dropz (a + vlen k) l).
Proof.
  intros. unfold write_at. destruct (Z.leb_spec 0 a); [| lia].
  by destruct (Z.leb_spec (a + vlen k) (vlen l)); [| lia].
Qed.

Lemma vlen_write a k l :
  0 <= a -> a + vlen k <= vlen l -> vlen (takez a l ++ k ++ dropz (a + vlen k) l) = vlen l.
Proof.
  intros. pose proof (vlen_nonneg k). rewrite !vlen_app, vlen_takez, vlen_dropz by lia. lia.
Qed.

(** What a write leaves in front of it, what it wrote, and what it leaves behind. *)
Lemma takez_write a n k l :
  0 <= n <= a -> a <= vlen l -> takez n (takez a l ++ k) = takez n l.
Proof.
  intros. rewrite takez_app_l by (rewrite vlen_takez by lia; lia).
  rewrite takez_takez by lia. by rewrite Z.min_l by lia.
Qed.

Lemma dropz_write a k l : 0 <= a <= vlen l -> dropz a (takez a l ++ k) = k.
Proof.
  intros. rewrite dropz_app_r by (rewrite vlen_takez by lia; lia).
  rewrite vlen_takez by lia. by rewrite dropz_0 by lia.
Qed.

(** A range that ends where the write begins grows by what was written. *)
Lemma range_write a b k l :
  0 <= a <= b -> b + vlen k <= vlen l ->
  takez (b + vlen k - a) (dropz a (takez b l ++ k ++ dropz (b + vlen k) l)) =
  takez (b - a) (dropz a l) ++ k.
Proof.
  intros. pose proof (vlen_nonneg k).
  rewrite dropz_app_l by (rewrite vlen_takez by lia; lia). rewrite dropz_takez by lia.
  assert (Hl : vlen (takez (b - a) (dropz a l)) = b - a).
  { rewrite vlen_takez; [done |]. rewrite vlen_dropz by lia. lia. }
  rewrite takez_app_r by lia. rewrite Hl. f_equal.
  rewrite takez_app_l by lia. apply takez_all. lia.
Qed.
End slices.

(** *** Entry by entry *)

Lemma vget_app_r {A} (l k : list A) j : vlen l <= j -> (l ++ k) !!z j = k !!z (j - vlen l).
Proof.
  intros Hj. pose proof (vlen_nonneg l). unfold vget, vlen in *. rewrite length_app.
  rewrite lookup_app_r by lia. replace (Z.to_nat j - length l)%nat with (Z.to_nat (j - Z.of_nat (length l))) by lia.
  destruct (Z.leb_spec 0 j), (Z.leb_spec 0 (j - Z.of_nat (length l))),
    (Z.ltb_spec j (Z.of_nat (length l + length k))), (Z.ltb_spec (j - Z.of_nat (length l)) (Z.of_nat (length k)));
    simpl; first [done | lia].
Qed.

Lemma vget_takez {A} (l : list A) i j : 0 <= j < i -> takez i l !!z j = l !!z j.
Proof.
  intros Hj. destruct (Z.le_gt_cases (vlen l) i) as [Hi | Hi]; [by rewrite takez_all by lia |].
  rewrite <- (takez_dropz i l) at 2. rewrite vget_app_l; [done |]. rewrite vlen_takez; lia.
Qed.

Lemma vget_dropz {A} (l : list A) i j : 0 <= i <= vlen l -> 0 <= j -> dropz i l !!z j = l !!z (i + j).
Proof.
  intros Hi Hj. rewrite <- (takez_dropz i l) at 2.
  rewrite vget_app_r; rewrite vlen_takez by lia; [f_equal; lia | lia].
Qed.

(** A write, entry by entry. *)
Lemma vget_write {A} (l k : list A) a j :
  0 <= a -> a + vlen k <= vlen l -> 0 <= j ->
  (takez a l ++ k ++ dropz (a + vlen k) l) !!z j =
  if (a <=? j) && (j <? a + vlen k) then k !!z (j - a) else l !!z j.
Proof.
  intros Ha Hk Hj. pose proof (vlen_nonneg k).
  destruct (Z.leb_spec a j) as [Haj|]; cbn [andb].
  - rewrite vget_app_r; rewrite vlen_takez by lia; [| lia].
    destruct (Z.ltb_spec j (a + vlen k)).
    + by rewrite vget_app_l by lia.
    + rewrite vget_app_r by lia. rewrite vget_dropz by lia. f_equal. lia.
  - rewrite vget_app_l by (rewrite vlen_takez; lia). apply vget_takez. lia.
Qed.

Lemma fmap_takez {A B} (f : A -> B) n (l : list A) : f <$> takez n l = takez n (f <$> l).
Proof. apply fmap_take. Qed.

Lemma fmap_dropz {A B} (f : A -> B) n (l : list A) : f <$> dropz n l = dropz n (f <$> l).
Proof. apply fmap_drop. Qed.

(** A write into the rest of a slice is a write into the slice. *)
Lemma write_within {A} f a (k l s : list A) :
  write_at a k (dropz f l) = Some s -> 0 <= f <= vlen l ->
  0 <= a /\ f + a + vlen k <= vlen l /\ write_at f s l = write_at (f + a) k l.
Proof.
  intros Hs Hf. unfold write_at in Hs. rewrite vlen_dropz in Hs by lia. pose proof (vlen_nonneg k).
  destruct (Z.leb_spec 0 a); [| done]. destruct (Z.leb_spec (a + vlen k) (vlen l - f)); [| done].
  injection Hs as Hs. split; [done |]. split; [lia |].
  assert (Hl : vlen s = vlen l - f).
  { subst s. rewrite vlen_write by (rewrite ?vlen_dropz; lia). apply vlen_dropz. lia. }
  rewrite !write_at_Some by lia. rewrite Hl, (dropz_all (f + _)), app_nil_r by lia. subst s.
  rewrite (takez_split f (f + a)) by lia. replace (f + a - f) with a by lia.
  rewrite dropz_dropz by lia. by rewrite <- !app_assoc, Z.add_assoc.
Qed.

Lemma vget_eq {A} (l k : list A) :
  vlen l = vlen k -> (forall j, 0 <= j < vlen l -> l !!z j = k !!z j) -> l = k.
Proof.
  intros Hl Hj. apply vget_ext. intros j. destruct (decide (0 <= j < vlen l)); [by apply Hj |].
  by rewrite !vget_None by lia.
Qed.

#[global] Opaque takez dropz.
