(* ===== verification/PoolBuf.v ===== *)
(** * A pool's buffer

    [PoolBuf] of [buf/mod.rs]: a block of memory with the bytes [start..end]
    filled and not read yet, and its copies in and out. The memory behind the
    buffer's pointer is a list of bytes carried beside its description, since
    the buffer is the only one that points at it. The buffer is shown to be a
    bounded queue of bytes. *)

From S2P Require Import Prelude Bytes.
Open Scope Z_scope.

Definition byte : Type := Z.

(** ** The code *)

Record PoolBuf : Type := {
  ptr : Z;
  class : Z;
  cap : Z;
  start : Z;
  end_ : Z
}.

Definition set_start x b :=
  {| ptr := ptr b; class := class b; cap := cap b; start := x; end_ := end_ b |}.
Definition set_end x b :=
  {| ptr := ptr b; class := class b; cap := cap b; start := start b; end_ := x |}.

(** [n as u32]. *)
Definition as_u32 (n : Z) : Z := n mod 2 ^ 32.

Definition capacity (b : PoolBuf) : Z := cap b.

(** The buffer with its memory. *)
Definition Buf : Type := PoolBuf * list byte.

Definition filled (x : Buf) : option (list byte) :=
  let '(b, mem) := x in slice (start b) (end_ b) mem.

Definition is_empty (b : PoolBuf) : bool := start b =? end_ b.

(** Discards what the buffer held; the memory is the caller's to fill. *)
Definition spare (b : PoolBuf) : PoolBuf := set_end 0 (set_start 0 b).

Definition set_filled (n : Z) (b : PoolBuf) : option PoolBuf :=
  if n <=? capacity b
  then Some (set_end (as_u32 (Z.min n (capacity b))) (set_start 0 b))
  else None.

Definition set_filled_at (from n : Z) (b : PoolBuf) : option PoolBuf :=
  let from := Z.min from (capacity b) in
  let b := set_start (as_u32 from) b in
  e ← add64 from n;
  Some (set_end (as_u32 (Z.min e (capacity b))) b).

Definition fill_at (from : Z) (bytes : list byte) (x : Buf) : option (Z * Buf) :=
  let '(b, mem) := x in
  let n := Z.min (vlen bytes) (Z.max 0 (capacity b - from)) in
  let b := spare b in
  chunk ← slice 0 n bytes;
  e ← add64 from n;
  mem ← (if e <=? vlen mem then write_at from chunk mem else Some mem);
  b ← set_filled_at from n b;
  Some (n, (b, mem)).

Definition fill_from (bytes : list byte) (x : Buf) : option (Z * Buf) :=
  let '(b, mem) := x in
  let n := Z.min (vlen bytes) (capacity b) in
  let b := spare b in
  chunk ← slice 0 n bytes;
  mem ← write_at 0 chunk mem;
  b ← set_filled n b;
  Some (n, (b, mem)).

(** The unread bytes move to the front when that makes room. *)
Definition compact (bytes : list byte) (x : Buf) : option Buf :=
  let '(b, mem) := x in
  e ← add64 (end_ b) (vlen bytes);
  if (0 <? start b) && (capacity b <? e) then
    chunk ← slice (start b) (end_ b) mem;
    mem ← write_at 0 chunk mem;
    n ← sub64 (end_ b) (start b);
    Some (set_end (as_u32 n) (set_start 0 b), mem)
  else Some (b, mem).

Definition append (bytes : list byte) (x : Buf) : option (Z * Buf) :=
  '(b, mem) ← compact bytes x;
  room ← sub64 (capacity b) (end_ b);
  let n := Z.min room (vlen bytes) in
  chunk ← slice 0 n bytes;
  mem ← write_at (end_ b) chunk mem;
  Some (n, (set_end (end_ b + as_u32 n) b, mem)).

Definition consume (n : Z) (b : PoolBuf) : option PoolBuf :=
  len ← sub64 (end_ b) (start b);
  let n := Z.min n len in
  Some (set_start (start b + as_u32 n) b).

(** Answers how many bytes were copied, and [out] with them in front. *)
Definition peek_into (out : list byte) (x : Buf) : option (Z * list byte) :=
  src ← filled x;
  let n := Z.min (vlen src) (vlen out) in
  chunk ← slice 0 n src;
  out ← write_at 0 chunk out;
  Some (n, out).

Definition read_into (out : list byte) (x : Buf) : option (Z * list byte * Buf) :=
  '(n, out) ← peek_into out x;
  b ← consume n x.1;
  Some (n, out, (b, x.2)).

(** [copy_vectored]'s loop: what is left of [src] and the buffers from here on;
    [n] bytes were copied before. *)
Fixpoint copy_from (src : list byte) (n : Z) (bufs : list (list byte)) :
    option (Z * list (list byte)) :=
  match bufs with
  | [] => Some (n, [])
  | buf :: bufs =>
      rest ← slice n (vlen src) src;
      if vlen rest =? 0 then Some (n, buf :: bufs)
      else
        let k := Z.min (vlen rest) (vlen buf) in
        chunk ← slice 0 k rest;
        buf ← write_at 0 chunk buf;
        '(n, bufs) ← copy_from src (n + k) bufs;
        Some (n, buf :: bufs)
  end.

Definition copy_vectored (src : list byte) (bufs : list (list byte)) :
    option (Z * list (list byte)) :=
  copy_from src 0 bufs.

Definition read_into_vectored (bufs : list (list byte)) (x : Buf) :
    option (Z * list (list byte) * Buf) :=
  src ← filled x;
  '(n, bufs) ← copy_vectored src bufs;
  b ← consume n x.1;
  Some (n, bufs, (b, x.2)).

Fixpoint append_from (n : Z) (bufs : list (list byte)) (x : Buf) : option (Z * Buf) :=
  match bufs with
  | [] => Some (n, x)
  | buf :: bufs =>
      '(taken, x) ← append buf x;
      if taken <? vlen buf then Some (n + taken, x) else append_from (n + taken) bufs x
  end.

Definition append_vectored (bufs : list (list byte)) (x : Buf) : option (Z * Buf) :=
  append_from 0 bufs x.

(** ** A bounded queue of bytes *)

(** [src] spread over [bufs], each filled before the next. *)
Fixpoint scatter (src : list byte) (bufs : list (list byte)) : list (list byte) :=
  match bufs with
  | [] => []
  | buf :: bufs =>
      (takez (vlen buf) src ++ dropz (vlen src) buf) :: scatter (dropz (vlen buf) src) bufs
  end.

(** The calls on a buffer. *)
Inductive bop : Type :=
| BAppend (bytes : list byte)
| BAppendVectored (bufs : list (list byte))
| BPeek (out : list byte)
| BRead (out : list byte)
| BReadVectored (bufs : list (list byte))
| BConsume (n : Z)
| BFillAt (from : Z) (bytes : list byte)
| BFillFrom (bytes : list byte).

(** What a call answers: a count, and the caller's buffers after it. *)
Definition answer : Type := Z * list (list byte).

Definition buf_call (o : bop) (x : Buf) : option (answer * Buf) :=
  match o with
  | BAppend bytes => '(n, x) ← append bytes x; Some ((n, []), x)
  | BAppendVectored bufs => '(n, x) ← append_vectored bufs x; Some ((n, []), x)
  | BPeek out => '(n, out) ← peek_into out x; Some ((n, [out]), x)
  | BRead out => '(n, out, x) ← read_into out x; Some ((n, [out]), x)
  | BReadVectored bufs => '(n, bufs, x) ← read_into_vectored bufs x; Some ((n, bufs), x)
  | BConsume n => b ← consume n x.1; Some ((0, []), (b, x.2))
  | BFillAt from bytes => '(n, x) ← fill_at from bytes x; Some ((n, []), x)
  | BFillFrom bytes => '(n, x) ← fill_from bytes x; Some ((n, []), x)
  end.

(** The same calls on a queue of at most [c] bytes. *)
Definition queue_call (c : Z) (o : bop) (q : list byte) : answer * list byte :=
  match o with
  | BAppend bytes =>
      let n := Z.min (vlen bytes) (c - vlen q) in ((n, []), q ++ takez n bytes)
  | BAppendVectored bufs =>
      let n := Z.min (vlen (concat bufs)) (c - vlen q) in ((n, []), q ++ takez n (concat bufs))
  | BPeek out =>
      let n := Z.min (vlen q) (vlen out) in ((n, [takez n q ++ dropz n out]), q)
  | BRead out =>
      let n := Z.min (vlen q) (vlen out) in ((n, [takez n q ++ dropz n out]), dropz n q)
  | BReadVectored bufs =>
      let n := Z.min (vlen q) (vlen (concat bufs)) in ((n, scatter q bufs), dropz n q)
  | BConsume n => ((0, []), dropz (Z.min n (vlen q)) q)
  | BFillAt from bytes =>
      let n := Z.min (vlen bytes) (Z.max 0 (c - from)) in ((n, []), takez n bytes)
  | BFillFrom bytes => let n := Z.min (vlen bytes) c in ((n, []), takez n bytes)
  end.

Fixpoint buf_calls (os : list bop) (x : Buf) : option (list answer * Buf) :=
  match os with
  | [] => Some ([], x)
  | o :: os =>
      '(a, x) ← buf_call o x;
      '(answers, x) ← buf_calls os x;
      Some (a :: answers, x)
  end.

Fixpoint queue_calls (c : Z) (os : list bop) (q : list byte) : list answer * list byte :=
  match os with
  | [] => ([], q)
  | o :: os =>
      let '(a, q) := queue_call c o q in
      let '(answers, q) := queue_calls c os q in (a :: answers, q)
  end.

(** A slice is at most [isize::MAX] long and a position is a [usize]. *)
Definition is_slice (l : list byte) : bool := vlen l <=? isize_max.

Definition call_ok (o : bop) : bool :=
  match o with
  | BAppend bytes | BPeek bytes | BRead bytes | BFillFrom bytes => is_slice bytes
  | BAppendVectored bufs | BReadVectored bufs => forallb is_slice bufs
  | BConsume n => (0 <=? n) && (n <=? usize_max)
  | BFillAt from bytes => (0 <=? from) && (from <=? usize_max) && is_slice bytes
  end.

Record buf_ok (x : Buf) : Prop := {
  ok_start : 0 <= start x.1 <= end_ x.1;
  ok_end : end_ x.1 <= cap x.1 < 2 ^ 32;
  ok_mem : vlen x.2 = cap x.1
}.

Record holds (c : Z) (x : Buf) (q : list byte) : Prop := {
  holds_ok : buf_ok x;
  holds_cap : cap x.1 = c;
  holds_queue : takez (end_ x.1 - start x.1) (dropz (start x.1) x.2) = q
}.

Lemma as_u32_id n : 0 <= n < 2 ^ 32 -> as_u32 n = n.
Proof. intros. by apply Z.mod_small. Qed.

Lemma filled_eq c x q : holds c x q -> filled x = Some q.
Proof.
  destruct x as [b mem]. intros [[] ? <-]. simpl in *. apply slice_Some; lia.
Qed.

Lemma vlen_queue c x q : holds c x q -> vlen q = end_ x.1 - start x.1 /\ vlen q <= c.
Proof.
  destruct x as [b mem]. intros [[] ? <-]. simpl in *.
  rewrite vlen_takez; [lia |]. rewrite vlen_dropz by lia. lia.
Qed.

(** Moving the unread bytes to the front keeps them, and leaves room for what
    fits. *)
Lemma compact_ok c x q bytes :
  holds c x q -> vlen bytes <= isize_max ->
  exists x', compact bytes x = Some x' /\ holds c x' q /\
    Z.min (c - end_ x'.1) (vlen bytes) = Z.min (vlen bytes) (c - vlen q).
Proof.
  intros Hx Hb. pose proof (vlen_queue _ _ _ Hx) as [Hq Hqc]. pose proof (vlen_nonneg bytes).
  pose proof (filled_eq _ _ _ Hx) as Hf. destruct x as [b mem]. unfold isize_max in Hb.
  destruct Hx as [[Hs He Hm] Hc Hqe]. unfold compact, filled in *. simpl in *.
  rewrite add64_Some by (unfold u64_max; lia). cbn [mbind option_bind].
  destruct (Z.ltb_spec 0 (start b)) as [H0 | H0]; simpl.
  - unfold capacity. destruct (Z.ltb_spec (cap b) (end_ b + vlen bytes)) as [H1 | H1].
    + rewrite Hf. cbn [mbind option_bind]. pose proof (vlen_nonneg q).
      rewrite write_at_Some by lia. cbn [mbind option_bind].
      rewrite sub64_Some by lia. cbn [mbind option_bind].
      rewrite as_u32_id by lia. eexists. split; [reflexivity |]. simpl. split; [| lia].
      split; [constructor; simpl; try lia; rewrite vlen_write by lia; lia | done |]. simpl.
      rewrite dropz_0 by lia. rewrite (takez_0 0) by lia. simpl.
      rewrite takez_app_l by lia. apply takez_all. lia.
    + eexists. split; [reflexivity |]. simpl. split; [by split | lia].
  - eexists. split; [reflexivity |]. simpl. split; [by split | lia].
Qed.

Lemma append_ok c x q bytes :
  holds c x q -> vlen bytes <= isize_max ->
  let n := Z.min (vlen bytes) (c - vlen q) in
  exists x', append bytes x = Some (n, x') /\ holds c x' (q ++ takez n bytes).
Proof.
  intros Hx Hb. destruct (compact_ok c x q bytes Hx Hb) as ([b mem] & Hc & Hx' & Hn).
  pose proof (vlen_nonneg bytes). pose proof (vlen_queue _ _ _ Hx') as [Hq Hqc].
  destruct Hx' as [[Hs He Hm] Hcap Hqe]. simpl in *. unfold append. rewrite Hc.
  cbn [mbind option_bind]. unfold capacity. rewrite sub64_Some by lia. cbn [mbind option_bind].
  rewrite Hcap, Hn. set (n := Z.min (vlen bytes) (c - vlen q)) in *.
  rewrite slice_front by lia. cbn [mbind option_bind].
  assert (Hl : vlen (takez n bytes) = n) by (apply vlen_takez; lia).
  rewrite write_at_Some by lia. cbn [mbind option_bind]. rewrite as_u32_id by lia.
  eexists. split; [reflexivity |].
  split; [constructor; simpl; try lia; rewrite vlen_write by lia; lia | done |]. simpl.
  rewrite <- Hqe, <- range_write by lia. do 2 f_equal. lia.
Qed.

Lemma consume_ok c x q n :
  holds c x q -> 0 <= n ->
  exists b, consume n x.1 = Some b /\ holds c (b, x.2) (dropz (Z.min n (vlen q)) q).
Proof.
  intros Hx Hn. pose proof (vlen_queue _ _ _ Hx) as [Hq Hqc]. pose proof (vlen_nonneg q).
  destruct x as [b mem]. destruct Hx as [[Hs He Hm] Hc Hqe]. simpl in *. unfold consume.
  rewrite sub64_Some by lia. cbn [mbind option_bind]. rewrite <- Hq.
  set (k := Z.min n (vlen q)). rewrite as_u32_id by lia. eexists. split; [reflexivity |].
  split; [constructor; simpl; lia | done |]. simpl. rewrite <- Hqe.
  rewrite dropz_takez by lia. rewrite dropz_dropz by lia. f_equal. lia.
Qed.

Lemma peek_ok c x q out :
  holds c x q ->
  let n := Z.min (vlen q) (vlen out) in
  peek_into out x = Some (n, takez n q ++ dropz n out).
Proof.
  intros Hx n. pose proof (vlen_nonneg q). pose proof (vlen_nonneg out). unfold peek_into.
  rewrite (filled_eq _ _ _ Hx). cbn [mbind option_bind]. fold n.
  rewrite slice_front by lia. cbn [mbind option_bind].
  assert (vlen (takez n q) = n) as Hl by (apply vlen_takez; lia).
  rewrite write_at_Some by lia. cbn [mbind option_bind]. rewrite Hl, (takez_0 0) by lia. done.
Qed.

Lemma append_from_ok c x q bufs n :
  holds c x q -> forallb is_slice bufs = true ->
  let k := Z.min (vlen (concat bufs)) (c - vlen q) in
  exists x', append_from n bufs x = Some (n + k, x') /\ holds c x' (q ++ takez k (concat bufs)).
Proof.
  revert x q n. induction bufs as [|buf bufs IH]; intros x q n Hx Hb; simpl.
  { pose proof (vlen_queue _ _ _ Hx) as [_ Hq]. change (vlen []) with 0.
    exists x. rewrite Z.min_l by lia. rewrite takez_0, app_nil_r by lia. by rewrite Z.add_0_r. }
  simpl in Hb. apply andb_true_iff in Hb as [Hb Hbs]. unfold is_slice in Hb. apply Z.leb_le in Hb.
  destruct (append_ok c x q buf Hx Hb) as (x1 & -> & Hx1). cbn [mbind option_bind].
  pose proof (vlen_queue _ _ _ Hx) as [_ Hq]. pose proof (vlen_nonneg buf).
  pose proof (vlen_nonneg (concat bufs)). rewrite vlen_app.
  destruct (Z.ltb_spec (Z.min (vlen buf) (c - vlen q)) (vlen buf)) as [Hlt | Hge].
  - exists x1. rewrite (Z.min_r (vlen buf + _)) by lia. rewrite (Z.min_r (vlen buf)) in Hx1 by lia.
    rewrite (Z.min_r (vlen buf)) by lia. by rewrite takez_app_l by lia.
  - rewrite Z.min_l in Hx1 |- * by lia. rewrite takez_all in Hx1 by lia.
    destruct (IH x1 _ (n + vlen buf) Hx1 Hbs) as (x2 & -> & Hx2). exists x2.
    rewrite vlen_app in *. split; [do 2 f_equal; lia |].
    rewrite takez_app_r by lia. rewrite <- app_assoc in Hx2.
    by replace (Z.min (vlen buf + vlen (concat bufs)) (c - vlen q) - vlen buf)
      with (Z.min (vlen (concat bufs)) (c - (vlen q + vlen buf))) by lia.
Qed.

Lemma scatter_nil bufs : scatter [] bufs = bufs.
Proof.
  induction bufs as [|buf bufs IH]; [done |]. simpl. change (vlen []) with 0.
  pose proof (vlen_nonneg buf). rewrite (dropz_0 0) by lia.
  rewrite (takez_all (vlen buf) []) by (change (vlen []) with 0; lia).
  rewrite (dropz_all (vlen buf) []) by (change (vlen []) with 0; lia). by rewrite IH.
Qed.

Lemma copy_from_ok src n bufs :
  0 <= n <= vlen src ->
  copy_from src n bufs =
    Some (Z.min (vlen src) (n + vlen (concat bufs)), scatter (dropz n src) bufs).
Proof.
  revert n. induction bufs as [|buf bufs IH]; intros n Hn; simpl.
  { change (vlen []) with 0. do 2 f_equal. lia. }
  rewrite slice_Some by lia. cbn [mbind option_bind].
  rewrite takez_all by (rewrite vlen_dropz by lia; lia). rewrite vlen_dropz, vlen_app by lia.
  pose proof (vlen_nonneg buf). pose proof (vlen_nonneg (concat bufs)).
  destruct (Z.eqb_spec (vlen src - n) 0) as [E | E].
  { rewrite (dropz_all n src) by lia. change (vlen []) with 0.
    rewrite takez_all, (dropz_all (vlen buf) []), scatter_nil by (change (vlen []) with 0; lia).
    rewrite (dropz_0 (vlen src - n)) by lia. do 2 f_equal. lia. }
  set (k := Z.min (vlen src - n) (vlen buf)).
  rewrite slice_front by (rewrite vlen_dropz by lia; lia). cbn [mbind option_bind].
  assert (Hk : vlen (takez k (dropz n src)) = k) by (apply vlen_takez; rewrite vlen_dropz by lia; lia).
  rewrite write_at_Some by lia. cbn [mbind option_bind]. rewrite Hk, (takez_0 0) by lia. simpl.
  rewrite IH by lia. cbn [mbind option_bind]. rewrite !dropz_dropz by lia.
  destruct (Z.le_ge_cases (vlen src - n) (vlen buf)) as [Hle | Hge].
  - replace k with (vlen src - n) by lia. f_equal. f_equal; [lia |]. f_equal.
    + f_equal. rewrite !takez_all by (rewrite vlen_dropz by lia; lia). done.
    + rewrite (dropz_all (n + (vlen src - n))), (dropz_all (n + vlen buf)) by lia. done.
  - replace k with (vlen buf) by lia. f_equal. f_equal; [lia |]. f_equal.
    by rewrite (dropz_all (0 + vlen buf) buf), (dropz_all (vlen src - n) buf) by lia.
Qed.

Lemma fill_from_ok c x q bytes :
  holds c x q ->
  let n := Z.min (vlen bytes) c in
  exists x', fill_from bytes x = Some (n, x') /\ holds c x' (takez n bytes).
Proof.
  destruct x as [b mem]. intros [[Hs He Hm] Hc _]. simpl in *. unfold fill_from, capacity.
  pose proof (vlen_nonneg bytes). rewrite Hc. set (n := Z.min (vlen bytes) c).
  rewrite slice_front by lia. cbn [mbind option_bind].
  assert (Hl : vlen (takez n bytes) = n) by (apply vlen_takez; lia).
  rewrite write_at_Some by lia. cbn [mbind option_bind]. unfold set_filled, capacity. simpl.
  destruct (Z.leb_spec n (cap b)); [| lia]. cbn [mbind option_bind].
  rewrite Z.min_l, as_u32_id by lia. eexists. split; [reflexivity |].
  split; [constructor; simpl; try lia; rewrite vlen_write by lia; lia | done |]. simpl.
  rewrite dropz_0, (takez_0 0) by lia. simpl. rewrite takez_app_l by lia. apply takez_all. lia.
Qed.

Lemma fill_at_ok c x q from bytes :
  holds c x q -> 0 <= from <= usize_max ->
  let n := Z.min (vlen bytes) (Z.max 0 (c - from)) in
  exists x', fill_at from bytes x = Some (n, x') /\ holds c x' (takez n bytes).
Proof.
  destruct x as [b mem]. intros [[Hs He Hm] Hc _] Hf. simpl in *. unfold usize_max in Hf.
  unfold fill_at, capacity. pose proof (vlen_nonneg bytes). rewrite Hc.
  set (n := Z.min (vlen bytes) (Z.max 0 (c - from))).
  rewrite slice_front by lia. cbn [mbind option_bind].
  rewrite add64_Some by (unfold u64_max; lia). cbn [mbind option_bind].
  assert (Hl : vlen (takez n bytes) = n) by (apply vlen_takez; lia).
  unfold set_filled_at, capacity. simpl. rewrite Hc, Hm, Hc.
  destruct (Z.leb_spec (from + n) c).
  - rewrite write_at_Some by lia. cbn [mbind option_bind]. rewrite (Z.min_l from c) by lia.
    rewrite add64_Some by (unfold u64_max; lia). cbn [mbind option_bind].
    rewrite !as_u32_id, Z.min_l by lia. eexists. split; [reflexivity |].
    split; [constructor; simpl; try lia; rewrite vlen_write by lia; lia | done |]. simpl.
    rewrite dropz_write by lia. rewrite takez_app_l by lia. apply takez_all. lia.
  - cbn [mbind option_bind]. rewrite (Z.min_r from c) by lia.
    rewrite add64_Some by (unfold u64_max; lia). cbn [mbind option_bind].
    rewrite !as_u32_id, Z.min_r by lia. eexists. split; [reflexivity |].
    split; [constructor; simpl; lia | done |]. simpl. by rewrite !takez_0 by lia.
Qed.

Lemma buf_call_ok c x q o :
  holds c x q -> call_ok o = true ->
  exists x', buf_call o x = Some ((queue_call c o q).1, x') /\ holds c x' (queue_call c o q).2.
Proof.
  intros Hx Ho. pose proof (vlen_nonneg q). destruct o; cbn [buf_call queue_call fst snd].
  - apply Z.leb_le in Ho. destruct (append_ok c x q bytes Hx Ho) as (x' & -> & Hx'). by eexists.
  - destruct (append_from_ok c x q bufs 0 Hx Ho) as (x' & Ha & Hx').
    unfold append_vectored. rewrite Ha. by eexists.
  - rewrite (peek_ok c x q out Hx). by eexists.
  - unfold read_into. rewrite (peek_ok c x q out Hx). cbn [mbind option_bind].
    pose proof (vlen_nonneg out).
    destruct (consume_ok c x q (Z.min (vlen q) (vlen out)) Hx ltac:(lia)) as (b & -> & Hb).
    rewrite Z.min_l in Hb by lia. by eexists.
  - unfold read_into_vectored, copy_vectored. rewrite (filled_eq c x q Hx). cbn [mbind option_bind].
    rewrite copy_from_ok by lia. rewrite Z.add_0_l, dropz_0 by lia. cbn [mbind option_bind].
    pose proof (vlen_nonneg (concat bufs)).
    destruct (consume_ok c x q (Z.min (vlen q) (vlen (concat bufs))) Hx ltac:(lia)) as (b & -> & Hb).
    rewrite (Z.min_l (Z.min _ _)) in Hb by lia. by eexists.
  - apply andb_true_iff in Ho as [Ho _]. apply Z.leb_le in Ho.
    destruct (consume_ok c x q n Hx Ho) as (b & -> & Hb). by eexists.
  - apply andb_true_iff in Ho as [Ho _]. apply andb_true_iff in Ho as [Ho1%Z.leb_le Ho2%Z.leb_le].
    destruct (fill_at_ok c x q from bytes Hx ltac:(lia)) as (x' & -> & Hx'). by eexists.
  - destruct (fill_from_ok c x q bytes Hx) as (x' & -> & Hx'). by eexists.
Qed.

Lemma concat_scatter src bufs :
  let n := Z.min (vlen src) (vlen (concat bufs)) in
  concat (scatter src bufs) = takez n src ++ dropz n (concat bufs).
Proof.
  simpl. revert src. induction bufs as [|buf bufs IH]; intros src; simpl.
  { pose proof (vlen_nonneg src). change (vlen []) with 0. rewrite Z.min_r by lia.
    by rewrite takez_0, dropz_0 by lia. }
  rewrite IH, vlen_app. pose proof (vlen_nonneg src). pose proof (vlen_nonneg buf).
  pose proof (vlen_nonneg (concat bufs)). destruct (Z.le_ge_cases (vlen src) (vlen buf)) as [Hle | Hge].
  - rewrite (dropz_all (vlen buf) src) by lia. change (vlen []) with 0.
    rewrite (Z.min_l 0) by lia. rewrite (takez_0 0), (dropz_0 0), (takez_all (vlen buf) src) by lia.
    rewrite Z.min_l by lia. rewrite takez_all by lia. rewrite dropz_app_l by lia.
    by rewrite <- app_assoc.
  - rewrite vlen_dropz by lia. rewrite (dropz_all (vlen src) buf), app_nil_r by lia.
    set (n := Z.min (vlen src) _).
    replace (Z.min (vlen src - vlen buf) (vlen (concat bufs))) with (n - vlen buf) by lia.
    rewrite (takez_split (vlen buf) n src) by lia. rewrite dropz_app_r by lia. by rewrite app_assoc.
Qed.

(** C30. A pool's buffer is a queue of bytes bounded by its capacity: whatever
    the calls on it, and however they wrap around its memory, none reads or
    writes outside it, and each answers as the queue does. An append takes as
    many bytes as there is room for behind the unread ones; a read hands the
    front bytes out once, in order, over the caller's buffers one after the
    other. *)
Theorem pool_buf_is_a_queue (os : list bop) x :
  buf_ok x -> forallb call_ok os = true ->
  exists q x', filled x = Some q /\
    buf_calls os x = Some ((queue_calls (cap x.1) os q).1, x') /\
    buf_ok x' /\ filled x' = Some (queue_calls (cap x.1) os q).2.
Proof.
  intros Hok Hos. exists (takez (end_ x.1 - start x.1) (dropz (start x.1) x.2)).
  remember (takez _ _) as q eqn:Hq. assert (Hx : holds (cap x.1) x q) by (by constructor).
  assert (Hf : filled x = Some q) by (by apply (filled_eq (cap x.1))). clear Hok Hq.
  enough (exists x', buf_calls os x = Some ((queue_calls (cap x.1) os q).1, x') /\
    holds (cap x.1) x' (queue_calls (cap x.1) os q).2) as (x' & ? & Hx').
  { exists x'. split_and!; try done; [by destruct Hx' | by apply (filled_eq (cap x.1))]. }
  revert Hx. generalize (cap x.1). intros c. clear Hf. revert x q Hos.
  induction os as [|o os IH]; intros x q Hos Hx; [by eexists |].
  simpl in Hos. apply andb_true_iff in Hos as [Ho Hos]. cbn [buf_calls queue_calls].
  destruct (buf_call_ok c x q o Hx Ho) as (x1 & -> & Hx1). cbn [mbind option_bind].
  destruct (queue_call c o q) as [a q1]. simpl in *.
  destruct (IH x1 q1 Hos Hx1) as (x2 & -> & Hx2). cbn [mbind option_bind].
  destruct (queue_calls c os q1) as [as_ q2]. by eexists.
Qed.

Lemma pool_buf_is_a_queue_witness :
  exists q x',
    let x := ({| ptr := 64; class := 0; cap := 4; start := 1; end_ := 3 |}, [1; 2; 3; 4]) in
    let os := [BAppend [5; 6; 7]; BRead [0; 0]; BAppendVectored [[8]; [9]]; BReadVectored [[0]; [0; 0]]] in
    filled x = Some q /\
    buf_calls os x = Some ((queue_calls (cap x.1) os q).1, x') /\
    buf_ok x' /\ filled x' = Some (queue_calls (cap x.1) os q).2.
Proof.
  apply pool_buf_is_a_queue; [constructor; vm_compute; split; congruence || reflexivity | reflexivity].
Defined.
