(* ===== verification/BufPool.v ===== *)
(** * A shard's buffer pool

    [Pool] and [Home] of [buf/mod.rs]: buffers in four size classes, recycled
    through free lists and charged against a cap before they exist; the list
    buffers come back on from other threads; and those who wait for one. The
    allocator is a parameter: what it answers for a size, given what is
    allocated. A [dealloc] of memory that is not allocated with that size has
    no result. *)

From stdpp Require Import gmap.
From S2P Require Import Prelude Coop PoolBuf.
Open Scope Z_scope.

(** ** The code *)

Definition CLASSES : list Z := [512; 4096; 16384; 65536].
Definition LARGEST : Z := 65536.
Definition WHOLE : Z := 255.
Definition DEFAULT_CAP : Z := Z.shiftl 64 20.

(** [Iterator::position] and [Iterator::rposition]. *)
Fixpoint position {A} (f : A -> bool) (i : Z) (l : list A) : option Z :=
  match l with
  | [] => None
  | x :: l => if f x then Some i else position f (i + 1) l
  end.

Fixpoint rposition {A} (f : A -> bool) (i : Z) (l : list A) : option Z :=
  match l with
  | [] => None
  | x :: l =>
      match rposition f (i + 1) l with
      | Some j => Some j
      | None => if f x then Some i else None
      end
  end.

Definition top_for (room : Z) : option Z := rposition (fun size => size <=? room) 0 CLASSES.

Definition class_for (len : Z) : Z :=
  match position (fun size => len <=? size) 0 CLASSES with
  | Some c => c
  | None => vlen CLASSES - 1
  end.

(** What is allocated, and its size. *)
Notation Heap := (gmap Z Z).

Definition dealloc (p size : Z) (h : Heap) : option Heap :=
  if bool_decide (h !! p = Some size) then Some (delete p h) else None.

Definition saturating (n : Z) : Z := Z.min n usize_max.

(** [usize::checked_next_multiple_of]. *)
Definition checked_next_multiple_of (k n : Z) : option Z :=
  let m := (n + (k - 1)) / k * k in
  if m <=? usize_max then Some m else None.

(** A buffer on its way back. *)
Record Returned : Type := { raw : Z; rclass : Z; rcap : Z }.

(** A free list is its vector read from the end, where it is pushed and
    popped. [returned], [waiting] and [waiters] are the pool's [Home]. *)
Record Pool : Type := {
  returned : list Returned;
  waiting : bool;
  waiters : list Waker;
  free : list (list Z);
  pcap : Z;
  reserved : Z;
  top : option Z;
  charged : Z;
  exhausted : Z
}.

Definition set_home r f ws p :=
  {| returned := r; waiting := f; waiters := ws; free := free p; pcap := pcap p;
     reserved := reserved p; top := top p; charged := charged p; exhausted := exhausted p |}.
Definition set_returned r p := set_home r (waiting p) (waiters p) p.
Definition set_free x p :=
  {| returned := returned p; waiting := waiting p; waiters := waiters p; free := x;
     pcap := pcap p; reserved := reserved p; top := top p; charged := charged p;
     exhausted := exhausted p |}.
Definition set_charged x p :=
  {| returned := returned p; waiting := waiting p; waiters := waiters p; free := free p;
     pcap := pcap p; reserved := reserved p; top := top p; charged := x;
     exhausted := exhausted p |}.
Definition set_exhausted x p :=
  {| returned := returned p; waiting := waiting p; waiters := waiters p; free := free p;
     pcap := pcap p; reserved := reserved p; top := top p; charged := charged p;
     exhausted := x |}.
Definition set_limits c r tp p :=
  {| returned := returned p; waiting := waiting p; waiters := waiters p; free := free p;
     pcap := c; reserved := r; top := tp; charged := charged p; exhausted := exhausted p |}.

Definition pool_new (cap : Z) : Pool :=
  let cap := Z.max cap 512 in
  {| returned := []; waiting := false; waiters := []; free := replicate (length CLASSES) [];
     pcap := cap; reserved := 0; top := top_for cap; charged := 0; exhausted := 0 |}.

Definition room (p : Pool) : option Z := sub64 (pcap p) (reserved p).

(** [Home::give_back], the exchange that publishes the buffer and the look at
    the flag. *)
Definition wake_waiters (p : Pool) (t : Thread) : Pool * Thread :=
  if waiting p then (set_home (returned p) false [] p, foldl (fun t w => wake w t) t (waiters p))
  else (p, t).

Definition give_back (r : Returned) (p : Pool) (t : Thread) : Pool * Thread :=
  let p := set_returned (r :: returned p) p in
  if waiting p then wake_waiters p t else (p, t).

Definition take_all (p : Pool) : list Returned * Pool := (returned p, set_returned [] p).

Definition release (size : Z) (p : Pool) : option Pool :=
  c ← sub64 (charged p) size;
  Some (set_charged c p).

Definition fits (size : Z) (p : Pool) : bool := saturating (charged p + size) <=? pcap p.

(** [make_room]'s inner loop: frees the idle buffers of one class until the
    bytes fit. *)
Fixpoint free_class (size csize : Z) (stack : list Z) (p : Pool) (h : Heap) :
    option (bool * list Z * Pool * Heap) :=
  match stack with
  | [] => Some (false, [], p, h)
  | q :: stack =>
      h ← dealloc q csize h;
      p ← release csize p;
      if fits size p then Some (true, stack, p, h) else free_class size csize stack p h
  end.

Fixpoint free_classes (size : Z) (classes : list Z) (p : Pool) (h : Heap) :
    option (bool * Pool * Heap) :=
  match classes with
  | [] => Some (false, p, h)
  | c :: classes =>
      stack ← vget (free p) c;
      csize ← vget CLASSES c;
      '(done, stack, p, h) ← free_class size csize stack p h;
      let p := set_free (vset (free p) c stack) p in
      if done : bool then Some (true, p, h) else free_classes size classes p h
  end.

Definition make_room (size : Z) (p : Pool) (h : Heap) : option (bool * Pool * Heap) :=
  if fits size p then Some (true, p, h)
  else
    '(done, p, h) ← free_classes size [3; 2; 1; 0] p h;
    if done : bool then Some (true, p, h)
    else Some (false, set_exhausted (exhausted p + 1) p, h).

Definition charge (size : Z) (p : Pool) (h : Heap) : option (bool * Pool * Heap) :=
  '(ok, p, h) ← make_room size p h;
  if ok : bool then c ← add64 (charged p) size; Some (true, set_charged c p, h)
  else Some (false, p, h).

Definition free_whole (q cap : Z) (p : Pool) (h : Heap) : option (Pool * Heap) :=
  h ← dealloc q cap h;
  p ← release cap p;
  Some (p, h).

Definition push_free (c q : Z) (p : Pool) : option Pool :=
  stack ← vget (free p) c;
  Some (set_free (vset (free p) c (q :: stack)) p).

Fixpoint take_each (class : Z) (rs : list Returned) (found : option Z) (p : Pool) (h : Heap) :
    option (option Z * Pool * Heap) :=
  match rs with
  | [] => Some (found, p, h)
  | r :: rs =>
      if rclass r =? WHOLE then
        '(p, h) ← free_whole (raw r) (rcap r) p h;
        take_each class rs found p h
      else if bool_decide (found = None) && (rclass r =? class) then
        take_each class rs (Some (raw r)) p h
      else
        p ← push_free (rclass r) (raw r) p;
        take_each class rs found p h
  end.

Definition take_returned (class : Z) (p : Pool) (h : Heap) : option (option Z * Pool * Heap) :=
  let '(rs, p) := take_all p in take_each class rs None p h.

Definition reserve (bytes : Z) (p : Pool) (h : Heap) : option (bool * Pool * Heap) :=
  let r := saturating (reserved p + bytes) in
  if pcap p <? saturating (r + 512) then Some (false, p, h)
  else
    '(ok, p, h) ← charge bytes p h;
    if ok : bool then
      rm ← sub64 (pcap p) r;
      Some (true, set_limits (pcap p) r (top_for rm) p, h)
    else Some (false, p, h).

Definition unreserve (bytes : Z) (p : Pool) : option Pool :=
  let bytes := Z.min bytes (reserved p) in
  p ← release bytes p;
  r ← sub64 (reserved p) bytes;
  rm ← sub64 (pcap p) r;
  Some (set_limits (pcap p) r (top_for rm) p).

Definition hold_to (cap : Z) (p : Pool) (h : Heap) : option (Pool * Heap) :=
  least ← add64 (reserved p) 512;
  let cap := Z.max (Z.max cap 512) least in
  rm ← sub64 cap (reserved p);
  '(_, p, h) ← make_room 0 (set_limits cap (reserved p) (top_for rm) p) h;
  Some (p, h).

Definition could_hold_whole (len : Z) (p : Pool) : option bool :=
  size ← (if len <=? LARGEST then vget CLASSES (class_for len)
          else checked_next_multiple_of 4096 len);
  rm ← room p;
  Some (size <=? rm).

Definition pool_buf (q class cap : Z) : PoolBuf :=
  {| ptr := q; PoolBuf.class := class; PoolBuf.cap := as_u32 cap; start := 0; end_ := 0 |}.

Section pool.
Context (alloc_zeroed : Heap -> Z -> option Z).

(** Memory for [size] bytes, charged first. *)
Definition allocate_size (size : Z) (p : Pool) (h : Heap) : option (option Z * Pool * Heap) :=
  '(ok, p, h) ← charge size p h;
  if ok : bool then
    match alloc_zeroed h size with
    | Some q => Some (Some q, p, <[q := size]> h)
    | None => p ← release size p; Some (None, p, h)
    end
  else Some (None, p, h).

Definition allocate (class : Z) (p : Pool) (h : Heap) : option (option Z * Pool * Heap) :=
  size ← vget CLASSES class;
  allocate_size size p h.

Definition pop_free (class : Z) (p : Pool) : option (option Z * Pool) :=
  stack ← vget (free p) class;
  match stack with
  | [] => Some (None, p)
  | q :: stack => Some (Some q, set_free (vset (free p) class stack) p)
  end.

Definition get_class (class : Z) (p : Pool) (h : Heap) : option (option PoolBuf * Pool * Heap) :=
  '(q, p) ← pop_free class p;
  '(q, p, h) ← match q with Some q => Some (Some q, p, h) | None => take_returned class p h end;
  '(q, p, h) ← match q with Some q => Some (Some q, p, h) | None => allocate class p h end;
  size ← vget CLASSES class;
  Some (option_map (fun q => pool_buf q class size) q, p, h).

Definition get (len : Z) (p : Pool) (h : Heap) : option (option PoolBuf * Pool * Heap) :=
  match top p with
  | Some tp => get_class (Z.min (class_for len) tp) p h
  | None => Some (None, p, h)
  end.

Definition get_whole (len : Z) (p : Pool) (h : Heap) : option (option PoolBuf * Pool * Heap) :=
  if len <=? LARGEST then get_class (class_for len) p h
  else
    match checked_next_multiple_of 4096 len with
    | None => Some (None, p, h)
    | Some size =>
        if size <? 2 ^ 32 then
          '(_, p, h) ← take_returned usize_max p h;
          '(q, p, h) ← allocate_size size p h;
          Some (option_map (fun q => pool_buf q WHOLE size) q, p, h)
        else Some (None, p, h)
    end.
End pool.

(** A buffer dropped on its pool's own thread, and on another. *)
Definition take_back (q class cap : Z) (p : Pool) (h : Heap) (t : Thread) :
    option (Pool * Heap * Thread) :=
  '(p, h) ← (if class =? WHOLE then free_whole q cap p h
             else p ← push_free class q p; Some (p, h));
  let '(p, t) := if waiting p then wake_waiters p t else (p, t) in
  Some (p, h, t).

Definition drop_buf (own : bool) (b : PoolBuf) (p : Pool) (h : Heap) (t : Thread) :
    option (Pool * Heap * Thread) :=
  if own then take_back (ptr b) (class b) (cap b) p h t
  else
    let '(p, t) := give_back {| raw := ptr b; rclass := class b; rcap := cap b |} p t in
    Some (p, h, t).

Definition wait_for_return (w : Waker) (p : Pool) (t : Thread) : Pool * Thread :=
  if charged p =? reserved p then (p, wake w t)
  else
    let p := set_home (returned p) true (waiters p ++ [w]) p in
    let idle := existsb (fun f => negb (bool_decide (f = []))) (free p) in
    if idle || negb (bool_decide (returned p = [])) then wake_waiters p t else (p, t).

(** The pool's end: its free buffers go to the allocator and whoever waits is
    woken; and its home's, when the last buffer is back. *)
Fixpoint dealloc_all (csize : Z) (stack : list Z) (h : Heap) : option Heap :=
  match stack with
  | [] => Some h
  | q :: stack => h ← dealloc q csize h; dealloc_all csize stack h
  end.

Fixpoint drop_free (stacks : list (list Z)) (sizes : list Z) (h : Heap) : option Heap :=
  match stacks, sizes with
  | stack :: stacks, size :: sizes => h ← dealloc_all size stack h; drop_free stacks sizes h
  | _, _ => Some h
  end.

Definition drop_pool (p : Pool) (h : Heap) (t : Thread) : option (Pool * Heap * Thread) :=
  h ← drop_free (free p) CLASSES h;
  let '(p, t) := wake_waiters (set_free (replicate (length CLASSES) []) p) t in
  Some (p, h, t).

Definition returned_size (r : Returned) : option Z :=
  if rclass r =? WHOLE then Some (rcap r) else vget CLASSES (rclass r).

Fixpoint drop_home (rs : list Returned) (h : Heap) : option Heap :=
  match rs with
  | [] => Some h
  | r :: rs => size ← returned_size r; h ← dealloc (raw r) size h; drop_home rs h
  end.
