(* ===== verification/BufPoolInv.v ===== *)
(** * The pool's ledger

    What holds of a pool and of the memory it took: every block allocated is
    idle in a free list, on its way back, or out in a buffer, in one place and
    with the size it was allocated with; the bytes charged are these and the
    reservation; and whoever waits has a buffer to wait for. *)

From stdpp Require Import gmap.
From S2P Require Import Prelude Coop PoolBuf BufPool.
Open Scope Z_scope.

Notation block := (Z * Z)%type.

Definition stack_blocks (size : Z) (stack : list Z) : list block := map (fun q => (q, size)) stack.

Definition free_blocks (stacks : list (list Z)) : list block :=
  concat (zip_with stack_blocks CLASSES stacks).

Definition ret_blocks (rs : list Returned) : list block := map (fun r => (raw r, rcap r)) rs.

Definition out_blocks (out : list PoolBuf) : list block := map (fun b => (ptr b, cap b)) out.

Definition blocks (p : Pool) (out : list PoolBuf) : list block :=
  free_blocks (free p) ++ ret_blocks (returned p) ++ out_blocks out.

Definition bytes_of (bl : list block) : Z := foldr (fun b n => b.2 + n) 0 bl.

Definition heap_is (h : Heap) (bl : list block) : Prop := NoDup bl.*1 /\ h = (list_to_map bl : gmap Z Z).

(** A buffer's class and size go together. *)
Definition sized (class cap : Z) : Prop :=
  (class = WHOLE /\ 0 < cap < 2 ^ 32) \/ vget CLASSES class = Some cap.

Definition no_idle (p : Pool) : Prop := Forall (eq []) (free p).

(** The ledger, beside the blocks [other] that a call holds in its hands. *)
Record ledger (p : Pool) (h : Heap) (out : list PoolBuf) (other : list block) : Prop := {
  le_free : length (free p) = 4%nat;
  le_heap : heap_is h (blocks p out ++ other);
  le_ret : Forall (fun r => sized (rclass r) (rcap r)) (returned p);
  le_out : Forall (fun b => sized (class b) (cap b)) out;
  le_charged : charged p = reserved p + bytes_of (blocks p out ++ other);
  le_reserved : 0 <= reserved p /\ reserved p + 512 <= pcap p < usize_max;
  le_top : top p = top_for (pcap p - reserved p);
  le_other : Forall (fun b => 0 < b.2) other;
  le_max : charged p <= usize_max
}.

(** Whoever waits: the flag is up, nothing is idle and a buffer is out. *)
Record wait_ok (p : Pool) (out : list PoolBuf) : Prop := {
  wo_flag : waiting p = bool_decide (waiters p <> []);
  wo_none : waiters p <> [] -> no_idle p /\ returned p = [] /\ out <> []
}.

(** ** Blocks and the heap *)

Lemma bytes_perm bl bl' : bl ≡ₚ bl' -> bytes_of bl = bytes_of bl'.
Proof. induction 1; simpl; lia. Qed.

Lemma bytes_app bl bl' : bytes_of (bl ++ bl') = bytes_of bl + bytes_of bl'.
Proof. induction bl as [|b bl IH]; simpl; lia. Qed.

Lemma heap_perm h bl bl' : heap_is h bl -> bl ≡ₚ bl' -> heap_is h bl'.
Proof.
  intros [Hn ->] Hp. split; [by rewrite <- Hp |]. by apply list_to_map_proper.
Qed.

Lemma heap_dealloc h q s bl :
  heap_is h ((q, s) :: bl) -> dealloc q s h = Some (delete q h) /\ heap_is (delete q h) bl.
Proof.
  intros [Hn ->]. rewrite list_to_map_cons. simpl in *. apply NoDup_cons in Hn as [Hq Hn]. unfold dealloc.
  rewrite bool_decide_eq_true_2 by (by rewrite lookup_insert_eq). split; [done |]. split; [done |].
  rewrite delete_insert_eq. apply delete_id. by apply not_elem_of_list_to_map_1.
Qed.

Lemma heap_alloc h q s bl :
  heap_is h bl -> h !! q = None -> heap_is (<[q := s]> h) ((q, s) :: bl).
Proof.
  intros [Hn ->] Hq. split; [| done]. simpl. apply NoDup_cons. split; [| done].
  by apply not_elem_of_list_to_map_2.
Qed.

Lemma heap_nil h : heap_is h [] -> h = ∅.
Proof. by intros [_ ->]. Qed.

(** A free list changed in its class: the other classes' blocks stay. *)
Lemma zip_class sizes (stacks : list (list Z)) i size stack :
  sizes !! i = Some size -> stacks !! i = Some stack ->
  exists rest, forall st,
    concat (zip_with stack_blocks sizes (<[i := st]> stacks)) ≡ₚ stack_blocks size st ++ rest.
Proof.
  revert sizes stacks. induction i as [|i IH]; intros [|s sizes] [|k stacks] Hs Hk; try done.
  - simpl in *. injection Hs as ->. by eexists.
  - destruct (IH sizes stacks Hs Hk) as (rest & Hr). exists (stack_blocks s k ++ rest).
    intros st. simpl. rewrite Hr. by rewrite !(assoc_L (++)), (Permutation_app_comm (stack_blocks s k)).
Qed.

Lemma free_class_blocks stacks c size stack :
  vget CLASSES c = Some size -> vget stacks c = Some stack ->
  exists rest, free_blocks stacks ≡ₚ stack_blocks size stack ++ rest /\
    forall st, free_blocks (vset stacks c st) ≡ₚ stack_blocks size st ++ rest.
Proof.
  intros Hs Hk. pose proof (vget_bound _ _ _ Hk) as Hb.
  apply vget_Some in Hs as [_ Hs]. pose proof Hk as Hk0. apply vget_Some in Hk as [_ Hk].
  destruct (zip_class CLASSES stacks _ size stack Hs Hk) as (rest & Hr). exists rest.
  split; [rewrite <- (Hr stack); unfold free_blocks; by rewrite list_insert_id |].
  intros st. rewrite <- (Hr st). unfold free_blocks, vset. unfold vlen in Hb.
  destruct (Z.leb_spec 0 c), (Z.ltb_spec c (Z.of_nat (length stacks))); simpl; try lia. done.
Qed.

Lemma class_stack p c size :
  length (free p) = 4%nat -> vget CLASSES c = Some size -> exists stack, vget (free p) c = Some stack.
Proof.
  intros Hl Hc. apply vget_is_Some. pose proof (vget_bound _ _ _ Hc) as Hb.
  unfold vlen in *. rewrite Hl. exact Hb.
Qed.

Lemma class_size_pos c size : vget CLASSES c = Some size -> 512 <= size <= LARGEST.
Proof.
  intros [Hb Hc]%vget_Some. unfold LARGEST. change (vlen CLASSES) with 4 in Hb.
  assert (c = 0 \/ c = 1 \/ c = 2 \/ c = 3) as [-> | [-> | [-> | ->]]] by lia;
    vm_compute in Hc; injection Hc as <-; lia.
Qed.

Lemma sized_pos class cap : sized class cap -> 0 < cap < 2 ^ 32.
Proof. intros [[_ ?] | H%class_size_pos]; unfold LARGEST in *; lia. Qed.

Lemma class_not_whole c size : vget CLASSES c = Some size -> (c =? WHOLE) = false.
Proof.
  intros Hb%vget_bound. change (vlen CLASSES) with 4 in Hb. apply Z.eqb_neq. unfold WHOLE. lia.
Qed.

Lemma bytes_nonneg bl : Forall (fun b => 0 < b.2) bl -> 0 <= bytes_of bl.
Proof. induction 1; simpl; lia. Qed.

Lemma stack_blocks_pos c size stack :
  vget CLASSES c = Some size -> Forall (fun b => 0 < b.2) (stack_blocks size stack).
Proof.
  intros Hc%class_size_pos. apply Forall_forall. intros b Hb. unfold stack_blocks in Hb.
  apply list_elem_of_fmap in Hb as (q & -> & _). simpl. lia.
Qed.

Lemma zip_blocks_pos sizes stacks :
  Forall (fun s => 0 < s) sizes ->
  Forall (fun b => 0 < b.2) (concat (zip_with stack_blocks sizes stacks)).
Proof.
  revert stacks. induction sizes as [|s sizes IH]; intros [|k stacks] Hs; try done.
  apply Forall_cons in Hs as [Hs Hss]. simpl. apply Forall_app. split; [| by apply IH].
  unfold stack_blocks. apply Forall_fmap. by apply Forall_forall.
Qed.

Lemma blocks_pos p h out other : ledger p h out other ->
  Forall (fun b => 0 < b.2) (blocks p out ++ other).
Proof.
  intros L. unfold blocks. rewrite !Forall_app. split_and!.
  - apply zip_blocks_pos. unfold CLASSES. repeat constructor.
  - apply Forall_fmap. eapply Forall_impl; [apply (le_ret _ _ _ _ L) |]. intros r Hr%sized_pos. simpl. lia.
  - apply Forall_fmap. eapply Forall_impl; [apply (le_out _ _ _ _ L) |]. intros r Hr%sized_pos. simpl. lia.
  - apply (le_other _ _ _ _ L).
Qed.

Lemma pool_release_ok size p : 0 <= size <= charged p -> release size p = Some (set_charged (charged p - size) p).
Proof. intros. unfold release. by rewrite sub64_Some by lia. Qed.

(** ** Moves between the places of a block *)

(** What a step of the ledger leaves alone. *)
Definition same_limits (p p' : Pool) : Prop :=
  pcap p' = pcap p /\ reserved p' = reserved p /\ top p' = top p.

Lemma ledger_move p h out other p' out' other' :
  ledger p h out other ->
  blocks p out ++ other ≡ₚ blocks p' out' ++ other' ->
  charged p' = charged p -> same_limits p p' -> length (free p') = 4%nat ->
  Forall (fun r => sized (rclass r) (rcap r)) (returned p') ->
  Forall (fun b => sized (class b) (cap b)) out' ->
  Forall (fun b => 0 < b.2) other' ->
  ledger p' h out' other'.
Proof.
  intros [] Hp Hc (E1 & E2 & E3) ? ? ? ?. constructor; rewrite ?E1, ?E2, ?E3, ?Hc; try done.
  - by eapply heap_perm.
  - by rewrite <- (bytes_perm _ _ Hp).
Qed.

Lemma ledger_free p h out other q s :
  ledger p h out ((q, s) :: other) ->
  dealloc q s h = Some (delete q h) /\ release s p = Some (set_charged (charged p - s) p) /\
  ledger (set_charged (charged p - s) p) (delete q h) out other.
Proof.
  intros L. pose proof (bytes_nonneg _ (blocks_pos _ _ _ _ L)) as Hn.
  pose proof (blocks_pos _ _ _ _ L) as Hpos. destruct L as [? Hh ? ? Hc ? ? Ho ?].
  apply Forall_cons in Ho as [Hs Ho]. simpl in Hs.
  assert (Hp : blocks p out ++ (q, s) :: other ≡ₚ (q, s) :: blocks p out ++ other)
    by (by rewrite Permutation_middle).
  destruct (heap_dealloc h q s (blocks p out ++ other)) as [Hd Hh']; [by eapply heap_perm |].
  rewrite (bytes_perm _ _ Hp) in Hc. rewrite Hp in Hpos. apply Forall_cons in Hpos as [_ Hpos].
  apply bytes_nonneg in Hpos. simpl in Hc.
  split; [done |]. split; [apply pool_release_ok; lia |]. constructor; simpl; try done; [| lia].
  change (blocks (set_charged _ p) out) with (blocks p out). lia.
Qed.

Lemma ledger_free_whole p h out other q s :
  ledger p h out ((q, s) :: other) ->
  free_whole q s p h = Some (set_charged (charged p - s) p, delete q h) /\
  ledger (set_charged (charged p - s) p) (delete q h) out other.
Proof.
  intros L. destruct (ledger_free _ _ _ _ _ _ L) as (Hd & Hr & L'). unfold free_whole.
  rewrite Hd. cbn [mbind option_bind]. by rewrite Hr.
Qed.

Lemma ledger_push p h out other q c size :
  ledger p h out ((q, size) :: other) -> vget CLASSES c = Some size ->
  exists stack, vget (free p) c = Some stack /\
    push_free c q p = Some (set_free (vset (free p) c (q :: stack)) p) /\
    ledger (set_free (vset (free p) c (q :: stack)) p) h out other.
Proof.
  intros L Hc. destruct (class_stack p c size (le_free _ _ _ _ L) Hc) as (stack & Hk).
  exists stack. split; [done |]. split; [unfold push_free; by rewrite Hk |].
  destruct (free_class_blocks _ _ _ _ Hc Hk) as (rest & Hf & Hv).
  pose proof (le_other _ _ _ _ L) as Ho. apply Forall_cons in Ho as [_ Ho].
  eapply ledger_move; [exact L | | done | done | | apply (le_ret _ _ _ _ L) |
    apply (le_out _ _ _ _ L) | done].
  - unfold blocks. simpl. rewrite Hf, Hv. simpl. rewrite <- !app_assoc. by rewrite <- !Permutation_middle.
  - simpl. pose proof (vlen_vset (free p) c (q :: stack)) as Hl. unfold vlen in Hl.
    rewrite (le_free _ _ _ _ L) in Hl. lia.
Qed.

Lemma ledger_pop p h out other c size q stack :
  ledger p h out other -> vget CLASSES c = Some size -> vget (free p) c = Some (q :: stack) ->
  ledger (set_free (vset (free p) c stack) p) h out ((q, size) :: other).
Proof.
  intros L Hc Hk. destruct (free_class_blocks _ _ _ _ Hc Hk) as (rest & Hf & Hv).
  eapply ledger_move; [exact L | | done | done | | apply (le_ret _ _ _ _ L) |
    apply (le_out _ _ _ _ L) |].
  - unfold blocks. simpl. rewrite Hf, Hv. simpl. rewrite <- !app_assoc. by rewrite <- !Permutation_middle.
  - simpl. pose proof (vlen_vset (free p) c stack) as Hl. unfold vlen in Hl.
    rewrite (le_free _ _ _ _ L) in Hl. lia.
  - apply Forall_cons. split; [simpl; pose proof (class_size_pos _ _ Hc); lia | apply (le_other _ _ _ _ L)].
Qed.

(** ** Making room *)

Lemma fits_iff size p : pcap p < usize_max -> fits size p = true <-> charged p + size <= pcap p.
Proof. intros. unfold fits, saturating. rewrite Z.leb_le. lia. Qed.

Lemma free_class_ok size csize stack p h R :
  pcap p < usize_max -> 0 <= reserved p -> 0 < csize ->
  Forall (fun b => 0 < b.2) R ->
  heap_is h (stack_blocks csize stack ++ R) ->
  charged p = reserved p + bytes_of (stack_blocks csize stack ++ R) ->
  exists done stack' c' h', free_class size csize stack p h = Some (done, stack', set_charged c' p, h') /\
    heap_is h' (stack_blocks csize stack' ++ R) /\
    c' = reserved p + bytes_of (stack_blocks csize stack' ++ R) /\ c' <= charged p /\
    (stack = [] -> stack' = []) /\
    if done : bool then c' + size <= pcap p
    else stack' = [] /\ (pcap p < charged p + size -> pcap p < c' + size).
Proof.
  intros Hcap Hres Hcs HR. revert p h Hcap Hres.
  induction stack as [|q stack IH]; intros p h Hcap Hres Hh Hc; cbn [free_class].
  { exists false, [], (charged p), h. split_and!; try done. by destruct p. }
  assert (Hn : 0 <= bytes_of (stack_blocks csize stack ++ R)).
  { apply bytes_nonneg, Forall_app. split; [| done]. apply Forall_fmap. by apply Forall_forall. }
  simpl in Hh, Hc. destruct (heap_dealloc _ _ _ _ Hh) as [-> Hh']. cbn [mbind option_bind].
  rewrite pool_release_ok by lia. cbn [mbind option_bind].
  destruct (fits size (set_charged (charged p - csize) p)) eqn:Hf.
  - apply fits_iff in Hf; [| done]. simpl in Hf.
    exists true, stack, (charged p - csize), (delete q h). split_and!; try done; lia.
  - destruct (IH (set_charged (charged p - csize) p) (delete q h)) as
      (dn & stack' & c' & h' & -> & Hh2 & Hc2 & Hle & Hnil & Hd); [done .. | simpl; lia |].
    simpl in *. exists dn, stack', c', h'. split_and!; try done; [lia |].
    destruct dn; [done |]. destruct Hd as [-> Hd]. split; [done |]. intros _. apply Hd.
    apply Z.nle_gt. intros Hle'. apply (fits_iff size (set_charged (charged p - csize) p)) in Hle'; [congruence | done].
Qed.

(** Only the free lists and the charge changed. *)
Definition same_rest (p p' : Pool) : Prop :=
  returned p' = returned p /\ waiting p' = waiting p /\ waiters p' = waiters p /\ same_limits p p'.

(** What is empty stays empty. *)
Definition only_frees (p p' : Pool) : Prop :=
  forall c, vget (free p) c = Some [] -> vget (free p') c = Some [].

Lemma no_idle_iff p :
  length (free p) = 4%nat -> no_idle p <-> forall c, In c [3; 2; 1; 0] -> vget (free p) c = Some [].
Proof.
  unfold no_idle. intros Hl. destruct (free p) as [|a [|b [|c [|d [|? ?]]]]]; try done.
  rewrite !Forall_cons. split.
  - intros (<- & <- & <- & <- & _) i. simpl. intros [<- | [<- | [<- | [<- | []]]]]; done.
  - intros H. pose proof (H 3 ltac:(simpl; tauto)) as H3. pose proof (H 2 ltac:(simpl; tauto)) as H2.
    pose proof (H 1 ltac:(simpl; tauto)) as H1. pose proof (H 0 ltac:(simpl; tauto)) as H0.
    vm_compute in H0, H1, H2, H3. split_and!; try done; congruence.
Qed.

Lemma only_frees_idle p p' :
  length (free p) = 4%nat -> length (free p') = 4%nat -> only_frees p p' -> no_idle p -> no_idle p'.
Proof. intros Hl Hl' Ho. rewrite !no_idle_iff by done. intros H c Hc. by apply Ho, H. Qed.

Lemma class_step_ok size c csize stack p h out other :
  ledger p h out other -> vget CLASSES c = Some csize -> vget (free p) c = Some stack ->
  exists done stack' c' h', free_class size csize stack p h = Some (done, stack', set_charged c' p, h') /\
    let p' := set_free (vset (free p) c stack') (set_charged c' p) in
    ledger p' h' out other /\ c' <= charged p /\ only_frees p p' /\
    vget (free p') c = Some stack' /\
    if done : bool then c' + size <= pcap p
    else stack' = [] /\ (pcap p < charged p + size -> pcap p < c' + size).
Proof.
  intros L Hc Hk. destruct (free_class_blocks _ _ _ _ Hc Hk) as (rest & Hf & Hv).
  pose proof (class_size_pos _ _ Hc) as Hcs. pose proof L as [Hl Hh Hr Ho Hch [Hres Hcap] Htop Hoth Hmax].
  assert (Hp : blocks p out ++ other ≡ₚ stack_blocks csize stack ++
    (rest ++ ret_blocks (returned p) ++ out_blocks out ++ other)).
  { unfold blocks. rewrite Hf. by rewrite <- !app_assoc. }
  pose proof (blocks_pos _ _ _ _ L) as Hpos. rewrite Hp in Hpos. apply Forall_app in Hpos as [_ Hpos].
  destruct (free_class_ok size csize stack p h _ ltac:(lia) Hres ltac:(lia) Hpos) as
    (dn & stack' & c' & h' & Hfc & Hh' & Hc' & Hle & Hnil & Hd).
  { by eapply heap_perm. }
  { by rewrite <- (bytes_perm _ _ Hp). }
  exists dn, stack', c', h'. split; [done |]. simpl.
  set (p' := set_free _ _).
  assert (Hp' : blocks p' out ++ other ≡ₚ stack_blocks csize stack' ++
    (rest ++ ret_blocks (returned p) ++ out_blocks out ++ other)).
  { unfold blocks. simpl. rewrite Hv. by rewrite <- !app_assoc. }
  pose proof (vlen_vset (free p) c stack') as Hvl. unfold vlen in Hvl. rewrite Hl in Hvl.
  split; [constructor; try done; simpl; try lia |].
  - by eapply heap_perm.
  - by rewrite (bytes_perm _ _ Hp').
  - split; [done |]. pose proof (vget_bound _ _ _ Hk) as Hb. split; [| split; [| done]].
    + intros d Hd0. simpl. rewrite vget_vset by done. destruct (Z.eqb_spec d c) as [-> | Hne]; [| done].
      rewrite Hk in Hd0. injection Hd0 as ->. by rewrite Hnil.
    + rewrite vget_vset by done. by rewrite Z.eqb_refl.
Qed.

Lemma free_classes_ok size classes p h out other :
  ledger p h out other -> Forall (fun c => is_Some (vget CLASSES c)) classes ->
  exists done p' h', free_classes size classes p h = Some (done, p', h') /\
    ledger p' h' out other /\ same_rest p p' /\ charged p' <= charged p /\ only_frees p p' /\
    if done : bool then charged p' + size <= pcap p
    else (forall c, In c classes -> vget (free p') c = Some []) /\
      (pcap p < charged p + size -> pcap p < charged p' + size).
Proof.
  revert p h. induction classes as [|c classes IH]; intros p h L Hcs; cbn [free_classes].
  { exists false, p, h. split; [done |]. split; [done |]. split; [by split_and! |]. split; [lia |]. by split; [intros ? ? |]. }
  apply Forall_cons in Hcs as [[csize Hc] Hcs].
  destruct (class_stack p c csize (le_free _ _ _ _ L) Hc) as (stack & Hk).
  rewrite Hk, Hc. cbn [mbind option_bind].
  destruct (class_step_ok size c csize stack p h out other L Hc Hk) as
    (dn & stack' & c' & h' & -> & L' & Hle & Hof & Hk' & Hd). cbn [mbind option_bind]. simpl in *.
  destruct dn.
  { eexists true, _, h'. split; [reflexivity |]. split_and!; try done. }
  destruct (IH _ h' L' Hcs) as (dn & p2 & h2 & -> & L2 & (S1 & S2 & S3 & S4) & Hle2 & Hof2 & Hd2).
  exists dn, p2, h2. split; [done |]. split; [done |]. split; [by split_and! |].
  split; [simpl in Hle2; lia |]. split; [intros d Hd0; by apply Hof2, Hof |].
  destruct dn; [done |]. destruct Hd as [-> Hd], Hd2 as [Hd2 Hd3].
  split; [| intros Hb; by apply Hd3, Hd]. intros d [<- | Hin]; [by apply Hof2 | by apply Hd2].
Qed.

Lemma make_room_ok size p h out other :
  ledger p h out other ->
  exists ok p' h', make_room size p h = Some (ok, p', h') /\ ledger p' h' out other /\
    same_rest p p' /\ charged p' <= charged p /\ only_frees p p' /\
    if ok : bool then charged p' + size <= pcap p else no_idle p' /\ pcap p < charged p' + size.
Proof.
  intros L. pose proof (le_reserved _ _ _ _ L) as [_ Hcap]. unfold make_room.
  destruct (fits size p) eqn:Hf.
  { apply fits_iff in Hf; [| lia]. exists true, p, h. split; [done |]. split; [done |].
    split; [by split_and! |]. split; [lia |]. by split; [intros ? ? |]. }
  assert (Hnf : pcap p < charged p + size).
  { apply Z.nle_gt. intros Hle. apply (fits_iff size p) in Hle; [congruence | lia]. }
  destruct (free_classes_ok size [3; 2; 1; 0] p h out other L) as
    (dn & p1 & h1 & -> & L1 & Hs & Hle & Hof & Hd).
  { repeat constructor; by eexists. }
  cbn [mbind option_bind]. destruct dn.
  { exists true, p1, h1. by split_and!. }
  destruct Hd as [Hn Hnf']. eexists false, _, h1. split; [reflexivity |].
  split; [destruct L1; by constructor |]. split; [exact Hs |]. split; [done |]. split; [done |].
  split; [| by apply Hnf']. apply (no_idle_iff (set_exhausted _ p1)); [apply (le_free _ _ _ _ L1) |].
  intros c Hc. by apply Hn.
Qed.

(** A charge makes the room and takes it; the bytes are then the caller's. *)
Lemma charge_ok size p h out other :
  ledger p h out other -> 0 <= size ->
  exists ok p' h', charge size p h = Some (ok, p', h') /\
    same_rest p p' /\ only_frees p p' /\ length (free p') = 4%nat /\
    if ok : bool then
      ledger (set_charged (charged p' - size) p') h' out other /\ charged p' <= pcap p
    else ledger p' h' out other /\ no_idle p' /\ charged p' <= charged p /\ pcap p < charged p' + size.
Proof.
  intros L Hn. pose proof (le_reserved _ _ _ _ L) as [_ Hcap]. unfold charge.
  destruct (make_room_ok size p h out other L) as (ok & p1 & h1 & -> & L1 & Hs & Hle & Hof & Hd).
  pose proof (le_free _ _ _ _ L1). cbn [mbind option_bind]. destruct ok.
  - rewrite add64_Some by (unfold usize_max, u64_max in *; lia). cbn [mbind option_bind].
    eexists true, _, h1. split; [reflexivity |]. split; [done |]. split; [done |]. split; [done |].
    split; [| done]. simpl. replace (charged p1 + size - size) with (charged p1) by lia.
    by destruct p1.
  - exists false, p1, h1. destruct Hd. by split_and!.
Qed.

(** ** Taking back what other threads returned *)

Definition found_block (class : Z) (found : option Z) : list block :=
  match found, vget CLASSES class with
  | Some q, Some size => [(q, size)]
  | _, _ => []
  end.

Lemma ledger_push_same p h out other q c size :
  ledger p h out ((q, size) :: other) -> vget CLASSES c = Some size ->
  exists p', push_free c q p = Some p' /\ ledger p' h out other /\ same_rest p p' /\
    charged p' = charged p.
Proof.
  intros L Hc. destruct (ledger_push _ _ _ _ _ _ _ L Hc) as (stack & _ & Hp & L').
  eexists. split; [exact Hp |]. split; [done |]. by split; [split_and! |].
Qed.

Lemma ledger_other p h out other other' :
  ledger p h out other -> other ≡ₚ other' -> ledger p h out other'.
Proof.
  intros L Hp. eapply ledger_move; [exact L | by rewrite Hp | done | done |
    apply (le_free _ _ _ _ L) | apply (le_ret _ _ _ _ L) | apply (le_out _ _ _ _ L) |].
  rewrite <- Hp. apply (le_other _ _ _ _ L).
Qed.

Lemma same_rest_trans p1 p2 p3 : same_rest p1 p2 -> same_rest p2 p3 -> same_rest p1 p3.
Proof.
  intros (? & ? & ? & ? & ? & ?) (? & ? & ? & ? & ? & ?). split_and!; try congruence.
  split_and!; congruence.
Qed.

Lemma take_each_ok class rs found p h out other :
  Forall (fun r => sized (rclass r) (rcap r)) rs ->
  (found = None \/ is_Some (vget CLASSES class)) ->
  ledger p h out (ret_blocks rs ++ found_block class found ++ other) ->
  exists found' p' h', take_each class rs found p h = Some (found', p', h') /\
    ledger p' h' out (found_block class found' ++ other) /\ same_rest p p' /\
    charged p' <= charged p /\ (found' = None \/ is_Some (vget CLASSES class)).
Proof.
  revert found p h. induction rs as [|r rs IH]; intros found p h Hrs Hfd L; cbn [take_each].
  { exists found, p, h. split; [done |]. split; [done |]. split; [by split_and! |]. by split; [lia |]. }
  apply Forall_cons in Hrs as [Hr Hrs]. simpl in L.
  destruct (Z.eqb_spec (rclass r) WHOLE) as [Hw | Hw].
  { destruct (ledger_free_whole _ _ _ _ _ _ L) as [-> L1]. cbn [mbind option_bind].
    pose proof (sized_pos _ _ Hr) as Hpos.
    destruct (IH found _ _ Hrs Hfd L1) as (f' & p' & h' & -> & L' & Hs & Hle & Hf'). simpl in Hle.
    exists f', p', h'. split; [done |]. split; [done |]. split; [exact Hs |]. split; [lia | done]. }
  destruct Hr as [[? _] | Hr]; [done |].
  destruct (bool_decide (found = None) && (rclass r =? class)) eqn:Hfound.
  - apply andb_true_iff in Hfound as [->%bool_decide_eq_true Hcl%Z.eqb_eq].
    apply (IH (Some (raw r)) p h Hrs); [right; rewrite <- Hcl; by eexists |].
    unfold found_block in *. rewrite <- Hcl, Hr. eapply ledger_other; [exact L |].
    simpl. by rewrite <- Permutation_middle.
  - destruct (ledger_push_same _ _ _ _ _ _ _ L Hr) as (p1 & -> & L1 & Hs1 & Hc1).
    cbn [mbind option_bind].
    destruct (IH found p1 h Hrs Hfd L1) as (f' & p' & h' & -> & L' & Hs & Hle & Hf').
    exists f', p', h'. split; [done |]. split; [done |]. split; [by eapply same_rest_trans |].
    split; [lia | done].
Qed.

Definition same_waiters (p p' : Pool) : Prop :=
  waiting p' = waiting p /\ waiters p' = waiters p /\ same_limits p p'.

Lemma take_returned_ok class p h out other :
  ledger p h out other ->
  exists found p' h', take_returned class p h = Some (found, p', h') /\
    ledger p' h' out (found_block class found ++ other) /\ same_waiters p p' /\
    returned p' = [] /\ charged p' <= charged p /\
    (found = None \/ is_Some (vget CLASSES class)) /\ (returned p = [] -> found = None /\ p' = p).
Proof.
  intros L. unfold take_returned, take_all.
  destruct (take_each_ok class (returned p) None (set_returned [] p) h out other) as
    (f & p' & h' & Ht & L' & (S1 & S2 & S3 & S4) & Hle & Hf); [apply (le_ret _ _ _ _ L) | by left | |].
  { simpl. eapply ledger_move; [exact L | | done | done | apply (le_free _ _ _ _ L) | done |
      apply (le_out _ _ _ _ L) |].
    - unfold blocks. simpl. rewrite <- !app_assoc. apply Permutation_app_head.
      rewrite !(assoc_L (++)). by rewrite (Permutation_app_comm (ret_blocks _)).
    - apply Forall_app. split; [| apply (le_other _ _ _ _ L)]. apply Forall_fmap.
      eapply Forall_impl; [apply (le_ret _ _ _ _ L) |]. intros r Hr%sized_pos. simpl. lia. }
  exists f, p', h'. split; [done |]. split; [done |]. split; [by split_and! |].
  split; [done |]. split; [done |]. split; [done |]. intros E. rewrite E in Ht. cbn [take_each] in Ht.
  injection Ht as <- <- _. split; [done |]. by destruct p; simpl in *; subst.
Qed.

(** ** Buffers out *)

Section alloc.
Context (alloc_zeroed : Heap -> Z -> option Z).
Context (alloc_fresh : forall h n q, alloc_zeroed h n = Some q -> h !! q = None).

Lemma allocate_size_ok size p h out other :
  ledger p h out other -> 0 < size ->
  exists q p' h', allocate_size alloc_zeroed size p h = Some (q, p', h') /\
    same_rest p p' /\ only_frees p p' /\ charged p' <= Z.max (pcap p) (charged p) /\
    match q with
    | Some q => ledger p' h' out ((q, size) :: other)
    | None => ledger p' h' out other /\
        ((no_idle p' /\ pcap p < charged p' + size) \/ exists h0, alloc_zeroed h0 size = None)
    end.
Proof.
  intros L Hs. pose proof (le_reserved _ _ _ _ L) as [_ Hcap]. unfold allocate_size.
  destruct (charge_ok size p h out other L ltac:(lia)) as (ok & p1 & h1 & -> & Hr & Hof & Hl & Hok).
  cbn [mbind option_bind]. destruct ok.
  - destruct Hok as [L1 Hle]. destruct (alloc_zeroed h1 size) as [q|] eqn:Ha.
    + eexists (Some q), p1, _. split; [reflexivity |]. split; [done |]. split; [done |].
      split; [lia |]. destruct L1 as [? Hh ? ? Hc [? ?] ? ? ?]. simpl in *.
      assert (Hp : blocks p1 out ++ (q, size) :: other ≡ₚ (q, size) :: blocks p1 out ++ other)
        by (by rewrite Permutation_middle).
      change (blocks (set_charged _ p1) out) with (blocks p1 out) in *.
      constructor; simpl; try done.
      * eapply heap_perm; [| by symmetry]. apply heap_alloc; [done | by eapply alloc_fresh].
      * rewrite (bytes_perm _ _ Hp). simpl. lia.
      * by apply Forall_cons.
      * unfold usize_max in *. lia.
    + pose proof (bytes_nonneg _ (blocks_pos _ _ _ _ L1)) as Hn.
      pose proof (le_charged _ _ _ _ L1) as Hc. pose proof (le_reserved _ _ _ _ L1) as [Hr0 _]. simpl in *.
      rewrite pool_release_ok by lia. cbn [mbind option_bind].
      eexists None, _, h1. split; [reflexivity |]. split; [exact Hr |]. split; [exact Hof |].
      split; [simpl; lia |]. split; [done |]. right. by exists h1.
  - destruct Hok as (L1 & Hn & Hle & Hgt). exists None, p1, h1. split; [done |]. split; [done |].
    split; [done |]. split; [lia |]. split; [done |]. by left.
Qed.
End alloc.
