(* ===== verification/BufPoolSpec.v ===== *)
(** * What the buffer pool promises

    The pool's calls keep the ledger of [BufPoolInv], whatever their order: the
    memory is never freed twice nor lost, the charge stays under the cap unless
    that is lowered, and nobody waits for a buffer that is not coming. *)

From stdpp Require Import gmap.
From S2P Require Import Prelude Coop PoolBuf BufPool.
From S2P Require Import BufPoolInv.
Open Scope Z_scope.

(** ** The calls *)

Lemma ledger_got p h out other q class size :
  ledger p h out ((q, size) :: other) -> sized class size ->
  ledger p h (pool_buf q class size :: out) other.
Proof.
  intros L Hs. pose proof (sized_pos _ _ Hs). unfold pool_buf. rewrite as_u32_id by lia.
  pose proof (le_other _ _ _ _ L) as Ho. apply Forall_cons in Ho as [_ Ho].
  eapply ledger_move; [exact L | | done | done | apply (le_free _ _ _ _ L) |
    apply (le_ret _ _ _ _ L) | | done].
  - unfold blocks. simpl. rewrite <- !app_assoc. simpl. by rewrite <- !Permutation_middle.
  - apply Forall_cons. split; [done | apply (le_out _ _ _ _ L)].
Qed.

(** Nothing idle stays so. *)
Definition stays_dry (p p' : Pool) : Prop :=
  no_idle p -> returned p = [] -> no_idle p' /\ returned p' = [].

Lemma pop_free_ok class size p h out :
  ledger p h out [] -> vget CLASSES class = Some size ->
  exists q p1, pop_free class p = Some (q, p1) /\ same_waiters p p1 /\ returned p1 = returned p /\
    charged p1 = charged p /\ ledger p1 h out (found_block class q) /\
    (q = None -> p1 = p /\ vget (free p) class = Some []) /\ (no_idle p -> q = None).
Proof.
  intros L Hc. destruct (class_stack p class size (le_free _ _ _ _ L) Hc) as (stack & Hk).
  unfold pop_free, found_block. rewrite Hk, Hc. cbn [mbind option_bind]. destruct stack as [|q stack].
  - exists None, p. by split_and!.
  - eexists (Some q), _. split; [reflexivity |]. split; [by split_and! |]. split; [done |]. split; [done |].
    split; [by eapply ledger_pop |]. split; [done |]. intros Hn. exfalso.
    apply vget_Some in Hk as [_ Hk]. unfold no_idle in Hn. rewrite Forall_lookup in Hn.
    by specialize (Hn _ _ Hk).
Qed.

Section alloc.
Context (alloc_zeroed : Heap -> Z -> option Z).
Context (alloc_fresh : forall h n q, alloc_zeroed h n = Some q -> h !! q = None).

(** A buffer handed out, or the reason there is none: nothing idle is left and
    the bytes do not fit under the cap, or the allocator has none. *)
Definition got (size : Z) (p : Pool) (r : option PoolBuf) (p' : Pool) (h' : Heap)
    (out : list PoolBuf) : Prop :=
  same_waiters p p' /\ charged p' <= Z.max (pcap p) (charged p) /\ stays_dry p p' /\
  match r with
  | Some b => ledger p' h' (b :: out) [] /\ cap b = size /\ start b = 0 /\ end_ b = 0
  | None => ledger p' h' out [] /\
      ((no_idle p' /\ returned p' = [] /\ pcap p < charged p' + size) \/
       exists h0, alloc_zeroed h0 size = None)
  end.

Lemma same_waiters_trans p1 p2 p3 : same_waiters p1 p2 -> same_waiters p2 p3 -> same_waiters p1 p3.
Proof.
  intros (? & ? & ? & ? & ?) (? & ? & ? & ? & ?). split_and!; try congruence.
  split_and!; congruence.
Qed.

Lemma rest_waiters p p' : same_rest p p' -> same_waiters p p'.
Proof. intros (? & ? & ? & ?). by split_and!. Qed.

Lemma got_found class size q p p1 h1 out :
  vget CLASSES class = Some size -> ledger p1 h1 out (found_block class (Some q)) ->
  same_waiters p p1 -> charged p1 <= charged p -> stays_dry p p1 ->
  got size p (Some (pool_buf q class size)) p1 h1 out.
Proof.
  intros Hc L Hs Hle Hd. unfold found_block in L. rewrite Hc in L. pose proof (class_size_pos _ _ Hc) as Hp.
  split; [done |]. split; [lia |]. split; [done |]. split; [apply ledger_got; [done | by right] |].
  split; [| done]. simpl. unfold LARGEST in Hp. apply as_u32_id. lia.
Qed.

Lemma got_allocated size class p p1 h1 out :
  sized class size -> ledger p1 h1 out [] -> same_waiters p p1 -> returned p1 = [] ->
  charged p1 <= charged p -> stays_dry p p1 ->
  exists q p' h', allocate_size alloc_zeroed size p1 h1 = Some (q, p', h') /\
    got size p (option_map (fun q => pool_buf q class size) q) p' h' out.
Proof.
  intros Hsz L Hs Hr Hle Hd. pose proof (sized_pos _ _ Hsz) as Hp.
  destruct (allocate_size_ok alloc_zeroed alloc_fresh size p1 h1 out [] L ltac:(lia)) as
    (q & p2 & h2 & Ha & Hs2 & Hof & Hle2 & Hq).
  exists q, p2, h2. split; [done |]. destruct Hs as (? & ? & Ecap & ? & ?). split.
  { eapply same_waiters_trans; [| by apply rest_waiters]. by split_and!. }
  split; [lia |]. assert (returned p2 = []) as Hr2 by (destruct Hs2 as (-> & _); done). split.
  { intros Hn Hr0. split; [| done]. destruct (Hd Hn Hr0) as [Hn1 _].
    eapply only_frees_idle; [| | exact Hof | exact Hn1].
    - apply (le_free _ _ _ _ L).
    - destruct q as [q|]; [apply (le_free _ _ _ _ Hq) | apply (le_free _ _ _ _ (proj1 Hq))]. }
  destruct q as [q|]; simpl.
  - split; [by apply ledger_got |]. split; [| done]. apply as_u32_id. lia.
  - destruct Hq as [L2 [[Hn Hgt] | Hno]]; (split; [done |]); [left | by right].
    rewrite Ecap in Hgt. by split_and!.
Qed.

Lemma get_class_ok class size p h out :
  ledger p h out [] -> vget CLASSES class = Some size ->
  exists r p' h', get_class alloc_zeroed class p h = Some (r, p', h') /\ got size p r p' h' out.
Proof.
  intros L Hc. unfold get_class.
  destruct (pop_free_ok class size p h out L Hc) as (q & p1 & -> & Hs1 & Hr1 & Hc1 & L1 & Hq1 & Hn1).
  cbn [mbind option_bind]. destruct q as [q|].
  { cbn [mbind option_bind]. rewrite Hc. cbn [mbind option_bind option_map].
    eexists _, p1, h. split; [reflexivity |]. apply got_found; try done; [lia |].
    intros Hn _. by specialize (Hn1 Hn). }
  destruct (Hq1 eq_refl) as [-> Hk]. clear L1.
  destruct (take_returned_ok class p h out [] L) as (f & p2 & h2 & -> & L2 & Hs2 & Hr2 & Hc2 & Hf & Hd2).
  cbn [mbind option_bind].
  assert (Hdry : stays_dry p p2). { intros Hn Hr. by destruct (Hd2 Hr) as [_ ->]. }
  destruct f as [q|].
  { cbn [mbind option_bind]. rewrite Hc. cbn [mbind option_bind option_map].
    eexists _, p2, h2. split; [reflexivity |]. rewrite app_nil_r in L2. by apply got_found. }
  unfold allocate. rewrite Hc. cbn [mbind option_bind].
  destruct (got_allocated size class p p2 h2 out) as (q & p3 & h3 & -> & Hg); try done; [by right |].
  cbn [mbind option_bind]. rewrite ?Hc. cbn [mbind option_bind]. by eexists _, p3, h3.
Qed.

Lemma class_for_valid len : exists size, vget CLASSES (class_for len) = Some size.
Proof.
  unfold class_for, CLASSES. simpl. repeat (destruct (_ <=? _); [by eexists |]). by eexists.
Qed.

Lemma top_for_valid rm : 512 <= rm -> exists c size, top_for rm = Some c /\ vget CLASSES c = Some size.
Proof.
  intros Hr. unfold top_for, CLASSES. simpl.
  destruct (Z.leb_spec 65536 rm); [by eexists _, _ |]. destruct (Z.leb_spec 16384 rm); [by eexists _, _ |].
  destruct (Z.leb_spec 4096 rm); [by eexists _, _ |]. destruct (Z.leb_spec 512 rm); [by eexists _, _ | lia].
Qed.

(** The class [get] takes: the smallest that holds the request, or the largest
    that fits beside the reservation. *)
Lemma get_valid len rm :
  512 <= rm -> exists c size, top_for rm = Some c /\ vget CLASSES (Z.min (class_for len) c) = Some size /\
    size <= rm /\ (len <= size \/ size = LARGEST \/ exists next, In next CLASSES /\ size < next /\ rm < next).
Proof.
  intros Hr. unfold top_for, class_for, CLASSES. simpl.
  destruct (Z.leb_spec 65536 rm), (Z.leb_spec 16384 rm), (Z.leb_spec 4096 rm), (Z.leb_spec 512 rm); try lia;
    destruct (Z.leb_spec len 512), (Z.leb_spec len 4096), (Z.leb_spec len 16384), (Z.leb_spec len 65536); try lia;
    (eexists _, _; split; [reflexivity |]; split; [reflexivity |]; split; [lia |]);
    unfold LARGEST; first [left; lia | right; left; lia | right; right; eexists 4096; simpl; lia |
      right; right; exists 16384; simpl; lia | right; right; exists 65536; simpl; lia].
Qed.

Lemma next_multiple k n m :
  0 < k -> checked_next_multiple_of k n = Some m -> n <= m < n + k /\ m <= usize_max.
Proof.
  intros Hk. unfold checked_next_multiple_of. destruct (Z.leb_spec ((n + (k - 1)) / k * k) usize_max); [| done].
  intros [= <-]. pose proof (Z.div_mod (n + (k - 1)) k ltac:(lia)).
  pose proof (Z.mod_pos_bound (n + (k - 1)) k Hk). nia.
Qed.

(** ** Programs of calls *)

Inductive pop : Type :=
| PGet (len : Z)
| PGetWhole (len : Z)
| PDrop (own : bool) (i : nat)
| PWait (w : Waker)
| PReserve (bytes : Z)
| PUnreserve (bytes : Z)
| PHoldTo (cap : Z).

(** The arguments are [usize]s. *)
Definition usize_arg (o : pop) : bool :=
  match o with
  | PGet n | PGetWhole n | PReserve n | PUnreserve n | PHoldTo n => (0 <=? n) && (n <=? usize_max)
  | PDrop _ _ | PWait _ => true
  end.

(** A cap is below the largest of them. *)
Definition cap_below (o : pop) : bool := match o with PHoldTo n => n <? usize_max | _ => true end.

Definition pop_ok (o : pop) : bool := usize_arg o && cap_below o.

Definition PWorld : Type := Pool * Heap * Thread * list PoolBuf.

Definition handed (r : option PoolBuf) (out : list PoolBuf) : list PoolBuf :=
  match r with Some b => b :: out | None => out end.

Definition run_pop (o : pop) (x : PWorld) : option PWorld :=
  let '(p, h, t, out) := x in
  match o with
  | PGet len => '(r, p, h) ← get alloc_zeroed len p h; Some (p, h, t, handed r out)
  | PGetWhole len => '(r, p, h) ← get_whole alloc_zeroed len p h; Some (p, h, t, handed r out)
  | PDrop own i =>
      match out !! i with
      | Some b => '(p, h, t) ← drop_buf own b p h t; Some (p, h, t, delete i out)
      | None => Some x
      end
  | PWait w => let '(p, t) := wait_for_return w p t in Some (p, h, t, out)
  | PReserve n => '(_, p, h) ← reserve n p h; Some (p, h, t, out)
  | PUnreserve n => p ← unreserve n p; Some (p, h, t, out)
  | PHoldTo n => '(p, h) ← hold_to n p h; Some (p, h, t, out)
  end.

Fixpoint run_pops (os : list pop) (x : PWorld) : option PWorld :=
  match os with
  | [] => Some x
  | o :: os => x ← run_pop o x; run_pops os x
  end.

Definition pool_inv (x : PWorld) : Prop :=
  let '(p, h, t, out) := x in ledger p h out [] /\ wait_ok p out.

(** What one call does to the charge and the cap. *)
Definition pool_step (o : pop) (x x' : PWorld) : Prop :=
  pool_inv x' /\ charged x'.1.1.1 <= Z.max (pcap x'.1.1.1) (charged x.1.1.1) /\
  (match o with PHoldTo _ => True | _ => pcap x'.1.1.1 = pcap x.1.1.1 end).

Lemma got_step o size p h t out r p' h' :
  pool_inv (p, h, t, out) -> got size p r p' h' out ->
  match o with PHoldTo _ => False | _ => True end ->
  pool_step o (p, h, t, out) (p', h', t, handed r out).
Proof.
  intros [L [Hw Hn]] ((E1 & E2 & E3 & E4 & E5) & Hle & Hd & Hr) Ho.
  assert (Hcap : match o with PHoldTo _ => True | _ => pcap p' = pcap p end) by (by destruct o).
  split; [split |]; simpl.
  - destruct r; [apply Hr | apply Hr].
  - constructor; rewrite ?E1, ?E2; [done |]. intros Hne. destruct (Hn Hne) as (Hi & Hre & Hout).
    destruct (Hd Hi Hre). split; [done |]. split; [done |]. by destruct r.
  - split; [by rewrite E3 | done].
Qed.

Lemma refused_step o p h t t' out :
  pool_inv (p, h, t, out) -> pool_step o (p, h, t, out) (p, h, t', out).
Proof. intros H. split; [done |]. simpl. split; [lia | by destruct o]. Qed.

Lemma get_step o len p h t out :
  pool_inv (p, h, t, out) -> match o with PHoldTo _ => False | _ => True end ->
  exists r p' h', get alloc_zeroed len p h = Some (r, p', h') /\
    pool_step o (p, h, t, out) (p', h', t, handed r out).
Proof.
  intros Hx Ho. pose proof Hx as [L _]. pose proof (le_reserved _ _ _ _ L) as [? ?].
  destruct (get_valid len (pcap p - reserved p)) as (c & size & Ht & Hc & _ & _); [lia |].
  unfold get. rewrite (le_top _ _ _ _ L), Ht.
  destruct (get_class_ok _ size p h out L Hc) as (r & p' & h' & -> & Hg).
  exists r, p', h'. split; [done |]. by eapply got_step.
Qed.

Lemma get_whole_step o len p h t out :
  pool_inv (p, h, t, out) -> match o with PHoldTo _ => False | _ => True end ->
  exists r p' h', get_whole alloc_zeroed len p h = Some (r, p', h') /\
    pool_step o (p, h, t, out) (p', h', t, handed r out).
Proof.
  intros Hx Ho. pose proof Hx as [L _]. unfold get_whole. destruct (Z.leb_spec len LARGEST) as [Hle | Hgt].
  { destruct (class_for_valid len) as (size & Hc).
    destruct (get_class_ok _ size p h out L Hc) as (r & p' & h' & -> & Hg).
    exists r, p', h'. split; [done |]. by eapply got_step. }
  destruct (checked_next_multiple_of 4096 len) as [size|] eqn:Hm.
  2: { eexists None, _, _. split; [reflexivity |]. by apply refused_step. }
  destruct (Z.ltb_spec size (2 ^ 32)) as [Hsz | Hsz].
  2: { eexists None, _, _. split; [reflexivity |]. by apply refused_step. }
  apply next_multiple in Hm; [| lia]. unfold LARGEST in Hgt.
  destruct (take_returned_ok usize_max p h out [] L) as (f & p1 & h1 & -> & L1 & Hs1 & Hr1 & Hc1 & Hf & Hd1).
  cbn [mbind option_bind]. destruct Hf as [-> | [? Hf]]; [| done]. simpl in L1.
  destruct (got_allocated size WHOLE p p1 h1 out) as (q & p2 & h2 & -> & Hg); try done.
  { left. split; [done | lia]. }
  { intros Hn Hr. by destruct (Hd1 Hr) as [_ ->]. }
  cbn [mbind option_bind]. eexists _, p2, h2. split; [reflexivity |]. by eapply got_step.
Qed.

(** Waking everybody who waits leaves nobody waiting. *)
Lemma woken_ok p h t out :
  ledger p h out [] -> waiting p = bool_decide (waiters p <> []) ->
  exists p' t', (if waiting p then wake_waiters p t else (p, t)) = (p', t') /\
    ledger p' h out [] /\ wait_ok p' out /\ charged p' = charged p /\ pcap p' = pcap p.
Proof.
  intros L Hf. unfold wake_waiters. destruct (waiting p) eqn:Hw.
  - eexists _, _. split; [reflexivity |]. split; [destruct L; by constructor |]. by split; [constructor |].
  - exists p, t. split; [done |]. split; [done |]. split; [| done]. symmetry in Hf.
    apply bool_decide_eq_false in Hf. constructor; [| done]. rewrite Hw.
    symmetry. by apply bool_decide_eq_false.
Qed.

Lemma out_delete out i b :
  out !! i = Some b -> out_blocks out ≡ₚ (ptr b, cap b) :: out_blocks (delete i out).
Proof.
  intros Hi. change (out_blocks out ≡ₚ out_blocks (b :: delete i out)).
  apply Permutation_map. by apply delete_Permutation.
Qed.

Lemma drop_step own i b p h t out :
  pool_inv (p, h, t, out) -> out !! i = Some b ->
  exists p' h' t', drop_buf own b p h t = Some (p', h', t') /\
    pool_step (PDrop own i) (p, h, t, out) (p', h', t', delete i out).
Proof.
  intros [L [Hf _]] Hi.
  assert (Hb : sized (class b) (cap b)).
  { pose proof (le_out _ _ _ _ L) as Ho. rewrite Forall_lookup in Ho. by eapply Ho. }
  pose proof (sized_pos _ _ Hb) as Hpos.
  assert (Hdel : Forall (fun b => sized (class b) (cap b)) (delete i out)).
  { pose proof (le_out _ _ _ _ L) as Ho. rewrite (delete_Permutation _ _ _ Hi) in Ho.
    by apply Forall_cons in Ho as [_ ?]. }
  unfold drop_buf. destruct own.
  - assert (L1 : ledger p h (delete i out) [(ptr b, cap b)]).
    { eapply ledger_move; [exact L | | done | done | apply (le_free _ _ _ _ L) |
        apply (le_ret _ _ _ _ L) | done | apply Forall_singleton; simpl; lia].
      unfold blocks. rewrite (out_delete _ _ _ Hi). simpl. rewrite app_nil_r, <- !app_assoc.
      do 2 apply Permutation_app_head. by rewrite Permutation_cons_append. }
    unfold take_back. destruct Hb as [[Hw _] | Hc].
    + rewrite Hw. simpl. destruct (ledger_free_whole _ _ _ _ _ _ L1) as [-> L2].
      cbn [mbind option_bind].
      destruct (woken_ok _ _ t _ L2 Hf) as (p' & t' & -> & L' & Hw' & Ec & Ep).
      eexists p', _, t'. split; [reflexivity |]. split; [done |]. simpl in *. rewrite Ec, Ep. split; [lia | done].
    + rewrite (class_not_whole _ _ Hc).
      destruct (ledger_push_same _ _ _ _ _ _ _ L1 Hc) as (p1 & -> & L2 & (S1 & S2 & S3 & S4 & S5 & S6) & Hc1).
      cbn [mbind option_bind].
      destruct (woken_ok p1 _ t _ L2) as (p' & t' & -> & L' & Hw' & Ec & Ep); [by rewrite S2, S3 |].
      eexists p', _, t'. split; [reflexivity |]. split; [done |]. simpl in *. rewrite Ec, Ep, S4. split; [lia | done].
  - unfold give_back.
    destruct (woken_ok (set_returned ({| raw := ptr b; rclass := class b; rcap := cap b |} :: returned p) p)
      h t (delete i out)) as (p' & t' & -> & L' & Hw' & Ec & Ep); [| done |].
    { eapply ledger_move; [exact L | | done | done | apply (le_free _ _ _ _ L) | | done | done].
      - unfold blocks. rewrite (out_delete _ _ _ Hi). simpl. rewrite !app_nil_r.
        by rewrite <- !Permutation_middle.
      - simpl. apply Forall_cons. split; [done | apply (le_ret _ _ _ _ L)]. }
    eexists p', h, t'. split; [reflexivity |]. split; [done |]. simpl in *. rewrite Ec, Ep. split; [lia | done].
Qed.

Lemma idle_false p :
  existsb (fun f => negb (bool_decide (f = []))) (free p) = false -> no_idle p.
Proof.
  unfold no_idle. induction (free p) as [|f fs IH]; [done |]. simpl. intros [Hf Hfs]%orb_false_iff.
  apply negb_false_iff, bool_decide_eq_true in Hf. apply Forall_cons. split; [done | by apply IH].
Qed.

Lemma free_blocks_dry p : no_idle p -> free_blocks (free p) = [].
Proof.
  unfold no_idle, free_blocks. generalize CLASSES. intros sizes Hn. revert sizes.
  induction Hn as [|f fs <- Hn IH]; intros [|s sizes]; try done. simpl. apply IH.
Qed.

Lemma wait_step w p h t out :
  pool_inv (p, h, t, out) ->
  exists p' t', wait_for_return w p t = (p', t') /\
    pool_step (PWait w) (p, h, t, out) (p', h, t', out).
Proof.
  intros [L Hw]. unfold wait_for_return. destruct (Z.eqb_spec (charged p) (reserved p)) as [He | Hne].
  { eexists _, _. split; [reflexivity |]. by apply refused_step. }
  set (p1 := set_home (returned p) true (waiters p ++ [w]) p).
  assert (L1 : ledger p1 h out []) by (destruct L; by constructor).
  destruct (_ || _) eqn:Hidle.
  - destruct (woken_ok p1 h t out L1) as (p' & t' & E & L' & Hw' & Ec & Ep).
    { symmetry. apply bool_decide_eq_true. simpl. by destruct (waiters p). }
    simpl in E. exists p', t'. split; [done |]. split; [done |]. simpl in *. rewrite Ec, Ep. split; [lia | done].
  - apply orb_false_iff in Hidle as [Hi%idle_false Hr%negb_false_iff%bool_decide_eq_true]. simpl in *.
    eexists _, _. split; [reflexivity |]. split; [split; [done |] |]; simpl; [| split; [lia | done]].
    constructor; simpl.
    + symmetry. apply bool_decide_eq_true. by destruct (waiters p).
    + intros _. split; [done |]. split; [done |]. intros ->. apply Hne.
      rewrite (le_charged _ _ _ _ L). unfold blocks. rewrite (free_blocks_dry p Hi), Hr. simpl. lia.
Qed.

Lemma wait_ok_frees p p' h h' out :
  ledger p h out [] -> ledger p' h' out [] -> wait_ok p out -> only_frees p p' ->
  waiting p' = waiting p -> waiters p' = waiters p -> returned p' = returned p -> wait_ok p' out.
Proof.
  intros L L' [Hf Hn] Ho E1 E2 E3. constructor; rewrite ?E1, ?E2, ?E3; [done |].
  intros Hne. destruct (Hn Hne) as (Hi & ? & ?). split; [| done].
  eapply only_frees_idle; [apply (le_free _ _ _ _ L) | apply (le_free _ _ _ _ L') | done | done].
Qed.

Lemma reserve_step n p h t out :
  pool_inv (p, h, t, out) -> 0 <= n ->
  exists r p' h', reserve n p h = Some (r, p', h') /\
    pool_step (PReserve n) (p, h, t, out) (p', h', t, out).
Proof.
  intros [L Hw] Hn. pose proof (le_reserved _ _ _ _ L) as [Hr Hcap]. unfold reserve.
  destruct (Z.ltb_spec (pcap p) (saturating (saturating (reserved p + n) + 512))) as [Hlt | Hge].
  { eexists false, p, h. split; [done |]. by apply refused_step. }
  unfold saturating in Hge. assert (Hsum : reserved p + n + 512 <= pcap p) by lia.
  assert (Hsat : saturating (reserved p + n) = reserved p + n) by (unfold saturating; lia).
  destruct (charge_ok n p h out [] L Hn) as (ok & p1 & h1 & -> & (S1 & S2 & S3 & S4 & S5 & S6) & Hof & Hl & Hok).
  cbn [mbind option_bind]. destruct ok.
  - destruct Hok as [L1 Hle]. rewrite Hsat, sub64_Some by lia. cbn [mbind option_bind].
    eexists true, _, h1. split; [reflexivity |].
    assert (L2 : ledger (set_limits (pcap p1) (reserved p + n) (top_for (pcap p1 - (reserved p + n))) p1) h1 out []).
    { destruct L1 as [? ? ? ? Hc ? ? ? ?]. simpl in *. constructor; simpl; try done; try lia.
      change (blocks (set_charged _ p1) out) with (blocks p1 out) in Hc.
      change (blocks (set_limits _ _ _ p1) out) with (blocks p1 out). lia. }
    split; [split; [done |] |].
    + eapply (wait_ok_frees p _ h h1 out); done.
    + simpl. rewrite S4. split; [lia | done].
  - destruct Hok as (L1 & _ & Hle & _). eexists false, p1, h1. split; [done |]. split; [split; [done |] |].
    + eapply (wait_ok_frees p p1 h h1 out); done.
    + simpl. split; [lia | done].
Qed.

Lemma unreserve_step n p h t out :
  pool_inv (p, h, t, out) -> 0 <= n ->
  exists p', unreserve n p = Some p' /\ pool_step (PUnreserve n) (p, h, t, out) (p', h, t, out).
Proof.
  intros [L Hw] Hn. pose proof (le_reserved _ _ _ _ L) as [Hr Hcap].
  pose proof (bytes_nonneg _ (blocks_pos _ _ _ _ L)). pose proof (le_charged _ _ _ _ L) as Hc.
  unfold unreserve. rewrite pool_release_ok by lia. cbn [mbind option_bind].
  set (k := Z.min n (reserved p)). cbn [reserved pcap set_charged].
  rewrite sub64_Some by lia. cbn [mbind option_bind]. rewrite sub64_Some by lia. cbn [mbind option_bind].
  eexists. split; [reflexivity |]. split; [split |]; simpl; [| by destruct Hw; constructor | split; [lia | done]].
  destruct L. constructor; simpl; try done; try lia.
  change (blocks (set_limits _ _ _ _) out) with (blocks p out). lia.
Qed.

Lemma hold_to_step n p h t out :
  pool_inv (p, h, t, out) -> 0 <= n < usize_max ->
  exists p' h', hold_to n p h = Some (p', h') /\ pool_step (PHoldTo n) (p, h, t, out) (p', h', t, out).
Proof.
  intros [L Hw] Hn. pose proof (le_reserved _ _ _ _ L) as [Hr Hcap]. unfold hold_to.
  rewrite add64_Some by (unfold usize_max, u64_max in *; lia). cbn [mbind option_bind].
  set (cap := Z.max (Z.max n 512) (reserved p + 512)). rewrite sub64_Some by lia. cbn [mbind option_bind].
  set (p1 := set_limits _ _ _ p). assert (L1 : ledger p1 h out []).
  { destruct L. constructor; simpl; try done. lia. }
  destruct (make_room_ok 0 p1 h out [] L1) as (ok & p2 & h2 & -> & L2 & (S1 & S2 & S3 & S4) & Hle & Hof & Hok).
  cbn [mbind option_bind]. eexists _, h2. split; [reflexivity |]. split; [split; [done |] |].
  - eapply (wait_ok_frees p p2 h h2 out); done.
  - simpl in *. split; [lia | done].
Qed.

Lemma run_pop_ok o x :
  pool_inv x -> pop_ok o = true -> exists x', run_pop o x = Some x' /\ pool_step o x x'.
Proof.
  destruct x as [[[p h] t] out]. intros Hx Ho. destruct o; cbn [run_pop]; unfold pop_ok, usize_arg, cap_below in Ho;
    rewrite ?andb_true_iff, ?Z.leb_le, ?Z.ltb_lt in Ho.
  - destruct (get_step (PGet len) len p h t out Hx I) as (r & p' & h' & -> & Hs). by eexists.
  - destruct (get_whole_step (PGetWhole len) len p h t out Hx I) as (r & p' & h' & -> & Hs). by eexists.
  - destruct (out !! i) as [b|] eqn:Hi; [| eexists; split; [done | by apply refused_step]].
    destruct (drop_step own i b p h t out Hx Hi) as (p' & h' & t' & -> & Hs). by eexists.
  - destruct (wait_step w p h t out Hx) as (p' & t' & -> & Hs). by eexists.
  - destruct (reserve_step bytes p h t out Hx ltac:(lia)) as (r & p' & h' & -> & Hs). by eexists.
  - destruct (unreserve_step bytes p h t out Hx ltac:(lia)) as (p' & -> & Hs). by eexists.
  - destruct (hold_to_step cap p h t out Hx ltac:(lia)) as (p' & h' & -> & Hs). by eexists.
Qed.

Definition is_hold (o : pop) : bool := match o with PHoldTo _ => true | _ => false end.

(** A call of the program lowers the cap. *)
Fixpoint lowered (os : list pop) (x : PWorld) : bool :=
  match os with
  | [] => false
  | o :: os => match run_pop o x with Some x' => (pcap x'.1.1.1 <? pcap x.1.1.1) || lowered os x' | None => false end
  end.

Lemma run_pops_ok os x :
  pool_inv x -> forallb pop_ok os = true ->
  exists x', run_pops os x = Some x' /\ pool_inv x' /\
    (lowered os x = false -> charged x.1.1.1 <= pcap x.1.1.1 -> charged x'.1.1.1 <= pcap x'.1.1.1) /\
    (existsb is_hold os = false -> lowered os x = false /\ pcap x'.1.1.1 = pcap x.1.1.1).
Proof.
  revert x. induction os as [|o os IH]; intros x Hx Hos; [by eexists |].
  simpl in Hos. apply andb_true_iff in Hos as [Ho Hos]. cbn [run_pops lowered].
  destruct (run_pop_ok o x Hx Ho) as (x1 & -> & Hx1 & Hle & Hcap). cbn [mbind option_bind].
  destruct (IH x1 Hx1 Hos) as (x' & -> & Hx' & Hb & Hh). exists x'. split; [done |]. split; [done |]. split.
  - intros [Hlow%Z.ltb_ge Hl]%orb_false_iff Hc. apply Hb; [done | lia].
  - cbn [existsb]. intros [Ho' Hos']%orb_false_iff. assert (E : pcap x1.1.1.1 = pcap x.1.1.1) by (by destruct o).
    destruct (Hh Hos') as [-> ->]. rewrite E, Z.ltb_irrefl. done.
Qed.

Lemma pool_new_inv cap : 0 <= cap < usize_max -> pool_inv (pool_new cap, ∅, thread_new, []).
Proof.
  intros Hc. unfold usize_max in Hc. split.
  - constructor; simpl; try done; try lia.
    + split; [constructor | done].
    + unfold usize_max. lia.
    + by rewrite Z.sub_0_r.
  - by constructor.
Qed.

(** ** The pool's end *)

Lemma dealloc_all_ok csize stack h R :
  heap_is h (stack_blocks csize stack ++ R) ->
  exists h', dealloc_all csize stack h = Some h' /\ heap_is h' R.
Proof.
  revert h. induction stack as [|q stack IH]; intros h Hh; [by eexists |]. simpl in *.
  destruct (heap_dealloc _ _ _ _ Hh) as [-> Hh']. cbn [mbind option_bind]. by apply IH.
Qed.

Lemma drop_free_ok stacks sizes h R :
  heap_is h (concat (zip_with stack_blocks sizes stacks) ++ R) ->
  exists h', drop_free stacks sizes h = Some h' /\ heap_is h' R.
Proof.
  revert sizes h. induction stacks as [|stack stacks IH]; intros [|size sizes] h Hh; try by eexists.
  simpl in *. rewrite <- app_assoc in Hh. destruct (dealloc_all_ok _ _ _ _ Hh) as (h' & -> & Hh').
  cbn [mbind option_bind]. by apply IH.
Qed.

Lemma drop_home_ok rs h :
  Forall (fun r => sized (rclass r) (rcap r)) rs -> heap_is h (ret_blocks rs) ->
  drop_home rs h = Some ∅.
Proof.
  revert h. induction rs as [|r rs IH]; intros h Hrs Hh; simpl.
  { by rewrite (heap_nil h Hh). }
  apply Forall_cons in Hrs as [Hr Hrs]. simpl in Hh. destruct (heap_dealloc _ _ _ _ Hh) as [Hd Hh'].
  assert (Hs : returned_size r = Some (rcap r)).
  { unfold returned_size. destruct Hr as [[-> _] | Hc]; [done |].
    by rewrite (class_not_whole _ _ Hc). }
  rewrite Hs. cbn [mbind option_bind]. rewrite Hd. cbn [mbind option_bind]. by apply IH.
Qed.

(** Every buffer still out is dropped, after its pool is gone. *)
Fixpoint give_all (out : list PoolBuf) (p : Pool) (t : Thread) : Pool * Thread :=
  match out with
  | [] => (p, t)
  | b :: out =>
      let '(p, t) := give_back {| raw := ptr b; rclass := class b; rcap := cap b |} p t in
      give_all out p t
  end.

Lemma give_all_returned out p t :
  ret_blocks (returned (give_all out p t).1) ≡ₚ ret_blocks (returned p) ++ out_blocks out /\
  (Forall (fun r => sized (rclass r) (rcap r)) (returned p) ->
   Forall (fun b => sized (class b) (cap b)) out ->
   Forall (fun r => sized (rclass r) (rcap r)) (returned (give_all out p t).1)).
Proof.
  revert p t. induction out as [|b out IH]; intros p t; simpl; [by rewrite app_nil_r |].
  destruct (give_back _ p t) as [p1 t1] eqn:E.
  assert (Hr : returned p1 = {| raw := ptr b; rclass := class b; rcap := cap b |} :: returned p).
  { unfold give_back, wake_waiters in E. simpl in E. by destruct (waiting p); injection E as <- <-. }
  destruct (IH p1 t1) as [Hp Hs]. split.
  - rewrite Hp, Hr. simpl. by rewrite <- Permutation_middle.
  - intros Hrs Hout. apply Forall_cons in Hout as [? ?]. apply Hs; [| done]. rewrite Hr. by constructor.
Qed.
End alloc.

(** C29. The pool's books, for caps below the largest [usize]: whatever the
    calls, in any order and from any thread, none panics, none frees memory
    twice or with another size, and none loses it: what is allocated is exactly
    the idle buffers, those on their way back and those out, each in one place.
    The bytes charged are these and the reservation. Unless a [hold_to] lowers
    the cap meanwhile they never pass it, and without a [hold_to] it is the cap
    the pool was made with, 512 at least. With the largest [usize] for a cap the
    charge itself can overflow: [largest_cap_overflows]. *)
Theorem pool_accounts (alloc_zeroed : Heap -> Z -> option Z) cap os :
  (forall h n q, alloc_zeroed h n = Some q -> h !! q = None) ->
  0 <= cap < usize_max -> forallb usize_arg os = true -> forallb cap_below os = true ->
  let x := (pool_new cap, ∅, thread_new, []) in
  exists p h t out,
    run_pops alloc_zeroed os x = Some (p, h, t, out) /\
    NoDup (blocks p out).*1 /\ h = list_to_map (blocks p out) /\
    charged p = reserved p + bytes_of (blocks p out) /\ reserved p + 512 <= pcap p /\
    (lowered alloc_zeroed os x = false -> charged p <= pcap p) /\
    (existsb is_hold os = false -> lowered alloc_zeroed os x = false /\ pcap p = Z.max cap 512).
Proof.
  intros Hf Hc Ha Hb. assert (Hos : forallb pop_ok os = true).
  { apply forallb_forall. intros o Ho. rewrite forallb_forall in Ha, Hb. apply andb_true_iff. auto. }
  destruct (run_pops_ok alloc_zeroed Hf os _ (pool_new_inv cap Hc) Hos) as ([[[p h] t] out] & Hr & [L _] & Hl & Hh0).
  exists p, h, t, out. split; [done |]. destruct L as [_ [Hn Hh] _ _ Hch [_ [Hcap _]] _ _ _].
  rewrite app_nil_r in *. split; [done |]. split; [done |]. split; [done |]. split; [done |].
  split; [| done]. intros Hlow. apply (Hl Hlow). simpl. lia.
Qed.

(** An allocator that answers the first free address of a list. *)
Definition demo_alloc (h : Heap) (_ : Z) : option Z :=
  head (filter (fun q => h !! q = None) [64; 128; 192; 256]).

Lemma demo_alloc_fresh h n q : demo_alloc h n = Some q -> h !! q = None.
Proof.
  unfold demo_alloc. intros Hq. destruct (filter _ _) as [|x l] eqn:E; [done |]. injection Hq as ->.
  assert (Hin : q ∈ filter (fun q => h !! q = None) [64; 128; 192; 256]) by (rewrite E; constructor).
  by apply list_elem_of_filter in Hin as [? _].
Qed.

Definition demo_pops : list pop :=
  [PReserve 512; PGet 100; PGetWhole 70000; PGet 600; PDrop false 0; PWait 3; PDrop true 0; PGet 20].

Lemma pool_accounts_witness :
  exists p h t out,
    run_pops demo_alloc (PHoldTo 90000 :: demo_pops) (pool_new 80000, ∅, thread_new, []) = Some (p, h, t, out) /\
    NoDup (blocks p out).*1 /\ h = list_to_map (blocks p out) /\
    charged p = reserved p + bytes_of (blocks p out) /\ charged p <= pcap p.
Proof.
  destruct (pool_accounts demo_alloc 80000 (PHoldTo 90000 :: demo_pops)) as (p & h & t & out & Hr & Hn & Hh & Hc & _ & Hl & _);
    [exact demo_alloc_fresh | vm_compute; split; congruence | reflexivity | reflexivity |].
  exists p, h, t, out. split_and!; try done. apply Hl. vm_compute. reflexivity.
Defined.

(** A pool whose cap is the largest [usize]: once all of it but a class is
    reserved, the second buffer of that class passes the comparison, which
    saturates, and its charge overflows. *)
Lemma largest_cap_overflows :
  run_pops demo_alloc [PReserve (usize_max - 512); PGet 1] (pool_new usize_max, ∅, thread_new, []) <> None /\
  run_pops demo_alloc [PReserve (usize_max - 512); PGet 1; PGet 1] (pool_new usize_max, ∅, thread_new, []) = None.
Proof. split; vm_compute; [discriminate | reflexivity]. Qed.

(** A buffer that comes back wakes everybody who waits. *)
Lemma drop_wakes own b p h t p' h' t' :
  waiting p = true -> drop_buf own b p h t = Some (p', h', t') ->
  t' = foldl (fun t w => wake w t) t (waiters p) /\ waiters p' = [] /\
  (no_idle p' -> returned p' = [] -> class b = WHOLE).
Proof.
  intros Hfl. unfold drop_buf, take_back, give_back, wake_waiters. destruct own.
  2: { simpl. rewrite Hfl. by intros [= <- <- <-]. }
  destruct (Z.eqb_spec (class b) WHOLE) as [Hcl | Hcl].
  - unfold free_whole, release. destruct (dealloc _ _ h); [| done]. cbn [mbind option_bind].
    destruct (sub64 _ _); [| done]. cbn [mbind option_bind]. simpl. rewrite Hfl. by intros [= <- <- <-].
  - unfold push_free. destruct (vget (free p) (class b)) as [st|] eqn:Ek; [| done].
    cbn [mbind option_bind]. simpl. rewrite Hfl. intros [= <- <- <-].
    split; [done |]. split; [done |]. intros Hni _. exfalso. unfold no_idle in Hni. simpl in Hni.
    rewrite Forall_lookup in Hni. pose proof (vget_vset_eq _ _ (ptr b :: st) _ Ek) as Hg.
    apply vget_Some in Hg as [_ Hg]. by specialize (Hni _ _ Hg).
Qed.

(** Nobody waits in vain: whatever was called, when somebody waits for a
    buffer there is nothing idle they could have, and a buffer is out; and the
    next buffer that comes back, on any thread, wakes everybody who waits. *)
Theorem pool_wakes_waiters (alloc_zeroed : Heap -> Z -> option Z) limit os :
  (forall h n q, alloc_zeroed h n = Some q -> h !! q = None) ->
  0 <= limit < usize_max -> forallb pop_ok os = true ->
  exists p h t out,
    run_pops alloc_zeroed os (pool_new limit, ∅, thread_new, []) = Some (p, h, t, out) /\
    (waiters p <> [] ->
       waiting p = true /\ no_idle p /\ returned p = [] /\ out <> [] /\
       forall own i b, out !! i = Some b ->
         exists p' h', run_pop alloc_zeroed (PDrop own i) (p, h, t, out) =
             Some (p', h', foldl (fun t w => wake w t) t (waiters p), delete i out) /\
           waiters p' = [] /\ (no_idle p' -> returned p' = [] -> class b = WHOLE)).
Proof.
  intros Hf Hc Hos.
  destruct (run_pops_ok alloc_zeroed Hf os _ (pool_new_inv limit Hc) Hos) as ([[[p h] t] out] & Hr & [L Hw] & _ & _).
  exists p, h, t, out. split; [done |]. intros Hne. pose proof Hw as [Hfl Hn].
  rewrite (bool_decide_eq_true_2 _ Hne) in Hfl. destruct (Hn Hne) as (Hi & Hre & Hout).
  split_and!; try done. intros own i b Hib.
  destruct (drop_step own i b p h t out (conj L Hw) Hib) as (p' & h' & t' & Hd & _).
  exists p', h'. cbn [run_pop]. rewrite Hib, Hd. cbn [mbind option_bind].
  by destruct (drop_wakes _ _ _ _ _ _ _ _ Hfl Hd) as (-> & ? & ?).
Qed.

Lemma pool_wakes_waiters_witness :
  exists p h t out,
    run_pops demo_alloc [PGet 100; PWait 3; PWait 4] (pool_new 512, ∅, thread_new, []) = Some (p, h, t, out) /\
    (waiters p <> [] ->
       waiting p = true /\ no_idle p /\ returned p = [] /\ out <> [] /\
       forall own i b, out !! i = Some b ->
         exists p' h', run_pop demo_alloc (PDrop own i) (p, h, t, out) =
             Some (p', h', foldl (fun t w => wake w t) t (waiters p), delete i out) /\
           waiters p' = [] /\ (no_idle p' -> returned p' = [] -> class b = WHOLE)).
Proof.
  apply pool_wakes_waiters; [exact demo_alloc_fresh | vm_compute; split; congruence | reflexivity].
Defined.

(** A pool refuses a buffer only when it has none: whatever was called
    before, [get] answers an empty buffer of the smallest class that holds the
    request, or of the largest that fits beside the reservation; it answers
    none only when nothing is idle or on its way back and the buffer's bytes
    do not fit under the cap, or when the allocator has no memory. *)
Theorem get_refuses_only_when_full (alloc_zeroed : Heap -> Z -> option Z) limit os len :
  (forall h n q, alloc_zeroed h n = Some q -> h !! q = None) ->
  0 <= limit < usize_max -> forallb pop_ok os = true ->
  exists p h t out size r p' h',
    run_pops alloc_zeroed os (pool_new limit, ∅, thread_new, []) = Some (p, h, t, out) /\
    get alloc_zeroed len p h = Some (r, p', h') /\
    In size CLASSES /\ size <= pcap p - reserved p /\
    (len <= size \/ size = LARGEST \/
       exists next, In next CLASSES /\ size < next /\ pcap p - reserved p < next) /\
    match r with
    | Some b => cap b = size /\ start b = 0 /\ end_ b = 0
    | None => (no_idle p' /\ returned p' = [] /\ pcap p < charged p' + size) \/
        exists h0, alloc_zeroed h0 size = None
    end.
Proof.
  intros Hf Hc Hos.
  destruct (run_pops_ok alloc_zeroed Hf os _ (pool_new_inv limit Hc) Hos) as ([[[p h] t] out] & Hr & [L _] & _ & _).
  pose proof (le_reserved _ _ _ _ L) as [? ?].
  destruct (get_valid len (pcap p - reserved p)) as (c & size & Ht & Hcl & Hsz & Hlen); [lia |].
  destruct (get_class_ok alloc_zeroed Hf _ size p h out L Hcl) as (r & p' & h' & Hg & _ & _ & _ & Hres).
  exists p, h, t, out, size, r, p', h'. split; [done |]. split.
  { unfold get. by rewrite (le_top _ _ _ _ L), Ht. }
  split; [| split; [done |]; split; [done |]; destruct r; [apply Hres | apply Hres]].
  apply vget_Some in Hcl as [_ Hcl]. apply list_elem_of_In. by eapply list_elem_of_lookup_2.
Qed.

Lemma get_refuses_only_when_full_witness :
  exists p h t out size r p' h',
    run_pops demo_alloc [PGet 100] (pool_new 5000, ∅, thread_new, []) = Some (p, h, t, out) /\
    get demo_alloc 600 p h = Some (r, p', h') /\
    In size CLASSES /\ size <= pcap p - reserved p /\
    (600 <= size \/ size = LARGEST \/
       exists next, In next CLASSES /\ size < next /\ pcap p - reserved p < next) /\
    match r with
    | Some b => cap b = size /\ start b = 0 /\ end_ b = 0
    | None => (no_idle p' /\ returned p' = [] /\ pcap p < charged p' + size) \/
        exists h0, demo_alloc h0 size = None
    end.
Proof.
  apply get_refuses_only_when_full; [exact demo_alloc_fresh | vm_compute; split; congruence | reflexivity].
Defined.

(** Nothing leaks at the end: whatever was called, dropping the pool, then
    every buffer still out, and at last their shared home, gives all the
    memory back to the allocator. *)
Theorem pool_end_frees_everything (alloc_zeroed : Heap -> Z -> option Z) limit os :
  (forall h n q, alloc_zeroed h n = Some q -> h !! q = None) ->
  0 <= limit < usize_max -> forallb pop_ok os = true ->
  exists p h t out p1 h1 t1,
    run_pops alloc_zeroed os (pool_new limit, ∅, thread_new, []) = Some (p, h, t, out) /\
    drop_pool p h t = Some (p1, h1, t1) /\ waiters p1 = [] /\
    drop_home (returned (give_all out p1 t1).1) h1 = Some ∅.
Proof.
  intros Hf Hc Hos.
  destruct (run_pops_ok alloc_zeroed Hf os _ (pool_new_inv limit Hc) Hos) as ([[[p h] t] out] & Hr & [L Hw] & _ & _).
  pose proof (le_heap _ _ _ _ L) as Hh. rewrite app_nil_r in Hh. unfold blocks in Hh.
  destruct (drop_free_ok (free p) CLASSES h _ Hh) as (h1 & Hd & Hh1).
  set (p0 := set_free (replicate (length CLASSES) []) p).
  destruct (wake_waiters p0 t) as [p1 t1] eqn:Ew.
  assert (Hp1 : waiters p1 = [] /\ returned p1 = returned p).
  { unfold wake_waiters in Ew. simpl in Ew. destruct Hw as [Hfl _]. destruct (waiting p) eqn:Ewt.
    - by injection Ew as <- <-.
    - injection Ew as <- <-. simpl. split; [| done]. symmetry in Hfl.
      apply bool_decide_eq_false in Hfl. destruct (waiters p) eqn:E; [done |].
      by destruct Hfl. }
  exists p, h, t, out, p1, h1, t1. split; [done |]. split; [unfold drop_pool; rewrite Hd; cbn [mbind option_bind]; fold p0; by rewrite Ew |].
  destruct Hp1 as [? Hp1]. split; [done |]. destruct (give_all_returned out p1 t1) as [Hp Hs].
  rewrite Hp1 in Hp, Hs. apply drop_home_ok; [apply Hs; [apply (le_ret _ _ _ _ L) | apply (le_out _ _ _ _ L)] |].
  eapply heap_perm; [exact Hh1 | by symmetry].
Qed.

Lemma pool_end_frees_everything_witness :
  exists p h t out p1 h1 t1,
    run_pops demo_alloc demo_pops (pool_new 80000, ∅, thread_new, []) = Some (p, h, t, out) /\
    drop_pool p h t = Some (p1, h1, t1) /\ waiters p1 = [] /\
    drop_home (returned (give_all out p1 t1).1) h1 = Some ∅.
Proof.
  apply pool_end_frees_everything; [exact demo_alloc_fresh | vm_compute; split; congruence | reflexivity].
Defined.
