(* ===== verification/TaskWord.v ===== *)
(** * A task's state word

    [rt/task/state.rs]: the flags of a task in the low eight bits of one word
    and the count of its references above them. [Word] is the word taken
    apart, [enc] puts it together, and the rewriting base [word] computes what
    the code does to the word, bit by bit, on the parts. *)

From S2P Require Import Prelude.
Open Scope Z_scope.

(** ** The code *)

Definition SCHEDULED : Z := 1.
Definition RUNNING : Z := 2.
Definition COMPLETED : Z := 4.
Definition CLOSED : Z := 8.
Definition TASK : Z := 16.
Definition AWAITER : Z := 32.
Definition REGISTERING : Z := 64.
Definition NOTIFYING : Z := 128.
Definition REFERENCE : Z := 256.
Definition FLAGS : Z := REFERENCE - 1.

(** [word & bits != 0], [word | bits], [word & !bits] and [word & !FLAGS == 0]. *)
Definition has (bits w : Z) : bool := negb (Z.land w bits =? 0).
Definition with_ (bits w : Z) : Z := Z.lor w bits.
Definition without (bits w : Z) : Z := Z.ldiff w bits.
Definition no_refs (w : Z) : bool := Z.ldiff w FLAGS =? 0.

(** ** The word taken apart *)

Record Word : Type := {
  sch : bool;
  run : bool;
  com : bool;
  clo : bool;
  tas : bool;
  awa : bool;
  reg : bool;
  ntf : bool;
  refs : Z
}.

Definition flags (w : Word) : Z :=
  Z.b2z (sch w) + 2 * Z.b2z (run w) + 4 * Z.b2z (com w) + 8 * Z.b2z (clo w) +
  16 * Z.b2z (tas w) + 32 * Z.b2z (awa w) + 64 * Z.b2z (reg w) + 128 * Z.b2z (ntf w).

Definition enc (w : Word) : Z := flags w + 256 * refs w.

(** The bits below and the count above do not meet. *)
Lemma split_testbit k n i :
  0 <= k < 256 -> 0 <= i ->
  Z.testbit (k + 256 * n) i = if i <? 8 then Z.testbit k i else Z.testbit n (i - 8).
Proof.
  intros Hk Hi. destruct (Z.ltb_spec i 8).
  - rewrite <- (Z.mod_pow2_bits_low _ 8) by lia. f_equal. change (2 ^ 8) with 256.
    rewrite Z.mul_comm, Z.mod_add by lia. by apply Z.mod_small.
  - replace i with (i - 8 + 8) at 1 by lia. rewrite <- Z.div_pow2_bits by lia. f_equal.
    change (2 ^ 8) with 256. rewrite Z.mul_comm, Z.div_add by lia. rewrite Z.div_small by lia. lia.
Qed.

Lemma low_testbit k i : 0 <= k < 256 -> 8 <= i -> Z.testbit k i = false.
Proof.
  intros Hk Hi. replace k with (k + 256 * 0) by lia. rewrite split_testbit by lia.
  destruct (Z.ltb_spec i 8); [lia |]. apply Z.testbit_0_l.
Qed.

Lemma low_op (f : Z -> Z -> Z) (g : bool -> bool -> bool) k c :
  (forall a b i, 0 <= i -> Z.testbit (f a b) i = g (Z.testbit a i) (Z.testbit b i)) ->
  (0 <= k -> 0 <= f k c) -> g false false = false ->
  0 <= k < 256 -> 0 <= c < 256 -> 0 <= f k c < 256.
Proof.
  intros Hf Hp Hg Hk Hc. split; [apply Hp; lia |].
  destruct (Z.eq_dec (f k c) 0) as [-> | Hne]; [lia |]. change 256 with (2 ^ 8).
  apply Z.log2_lt_pow2; [specialize (Hp ltac:(lia)); lia |].
  apply Z.nle_gt. intros Hle. assert (Hb : Z.testbit (f k c) (Z.log2 (f k c)) = true).
  { apply Z.bit_log2. specialize (Hp ltac:(lia)). lia. }
  rewrite Hf in Hb by lia. rewrite !low_testbit in Hb by lia. congruence.
Qed.

Lemma split_lor k n c :
  0 <= k < 256 -> 0 <= c < 256 -> Z.lor (k + 256 * n) c = Z.lor k c + 256 * n.
Proof.
  intros Hk Hc. assert (Hl : 0 <= Z.lor k c < 256).
  { apply (low_op Z.lor orb); try done; [intros; apply Z.lor_spec | intros; apply Z.lor_nonneg; lia]. }
  apply Z.bits_inj'. intros i Hi. rewrite Z.lor_spec, !split_testbit by lia.
  destruct (Z.ltb_spec i 8); [by rewrite Z.lor_spec |].
  by rewrite (low_testbit c) by lia; rewrite orb_false_r.
Qed.

Lemma split_land k n c :
  0 <= k < 256 -> 0 <= c < 256 -> Z.land (k + 256 * n) c = Z.land k c.
Proof.
  intros Hk Hc. apply Z.bits_inj'. intros i Hi. rewrite !Z.land_spec, split_testbit by lia.
  destruct (Z.ltb_spec i 8); [done |]. rewrite (low_testbit c) by lia. by rewrite !andb_false_r.
Qed.

Lemma split_ldiff k n c :
  0 <= k < 256 -> 0 <= c < 256 -> Z.ldiff (k + 256 * n) c = Z.ldiff k c + 256 * n.
Proof.
  intros Hk Hc. assert (Hl : 0 <= Z.ldiff k c < 256).
  { apply (low_op Z.ldiff (fun a b => a && negb b)); try done;
      [intros; apply Z.ldiff_spec | intros; apply Z.ldiff_nonneg; lia]. }
  apply Z.bits_inj'. intros i Hi. rewrite Z.ldiff_spec, !split_testbit by lia.
  destruct (Z.ltb_spec i 8); [by rewrite Z.ldiff_spec |].
  rewrite (low_testbit c) by lia. by rewrite andb_true_r.
Qed.

Lemma flags_range w : 0 <= flags w < 256.
Proof. destruct w as [[] [] [] [] [] [] [] [] ?]; vm_compute; by split. Qed.

(** ** What the code does to a word, on its parts *)

(** The word with the flags of [bits] set, or cleared. *)
Definition set_flags (bits : Z) (w : Word) : Word :=
  {| sch := has SCHEDULED bits || sch w; run := has RUNNING bits || run w;
     com := has COMPLETED bits || com w; clo := has CLOSED bits || clo w;
     tas := has TASK bits || tas w; awa := has AWAITER bits || awa w;
     reg := has REGISTERING bits || reg w; ntf := has NOTIFYING bits || ntf w; refs := refs w |}.

Definition clear_flags (bits : Z) (w : Word) : Word :=
  {| sch := negb (has SCHEDULED bits) && sch w; run := negb (has RUNNING bits) && run w;
     com := negb (has COMPLETED bits) && com w; clo := negb (has CLOSED bits) && clo w;
     tas := negb (has TASK bits) && tas w; awa := negb (has AWAITER bits) && awa w;
     reg := negb (has REGISTERING bits) && reg w; ntf := negb (has NOTIFYING bits) && ntf w;
     refs := refs w |}.

Definition set_refs (n : Z) (w : Word) : Word :=
  {| sch := sch w; run := run w; com := com w; clo := clo w; tas := tas w; awa := awa w;
     reg := reg w; ntf := ntf w; refs := n |}.

(** The masks the code uses. *)
Definition masks : list Z :=
  [SCHEDULED; RUNNING; COMPLETED; CLOSED; TASK; AWAITER; REGISTERING; NOTIFYING;
   Z.lor SCHEDULED CLOSED; Z.lor RUNNING SCHEDULED; Z.lor NOTIFYING REGISTERING;
   Z.lor NOTIFYING AWAITER; Z.lor (Z.lor NOTIFYING REGISTERING) AWAITER].

Definition is_mask (bits : Z) : bool := existsb (Z.eqb bits) masks.

Lemma is_mask_In bits : is_mask bits = true -> In bits masks.
Proof. unfold is_mask. intros (m & Hm & ->%Z.eqb_eq)%existsb_exists. done. Qed.

Ltac each_mask H w :=
  repeat (destruct H as [<- | H]; [destruct w as [[] [] [] [] [] [] [] [] ?]; reflexivity |]);
  destruct H.

Lemma flags_set bits w : In bits masks -> flags (set_flags bits w) = Z.lor (flags w) bits.
Proof. unfold masks. intros H. each_mask H w. Qed.

Lemma flags_clear bits w : In bits masks -> flags (clear_flags bits w) = Z.ldiff (flags w) bits.
Proof. unfold masks. intros H. each_mask H w. Qed.

Lemma masks_range bits : In bits masks -> 0 <= bits < 256.
Proof.
  unfold masks. intros H. repeat (destruct H as [<- | H]; [vm_compute; by split |]). destruct H.
Qed.

Lemma enc_set bits w : is_mask bits = true -> with_ bits (enc w) = enc (set_flags bits w).
Proof.
  intros H%is_mask_In. unfold with_, enc. rewrite (flags_set _ _ H).
  by rewrite split_lor by (apply flags_range || by apply masks_range).
Qed.

Lemma enc_clear bits w : is_mask bits = true -> without bits (enc w) = enc (clear_flags bits w).
Proof.
  intros H%is_mask_In. unfold without, enc. rewrite (flags_clear _ _ H).
  by rewrite split_ldiff by (apply flags_range || by apply masks_range).
Qed.

Lemma enc_land bits w : 0 <= bits < 256 -> Z.land (enc w) bits = Z.land (flags w) bits.
Proof. intros. unfold enc. by rewrite split_land by (done || apply flags_range). Qed.

Lemma has_either b c w : has (Z.lor b c) w = has b w || has c w.
Proof.
  unfold has. rewrite Z.land_lor_distr_r.
  destruct (Z.eqb_spec (Z.land w b) 0) as [E1 | E1]; destruct (Z.eqb_spec (Z.land w c) 0) as [E2 | E2];
    simpl; [by rewrite E1, E2 | ..]; apply negb_true_iff, Z.eqb_neq; rewrite Z.lor_eq_0_iff; tauto.
Qed.

Ltac one_flag w := unfold has; rewrite enc_land by done; destruct w as [[] [] [] [] [] [] [] [] ?]; reflexivity.

Lemma has_scheduled w : has SCHEDULED (enc w) = sch w. Proof. one_flag w. Qed.
Lemma has_running w : has RUNNING (enc w) = run w. Proof. one_flag w. Qed.
Lemma has_completed w : has COMPLETED (enc w) = com w. Proof. one_flag w. Qed.
Lemma has_closed w : has CLOSED (enc w) = clo w. Proof. one_flag w. Qed.
Lemma has_task w : has TASK (enc w) = tas w. Proof. one_flag w. Qed.
Lemma has_awaiter w : has AWAITER (enc w) = awa w. Proof. one_flag w. Qed.
Lemma has_registering w : has REGISTERING (enc w) = reg w. Proof. one_flag w. Qed.
Lemma has_notifying w : has NOTIFYING (enc w) = ntf w. Proof. one_flag w. Qed.

Lemma enc_add w n : enc w + REFERENCE * n = enc (set_refs (refs w + n) w).
Proof. unfold enc, REFERENCE. change (flags (set_refs _ w)) with (flags w). simpl. lia. Qed.

Lemma enc_ref w : enc w + REFERENCE = enc (set_refs (refs w + 1) w).
Proof. rewrite <- enc_add. lia. Qed.

Lemma enc_unref w : enc w - REFERENCE = enc (set_refs (refs w - 1) w).
Proof. replace (refs w - 1) with (refs w + -1) by lia. rewrite <- enc_add. lia. Qed.

(** [fetch_add(RUNNING - SCHEDULED)] on a scheduled word that is not running. *)
Lemma enc_start w :
  sch w = true -> run w = false ->
  enc w + (RUNNING - SCHEDULED) = enc (clear_flags SCHEDULED (set_flags RUNNING w)).
Proof.
  intros Hs Hr. unfold enc, RUNNING, SCHEDULED. unfold flags. simpl. rewrite Hs, Hr.
  destruct w as [[] [] [] [] [] [] [] [] ?]; simpl in *; try done; lia.
Qed.

(** [fetch_add(REFERENCE + CLOSED)] on an open word. *)
Lemma enc_end w :
  clo w = false -> enc w + (REFERENCE + CLOSED) = enc (set_refs (refs w + 1) (set_flags CLOSED w)).
Proof.
  intros Hc. unfold enc, REFERENCE, CLOSED, flags. simpl. rewrite Hc.
  destruct w as [[] [] [] [] [] [] [] [] ?]; simpl in *; try done; lia.
Qed.

Lemma enc_no_refs w : no_refs (enc w) = (refs w =? 0).
Proof.
  unfold no_refs, enc. rewrite split_ldiff by (apply flags_range || done).
  replace (Z.ldiff (flags w) FLAGS) with 0 by (destruct w as [[] [] [] [] [] [] [] [] ?]; reflexivity).
  destruct (Z.eqb_spec (refs w) 0); [by apply Z.eqb_eq; lia | apply Z.eqb_neq; lia].
Qed.

(** The word of a task with no part but these. *)
Definition fresh_word (scheduled closed task : bool) (n : Z) : Word :=
  {| sch := scheduled; run := false; com := false; clo := closed; tas := task; awa := false;
     reg := false; ntf := false; refs := n |}.

Create HintDb word.
#[export] Hint Rewrite has_either has_scheduled has_running has_completed has_closed has_task
  has_awaiter has_registering has_notifying enc_ref enc_unref enc_no_refs : word.
#[export] Hint Rewrite enc_set enc_clear using reflexivity : word.

(** A word has one set of parts. *)
Lemma enc_inj v w : enc v = enc w -> v = w.
Proof.
  intros H. assert (Hr : refs v = refs w).
  { pose proof (flags_range v). pose proof (flags_range w). unfold enc in H. lia. }
  pose proof (has_scheduled v). pose proof (has_running v). pose proof (has_completed v). pose proof (has_closed v).
  pose proof (has_task v). pose proof (has_awaiter v). pose proof (has_registering v). pose proof (has_notifying v).
  rewrite H in *. autorewrite with word in *. destruct v, w; simpl in *; congruence.
Qed.
