(* ===== verification/Task.v ===== *)
(** * The life of a task

    [rt/task/raw.rs], [rt/task/header.rs], [rt/task/join.rs]: one task's state
    word and everybody who works on it at once, as a transition system. Each
    step is one atomic operation of the code: an exchange that succeeded, an
    addition or subtraction, a load the code acts on, or an access to the
    memory the code holds. A loop around an exchange is the exchange that
    succeeds: what it decides is decided on the word it replaces.

    Who works on the task: the [Runnable], while it waits and while it runs
    ([Run]); the handle ([Handle]); an abort handle that cancels ([Cancel]);
    the wakers, counted, of which any may be cloned, woken or dropped at any
    time; and the walk that closes the tasks of a shard that shuts down. What
    must never happen (memory used after it is freed, a future dropped twice
    or read where there is none, a second runnable) raises [bad]. *)

From S2P Require Import Prelude TaskWord.
Open Scope Z_scope.

(** What the task's memory holds: its future, then its output (a value, or the
    panic of its code), then neither. *)
Inductive Core : Type := CFuture | COutput (panicked : bool) | CEmpty.

(** Why a run or a runnable drops the future of a closed task: [end_queued],
    [end_closed], [drop_runnable]. *)
Inductive Ending : Type := EQueued | EClosed | EDropped.

(** The flags the exchange after the drop clears. *)
Definition cleared (e : Ending) : Z :=
  match e with
  | EQueued => RUNNING
  | EClosed => Z.lor RUNNING SCHEDULED
  | EDropped => SCHEDULED
  end.

(** What [complete] did with an output nobody takes. *)
Inductive Unclaimed : Type := UKept | UTaken | UDropped.

(** How far [complete] is with the awaiter: not claimed, the cell its own, the
    waker taken out of it. *)
Inductive Claim : Type := NotClaimed | CellHeld | Claimed.

(** The runnable, from the moment the word says [SCHEDULED] to the end of the
    run: waiting; in its poll; with the poll's answer; in [complete], with the
    awaiter it claimed; in an ending, dropping the future, settling the word,
    and taking the awaiter; at its last subtraction; in [end_unawaited]. *)
Inductive Run : Type :=
| RNone
| RRunnable
| RPolling
| RPend
| RReady (panicked : bool)
| RComplete (panicked : bool) (c : Claim) (awaiter : option Waker) (u : Unclaimed)
| RDropFuture (e : Ending)
| RSettle (e : Ending) (panicked : bool)
| RTake (e : Ending)
| RHold (e : Ending)
| RTook (e : Ending) (awaiter : option Waker)
| RDropRef (awaiter : option Waker)
| RUnawaited
| RUnawaitedDrop
| RUnawaitedEnd.

(** Where [poll_raw] registers: the task closed and its future not gone yet, or
    the task open. *)
Inductive Waits : Type := WaitsClosed | WaitsOpen.

(** What the handle does after it told the awaiter. *)
Inductive Tell : Type := TAnswerNone | TRead | TCancelled (dropping : bool).

(** The handle: at rest; in [poll_raw], at the top of its loop, in [register]
    before, while and after it stores its waker, and at the look after it;
    taking the awaiter; reading the output; in [cancel]; letting go. *)
Inductive Handle : Type :=
| HGone
| HIdle
| HPoll (w : Waker)
| HRegister (w : Waker) (a : Waits)
| HStoring (w : Waker) (a : Waits)
| HStored (w : Waker) (a : Waits)
| HLook (w : Waker) (a : Waits)
| HNotify (current : option Waker) (t : Tell)
| HHold (current : option Waker) (t : Tell)
| HTook (awaiter current : option Waker) (t : Tell)
| HRead
| HCancel (dropping : bool)
| HDetach
| HDetachRead.

(** An abort handle that closed the task and tells the awaiter. *)
Inductive Cancel : Type :=
| KNone
| KNotify
| KHold
| KTook (awaiter : option Waker).

#[export] Instance ending_eq_dec : EqDecision Ending.
Proof. solve_decision. Defined.
#[export] Instance unclaimed_eq_dec : EqDecision Unclaimed.
Proof. solve_decision. Defined.
#[export] Instance claim_eq_dec : EqDecision Claim.
Proof. solve_decision. Defined.
#[export] Instance run_eq_dec : EqDecision Run.
Proof. solve_decision. Defined.

(** [stored] is the waker last stored ([awaiter_data] and [awaiter_table]);
    [last] says that [drop_waker] found its reference the last and has not
    stored the word yet; [woken] is who was woken through the handle's
    awaiter; [asleep] is the waker the handle's last poll left behind, until it
    is woken; [outputs] counts the outputs handed to the handle. *)
Record Task : Type := {
  word : Z;
  core : Core;
  cell : option Waker;
  stored : option Waker;
  freed : bool;
  bad : bool;
  rn : Run;
  hd : Handle;
  kn : Cancel;
  wakers : Z;
  dropping : Z;
  last : bool;
  woken : list Waker;
  asleep : option Waker;
  outputs : Z
}.

Definition set_word x s :=
  {| word := x; core := core s; cell := cell s; stored := stored s; freed := freed s; bad := bad s;
     rn := rn s; hd := hd s; kn := kn s; wakers := wakers s; dropping := dropping s; last := last s;
     woken := woken s; asleep := asleep s; outputs := outputs s |}.
Definition set_core x s :=
  {| word := word s; core := x; cell := cell s; stored := stored s; freed := freed s; bad := bad s;
     rn := rn s; hd := hd s; kn := kn s; wakers := wakers s; dropping := dropping s; last := last s;
     woken := woken s; asleep := asleep s; outputs := outputs s |}.
Definition set_cell x s :=
  {| word := word s; core := core s; cell := x; stored := stored s; freed := freed s; bad := bad s;
     rn := rn s; hd := hd s; kn := kn s; wakers := wakers s; dropping := dropping s; last := last s;
     woken := woken s; asleep := asleep s; outputs := outputs s |}.
Definition set_stored x s :=
  {| word := word s; core := core s; cell := cell s; stored := x; freed := freed s; bad := bad s;
     rn := rn s; hd := hd s; kn := kn s; wakers := wakers s; dropping := dropping s; last := last s;
     woken := woken s; asleep := asleep s; outputs := outputs s |}.
Definition set_freed x s :=
  {| word := word s; core := core s; cell := cell s; stored := stored s; freed := x; bad := bad s;
     rn := rn s; hd := hd s; kn := kn s; wakers := wakers s; dropping := dropping s; last := last s;
     woken := woken s; asleep := asleep s; outputs := outputs s |}.
Definition set_bad x s :=
  {| word := word s; core := core s; cell := cell s; stored := stored s; freed := freed s; bad := x;
     rn := rn s; hd := hd s; kn := kn s; wakers := wakers s; dropping := dropping s; last := last s;
     woken := woken s; asleep := asleep s; outputs := outputs s |}.
Definition set_run x s :=
  {| word := word s; core := core s; cell := cell s; stored := stored s; freed := freed s; bad := bad s;
     rn := x; hd := hd s; kn := kn s; wakers := wakers s; dropping := dropping s; last := last s;
     woken := woken s; asleep := asleep s; outputs := outputs s |}.
Definition set_handle x s :=
  {| word := word s; core := core s; cell := cell s; stored := stored s; freed := freed s; bad := bad s;
     rn := rn s; hd := x; kn := kn s; wakers := wakers s; dropping := dropping s; last := last s;
     woken := woken s; asleep := asleep s; outputs := outputs s |}.
Definition set_cancel x s :=
  {| word := word s; core := core s; cell := cell s; stored := stored s; freed := freed s; bad := bad s;
     rn := rn s; hd := hd s; kn := x; wakers := wakers s; dropping := dropping s; last := last s;
     woken := woken s; asleep := asleep s; outputs := outputs s |}.
Definition set_wakers x y s :=
  {| word := word s; core := core s; cell := cell s; stored := stored s; freed := freed s; bad := bad s;
     rn := rn s; hd := hd s; kn := kn s; wakers := x; dropping := y; last := last s;
     woken := woken s; asleep := asleep s; outputs := outputs s |}.
Definition set_last x s :=
  {| word := word s; core := core s; cell := cell s; stored := stored s; freed := freed s; bad := bad s;
     rn := rn s; hd := hd s; kn := kn s; wakers := wakers s; dropping := dropping s; last := x;
     woken := woken s; asleep := asleep s; outputs := outputs s |}.
Definition add_woken x s :=
  {| word := word s; core := core s; cell := cell s; stored := stored s; freed := freed s; bad := bad s;
     rn := rn s; hd := hd s; kn := kn s; wakers := wakers s; dropping := dropping s; last := last s;
     woken := woken s ++ [x];
     asleep := (if bool_decide (asleep s = Some x) then None else asleep s);
     outputs := outputs s |}.
Definition set_outputs x s :=
  {| word := word s; core := core s; cell := cell s; stored := stored s; freed := freed s; bad := bad s;
     rn := rn s; hd := hd s; kn := kn s; wakers := wakers s; dropping := dropping s; last := last s;
     woken := woken s; asleep := asleep s; outputs := x |}.
Definition set_asleep x s :=
  {| word := word s; core := core s; cell := cell s; stored := stored s; freed := freed s; bad := bad s;
     rn := rn s; hd := hd s; kn := kn s; wakers := wakers s; dropping := dropping s; last := last s;
     woken := woken s; asleep := x; outputs := outputs s |}.

(** A task as [Header::new] and [spawn_unchecked] make it: its runnable in
    hand, and its handle. *)
Definition spawned : Task :=
  {| word := Z.lor (Z.lor SCHEDULED TASK) REFERENCE; core := CFuture; cell := None; stored := None;
     freed := false; bad := false; rn := RRunnable; hd := HIdle; kn := KNone; wakers := 0;
     dropping := 0; last := false; woken := []; asleep := None; outputs := 0 |}.

(** ** What the steps share *)

(** [wake_caught]. *)
Definition wake_awaiter (w : option Waker) (s : Task) : Task :=
  match w with Some w => add_woken w s | None => s end.

(** [schedule]: the runnable is handed on. *)
Definition schedule (s : Task) : Task :=
  match rn s with RNone => set_run RRunnable s | _ => set_bad true s end.

(** [drop_future]: the memory's future goes. *)
Definition drop_future (s : Task) : Task :=
  match core s with CFuture => set_core CEmpty s | _ => set_bad true s end.

(** [destroy]: the memory is freed; what it still holds is lost. *)
Definition destroy (s : Task) : Task :=
  match core s with
  | CEmpty => if freed s then set_bad true s else set_freed true s
  | _ => set_bad true s
  end.

(** [read_output]. *)
Definition read_output (s : Task) : Task :=
  match core s with COutput _ => set_core CEmpty s | _ => set_bad true s end.

(** [Header::take] and [Header::claim] on the word: the flag set, and whether
    the cell is the caller's. *)
Definition free_cell (w : Z) : bool := negb (has (Z.lor NOTIFYING REGISTERING) w).

Definition idle_word (w : Z) : bool := negb (has SCHEDULED w || has RUNNING w).

Definition ended_word (w : Z) : bool := has COMPLETED w || has CLOSED w.

(** [join::close]: closes the task unless it ended; an idle one is scheduled. *)
Definition close (s : Task) : option (bool * Task) :=
  let w := word s in
  if ended_word w then None
  else
    let s :=
      if idle_word w
      then schedule (set_word (with_ (Z.lor SCHEDULED CLOSED) w + REFERENCE) s)
      else set_word (with_ CLOSED w) s in
    Some (has AWAITER w, s).

(** ** The run *)

(** [run], up to the poll. *)
Definition run_start (s : Task) : Task :=
  let w := word s in
  let s := set_word (w + (RUNNING - SCHEDULED)) s in
  let s := if has SCHEDULED w && negb (has RUNNING w) then s else set_bad true s in
  set_run (if has CLOSED w then RDropFuture EQueued else RPolling) s.

(** [drop_runnable], up to the drop of the future. *)
Definition runnable_dropped (s : Task) : Task :=
  let w := word s in
  let s := if ended_word w then s else set_word (with_ CLOSED w) s in
  set_run (RDropFuture EDropped) s.

(** The end of a poll that returned pending, in [settle_run]. *)
Definition settle_pending (s : Task) : Task :=
  let w := word s in
  if has CLOSED w then set_run (RDropFuture EClosed) s
  else if has SCHEDULED w then set_run RRunnable (set_word (without RUNNING w) s)
  else
    let new := without RUNNING w - REFERENCE in
    set_run (if no_refs new && negb (has TASK new) then RUnawaited else RNone) (set_word new s).

(** [claim]; also with a word read before it changed. *)
Definition claim (p : bool) (u : Unclaimed) (s : Task) : Task :=
  let w := word s in
  let s := set_word (with_ NOTIFYING w) s in
  if free_cell w then set_run (RComplete p CellHeld None u) s else s.

(** [complete]'s exchange. *)
Definition completed_word (p : bool) (c : Claim) (w : Z) : Z :=
  let new := with_ COMPLETED (without (Z.lor RUNNING SCHEDULED) w) in
  let new :=
    if negb (has TASK w) then with_ CLOSED new
    else if p then without CLOSED new else new in
  let new := match c with Claimed => without (Z.lor NOTIFYING AWAITER) new | _ => new end in
  new - REFERENCE.

Definition publish (p : bool) (c : Claim) (aw : option Waker) (u : Unclaimed) (s : Task) : Task :=
  let w := word s in
  if match u with UKept => negb (has TASK w) | _ => false end
  then set_run (RComplete p c aw UTaken) (read_output s)
  else if match u with UKept => negb p && has CLOSED w | _ => false end
  then set_run (RComplete p c aw UDropped) (read_output s)
  else
    let new := completed_word p c w in
    let s := set_run RNone (set_word new s) in
    let s := if no_refs new && negb (has TASK new) then destroy s else s in
    wake_awaiter aw s.

Definition complete (p : bool) (c : Claim) (aw : option Waker) (u : Unclaimed) (s : Task) : Task :=
  match c with
  | NotClaimed =>
      if has AWAITER (word s) && free_cell (word s) then claim p u s else publish p c aw u s
  | CellHeld => set_run (RComplete p Claimed (cell s) u) (set_cell None s)
  | Claimed => publish p c aw u s
  end.

(** [settle]: the exchange after a cancel dropped the future. *)
Definition settled_word (e : Ending) (panicked : bool) (w : Z) : Z :=
  let new := without (cleared e) w in
  if panicked && has TASK w then with_ COMPLETED (without CLOSED new) else new.

Definition settle (e : Ending) (panicked : bool) (s : Task) : Task :=
  let w := word s in
  let s := set_word (settled_word e panicked w) s in
  let s := if panicked && negb (has TASK w) then read_output s else s in
  set_run (if has AWAITER w then RTake e else RDropRef None) s.

(** [drop_ref], then the wake of the awaiter [finish] took. *)
Definition drop_ref (aw : option Waker) (s : Task) : Task :=
  let new := word s - REFERENCE in
  let s := set_run RNone (set_word new s) in
  let s :=
    if no_refs new && negb (has TASK new) then
      if ended_word new then destroy s else set_run RUnawaited s
    else s in
  wake_awaiter aw s.

(** A poll that returned its output, in [settle_run]; [q]: the future's drop
    panics. *)
Definition output_made (p q : bool) (s : Task) : Task :=
  let s := drop_future s in
  set_run (RComplete (p || q) NotClaimed None UKept) (set_core (COutput (p || q)) s).

(** [end_queued], [end_closed] and [drop_runnable] drop the future. *)
Definition end_drop (e : Ending) (q : bool) (s : Task) : Task :=
  let s := drop_future s in
  set_run (RSettle e q) (if q then set_core (COutput true) s else s).

(** [Header::take], in [finish] or in the [notify] of [drop_runnable]. *)
Definition take_start (e : Ending) (s : Task) : Task :=
  let w := word s in
  set_run (if free_cell w then RHold e else RDropRef None) (set_word (with_ NOTIFYING w) s).

Definition take_cell (e : Ending) (s : Task) : Task := set_run (RTook e (cell s)) (set_cell None s).

(** [finish] wakes the awaiter after it let go, [drop_runnable] before. *)
Definition take_end (e : Ending) (aw : option Waker) (s : Task) : Task :=
  let s := set_word (without (Z.lor NOTIFYING AWAITER) (word s)) s in
  match e with
  | EDropped => wake_awaiter aw (set_run (RDropRef None) s)
  | _ => set_run (RDropRef aw) s
  end.

(** [end_unawaited]. *)
Definition unawaited_close (s : Task) : Task :=
  set_run RUnawaitedDrop (set_word (word s + (REFERENCE + CLOSED)) s).

Definition unawaited_drop (s : Task) : Task := set_run RUnawaitedEnd (drop_future s).

Definition unawaited_end (s : Task) : Task :=
  let new := word s - REFERENCE in
  let s := set_run RNone (set_word new s) in
  if no_refs new && negb (has TASK new) then destroy s else s.

(** The next operation of the run; [q]: a drop of the future it makes panics. *)
Definition run_next (q : bool) (s : Task) : option Task :=
  match rn s with
  | RNone | RRunnable | RPolling => None
  | RPend => Some (settle_pending s)
  | RReady p => Some (output_made p q s)
  | RComplete p c aw u => Some (complete p c aw u s)
  | RDropFuture e => Some (end_drop e q s)
  | RSettle e p => Some (settle e p s)
  | RTake e => Some (take_start e s)
  | RHold e => Some (take_cell e s)
  | RTook e aw => Some (take_end e aw s)
  | RDropRef aw => Some (drop_ref aw s)
  | RUnawaited => Some (unawaited_close s)
  | RUnawaitedDrop => Some (unawaited_drop s)
  | RUnawaitedEnd => Some (unawaited_end s)
  end.

(** ** The handle *)

Definition told (t : Tell) (s : Task) : Task :=
  match t with
  | TAnswerNone => set_handle HIdle s
  | TRead => set_handle HRead s
  | TCancelled d => set_handle (if d then HDetach else HIdle) s
  end.

(** The top of [poll_raw]'s loop; [b]: the budget allows the answer. *)
Definition poll_raw (b : bool) (x : Waker) (s : Task) : Task :=
  let w := word s in
  if has CLOSED w then
    if has SCHEDULED w || has RUNNING w then set_handle (HRegister x WaitsClosed) s
    else if b then set_handle (HNotify (Some x) TAnswerNone) s
    else add_woken x (set_handle HIdle s)
  else if negb (has COMPLETED w) then set_handle (HRegister x WaitsOpen) s
  else if b then
    let s := set_word (with_ CLOSED w) s in
    set_handle (if has AWAITER w then HNotify (Some x) TRead else HRead) s
  else add_woken x (set_handle HIdle s).

(** [register]'s first loop. *)
Definition register (x : Waker) (a : Waits) (s : Task) : Task :=
  let w := word s in
  if has NOTIFYING w then
    let s := set_asleep (Some x) (set_handle (HLook x a) s) in
    if negb (has AWAITER w) || negb (bool_decide (stored s = Some x)) then add_woken x s else s
  else set_handle (HStoring x a) (set_word (with_ REGISTERING w) s).

(** [register]'s second loop: the waker a notifier left to it, and its
    exchange. *)
Definition registered (x : Waker) (a : Waits) (s : Task) : Task :=
  let w := word s in
  let missed := if has NOTIFYING w then cell s else None in
  let s := if has NOTIFYING w then set_cell None s else s in
  let new :=
    match missed with
    | None => with_ AWAITER (without (Z.lor NOTIFYING REGISTERING) w)
    | Some _ => without (Z.lor (Z.lor NOTIFYING REGISTERING) AWAITER) w
    end in
  wake_awaiter missed (set_asleep (Some x) (set_handle (HLook x a) (set_word new s))).

(** The look after a registration. *)
Definition look_again (x : Waker) (a : Waits) (s : Task) : Task :=
  let w := word s in
  match a with
  | WaitsClosed =>
      if has SCHEDULED w || has RUNNING w then set_handle HIdle s
      else set_asleep None (set_handle (HPoll x) s)
  | WaitsOpen =>
      if negb (has CLOSED w) && negb (has COMPLETED w) then set_handle HIdle s
      else set_asleep None (set_handle (HPoll x) s)
  end.

(** [set_detached]'s loop. *)
Definition set_detached (s : Task) : Task :=
  let w := word s in
  if has COMPLETED w && negb (has CLOSED w) then
    set_handle HDetachRead (set_word (with_ CLOSED w) s)
  else
    let new :=
      if no_refs w && negb (has CLOSED w) then Z.lor (Z.lor SCHEDULED CLOSED) REFERENCE
      else without TASK w in
    let s := set_handle HGone (set_word new s) in
    if no_refs w then if has CLOSED w then destroy s else schedule s else s.

Definition handle_cancel (d : bool) (s : Task) : Task :=
  match close s with
  | None => told (TCancelled d) s
  | Some (aw, s) => if aw : bool then set_handle (HNotify None (TCancelled d)) s else told (TCancelled d) s
  end.

(** The next operation of the handle. *)
Definition handle_next (b : bool) (s : Task) : option Task :=
  let w := word s in
  match hd s with
  | HGone | HIdle => None
  | HPoll x => Some (poll_raw b x s)
  | HRegister x a => Some (register x a s)
  | HStoring x a => Some (set_handle (HStored x a) (set_stored (Some x) (set_cell (Some x) s)))
  | HStored x a => Some (registered x a s)
  | HLook x a => Some (look_again x a s)
  | HNotify cur t =>
      let s := set_word (with_ NOTIFYING w) s in
      Some (if free_cell w then set_handle (HHold cur t) s else told t s)
  | HHold cur t => Some (set_handle (HTook (cell s) cur t) (set_cell None s))
  | HTook aw cur t =>
      let s := told t (set_word (without (Z.lor NOTIFYING AWAITER) w) s) in
      Some (match aw, cur with
            | Some x, Some c => if will_wake x c then s else add_woken x s
            | aw, _ => wake_awaiter aw s
            end)
  | HRead => Some (set_handle HIdle (set_outputs (outputs s + 1) (read_output s)))
  | HCancel d => Some (handle_cancel d s)
  | HDetach => Some (set_detached s)
  | HDetachRead => Some (set_handle HDetach (read_output s))
  end.

(** [Task]'s drop. *)
Definition drop_handle (s : Task) : Task :=
  if word s =? Z.lor (Z.lor COMPLETED CLOSED) TASK
  then destroy (set_handle HGone s)
  else set_handle (HCancel true) s.

(** ** The wakers *)

(** Whether somebody may clone a waker of the task: a waker, the run while it
    holds its reference, the handle. *)
Definition can_clone (s : Task) : bool :=
  (0 <? wakers s) ||
  (match rn s with
   | RRunnable | RPolling | RPend | RDropFuture _ | RUnawaitedDrop => true
   | _ => false
   end) ||
  (match hd s with HIdle => true | _ => false end).

(** [clone_waker]; a count that would overflow aborts the process. *)
Definition clone_waker (s : Task) : option Task :=
  if can_clone s && (word s <=? isize_max)
  then Some (set_wakers (wakers s + 1) (dropping s) (set_word (word s + REFERENCE) s))
  else None.

(** [wake], up to the drop of a waker that is not made the runnable. *)
Definition wake (s : Task) : option Task :=
  if 0 <? wakers s then
    let w := word s in
    if ended_word w then Some (set_wakers (wakers s - 1) (dropping s + 1) s)
    else
      let s := set_word (with_ SCHEDULED w) s in
      Some (if idle_word w
            then schedule (set_wakers (wakers s - 1) (dropping s) s)
            else set_wakers (wakers s - 1) (dropping s + 1) s)
  else None.

Definition wake_by_ref (s : Task) : option Task :=
  if (0 <? wakers s) || (match rn s with RPolling => true | _ => false end) then
    let w := word s in
    if ended_word w then Some s
    else if idle_word w then
      if w <=? isize_max
      then Some (schedule (set_word (with_ SCHEDULED w + REFERENCE) s)) else None
    else Some (set_word (with_ SCHEDULED w) s)
  else None.

(** [drop_waker], of a waker or of one [wake] spent; and the store of the last
    one. *)
Definition drop_waker (spent : bool) (s : Task) : option Task :=
  if if spent then 0 <? dropping s else 0 <? wakers s then
    let s := if spent then set_wakers (wakers s) (dropping s - 1) s
             else set_wakers (wakers s - 1) (dropping s) s in
    let new := word s - REFERENCE in
    let s := set_word new s in
    Some (if no_refs new && negb (has TASK new) then
            if ended_word new then destroy s else set_last true s
          else s)
  else None.

Definition store_last (s : Task) : option Task :=
  if last s
  then Some (schedule (set_last false (set_word (Z.lor (Z.lor SCHEDULED CLOSED) REFERENCE) s)))
  else None.

(** [AbortHandle::abort]: [cancel] by a holder of a waker's reference. *)
Definition abort (s : Task) : option Task :=
  if 0 <? wakers s then
    match close s with
    | None => Some s
    | Some (aw, s) =>
        if aw : bool then
          let s := set_wakers (wakers s - 1) (dropping s) s in
          Some (match kn s with KNone => set_cancel KNotify s | _ => set_bad true s end)
        else Some s
    end
  else None.

Definition abort_next (s : Task) : option Task :=
  let w := word s in
  let done s := set_wakers (wakers s + 1) (dropping s) (set_cancel KNone s) in
  match kn s with
  | KNone => None
  | KNotify =>
      let s := set_word (with_ NOTIFYING w) s in
      Some (if free_cell w then set_cancel KHold s else done s)
  | KHold => Some (set_cancel (KTook (cell s)) (set_cell None s))
  | KTook aw => Some (wake_awaiter aw (done (set_word (without (Z.lor NOTIFYING AWAITER) w) s)))
  end.

(** [close_listed], by the walk of the shard's list at shutdown: a listed task
    is one whose future is live. *)
Definition walk (s : Task) : option Task :=
  match core s with
  | CFuture => match close s with Some (_, s) => Some s | None => Some s end
  | _ => None
  end.

(** ** Everybody's steps *)

Inductive Label : Type :=
| LRun
| LDropRunnable
| LPending
| LReady (panicked : bool)
| LNext (panics : bool)
| LClaim
| LClone
| LWake
| LWakeByRef
| LDropWaker (spent : bool)
| LStoreLast
| LAbort
| LAbortNext
| LPoll (w : Waker)
| LHandle (budget : bool)
| LCancel
| LDetach
| LDropHandle
| LWalk.

Definition act (l : Label) (s : Task) : option Task :=
  match l with
  | LRun => match rn s with RRunnable => Some (run_start s) | _ => None end
  | LDropRunnable => match rn s with RRunnable => Some (runnable_dropped s) | _ => None end
  | LPending => match rn s with RPolling => Some (set_run RPend s) | _ => None end
  | LReady p => match rn s with RPolling => Some (set_run (RReady p) s) | _ => None end
  | LNext q => run_next q s
  | LClaim => match rn s with RComplete p NotClaimed _ u => Some (claim p u s) | _ => None end
  | LClone => clone_waker s
  | LWake => wake s
  | LWakeByRef => wake_by_ref s
  | LDropWaker spent => drop_waker spent s
  | LStoreLast => store_last s
  | LAbort => abort s
  | LAbortNext => abort_next s
  | LPoll x => match hd s with HIdle => Some (set_asleep None (set_handle (HPoll x) s)) | _ => None end
  | LHandle b => handle_next b s
  | LCancel => match hd s with HIdle => Some (set_handle (HCancel false) s) | _ => None end
  | LDetach => match hd s with HIdle => Some (set_asleep None (set_handle HDetach s)) | _ => None end
  | LDropHandle => match hd s with HIdle => Some (drop_handle (set_asleep None s)) | _ => None end
  | LWalk => walk s
  end.

(** Every step works on the task's memory. *)
Definition step (l : Label) (s : Task) : option Task :=
  s' ← act l s;
  Some (if freed s then set_bad true s' else s').

Fixpoint steps (ls : list Label) (s : Task) : option Task :=
  match ls with
  | [] => Some s
  | l :: ls => s ← step l s; steps ls s
  end.

(** ** The window of the last reference

    The last reference to a task whose future is live is given up in two steps:
    the count is brought to none, and then the task is scheduled once more
    ([drop_waker]) or its future dropped (the run's [settle]), to let the
    future go. In between nobody holds the task, yet it is listed and open. *)
Definition unheld (s : Task) : bool := last s || match rn s with RUnawaited => true | _ => false end.

(** No walk of [ls] falls in that window. *)
Fixpoint walks_apart (ls : list Label) (s : Task) : bool :=
  match ls with
  | [] => true
  | l :: ls =>
      negb (match l with LWalk => unheld s | _ => false end) &&
      match step l s with Some s => walks_apart ls s | None => true end
  end.
