(* ===== verification/TaskInv.v ===== *)
(** * What holds of a task between any two operations

    The invariant of the transition system of [Task]: who holds references,
    what the memory holds at each point of the run, who may touch the awaiter's
    cell, and where the waker of a sleeping handle is. *)

From S2P Require Import Prelude TaskWord Task.
Open Scope Z_scope.

#[global] Arguments enc : simpl never.
#[global] Arguments has : simpl never.
#[global] Arguments with_ : simpl never.
#[global] Arguments without : simpl never.
#[global] Arguments no_refs : simpl never.
#[global] Arguments bool_decide : simpl never.
#[global] Arguments Z.add : simpl never.
#[global] Arguments Z.sub : simpl never.

(** ** Life *)

(** The reference of the run, and of an abort handle that cancels. *)
Definition run_ref (r : Run) : Z := match r with RNone | RUnawaited => 0 | _ => 1 end.
Definition cancel_ref (k : Cancel) : Z := match k with KNone => 0 | _ => 1 end.

(** The handle closed the completed task and has the output to read. *)
Definition reading (h : Handle) : bool :=
  match h with
  | HRead | HDetachRead | HNotify _ TRead | HHold _ TRead | HTook _ _ TRead => true
  | _ => false
  end.

Definition has_handle (h : Handle) : bool := match h with HGone => false | _ => true end.

(** The flags of a task that is being ended before its future is dropped. *)
Definition ending_flags (e : Ending) (w : Word) : Prop :=
  match e with
  | EQueued => sch w = false /\ run w = true
  | EClosed => run w = true
  | EDropped => sch w = true /\ run w = false
  end.

(** The memory of a task nobody runs. *)
Definition rest_ok (w : Word) (c : Core) (h : Handle) : Prop :=
  sch w = false /\ run w = false /\
  match c with
  | CFuture => com w = false /\ clo w = false /\ reading h = false
  | COutput _ => com w = true /\ tas w = true /\ clo w = reading h
  | CEmpty => clo w = true /\ reading h = false
  end.

(** The flags and the memory at each point of the run. *)
Definition stage_ok (w : Word) (c : Core) (r : Run) (h : Handle) : Prop :=
  match r with
  | RNone => rest_ok w c h
  | RTake _ | RHold _ | RTook _ _ | RDropRef _ => rest_ok w c h /\ c <> CFuture
  | RRunnable => sch w = true /\ run w = false /\ com w = false /\ c = CFuture /\ reading h = false
  | RPolling | RPend | RReady _ => run w = true /\ com w = false /\ c = CFuture /\ reading h = false
  | RComplete p _ _ u =>
      run w = true /\ com w = false /\ reading h = false /\
      match u with
      | UKept => c = COutput p
      | UTaken => c = CEmpty /\ tas w = false
      | UDropped => c = CEmpty /\ clo w = true /\ p = false
      end
  | RDropFuture e => clo w = true /\ com w = false /\ c = CFuture /\ reading h = false /\ ending_flags e w
  | RSettle e q =>
      clo w = true /\ com w = false /\ c = (if q then COutput true else CEmpty) /\
      reading h = false /\ ending_flags e w
  | RUnawaited =>
      refs w = 0 /\ tas w = false /\ rest_ok w c h /\ c = CFuture
  | RUnawaitedDrop =>
      sch w = false /\ run w = false /\ com w = false /\ clo w = true /\ tas w = false /\ c = CFuture /\
      reading h = false
  | RUnawaitedEnd =>
      sch w = false /\ run w = false /\ com w = false /\ clo w = true /\ tas w = false /\ c = CEmpty /\
      reading h = false
  end.

(** Who is left: nobody of a freed task, and only the last waker's drop, or the
    end of the run, of a task with no reference and no handle. *)
Definition left_ok (w : Word) (c : Core) (r : Run) (freed last : bool) : Prop :=
  match freed, last with
  | true, true => False
  | true, false => refs w = 0 /\ tas w = false /\ r = RNone /\ c = CEmpty
  | false, true => refs w = 0 /\ tas w = false /\ r = RNone /\ c = CFuture
  | false, false => refs w <> 0 \/ tas w = true \/ r = RUnawaited
  end.

Record life (w : Word) (s : Task) : Prop := {
  life_bad : bad s = false;
  life_refs : refs w = wakers s + dropping s + run_ref (rn s) + cancel_ref (kn s);
  life_counts : 0 <= wakers s /\ 0 <= dropping s;
  life_handle : tas w = has_handle (hd s);
  life_stage : stage_ok w (core s) (rn s) (hd s);
  life_left : left_ok w (core s) (rn s) (freed s) (last s);
  life_cancel : kn s <> KNone -> com w = true \/ clo w = true;
  life_output : outputs s = 0 \/ outputs s = 1 /\ core s = CEmpty /\ com w = true /\ clo w = true
}.

(** A freed task has no word. *)
Definition alive (s : Task) : Prop := exists w, (freed s = false -> word s = enc w) /\ life w s.

Lemma cancel_ref_range k : 0 <= cancel_ref k <= 1.
Proof. destruct k; simpl; lia. Qed.

(** ** Automation *)

(** Computes a test of one mask in another. *)
Ltac eval_masks :=
  repeat match goal with
  | |- context [has ?a ?b] =>
      let v := eval vm_compute in (has a b) in
      match v with true => change (has a b) with true | false => change (has a b) with false end
  end.

(** Opens a task that is not freed, and its word, into their parts. *)
Ltac open_task H :=
  match type of H with alive ?s =>
    destruct s as [word0 core0 cell0 stored0 freed0 bad0 rn0 hd0 kn0 wakers0 dropping0 last0 woken0 asleep0 outputs0]
  end;
  destruct H as ([sch0 run0 com0 clo0 tas0 awa0 reg0 ntf0 refs0] & Hw & [Hbad Hrefs [Hwk Hdr] Hhd Hst Hleft Hkn Hout]);
  unfold left_ok in *; simpl in *;
  match goal with _ : _ = _ + cancel_ref ?k |- _ => pose proof (cancel_ref_range k) end;
  intros ->;
  match goal with Hw : _ -> ?x = enc _ |- _ => pose proof (Hw eq_refl); clear Hw; subst x end;
  match goal with Hb : ?b = false, _ : _ = has_handle _ |- _ => is_var b; subst b end.

(** Computes the new word of a step. *)
Ltac word_norm :=
  autorewrite with word; unfold set_flags, clear_flags, set_refs; cbn [sch run com clo tas awa reg ntf refs];
  eval_masks; cbn [orb andb negb].

(** Spends what is known of the flags and of the memory. *)
Ltac flags_case :=
  simpl in *;
  repeat (match goal with
  | H : _ /\ _ |- _ => destruct H
  | H : ?x = true |- _ => is_var x; destruct x; [clear H | discriminate H]
  | H : ?x = false |- _ => is_var x; destruct x; [discriminate H | clear H]
  | H : ?x = CFuture |- _ => is_var x; subst x
  | H : ?x = CEmpty |- _ => is_var x; subst x
  | H : ?x = COutput _ |- _ => is_var x; subst x
  | H : CFuture <> CFuture |- _ => destruct (H eq_refl)
  end; simpl in *).

(** Cases on what the memory holds. *)
Ltac mem_case :=
  repeat (match goal with
  | H : match ?c with CFuture => _ | COutput _ => _ | CEmpty => _ end |- _ => is_var c; destruct c
  | H : match ?u with UKept => _ | UTaken => _ | UDropped => _ end |- _ => is_var u; destruct u
  end; flags_case).

(** Takes the tests of a step apart. *)
Ltac step_tests :=
  word_norm; simpl;
  repeat (match goal with
          | |- context [?a =? ?b] => destruct (Z.eqb_spec a b)
          | |- context [if ?b then _ else _] => is_var b; destruct b
          | |- context [?b && _] => is_var b; destruct b
          | |- context [?b || _] => is_var b; destruct b
          | |- context [negb ?b] => is_var b; destruct b
          end; word_norm; simpl).

(** Closes a step once its new word is known. *)
Ltac settle_life :=
  flags_case; mem_case; try discriminate;
  eexists; (split; [intros _; reflexivity |]); constructor; simpl; unfold left_ok, rest_ok in *; simpl in *;
  try (split_and?; intros; first [congruence | lia | tauto | intuition (congruence || lia)]).

Lemma freed_stuck l s : alive s -> freed s = true -> act l s = None.
Proof.
  intros (w & _ & [_ Hrefs [Hwk Hdr] Hhd _ Hleft _ _]) Hf. unfold left_ok in Hleft.
  destruct s as [word0 core0 cell0 stored0 freed0 bad0 rn0 hd0 kn0 wakers0 dropping0 last0 ? ? ?]; simpl in *. subst.
  destruct last0; [done |]. destruct Hleft as (Hr & Ht & -> & ->). rewrite Ht in Hhd. rewrite Hr in Hrefs.
  destruct hd0; try done. destruct kn0; simpl in Hrefs; [| lia ..].
  assert (wakers0 = 0) as -> by lia. assert (dropping0 = 0) as -> by lia.
  destruct l as [| | | | | | | | |[]| | | | | | | | |]; done.
Qed.

Lemma add_woken_alive x s : alive s -> alive (add_woken x s).
Proof. intros (w & Hw & []). exists w. split; [done |]. by constructor. Qed.

Lemma wake_awaiter_alive aw s : alive s -> alive (wake_awaiter aw s).
Proof. destruct aw; [apply add_woken_alive | done]. Qed.

(** ** The run *)

(** The word [complete] leaves. *)
Lemma enc_completed p c w :
  completed_word p c (enc w) =
  enc {| sch := false; run := false; com := true;
         clo := if tas w then negb p && clo w else true; tas := tas w;
         awa := match c with Claimed => false | _ => awa w end; reg := reg w;
         ntf := match c with Claimed => false | _ => ntf w end; refs := refs w - 1 |}.
Proof.
  unfold completed_word. rewrite has_task. rewrite enc_clear, enc_set by reflexivity.
  destruct (tas w) eqn:Ht, p, c; simpl;
    repeat rewrite ?enc_clear, ?enc_set by reflexivity; rewrite enc_unref;
    unfold set_refs; simpl; by rewrite Ht.
Qed.

Lemma claim_alive p aw u s :
  alive s -> freed s = false -> rn s = RComplete p NotClaimed aw u -> alive (claim p u s).
Proof.
  intros H. open_task H. intros ->. destruct last0; [by destruct Hleft as (_ & _ & ? & _) |].
  unfold claim, free_cell. simpl. autorewrite with word. simpl.
  destruct (negb (ntf0 || reg0)); settle_life.
Qed.

Lemma read_unclaimed_alive p c aw u s :
  alive s -> freed s = false -> rn s = RComplete p c aw UKept ->
  (u = UTaken /\ has TASK (word s) = false \/ u = UDropped /\ p = false /\ has CLOSED (word s) = true) ->
  alive (set_run (RComplete p c aw u) (read_output s)).
Proof.
  intros H. open_task H. intros -> Hu. destruct last0; [by destruct Hleft as (_ & _ & ? & _) |].
  rewrite has_task, has_closed in Hu. simpl in *. unfold read_output. simpl. flags_case.
  destruct Hu as [[-> ->] | (-> & -> & ->)]; settle_life.
Qed.

Lemma completed_alive p c aw u s :
  alive s -> freed s = false -> rn s = RComplete p c aw u ->
  (u = UKept -> has TASK (word s) = true /\ negb p && has CLOSED (word s) = false) ->
  let new := completed_word p c (word s) in
  let s := set_run RNone (set_word new s) in
  alive (if no_refs new && negb (has TASK new) then destroy s else s).
Proof.
  intros H. open_task H. intros -> Hu. destruct last0; [by destruct Hleft as (_ & _ & ? & _) |].
  rewrite has_task, has_closed in Hu. cbn [word]. rewrite enc_completed, enc_no_refs, has_task. simpl in *.
  destruct (Z.eqb_spec (refs0 - 1) 0), tas0, u; simpl in *; flags_case;
    try (destruct (Hu eq_refl) as [? Hc]; try rewrite Hc); try done; settle_life.
Qed.

Lemma publish_alive p c aw u s :
  alive s -> freed s = false -> rn s = RComplete p c aw u -> alive (publish p c aw u s).
Proof.
  intros H Hf Hr. unfold publish. destruct u; [| apply wake_awaiter_alive; by eapply completed_alive ..].
  destruct (has TASK _) eqn:Ht; simpl; [| eapply read_unclaimed_alive; eauto].
  destruct (negb p && _) eqn:Hn.
  - apply andb_true_iff in Hn as [Hp Hn]. destruct p; [done |]. eapply read_unclaimed_alive; eauto.
  - apply wake_awaiter_alive. by eapply completed_alive.
Qed.

Lemma complete_alive p c aw u s :
  alive s -> freed s = false -> rn s = RComplete p c aw u -> alive (complete p c aw u s).
Proof.
  intros H Hf Hr. destruct c; simpl; [| | by apply publish_alive].
  - destruct (_ && _); [by eapply claim_alive | by apply publish_alive].
  - revert H Hf Hr. intros H. open_task H. intros ->.
    destruct last0; [by destruct Hleft as (_ & _ & ? & _) |]. settle_life.
Qed.

Lemma run_next_alive q s s' : alive s -> freed s = false -> run_next q s = Some s' -> alive s'.
Proof.
  intros H. destruct (rn s) eqn:Hr; unfold run_next; rewrite Hr; try done.
  all: try (intros ? [= <-]; by apply complete_alive).
  all: open_task H; intros [= <-]; subst rn0;
    (destruct last0; [by destruct Hleft as (_ & _ & Hr & _) |]);
    simpl in Hst; unfold rest_ok in *; flags_case;
    unfold output_made, end_drop, take_start, take_cell, take_end, unawaited_close, unawaited_drop, unawaited_end;
    unfold settle_pending, settle, settled_word, drop_ref, drop_future, read_output, free_cell, ended_word, destroy; simpl.
  - step_tests; settle_life.
  - step_tests; settle_life.
  - step_tests; settle_life.
  - destruct e, panicked; simpl in *; flags_case; step_tests; settle_life.
  - step_tests; settle_life.
  - settle_life.
  - destruct e; try apply wake_awaiter_alive; step_tests; settle_life.
  - apply wake_awaiter_alive. destruct core0; flags_case; step_tests; settle_life.
  - rewrite enc_end by done. settle_life.
  - settle_life.
  - step_tests; settle_life.
Qed.
