(* ===== verification/TaskLife.v ===== *)
(** * A task's life is safe

    The invariant of [TaskInv] through the steps of the handle, the wakers and
    the walk, and what follows for every run of the system. *)

From S2P Require Import Prelude TaskWord Task TaskInv.
Open Scope Z_scope.

(** ** The handle *)

(** What [close] leaves alone. *)
Lemma close_frame b s s' :
  close s = Some (b, s') ->
  freed s' = freed s /\ last s' = last s /\ hd s' = hd s /\ kn s' = kn s /\
  wakers s' = wakers s /\ dropping s' = dropping s.
Proof.
  unfold close, schedule. destruct (ended_word _); [done |]. intros [= <- <-].
  destruct (idle_word _); [| done]. simpl. by destruct (rn s).
Qed.

Lemma close_alive b s s' :
  alive s -> freed s = false -> last s = false -> rn s <> RUnawaited -> close s = Some (b, s') ->
  alive s' /\ has CLOSED (word s') = true.
Proof.
  intros H. open_task H. intros -> Hn. unfold close, ended_word, idle_word, schedule. simpl.
  rewrite has_completed, has_closed, has_scheduled, has_running, has_awaiter.
  destruct rn0; simpl in *; unfold rest_ok in *; flags_case; try done; destruct clo0; simpl; try done.
  all: step_tests; try done; intros [= <- <-]; (split; [settle_life | simpl; by autorewrite with word]).
Qed.

(** What the life of a task depends on: not the flags and the cell of the
    awaiter, nor where exactly the handle is. *)
Definition life_view (w : Word) (s : Task) :=
  (sch w, run w, com w, clo w, tas w, refs w, core s, freed s, bad s, rn s, has_handle (hd s),
   reading (hd s), kn s, wakers s, dropping s, last s, outputs s).

Lemma stage_reading w c r h h' : reading h = reading h' -> stage_ok w c r h -> stage_ok w c r h'.
Proof. intros Hr. destruct r; simpl; unfold rest_ok; by rewrite Hr. Qed.

Lemma stage_flags w w' c r h :
  (sch w, run w, com w, clo w, tas w, refs w) = (sch w', run w', com w', clo w', tas w', refs w') ->
  stage_ok w c r h -> stage_ok w' c r h.
Proof.
  intros [= H1 H2 H3 H4 H5 H6]. destruct r; simpl; unfold rest_ok, ending_flags; by rewrite ?H1, ?H2, ?H3, ?H4, ?H5, ?H6.
Qed.

Lemma life_ext w w' s s' : life_view w s = life_view w' s' -> life w s -> life w' s'.
Proof.
  intros [= H1 H2 H3 H4 H5 H6 H7 H8 H9 H10 H11 H12 H13 H14 H15 H16 H17] [Hb Hrefs Hc Hh Hst Hl Hk Ho].
  constructor; unfold left_ok in *;
    rewrite <- ?H3, <- ?H4, <- ?H5, <- ?H6, <- ?H7, <- ?H8, <- ?H9, <- ?H10, <- ?H11, <- ?H13, <- ?H14, <- ?H15,
      <- ?H16, <- ?H17; try done.
  eapply stage_reading, stage_flags, Hst; congruence.
Qed.

(** A step that changes none of it. *)
Lemma alive_quiet s s' :
  alive s -> word s' = word s -> (forall w, life_view w s' = life_view w s) -> alive s'.
Proof.
  intros (w & Hw & Hl) Hw' Hv. exists w. split.
  { intros Hf. rewrite Hw'. apply Hw. assert (Hv' := Hv w). unfold life_view in Hv'. congruence. }
  by eapply life_ext; [symmetry; apply Hv |].
Qed.

(** The masks of the awaiter's flags. *)
Definition awaiter_mask (bits : Z) : bool :=
  is_mask bits && negb (has SCHEDULED bits || has RUNNING bits || has COMPLETED bits || has CLOSED bits || has TASK bits).

Lemma awaiter_flags_set bits s :
  awaiter_mask bits = true -> alive s -> alive (set_word (with_ bits (word s)) s).
Proof.
  intros [Hm Hb%negb_true_iff]%andb_true_iff (w & Hw & Hl). exists (set_flags bits w). simpl.
  split; [intros Hf; rewrite (Hw Hf); by apply enc_set | eapply life_ext, Hl]. rewrite !orb_false_iff in Hb.
  destruct Hb as ((((H1 & H2) & H3) & H4) & H5). unfold life_view. simpl. by rewrite H1, H2, H3, H4, H5.
Qed.

Lemma awaiter_flags_clear bits s :
  awaiter_mask bits = true -> alive s -> alive (set_word (without bits (word s)) s).
Proof.
  intros [Hm Hb%negb_true_iff]%andb_true_iff (w & Hw & Hl). exists (clear_flags bits w). simpl.
  split; [intros Hf; rewrite (Hw Hf); by apply enc_clear | eapply life_ext, Hl]. rewrite !orb_false_iff in Hb.
  destruct Hb as ((((H1 & H2) & H3) & H4) & H5). unfold life_view. simpl. by rewrite H1, H2, H3, H4, H5.
Qed.

Lemma handle_moves h s :
  alive s -> has_handle h = has_handle (hd s) -> reading h = reading (hd s) -> alive (set_handle h s).
Proof.
  intros (w & Hw & Hl) Hh Hr. exists w. split; [done |]. eapply life_ext; [| exact Hl].
  unfold life_view. simpl. by rewrite Hh, Hr.
Qed.

(** The handle closes the completed task and has its output to itself. *)
Lemma output_claimed h s :
  alive s -> freed s = false -> has_handle (hd s) = true -> has CLOSED (word s) = false ->
  has COMPLETED (word s) = true -> reading h = true ->
  alive (set_handle h (set_word (with_ CLOSED (word s)) s)).
Proof.
  intros H. open_task H. intros Hh. rewrite has_closed, has_completed. simpl. intros -> -> Hr.
  assert (has_handle h = true) by (by destruct h). rewrite Hh in *.
  destruct rn0, last0; simpl in *; unfold rest_ok in *; flags_case; mem_case; try done; word_norm; settle_life.
Qed.

(** And reads it. *)
Lemma output_read h n s :
  alive s -> freed s = false -> reading (hd s) = true -> has_handle h = true -> reading h = false ->
  n = outputs s \/ n = outputs s + 1 ->
  alive (set_handle h (set_outputs n (read_output s))).
Proof.
  intros H. open_task H. intros Hr Hh Hh' Hn. assert (has_handle hd0 = true) as Ht by (by destruct hd0).
  rewrite Ht in *. destruct rn0, last0; simpl in *; unfold rest_ok in *; flags_case; mem_case; try congruence;
    try (rewrite Hr in *; subst); unfold read_output; settle_life.
Qed.

Lemma poll_raw_alive b x s : alive s -> freed s = false -> hd s = HPoll x -> alive (poll_raw b x s).
Proof.
  intros H Hf Hh. unfold poll_raw.
  destruct (has CLOSED _) eqn:Hc; [| destruct (has COMPLETED _) eqn:Hm].
  all: repeat case_match; try apply add_woken_alive; try (by apply handle_moves; rewrite ?Hh).
  all: apply output_claimed; by rewrite ?Hh.
Qed.

Lemma schedule_frame s : freed (schedule s) = freed s /\ kn (schedule s) = kn s.
Proof. unfold schedule. by destruct (rn s). Qed.

(** The handle lets go. *)
Lemma set_detached_alive s : alive s -> freed s = false -> hd s = HDetach -> alive (set_detached s).
Proof.
  intros H Hf Hh. unfold set_detached. destruct (has COMPLETED _ && _) eqn:Hc.
  - apply andb_true_iff in Hc as [Hc Hn%negb_true_iff]. apply output_claimed; by rewrite ?Hh.
  - revert H Hf Hh Hc. intros H. open_task H. intros ->. rewrite has_completed, has_closed, enc_no_refs.
    simpl in *. destruct last0; [destruct Hleft as (_ & ? & _); congruence |]. intros Hc.
    unfold schedule, destroy. simpl in *.
    destruct (Z.eqb_spec refs0 0) as [-> |].
    + destruct rn0, kn0; simpl in *; try lia; unfold rest_ok in *; flags_case; mem_case; try done; simpl.
      * change (Z.lor _ REFERENCE) with (enc (fresh_word true true false 1)). settle_life.
      * word_norm. settle_life.
    + simpl. word_norm. destruct rn0; simpl in *; unfold rest_ok in *; flags_case; try done; settle_life.
Qed.

(** A task somebody holds is not the one its last holder ends. *)
Lemma held s :
  alive s -> freed s = false -> has_handle (hd s) = true \/ 0 < wakers s + dropping s ->
  last s = false /\ rn s <> RUnawaited.
Proof.
  intros H. open_task H. intros Hh. split; [| intros ->].
  - destruct last0; [| done]. destruct Hleft as (? & ? & ? & _). subst rn0. simpl in *. lia || intuition (congruence || lia).
  - simpl in *. destruct Hst as (? & ? & _). intuition (congruence || lia).
Qed.

Lemma told_alive t s :
  alive s -> has_handle (hd s) = true -> reading (hd s) = match t with TRead => true | _ => false end ->
  alive (told t s).
Proof.
  intros H Hh Hr. destruct t as [| | []]; simpl; apply handle_moves; rewrite ?Hh, ?Hr; done.
Qed.

Lemma handle_cancel_alive d s : alive s -> freed s = false -> hd s = HCancel d -> alive (handle_cancel d s).
Proof.
  intros H Hf Hh. unfold handle_cancel.
  destruct (close s) as [[[] s'] |] eqn:Hc.
  1, 2: destruct (close_frame _ _ _ Hc) as (Hf' & Hl' & Hh' & _).
  1, 2: destruct (held _ H Hf ltac:(left; by rewrite Hh)) as [Hl Hn]; destruct (close_alive _ _ _ H Hf Hl Hn Hc) as [H' _].
  - apply handle_moves; by rewrite ?Hh', ?Hh.
  - apply told_alive; by rewrite ?Hh', ?Hh.
  - apply told_alive; by rewrite ?Hh.
Qed.

(** [register]'s exchanges. *)
Lemma register_alive x a s : alive s -> hd s = HRegister x a -> alive (register x a s).
Proof.
  intros H Hh. unfold register. destruct (has NOTIFYING _).
  - assert (alive (set_asleep (Some x) (set_handle (HLook x a) s))) as H'.
    { eapply alive_quiet; [exact H | done |]. intros w. unfold life_view. simpl. by rewrite Hh. }
    destruct (_ || _); [by apply add_woken_alive | done].
  - apply handle_moves; simpl; [by apply awaiter_flags_set | by rewrite Hh ..].
Qed.

Lemma registered_alive x a s : alive s -> hd s = HStored x a -> alive (registered x a s).
Proof.
  intros H Hh. unfold registered. apply wake_awaiter_alive.
  set (missed := if has NOTIFYING (word s) then cell s else None).
  apply (alive_quiet (set_word (match missed with
    | None => with_ AWAITER (without (Z.lor NOTIFYING REGISTERING) (word s))
    | Some _ => without (Z.lor (Z.lor NOTIFYING REGISTERING) AWAITER) (word s)
    end) s)).
  - destruct missed; [by apply awaiter_flags_clear |].
    apply (awaiter_flags_set AWAITER (set_word (without (Z.lor NOTIFYING REGISTERING) (word s)) s)); [done |].
    by apply awaiter_flags_clear.
  - done.
  - intros w. unfold life_view. destruct (has NOTIFYING _); simpl; by rewrite Hh.
Qed.

(** The awaiter's notification by the handle. *)
Lemma told_after_alive bits t s :
  awaiter_mask bits = true -> alive s -> has_handle (hd s) = true ->
  reading (hd s) = match t with TRead => true | _ => false end ->
  alive (told t (set_word (without bits (word s)) s)) /\ alive (told t (set_word (with_ bits (word s)) s)).
Proof.
  intros Hb H Hh Hr. split; apply told_alive; simpl; try done;
    [by apply awaiter_flags_clear | by apply awaiter_flags_set].
Qed.

Lemma handle_next_alive b s s' : alive s -> freed s = false -> handle_next b s = Some s' -> alive s'.
Proof.
  intros H Hf. destruct (hd s) eqn:Hh; unfold handle_next; rewrite Hh; try done; intros [= <-].
  - by apply poll_raw_alive.
  - by apply register_alive.
  - eapply alive_quiet; [exact H | done |]. intros ?. unfold life_view. simpl. by rewrite Hh.
  - by apply registered_alive.
  - unfold look_again. repeat case_match; (eapply alive_quiet; [exact H | done |]); intros ?; unfold life_view; simpl; by rewrite Hh.
  - destruct (free_cell _).
    + apply handle_moves; simpl; [by apply awaiter_flags_set | by rewrite Hh ..].
    + apply told_after_alive; by rewrite ?Hh.
  - eapply alive_quiet; [exact H | done |]. intros ?. unfold life_view. simpl. by rewrite Hh.
  - assert (alive (told t (set_word (without (Z.lor NOTIFYING AWAITER) (word s)) s))).
    { apply told_after_alive; by rewrite ?Hh. }
    repeat case_match; try apply add_woken_alive; try apply wake_awaiter_alive; done.
  - apply output_read; try done; [by rewrite Hh | by right].
  - by apply handle_cancel_alive.
  - by apply set_detached_alive.
  - apply (alive_quiet (set_handle HDetach (set_outputs (outputs s) (read_output s)))); [| done |].
    + apply output_read; try done; [by rewrite Hh | by left].
    + intros ?. unfold life_view, read_output. simpl. by destruct (core s).
Qed.

(** [Task]'s drop, and its shortcut: a word that equals its mask. *)
Lemma word_alone w : enc w = Z.lor (Z.lor COMPLETED CLOSED) TASK ->
  sch w = false /\ run w = false /\ com w = true /\ clo w = true /\ tas w = true /\ refs w = 0.
Proof.
  intros H. assert (refs w = 0) as Hn.
  { pose proof (flags_range w) as Hr. unfold enc in H. change (Z.lor _ _) with 28 in H. lia. }
  change (Z.lor _ _) with (enc {| sch := false; run := false; com := true; clo := true; tas := true;
    awa := false; reg := false; ntf := false; refs := 0 |}) in H.
  pose proof (has_scheduled w) as H1. pose proof (has_running w) as H2. pose proof (has_completed w) as H3.
  pose proof (has_closed w) as H4. pose proof (has_task w) as H5. rewrite H in *.
  autorewrite with word in H1, H2, H3, H4, H5. simpl in *.
  split_and!; congruence.
Qed.

Lemma drop_handle_alive s : alive s -> freed s = false -> hd s = HIdle -> alive (drop_handle s).
Proof.
  intros H Hf Hh. unfold drop_handle. destruct (Z.eqb_spec (word s) (Z.lor (Z.lor COMPLETED CLOSED) TASK)) as [E |].
  - revert H Hf Hh E. intros H. open_task H. intros -> E%word_alone.
    simpl in *. destruct E as (-> & -> & -> & -> & -> & ->). destruct rn0, kn0; simpl in *; try lia; unfold rest_ok in *; flags_case; mem_case; try done.
    destruct last0; [by destruct Hleft as (_ & ? & _) |].
    exists (set_flags COMPLETED (fresh_word false true false 0)). split; [done |].
    constructor; simpl; unfold rest_ok; simpl; try done; tauto || lia.
  - apply handle_moves; by rewrite ?Hh.
Qed.

(** ** The wakers *)

Lemma can_clone_held s :
  alive s -> freed s = false -> can_clone s = true -> last s = false /\ rn s <> RUnawaited.
Proof.
  intros H Hf Hc. unfold can_clone in Hc. rewrite !orb_true_iff in Hc.
  destruct Hc as [[Hc%Z.ltb_lt | Hc] | Hc].
  - apply held; try done. right. destruct H as (w & _ & []). lia.
  - split; [| by destruct (rn s)]. revert H Hf Hc. intros H. open_task H. intros Hc.
    destruct last0; [| done]. by destruct Hleft as (_ & _ & -> & _).
  - apply held; try done. left. by destruct (hd s).
Qed.

Lemma clone_waker_alive s s' : alive s -> freed s = false -> clone_waker s = Some s' -> alive s'.
Proof.
  intros H Hf. unfold clone_waker. destruct (can_clone s) eqn:Hc; [| done].
  destruct (can_clone_held _ H Hf Hc) as [Hl Hn]. clear Hc. revert H Hf Hl Hn. intros H. open_task H. intros -> Hn.
  destruct (_ <=? _); [| done]. intros [= <-]. word_norm. destruct rn0; simpl in *; settle_life.
Qed.

Lemma wake_alive s s' : alive s -> freed s = false -> wake s = Some s' -> alive s'.
Proof.
  intros H Hf. unfold wake. destruct (Z.ltb_spec 0 (wakers s)) as [Hp |]; [| done].
  destruct (held _ H Hf) as [Hl Hn]; [right; destruct H as (w & _ & []); lia |].
  revert H Hf Hl Hn Hp. intros H. open_task H. intros -> Hn Hp. unfold ended_word, idle_word, schedule. simpl.
  rewrite has_completed, has_closed, has_scheduled, has_running.
  destruct rn0; simpl in *; unfold rest_ok in *; flags_case; mem_case; try done.
  all: step_tests; try done; intros [= <-]; settle_life.
Qed.

Lemma wake_by_ref_alive s s' : alive s -> freed s = false -> wake_by_ref s = Some s' -> alive s'.
Proof.
  intros H Hf. unfold wake_by_ref. destruct ((0 <? wakers s) || _) eqn:Hc; [| done].
  assert (last s = false /\ rn s <> RUnawaited) as [Hl Hn].
  { apply can_clone_held; try done. unfold can_clone. apply orb_true_iff in Hc as [-> | Hc]; [done |].
    by destruct (rn s); try done; rewrite orb_true_r. }
  clear Hc. revert H Hf Hl Hn. intros H. open_task H. intros -> Hn. unfold ended_word, idle_word, schedule. simpl.
  rewrite has_completed, has_closed, has_scheduled, has_running. destruct (_ <=? _).
  all: destruct rn0; simpl in *; unfold rest_ok in *; flags_case; mem_case; try done.
  all: step_tests; try done; intros [= <-]; settle_life.
Qed.

Lemma drop_waker_alive b s s' : alive s -> freed s = false -> drop_waker b s = Some s' -> alive s'.
Proof.
  intros H Hf. unfold drop_waker. destruct (if b then _ else _) eqn:Hc; [| done].
  destruct (held _ H Hf) as [Hl Hn].
  { right. destruct H as (w & _ & []). destruct b; apply Z.ltb_lt in Hc; lia. }
  revert H Hf Hl Hn Hc. intros H. open_task H. intros -> Hn Hc [= <-].
  unfold ended_word, destroy. destruct b; simpl in *; apply Z.ltb_lt in Hc; word_norm.
  all: destruct (Z.eqb_spec (refs0 - 1) 0) as [E |], tas0; simpl in *;
    try (destruct rn0; simpl in *; settle_life; fail).
  all: destruct rn0; simpl in *; try lia; unfold rest_ok in *; flags_case; mem_case; try done; step_tests; settle_life.
Qed.

Lemma store_last_alive s s' : alive s -> freed s = false -> store_last s = Some s' -> alive s'.
Proof.
  intros H. open_task H. unfold store_last. simpl. destruct last0; [| done]. intros [= <-].
  destruct Hleft as (-> & -> & -> & ->). destruct kn0; simpl in *; try lia. unfold rest_ok in *. flags_case.
  change (Z.lor _ REFERENCE) with (enc (fresh_word true true false 1)). unfold schedule. settle_life.
Qed.

(** ** The other cancels *)

Lemma abort_alive s s' : alive s -> freed s = false -> abort s = Some s' -> alive s'.
Proof.
  intros H Hf. unfold abort. destruct (Z.ltb_spec 0 (wakers s)) as [Hp |]; [| done].
  destruct (held _ H Hf) as [Hl Hn]; [right; destruct H as (w & _ & []); lia |].
  destruct (close s) as [[[] t] |] eqn:Hc; [| by intros [= <-]; destruct (close_alive _ _ _ H Hf Hl Hn Hc) | by intros [= <-]].
  intros [= <-]. assert (kn s = KNone) as Hk.
  { unfold close, ended_word in Hc. revert H Hf Hc. clear. intros H. open_task H. rewrite has_completed, has_closed.
    simpl in *. destruct com0, clo0; try done. destruct kn0; try done; by destruct (Hkn ltac:(done)). }
  destruct (close_frame _ _ _ Hc) as (Hf' & Hl' & _ & Hk' & Hw' & Hd').
  destruct (close_alive _ _ _ H Hf Hl Hn Hc) as [H' Hcl]. simpl. rewrite Hk', Hk.
  assert (rn t <> RUnawaited) as Hn'.
  { unfold close, schedule in Hc. destruct (ended_word _); [done |]. injection Hc as _ <-.
    destruct (idle_word _); [| done]. simpl. destruct (rn s) eqn:E; simpl; rewrite ?E; congruence. }
  rewrite Hf in Hf'. rewrite Hl in Hl'. rewrite Hk in Hk'. rewrite <- Hw' in Hp. clear - H' Hcl Hf' Hl' Hk' Hp Hn'.
  revert H' Hf' Hl' Hk' Hp Hcl Hn'. intros H. open_task H. intros -> -> Hp. rewrite has_closed. simpl. intros -> Hn.
  destruct rn0; simpl in *; settle_life.
Qed.

Lemma cancel_moves k s : alive s -> kn s <> KNone -> k <> KNone -> alive (set_cancel k s).
Proof.
  intros (w & Hw & [? Hr ? ? ? ? Hk ?]) Hs Hn. exists w. split; [done |]. constructor; simpl; try done.
  - rewrite Hr. by destruct k, (kn s).
  - auto.
Qed.

Lemma cancel_ends s :
  alive s -> kn s <> KNone -> alive (set_wakers (wakers s + 1) (dropping s) (set_cancel KNone s)).
Proof.
  intros (w & Hw & [? Hr ? ? ? ? Hk ?]) Hs. exists w. split; [done |]. constructor; simpl; try done; [| lia].
  rewrite Hr. destruct (kn s); simpl; [done | lia ..].
Qed.

Lemma abort_next_alive s s' : alive s -> abort_next s = Some s' -> alive s'.
Proof.
  intros H. unfold abort_next. destruct (kn s) eqn:Hk; [done | ..]; intros [= <-].
  - assert (alive (set_word (with_ NOTIFYING (word s)) s)) by (by apply awaiter_flags_set).
    destruct (free_cell _); [apply cancel_moves | apply (cancel_ends (set_word _ s))]; simpl; congruence || done.
  - apply cancel_moves; simpl; try congruence. by eapply alive_quiet.
  - apply wake_awaiter_alive, (cancel_ends (set_word _ s)); [by apply awaiter_flags_clear | simpl; congruence].
Qed.

(** A walk outside of the window of the last reference. *)
Lemma walk_alive s s' : alive s -> freed s = false -> unheld s = false -> walk s = Some s' -> alive s'.
Proof.
  intros H Hf [Hl Hu]%orb_false_iff. unfold walk. destruct (core s); [| done ..].
  destruct (close s) as [[b t] |] eqn:Hc; intros [= <-]; [| done].
  assert (rn s <> RUnawaited) as Hn by (intros E; by rewrite E in Hu).
  by destruct (close_alive _ _ _ H Hf Hl Hn Hc).
Qed.

Lemma run_start_alive s : alive s -> freed s = false -> rn s = RRunnable -> alive (run_start s).
Proof.
  intros H. open_task H. intros ->. unfold run_start. simpl in *. destruct last0; [by destruct Hleft as (_ & _ & ? & _) |].
  flags_case. rewrite enc_start by done. step_tests; settle_life.
Qed.

Lemma runnable_dropped_alive s : alive s -> freed s = false -> rn s = RRunnable -> alive (runnable_dropped s).
Proof.
  intros H. open_task H. intros ->. unfold runnable_dropped, ended_word. simpl in *.
  destruct last0; [by destruct Hleft as (_ & _ & ? & _) |]. flags_case. step_tests; settle_life.
Qed.

(** The poll's answer. *)
Lemma answered_alive r s :
  alive s -> freed s = false -> rn s = RPolling -> r = RPend \/ (exists p, r = RReady p) -> alive (set_run r s).
Proof.
  intros H. open_task H. intros -> Hr. simpl in *. destruct last0; [by destruct Hleft as (_ & _ & ? & _) |].
  flags_case. destruct Hr as [-> | [p ->]]; settle_life.
Qed.

(** The step is not a walk in that window. *)
Definition apart (l : Label) (s : Task) : Prop := l = LWalk -> unheld s = false.

Lemma act_alive l s s' : alive s -> freed s = false -> apart l s -> act l s = Some s' -> alive s'.
Proof.
  intros H Hf Hp. destruct l; simpl.
  - destruct (rn s) eqn:E; try done. intros [= <-]. by apply run_start_alive.
  - destruct (rn s) eqn:E; try done. intros [= <-]. by apply runnable_dropped_alive.
  - destruct (rn s) eqn:E; try done. intros [= <-]. apply answered_alive; auto.
  - destruct (rn s) eqn:E; try done. intros [= <-]. apply answered_alive; eauto.
  - by apply run_next_alive.
  - destruct (rn s) as [| | | | | ? [] ? ? | | | | | | | | |] eqn:E; try done. intros [= <-]. by eapply claim_alive.
  - by apply clone_waker_alive.
  - by apply wake_alive.
  - by apply wake_by_ref_alive.
  - by apply drop_waker_alive.
  - by apply store_last_alive.
  - by apply abort_alive.
  - by apply abort_next_alive.
  - destruct (hd s) eqn:E; try done. intros [= <-]. eapply alive_quiet; [done.. |]. intros ?. unfold life_view. simpl. by rewrite E.
  - by apply handle_next_alive.
  - destruct (hd s) eqn:E; try done. intros [= <-]. apply handle_moves; by rewrite ?E.
  - destruct (hd s) eqn:E; try done. intros [= <-]. eapply alive_quiet; [done.. |]. intros ?. unfold life_view. simpl. by rewrite E.
  - destruct (hd s) eqn:E; try done. intros [= <-]. apply drop_handle_alive; try done. by eapply alive_quiet.
  - apply walk_alive; auto.
Qed.

Lemma step_alive l s s' : alive s -> apart l s -> step l s = Some s' -> freed s = false /\ alive s'.
Proof.
  intros H Hp Hs. unfold step in Hs. destruct (act l s) as [t |] eqn:Ha; [| done]. simpl in Hs. injection Hs as <-.
  destruct (freed s) eqn:Hf; [by rewrite freed_stuck in Ha |]. split; [done |]. by eapply act_alive.
Qed.

Lemma spawned_alive : alive spawned.
Proof.
  exists (fresh_word true false true 1). split; [done |]. constructor; simpl; try done; auto; lia.
Qed.
