(* ===== verification/TaskAwait.v ===== *)
(** * The awaiter of a task

    The handle's waker lies in a cell of the task's memory that two flags
    guard: [REGISTERING] for the handle that stores, [NOTIFYING] for whoever
    takes. The invariant here says who may touch the cell, where the waker of
    a sleeping handle is, and that somebody is about to wake it once the task
    is over. *)

From S2P Require Import Prelude TaskWord Task TaskInv.
From S2P Require Import TaskLife.
Open Scope Z_scope.

(** ** Who owns the cell *)

Definition own_r (r : Run) : Z :=
  match r with RHold _ | RTook _ _ | RComplete _ (CellHeld | Claimed) _ _ => 1 | _ => 0 end.
Definition own_h (h : Handle) : Z := match h with HHold _ _ | HTook _ _ _ => 1 | _ => 0 end.
Definition own_k (k : Cancel) : Z := match k with KHold | KTook _ => 1 | _ => 0 end.
Definition owners (s : Task) : Z := own_r (rn s) + own_h (hd s) + own_k (kn s).

(** The handle stores its waker. *)
Definition storing (h : Handle) : bool := match h with HStoring _ _ | HStored _ _ => true | _ => false end.

(** What an owner took out of the cell. *)
Definition took_r (r : Run) : option (option Waker) :=
  match r with RTook _ aw | RComplete _ Claimed aw _ => Some aw | _ => None end.
Definition took_h (h : Handle) : option (option Waker) := match h with HTook aw _ _ => Some aw | _ => None end.
Definition took_k (k : Cancel) : option (option Waker) := match k with KTook aw => Some aw | _ => None end.

Definition took (s : Task) (aw : option Waker) : Prop :=
  took_r (rn s) = Some aw \/ took_h (hd s) = Some aw \/ took_k (kn s) = Some aw.
Definition untaken (s : Task) : Prop :=
  took_r (rn s) = None /\ took_h (hd s) = None /\ took_k (kn s) = None.

(** ** Who sleeps and who wakes *)

(** Where the handle is while its last poll's waker is left behind. *)
Definition may_sleep (h : Handle) : bool :=
  match h with
  | HIdle | HLook _ _ | HCancel false => true
  | HNotify None (TCancelled false) | HHold None (TCancelled false) | HTook _ None (TCancelled false) => true
  | _ => false
  end.
Definition looking (h : Handle) : bool := match h with HLook _ _ => true | _ => false end.

(** The task is over for its handle. *)
Definition over (w : Word) : bool := com w || clo w && negb (sch w || run w).

(** Somebody is about to take the awaiter, or has. *)
Definition notifier (s : Task) : Prop :=
  owners s = 1 \/ (exists e, rn s = RTake e) \/ kn s = KNotify \/ (exists c t, hd s = HNotify c t).

Record await (w : Word) (s : Task) : Prop := {
  aw_reg : reg w = storing (hd s);
  aw_own : owners s = Z.b2z (ntf w && negb (reg w));
  aw_took aw : took s aw -> cell s = None /\ (awa w = true -> aw = stored s);
  aw_cell : untaken s -> awa w = true -> cell s = stored s;
  aw_some : awa w = true -> stored s <> None;
  aw_stored x a : hd s = HStored x a -> cell s = Some x /\ stored s = Some x;
  aw_sleeps : asleep s <> None -> may_sleep (hd s) = true;
  aw_owed x : asleep s = Some x -> awa w = true /\ stored s = Some x \/ rn s = RDropRef (Some x);
  aw_told : asleep s <> None -> looking (hd s) = false -> awa w = true -> over w = true -> notifier s
}.

(** The invariants of a task that is not freed, over one word; nobody sleeps on
    a freed one. *)
Definition sound (s : Task) : Prop :=
  alive s /\ (if freed s then asleep s = None else exists w, word s = enc w /\ life w s /\ await w s).

(** ** Steps that leave the awaiter alone *)

Lemma await_frame w w' s s' :
  await w s ->
  reg w' = reg w -> ntf w' = ntf w -> awa w' = awa w ->
  hd s' = hd s -> kn s' = kn s -> cell s' = cell s -> stored s' = stored s -> asleep s' = asleep s ->
  own_r (rn s') = own_r (rn s) -> took_r (rn s') = took_r (rn s) ->
  (forall x, rn s = RDropRef (Some x) -> rn s' = rn s) ->
  (tas w = true -> awa w = true -> over w' = true ->
   over w = true /\ (forall e, rn s = RTake e -> rn s' = rn s) \/ notifier s') ->
  tas w = has_handle (hd s) ->
  await w' s'.
Proof.
  intros [H1 H2 H3 H4 H5 H6 H7 H8 H9] Er En Ea Eh Ek Ec Es El Eo Et Ed Ev Ht.
  constructor; unfold owners, took, untaken in *; rewrite ?Er, ?En, ?Ea, ?Eh, ?Ek, ?Ec, ?Es, ?El, ?Eo, ?Et; try done.
  - intros x Hx. destruct (H8 x Hx) as [? | Hd]; [by left |]. right. by rewrite (Ed x Hd).
  - intros Hs Hl Ha Ho. destruct Ev as [[Ho' Hr] | He]; try done.
    + rewrite Ht. specialize (H7 Hs). by destruct (hd s).
    + unfold notifier, owners. rewrite Eh, Ek, Eo. destruct (H9 Hs Hl Ha Ho') as [? | [[e He] | ?]]; [by left | | by right; right].
      right; left. exists e. by rewrite (Hr e He).
Qed.

(** The part of the state a step of the run or of a waker leaves alone. *)
Definition flags_view (w : Word) := (awa w, reg w, ntf w).
Definition awaiter_view (s : Task) := (hd s, kn s, cell s, stored s, asleep s).

(** Where the run has no part in the awaiter. *)
Definition quiet (r : Run) : bool :=
  match r with
  | RTake _ | RHold _ | RTook _ _ | RDropRef _ | RComplete _ (CellHeld | Claimed) _ _ => false
  | _ => true
  end.

Lemma await_quiet w w' s s' :
  life w s -> await w s -> flags_view w' = flags_view w -> awaiter_view s' = awaiter_view s ->
  quiet (rn s) = true -> quiet (rn s') = true ->
  (tas w = true -> awa w = true -> over w' = true -> over w = true) -> await w' s'.
Proof.
  intros Hl Ha [= Ea Er En] [= Eh Ek Ec Es El] Hq Hq' Ho.
  eapply await_frame; try done; [| | | | by apply life_handle].
  - by destruct (rn s) as [| | | | | ? [] | | | | | | | | |], (rn s') as [| | | | | ? [] | | | | | | | | |].
  - by destruct (rn s) as [| | | | | ? [] | | | | | | | | |], (rn s') as [| | | | | ? [] | | | | | | | | |].
  - intros x Hx. by rewrite Hx in Hq.
  - intros Ht Hw Hv. left. split; [by apply Ho |]. intros e He. by rewrite He in Hq.
Qed.

Lemma await_same w w' s s' :
  life w s -> await w s -> flags_view w' = flags_view w -> awaiter_view s' = awaiter_view s -> rn s' = rn s ->
  (tas w = true -> awa w = true -> over w' = true -> over w = true) -> await w' s'.
Proof.
  intros Hl Ha [= Ea Er En] [= Eh Ek Ec Es El] Hr Ho.
  eapply await_frame; try done; [by rewrite Hr .. | | by apply life_handle].
  intros Ht Hw Hv. left. auto.
Qed.

(** A new word of a step, and its invariant. *)
Definition awaits (s : Task) : Prop := exists w, word s = enc w /\ await w s.

Ltac new_word :=
  eexists; split; [reflexivity |]; unfold set_flags, clear_flags, set_refs; simpl; eval_masks; simpl.

Lemma run_start_await w s :
  word s = enc w -> life w s -> await w s -> rn s = RRunnable -> awaits (run_start s).
Proof.
  intros Hw Hl Ha Hr. pose proof (life_stage _ _ Hl) as Hs. rewrite Hr in Hs. destruct Hs as (H1 & H2 & H3 & _).
  unfold run_start. rewrite Hw, enc_start by done. autorewrite with word. rewrite H1, H2. simpl.
  new_word. eapply await_quiet; try done; simpl; rewrite ?Hr; try done; [by destruct (clo w) |].
  unfold over. simpl. by rewrite H3, andb_false_r.
Qed.

Lemma runnable_dropped_await w s :
  word s = enc w -> life w s -> await w s -> rn s = RRunnable -> awaits (runnable_dropped s).
Proof.
  intros Hw Hl Ha Hr. pose proof (life_stage _ _ Hl) as Hs. rewrite Hr in Hs. destruct Hs as (H1 & H2 & H3 & _).
  unfold runnable_dropped, ended_word. rewrite Hw. autorewrite with word. rewrite H3. simpl.
  destruct (clo w); [exists w; split; [done |] | new_word];
    (eapply await_quiet; try done; simpl; rewrite ?Hr; try done; unfold over; simpl; by rewrite H1, ?H3, ?andb_false_r).
Qed.

Lemma settle_pending_await w s :
  word s = enc w -> life w s -> await w s -> rn s = RPend -> awaits (settle_pending s).
Proof.
  intros Hw Hl Ha Hr. pose proof (life_stage _ _ Hl) as Hs. rewrite Hr in Hs. destruct Hs as (H1 & H2 & _).
  unfold settle_pending. rewrite Hw. autorewrite with word.
  destruct (clo w) eqn:Hc; [exists w; split; [done |] | destruct (sch w) eqn:Hd; new_word].
  all: eapply await_quiet; try done; simpl; rewrite ?Hr; try done; unfold over; simpl; rewrite ?Hc, ?Hd, ?H2; try done.
  by destruct (_ && _).
Qed.

Lemma close_await b w s s' :
  word s = enc w -> life w s -> await w s -> close s = Some (b, s') -> awaits s' /\ b = awa w.
Proof.
  intros Hw Hl Ha. unfold close, ended_word, idle_word. rewrite Hw. autorewrite with word.
  destruct (com w) eqn:Hm, (clo w) eqn:Hc; try done. simpl. intros [= <- <-]. split; [| done].
  destruct (sch w || run w) eqn:Hi; simpl.
  - new_word. eapply await_same; try done. unfold over. simpl. by rewrite Hm, Hi.
  - unfold schedule. simpl. destruct (rn s) eqn:Hr; new_word;
      [eapply await_quiet; try done; simpl; rewrite ?Hr; try done | eapply await_same; try done ..].
    all: unfold over; simpl; by rewrite Hm.
Qed.

(** ** The run and the awaiter *)

(** A notifier's first step: the cell is its own, or somebody else is at it. *)
Lemma take_word w s :
  word s = enc w -> free_cell (word s) = negb (ntf w || reg w) /\ with_ NOTIFYING (word s) = enc (set_flags NOTIFYING w).
Proof. intros ->. unfold free_cell. by autorewrite with word. Qed.

Lemma own_r_took r : own_r r = 0 -> took_r r = None.
Proof. by destruct r as [| | | | | ? [] | | | | | | | | |]. Qed.
Lemma own_h_took h : own_h h = 0 -> took_h h = None.
Proof. by destruct h. Qed.
Lemma own_k_took k : own_k k = 0 -> took_k k = None.
Proof. by destruct k. Qed.
Lemma own_range s : 0 <= own_r (rn s) <= 1 /\ 0 <= own_h (hd s) <= 1 /\ 0 <= own_k (kn s) <= 1.
Proof. split_and!; destruct (rn s) as [| | | | | ? [] | | | | | | | | |], (hd s), (kn s); simpl; lia. Qed.

Lemma owner_alone w s : await w s -> owners s = 1 -> ntf w = true /\ reg w = false.
Proof. intros Ha Ho. rewrite (aw_own _ _ Ha) in Ho. by destruct (ntf w), (reg w). Qed.

Lemma sleeper_not_storing h : may_sleep h = true -> storing h = false.
Proof. by destruct h. Qed.

(** A notifier sets its flag: it owns the cell if it was free. *)
Lemma await_notifying w s s' :
  await w s -> cell s' = cell s -> stored s' = stored s -> asleep s' = asleep s ->
  storing (hd s') = storing (hd s) ->
  owners s' = (if negb (ntf w || reg w) then 1 else owners s) ->
  (forall aw, took s' aw -> took s aw) -> (untaken s' -> untaken s) ->
  (forall x a, hd s' = HStored x a -> hd s = HStored x a) ->
  (asleep s <> None -> may_sleep (hd s') = true) ->
  (forall x, rn s = RDropRef (Some x) -> rn s' = rn s) ->
  await (set_flags NOTIFYING w) s'.
Proof.
  intros [H1 H2 H3 H4 H5 H6 H7 H8 H9] Ec Es El Eh Eo Et Eu Ed Em Er.
  constructor; unfold set_flags; simpl; eval_masks; simpl; rewrite ?Ec, ?Es, ?El, ?Eh; try done.
  - rewrite Eo, H2. by destruct (ntf w), (reg w).
  - intros aw Hw. apply H3, Et, Hw.
  - intros Hu. apply H4, Eu, Hu.
  - intros x a Hx. rewrite ?Ec, ?Es. by eapply H6, Ed.
  - intros x Hx. destruct (H8 x Hx) as [? | Hr]; [by left | right; by rewrite (Er x Hr)].
  - intros Hs _ _ _. left. rewrite Eo, H2. specialize (sleeper_not_storing _ (Em Hs)) as Hr.
    rewrite H1, <- Eh, Hr. by destruct (ntf w).
Qed.

(** The owner takes the waker out. *)
Lemma await_taking w s s' :
  await w s -> owners s = 1 -> untaken s -> cell s' = None -> stored s' = stored s -> asleep s' = asleep s ->
  owners s' = 1 -> storing (hd s') = false -> (forall aw, took s' aw -> aw = cell s) -> ~ untaken s' ->
  (asleep s <> None -> may_sleep (hd s') = true) -> (forall x, rn s = RDropRef (Some x) -> rn s' = rn s) ->
  await w s'.
Proof.
  intros Ha Ho Hu Ec Es El Eo Eh Et Eu Em Er. destruct (owner_alone _ _ Ha Ho) as [Hn Hr].
  destruct Ha as [H1 H2 H3 H4 H5 H6 H7 H8 H9].
  constructor; rewrite ?Ec, ?Es, ?El; try done; try congruence.
  - intros aw Hw. split; [done |]. intros Hx. rewrite (Et aw Hw). by apply H4.
  - intros x a Hx. by rewrite Hx in Eh.
  - intros x Hx. destruct (H8 x Hx) as [? | Hd]; [by left | right; by rewrite (Er x Hd)].
  - intros _ _ _ _. by left.
Qed.

(** The owner is done. *)
Lemma await_finish w w' s s' :
  await w s -> flags_view w' = (false, reg w, false) -> owners s = 1 -> owners s' = 0 -> storing (hd s') = false -> untaken s' ->
  (asleep s' <> None -> may_sleep (hd s') = true) ->
  (forall x, asleep s' = Some x -> rn s' = RDropRef (Some x)) ->
  await w' s'.
Proof.
  intros Ha [= Ea Eg En] Ho Eo Eh Eu Em Er. destruct (owner_alone _ _ Ha Ho) as [Hn Hr].
  constructor; rewrite ?Ea, ?Eg, ?En, ?Hr; try done.
  - intros aw Hw. destruct Eu as (E1 & E2 & E3). unfold took in Hw. rewrite E1, E2, E3 in Hw. by naive_solver.
  - intros x a Hx. by rewrite Hx in Eh.
  - intros x Hx. right. by apply Er.
Qed.

(** What the owner has in hand is the sleeper's waker. *)
Lemma owed_taken w s aw x :
  await w s -> took s aw -> asleep s = Some x -> (forall y, rn s <> RDropRef y) -> aw = Some x.
Proof.
  intros Ha Ht Hx Hr. destruct (aw_owed _ _ Ha _ Hx) as [[Hw Hs] | Hd]; [| by destruct (Hr _ Hd)].
  destruct (aw_took _ _ Ha _ Ht) as [_ H]. by rewrite <- Hs, H.
Qed.

Lemma asleep_woken x s : asleep s = Some x -> asleep (add_woken x s) = None.
Proof. intros H. simpl. by rewrite bool_decide_true. Qed.

(** Waking whoever sleeps. *)
Lemma asleep_wake aw s y : asleep (wake_awaiter aw s) = Some y -> asleep s = Some y /\ aw <> Some y.
Proof.
  destruct aw as [x |]; simpl; [| done]. case_bool_decide as E; [done |]. intros H. split; [done |]. congruence.
Qed.

Lemma wake_awaiter_await w aw s : await w s -> await w (wake_awaiter aw s).
Proof.
  intros Ha. destruct aw as [x |]; [| done]. destruct Ha as [H1 H2 H3 H4 H5 H6 H7 H8 H9]. constructor; simpl; try done.
  - case_bool_decide; [done |]. done.
  - intros y. case_bool_decide; [done |]. apply H8.
  - case_bool_decide; [done |]. apply H9.
Qed.

Lemma wake_awaiter_awaits aw s : awaits s -> awaits (wake_awaiter aw s).
Proof. intros (w & Hw & Ha). exists w. split; [by destruct aw | by apply wake_awaiter_await]. Qed.

(** What is left to a sleeper when the owner wakes [aw] and is done. *)
Lemma owed_after w s aw y :
  await w s -> took s aw -> asleep s = Some y -> aw <> Some y -> rn s = RDropRef (Some y).
Proof.
  intros Ha Ht Hy Hn. destruct (aw_owed _ _ Ha _ Hy) as [[Hw Hs] | Hd]; [| done].
  destruct (aw_took _ _ Ha _ Ht) as [_ H]. destruct Hn. by rewrite <- Hs, H.
Qed.

Lemma take_await e w s :
  word s = enc w -> await w s -> rn s = RTake e ->
  awaits (take_start e s).
Proof.
  intros Hw Ha Hr. unfold take_start. destruct (take_word _ _ Hw) as [-> Hn]. rewrite Hn. eexists; split; [reflexivity |].
  pose proof (own_range s) as Hg. pose proof (aw_own _ _ Ha) as Ho. pose proof (aw_sleeps _ _ Ha) as Hs.
  eapply await_notifying; try done; unfold owners, took, untaken in *; simpl; rewrite Hr in *; simpl in *.
  - destruct (ntf w), (reg w); simpl in *; lia.
  - destruct (negb (ntf w || reg w)); simpl; tauto.
  - destruct (negb (ntf w || reg w)); simpl; tauto.
  - intros x [=].
Qed.

(** Only one owner. *)
Lemma owner_excludes w s :
  await w s -> 1 <= owners s ->
  owners s = 1 /\ reg w = false /\
  (own_r (rn s) = 1 -> own_h (hd s) = 0 /\ own_k (kn s) = 0) /\
  (own_h (hd s) = 1 -> own_r (rn s) = 0 /\ own_k (kn s) = 0) /\
  (own_k (kn s) = 1 -> own_r (rn s) = 0 /\ own_h (hd s) = 0).
Proof.
  intros Ha Hp. pose proof (own_range s) as Hg. pose proof (aw_own _ _ Ha) as E.
  assert (owners s = 1) as Ho by (destruct (ntf w && negb (reg w)); simpl in E; lia).
  split; [done |]. split; [by apply (owner_alone _ _ Ha Ho) |]. unfold owners in Ho. lia.
Qed.

Lemma hold_await e w s :
  word s = enc w -> await w s -> rn s = RHold e -> awaits (take_cell e s).
Proof.
  intros Hw Ha Hr. exists w. split; [done |]. pose proof (own_range s) as Hg.
  destruct (owner_excludes _ _ Ha) as (Ho & Hf & Hx & _); [unfold owners; rewrite Hr; simpl; lia |].
  destruct Hx as [E1 E2]; [by rewrite Hr |].
  eapply await_taking; try done; unfold owners, took, untaken; simpl;
    rewrite ?Hr, ?E1, ?E2, ?own_h_took, ?own_k_took by done; try done.
  - by rewrite <- (aw_reg _ _ Ha).
  - naive_solver.
  - naive_solver.
  - apply Ha.
Qed.

Lemma took_await e aw w s :
  word s = enc w -> await w s -> rn s = RTook e aw ->
  awaits (take_end e aw s).
Proof.
  intros Hw Ha Hr. unfold take_end. cbn zeta. rewrite Hw. autorewrite with word.
  destruct (owner_excludes _ _ Ha) as (Ho & Hf & Hx & _); [unfold owners; rewrite Hr; pose proof (own_range s); simpl; lia |].
  destruct Hx as [E1 E2]; [by rewrite Hr |].
  exists (clear_flags (Z.lor NOTIFYING AWAITER) w). split; [by destruct e, aw |].
  assert (took s aw) as Ht by (left; by rewrite Hr).
  eapply await_finish; try done; unfold owners, untaken; destruct e, aw; simpl;
    rewrite ?E1, ?E2, ?own_h_took, ?own_k_took by done; try done.
  all: try by rewrite <- (aw_reg _ _ Ha).
  all: try (intros; apply (aw_sleeps _ _ Ha); congruence).
  all: try (intros y Hy; by rewrite (owed_taken _ _ _ _ Ha Ht Hy) by (intros ?; congruence)).
  - case_bool_decide; [done | apply Ha].
  - intros y. case_bool_decide as E; [done |]. intros Hy. destruct E. rewrite Hy.
    symmetry. apply (owed_taken _ _ _ _ Ha Ht Hy). congruence.
Qed.

Lemma read_output_frame s :
  word (read_output s) = word s /\ awaiter_view (read_output s) = awaiter_view s /\ rn (read_output s) = rn s.
Proof. unfold read_output. by destruct (core s). Qed.

Lemma settled_flags e p w :
  exists w', settled_word e p (enc w) = enc w' /\ flags_view w' = flags_view w.
Proof.
  unfold settled_word. autorewrite with word.
  destruct e; simpl; destruct (p && tas w); autorewrite with word; eexists; (split; [reflexivity |]); done.
Qed.

Lemma settle_await e p w s :
  word s = enc w -> life w s -> await w s -> rn s = RSettle e p -> awaits (settle e p s).
Proof.
  intros Hw Hl Ha Hr. unfold settle. rewrite Hw, has_task, has_awaiter.
  destruct (settled_flags e p w) as (w' & -> & [= H1 H2 H3]).
  set (t := if p && negb (tas w) then _ else _).
  assert (word t = enc w' /\ awaiter_view t = awaiter_view s) as [Ht [= V1 V2 V3 V4 V5]].
  { subst t. destruct (p && _); [| done]. by destruct (read_output_frame (set_word (enc w') s)) as (-> & -> & _). }
  exists w'. split; [done |].
  eapply await_frame; try done; simpl; rewrite ?Hr; [by destruct (awa w) .. | done | | by apply life_handle].
  intros _ -> _. right; right; left. by exists e.
Qed.

Lemma destroy_awaits s : awaits s -> awaits (destroy s).
Proof.
  intros (w & Hw & [H1 H2 H3 H4 H5 H6 H7 H8 H9]). unfold destroy. exists w.
  destruct (core s); try destruct (freed s); (split; [done |]); by constructor.
Qed.

(** The run lets go of its reference and wakes the awaiter it took. *)
Lemma dropped_await aw w w' s t :
  await w s -> rn s = RDropRef aw -> flags_view w' = flags_view w -> over w' = over w ->
  awaiter_view t = awaiter_view s -> rn t = RNone \/ rn t = RUnawaited -> await w' (wake_awaiter aw t).
Proof.
  intros [H1 H2 H3 H4 H5 H6 H7 H8 H9] Hr [= Ea Er En] Eo [= Eh Ek Ec Es El] Ht.
  assert (own_r (rn t) = 0 /\ took_r (rn t) = None) as [Ew Et] by (by destruct Ht as [-> | ->]).
  assert (forall y, asleep (wake_awaiter aw t) = Some y -> asleep s = Some y /\ aw <> Some y) as Hy.
  { intros y Hy. apply asleep_wake in Hy. by rewrite El in Hy. }
  unfold notifier, owners, took, untaken in *. rewrite Hr in *. simpl in *.
  assert (rn (wake_awaiter aw t) = rn t /\ hd (wake_awaiter aw t) = hd s /\ kn (wake_awaiter aw t) = kn s /\
    cell (wake_awaiter aw t) = cell s /\ stored (wake_awaiter aw t) = stored s) as (R1 & R2 & R3 & R4 & R5)
    by (destruct aw; simpl; by rewrite ?Eh, ?Ek, ?Ec, ?Es).
  constructor; unfold notifier, owners, took, untaken; rewrite ?R1, ?R2, ?R3, ?R4, ?R5, ?Ea, ?Er, ?En, ?Ew, ?Et, ?Eo; try done.
  - intros Hs. apply H7. destruct (asleep (wake_awaiter aw t)) eqn:E; [| done]. destruct (Hy _ eq_refl). congruence.
  - intros x Hx. destruct (Hy x Hx) as [Hx' Hn]. destruct (H8 x Hx') as [? | [= ->]]; [by left | done].
  - intros Hs Hk Hw Hv. destruct (asleep (wake_awaiter aw t)) eqn:E; [| done]. destruct (Hy _ eq_refl) as [Hx _].
    destruct H9 as [? | [[e [=]] | ?]]; first [done | congruence | by left | by right; right].
Qed.

Lemma drop_ref_await aw w s : word s = enc w -> await w s -> rn s = RDropRef aw -> awaits (drop_ref aw s).
Proof.
  intros Hw Ha Hr. unfold drop_ref. rewrite Hw, enc_unref. set (w' := set_refs (refs w - 1) w).
  set (t := if no_refs _ && _ then _ else _).
  assert (word t = enc w' /\ awaiter_view t = awaiter_view s /\ (rn t = RNone \/ rn t = RUnawaited)) as (Ht & Hv & Hn).
  { subst t. destruct (no_refs _ && _); [| by auto]. destruct (ended_word _); [| by auto].
    unfold destroy. simpl. destruct (core s); try destruct (freed s); auto. }
  exists w'. split; [by destruct aw |]. by eapply dropped_await.
Qed.

(** [complete] and the awaiter. *)
Lemma claim_await p aw u w s :
  word s = enc w -> await w s -> rn s = RComplete p NotClaimed aw u -> awaits (claim p u s).
Proof.
  intros Hw Ha Hr. unfold claim. destruct (take_word _ _ Hw) as [-> ->].
  pose proof (own_range s) as Hg. pose proof (aw_own _ _ Ha) as Ho. pose proof (aw_sleeps _ _ Ha) as Hs.
  exists (set_flags NOTIFYING w). split; [by destruct (negb (ntf w || reg w)) |].
  destruct (negb (ntf w || reg w)) eqn:E;
    (eapply await_notifying; try done; rewrite ?E; unfold owners, took, untaken in *; simpl; rewrite Hr in *; try done).
  destruct (ntf w), (reg w); simpl in *; try done; lia.
Qed.

Lemma cell_held_await p u aw w s :
  word s = enc w -> await w s -> rn s = RComplete p CellHeld aw u ->
  awaits (set_run (RComplete p Claimed (cell s) u) (set_cell None s)).
Proof.
  intros Hw Ha Hr. exists w. split; [done |]. pose proof (own_range s) as Hg.
  destruct (owner_excludes _ _ Ha) as (Ho & Hf & Hx & _); [unfold owners; rewrite Hr; simpl; lia |].
  destruct Hx as [E1 E2]; [by rewrite Hr |].
  eapply await_taking; try done; unfold owners, took, untaken; simpl;
    rewrite ?Hr, ?E1, ?E2, ?own_h_took, ?own_k_took by done; try done.
  - by rewrite <- (aw_reg _ _ Ha).
  - naive_solver.
  - naive_solver.
  - apply Ha.
Qed.

(** The run published what it claimed: the awaiter it took is woken. *)
Lemma claimed_await p aw u w w' s t :
  await w s -> rn s = RComplete p Claimed aw u -> flags_view w' = (false, reg w, false) ->
  awaiter_view t = awaiter_view s -> rn t = RNone -> await w' (wake_awaiter aw t).
Proof.
  intros Ha Hr Hf [= V1 V2 V3 V4 V5] Hn.
  destruct (owner_excludes _ _ Ha) as (Ho & Hg & Hx & _); [unfold owners; rewrite Hr; pose proof (own_range s); simpl; lia |].
  destruct Hx as [E1 E2]; [by rewrite Hr |]. assert (took s aw) as Ht by (left; by rewrite Hr).
  assert (rn (wake_awaiter aw t) = RNone /\ hd (wake_awaiter aw t) = hd s /\ kn (wake_awaiter aw t) = kn s)
    as (R1 & R2 & R3) by (destruct aw; simpl; by rewrite ?V1, ?V2).
  assert (asleep (wake_awaiter aw t) = None) as R4.
  { destruct (asleep (wake_awaiter aw t)) as [y |] eqn:E; [| done]. apply asleep_wake in E as [E Hy].
    rewrite V5 in E. pose proof (owed_after _ _ _ _ Ha Ht E Hy) as E'. congruence. }
  eapply await_finish; try done; unfold owners, untaken; rewrite ?R1, ?R2, ?R3, ?R4; simpl; try done.
  - lia.
  - by rewrite <- (aw_reg _ _ Ha).
  - by rewrite own_h_took, own_k_took.
Qed.

(** It published without a claim: somebody else is at the awaiter. *)
Lemma unclaimed_await p aw u w w' s t :
  life w s -> await w s -> rn s = RComplete p NotClaimed aw u -> flags_view w' = flags_view w ->
  awa w && negb (ntf w || reg w) = false -> awaiter_view t = awaiter_view s -> rn t = RNone -> await w' t.
Proof.
  intros Hl Ha Hr [= Ea Er En] Hc [= V1 V2 V3 V4 V5] Hn. pose proof (aw_own _ _ Ha) as Ho.
  constructor; rewrite ?V1, ?V2, ?V3, ?V4, ?V5, ?Ea, ?Er, ?En; try apply Ha.
  - unfold owners in *. rewrite Hn, V1, V2. rewrite Hr in Ho. exact Ho.
  - intros aw' Hw. apply (aw_took _ _ Ha). unfold took in *. rewrite Hn, V1, V2 in Hw. rewrite Hr. exact Hw.
  - intros Hu. apply (aw_cell _ _ Ha). unfold untaken in *. rewrite Hn, V1, V2 in Hu. rewrite Hr. exact Hu.
  - intros x Hx. destruct (aw_owed _ _ Ha x Hx) as [? | Hd]; [by left | congruence].
  - intros Hs _ Hw _. left. specialize (sleeper_not_storing _ (aw_sleeps _ _ Ha Hs)) as Hf.
    rewrite <- (aw_reg _ _ Ha) in Hf. rewrite Hw, Hf, orb_false_r in Hc. unfold owners in *.
    rewrite Hn, V1, V2. rewrite Hr in Ho. simpl in *. rewrite Ho, Hf. by destruct (ntf w).
Qed.

Lemma publish_await p c aw u w s :
  word s = enc w -> life w s -> await w s -> rn s = RComplete p c aw u ->
  match c with NotClaimed => awa w && negb (ntf w || reg w) = false | CellHeld => False | Claimed => True end ->
  awaits (publish p c aw u s).
Proof.
  intros Hw Hl Ha Hr Hc. unfold publish.
  assert (forall u', awaits (set_run (RComplete p c aw u') (read_output s))) as Hu.
  { intros u'. destruct (read_output_frame s) as (E1 & [= V1 V2 V3 V4 V5] & E3). exists w. split; [simpl; congruence |].
    eapply await_frame; try done; simpl; rewrite ?Hr; try (by destruct c); [| by apply life_handle].
    intros _ _ Ho. left. split; [done |]. intros e [=]. }
  destruct (match u with UKept => negb _ | _ => _ end); [done |].
  destruct (match u with UKept => negb _ && _ | _ => _ end); [done |]. clear Hu. cbn zeta.
  rewrite Hw, enc_completed. set (w' := {| sch := false |}).
  set (t := if no_refs _ && _ then _ else _).
  assert (word t = enc w' /\ awaiter_view t = awaiter_view s /\ rn t = RNone) as (Ht & Hv & Hn).
  { subst t. destruct (no_refs _ && _); [| done]. unfold destroy. simpl. destruct (core s); try destruct (freed s); done. }
  destruct c; [| done |].
  - apply wake_awaiter_awaits. exists w'. split; [done |]. by eapply unclaimed_await.
  - exists w'. split; [by destruct aw |]. by eapply claimed_await.
Qed.

Lemma complete_await p c aw u w s :
  word s = enc w -> life w s -> await w s -> rn s = RComplete p c aw u -> awaits (complete p c aw u s).
Proof.
  intros Hw Hl Ha Hr. destruct c; simpl; [| by eapply cell_held_await | by eapply publish_await].
  destruct (take_word _ _ Hw) as [-> _]. rewrite Hw, has_awaiter.
  destruct (awa w && _) eqn:E; [by eapply claim_await | by eapply publish_await].
Qed.

Lemma drop_future_frame s :
  word (drop_future s) = word s /\ awaiter_view (drop_future s) = awaiter_view s /\ rn (drop_future s) = rn s.
Proof. unfold drop_future. by destruct (core s). Qed.

Lemma run_next_await q w s s' :
  word s = enc w -> life w s -> await w s -> run_next q s = Some s' -> awaits s'.
Proof.
  intros Hw Hl Ha. destruct (drop_future_frame s) as (D1 & D2 & D3).
  assert (Hquiet : forall r t, quiet (rn s) = true -> quiet r = true -> word t = word s ->
    awaiter_view t = awaiter_view s -> awaits (set_run r t)).
  { intros r t Hq Hq' Ht Hv. exists w. split; [simpl; congruence |]. by eapply await_quiet. }
  destruct (rn s) eqn:Hr; unfold run_next; rewrite Hr; try done; intros [= <-].
  - by eapply settle_pending_await.
  - by apply Hquiet.
  - by eapply complete_await.
  - apply Hquiet; try done; by destruct q.
  - by eapply settle_await.
  - by eapply take_await.
  - by eapply hold_await.
  - by eapply took_await.
  - by eapply drop_ref_await.
  - pose proof (life_stage _ _ Hl) as Hs. rewrite Hr in Hs. destruct Hs as (H1 & H2 & (H3 & H4 & H5) & Hc).
    rewrite Hc in H5. unfold unawaited_close. rewrite Hw, enc_end by apply H5. new_word.
    eapply await_quiet; try done; simpl; rewrite ?Hr; try done. congruence.
  - by apply Hquiet.
  - unfold unawaited_end. rewrite Hw, enc_unref. assert (awaits (set_run RNone (set_word (enc (set_refs (refs w - 1) w)) s))).
    { eexists; split; [reflexivity |]. eapply await_quiet; try done; by rewrite Hr. }
    destruct (no_refs _ && _); [by apply destroy_awaits | done].
Qed.

(** ** The handle and the awaiter *)

Lemma awake_unless w s : await w s -> may_sleep (hd s) = false -> asleep s = None.
Proof. intros Ha Hm. destruct (asleep s) eqn:E; [| done]. rewrite (aw_sleeps _ _ Ha) in Hm; [done | congruence]. Qed.

(** An awake handle walks on. *)
Lemma await_awake w w' s s' :
  await w s -> asleep s' = None -> flags_view w' = flags_view w ->
  (rn s', kn s', cell s', stored s') = (rn s, kn s, cell s, stored s) ->
  (storing (hd s'), own_h (hd s'), took_h (hd s')) = (storing (hd s), own_h (hd s), took_h (hd s)) ->
  (forall x a, hd s' = HStored x a -> hd s = HStored x a) -> await w' s'.
Proof.
  intros Ha El [= Ea Er En] [= E1 E2 E3 E4] [= H1 H2 H3] Hd.
  constructor; unfold owners, took, untaken; rewrite ?Ea, ?Er, ?En, ?E1, ?E2, ?E3, ?E4, ?H1, ?H2, ?H3, ?El; try apply Ha; try done.
  intros x a Hx. by eapply (aw_stored _ _ Ha), Hd.
Qed.

Lemma poll_raw_await b x w s :
  word s = enc w -> await w s -> hd s = HPoll x -> awaits (poll_raw b x s).
Proof.
  intros Hw Ha Hh. assert (asleep s = None) as El by (apply (awake_unless _ _ Ha); by rewrite Hh).
  unfold poll_raw. rewrite Hw. autorewrite with word.
  assert (Hm : forall w' t, word t = enc w' -> asleep t = None -> flags_view w' = flags_view w ->
     (rn t, kn t, cell t, stored t) = (rn s, kn s, cell s, stored s) ->
     (storing (hd t), own_h (hd t), took_h (hd t)) = (false, 0, None) -> awaits t).
  { intros w' t Ht E1 E2 E3 [= H1 H2 H3]. exists w'. split; [done |]. eapply await_awake; try done; [by rewrite Hh, H1, H2, H3 |].
    intros ? ? E. by rewrite E in H1. }
  repeat case_match; try (apply (Hm w); simpl; try done; by rewrite El).
  all: by apply (Hm (set_flags CLOSED w)).
Qed.

Lemma awake_add x s : asleep s = None -> asleep (add_woken x s) = None.
Proof. intros H. simpl. by rewrite H. Qed.

Lemma register_await x a w s :
  word s = enc w -> await w s -> hd s = HRegister x a -> awaits (register x a s).
Proof.
  intros Hw Ha Hh. assert (asleep s = None) as El by (apply (awake_unless _ _ Ha); by rewrite Hh).
  pose proof (aw_reg _ _ Ha) as Hg. rewrite Hh in Hg. unfold register. rewrite Hw. autorewrite with word.
  destruct (ntf w) eqn:Hn.
  - exists w. split; [by destruct (_ || _) |].
    destruct (negb (awa w) || _) eqn:E.
    + eapply await_awake; try done; simpl; rewrite ?Hh; try done. by rewrite bool_decide_true.
    + apply orb_false_iff in E as [Hw'%negb_false_iff E%negb_false_iff%bool_decide_eq_true]. simpl in E.
      pose proof (aw_own _ _ Ha) as Ho.
      constructor; unfold owners, took, untaken in *; simpl; rewrite Hh in *; simpl in *; try apply Ha; try done.
      all: try (by eapply (aw_took _ _ Ha); unfold took; rewrite Hh).
      * intros aw Ht. apply (aw_took _ _ Ha). unfold took. by rewrite Hh.
      * intros Hu. apply (aw_cell _ _ Ha). unfold untaken. by rewrite Hh.
      * intros y [= <-]. by left.
  - eexists; split; [reflexivity |].
    pose proof (aw_own _ _ Ha) as Ho. 
    constructor; unfold owners, took, untaken in *; unfold set_flags; simpl; eval_masks; simpl; rewrite Hh in *; rewrite ?Hn in *; simpl in *; try apply Ha; try done.
    + intros aw Ht. apply (aw_took _ _ Ha). unfold took. by rewrite Hh.
    + intros Hu. apply (aw_cell _ _ Ha). unfold untaken. by rewrite Hh.
Qed.

(** Nobody owns the cell while the handle stores. *)
Lemma storing_alone w s : await w s -> storing (hd s) = true -> owners s = 0 /\ untaken s /\ forall aw, ~ took s aw.
Proof.
  intros Ha Hs. pose proof (aw_own _ _ Ha) as Ho. rewrite (aw_reg _ _ Ha), Hs, andb_false_r in Ho. simpl in Ho.
  pose proof (own_range s) as Hg. unfold owners in Ho.
  assert (took_r (rn s) = None /\ took_h (hd s) = None /\ took_k (kn s) = None) as (E1 & E2 & E3).
  { split_and!; [apply own_r_took | apply own_h_took | apply own_k_took]; lia. }
  unfold owners, untaken, took. rewrite E1, E2, E3. split_and!; try done. intros aw. naive_solver.
Qed.

Lemma store_await x a w s :
  word s = enc w -> await w s -> hd s = HStoring x a ->
  awaits (set_handle (HStored x a) (set_stored (Some x) (set_cell (Some x) s))).
Proof.
  intros Hw Ha Hh. assert (asleep s = None) as El by (apply (awake_unless _ _ Ha); by rewrite Hh).
  destruct (storing_alone _ _ Ha) as (Ho & Hu & Ht); [by rewrite Hh |].
  pose proof (aw_own _ _ Ha) as Hn. pose proof (aw_reg _ _ Ha) as Hg.
  exists w. split; [done |]. unfold owners, untaken, took in *.
  constructor; unfold owners, untaken, took; rewrite Hh in *; simpl in *; try done; try congruence.
  - intros aw Hx. by destruct (Ht aw).
  - by intros y b [= <- <-].
Qed.

Lemma registered_await x a w s :
  word s = enc w -> await w s -> hd s = HStored x a -> awaits (registered x a s).
Proof.
  intros Hw Ha Hh. assert (asleep s = None) as El by (apply (awake_unless _ _ Ha); by rewrite Hh).
  destruct (storing_alone _ _ Ha) as (Ho & Hu & Ht); [by rewrite Hh |].
  destruct (aw_stored _ _ Ha _ _ Hh) as [Hc Hs]. unfold registered. rewrite Hw. autorewrite with word. rewrite Hc.
  unfold owners, untaken, took in *. rewrite Hh in *. simpl in *.
  destruct (ntf w) eqn:Hn; autorewrite with word; eexists; (split; [reflexivity |]);
    constructor; unfold owners, untaken, took; unfold set_flags, clear_flags; simpl; eval_masks; simpl; try done.
  - intros y. by rewrite bool_decide_true.
  - intros aw Hx. by destruct (Ht aw).
  - congruence.
  - congruence.
  - intros y [= <-]. by left.
Qed.

Lemma com_rests w s : life w s -> com w = true -> sch w = false /\ run w = false.
Proof.
  intros Hl Hc. pose proof (life_stage _ _ Hl) as Hs.
  destruct (rn s); simpl in Hs; unfold rest_ok in Hs; naive_solver congruence.
Qed.

Lemma look_again_await x a w s :
  word s = enc w -> life w s -> await w s -> hd s = HLook x a -> awaits (look_again x a s).
Proof.
  intros Hw Hl Ha Hh. exists w. split; [by destruct a; simpl; case_match |].
  assert (over w = false -> await w (set_handle HIdle s)) as H1.
  { intros Ho. constructor; unfold owners, took, untaken; simpl; try apply Ha; try done.
    - rewrite (aw_reg _ _ Ha). by rewrite Hh.
    - rewrite <- (aw_own _ _ Ha). unfold owners. by rewrite Hh.
    - intros aw Ht. apply (aw_took _ _ Ha). unfold took. by rewrite Hh.
    - intros Hu. apply (aw_cell _ _ Ha). unfold untaken. by rewrite Hh.
    - by rewrite Ho. }
  assert (await w (set_asleep None (set_handle (HPoll x) s))) as H2.
  { eapply await_awake; try done; simpl; by rewrite Hh. }
  unfold look_again. rewrite Hw. autorewrite with word. unfold over in H1.
  pose proof (com_rests _ _ Hl) as Hc. destruct a.
  - destruct (sch w || run w) eqn:E; [| done]. apply H1. destruct (com w); [| by rewrite andb_false_r].
    destruct (Hc eq_refl) as [E1 E2]. by rewrite E1, E2 in E.
  - destruct (clo w), (com w); try done. by apply H1.
Qed.

Lemma told_frame t s :
  word (told t s) = word s /\ (rn (told t s), kn (told t s), cell (told t s), stored (told t s), asleep (told t s)) =
  (rn s, kn s, cell s, stored s, asleep s) /\
  (storing (hd (told t s)), own_h (hd (told t s)), took_h (hd (told t s))) = (false, 0, None).
Proof. by destruct t as [| | []]. Qed.

Lemma told_sleeps t s : may_sleep (hd (told t s)) = match t with TAnswerNone | TCancelled false => true | _ => false end.
Proof. by destruct t as [| | []]. Qed.

Lemma notify_await c t w s :
  word s = enc w -> await w s -> hd s = HNotify c t ->
  let u := set_word (with_ NOTIFYING (word s)) s in
  awaits (if free_cell (word s) then set_handle (HHold c t) u else told t u).
Proof.
  intros Hw Ha Hh. cbn zeta. destruct (take_word _ _ Hw) as [-> ->].
  pose proof (own_range s) as Hg. pose proof (aw_own _ _ Ha) as Ho. pose proof (aw_sleeps _ _ Ha) as Hs.
  exists (set_flags NOTIFYING w). destruct (told_frame t (set_word (enc (set_flags NOTIFYING w)) s)) as (T1 & [= T2 T3 T4 T5 T6] & [= T7 T8 T9]).
  split; [by destruct (negb (ntf w || reg w)) |].
  destruct (negb (ntf w || reg w)) eqn:E.
  - eapply await_notifying; try done; rewrite ?E; unfold owners, took, untaken in *; simpl; rewrite Hh in *; try done; simpl in *.
    destruct (ntf w), (reg w); simpl in *; try done; lia.
  - eapply await_notifying; try done; rewrite ?E, ?T4, ?T5, ?T6; unfold owners, took, untaken in *; rewrite ?T2, ?T3, ?T7, ?T8, ?T9; try done.
    all: rewrite Hh in *; try done.
    + intros x a Hx. by rewrite Hx in T7.
    + rewrite told_sleeps. intros Hl. specialize (Hs Hl). by destruct c, t as [| | []].
Qed.

Lemma handle_hold_await c t w s :
  word s = enc w -> await w s -> hd s = HHold c t -> awaits (set_handle (HTook (cell s) c t) (set_cell None s)).
Proof.
  intros Hw Ha Hh. exists w. split; [done |]. pose proof (own_range s) as Hg.
  destruct (owner_excludes _ _ Ha) as (Ho & Hf & _ & Hx & _); [unfold owners; rewrite Hh; simpl; lia |].
  destruct Hx as [E1 E2]; [by rewrite Hh |]. pose proof (aw_sleeps _ _ Ha) as Hs. rewrite Hh in Hs.
  eapply await_taking; try done; unfold owners, took, untaken; simpl;
    rewrite ?Hh, ?E1, ?E2, ?own_r_took, ?own_k_took by done; try done.
  - naive_solver.
  - naive_solver.
Qed.

(** The handle wakes the awaiter, unless it is the waker it polls with. *)
Definition wake_other (aw cur : option Waker) (s : Task) : Task :=
  match aw, cur with Some x, Some c => if will_wake x c then s else add_woken x s | aw, _ => wake_awaiter aw s end.

Lemma handle_took_await aw c t w s :
  word s = enc w -> await w s -> hd s = HTook aw c t ->
  awaits (wake_other aw c (told t (set_word (without (Z.lor NOTIFYING AWAITER) (word s)) s))).
Proof.
  intros Hw Ha Hh. rewrite Hw. autorewrite with word. set (w' := clear_flags _ w).
  destruct (owner_excludes _ _ Ha) as (Ho & Hf & _ & Hx & _); [unfold owners; rewrite Hh; pose proof (own_range s); simpl; lia |].
  destruct Hx as [E1 E2]; [by rewrite Hh |]. assert (took s aw) as Ht by (right; left; by rewrite Hh).
  destruct (told_frame t (set_word (enc w') s)) as (T1 & [= T2 T3 T4 T5 T6] & [= T7 T8 T9]). 
  pose proof (told_sleeps t (set_word (enc w') s)) as Hm.
  set (u := told t (set_word (enc w') s)) in *.
  assert (exists o, wake_other aw c u = wake_awaiter o u /\ (o = aw \/ c <> None)) as (o & -> & Hc).
  { unfold wake_other. destruct aw as [x |], c as [y |]; try (by eexists; eauto).
    destruct (will_wake x y); [exists None | exists (Some x)]; by auto. }
  exists w'. split; [by destruct o |].
  assert (rn (wake_awaiter o u) = rn u /\ hd (wake_awaiter o u) = hd u /\ kn (wake_awaiter o u) = kn u)
    as (R1 & R2 & R3) by (by destruct o).
  eapply await_finish; try done; unfold owners, untaken; rewrite ?R1, ?R2, ?R3, ?T2, ?T3, ?T7, ?T8, ?T9, ?E1, ?E2; try done.
  - by rewrite own_r_took, own_k_took.
  - intros Hl. rewrite Hm. destruct (asleep (wake_awaiter o u)) as [y |] eqn:E; [| done].
    apply asleep_wake in E as [E _]. rewrite T6 in E. pose proof (aw_sleeps _ _ Ha) as Hs. simpl in E. rewrite E, Hh in Hs.
    specialize (Hs ltac:(done)). by destruct c, t as [| | []].
  - intros y Hy. apply asleep_wake in Hy as [Hy Hn]. rewrite T6 in Hy. simpl in Hy.
    eapply owed_after; try done. pose proof (aw_sleeps _ _ Ha) as Hs. rewrite Hy, Hh in Hs.
    specialize (Hs ltac:(done)). destruct Hc as [<- | Hc]; [done |]. by destruct c.
Qed.

(** Where the handle has no part in the awaiter. *)
Definition aside (h : Handle) : bool :=
  match h with
  | HStoring _ _ | HStored _ _ | HLook _ _ | HNotify _ _ | HHold _ _ | HTook _ _ _ => false
  | _ => true
  end.

Lemma aside_view h : aside h = true -> storing h = false /\ own_h h = 0 /\ took_h h = None.
Proof. by destruct h. Qed.

(** A handle that has none, and may sleep on if it slept, walks on. *)
Lemma await_aside w w' s s' :
  await w s -> flags_view w' = flags_view w -> (over w' = true -> over w = true \/ asleep s = None) ->
  (rn s', kn s', cell s', stored s', asleep s') = (rn s, kn s, cell s, stored s, asleep s) ->
  aside (hd s) = true -> (storing (hd s'), own_h (hd s'), took_h (hd s')) = (false, 0, None) ->
  (asleep s <> None -> may_sleep (hd s') = true) -> await w' s'.
Proof.
  intros Ha [= Ea Er En] Hv [= T2 T3 T4 T5 T6] Hh [= T7 T8 T9] Hm. destruct (aside_view _ Hh) as (H1 & H2 & H3).
  pose proof (aw_reg _ _ Ha) as Hg. pose proof (aw_own _ _ Ha) as Ho.
  constructor; unfold notifier, owners, took, untaken in *; rewrite ?T2, ?T3, ?T4, ?T5, ?T6, ?T7, ?T8, ?T9, ?Ea, ?Er, ?En;
    try apply Ha; try congruence; try done.
  - intros aw Ht. apply (aw_took _ _ Ha). unfold took. by rewrite H3.
  - intros Hu. apply (aw_cell _ _ Ha). unfold untaken. by rewrite H3.
  - intros x a Hx. by rewrite Hx in T7.
  - intros Hs _ Hw Hx. destruct (Hv Hx) as [Hx' |]; [| done].
    destruct (aw_told _ _ Ha Hs) as [Hn | [Hn | [Hn | (c & u & Hn)]]]; try done; [by destruct (hd s) | | | |].
    + left. unfold owners in Hn. by rewrite H2 in Hn.
    + by right; left.
    + by right; right; left.
    + by rewrite Hn in Hh.
Qed.

Lemma handle_cancel_await d w s :
  word s = enc w -> life w s -> await w s -> hd s = HCancel d -> awaits (handle_cancel d s).
Proof.
  intros Hw Hl Ha Hh. unfold handle_cancel.
  assert (Ht : forall v u, word u = enc v -> await v u -> hd u = HCancel d -> awaits (told (TCancelled d) u)).
  { intros v u Hu Hv Hd. exists v. destruct (told_frame (TCancelled d) u) as (T1 & T2 & T3). split; [congruence |].
    eapply await_aside; try done; [by auto | by rewrite Hd |]. intros Hs. pose proof (aw_sleeps _ _ Hv Hs) as Hm.
    rewrite Hd in Hm. by destruct d. }
  destruct (close s) as [[b t] |] eqn:Hc; [| by eapply Ht].
  destruct (close_await _ _ _ _ Hw Hl Ha Hc) as [(v & Hv & Hb) ->].
  destruct (close_frame _ _ _ Hc) as (_ & _ & Hd & _). rewrite Hh in Hd.
  destruct (awa w); [| by eapply Ht]. exists v. split; [done |].
  eapply await_aside; try done; [by auto | by rewrite Hd |]. intros Hs. pose proof (aw_sleeps _ _ Hb Hs) as Hm.
  rewrite Hd in Hm. by destruct d.
Qed.

(** Nobody is left at the awaiter of a task without references. *)
Lemma unreferenced w s : life w s -> refs w = 0 -> own_r (rn s) = 0 /\ own_k (kn s) = 0 /\ own_r (rn (schedule s)) = 0.
Proof.
  intros [_ Hr [Hw Hd] _ _ _ _ _] E. rewrite E in Hr. pose proof (cancel_ref_range (kn s)) as Hk. unfold schedule.
  destruct (rn s) eqn:Er; simpl in *; try lia; (split; [done | split; [| by rewrite ?Er]]); destruct (kn s); simpl in *; lia.
Qed.

Lemma await_fresh w s :
  flags_view w = (false, false, false) -> storing (hd s) = false -> owners s = 0 -> asleep s = None -> await w s.
Proof.
  intros [= Ea Er En] Hs Ho Hl. pose proof (own_range s) as Hg. unfold owners in Ho.
  assert (took_r (rn s) = None /\ took_h (hd s) = None /\ took_k (kn s) = None) as (E1 & E2 & E3).
  { split_and!; [apply own_r_took | apply own_h_took | apply own_k_took]; lia. }
  constructor; unfold took; rewrite ?Ea, ?Er, ?En, ?E1, ?E2, ?E3, ?Hl; try done.
  - intros aw. naive_solver.
  - intros x a Hx. by rewrite Hx in Hs.
Qed.

Lemma set_detached_await w s :
  word s = enc w -> life w s -> await w s -> hd s = HDetach -> awaits (set_detached s).
Proof.
  intros Hw Hl Ha Hh. assert (asleep s = None) as El by (apply (awake_unless _ _ Ha); by rewrite Hh).
  unfold set_detached. rewrite Hw. autorewrite with word.
  destruct (com w && negb (clo w)).
  { eexists; split; [reflexivity |]. eapply await_aside; try done; [by auto | by rewrite Hh]. }
  destruct (Z.eqb_spec (refs w) 0) as [E |]; simpl.
  - destruct (clo w) eqn:Hc; simpl.
    + apply destroy_awaits. autorewrite with word. eexists; split; [reflexivity |].
      eapply await_aside; try done; [by auto | by rewrite Hh].
    + change (Z.lor _ REFERENCE) with (enc (fresh_word true true false 1)).
      destruct (unreferenced _ _ Hl E) as (O1 & O2 & O3). exists (fresh_word true true false 1).
      unfold schedule in *. simpl. clear O3. destruct (rn s) eqn:Hr; (split; [done |]);
        apply await_fresh; unfold owners; simpl; rewrite ?Hr, ?O1, ?O2; done.
  - autorewrite with word. eexists; split; [reflexivity |]. eapply await_aside; try done; [by auto | by rewrite Hh].
Qed.

Lemma handle_next_await b w s s' :
  word s = enc w -> life w s -> await w s -> handle_next b s = Some s' -> awaits s'.
Proof.
  intros Hw Hl Ha. destruct (hd s) eqn:Hh; unfold handle_next; rewrite Hh; try done; intros [= <-].
  - by eapply poll_raw_await.
  - by eapply register_await.
  - by eapply store_await.
  - by eapply registered_await.
  - by eapply look_again_await.
  - by eapply notify_await.
  - by eapply handle_hold_await.
  - by eapply (handle_took_await _ _ _ w).
  - destruct (read_output_frame s) as (E1 & [= V1 V2 V3 V4 V5] & E3). exists w. split; [simpl; congruence |].
    assert (asleep s = None) as El by (apply (awake_unless _ _ Ha); by rewrite Hh).
    eapply await_aside; try done; simpl; [by auto | congruence | by rewrite Hh].
  - by eapply handle_cancel_await.
  - by eapply set_detached_await.
  - destruct (read_output_frame s) as (E1 & [= V1 V2 V3 V4 V5] & E3). exists w. split; [simpl; congruence |].
    assert (asleep s = None) as El by (apply (awake_unless _ _ Ha); by rewrite Hh).
    eapply await_aside; try done; simpl; [by auto | congruence | by rewrite Hh].
Qed.

(** ** The wakers and the cancels *)

Lemma abort_next_await w s s' :
  word s = enc w -> await w s -> abort_next s = Some s' -> awaits s'.
Proof.
  intros Hw Ha. pose proof (own_range s) as Hg. pose proof (aw_own _ _ Ha) as Ho. pose proof (aw_sleeps _ _ Ha) as Hs.
  unfold abort_next. destruct (kn s) eqn:Hk; [done | ..]; intros [= <-].
  - destruct (take_word _ _ Hw) as [-> ->].
    exists (set_flags NOTIFYING w). split; [by destruct (negb (ntf w || reg w)) |].
    destruct (negb (ntf w || reg w)) eqn:E;
      (eapply await_notifying; try done; rewrite ?E; unfold owners, took, untaken in *; simpl; rewrite Hk in *; try done).
    destruct (ntf w), (reg w); simpl in *; try done; lia.
  - exists w. split; [done |].
    destruct (owner_excludes _ _ Ha) as (Ho' & Hf & _ & _ & Hx); [unfold owners; rewrite Hk; simpl; lia |].
    destruct Hx as [E1 E2]; [by rewrite Hk |].
    eapply await_taking; try done; unfold owners, took, untaken; simpl;
      rewrite ?Hk, ?E1, ?E2, ?own_h_took, ?own_r_took by done; try done.
    + by rewrite <- (aw_reg _ _ Ha).
    + naive_solver.
    + naive_solver.
  - rewrite Hw. autorewrite with word. exists (clear_flags (Z.lor NOTIFYING AWAITER) w). split; [by destruct awaiter |].
    destruct (owner_excludes _ _ Ha) as (Ho' & Hf & _ & _ & Hx); [unfold owners; rewrite Hk; simpl; lia |].
    destruct Hx as [E1 E2]; [by rewrite Hk |]. assert (took s awaiter) as Ht by (right; right; by rewrite Hk).
    set (u := set_wakers _ _ _).
    assert (rn (wake_awaiter awaiter u) = rn s /\ hd (wake_awaiter awaiter u) = hd s /\ kn (wake_awaiter awaiter u) = KNone)
      as (R1 & R2 & R3) by (by destruct awaiter).
    eapply await_finish; try done; unfold owners, untaken; rewrite ?R1, ?R2, ?R3, ?E1, ?E2; try done.
    + by rewrite <- (aw_reg _ _ Ha).
    + by rewrite own_h_took, own_r_took.
    + intros Hl. destruct (asleep (wake_awaiter awaiter u)) as [y |] eqn:E; [| done].
      apply asleep_wake in E as [E _]. apply Hs. simpl in E. congruence.
    + intros y Hy. apply asleep_wake in Hy as [Hy Hn]. by eapply owed_after.
Qed.

(** A step of a waker, or of a cancel that has nobody to tell. *)
Lemma schedule_await w w' s t :
  life w s -> await w s -> word t = enc w' -> flags_view w' = flags_view w -> awaiter_view t = awaiter_view s ->
  rn t = rn s -> over w' = false -> awaits (schedule t).
Proof.
  intros Hl Ha Hw Hf Hv Hr Ho. exists w'. unfold schedule. rewrite Hr.
  destruct (rn s) eqn:E; (split; [done |]);
    [eapply await_quiet; try done; try (by rewrite E); by rewrite Ho | eapply await_same; try done; try (simpl; congruence); by rewrite Ho ..].
Qed.

Lemma wake_await w s s' : word s = enc w -> life w s -> await w s -> wake s = Some s' -> awaits s'.
Proof.
  intros Hw Hl Ha. unfold wake, ended_word, idle_word. destruct (0 <? wakers s); [| done]. rewrite Hw. autorewrite with word.
  destruct (com w || clo w) eqn:E; [intros [= <-]; exists w; split; [done |]; by eapply await_same |].
  apply orb_false_iff in E as [E1 E2]. assert (over (set_flags SCHEDULED w) = false) as Ho.
  { unfold over. simpl. by rewrite E1, E2. }
  destruct (sch w || run w); simpl; intros [= <-].
  - eexists; split; [reflexivity |]. eapply await_same; try done. by rewrite Ho.
  - by eapply (schedule_await _ (set_flags SCHEDULED w)).
Qed.

Lemma wake_by_ref_await w s s' : word s = enc w -> life w s -> await w s -> wake_by_ref s = Some s' -> awaits s'.
Proof.
  intros Hw Hl Ha. unfold wake_by_ref, ended_word, idle_word. destruct (_ || _); [| done]. rewrite Hw. autorewrite with word.
  destruct (com w || clo w) eqn:E; [intros [= <-]; by exists w |].
  apply orb_false_iff in E as [E1 E2].
  destruct (sch w || run w); simpl; [| destruct (_ <=? _); [| done]]; intros [= <-].
  - eexists; split; [reflexivity |]. eapply await_same; try done. unfold over. simpl. by rewrite E1, E2.
  - eapply (schedule_await _ (set_refs (refs w + 1) (set_flags SCHEDULED w))); try done. unfold over. simpl. by rewrite E1, E2.
Qed.

Lemma drop_waker_await b w s s' : word s = enc w -> life w s -> await w s -> drop_waker b s = Some s' -> awaits s'.
Proof.
  intros Hw Hl Ha. unfold drop_waker. destruct (if b then _ else _); [| done]. intros [= <-].
  set (t := if b then _ else _). assert (word t = enc w /\ awaiter_view t = awaiter_view s /\ rn t = rn s) as (-> & Hv & Hr)
    by (by destruct b). rewrite enc_unref.
  assert (forall f, (forall u, awaiter_view (f u) = awaiter_view u /\ word (f u) = word u /\ rn (f u) = rn u) ->
    awaits (f (set_word (enc (set_refs (refs w - 1) w)) t))) as Hf.
  { intros f Hf. destruct (Hf (set_word (enc (set_refs (refs w - 1) w)) t)) as (F1 & F2 & F3).
    eexists; split; [exact F2 |]. eapply await_same; try done; [by rewrite F1 | by rewrite F3]. }
  destruct (no_refs _ && _); [| by apply (Hf id)]. destruct (ended_word _); [| by apply Hf].
  apply destroy_awaits. by apply (Hf id).
Qed.

Lemma clone_waker_await w s s' : word s = enc w -> life w s -> await w s -> clone_waker s = Some s' -> awaits s'.
Proof.
  intros Hw Hl Ha. unfold clone_waker. destruct (_ && _); [| done]. intros [= <-]. rewrite Hw, enc_ref.
  eexists; split; [reflexivity |]. by eapply await_same.
Qed.

Lemma store_last_await w s s' : word s = enc w -> life w s -> await w s -> store_last s = Some s' -> awaits s'.
Proof.
  intros Hw Hl Ha. unfold store_last. destruct (last s) eqn:El; [| done]. intros [= <-].
  pose proof (life_left _ _ Hl) as Hx. unfold left_ok in Hx. rewrite El in Hx.
  assert (refs w = 0 /\ tas w = false /\ rn s = RNone) as (E1 & E2 & E3) by (destruct (freed s); naive_solver).
  destruct (unreferenced _ _ Hl E1) as (O1 & O2 & _). rewrite (life_handle _ _ Hl) in E2.
  assert (hd s = HGone) as Hh by (by destruct (hd s)).
  assert (asleep s = None) as Ew by (apply (awake_unless _ _ Ha); by rewrite Hh).
  change (Z.lor _ REFERENCE) with (enc (fresh_word true true false 1)). unfold schedule. simpl. rewrite E3.
  eexists; split; [reflexivity |]. apply await_fresh; unfold owners; simpl; rewrite ?Hh, ?O2; done.
Qed.

Lemma abort_await w s s' : word s = enc w -> life w s -> await w s -> abort s = Some s' -> awaits s'.
Proof.
  intros Hw Hl Ha. unfold abort. destruct (0 <? wakers s); [| done].
  destruct (close s) as [[b t] |] eqn:Hc; [| by intros [= <-]; exists w].
  destruct (close_await _ _ _ _ Hw Hl Ha Hc) as [(v & Hv & Hb) ->]. destruct (awa w); intros [= <-]; [| by exists v].
  simpl. exists v. destruct (kn t) eqn:Hk; (split; [done |]); destruct Hb as [H1 H2 H3 H4 H5 H6 H7 H8 H9];
    unfold notifier, owners, took, untaken in *; constructor; unfold notifier, owners, took, untaken; simpl;
    try rewrite Hk in *; simpl in *; try done.
  intros _ _ _ _. by right; right; left.
Qed.

Lemma walk_await w s s' : word s = enc w -> life w s -> await w s -> walk s = Some s' -> awaits s'.
Proof.
  intros Hw Hl Ha. unfold walk. destruct (core s); [| done ..].
  destruct (close s) as [[c t] |] eqn:Hc; intros [= <-]; [by eapply close_await | by exists w].
Qed.

Lemma act_await l w s s' : word s = enc w -> life w s -> await w s -> act l s = Some s' -> awaits s'.
Proof.
  intros Hw Hl Ha. destruct l; simpl.
  - destruct (rn s) eqn:E; try done. intros [= <-]. by eapply run_start_await.
  - destruct (rn s) eqn:E; try done. intros [= <-]. by eapply runnable_dropped_await.
  - destruct (rn s) eqn:E; try done. intros [= <-]. exists w. split; [done |]. eapply await_quiet; try done. by rewrite E.
  - destruct (rn s) eqn:E; try done. intros [= <-]. exists w. split; [done |]. eapply await_quiet; try done. by rewrite E.
  - by eapply run_next_await.
  - destruct (rn s) as [| | | | | ? [] ? ? | | | | | | | | |] eqn:E; try done. intros [= <-]. by eapply claim_await.
  - by eapply clone_waker_await.
  - by eapply wake_await.
  - by eapply wake_by_ref_await.
  - by eapply drop_waker_await.
  - by eapply store_last_await.
  - by eapply abort_await.
  - by eapply abort_next_await.
  - destruct (hd s) eqn:E; try done. intros [= <-]. exists w. split; [done |]. eapply await_awake; try done; by rewrite E.
  - by eapply handle_next_await.
  - destruct (hd s) eqn:E; try done. intros [= <-]. exists w. split; [done |].
    eapply await_aside; try done; [by auto | by rewrite E].
  - destruct (hd s) eqn:E; try done. intros [= <-]. exists w. split; [done |]. eapply await_awake; try done; by rewrite E.
  - destruct (hd s) eqn:E; try done. intros [= <-]. unfold drop_handle.
    destruct (_ =? _); [apply destroy_awaits |]; (exists w; split; [done |]); eapply await_awake; try done; by rewrite E.
  - by eapply walk_await.
Qed.

Lemma freed_handle s : alive s -> freed s = true -> hd s = HGone.
Proof.
  intros (w & _ & Hl) Hf. pose proof (life_left _ _ Hl) as Hx. unfold left_ok in Hx. rewrite Hf in Hx.
  assert (tas w = false) as Ht by (destruct (last s); naive_solver). rewrite (life_handle _ _ Hl) in Ht. by destruct (hd s).
Qed.

Lemma step_sound l s s' : sound s -> apart l s -> step l s = Some s' -> sound s'.
Proof.
  intros [Hs Hi] Hp Ht. destruct (step_alive _ _ _ Hs Hp Ht) as [Hf Hs']. split; [done |]. rewrite Hf in Hi.
  destruct Hi as (w & Hw & Hl & Ha). unfold step in Ht. destruct (act l s) as [t |] eqn:E; [| done].
  simpl in Ht. rewrite Hf in Ht. injection Ht as <-. destruct (act_await _ _ _ _ Hw Hl Ha E) as (w' & Hw' & Ha').
  destruct (freed t) eqn:Hf'; [apply (awake_unless _ _ Ha'); by rewrite (freed_handle _ Hs' Hf') |].
  exists w'. split; [done |]. split; [| done]. destruct Hs' as (v & Hv & Hl'). rewrite (Hv Hf') in Hw'.
  by rewrite <- (enc_inj _ _ Hw').
Qed.

Lemma spawned_sound : sound spawned.
Proof.
  split; [apply spawned_alive |]. destruct spawned_alive as (w & Hw & Hl). specialize (Hw eq_refl).
  exists w. split; [done |]. split; [done |]. change (word spawned) with (enc (fresh_word true false true 1)) in Hw.
  apply enc_inj in Hw as <-. by apply await_fresh.
Qed.

Lemma steps_sound ls s s' : sound s -> walks_apart ls s = true -> steps ls s = Some s' -> sound s'.
Proof.
  revert s. induction ls as [| l ls IH]; simpl; intros s H; [by intros _ [= <-] |]. intros [Hp Hr]%andb_true_iff.
  destruct (step l s) as [t |] eqn:Hs; [| done]. simpl. apply IH; [| done]. eapply step_sound; [done | | exact Hs].
  intros ->. by apply negb_true_iff.
Qed.
