(* ===== verification/TaskSpec.v ===== *)
(** * What the task's state machine promises

    Over every run of the system of [Task], from the spawn on and whatever the
    interleaving: nothing that must not happen happens, the memory is freed
    exactly when nobody is left, the awaiter's cell has one user at a time, a
    handle that sleeps is woken once the task is over, and the run comes to its
    end. The walk of a shutdown is kept out of one window, that of the last
    reference; the race it loses there is shown by a run. *)

From S2P Require Import Prelude TaskWord Task TaskInv.
From S2P Require Import TaskLife TaskAwait.
Open Scope Z_scope.

(** ** Safety *)

(** The runs the properties quantify over. *)
Definition reached (ls : list Label) (s : Task) : Prop := steps ls spawned = Some s.

Lemma reached_sound ls s : reached ls s -> walks_apart ls spawned = true -> sound s.
Proof. intros Hs Hp. by apply (steps_sound ls spawned), Hs; [apply spawned_sound |]. Qed.

(** C1. Whatever the run, the wakers, the handle, an abort handle and the
    shutdown walk do and in whatever order, unless the walk meets the task in
    the window of its last reference ([unheld]: the last waker's drop or the
    run's end, between its subtraction and what follows it), no memory is used
    after it is freed or freed twice, no future is dropped twice or polled
    after its drop, no output is read where there is none, and no second
    runnable is made; and the output is handed to the handle at most once. In
    that window the code keeps no such promise: a run that breaks it is below. *)
Theorem task_is_safe ls s :
  reached ls s -> walks_apart ls spawned = true -> bad s = false /\ 0 <= outputs s <= 1.
Proof.
  intros Hr Hp. destruct (reached_sound _ _ Hr Hp) as [(w & _ & Hl) _]. split; [apply Hl |].
  destruct (life_output _ _ Hl) as [-> | [-> _]]; lia.
Qed.

(** Nobody works on the task any more. *)
Definition nobody_left (s : Task) : Prop :=
  rn s = RNone /\ hd s = HGone /\ kn s = KNone /\ wakers s = 0 /\ dropping s = 0 /\ last s = false.

(** C19. The task's memory is freed exactly when nobody is left: no runnable
    and no run, no handle, no waker and no abort handle; and then the future
    and the output are gone. So it is neither freed early nor leaked, unless
    the shutdown walk meets the task in the window of its last reference. *)
Theorem task_freed_iff_left ls s :
  reached ls s -> walks_apart ls spawned = true ->
  (freed s = true <-> nobody_left s) /\ (freed s = true -> core s = CEmpty).
Proof.
  intros Hls Hp. destruct (reached_sound _ _ Hls Hp) as [(w & _ & [_ Hr [Hw Hd] Hh _ Hl _ _]) _]. unfold left_ok, nobody_left in *.
  pose proof (cancel_ref_range (kn s)) as Hk. split; [split |].
  - intros Hf. rewrite Hf in Hl. destruct (last s); [done |]. destruct Hl as (E1 & E2 & E3 & E4).
    rewrite E1, E3 in Hr. rewrite E2 in Hh. simpl in Hr. split_and!; try done; try lia; [by destruct (hd s) |].
    destruct (kn s); simpl in *; [done | lia ..].
  - intros (E1 & E2 & E3 & E4 & E5 & E6). rewrite E1, E3, E4, E5 in Hr. rewrite E2 in Hh. rewrite E6, E1, Hh, Hr in Hl.
    simpl in Hl. destruct (freed s); [done |]. naive_solver.
  - intros Hf. rewrite Hf in Hl. destruct (last s); [done |]. apply Hl.
Qed.

(** The awaiter's cell has one user at a time: at most one notifier owns
    it, and none while the handle stores its waker. *)
Theorem awaiter_cell_is_exclusive ls s :
  reached ls s -> walks_apart ls spawned = true -> freed s = false ->
  0 <= owners s <= 1 /\ (storing (hd s) = true -> owners s = 0).
Proof.
  intros Hls Hp Hf. destruct (reached_sound _ _ Hls Hp) as [_ Hs]. rewrite Hf in Hs. destruct Hs as (w & _ & _ & Ha). split.
  - rewrite (aw_own _ _ Ha). destruct (_ && _); simpl; lia.
  - intros Ht. by apply (storing_alone _ _ Ha).
Qed.

(** *** A handle keeps the walk apart

    In the window of the last reference there is no handle, and there is none
    from then on: while there is one, no walk was in the window. *)

Definition handle_gone (s : Task) : Prop := hd s = HGone /\ asleep s = None.

Lemma unheld_gone s : sound s -> unheld s = true -> handle_gone s.
Proof.
  intros [(w & Hw & Hl) Hi] Hu. assert (hd s = HGone) as Hh.
  { pose proof (life_left _ _ Hl) as Hx. pose proof (life_handle _ _ Hl) as Hh. pose proof (life_stage _ _ Hl) as Hs.
    unfold unheld, left_ok in *. enough (tas w = false) as Ht by (rewrite Ht in Hh; by destruct (hd s)).
    destruct (last s), (freed s), (rn s); try done; naive_solver. }
  split; [done |]. destruct (freed s); [done |]. destruct Hi as (v & _ & _ & Ha). apply (awake_unless _ _ Ha). by rewrite Hh.
Qed.

Lemma wake_gone aw s : handle_gone s -> handle_gone (wake_awaiter aw s).
Proof. intros [Hh Ha]. destruct aw; [| done]. split; [done |]. simpl. rewrite Ha. by case_match. Qed.

Ltac gone :=
  unfold destroy, schedule, read_output, drop_future; cbn zeta; repeat (first [done | apply wake_gone | case_match]).

Lemma close_gone b s s' : handle_gone s -> close s = Some (b, s') -> handle_gone s'.
Proof. intros H. unfold close. destruct (ended_word _); [done |]. intros [= _ <-]. gone. Qed.

Lemma run_next_gone q s s' : handle_gone s -> run_next q s = Some s' -> handle_gone s'.
Proof.
  intros H. unfold run_next. destruct (rn s); try done; intros [= <-].
  all: unfold settle_pending, output_made, end_drop, complete, claim, publish, settle, take_start, take_end, drop_ref, unawaited_close, unawaited_drop, unawaited_end; gone.
Qed.

Lemma act_gone l s s' : handle_gone s -> act l s = Some s' -> handle_gone s'.
Proof.
  intros H Ha. pose proof H as [Hh Hw]. destruct l; unfold act, handle_next in Ha; rewrite ?Hh in Ha; try done.
  - destruct (rn s); try done. injection Ha as <-. unfold run_start. gone.
  - destruct (rn s); try done. injection Ha as <-. unfold runnable_dropped. gone.
  - destruct (rn s); try done. by injection Ha as <-.
  - destruct (rn s); try done. by injection Ha as <-.
  - by eapply run_next_gone.
  - destruct (rn s) as [| | | | | ? [] ? ? | | | | | | | | |]; try done. injection Ha as <-. unfold claim. gone.
  - unfold clone_waker in Ha. case_match; [by injection Ha as <- | done].
  - unfold wake in Ha. repeat case_match; try done; injection Ha as <-; gone.
  - unfold wake_by_ref in Ha. repeat case_match; try done; injection Ha as <-; gone.
  - unfold drop_waker in Ha. destruct (if spent then _ else _); [| done]. injection Ha as <-. destruct spent; gone.
  - unfold store_last in Ha. destruct (last s); [| done]. injection Ha as <-. gone.
  - unfold abort in Ha. destruct (0 <? wakers s); [| done].
    destruct (close s) as [[[] t] |] eqn:Hc; simpl in Ha; injection Ha as <-; try done; apply (close_gone _ _ _ H) in Hc; gone.
  - unfold abort_next in Ha. destruct (kn s); [done | ..]; injection Ha as <-; gone.
  - unfold walk in Ha. destruct (core s); try done.
    destruct (close s) as [[b t] |] eqn:Hc; injection Ha as <-; [by eapply close_gone | done].
Qed.

Lemma steps_gone ls s s' : handle_gone s -> steps ls s = Some s' -> handle_gone s'.
Proof.
  revert s. induction ls as [| l ls IH]; simpl; intros s H; [by intros [= <-] |]. unfold step at 1.
  destruct (act l s) as [t |] eqn:Ha; [| done]. simpl. apply IH. apply (act_gone _ _ _ H) in Ha. by destruct (freed s).
Qed.

Lemma asleep_apart ls s s' : sound s -> steps ls s = Some s' -> asleep s' <> None -> walks_apart ls s = true.
Proof.
  intros Hs Ht Hx. revert s Hs Ht. induction ls as [| l ls IH]; [done |]. intros s Hs Ht. cbn [walks_apart].
  assert (apart l s) as Hp.
  { intros ->. destruct (unheld s) eqn:Hu; [| done]. by destruct (steps_gone _ _ _ (unheld_gone _ Hs Hu) Ht). }
  replace (match l with LWalk => unheld s | _ => false end) with false by (destruct l; try done; by rewrite Hp).
  simpl in Ht |- *. destruct (step l s) as [t |] eqn:E; [| done]. apply IH; [by eapply step_sound | done].
Qed.

(** ** Liveness *)

(** The steps of somebody who already has the awaiter to tell: not a new poll,
    clone, wake or drop. *)
Definition committed (l : Label) : Prop := l = LNext false \/ l = LAbortNext \/ l = LHandle true.

(** Within [n] such steps, [x] is woken. *)
Definition wakes_within (n : nat) (x : Waker) (s : Task) : Prop :=
  exists ls s', Forall committed ls /\ (length ls <= n)%nat /\ steps ls s = Some s' /\
    asleep s' = None /\ x ∈ woken s'.

Lemma wakes_step l n x s t :
  committed l -> freed s = false -> act l s = Some t -> wakes_within n x t -> wakes_within (S n) x s.
Proof.
  intros Hc Hf Ha (ls & s' & H1 & H2 & H3 & H4). exists (l :: ls), s'. split; [by constructor |].
  split; [simpl; lia |]. split; [| done]. simpl. unfold step. by rewrite Ha, Hf.
Qed.

(** The last of them. *)
Lemma wakes_now l x s t :
  committed l -> freed s = false -> act l s = Some (wake_awaiter (Some x) t) -> asleep t = Some x ->
  wakes_within 1 x s.
Proof.
  intros Hc Hf Ha Hx. eapply wakes_step; try done. exists [], (wake_awaiter (Some x) t).
  split; [done |]. split; [done |]. split; [done |]. split; [by apply asleep_woken |]. simpl. set_solver.
Qed.

Lemma wakes_le m n x s : (m <= n)%nat -> wakes_within m x s -> wakes_within n x s.
Proof. intros Hm (ls & s' & H1 & H2 & H). exists ls, s'. split; [done |]. split; [lia | done]. Qed.

(** A task with a sleeper, and where its waker is. *)
Definition sleeper (x : Waker) (s : Task) : Prop := sound s /\ freed s = false /\ asleep s = Some x.

Lemma sleeper_took x s aw : sleeper x s -> took s aw -> aw = Some x \/ rn s = RDropRef (Some x).
Proof.
  intros ([_ Hs] & Hf & Hx) Ht. rewrite Hf in Hs. destruct Hs as (w & _ & _ & Ha).
  destruct (decide (aw = Some x)); [by left | right]. by eapply owed_after.
Qed.

Lemma sleeper_step l x s t :
  sleeper x s -> act l s = Some t -> l <> LWalk -> freed t = false -> asleep t = Some x -> sleeper x t.
Proof.
  intros (Hs & Hf & Hx) Ha Hc Hf' Hx'. split; [| done]. eapply step_sound; [exact Hs | by intros ? |]. unfold step.
  rewrite Ha. simpl. by rewrite Hf.
Qed.

(** The run's way to the wake. *)
Lemma drop_ref_wakes x s : sleeper x s -> rn s = RDropRef (Some x) -> wakes_within 1 x s.
Proof.
  intros (Hs & Hf & Hx) Hr. eapply (wakes_now (LNext false)); [by left | done | |].
  - simpl. unfold run_next. rewrite Hr. unfold drop_ref. reflexivity.
  - unfold destroy. simpl. repeat case_match; done.
Qed.

Lemma run_took_wakes x s e aw : sleeper x s -> rn s = RTook e aw -> wakes_within 2 x s.
Proof.
  intros Hs Hr. pose proof Hs as (_ & Hf & Hx).
  assert (aw = Some x) as ->. { destruct (sleeper_took _ _ aw Hs) as [| Hd]; [left; by rewrite Hr | done | congruence]. }
  destruct (decide (e = EDropped)) as [-> | He].
  - apply (wakes_le 1); [lia |]. eapply (wakes_now (LNext false)); [by left | done | |].
    + simpl. unfold run_next. by rewrite Hr.
    + done.
  - assert (act (LNext false) s = Some (set_run (RDropRef (Some x)) (set_word (without (Z.lor NOTIFYING AWAITER) (word s)) s))) as Ha.
    { simpl. unfold run_next. rewrite Hr. by destruct e. }
    eapply wakes_step; [by left | done | exact Ha |]. apply drop_ref_wakes; [| done]. by eapply sleeper_step.
Qed.

Lemma run_hold_wakes x s e : sleeper x s -> rn s = RHold e -> wakes_within 3 x s.
Proof.
  intros Hs Hr. assert (act (LNext false) s = Some (set_run (RTook e (cell s)) (set_cell None s))) as Ha.
  { simpl. unfold run_next. by rewrite Hr. }
  pose proof Hs as (_ & Hf & Hx). eapply wakes_step; [by left | done | exact Ha |].
  eapply run_took_wakes; [by eapply sleeper_step | done].
Qed.

Lemma sleeper_free x s : sleeper x s -> owners s = 0 -> free_cell (word s) = true.
Proof.
  intros ([_ Hi] & Hf & Hx) Ho. rewrite Hf in Hi. destruct Hi as (w & Hw & _ & Ha).
  destruct (take_word _ _ Hw) as [-> _]. pose proof (aw_own _ _ Ha) as E. rewrite Ho, (aw_reg _ _ Ha) in *.
  rewrite sleeper_not_storing in * by (apply (aw_sleeps _ _ Ha); congruence). by destruct (ntf w).
Qed.

Lemma run_take_wakes x s e : sleeper x s -> rn s = RTake e -> owners s = 0 -> wakes_within 4 x s.
Proof.
  intros Hs Hr Ho. pose proof Hs as (_ & Hf & Hx). pose proof (sleeper_free _ _ Hs Ho) as Hc.
  assert (act (LNext false) s = Some (set_run (RHold e) (set_word (with_ NOTIFYING (word s)) s))) as Hact.
  { simpl. unfold run_next, take_start. by rewrite Hr, Hc. }
  eapply wakes_step; [by left | done | exact Hact |]. eapply run_hold_wakes; [by eapply sleeper_step | done].
Qed.

(** [complete]'s way: it may still have to drop an output nobody takes. *)
Lemma published_wakes x s p u :
  sleeper x s -> rn s = RComplete p Claimed (Some x) u -> u <> UKept -> wakes_within 1 x s.
Proof.
  intros (Hs & Hf & Hx) Hr Hu.
  set (new := completed_word p Claimed (word s)).
  set (t := set_run RNone (set_word new s)).
  eapply (wakes_now (LNext false) x s (if no_refs new && negb (has TASK new) then destroy t else t)); [by left | done | |].
  - simpl. unfold run_next. rewrite Hr. simpl. unfold publish. by destruct u.
  - subst t. unfold destroy. simpl. repeat case_match; done.
Qed.

Lemma read_output_same s : freed (read_output s) = freed s /\ asleep (read_output s) = asleep s.
Proof. unfold read_output. by destruct (core s). Qed.

Lemma claimed_wakes x s p aw u : sleeper x s -> rn s = RComplete p Claimed aw u -> wakes_within 2 x s.
Proof.
  intros Hs Hr. pose proof Hs as (_ & Hf & Hx). destruct (read_output_same s) as [F1 F2].
  assert (aw = Some x) as ->. { destruct (sleeper_took _ _ aw Hs) as [| Hd]; [left; by rewrite Hr | done | congruence]. }
  destruct (decide (u = UKept)) as [-> | Hu]; [| apply (wakes_le 1); [lia |]; by eapply published_wakes].
  assert (Hd : forall v, v <> UKept ->
    act (LNext false) s = Some (set_run (RComplete p Claimed (Some x) v) (read_output s)) -> wakes_within 2 x s).
  { intros v Hv Ha. eapply wakes_step; [by left | done | exact Ha |].
    eapply published_wakes; [| done | done]. eapply sleeper_step; [done | exact Ha | simpl; congruence ..]. }
  destruct (negb (has TASK (word s))) eqn:H1; [| destruct (negb p && has CLOSED (word s)) eqn:H2].
  - apply (Hd UTaken); [done |]. simpl. unfold run_next. rewrite Hr. simpl. unfold publish. by rewrite H1.
  - apply (Hd UDropped); [done |]. simpl. unfold run_next. rewrite Hr. simpl. unfold publish. by rewrite H1, H2.
  - apply (wakes_le 1); [lia |]. set (new := completed_word p Claimed (word s)).
    set (t := set_run RNone (set_word new s)).
    eapply (wakes_now (LNext false) x s (if no_refs new && negb (has TASK new) then destroy t else t)); [by left | done | |].
    + simpl. unfold run_next. rewrite Hr. simpl. unfold publish. by rewrite H1, H2.
    + subst t. unfold destroy. simpl. repeat case_match; done.
Qed.

Lemma cell_held_wakes x s p aw u : sleeper x s -> rn s = RComplete p CellHeld aw u -> wakes_within 3 x s.
Proof.
  intros Hs Hr. assert (act (LNext false) s = Some (set_run (RComplete p Claimed (cell s) u) (set_cell None s))) as Ha.
  { simpl. unfold run_next. by rewrite Hr. }
  pose proof Hs as (_ & Hf & Hx). eapply wakes_step; [by left | done | exact Ha |].
  eapply claimed_wakes; [by eapply sleeper_step | done].
Qed.

(** An abort handle's way. *)
Lemma abort_took_wakes x s aw : sleeper x s -> kn s = KTook aw -> wakes_within 1 x s.
Proof.
  intros Hs Hk. pose proof Hs as (_ & Hf & Hx).
  destruct (sleeper_took _ _ aw Hs) as [-> | Hd]; [right; right; by rewrite Hk | | by apply drop_ref_wakes].
  eapply (wakes_now LAbortNext); [by right; left | done | |].
  - simpl. unfold abort_next. by rewrite Hk.
  - done.
Qed.

Lemma abort_hold_wakes x s : sleeper x s -> kn s = KHold -> wakes_within 2 x s.
Proof.
  intros Hs Hk. assert (act LAbortNext s = Some (set_cancel (KTook (cell s)) (set_cell None s))) as Ha.
  { simpl. unfold abort_next. by rewrite Hk. }
  pose proof Hs as (_ & Hf & Hx). eapply wakes_step; [by right; left | done | exact Ha |].
  eapply abort_took_wakes; [by eapply sleeper_step | done ..].
Qed.

Lemma abort_notify_wakes x s :
  sleeper x s -> kn s = KNotify -> owners s = 0 -> wakes_within 3 x s.
Proof.
  intros Hs Hk Ho. pose proof Hs as (_ & Hf & Hx).
  assert (act LAbortNext s = Some (set_cancel KHold (set_word (with_ NOTIFYING (word s)) s))) as Ha.
  { simpl. unfold abort_next. by rewrite Hk, (sleeper_free _ _ Hs Ho). }
  eapply wakes_step; [by right; left | done | exact Ha |].
  eapply abort_hold_wakes; [by eapply sleeper_step | done ..].
Qed.

(** The handle's own cancel, on its way to tell. *)
Lemma handle_took_wakes x s aw :
  sleeper x s -> hd s = HTook aw None (TCancelled false) -> wakes_within 1 x s.
Proof.
  intros Hs Hh. pose proof Hs as (_ & Hf & Hx).
  destruct (sleeper_took _ _ aw Hs) as [-> | Hd]; [right; left; by rewrite Hh | | by apply drop_ref_wakes].
  eapply (wakes_now (LHandle true)); [by right; right | done | |].
  - simpl. unfold handle_next. by rewrite Hh.
  - done.
Qed.

Lemma handle_hold_wakes x s :
  sleeper x s -> hd s = HHold None (TCancelled false) -> wakes_within 2 x s.
Proof.
  intros Hs Hh. pose proof Hs as (_ & Hf & Hx).
  assert (act (LHandle true) s = Some (set_handle (HTook (cell s) None (TCancelled false)) (set_cell None s))) as Ha.
  { simpl. unfold handle_next. by rewrite Hh. }
  eapply wakes_step; [by right; right | done | exact Ha |].
  eapply handle_took_wakes; [by eapply sleeper_step | done ..].
Qed.

Lemma handle_notify_wakes x s :
  sleeper x s -> hd s = HNotify None (TCancelled false) -> owners s = 0 ->
  wakes_within 3 x s.
Proof.
  intros Hs Hh Ho. pose proof Hs as (_ & Hf & Hx).
  assert (act (LHandle true) s = Some (set_handle (HHold None (TCancelled false)) (set_word (with_ NOTIFYING (word s)) s))) as Ha.
  { simpl. unfold handle_next. by rewrite Hh, (sleeper_free _ _ Hs Ho). }
  eapply wakes_step; [by right; right | done | exact Ha |].
  eapply handle_hold_wakes; [by eapply sleeper_step | done ..].
Qed.

(** Whoever owns the cell wakes. *)
Lemma owner_wakes x s : sleeper x s -> owners s = 1 -> wakes_within 4 x s.
Proof.
  intros Hs Ho. pose proof Hs as ([_ Hi] & Hf & Hx). rewrite Hf in Hi. destruct Hi as (w & _ & _ & Ha).
  assert (may_sleep (hd s) = true) as Hm by (apply (aw_sleeps _ _ Ha); congruence).
  unfold owners in Ho. destruct (own_r (rn s)) eqn:Er; [| | by pose proof (own_range s); lia].
  - destruct (own_h (hd s)) eqn:Eh; [| | by pose proof (own_range s); lia].
    + destruct (kn s) eqn:Hk; simpl in Ho; try lia;
        [apply (wakes_le 2); [lia |]; by apply abort_hold_wakes | apply (wakes_le 1); [lia |]; by eapply abort_took_wakes].
    + destruct (hd s) as [| | | | | | | | c t | aw c t | | | |] eqn:Hh; try done; destruct c, t as [| | []]; try done;
        [apply (wakes_le 2); [lia |]; by apply handle_hold_wakes | apply (wakes_le 1); [lia |]; by eapply handle_took_wakes].
  - destruct (rn s) as [| | | | | ? [] | | | | | | | | |] eqn:E; try done.
    + apply (wakes_le 3); [lia |]. by eapply cell_held_wakes.
    + apply (wakes_le 2); [lia |]. by eapply claimed_wakes.
    + apply (wakes_le 3); [lia |]. by eapply run_hold_wakes.
    + apply (wakes_le 2); [lia |]. by eapply run_took_wakes.
Qed.

(** The task is over: completed, or closed and at rest. *)
Definition over_word (w : Z) : bool := has COMPLETED w || has CLOSED w && idle_word w.

(** C20. A handle that sleeps on the task is woken once the task is over:
    whatever led there, somebody already has the awaiter to tell, and within
    four steps of theirs the waker the handle left is woken. No wake is lost
    between a registration and a completion, a cancel or another wake. *)
Theorem sleeper_is_woken ls s x :
  reached ls s -> asleep s = Some x -> looking (hd s) = false -> over_word (word s) = true ->
  wakes_within 4 x s.
Proof.
  intros Hr Hx Hl Ho. assert (walks_apart ls spawned = true) as Hp by (eapply asleep_apart; [apply spawned_sound | exact Hr | congruence]).
  destruct (reached_sound _ _ Hr Hp) as [Hs Hi]. destruct (freed s) eqn:Hf; [congruence |].
  assert (sleeper x s) as Hsl by (split; [split; [done |]; by rewrite Hf | done]).
  destruct Hi as (w & Hw & _ & Ha). unfold over_word, idle_word in Ho. rewrite Hw in Ho. autorewrite with word in Ho.
  destruct (aw_owed _ _ Ha _ Hx) as [[Hwa Hst] | Hd]; [| apply (wakes_le 1); [lia |]; by apply drop_ref_wakes].
  assert (may_sleep (hd s) = true) as Hm by (apply (aw_sleeps _ _ Ha); congruence).
  destruct (decide (owners s = 1)) as [E | E]; [by apply owner_wakes |].
  assert (owners s = 0) as E0 by (rewrite (aw_own _ _ Ha) in *; by destruct (ntf w && negb (reg w))).
  destruct (aw_told _ _ Ha) as [Hn | [[e Hn] | [Hn | (c & t & Hn)]]]; try done; [congruence | | |].
  - by eapply run_take_wakes.
  - apply (wakes_le 3); [lia |]. by apply abort_notify_wakes.
  - apply (wakes_le 3); [lia |]. rewrite Hn in Hm. destruct c, t as [| | []]; try done. by apply handle_notify_wakes.
Qed.

(** ** The run comes to its end *)

(** How many operations of its own a run has left at most before the runnable
    is gone or handed on. *)
Definition rank (r : Run) : nat :=
  match r with
  | RNone | RRunnable | RPolling => 0
  | RUnawaitedEnd => 1
  | RUnawaitedDrop => 2
  | RUnawaited => 3
  | RDropRef _ => 4
  | RTook _ _ => 5
  | RHold _ => 6
  | RTake _ => 7
  | RSettle _ _ => 8
  | RDropFuture _ => 9
  | RPend => 10
  | RReady _ => 5
  | RComplete _ c _ u =>
      match c with NotClaimed => 3 | CellHeld => 2 | Claimed => 1 end + match u with UKept => 1 | _ => 0 end
  end.

Lemma wake_rn aw s : rn (wake_awaiter aw s) = rn s.
Proof. by destruct aw. Qed.
Lemma destroy_rn s : rn (destroy s) = rn s.
Proof. unfold destroy. by destruct (core s), (freed s). Qed.
Lemma read_output_rn s : rn (read_output s) = rn s.
Proof. unfold read_output. by destruct (core s). Qed.

Lemma claim_rank p u s aw : rn s = RComplete p NotClaimed aw u -> (rank (rn (claim p u s)) <= rank (rn s))%nat.
Proof. intros Hr. unfold claim. destruct (free_cell _); simpl; rewrite ?Hr; simpl; lia. Qed.

Lemma publish_rank p c aw u s : (rank (rn (publish p c aw u s)) < rank (RComplete p c aw u))%nat.
Proof.
  unfold publish. cbn zeta. destruct u.
  2, 3: rewrite wake_rn; case_match; rewrite ?destroy_rn; destruct c; simpl; lia.
  case_match; [destruct c; simpl; lia |]. case_match; [destruct c; simpl; lia |].
  rewrite wake_rn. case_match; rewrite ?destroy_rn; destruct c; simpl; lia.
Qed.

(** Each operation of the run brings it closer. *)
Lemma run_next_rank q s s' : run_next q s = Some s' -> (rank (rn s') < rank (rn s))%nat.
Proof.
  destruct (rn s) eqn:Hr; unfold run_next; rewrite Hr; try done; intros [= <-].
  - unfold settle_pending. repeat case_match; simpl; lia.
  - simpl. lia.
  - destruct c; simpl; [| lia | by apply publish_rank].
    destruct (_ && _) eqn:E; [| by apply publish_rank]. apply andb_true_iff in E as [_ E].
    unfold claim. rewrite E. simpl. lia.
  - simpl. lia.
  - unfold settle. simpl. case_match; simpl; lia.
  - simpl. case_match; simpl; lia.
  - simpl. lia.
  - unfold take_end. destruct e; simpl; rewrite ?wake_rn; simpl; lia.
  - unfold drop_ref. cbn zeta. rewrite wake_rn. repeat case_match; rewrite ?destroy_rn; simpl; lia.
  - simpl. lia.
  - simpl. lia.
  - unfold unawaited_end. case_match; rewrite ?destroy_rn; simpl; lia.
Qed.

Lemma schedule_rank s : rn s <> RNone -> rn (schedule s) = rn s.
Proof. unfold schedule. by destruct (rn s) eqn:E. Qed.

Lemma close_rank b s s' : rn s <> RNone -> close s = Some (b, s') -> rn s' = rn s.
Proof.
  intros Hr. unfold close. destruct (ended_word _); [done |]. intros [= <- <-].
  destruct (idle_word _); [by rewrite schedule_rank | done].
Qed.

Lemma told_rn t s : rn (told t s) = rn s.
Proof. by destruct t as [| | []]. Qed.

Lemma handle_rank b s s' : rn s <> RNone -> handle_next b s = Some s' -> rn s' = rn s.
Proof.
  intros Hr. unfold handle_next. destruct (hd s); try done; intros [= <-].
  - unfold poll_raw. repeat case_match; done.
  - unfold register. repeat case_match; done.
  - done.
  - unfold registered. cbn zeta. rewrite wake_rn. simpl. by case_match.
  - unfold look_again. repeat case_match; done.
  - case_match; [done | by rewrite told_rn].
  - done.
  - repeat case_match; simpl; rewrite ?wake_rn; by rewrite told_rn.
  - apply read_output_rn.
  - unfold handle_cancel. destruct (close s) as [[[] t] |] eqn:Hc; rewrite ?told_rn; simpl; try by eapply close_rank.
    done.
  - unfold set_detached. case_match; [done |]. case_match; [| done].
    case_match; [by rewrite destroy_rn | by rewrite schedule_rank].
  - apply read_output_rn.
Qed.

(** Nobody else takes a run back. *)
Lemma act_rank l s s' :
  (0 < rank (rn s))%nat -> act l s = Some s' ->
  (rank (rn s') + (if l is LNext _ then 1 else 0) <= rank (rn s))%nat.
Proof.
  intros Hp Ha. assert (rn s <> RNone) as Hr by (intros E; rewrite E in Hp; simpl in Hp; lia).
  enough (match l with LNext _ | LClaim => True | _ => rn s' = rn s end) as H.
  { destruct l; simpl in Ha; try (rewrite H; lia).
    - apply run_next_rank in Ha. lia.
    - destruct (rn s) as [| | | | | ? [] ? ? | | | | | | | | |] eqn:E; try done. injection Ha as <-.
      rewrite <- E. rewrite Nat.add_0_r. by eapply claim_rank. }
  destruct l; simpl in Ha; try done; try (destruct (rn s); simpl in Hp; solve [done | lia]);
    try (destruct (hd s); try done; injection Ha as <-; done).
  - unfold clone_waker in Ha. destruct (_ && _); [| done]. by injection Ha as <-.
  - unfold wake in Ha. destruct (0 <? wakers s); [| done]. destruct (ended_word _); [by injection Ha as <- |].
    injection Ha as <-. case_match; [by rewrite schedule_rank | done].
  - unfold wake_by_ref in Ha. destruct (_ || _); [| done]. destruct (ended_word _); [by injection Ha as <- |].
    destruct (idle_word _); [destruct (_ <=? _); [| done] |]; injection Ha as <-; [by rewrite schedule_rank | done].
  - unfold drop_waker in Ha. destruct (if spent then _ else _); [| done]. injection Ha as <-.
    destruct spent; simpl; repeat case_match; rewrite ?destroy_rn; done.
  - unfold store_last in Ha. destruct (last s); [| done]. injection Ha as <-. by rewrite schedule_rank.
  - unfold abort in Ha. destruct (0 <? wakers s); [| done].
    destruct (close s) as [[[] t] |] eqn:Hc; simpl in Ha; injection Ha as <-; try done; [| by eapply close_rank].
    destruct (kn t); simpl; by eapply close_rank.
  - unfold abort_next in Ha. destruct (kn s); [done | ..]; injection Ha as <-; rewrite ?wake_rn; try done. by case_match.
  - by eapply handle_rank.
  - destruct (hd s); try done. injection Ha as <-. unfold drop_handle. case_match; [by rewrite destroy_rn | done].
  - unfold walk in Ha. destruct (core s); try done.
    destruct (close s) as [[? t] |] eqn:Hc; injection Ha as <-; [by eapply close_rank | done].
Qed.

(** The operations of the run in a trace. *)
Fixpoint nexts (ls : list Label) : nat :=
  match ls with
  | [] => 0
  | LNext _ :: ls => S (nexts ls)
  | _ :: ls => nexts ls
  end.

Lemma rank_bound r : (rank r <= 10)%nat.
Proof. destruct r as [| | | | | ? [] ? [] | | | | | | | | |]; simpl; lia. Qed.

Lemma rank_step l s s' :
  rank (rn s) <> 0%nat -> step l s = Some s' -> (rank (rn s') + nexts [l] <= rank (rn s))%nat.
Proof.
  intros Hr Hs. unfold step in Hs. destruct (act l s) as [v |] eqn:Ha; [| done].
  apply act_rank in Ha; [| lia]. assert (rn s' = rn v) as ->.
  { simpl in Hs. destruct (freed s); by injection Hs as <-. }
  by destruct l.
Qed.

(** A run whose poll returned comes to its end whatever others do in
    between: until the runnable is handed on or gone, the run always has a next
    operation, and it has at most ten. *)
Theorem run_comes_to_an_end ls s s' :
  steps ls s = Some s' ->
  (forall ls1 ls2 t, ls = ls1 ++ ls2 -> steps ls1 s = Some t -> rank (rn t) <> 0%nat) ->
  (rank (rn s') + nexts ls <= rank (rn s) <= 10)%nat /\ forall q, is_Some (run_next q s').
Proof.
  intros Hs Hr. split.
  - split; [| apply rank_bound]. revert s Hs Hr. induction ls as [| l ls IH]; intros s Hs Hr.
    + simpl in *. injection Hs as ->. lia.
    + simpl in Hs. destruct (step l s) as [u |] eqn:Hu; [| done]. simpl in Hs.
      assert (rank (rn u) + nexts [l] <= rank (rn s))%nat.
      { apply rank_step; [| done]. by apply (Hr [] (l :: ls)). }
      assert (rank (rn s') + nexts ls <= rank (rn u))%nat.
      { apply IH; [done |]. intros ls1 ls2 t -> Ht. apply (Hr (l :: ls1) ls2); [done |]. simpl. by rewrite Hu. }
      destruct l; simpl in *; lia.
  - intros q. specialize (Hr ls [] s'). rewrite app_nil_r in Hr. specialize (Hr eq_refl Hs).
    unfold run_next. destruct (rn s'); simpl in Hr; try done; by eexists.
Qed.

(** ** The race of a shutdown *)

Definition a_race : list Label :=
  [LRun; LClone; LPending; LNext false; LDetach; LHandle true; LDropWaker false;
   LWalk; LDropRunnable; LNext false; LNext false; LNext false; LStoreLast].

(** C37. The last waker's drop races with the walk of a shutdown: a detached task that waits, whose last waker is dropped on
    another thread, has no reference between the subtraction and the store of
    [drop_waker], yet it is still listed and open. A walk in between closes it,
    drops its future and frees its memory; the store then writes freed memory
    and schedules a second runnable. *)
Theorem last_waker_races_with_the_walk :
  exists s,
    steps a_race spawned = Some s /\
    freed s = true /\ rn s = RRunnable /\ bad s = true.
Proof. exists (default spawned (steps a_race spawned)). split_and!; lazy; reflexivity. Qed.

(** ** Instances *)

(** A task that waits once, is woken, returns, and is awaited. *)
Definition a_life : list Label :=
  [LRun; LClone; LPending; LNext false; LPoll 5; LHandle true; LHandle true; LHandle true; LHandle true; LHandle true;
   LWake; LRun; LReady false; LNext false; LNext false; LNext false; LNext false; LPoll 5; LHandle true; LHandle true;
   LDropHandle].

(** One whose handle sleeps while an abort handle and the drop of the runnable
    meet at its awaiter. *)
Definition a_cancel : list Label :=
  [LRun; LClone; LPending; LNext false; LPoll 5; LHandle true; LHandle true; LHandle true; LHandle true; LHandle true;
   LAbort; LAbortNext; LAbortNext; LDropRunnable; LNext false; LNext false].

Definition ran (ls : list Label) : Task := default spawned (steps ls spawned).

Lemma task_is_safe_witness :
  reached a_life (ran a_life) /\ outputs (ran a_life) = 1 /\
  bad (ran a_life) = false /\ 0 <= outputs (ran a_life) <= 1.
Proof. split; [lazy; reflexivity |]. split; [lazy; reflexivity |]. apply (task_is_safe a_life); lazy; reflexivity. Defined.

Lemma task_freed_iff_left_witness :
  reached a_life (ran a_life) /\ freed (ran a_life) = true /\
  (freed (ran a_life) = true <-> nobody_left (ran a_life)) /\ (freed (ran a_life) = true -> core (ran a_life) = CEmpty).
Proof. split; [lazy; reflexivity |]. split; [lazy; reflexivity |]. apply (task_freed_iff_left a_life); lazy; reflexivity. Defined.

Lemma awaiter_cell_is_exclusive_witness :
  reached a_cancel (ran a_cancel) /\ owners (ran a_cancel) = 1 /\
  0 <= owners (ran a_cancel) <= 1 /\ (storing (hd (ran a_cancel)) = true -> owners (ran a_cancel) = 0).
Proof.
  split; [lazy; reflexivity |]. split; [lazy; reflexivity |]. apply (awaiter_cell_is_exclusive a_cancel); lazy; reflexivity.
Defined.

Lemma sleeper_is_woken_witness : asleep (ran a_cancel) = Some 5 /\ wakes_within 4 5 (ran a_cancel).
Proof. split; [lazy; reflexivity |]. apply (sleeper_is_woken a_cancel); lazy; reflexivity. Defined.

(** A run that ends a cancelled task while a waker is cloned and dropped between
    its steps. *)
Definition an_end : list Label := [LNext false; LClone; LNext false; LDropWaker false; LNext false].
Definition at_pend : Task := ran [LRun; LClone; LPending; LAbort].

Definition after_end : Task := default spawned (steps an_end at_pend).

Lemma run_comes_to_an_end_witness :
  (rank (rn after_end) + nexts an_end <= rank (rn at_pend) <= 10)%nat /\ forall q, is_Some (run_next q after_end).
Proof.
  apply (run_comes_to_an_end an_end at_pend); [lazy; reflexivity |].
  intros ls1 ls2 t. unfold an_end.
  do 5 (destruct ls1 as [| ? ls1]; intros E H; [lazy in H; injection H as <-; lazy; discriminate |
    injection E as <- E; revert E H]).
  intros E H. destruct ls1; [lazy in H; injection H as <-; lazy; discriminate | discriminate E].
Defined.
