(* ===== verification/ReadBuf.v ===== *)
(** * Buffers a read fills

    [io/util/read_buf.rs]: memory that may be uninitialized, the count of its
    first bytes that hold data and the count of those known to be initialized.
    An uninitialized byte is [None]; to show one to safe code is undefined
    behaviour, which is a fault of its own beside a panic. *)

From S2P Require Import Prelude Bytes.
Open Scope Z_scope.

(** ** The code *)

Notation byte := Z (only parsing).

(** What ends a call early: a documented panic; undefined behaviour; a caller
    that breaks the contract of an unsafe function or the type of a slice. *)
Inductive Fault : Type := Panicked | Undefined | Misused.

Definition Out (T : Type) : Type := Result T Fault.

Definition and_then {A B} (m : Out A) (k : A -> Out B) : Out B :=
  match m with Ok a => k a | Err e => Err e end.
Notation "'let?' x ':=' m 'in' k" := (and_then m (fun x => k))
  (at level 200, x pattern, m at level 100, k at level 200) : nuclei_scope.

(** A slice index or an [assert!] that fails panics. *)
Definition or_panic {A} (o : option A) : Out A := match o with Some a => Ok a | None => Err Panicked end.
Definition assert_ (b : bool) : Out unit := if b then Ok tt else Err Panicked.

Record ReadBuf : Type := { buf : list (option byte); filled : Z; initialized : Z }.

Definition set_buf x b := {| buf := x; filled := filled b; initialized := initialized b |}.
Definition set_filled_to x b := {| buf := buf b; filled := x; initialized := initialized b |}.
Definition set_initialized x b := {| buf := buf b; filled := filled b; initialized := x |}.

(** [slice_assume_init], [slice_assume_init_mut]: every byte is initialized. *)
Definition slice_assume_init (l : list (option byte)) : Out (list byte) :=
  match mapM (M := option) id l with Some l => Ok l | None => Err Undefined end.

Definition new (bytes : list byte) : ReadBuf :=
  {| buf := Some <$> bytes; filled := 0; initialized := vlen bytes |}.

Definition uninit (mem : list (option byte)) : ReadBuf :=
  {| buf := mem; filled := 0; initialized := 0 |}.

Definition capacity (b : ReadBuf) : Z := vlen (buf b).

Definition filled_bytes (b : ReadBuf) : Out (list byte) :=
  let? s := or_panic (slice 0 (filled b) (buf b)) in slice_assume_init s.

Definition initialized_bytes (b : ReadBuf) : Out (list byte) :=
  let? s := or_panic (slice 0 (initialized b) (buf b)) in slice_assume_init s.

(** What a caller writes through a [&mut [u8]] it was shown: as many bytes. *)
Definition write_shown (at_ : Z) (shown ws : list byte) (b : ReadBuf) : Out ReadBuf :=
  if vlen ws =? vlen shown
  then let? m := or_panic (write_at at_ (Some <$> ws) (buf b)) in Ok (set_buf m b)
  else Err Misused.

Definition filled_mut (ws : list byte) (b : ReadBuf) : Out ReadBuf :=
  let? shown := filled_bytes b in write_shown 0 shown ws b.

Definition initialized_mut (ws : list byte) (b : ReadBuf) : Out ReadBuf :=
  let? shown := initialized_bytes b in write_shown 0 shown ws b.

Definition remaining (b : ReadBuf) : Out Z := or_panic (sub64 (capacity b) (filled b)).

(** [take]: the buffer over part of the unfilled memory. *)
Definition take (n : Z) (b : ReadBuf) : Out ReadBuf :=
  let? room := remaining b in
  let n := Z.min n room in
  let initialized := Z.min (Z.max 0 (initialized b - filled b)) n in
  let? mem := or_panic (slice (filled b) (capacity b) (buf b)) in
  let? mem := or_panic (slice 0 n mem) in
  Ok (set_initialized initialized (uninit mem)).

(** The memory of the taken buffer is the buffer's own. *)
Definition put_back (taken : ReadBuf) (b : ReadBuf) : Out ReadBuf :=
  let? m := or_panic (write_at (filled b) (buf taken) (buf b)) in Ok (set_buf m b).

(** [initialize_unfilled_to], and what the caller writes into what it shows. *)
Definition initialize_unfilled_to (n : Z) (b : ReadBuf) : Out (list byte * ReadBuf) :=
  let? room := remaining b in
  let? _ := assert_ (n <=? room) in
  let end_ := filled b + n in
  let? b :=
    if initialized b <? end_ then
      let? m := or_panic (write_at (initialized b) (replicate (Z.to_nat (end_ - initialized b)) (Some 0)) (buf b)) in
      Ok (set_initialized end_ (set_buf m b))
    else Ok b in
  let? s := or_panic (slice (filled b) end_ (buf b)) in
  let? shown := slice_assume_init s in
  Ok (shown, b).

Definition initialize_unfilled (b : ReadBuf) : Out (list byte * ReadBuf) :=
  let? room := remaining b in initialize_unfilled_to room b.

Definition clear (b : ReadBuf) : ReadBuf := set_filled_to 0 b.

Definition set_filled (n : Z) (b : ReadBuf) : Out ReadBuf :=
  let? _ := assert_ (n <=? initialized b) in Ok (set_filled_to n b).

Definition advance (n : Z) (b : ReadBuf) : Out ReadBuf :=
  let? n := or_panic (add64 (filled b) n) in set_filled n b.

(** Unsafe: the caller initialized those bytes. *)
Definition assume_init (n : Z) (b : ReadBuf) : Out ReadBuf :=
  match slice (filled b) (filled b + n) (buf b) with
  | Some s => if forallb (fun o => bool_decide (is_Some o)) s
              then
                let end_ := filled b + n in
                Ok (if initialized b <? end_ then set_initialized end_ b else b)
              else Err Misused
  | None => Err Misused
  end.

Definition put_slice (bytes : list byte) (b : ReadBuf) : Out ReadBuf :=
  let? room := remaining b in
  let? _ := assert_ (vlen bytes <=? room) in
  let end_ := filled b + vlen bytes in
  let? m := or_panic (write_at (filled b) (Some <$> bytes) (buf b)) in
  let b := set_buf m b in
  let b := if initialized b <? end_ then set_initialized end_ b else b in
  Ok (set_filled_to end_ b).

(** Unsafe [unfilled_mut]: the caller writes bytes, initialized ones, somewhere
    in the unfilled part. *)
Definition unfilled_mut (at_ : Z) (ws : list byte) (b : ReadBuf) : Out ReadBuf :=
  let? s := or_panic (slice (filled b) (capacity b) (buf b)) in
  match write_at at_ (Some <$> ws) s with
  | Some s => let? m := or_panic (write_at (filled b) s (buf b)) in Ok (set_buf m b)
  | None => Err Misused
  end.

(** ** Programs *)

Inductive rop : Type :=
| RPut (bytes : list byte)
| RAdvance (n : Z)
| RSetFilled (n : Z)
| RClear
| RFilled (ws : list byte)
| RInitialized (ws : list byte)
| RInit (n : Z) (ws : list byte)
| RInitAll (ws : list byte)
| RRaw (at_ : Z) (ws : list byte)
| RAssume (n : Z)
| RTake (n : Z) (ops : list rop).

Fixpoint run_op (o : rop) (b : ReadBuf) : Out ReadBuf :=
  match o with
  | RPut bytes => put_slice bytes b
  | RAdvance n => if 0 <=? n then advance n b else Err Misused
  | RSetFilled n => if 0 <=? n then set_filled n b else Err Misused
  | RClear => Ok (clear b)
  | RFilled ws => filled_mut ws b
  | RInitialized ws => initialized_mut ws b
  | RInit n ws =>
      if 0 <=? n then
        let? (shown, b) := initialize_unfilled_to n b in write_shown (filled b) shown ws b
      else Err Misused
  | RInitAll ws => let? (shown, b) := initialize_unfilled b in write_shown (filled b) shown ws b
  | RRaw at_ ws => unfilled_mut at_ ws b
  | RAssume n => if 0 <=? n then assume_init n b else Err Misused
  | RTake n ops =>
      if 0 <=? n then
        let? t := take n b in
        let? t :=
          (fix run_ops ops t :=
             match ops with
             | [] => Ok t
             | o :: ops => let? t := run_op o t in run_ops ops t
             end) ops t in
        put_back t b
      else Err Misused
  end.

Fixpoint run_ops (ops : list rop) (b : ReadBuf) : Out ReadBuf :=
  match ops with
  | [] => Ok b
  | o :: ops => let? b := run_op o b in run_ops ops b
  end.

(** ** What it promises *)

(** The bytes known to be initialized, and those of them filled. *)
Definition known (b : ReadBuf) : list byte := omap id (takez (initialized b) (buf b)).
Definition contents (b : ReadBuf) : list byte := takez (filled b) (known b).

(** The counts are in order and the memory is at least as good as they say. *)
Definition wf (b : ReadBuf) : Prop :=
  0 <= filled b <= initialized b /\ initialized b <= capacity b /\ capacity b <= isize_max /\
  forall j, 0 <= j < initialized b -> exists x, buf b !!z j = Some (Some x).

(** When the documentation says an operation panics. *)
Definition panics (o : rop) (b : ReadBuf) : bool :=
  match o with
  | RPut bytes => capacity b - filled b <? vlen bytes
  | RAdvance n => initialized b <? filled b + n
  | RSetFilled n => initialized b <? n
  | RInit n _ => capacity b - filled b <? n
  | RTake n ops =>
      match and_then (take n b) (run_ops ops) with Err Panicked => true | _ => false end
  | _ => false
  end.

(** What each operation does to the filled part and to what is initialized. *)
Definition effect (o : rop) (b b' : ReadBuf) : Prop :=
  match o with
  | RPut bytes => contents b' = contents b ++ bytes
  | RAdvance n => contents b' = takez (filled b + n) (known b) /\ known b' = known b
  | RSetFilled n => contents b' = takez n (known b) /\ known b' = known b
  | RClear => contents b' = [] /\ known b' = known b
  | RFilled ws => contents b' = ws
  | RInitialized ws => known b' = ws /\ filled b' = filled b
  | RInit n ws => contents b' = contents b /\ takez n (dropz (filled b) (known b')) = ws
  | RInitAll ws => contents b' = contents b /\ dropz (filled b) (known b') = ws
  | RRaw _ _ | RTake _ _ => contents b' = contents b /\ initialized b' = initialized b
  | RAssume n => contents b' = contents b /\ initialized b' = Z.max (initialized b) (filled b + n)
  end.

(** ** Memory *)

Section memory.
Implicit Types (l k : list (option byte)).

Definition inited (i : Z) l : Prop := forall j, 0 <= j < i -> exists x, l !!z j = Some (Some x).

Lemma inited_write i a l k :
  0 <= a <= i -> a + vlen k <= vlen l -> inited (vlen k) k -> inited i l ->
  inited (Z.max i (a + vlen k)) (takez a l ++ k ++ dropz (a + vlen k) l).
Proof.
  intros Ha Hk Hi Hl j Hj. rewrite vget_write by lia.
  destruct (Z.leb_spec a j), (Z.ltb_spec j (a + vlen k)); cbn [andb];
    [apply Hi; lia | apply Hl; lia ..].
Qed.

Lemma inited_write_past i a l k :
  0 <= i -> 0 <= a -> a + vlen k <= vlen l -> inited (vlen k) k -> inited i l ->
  inited i (takez a l ++ k ++ dropz (a + vlen k) l).
Proof.
  intros Hi Ha Hk Hik Hl j Hj. rewrite vget_write by lia.
  destruct (Z.leb_spec a j), (Z.ltb_spec j (a + vlen k)); cbn [andb];
    [apply Hik; lia | apply Hl; lia ..].
Qed.

Lemma inited_somes (ws : list byte) : inited (vlen ws) (Some <$> ws).
Proof.
  intros j Hj. destruct (vget_is_Some ws j Hj) as [x [_ Hx]%vget_Some]. exists x.
  apply vget_Some. rewrite vlen_fmap. split; [done |]. by rewrite list_lookup_fmap, Hx.
Qed.

Lemma inited_weaken i i' l : i' <= i -> inited i l -> inited i' l.
Proof. intros ? Hl j Hj. apply Hl. lia. Qed.

(** Memory that is initialized is a list of bytes. *)
Lemma inited_bytes l : inited (vlen l) l -> l = Some <$> omap id l.
Proof.
  induction l as [|o l IH]; intros Hl; [done |]. rewrite vlen_cons in Hl.
  pose proof (vlen_nonneg l). destruct (Hl 0 ltac:(lia)) as [x [_ Hx]%vget_Some].
  cbn in Hx. injection Hx as ->. cbn. f_equal. apply IH. intros j Hj.
  destruct (Hl (1 + j) ltac:(lia)) as [y Hy]. exists y. rewrite <- Hy.
  change (Some x :: l) with ([Some x] ++ l). rewrite vget_app_r by (change (vlen [Some x]) with 1; lia).
  f_equal. change (vlen [Some x]) with 1. lia.
Qed.

Lemma omap_somes (ws : list byte) : omap id (Some <$> ws) = ws.
Proof. induction ws as [|w ws IH]; [done |]. cbn. by f_equal. Qed.

Lemma assume_somes (ws : list byte) : slice_assume_init (Some <$> ws) = Ok ws.
Proof.
  unfold slice_assume_init. replace (mapM id (Some <$> ws)) with (Some ws); [done |].
  induction ws as [|w ws IH]; [done |]. cbn. by rewrite <- IH.
Qed.

(** A range whose bytes are all initialized. *)
Lemma inited_range l f n j :
  forallb (fun o => bool_decide (is_Some o)) (takez n (dropz f l)) = true ->
  0 <= f <= j -> j < f + n -> f + n <= vlen l -> exists x, l !!z j = Some (Some x).
Proof.
  intros Hall Hj Hn Hf.
  assert (Hl : takez n (dropz f l) !!z (j - f) = l !!z j).
  { rewrite vget_takez by lia. rewrite vget_dropz by lia. f_equal. lia. }
  destruct (vget_is_Some l j) as [o Ho]; [lia |]. rewrite Ho in Hl |- *.
  apply vget_Some in Hl as [_ Hl%list_elem_of_lookup_2]. rewrite forallb_forall in Hall.
  apply list_elem_of_In, Hall in Hl. apply bool_decide_eq_true in Hl as [x ->]. by exists x.
Qed.
End memory.

Lemma somes_inj (a b : list byte) : Some <$> a = Some <$> b -> a = b.
Proof. intros H. by rewrite <- (omap_somes a), H, omap_somes. Qed.

(** ** Operations *)

Section operations.
Context (b : ReadBuf) (Hb : wf b).

Lemma known_memory : Some <$> known b = takez (initialized b) (buf b).
Proof using Hb.
  destruct Hb as (? & ? & _ & Hi). unfold capacity in *. symmetry. apply inited_bytes.
  rewrite vlen_takez by lia. intros j Hj. rewrite vget_takez by lia. by apply Hi.
Qed.

Lemma vlen_known : vlen (known b) = initialized b.
Proof using Hb.
  rewrite <- (vlen_fmap Some), known_memory. destruct Hb as (? & ? & _ & _). unfold capacity in *.
  apply vlen_takez. lia.
Qed.

Lemma known_front n : 0 <= n <= initialized b -> Some <$> takez n (known b) = takez n (buf b).
Proof using Hb.
  intros. rewrite fmap_takez, known_memory, takez_takez by lia. by rewrite Z.min_l by lia.
Qed.

Lemma known_range n m :
  0 <= n <= m -> m <= initialized b ->
  Some <$> takez (m - n) (dropz n (known b)) = takez (m - n) (dropz n (buf b)).
Proof using Hb.
  intros. rewrite <- !dropz_takez by lia. rewrite fmap_dropz, known_front by lia. done.
Qed.

Lemma contents_memory : Some <$> contents b = takez (filled b) (buf b).
Proof using Hb. apply known_front. destruct Hb. lia. Qed.

Lemma vlen_contents : vlen (contents b) = filled b.
Proof using Hb. unfold contents. destruct Hb. rewrite vlen_takez; [done |]. rewrite vlen_known. lia. Qed.

Lemma filled_bytes_ok : filled_bytes b = Ok (contents b).
Proof using Hb.
  unfold filled_bytes. destruct Hb as (? & ? & _). unfold capacity in *.
  rewrite slice_front by lia. cbn. rewrite <- contents_memory. apply assume_somes.
Qed.

Lemma initialized_bytes_ok : initialized_bytes b = Ok (known b).
Proof using Hb.
  unfold initialized_bytes. destruct Hb as (? & ? & _). unfold capacity in *.
  rewrite slice_front by lia. cbn. rewrite <- known_memory. apply assume_somes.
Qed.

Lemma remaining_ok : remaining b = Ok (capacity b - filled b).
Proof using Hb. unfold remaining. destruct Hb as (? & ? & _). by rewrite sub64_Some by lia. Qed.
End operations.

(** How an operation may end. *)
Definition settled (o : rop) (b : ReadBuf) (r : Out ReadBuf) : Prop :=
  match r with
  | Err Undefined => False
  | Err Misused => True
  | Err Panicked => panics o b = true
  | Ok b' =>
      panics o b = false /\ wf b' /\ capacity b' = capacity b /\
      initialized b <= initialized b' /\ effect o b b'
  end.

(** Opens a buffer's invariant for [lia]. *)
Ltac open_buf H := let Hi := fresh "Hinit" in
  destruct H as (? & ? & ? & Hi); unfold capacity in *; change isize_max with 9223372036854775807 in *.

Section steps.
Context (b : ReadBuf) (Hb : wf b).

(** What any write of bytes within the memory keeps. *)
Lemma wf_write at_ ws :
  0 <= at_ -> at_ + vlen ws <= capacity b ->
  wf (set_buf (takez at_ (buf b) ++ (Some <$> ws) ++ dropz (at_ + vlen ws) (buf b)) b).
Proof using Hb.
  intros Ha Hw. open_buf Hb. unfold wf, capacity. cbn -[isize_max]. change isize_max with 9223372036854775807. rewrite <- (vlen_fmap Some ws) in *.
  rewrite vlen_write by lia. repeat split; try lia.
  apply inited_write_past; try done; try lia. rewrite vlen_fmap. apply inited_somes.
Qed.

(** The whole of such a write. *)
Lemma write_bytes at_ ws :
  0 <= at_ -> at_ + vlen ws <= capacity b ->
  exists m, write_at at_ (Some <$> ws) (buf b) = Some m /\
    m = takez at_ (buf b) ++ (Some <$> ws) ++ dropz (at_ + vlen ws) (buf b) /\
    wf (set_buf m b) /\ vlen m = capacity b.
Proof using Hb.
  intros Ha Hw. eexists. rewrite write_at_Some, vlen_fmap by (rewrite ?vlen_fmap; done).
  split; [done |]. split; [done |]. split; [by apply wf_write |].
  rewrite <- (vlen_fmap Some ws) in *. by apply vlen_write.
Qed.

Lemma wf_initialized n : initialized b <= n <= capacity b -> inited n (buf b) -> wf (set_initialized n b).
Proof using Hb. intros. open_buf Hb. unfold wf, capacity. cbn -[isize_max]. change isize_max with 9223372036854775807. repeat split; try lia; done. Qed.

Lemma wf_filled n : 0 <= n <= initialized b -> wf (set_filled_to n b).
Proof using Hb. intros. open_buf Hb. unfold wf, capacity. cbn -[isize_max]. change isize_max with 9223372036854775807. repeat split; try lia; done. Qed.
End steps.

(** The bytes a write at [at_] leaves known, when it writes [ws] there. *)
Lemma known_write b at_ ws :
  wf b -> 0 <= at_ -> at_ + vlen ws <= initialized b ->
  known (set_buf (takez at_ (buf b) ++ (Some <$> ws) ++ dropz (at_ + vlen ws) (buf b)) b) =
  takez at_ (known b) ++ ws ++ dropz (at_ + vlen ws) (known b).
Proof.
  intros Hb Ha Hw. assert (Hb' := Hb). open_buf Hb. pose proof (vlen_nonneg ws).
  apply somes_inj. rewrite !fmap_app, fmap_takez, fmap_dropz. rewrite (known_memory b) by done.
  rewrite known_memory by (apply wf_write; unfold capacity; done || lia). cbn -[isize_max].
  rewrite takez_app_r; rewrite vlen_takez by lia; [| lia].
  rewrite takez_takez, Z.min_l by lia. f_equal.
  rewrite takez_app_r; rewrite vlen_fmap; [| lia]. f_equal.
  rewrite dropz_takez by lia. f_equal. lia.
Qed.

Lemma contents_filled b n : contents (set_filled_to n b) = takez n (known b).
Proof. done. Qed.

(** A write past the filled part does not change it. *)
Lemma contents_write b at_ ws :
  wf b -> filled b <= at_ -> at_ + vlen ws <= capacity b ->
  contents (set_buf (takez at_ (buf b) ++ (Some <$> ws) ++ dropz (at_ + vlen ws) (buf b)) b) = contents b.
Proof.
  intros Hb Ha Hw. apply somes_inj. assert (Hb' := Hb). open_buf Hb. pose proof (vlen_nonneg ws).
  rewrite (contents_memory b) by done.
  rewrite contents_memory by (apply wf_write; unfold capacity; done || lia). cbn -[isize_max].
  rewrite takez_write by lia. done.
Qed.

Lemma contents_initialized b n :
  wf b -> wf (set_initialized n b) -> contents (set_initialized n b) = contents b.
Proof. intros Hb Hn. apply somes_inj. by rewrite !contents_memory. Qed.

(** The room a read is shown is initialized. *)
Lemma shown_ok b n :
  wf b -> 0 <= n -> filled b + n <= initialized b ->
  and_then (or_panic (slice (filled b) (filled b + n) (buf b))) slice_assume_init =
  Ok (takez n (dropz (filled b) (known b))).
Proof.
  intros Hb Hn Hf. assert (Hb' := Hb). open_buf Hb. rewrite slice_Some by lia. cbn [and_then or_panic].
  rewrite <- known_range by (done || lia). rewrite assume_somes. do 2 f_equal. lia.
Qed.

(** Zeroing what is not yet initialized below [end_]. *)
Lemma zero_unfilled b end_ :
  wf b -> initialized b < end_ <= capacity b ->
  exists m, write_at (initialized b) (replicate (Z.to_nat (end_ - initialized b)) (Some 0)) (buf b) = Some m /\
    wf (set_initialized end_ (set_buf m b)) /\ vlen m = capacity b /\
    contents (set_initialized end_ (set_buf m b)) = contents b.
Proof.
  intros Hb Hend. set (ws := replicate (Z.to_nat (end_ - initialized b)) (0 : byte)).
  replace (replicate _ (Some 0)) with (Some <$> ws) by (unfold ws; by rewrite fmap_replicate).
  assert (Hv : vlen ws = end_ - initialized b) by (unfold ws, vlen; rewrite length_replicate; lia).
  assert (Hb' := Hb). open_buf Hb.
  destruct (write_bytes b Hb' (initialized b) ws) as (m & -> & Hm & Hwf & Hl); [lia | unfold capacity; lia |].
  assert (Hwf2 : wf (set_initialized end_ (set_buf m b))).
  { apply wf_initialized; [done | unfold capacity in *; cbn; lia |]. cbn [buf set_buf].
    rewrite Hm, <- (vlen_fmap Some ws).
    apply (inited_weaken (Z.max (initialized b) (initialized b + vlen (Some <$> ws))));
      [rewrite vlen_fmap; lia |].
    apply inited_write; rewrite ?vlen_fmap; try lia; [apply inited_somes | done]. }
  exists m. at_hand 3.
  rewrite contents_initialized by done. subst m. apply contents_write; unfold capacity; done || lia.
Qed.

Section settled.
Context (b : ReadBuf) (Hb : wf b).

Lemma filled_mut_settled ws : settled (RFilled ws) b (run_op (RFilled ws) b).
Proof using Hb.
  cbn [run_op]. unfold filled_mut, write_shown. rewrite filled_bytes_ok by done. cbn [and_then].
  rewrite vlen_contents by done. destruct (Z.eqb_spec (vlen ws) (filled b)) as [Hw|]; [| done].
  assert (Hb' := Hb). open_buf Hb.
  destruct (write_bytes b Hb' 0 ws) as (m & -> & Hm & Hwf & Hl); [done | unfold capacity; lia |].
  at_hand 4. cbn [effect].
  unfold contents. subst m. rewrite known_write by (done || lia). cbn [filled set_buf].
  rewrite (takez_0 0) by lia. cbn [app]. rewrite takez_app_l by lia. apply takez_all. lia.
Qed.

Lemma initialized_mut_settled ws : settled (RInitialized ws) b (run_op (RInitialized ws) b).
Proof using Hb.
  cbn [run_op]. unfold initialized_mut, write_shown. rewrite initialized_bytes_ok by done. cbn [and_then].
  rewrite vlen_known by done. destruct (Z.eqb_spec (vlen ws) (initialized b)) as [Hw|]; [| done].
  assert (Hb' := Hb). open_buf Hb.
  destruct (write_bytes b Hb' 0 ws) as (m & -> & Hm & Hwf & Hl); [done | unfold capacity; lia |].
  at_hand 4. cbn [effect]. split; [| done].
  subst m. rewrite known_write by (done || lia).
  rewrite takez_0 by lia. rewrite dropz_all by (rewrite vlen_known; done || lia). cbn [app]. apply app_nil_r.
Qed.

Lemma set_filled_settled n : settled (RSetFilled n) b (run_op (RSetFilled n) b).
Proof using Hb.
  cbn [run_op]. destruct (Z.leb_spec 0 n); [| done]. unfold set_filled. cbn -[set_filled_to].
  destruct (Z.leb_spec n (initialized b)); cbn -[set_filled_to]; [| lia].
  split; [lia |]. split; [apply wf_filled; done || lia |]. cbn. repeat split; lia.
Qed.

Lemma advance_settled n : settled (RAdvance n) b (run_op (RAdvance n) b).
Proof using Hb.
  cbn [run_op]. destruct (Z.leb_spec 0 n); [| done]. unfold advance. assert (Hb' := Hb). open_buf Hb.
  unfold add64, set_filled. change u64_max with 18446744073709551615.
  destruct (Z.leb_spec (filled b + n) 18446744073709551615); cbn -[set_filled_to]; [| lia].
  destruct (Z.leb_spec (filled b + n) (initialized b)); cbn -[set_filled_to]; [| lia].
  split; [lia |]. split; [apply wf_filled; done || lia |]. cbn. repeat split; lia.
Qed.

Lemma clear_settled : settled RClear b (run_op RClear b).
Proof using Hb.
  cbn. assert (Hb' := Hb). open_buf Hb. split; [done |]. split; [apply wf_filled; done || lia |].
  split; [done |]. split; [lia |]. split; [| done]. by apply takez_0.
Qed.

Lemma put_slice_settled bytes : settled (RPut bytes) b (run_op (RPut bytes) b).
Proof using Hb.
  cbn [run_op]. unfold put_slice. rewrite remaining_ok by done. cbn [and_then]. unfold assert_.
  destruct (Z.leb_spec (vlen bytes) (capacity b - filled b)); cbn [and_then]; [| cbn; lia].
  assert (Hb' := Hb). open_buf Hb. pose proof (vlen_nonneg bytes).
  destruct (write_bytes b Hb' (filled b) bytes) as (m & -> & Hm & Hwf & Hl); [lia | unfold capacity; lia |].
  cbn [and_then or_panic]. set (b1 := set_buf m b) in *.
  assert (Hi : inited (Z.max (initialized b) (filled b + vlen bytes)) m).
  { rewrite Hm, <- (vlen_fmap Some bytes). apply inited_write; try done; rewrite ?vlen_fmap; try lia.
    apply inited_somes. }
  assert (Hwf2 : wf (set_initialized (Z.max (initialized b) (filled b + vlen bytes)) b1)).
  { apply wf_initialized; [done | | done]. unfold capacity. cbn. rewrite Hl. unfold capacity. lia. }
  replace (if initialized b1 <? filled b + vlen bytes then _ else _)
    with (set_initialized (Z.max (initialized b) (filled b + vlen bytes)) b1).
  2: { destruct (Z.ltb_spec (initialized b1) (filled b + vlen bytes)); cbn in *.
       - by rewrite Z.max_r by lia. - rewrite Z.max_l by lia. done. }
  split; [cbn; unfold capacity; lia |]. split; [apply wf_filled; cbn; done || lia |].
  split; [by cbn; unfold capacity; cbn |]. split; [cbn; lia |]. cbn [effect]. rewrite contents_filled.
  apply somes_inj. rewrite known_front by (cbn; done || lia). rewrite fmap_app, contents_memory by done.
  cbn [buf set_initialized set_buf b1]. rewrite Hm, <- (vlen_fmap Some bytes).
  rewrite app_assoc, takez_app_l; [apply takez_all |];
    rewrite vlen_app, vlen_takez by lia; lia.
Qed.

Lemma unfilled_mut_settled at_ ws : settled (RRaw at_ ws) b (run_op (RRaw at_ ws) b).
Proof using Hb.
  cbn [run_op]. unfold unfilled_mut. assert (Hb' := Hb). open_buf Hb.
  rewrite slice_Some by (unfold capacity; lia). cbn [and_then or_panic].
  rewrite takez_all by (rewrite vlen_dropz; unfold capacity; lia).
  destruct (write_at at_ (Some <$> ws) (dropz (filled b) (buf b))) as [s|] eqn:Hs; [| done].
  destruct (write_within _ _ _ _ _ Hs) as (Ha & Hw & ->); [lia |]. rewrite vlen_fmap in Hw.
  destruct (write_bytes b Hb' (filled b + at_) ws) as (m & -> & Hm & Hwf & Hl); [lia | unfold capacity; lia |].
  at_hand 4. split; [| done].
  subst m. apply contents_write; unfold capacity; done || lia.
Qed.

Lemma assume_init_settled n : settled (RAssume n) b (run_op (RAssume n) b).
Proof using Hb.
  cbn [run_op]. destruct (Z.leb_spec 0 n); [| done]. unfold assume_init.
  destruct (slice (filled b) (filled b + n) (buf b)) as [s|] eqn:Hs; [| done].
  destruct (forallb _ s) eqn:Hall; [| done]. assert (Hb' := Hb). open_buf Hb.
  assert (Hn : filled b + n <= vlen (buf b)).
  { unfold slice in Hs. destruct (Z.leb_spec (filled b + n) (vlen (buf b))); [done |].
    by rewrite andb_false_r in Hs. }
  rewrite slice_Some in Hs by lia. injection Hs as <-.
  replace (filled b + n - filled b) with n in Hall by lia.
  assert (Hw : wf (set_initialized (Z.max (initialized b) (filled b + n)) b)).
  { apply wf_initialized; [done | unfold capacity; lia |]. intros j Hj.
    destruct (decide (j < initialized b)); [apply Hinit; lia |].
    apply (inited_range (buf b) (filled b) n j); done || lia. }
  replace (if initialized b <? filled b + n then _ else _)
    with (set_initialized (Z.max (initialized b) (filled b + n)) b).
  2: { destruct (Z.ltb_spec (initialized b) (filled b + n)).
       - by rewrite Z.max_r by lia. - rewrite Z.max_l by lia. by destruct b. }
  at_hand 3. split; [cbn; lia |].
  split; [by apply contents_initialized | done].
Qed.

Lemma initialize_unfilled_to_ok n :
  0 <= n <= capacity b - filled b ->
  exists b1, initialize_unfilled_to n b = Ok (takez n (dropz (filled b) (known b1)), b1) /\
    wf b1 /\ filled b1 = filled b /\ capacity b1 = capacity b /\ contents b1 = contents b /\
    initialized b1 = Z.max (initialized b) (filled b + n).
Proof using Hb.
  intros Hn. unfold initialize_unfilled_to. rewrite remaining_ok by done. cbn [and_then].
  unfold assert_. destruct (Z.leb_spec n (capacity b - filled b)); [| lia]. cbn [and_then].
  destruct (Z.ltb_spec (initialized b) (filled b + n)) as [Hlt|Hge].
  - destruct (zero_unfilled b (filled b + n)) as (m & -> & Hwf & Hl & Hc); [done | lia |].
    cbn [and_then or_panic]. eexists (set_initialized _ (set_buf m b)). split.
    { pose proof (shown_ok _ n Hwf ltac:(lia)) as Hs. cbn in Hs. specialize (Hs ltac:(lia)).
      unfold and_then in *. cbn. repeat case_match; simplify_eq. done. }
    at_hand 4. cbn. lia.
  - cbn [and_then]. exists b. split.
    { pose proof (shown_ok b n Hb ltac:(lia) ltac:(lia)) as Hs.
      unfold and_then in *. repeat case_match; simplify_eq. done. }
    at_hand 4. lia.
Qed.

(** What is written into the room shown. *)
Lemma shown_written n ws (Hn : 0 <= n <= capacity b - filled b) :
  match and_then (initialize_unfilled_to n b) (fun '(shown, b) => write_shown (filled b) shown ws b) with
  | Err Misused => True
  | Err _ => False
  | Ok b' =>
      wf b' /\ capacity b' = capacity b /\ initialized b' = Z.max (initialized b) (filled b + n) /\
      contents b' = contents b /\ takez n (dropz (filled b) (known b')) = ws
  end.
Proof using Hb.
  destruct (initialize_unfilled_to_ok n Hn) as (b1 & -> & Hwf & Hf & Hc & Hco & Hi). cbn [and_then].
  unfold write_shown. destruct Hb as (? & ? & _).
  rewrite vlen_takez by (rewrite vlen_dropz; rewrite vlen_known by done; lia).
  destruct (Z.eqb_spec (vlen ws) n) as [Hw|]; [| done].
  destruct (write_bytes b1 Hwf (filled b1) ws) as (m & -> & Hm & Hwf2 & Hl); [lia | lia |].
  cbn [and_then or_panic]. split; [done |]. split; [unfold capacity in *; cbn; lia |].
  split; [done |]. subst m. split; [rewrite contents_write; done || lia |].
  rewrite known_write by (done || lia). rewrite Hf, dropz_write by (rewrite vlen_known by done; lia).
  rewrite <- Hw. rewrite takez_app_l by lia. apply takez_all. lia.
Qed.

Lemma initialize_settled n ws : settled (RInit n ws) b (run_op (RInit n ws) b).
Proof using Hb.
  cbn [run_op]. destruct (Z.leb_spec 0 n); [| done].
  destruct (Z.le_gt_cases n (capacity b - filled b)) as [Hn|Hn].
  - pose proof (shown_written n ws ltac:(lia)) as Hs.
    destruct (and_then _ _) as [b'|[]]; [| done ..]. destruct Hs as (? & ? & ? & ? & ?).
    split; [cbn; lia |]. split; [done |]. split; [done |]. split; [lia |]. done.
  - unfold initialize_unfilled_to. rewrite remaining_ok by done. cbn [and_then]. unfold assert_.
    destruct (Z.leb_spec n (capacity b - filled b)); [lia |]. cbn. lia.
Qed.

Lemma initialize_all_settled ws : settled (RInitAll ws) b (run_op (RInitAll ws) b).
Proof using Hb.
  cbn [run_op]. unfold initialize_unfilled. rewrite remaining_ok by done. cbn [and_then].
  assert (Hb' := Hb). destruct Hb as (? & ? & _).
  pose proof (shown_written (capacity b - filled b) ws ltac:(lia)) as Hs.
  destruct (and_then _ _) as [b'|[]]; [| done ..]. destruct Hs as (Hwf & ? & Hi & ? & Hk).
  rewrite takez_all in Hk by (rewrite vlen_dropz; rewrite vlen_known by done; lia).
  at_hand 3. split; [lia |]. done.
Qed.
End settled.

(** *** Nested buffers *)

Lemma rop_nested (P : rop -> Prop) :
  (forall o, (forall n ops, o <> RTake n ops) -> P o) ->
  (forall n ops, Forall P ops -> P (RTake n ops)) -> forall o, P o.
Proof.
  intros Hflat Htake. fix IH 1. intros o. destruct o as [| | | | | | | | | |n ops]; try by apply Hflat.
  apply Htake. induction ops as [|o ops IHops]; constructor; [apply IH | exact IHops].
Qed.

Lemma run_op_take n ops b :
  run_op (RTake n ops) b =
  if 0 <=? n then let? t := take n b in let? t := run_ops ops t in put_back t b else Err Misused.
Proof. reflexivity. Qed.

Section taken.
Context (b : ReadBuf) (Hb : wf b).

Lemma take_ok n :
  0 <= n ->
  exists t, take n b = Ok t /\ wf t /\ filled b + capacity t <= capacity b /\
    initialized t = Z.min (initialized b - filled b) (capacity t).
Proof using Hb.
  intros Hn. unfold take. rewrite remaining_ok by done. cbn [and_then]. open_buf Hb.
  rewrite slice_Some by (unfold capacity; lia). cbn [and_then or_panic].
  rewrite (takez_all (vlen (buf b) - _)) by (rewrite vlen_dropz; unfold capacity; lia).
  set (n' := Z.min n (vlen (buf b) - filled b)).
  rewrite slice_front by (rewrite vlen_dropz; unfold n'; lia). cbn [and_then or_panic].
  assert (Hl : vlen (takez n' (dropz (filled b) (buf b))) = n').
  { rewrite vlen_takez; [done |]. rewrite vlen_dropz; unfold n'; lia. }
  eexists. split; [done |]. unfold wf, capacity. cbn -[isize_max]. rewrite Hl.
  change isize_max with 9223372036854775807. unfold n' in *. repeat split; try lia.
  intros j Hj. rewrite vget_takez by lia. rewrite vget_dropz by lia. apply Hinit. lia.
Qed.

(** What a taken buffer was given is seen in the buffer it came from. *)
Lemma put_back_ok t :
  wf t -> filled b + capacity t <= capacity b ->
  Z.min (initialized b - filled b) (capacity t) <= initialized t ->
  exists b', put_back t b = Ok b' /\ wf b' /\ capacity b' = capacity b /\
    contents b' = contents b /\ initialized b' = initialized b.
Proof using Hb.
  intros Ht Hc Hi. unfold put_back. assert (Hb' := Hb). open_buf Hb.
  destruct Ht as (? & ? & _ & Hti). unfold capacity in *. pose proof (vlen_nonneg (buf t)).
  rewrite write_at_Some by lia. cbn [and_then or_panic]. eexists. split; [done |].
  set (m := takez _ _ ++ _ ++ _). assert (Hl : vlen m = vlen (buf b)) by (apply vlen_write; lia).
  assert (Hwf : wf (set_buf m b)).
  { unfold wf, capacity. cbn -[isize_max]. change isize_max with 9223372036854775807.
    repeat split; try lia. intros j Hj. unfold m. rewrite vget_write by lia.
    destruct (Z.leb_spec (filled b) j), (Z.ltb_spec j (filled b + vlen (buf t))); cbn [andb];
      [apply Hti; lia | apply Hinit; lia ..]. }
  split; [done |]. split; [done |]. split; [| done]. apply somes_inj. rewrite !contents_memory by done.
  unfold m. cbn. by rewrite takez_write by lia.
Qed.

Lemma take_settled n ops :
  (forall t, wf t -> match run_ops ops t with
                     | Err Undefined => False
                     | Err _ => True
                     | Ok t' => wf t' /\ capacity t' = capacity t /\ initialized t <= initialized t'
                     end) ->
  settled (RTake n ops) b (run_op (RTake n ops) b).
Proof using Hb.
  intros IH. rewrite run_op_take. destruct (Z.leb_spec 0 n) as [Hn|]; [| done].
  destruct (take_ok n Hn) as (t & Ht & Hwf & Hc & Hi). unfold settled, panics. rewrite Ht. cbn [and_then].
  specialize (IH t Hwf). destruct (run_ops ops t) as [t'|[]]; cbn [and_then]; try done.
  destruct IH as (Hwf' & Hc' & Hi'). destruct (put_back_ok t') as (b' & -> & ? & ? & ? & ?);
    [done | lia | lia |]. at_hand 3. split; [lia |]. done.
Qed.
End taken.

Lemma run_op_settled o b : wf b -> settled o b (run_op o b).
Proof.
  revert b. induction o as [o Ho | n ops IH] using rop_nested; intros b Hb.
  - destruct o as [| | | | | | | | | |n ops];
      [by apply put_slice_settled | by apply advance_settled | by apply set_filled_settled
      | by apply clear_settled | by apply filled_mut_settled | by apply initialized_mut_settled
      | by apply initialize_settled | by apply initialize_all_settled | by apply unfilled_mut_settled
      | by apply assume_init_settled | by destruct (Ho n ops)].
  - apply take_settled; [done |]. clear n b Hb. induction IH as [|o ops Ho _ IH]; intros t Ht; [done |].
    cbn [run_ops]. specialize (Ho t Ht). unfold settled in Ho.
    destruct (run_op o t) as [t'|[]]; cbn [and_then]; try done.
    destruct Ho as (_ & Hwf & Hc & Hi & _). specialize (IH t' Hwf).
    destruct (run_ops ops t') as [t2|[]]; try done. destruct IH as (? & ? & ?).
    split; [done |]. split; lia.
Qed.

Lemma run_ops_wf ops b :
  wf b -> match run_ops ops b with Ok b' => wf b' | Err e => e <> Undefined end.
Proof.
  revert b. induction ops as [|o ops IH]; intros b Hb; [done |]. cbn [run_ops].
  pose proof (run_op_settled o b Hb) as Ho. unfold settled in Ho.
  destruct (run_op o b) as [b'|[]]; cbn [and_then]; try done. apply IH. tauto.
Qed.

Lemma uninit_wf mem : vlen mem <= isize_max -> wf (uninit mem).
Proof.
  intros. pose proof (vlen_nonneg mem). unfold wf, capacity. cbn -[isize_max]. repeat split; try lia.
Qed.

Lemma new_wf bytes : vlen bytes <= isize_max -> wf (new bytes).
Proof.
  intros. pose proof (vlen_nonneg bytes). unfold wf, capacity. cbn -[isize_max]. rewrite vlen_fmap.
  repeat split; try lia. apply inited_somes.
Qed.

(** A read buffer over any memory, after any program of its operations
    (buffers taken from it and used in turn included) whose callers keep the
    contracts of the unsafe ones: no uninitialized byte is ever shown to safe
    code, [filled <= initialized <= capacity] holds over bytes that really are
    initialized, and any further operation panics exactly where its
    documentation says, keeps the capacity, never forgets that a byte is
    initialized, and leaves in the filled and initialized parts exactly the
    bytes it is meant to. *)
Theorem read_buf_shows_initialized_bytes (b0 : ReadBuf) (ops : list rop) (o : rop) :
  (exists mem, vlen mem <= isize_max /\ b0 = uninit mem) \/
  (exists bytes, vlen bytes <= isize_max /\ b0 = new bytes) ->
  match run_ops ops b0 with
  | Ok b =>
      wf b /\ filled_bytes b = Ok (contents b) /\ initialized_bytes b = Ok (known b) /\
      match run_op o b with
      | Ok b' =>
          panics o b = false /\ wf b' /\ capacity b' = capacity b /\
          initialized b <= initialized b' /\ effect o b b'
      | Err Panicked => panics o b = true
      | Err Undefined => False
      | Err Misused => True
      end
  | Err e => e <> Undefined
  end.
Proof.
  intros Hstart. assert (Hwf : wf b0).
  { destruct Hstart as [(mem & ? & ->) | (bytes & ? & ->)]; [by apply uninit_wf | by apply new_wf]. }
  pose proof (run_ops_wf ops b0 Hwf) as Hb. destruct (run_ops ops b0) as [b|e]; [| done].
  split; [done |]. split; [by apply filled_bytes_ok |]. split; [by apply initialized_bytes_ok |].
  apply (run_op_settled o b Hb).
Qed.

#[local] Transparent takez dropz.
Lemma read_buf_shows_initialized_bytes_witness :
  let ops := [RPut [1; 2]; RRaw 1 [9]; RTake 3 [RInit 1 [7]; RPut [4]]; RAssume 2; RAdvance 1] in
  exists b, run_ops ops (uninit (replicate 6 None)) = Ok b /\ wf b /\ contents b = [1; 2; 4] /\
    known b = [1; 2; 4; 9] /\ run_op (RAdvance 2) b = Err Panicked.
Proof.
  intros ops. pose proof (read_buf_shows_initialized_bytes (uninit (replicate 6 None)) ops (RAdvance 2)) as H.
  exists {| buf := [Some 1; Some 2; Some 4; Some 9; None; None]; filled := 3; initialized := 4 |}.
  assert (E : run_ops ops (uninit (replicate 6 None)) =
    Ok {| buf := [Some 1; Some 2; Some 4; Some 9; None; None]; filled := 3; initialized := 4 |}) by (lazy; reflexivity).
  rewrite E in H. split; [exact E |].
  assert (Hs : vlen (replicate 6 (None : option Z)) <= isize_max) by (lazy; discriminate).
  specialize (H (or_introl (ex_intro _ _ (conj Hs eq_refl)))). split; [apply H | lazy; repeat split].
Defined.
