(* ===== verification/AtomicWaker.v ===== *)
(** * The waker cell

    [sync/atomic_waker.rs]: one slot for a waker and the word that says who may
    touch it. Each call is a small program whose steps are the atomic
    operations on the word and the accesses to the slot, so that any two calls
    interleave anywhere. *)

From S2P Require Import Prelude.
Open Scope Z_scope.

Definition WAITING : Z := 0.
Definition REGISTERING : Z := 1.
Definition WAKING : Z := 2.

Record AtomicWaker : Type := { state : Z; slot : option Waker }.

Definition new : AtomicWaker := {| state := WAITING; slot := None |}.
Definition set_state x c := {| state := x; slot := slot c |}.
Definition set_slot x c := {| state := state c; slot := x |}.

Definition compare_exchange (current new : Z) (c : AtomicWaker) : AtomicWaker * bool :=
  if state c =? current then (set_state new c, true) else (c, false).

(** ** Registering *)

(** What a registration did with its waker. *)
Inductive Registered : Type :=
| Kept (displaced : option Waker)
| InUse
| WokenNow.

(** Where a registration is: about to take the cell, to write the slot, to give
    the cell back, and, when a wake came meanwhile, to empty the slot, to give
    the cell back, to wake those it concerned. *)
Inductive Registering : Type :=
| RegStart (w : Waker)
| RegHeld (w : Waker)
| RegStored (displaced : option Waker)
| RegLost (displaced : option Waker)
| RegUnlock (taken displaced : option Waker)
| RegWake (taken displaced : option Waker).

(** The slot of a registration: the waker it replaces, if a different one. *)
Definition store_waker (w : Waker) (c : AtomicWaker) : AtomicWaker * option Waker :=
  match slot c with
  | Some old => if will_wake old w then (c, None) else (set_slot (Some w) c, Some old)
  | None => (set_slot (Some w) c, None)
  end.

Definition wakes (o : option Waker) : list Waker := match o with Some w => [w] | None => [] end.

(** One step of [register_returning], with [woken_while_registering]: the
    cell after it, the wakers it wakes, and where it goes on or what it
    answers. *)
Definition register_step (p : Registering) (c : AtomicWaker) :
    AtomicWaker * list Waker * (Registering + Registered) :=
  match p with
  | RegStart w =>
      match compare_exchange WAITING REGISTERING c with
      | (c, true) => (c, [], inl (RegHeld w))
      | (c, false) => (c, [], inr InUse)
      end
  | RegHeld w => let '(c, displaced) := store_waker w c in (c, [], inl (RegStored displaced))
  | RegStored displaced =>
      match compare_exchange REGISTERING WAITING c with
      | (c, true) => (c, [], inr (Kept displaced))
      | (c, false) => (c, [], inl (RegLost displaced))
      end
  | RegLost displaced => (set_slot None c, [], inl (RegUnlock (slot c) displaced))
  | RegUnlock taken displaced => (set_state WAITING c, [], inl (RegWake taken displaced))
  | RegWake taken displaced => (c, wakes taken ++ wakes displaced, inr WokenNow)
  end.

(** [register]: the caller's own waker is woken when the cell was in use. *)
Definition register_wakes (w : Waker) (r : Registered) : list Waker :=
  match r with InUse => [w] | _ => [] end.

(** ** Waking *)

(** Where a take is: about to raise [WAKING], to empty the slot, to give the
    cell back; and then, for [wake], to wake the waker taken. *)
Inductive Taking : Type :=
| TakeStart
| TakeHeld
| TakeUnlock (taken : option Waker)
| TakeWake (w : Waker).

Definition take_step (p : Taking) (c : AtomicWaker) : AtomicWaker * list Waker * option Taking :=
  match p with
  | TakeStart =>
      (set_state (Z.lor (state c) WAKING) c, [],
       if negb (state c =? WAITING) then None else Some TakeHeld)
  | TakeHeld => (set_slot None c, [], Some (TakeUnlock (slot c)))
  | TakeUnlock taken =>
      (set_state (Z.ldiff (state c) WAKING) c, [],
       match taken with Some w => Some (TakeWake w) | None => None end)
  | TakeWake w => (c, [w], None)
  end.

(** ** One registrant and one waker

    What holds of a cell where at most one registration and one take are under
    way, each given by where it is. *)

Definition holds_reg (p : option Registering) : bool :=
  match p with Some (RegHeld _ | RegStored _ | RegLost _ | RegUnlock _ _) => true | _ => false end.
Definition lost (p : option Registering) : bool :=
  match p with Some (RegLost _ | RegUnlock _ _) => true | _ => false end.
Definition holds_take (p : option Taking) : bool :=
  match p with Some (TakeHeld | TakeUnlock _) => true | _ => false end.

(** The word says who holds the slot, and never two do. *)
Definition word_ok (c : AtomicWaker) (reg : option Registering) (tak : option Taking) : Prop :=
  match holds_reg reg, holds_take tak with
  | true, true => False
  | true, false =>
      state c = Z.lor REGISTERING WAKING \/ (state c = REGISTERING /\ lost reg = false)
  | false, true => state c = WAKING
  | false, false => state c = WAITING
  end.

(** The waker [w] is where the next wake finds it, or a wake has it in hand. *)
Definition kept (c : AtomicWaker) (tak : option Taking) (w : Waker) : Prop :=
  slot c = Some w \/ tak = Some (TakeUnlock (Some w)) \/ tak = Some (TakeWake w).

(** A wake that will reach [w] is under way. *)
Definition due (tak : option Taking) (w : Waker) : Prop :=
  match tak with
  | Some (TakeStart | TakeHeld) => True
  | Some (TakeUnlock (Some w')) | Some (TakeWake w') => w' = w
  | _ => False
  end.

(** Where a registration of [w] has it. *)
Definition reg_has (c : AtomicWaker) (p : Registering) (w : Waker) : Prop :=
  match p with
  | RegStart w' | RegHeld w' => w' = w
  | RegStored _ | RegLost _ => slot c = Some w
  | RegUnlock taken _ | RegWake taken _ => taken = Some w
  end.

Section steps.
Context (c : AtomicWaker) (reg : option Registering) (tak : option Taking).
Context (Hc : word_ok c reg tak).

Lemma take_exclusive p : tak = Some p -> p = TakeHeld -> holds_reg reg = false.
Proof using Hc. intros -> ->. unfold word_ok in Hc. cbn in Hc. by destruct (holds_reg reg). Qed.

Lemma taken_word p c' l p' :
  tak = Some p -> take_step p c = (c', l, p') -> word_ok c' reg p'.
Proof using Hc.
  intros -> Hs. unfold word_ok in *. destruct p as [| |t|w]; cbn in *.
  - destruct (holds_reg reg) eqn:Hr; injection Hs as <- <- <-; cbn.
    + destruct (state c =? WAITING) eqn:E; [apply Z.eqb_eq in E; rewrite E in Hc; by destruct Hc as [|[]] |].
      cbn. left. by destruct Hc as [-> | [-> _]].
    + by rewrite Hc.
  - injection Hs as <- <- <-. by destruct (holds_reg reg).
  - injection Hs as <- <- <-. destruct (holds_reg reg); [done |]. cbn. rewrite Hc. by destruct t.
  - injection Hs as <- <- <-. by destruct (holds_reg reg).
Qed.

Lemma take_kept p c' l p' w :
  tak = Some p -> take_step p c = (c', l, p') -> kept c tak w -> w ∈ l \/ kept c' p' w.
Proof using Type.
  clear Hc. intros -> Hs Hk. unfold kept in *.
  destruct p as [| |[t|]|w']; cbn in *; injection Hs as <- <- <-; cbn;
    destruct Hk as [Hk|[Hk|Hk]]; simplify_eq; try (by right; auto); try (by left; set_solver).
  right. right. left. by rewrite Hk.
Qed.

(** With no registration under way, a wake that is due comes. *)
Lemma take_due p c' l p' w :
  tak = Some p -> holds_reg reg = false -> take_step p c = (c', l, p') ->
  kept c tak w -> due tak w -> w ∈ l \/ due p' w.
Proof using Hc.
  intros -> Hr Hs Hk Hd. unfold word_ok in Hc. rewrite Hr in Hc. unfold kept in Hk.
  destruct p as [| |[t|]|w']; cbn in *; injection Hs as <- <- <-; cbn in *.
  - rewrite Hc. by right.
  - destruct Hk as [Hk|[Hk|Hk]]; [| done ..]. rewrite Hk. by right.
  - by right.
  - done.
  - left. set_solver.
Qed.

Lemma reg_word p c' l r :
  reg = Some p -> register_step p c = (c', l, r) ->
  word_ok c' (match r with inl p' => Some p' | inr _ => None end) tak.
Proof using Hc.
  intros -> Hs. unfold word_ok in *. destruct p as [w|w|d|d|t d|t d]; cbn in *.
  - unfold compare_exchange in Hs. destruct (holds_take tak).
    + rewrite Hc in Hs. injection Hs as <- <- <-. done.
    + rewrite Hc in Hs. injection Hs as <- <- <-. by right.
  - unfold store_waker in Hs. destruct (holds_take tak); [done |].
    destruct (slot c) as [old|]; [destruct (will_wake old w) |]; injection Hs as <- <- <-; done.
  - unfold compare_exchange in Hs. destruct (holds_take tak); [done |].
    destruct Hc as [Hw | [Hw _]]; rewrite Hw in Hs; injection Hs as <- <- <-; cbn; [by left | done].
  - injection Hs as <- <- <-. destruct (holds_take tak); [done |]. cbn. left. by destruct Hc as [|[]].
  - injection Hs as <- <- <-. by destruct (holds_take tak).
  - injection Hs as <- <- <-. done.
Qed.

(** A registration keeps its waker in hand until the slot has it, unless the
    cell was in use or the waker is woken. *)
Lemma reg_keeps p c' l r w :
  reg = Some p -> register_step p c = (c', l, r) -> reg_has c p w ->
  w ∈ l \/
  match r with inl p' => reg_has c' p' w | inr InUse => True | inr _ => slot c' = Some w end.
Proof using Type.
  clear Hc. intros -> Hs Hw. destruct p as [w'|w'|d|d|t d|t d]; cbn in *.
  - unfold compare_exchange in Hs. destruct (_ =? _); injection Hs as <- <- <-; by right.
  - unfold store_waker in Hs. right. destruct (slot c) as [old|] eqn:Hsl.
    + destruct (will_wake old w') eqn:E; injection Hs as <- <- <-; cbn; [| by rewrite Hw].
      apply Z.eqb_eq in E. congruence.
    + injection Hs as <- <- <-; cbn. by rewrite Hw.
  - unfold compare_exchange in Hs. destruct (_ =? _); injection Hs as <- <- <-; by right.
  - injection Hs as <- <- <-. by right.
  - injection Hs as <- <- <-. by right.
  - injection Hs as <- <- <-. left. rewrite Hw. set_solver.
Qed.
End steps.
