(* ===== verification/AtomicWaits.v ===== *)
(** * Waiting at a waker cell

    What the users of [sync/atomic_waker.rs] share: two sides that each wait at
    a cell of their own and wake the other's, one atomic operation a step. A
    side registers its waker, looks again, and only then waits; a change is
    followed by a wake. Where a waiting side's waker is meanwhile ([wait_ok]),
    and which steps keep it so. *)

From S2P Require Import Prelude AtomicWaker.
Open Scope Z_scope.

(** ** Steps *)

(** Why a side cannot take a step: it is not in a call; or the step panics, is
    a data race, reads memory that was never written, or touches memory that
    was given back. *)
Inductive Stop : Type := Disabled | Panics | Races | Uninit | Freed.

Definition and_then {A B} (m : Result A Stop) (k : A -> Result B Stop) : Result B Stop :=
  match m with Ok a => k a | Err e => Err e end.
Notation "'let?' x ':=' m 'in' k" := (and_then m (fun x => k))
  (at level 200, x pattern, m at level 100, k at level 200) : nuclei_scope.

Definition or_panic {A} (o : option A) : Result A Stop := match o with Some a => Ok a | None => Err Panics end.
Definition exclusive (b : bool) : Result unit Stop := if b then Ok tt else Err Races.

(** The accesses to a slot: the registrant's and the waker's. *)
Definition reg_touches (p : Registering) : bool :=
  match p with RegHeld _ | RegLost _ => true | _ => false end.
Definition take_touches (p : Taking) : bool := match p with TakeHeld => true | _ => false end.

(** Waking the task of a waker: a side that waited with it no longer does. *)
Definition unless_woken (l : list Waker) (o : option Waker) : option Waker :=
  match o with Some w => if existsb (will_wake w) l then None else Some w | None => None end.

(** ** Waiting *)

(** Where a side is, as to its own cell: not in a call; in a poll that has not
    registered; registering; registered and about to look again; having seen
    nothing; with an answer; not to be polled. *)
Inductive Phase : Type :=
| PIdle
| PBefore (w : Waker)
| PReg (w : Waker) (q : Registering)
| PLook (w : Waker)
| PSeen (w : Waker)
| PReady
| PAway.

Definition registering (ph : Phase) : option Registering :=
  match ph with PReg _ q => Some q | _ => None end.

(** A side that waits with the waker [o] is in the cell, or a wake has it in
    hand; and once it has seen nothing to do, either there still is nothing, or
    a wake that will reach it is under way. *)
Definition wait_ok (ph : Phase) (c : AtomicWaker) (tak : option Taking) (nothing : Prop) (closed : bool)
    (o : option Waker) : Prop :=
  forall w, o = Some w ->
  match ph with
  | PIdle => kept c tak w /\ (nothing \/ due tak w) /\ (closed = false \/ due tak w)
  | PBefore w' => w' = w
  | PReg w' q => w' = w /\ reg_has c q w
  | PLook w' => w' = w /\ kept c tak w
  | PSeen w' => w' = w /\ kept c tak w /\ (nothing \/ due tak w)
  | PReady => True
  | PAway => False
  end.

#[global] Arguments word_ok : simpl never.
#[global] Arguments wait_ok : simpl never.

(** ** What a side's wait survives *)

Lemma unless_woken_Some l o w : unless_woken l o = Some w -> o = Some w /\ w ∉ l.
Proof.
  destruct o as [w'|]; [| done]. cbn. destruct (existsb (will_wake w') l) eqn:E; [done |].
  intros [= <-]. split; [done |]. intros Hin. assert (existsb (will_wake w') l = true) as E'; [| congruence].
  apply existsb_exists. exists w'. split; [by apply list_elem_of_In | apply Z.eqb_refl].
Qed.

Section waits.
Context {ph : Phase} {c : AtomicWaker} {tak : option Taking} {nothing : Prop} {closed : bool} {o : option Waker}.
Context (Hw : wait_ok ph c tak nothing closed o).

Lemma wait_weaken o' : (forall w, o' = Some w -> o = Some w) -> wait_ok ph c tak nothing closed o'.
Proof using Hw. intros Ho w Hw'. apply Hw. auto. Qed.

(** The other side does something that is not a wake, or begins one. *)
Lemma wait_other tak' (nothing' : Prop) closed' :
  tak = None ->
  ((nothing -> nothing') /\ (closed = false -> closed' = false) \/ tak' = Some TakeStart) ->
  wait_ok ph c tak' nothing' closed' o.
Proof using Hw.
  intros -> Ht w Ho. specialize (Hw w Ho).
  assert (Hk : kept c None w -> kept c tak' w) by (unfold kept; intros [|[|]]; auto; done).
  assert (Hd : due tak' w \/ (nothing -> nothing') /\ (closed = false -> closed' = false))
    by (destruct Ht as [Ht | ->]; [by right | by left]).
  destruct ph; try done; unfold due in *; naive_solver.
Qed.

(** The other side takes a step of a wake. *)
Lemma wait_take (Hc : word_ok c (registering ph) tak) p c' l p' :
  tak = Some p -> take_step p c = (c', l, p') ->
  wait_ok ph c' p' nothing closed (unless_woken l o).
Proof using Hw.
  intros Ht Hs w [Ho Hl]%unless_woken_Some. specialize (Hw w Ho).
  pose proof (take_kept c tak p c' l p' w Ht Hs) as Hk.
  pose proof (take_due c (registering ph) tak Hc p c' l p' w Ht) as Hd.
  destruct ph as [| |w' q| | | |]; cbn in *; try done; try naive_solver.
  destruct Hw as [-> Hr]. split; [done |]. unfold word_ok in Hc. rewrite Ht in Hc.
  destruct p as [| |t|w1]; cbn in Hs; injection Hs as <- <- <-; destruct q; cbn in *; done.
Qed.

(** The side itself takes a step of its registration. *)
Lemma wait_reg w0 q c' l r :
  ph = PReg w0 q -> register_step q c = (c', l, r) ->
  wait_ok (match r with inl q' => PReg w0 q' | inr InUse => PBefore w0 | inr _ => PLook w0 end)
    c' tak nothing closed (unless_woken l o).
Proof using Hw.
  intros -> Hs w [Ho Hl]%unless_woken_Some. destruct (Hw w Ho) as [-> Hr].
  destruct (reg_keeps c (Some q) q c' l r w eq_refl Hs Hr) as [|Hk]; [done |].
  destruct r as [q'|[]]; try done; split; done || by left.
Qed.
End waits.

Lemma wait_none ph c tak nothing closed : wait_ok ph c tak nothing closed None.
Proof. by intros w. Qed.

Lemma word_reg c reg reg' tak :
  word_ok c reg tak -> holds_reg reg = false -> holds_reg reg' = false -> word_ok c reg' tak.
Proof. unfold word_ok. intros H Ha Hb. rewrite Ha in H. by rewrite Hb. Qed.

Lemma word_take c reg tak tak' :
  word_ok c reg tak -> holds_take tak = false -> holds_take tak' = false -> word_ok c reg tak'.
Proof. unfold word_ok. intros H Ha Hb. rewrite Ha in H. by rewrite Hb. Qed.

Lemma unless_woken_keeps l o w : unless_woken l o = Some w -> o = Some w.
Proof. intros H%unless_woken_Some. tauto. Qed.

Lemma unless_woken_cases l w : unless_woken l (Some w) = None \/ unless_woken l (Some w) = Some w /\ w ∉ l.
Proof.
  destruct (unless_woken l (Some w)) as [w'|] eqn:E; [right | by left].
  apply unless_woken_Some in E as [[= <-] ?]. done.
Qed.

#[export] Hint Resolve unless_woken_keeps : core.

(** ** Runs *)

(** The actions of a system one after the other. *)
Fixpoint run {A S : Type} (act : A -> S -> Result S Stop) (l : list A) (s : S) : Result S Stop :=
  match l with
  | [] => Ok s
  | a :: l => let? s := act a s in run act l s
  end.

Lemma run_step {A S} (act : A -> S -> Result S Stop) a s s1 l :
  act a s = Ok s1 -> run act (a :: l) s = run act l s1.
Proof. intros Ha. cbn. by rewrite Ha. Qed.

Lemma run_inv {A S} (act : A -> S -> Result S Stop) (inv : S -> Prop) :
  (forall a s s', inv s -> act a s = Ok s' -> inv s') ->
  forall l s s', inv s -> run act l s = Ok s' -> inv s'.
Proof.
  intros Ha l. induction l as [|a l IH]; intros s s' Hi; cbn; [by intros [= <-] |].
  destruct (act a s) as [s1|] eqn:E; cbn; [| done]. apply IH. by eapply Ha.
Qed.

(** How many steps of its own a registration or a take has left, at most. *)
Definition reg_left (q : Registering) : Z :=
  match q with
  | RegStart _ => 6 | RegHeld _ => 5 | RegStored _ => 4 | RegLost _ => 3 | RegUnlock _ _ => 2 | RegWake _ _ => 1
  end.
Definition take_left (q : Taking) : Z :=
  match q with TakeStart => 4 | TakeHeld => 3 | TakeUnlock _ => 2 | TakeWake _ => 1 end.

(** Takes apart what a step answered. *)
Ltac open_step H :=
  repeat match type of H with
  | context [let? _ := exclusive ?b in _] => destruct b; cbn [exclusive and_then] in H
  | context [let? _ := or_panic ?o in _] => destruct o; cbn [or_panic and_then] in H
  | context [if ?b then _ else _] => destruct b
  end; simplify_eq/=.

Lemma register_left q c c' l q' : register_step q c = (c', l, inl q') -> reg_left q' < reg_left q.
Proof.
  destruct q; cbn; unfold compare_exchange, store_waker; intros H; repeat case_match; simplify_eq/=; lia.
Qed.

Lemma take_steps_left q c c' l q' : take_step q c = (c', l, Some q') -> take_left q' < take_left q.
Proof. destruct q; cbn; intros H; repeat case_match; simplify_eq/=; lia. Qed.

Lemma take_left_pos q : 0 < take_left q.
Proof. by destruct q. Qed.

Lemma reg_left_pos q : 0 < reg_left q.
Proof. by destruct q. Qed.

(** Opens the step of the cell inside a step of the system. *)
Ltac open_cell H :=
  let E := fresh "E" in let q' := fresh "q'" in
  match type of H with
  | context [register_step ?q ?c] =>
      pose proof (reg_left_pos q);
      destruct (register_step q c) as [[? ?] [q'|[]]] eqn:E; simplify_eq/=;
      [apply register_left in E; pose proof (reg_left_pos q') |..]
  | context [take_step ?q ?c] =>
      pose proof (take_left_pos q);
      destruct (take_step q c) as [[? ?] [q'|]] eqn:E; simplify_eq/=;
      [apply take_steps_left in E; pose proof (take_left_pos q') |]
  end.

(** A wake that is under way comes, when each step of it brings it nearer. *)
Lemma wake_comes {A S} (act : A -> S -> Result S Stop) (a : A) (waits : Taking -> S -> Prop) (woken : S -> Prop) :
  (forall q s, waits q s -> exists s', act a s = Ok s' /\
     (woken s' \/ exists q', waits q' s' /\ take_left q' < take_left q)) ->
  forall q s, waits q s -> exists k s', (k <= 4)%nat /\ run act (replicate k a) s = Ok s' /\ woken s'.
Proof.
  intros Hstep. assert (Hn : forall n q s, take_left q <= Z.of_nat n -> waits q s ->
    exists k s', (k <= n)%nat /\ run act (replicate k a) s = Ok s' /\ woken s').
  { induction n as [|n IH]; intros q s Hq Hs; [pose proof (take_left_pos q); lia |].
    destruct (Hstep q s Hs) as (s1 & Ha & [Hw | (q' & Hs' & Hl)]).
    - exists 1%nat, s1. split; [lia |]. cbn. by rewrite Ha.
    - destruct (IH q' s1 ltac:(lia) Hs') as (k & s' & Hk & Hr & Hw).
      exists (Datatypes.S k), s'. split; [lia |]. cbn. by rewrite Ha. }
  intros q s. apply (Hn 4%nat q s). by destruct q.
Qed.
