(* ===== verification/Pipe.v ===== *)
(** * In-memory pipes

    [io/util/duplex.rs]: a ring of bytes between one reader and one writer, on
    two threads. Every step of a side is one atomic operation or one access to
    the ring or to a waker's slot, and the two sides' steps interleave in any
    order; what a side alone writes (its count, its own close) it reads with the
    operation next to it. An access that the other side could make at the same time is a data
    race, and a subtraction or an index out of range a panic: the step then
    stops the system. *)

From S2P Require Import Prelude Bytes AtomicWaker AtomicWaits.
Open Scope Z_scope.

Notation byte := Z (only parsing).

(** ** The pipe *)

Record Pipe : Type := {
  ring : list byte;
  written : Z;
  read : Z;
  reader : AtomicWaker;
  writer : AtomicWaker;
  write_closed : bool;
  read_closed : bool }.

Definition new (capacity : Z) : Pipe :=
  let capacity := Z.max capacity 1 in
  {| ring := replicate (Z.to_nat capacity) 0; written := 0; read := 0;
     reader := AtomicWaker.new; writer := AtomicWaker.new; write_closed := false; read_closed := false |}.

Definition set_ring x p := {| ring := x; written := written p; read := read p; reader := reader p;
  writer := writer p; write_closed := write_closed p; read_closed := read_closed p |}.
Definition set_written x p := {| ring := ring p; written := x; read := read p; reader := reader p;
  writer := writer p; write_closed := write_closed p; read_closed := read_closed p |}.
Definition set_read x p := {| ring := ring p; written := written p; read := x; reader := reader p;
  writer := writer p; write_closed := write_closed p; read_closed := read_closed p |}.
Definition set_reader x p := {| ring := ring p; written := written p; read := read p; reader := x;
  writer := writer p; write_closed := write_closed p; read_closed := read_closed p |}.
Definition set_writer x p := {| ring := ring p; written := written p; read := read p; reader := reader p;
  writer := x; write_closed := write_closed p; read_closed := read_closed p |}.
Definition set_write_closed x p := {| ring := ring p; written := written p; read := read p; reader := reader p;
  writer := writer p; write_closed := x; read_closed := read_closed p |}.
Definition set_read_closed x p := {| ring := ring p; written := written p; read := read p; reader := reader p;
  writer := writer p; write_closed := write_closed p; read_closed := x |}.

Definition cap (p : Pipe) : Z := vlen (ring p).

(** The two copies out of the ring, and into it. *)
Definition copy_out (n read : Z) (l : list byte) : option (list byte) :=
  let at_ := read mod vlen l in
  let first := Z.min n (vlen l - at_) in
  a ← slice at_ (at_ + first) l; b ← slice 0 (n - first) l; Some (a ++ b).

Definition copy_in (input : list byte) (written : Z) (l : list byte) : option (list byte) :=
  let at_ := written mod vlen l in
  let first := Z.min (vlen input) (vlen l - at_) in
  l ← write_at at_ (takez first input) l; write_at 0 (dropz first input) l.

(** ** The two sides *)

(** What a poll of the reader knows: its waker, the length of the slice it
    fills, the count of bytes read; and, for the theorems, whether the writer
    had closed when it began. *)
Record Reading : Type := { r_waker : Waker; r_len : Z; r_read : Z; r_closed : bool }.

(** Where the reader is. *)
Inductive ReadPc : Type :=
| RIdle
| RBegin (w : Waker) (len : Z)
| RWritten (r : Reading)
| RClosed (r : Reading)
| RRegister (r : Reading) (p : Registering)
| RInUse (r : Reading)
| RLook (r : Reading)
| RLookClosed (r : Reading)
| RCopy (r : Reading) (written : Z)
| RStore (r : Reading) (out : list byte)
| RWake (p : Taking)
| RDrop
| RDropWake (p : Taking)
| RGone.

(** What a poll of the writer knows: its waker, what it writes, the count of
    bytes written. *)
Record Writing : Type := { w_waker : Waker; w_input : list byte; w_written : Z }.

Inductive WritePc : Type :=
| WIdle
| WBegin (w : Waker) (input : list byte)
| WRead (r : Writing)
| WRegister (r : Writing) (p : Registering)
| WInUse (r : Writing)
| WLook (r : Writing)
| WLookClosed (r : Writing)
| WCopy (r : Writing) (read : Z)
| WStore (r : Writing) (n : Z)
| WWake (p : Taking)
| WClose
| WCloseWake (p : Taking).

(** What a poll answers. [ReadEnd] keeps whether the writer had closed before
    the poll began. *)
Inductive ReadResult : Type := ReadBytes (out : list byte) | ReadEnd (closed : bool) | ReadPending.
Inductive WriteResult : Type := Wrote (n : Z) | BrokenPipe | WritePending.

(** The pipe with its two sides; what was published and what was delivered; the
    waker each side's last poll left behind, until it is woken; what the last
    poll of each side answered. *)
Record Sys : Type := {
  pipe : Pipe;
  rpc : ReadPc;
  wpc : WritePc;
  sent : list byte;
  got : list byte;
  r_waits : option Waker;
  w_waits : option Waker;
  r_result : option ReadResult;
  w_result : option WriteResult }.

Definition start (capacity : Z) : Sys :=
  {| pipe := new capacity; rpc := RIdle; wpc := WIdle; sent := []; got := []; r_waits := None;
     w_waits := None; r_result := None; w_result := None |}.

Definition with_pipe x s := {| pipe := x; rpc := rpc s; wpc := wpc s; sent := sent s; got := got s;
  r_waits := r_waits s; w_waits := w_waits s; r_result := r_result s; w_result := w_result s |}.
Definition with_rpc x s := {| pipe := pipe s; rpc := x; wpc := wpc s; sent := sent s; got := got s;
  r_waits := r_waits s; w_waits := w_waits s; r_result := r_result s; w_result := w_result s |}.
Definition with_wpc x s := {| pipe := pipe s; rpc := rpc s; wpc := x; sent := sent s; got := got s;
  r_waits := r_waits s; w_waits := w_waits s; r_result := r_result s; w_result := w_result s |}.
Definition with_sent x s := {| pipe := pipe s; rpc := rpc s; wpc := wpc s; sent := x; got := got s;
  r_waits := r_waits s; w_waits := w_waits s; r_result := r_result s; w_result := w_result s |}.
Definition with_got x s := {| pipe := pipe s; rpc := rpc s; wpc := wpc s; sent := sent s; got := x;
  r_waits := r_waits s; w_waits := w_waits s; r_result := r_result s; w_result := w_result s |}.
Definition with_r_waits x s := {| pipe := pipe s; rpc := rpc s; wpc := wpc s; sent := sent s; got := got s;
  r_waits := x; w_waits := w_waits s; r_result := r_result s; w_result := w_result s |}.
Definition with_w_waits x s := {| pipe := pipe s; rpc := rpc s; wpc := wpc s; sent := sent s; got := got s;
  r_waits := r_waits s; w_waits := x; r_result := r_result s; w_result := w_result s |}.
Definition with_r_result x s := {| pipe := pipe s; rpc := rpc s; wpc := wpc s; sent := sent s; got := got s;
  r_waits := r_waits s; w_waits := w_waits s; r_result := x; w_result := w_result s |}.
Definition with_w_result x s := {| pipe := pipe s; rpc := rpc s; wpc := wpc s; sent := sent s; got := got s;
  r_waits := r_waits s; w_waits := w_waits s; r_result := r_result s; w_result := x |}.

Definition wake_all (l : list Waker) (s : Sys) : Sys :=
  with_r_waits (unless_woken l (r_waits s)) (with_w_waits (unless_woken l (w_waits s)) s).

(** ** Steps *)

Definition Step : Type := Result Sys Stop.

Definition reader_registering (s : Sys) : bool :=
  match rpc s with RRegister _ p => reg_touches p | _ => false end.
Definition writer_registering (s : Sys) : bool :=
  match wpc s with WRegister _ p => reg_touches p | _ => false end.
Definition reader_taking (s : Sys) : bool :=
  match rpc s with RWake p | RDropWake p => take_touches p | _ => false end.
Definition writer_taking (s : Sys) : bool :=
  match wpc s with WWake p | WCloseWake p => take_touches p | _ => false end.

(** The bytes each side's copy touches: where they start and how many. *)
Definition room (r : Writing) (read : Z) (p : Pipe) : Z :=
  Z.min (cap p - (w_written r - read)) (vlen (w_input r)).
Definition there (r : Reading) (written : Z) : Z := Z.min (written - r_read r) (r_len r).

Definition cells (p : Pipe) (from n : Z) : list Z := (fun i => i mod cap p) <$> seqZ from n.
Definition reader_cells (s : Sys) : list Z :=
  match rpc s with RCopy r written => cells (pipe s) (r_read r) (there r written) | _ => [] end.
Definition writer_cells (s : Sys) : list Z :=
  match wpc s with WCopy r read => cells (pipe s) (w_written r) (room r read (pipe s)) | _ => [] end.
Definition apart (a b : list Z) : bool := forallb (fun i => negb (existsb (Z.eqb i) b)) a.

Definition read_ready (x : ReadResult) (s : Sys) : Sys :=
  with_r_result (Some x) (with_r_waits None (with_rpc RIdle s)).
Definition read_pending (s : Sys) : Sys := with_r_result (Some ReadPending) (with_rpc RIdle s).

(** A step of [take] on the writer's cell, by the reader. *)
Definition wake_writer (p : Taking) (next : Taking -> ReadPc) (last : ReadPc) (s : Sys) : Step :=
  let? _ := exclusive (negb (take_touches p && writer_registering s)) in
  let '(c, woken, p) := take_step p (writer (pipe s)) in
  let s := wake_all woken (with_pipe (set_writer c (pipe s)) s) in
  Ok (with_rpc (match p with Some p => next p | None => last end) s).

(** [close_read] and [close_write]: the store, with which the wake begins. *)
Definition close_read (s : Sys) : Sys :=
  with_rpc (RDropWake TakeStart) (with_pipe (set_read_closed true (pipe s)) s).
Definition close_write (s : Sys) : Sys :=
  with_wpc (WCloseWake TakeStart) (with_pipe (set_write_closed true (pipe s)) s).

(** [poll_read], and [close_read]. *)
Definition read_step (s : Sys) : Step :=
  let p := pipe s in
  match rpc s with
  | RIdle | RGone => Err Disabled
  | RBegin w len =>
      if len =? 0 then Ok (read_ready (ReadBytes []) s)
      else Ok (with_rpc (RWritten {| r_waker := w; r_len := len; r_read := read p; r_closed := write_closed p |}) s)
  | RWritten r =>
      if written p =? r_read r then Ok (with_rpc (RClosed r) s)
      else Ok (with_rpc (RCopy r (written p)) s)
  | RClosed r =>
      if write_closed p then Ok (read_ready (ReadEnd (r_closed r)) s)
      else Ok (with_rpc (RRegister r (RegStart (r_waker r))) s)
  | RRegister r q =>
      let? _ := exclusive (negb (reg_touches q && writer_taking s)) in
      let '(c, woken, q) := register_step q (reader p) in
      let s := wake_all woken (with_pipe (set_reader c p) s) in
      match q with
      | inl q => Ok (with_rpc (RRegister r q) s)
      | inr InUse => Ok (with_rpc (RInUse r) s)
      | inr _ => Ok (with_rpc (RLook r) s)
      end
  | RInUse r => Ok (with_rpc (RLook r) (wake_all (register_wakes (r_waker r) InUse) s))
  | RLook r =>
      if written p =? r_read r then Ok (with_rpc (RLookClosed r) s)
      else Ok (with_rpc (RCopy r (written p)) s)
  | RLookClosed r =>
      if write_closed p then Ok (read_ready (ReadEnd (r_closed r)) s) else Ok (read_pending s)
  | RCopy r written =>
      let? _ := or_panic (sub64 written (r_read r)) in
      let? _ := exclusive (apart (reader_cells s) (writer_cells s)) in
      let? out := or_panic (copy_out (there r written) (r_read r) (ring p)) in
      Ok (with_rpc (RStore r out) s)
  | RStore r out =>
      let? read := or_panic (add64 (r_read r) (vlen out)) in
      Ok (with_rpc (RWake TakeStart)
            (with_r_result (Some (ReadBytes out)) (with_r_waits None
               (with_got (got s ++ out) (with_pipe (set_read read p) s)))))
  | RWake q => wake_writer q RWake RIdle s
  | RDrop => Ok (close_read s)
  | RDropWake q => wake_writer q RDropWake RGone s
  end.

Definition write_ready (x : WriteResult) (s : Sys) : Sys :=
  with_w_result (Some x) (with_w_waits None (with_wpc WIdle s)).
Definition write_pending (s : Sys) : Sys := with_w_result (Some WritePending) (with_wpc WIdle s).

Definition wake_reader (p : Taking) (next : Taking -> WritePc) (s : Sys) : Step :=
  let? _ := exclusive (negb (take_touches p && reader_registering s)) in
  let '(c, woken, p) := take_step p (reader (pipe s)) in
  let s := wake_all woken (with_pipe (set_reader c (pipe s)) s) in
  Ok (with_wpc (match p with Some p => next p | None => WIdle end) s).

(** [poll_write], and [close_write]. *)
Definition write_step (s : Sys) : Step :=
  let p := pipe s in
  match wpc s with
  | WIdle => Err Disabled
  | WBegin w input =>
      if read_closed p || write_closed p then Ok (write_ready BrokenPipe s)
      else if vlen input =? 0 then Ok (write_ready (Wrote 0) s)
      else Ok (with_wpc (WRead {| w_waker := w; w_input := input; w_written := written p |}) s)
  | WRead r =>
      let? used := or_panic (sub64 (w_written r) (read p)) in
      if used =? cap p then Ok (with_wpc (WRegister r (RegStart (w_waker r))) s)
      else Ok (with_wpc (WCopy r (read p)) s)
  | WRegister r q =>
      let? _ := exclusive (negb (reg_touches q && reader_taking s)) in
      let '(c, woken, q) := register_step q (writer p) in
      let s := wake_all woken (with_pipe (set_writer c p) s) in
      match q with
      | inl q => Ok (with_wpc (WRegister r q) s)
      | inr InUse => Ok (with_wpc (WInUse r) s)
      | inr _ => Ok (with_wpc (WLook r) s)
      end
  | WInUse r => Ok (with_wpc (WLook r) (wake_all (register_wakes (w_waker r) InUse) s))
  | WLook r =>
      let? used := or_panic (sub64 (w_written r) (read p)) in
      if used =? cap p then Ok (with_wpc (WLookClosed r) s)
      else Ok (with_wpc (WCopy r (read p)) s)
  | WLookClosed r =>
      if read_closed p then Ok (write_ready BrokenPipe s) else Ok (write_pending s)
  | WCopy r read =>
      let? used := or_panic (sub64 (w_written r) read) in
      let? _ := or_panic (sub64 (cap p) used) in
      let? _ := exclusive (apart (reader_cells s) (writer_cells s)) in
      let n := room r read p in
      let? l := or_panic (copy_in (takez n (w_input r)) (w_written r) (ring p)) in
      Ok (with_wpc (WStore r n) (with_pipe (set_ring l p) s))
  | WStore r n =>
      let? count := or_panic (add64 (w_written r) n) in
      Ok (with_wpc (WWake TakeStart)
            (with_w_result (Some (Wrote n)) (with_w_waits None
               (with_sent (sent s ++ takez n (w_input r)) (with_pipe (set_written count p) s)))))
  | WWake q => wake_reader q WWake s
  | WClose => Ok (close_write s)
  | WCloseWake q => wake_reader q WCloseWake s
  end.

(** What the two tasks do: call, when they are not in a call, or take a step. *)
Inductive Act : Type :=
| PollRead (w : Waker) (len : Z)
| DropReader
| ReadStep
| PollWrite (w : Waker) (input : list byte)
| CloseWriter
| WriteStep.

Definition act (a : Act) (s : Sys) : Step :=
  match a, rpc s, wpc s with
  | PollRead w len, RIdle, _ =>
      if 0 <=? len then Ok (with_rpc (RBegin w len) (with_r_waits (Some w) s)) else Err Disabled
  | DropReader, RIdle, _ => Ok (with_rpc RDrop (with_r_waits None s))
  | ReadStep, _, _ => read_step s
  | PollWrite w input, _, WIdle => Ok (with_wpc (WBegin w input) (with_w_waits (Some w) s))
  | CloseWriter, _, WIdle => Ok (with_wpc WClose (with_w_waits None s))
  | WriteStep, _, _ => write_step s
  | _, _, _ => Err Disabled
  end.

Definition acts : list Act -> Sys -> Step := run act.
