(* ===== verification/PipeInv.v ===== *)
(** * The invariant of a pipe

    What holds of [io/util/duplex.rs] at every step of its two sides: where the
    bytes are ([data]), who holds each waker's slot ([word_ok]), and where the
    waker of a side that waits is ([wait_ok]). *)

From S2P Require Import Prelude Bytes AtomicWaker AtomicWaits Pipe.
Open Scope Z_scope.

(** ** The ring of a pipe

    What the two copies of [io/util/duplex.rs] do: a byte of the stream lives
    at its position modulo the capacity, and a copy that wraps is two. *)

Lemma mod_step a c j :
  0 < c -> 0 <= j < c ->
  (a + j) mod c = if a mod c + j <? c then a mod c + j else a mod c + j - c.
Proof.
  intros Hc Hj. pose proof (Z.mod_pos_bound a c Hc). pose proof (Z.div_mod a c ltac:(lia)).
  destruct (Z.ltb_spec (a mod c + j) c).
  - symmetry. apply (Z.mod_unique _ _ (a / c)); [lia |]. lia.
  - symmetry. apply (Z.mod_unique _ _ (a / c + 1)); [lia |]. lia.
Qed.

(** Positions less than the capacity apart are at different places. *)
Lemma mod_apart a b c : 0 < c -> a <= b < a + c -> a mod c = b mod c -> a = b.
Proof.
  intros Hc Hab Hm. replace b with (a + (b - a)) in Hm by lia. rewrite mod_step in Hm by lia.
  pose proof (Z.mod_pos_bound a c Hc). destruct (Z.ltb_spec (a mod c + (b - a)) c); lia.
Qed.

Section ring.
Context (l : list Z) (Hl : 0 < vlen l).

Lemma copy_out_ok n from stream :
  0 <= n <= vlen l -> 0 <= from -> from + n <= vlen stream ->
  (forall i, from <= i < from + n -> l !!z (i mod vlen l) = stream !!z i) ->
  copy_out n from l = Some (takez n (dropz from stream)).
Proof using Hl.
  intros Hn Hf Hs Hring. unfold copy_out. pose proof (Z.mod_pos_bound from (vlen l) Hl) as Hat.
  set (at_ := from mod vlen l) in *. set (first := Z.min n (vlen l - at_)).
  rewrite (slice_front (n - first)), slice_Some by (unfold first; lia). cbn -[Z.sub]. f_equal.
  replace (at_ + first - at_) with first by lia.
  assert (H1 : vlen (takez first (dropz at_ l)) = first)
    by (rewrite vlen_takez; [done |]; rewrite vlen_dropz; unfold first; lia).
  assert (H2 : vlen (takez (n - first) l) = n - first) by (apply vlen_takez; unfold first; lia).
  assert (H3 : vlen (takez n (dropz from stream)) = n) by (rewrite vlen_takez; [done |]; rewrite vlen_dropz; lia).
  apply vget_eq; rewrite vlen_app, H1, H2; [lia |]. intros j Hj.
  rewrite vget_takez, vget_dropz, <- Hring, mod_step by lia. fold at_.
  destruct (Z.ltb_spec j first) as [Hlt|Hge].
  - rewrite vget_app_l, vget_takez, vget_dropz by lia. destruct (Z.ltb_spec (at_ + j) (vlen l)); [done |].
    unfold first in *. lia.
  - rewrite vget_app_r, H1, vget_takez by lia. unfold first in *.
    destruct (Z.ltb_spec (at_ + j) (vlen l)); [lia |]. f_equal. lia.
Qed.

Lemma copy_in_ok input to :
  vlen input <= vlen l -> 0 <= to ->
  exists l', copy_in input to l = Some l' /\ vlen l' = vlen l /\
    (forall j, 0 <= j < vlen input -> l' !!z ((to + j) mod vlen l) = input !!z j) /\
    (forall k, 0 <= k -> (forall j, 0 <= j < vlen input -> k <> (to + j) mod vlen l) -> l' !!z k = l !!z k).
Proof using Hl.
  intros Hn Ht. unfold copy_in. pose proof (Z.mod_pos_bound to (vlen l) Hl) as Hat.
  set (at_ := to mod vlen l) in *. set (first := Z.min (vlen input) (vlen l - at_)).
  pose proof (vlen_nonneg input).
  assert (H1 : vlen (takez first input) = first) by (apply vlen_takez; unfold first; lia).
  assert (H2 : vlen (dropz first input) = vlen input - first) by (apply vlen_dropz; unfold first; lia).
  rewrite write_at_Some by (rewrite ?H1; unfold first; lia). cbn.
  pose proof (vlen_write at_ (takez first input) l ltac:(lia) ltac:(unfold first in *; lia)) as Hv.
  set (l1 := takez at_ l ++ _) in *.
  rewrite write_at_Some by (unfold first in *; lia). eexists. split; [done |].
  split; [rewrite vlen_write by (unfold first in *; lia); done |].
  assert (Hget : forall k, 0 <= k -> (takez 0 l1 ++ dropz first input ++ dropz (0 + vlen (dropz first input)) l1) !!z k =
    if k <? vlen input - first then input !!z (first + k)
    else if (at_ <=? k) && (k <? at_ + first) then input !!z (k - at_) else l !!z k).
  { intros k Hk. rewrite vget_write by (unfold first in *; lia). rewrite H2. cbn [andb].
    destruct (Z.leb_spec 0 k); [| lia]. cbn [andb]. rewrite Z.add_0_l, Z.sub_0_r.
    destruct (Z.ltb_spec k (vlen input - first)); [rewrite vget_dropz by (unfold first in *; lia); done |].
    unfold l1. rewrite vget_write by (unfold first in *; lia). rewrite H1.
    destruct (Z.leb_spec at_ k), (Z.ltb_spec k (at_ + first)); cbn [andb]; [| done ..].
    apply vget_takez. lia. }
  split.
  - intros j Hj. rewrite Hget by (apply Z.mod_pos_bound; lia). rewrite mod_step by lia. fold at_. unfold first in *.
    destruct (Z.ltb_spec (at_ + j) (vlen l)).
    + destruct (Z.ltb_spec (at_ + j) (vlen input - Z.min (vlen input) (vlen l - at_))); [lia |].
      destruct (Z.leb_spec at_ (at_ + j)), (Z.ltb_spec (at_ + j) (at_ + Z.min (vlen input) (vlen l - at_))); cbn [andb]; try lia.
      f_equal. lia.
    + destruct (Z.ltb_spec (at_ + j - vlen l) (vlen input - Z.min (vlen input) (vlen l - at_))); [| lia].
      f_equal. lia.
  - intros k Hk Hmiss. rewrite Hget by lia. unfold first in *.
    destruct (Z.ltb_spec k (vlen input - Z.min (vlen input) (vlen l - at_))).
    + destruct (Hmiss (Z.min (vlen input) (vlen l - at_) + k) ltac:(lia)).
      rewrite mod_step by lia. fold at_. case_match eqn:E; apply Z.ltb_lt in E || apply Z.ltb_ge in E; lia.
    + destruct (Z.leb_spec at_ k), (Z.ltb_spec k (at_ + Z.min (vlen input) (vlen l - at_))); cbn [andb]; try done.
      destruct (Hmiss (k - at_) ltac:(lia)). rewrite mod_step by lia. fold at_.
      case_match eqn:E; apply Z.ltb_lt in E || apply Z.ltb_ge in E; lia.
Qed.
End ring.

(** ** Bytes *)

Definition r_data (p : Pipe) (stream : list Z) (pc : ReadPc) : Prop :=
  match pc with
  | RBegin _ len => 0 <= len
  | RWritten r | RRegister r _ | RInUse r | RLook r =>
      r_read r = read p /\ 0 < r_len r /\ (r_closed r = true -> write_closed p = true)
  | RClosed r | RLookClosed r =>
      r_read r = read p /\ 0 < r_len r /\ (r_closed r = true -> write_closed p = true /\ written p = read p)
  | RCopy r w => r_read r = read p /\ 0 < r_len r /\ read p < w <= written p
  | RStore r out =>
      r_read r = read p /\
      exists n, 0 < n /\ read p + n <= written p /\ out = takez n (dropz (read p) stream)
  | _ => True
  end.

Definition w_data (p : Pipe) (pc : WritePc) : Prop :=
  match pc with
  | WRead r | WRegister r _ | WInUse r | WLook r | WLookClosed r =>
      w_written r = written p /\ 0 < vlen (w_input r) /\ write_closed p = false
  | WCopy r rd =>
      w_written r = written p /\ 0 < vlen (w_input r) /\ write_closed p = false /\
      rd <= read p /\ written p - rd < cap p
  | WStore r n =>
      w_written r = written p /\ write_closed p = false /\
      0 < n <= vlen (w_input r) /\ written p + n <= read p + cap p /\
      forall j, 0 <= j < n -> ring p !!z ((written p + j) mod cap p) = w_input r !!z j
  | _ => True
  end.

Record base (p : Pipe) (stream out : list Z) : Prop := {
  b_cap : 0 < cap p;
  b_written : written p = vlen stream;
  b_width : written p <= u64_max;
  b_read : 0 <= read p <= written p;
  b_full : written p <= read p + cap p;
  b_out : out = takez (read p) stream;
  b_ring : forall i, read p <= i < written p -> ring p !!z (i mod cap p) = stream !!z i }.

(** An end that was answered: the writer had closed; and when it had closed
    before the poll began, every byte was delivered. *)
Definition end_data (p : Pipe) (o : option ReadResult) : Prop :=
  match o with
  | Some (ReadEnd c) => write_closed p = true /\ (c = true -> written p = read p)
  | _ => True
  end.

Record data (s : Sys) : Prop := {
  d_base : base (pipe s) (sent s) (got s);
  d_read : r_data (pipe s) (sent s) (rpc s);
  d_write : w_data (pipe s) (wpc s);
  d_end : end_data (pipe s) (r_result s) }.

(** ** Wakers *)

Definition r_phase (pc : ReadPc) : Phase :=
  match pc with
  | RIdle => PIdle
  | RBegin w _ => PBefore w
  | RWritten r | RClosed r | RInUse r => PBefore (r_waker r)
  | RRegister r q => PReg (r_waker r) q
  | RLook r => PLook (r_waker r)
  | RLookClosed r => PSeen (r_waker r)
  | RCopy _ _ | RStore _ _ => PReady
  | _ => PAway
  end.

Definition w_phase (pc : WritePc) : Phase :=
  match pc with
  | WIdle => PIdle
  | WBegin w _ => PBefore w
  | WRead r | WInUse r => PBefore (w_waker r)
  | WRegister r q => PReg (w_waker r) q
  | WLook r => PLook (w_waker r)
  | WLookClosed r => PSeen (w_waker r)
  | WCopy _ _ | WStore _ _ => PReady
  | _ => PAway
  end.

Definition r_taking (pc : ReadPc) : option Taking :=
  match pc with RWake q | RDropWake q => Some q | _ => None end.
Definition w_taking (pc : WritePc) : option Taking :=
  match pc with WWake q | WCloseWake q => Some q | _ => None end.

Definition empty (p : Pipe) : Prop := written p = read p.
Definition full (p : Pipe) : Prop := written p - read p = cap p.

Record inv (s : Sys) : Prop := {
  i_data : data s;
  i_reader : word_ok (reader (pipe s)) (registering (r_phase (rpc s))) (w_taking (wpc s));
  i_writer : word_ok (writer (pipe s)) (registering (w_phase (wpc s))) (r_taking (rpc s));
  i_rwait : wait_ok (r_phase (rpc s)) (reader (pipe s)) (w_taking (wpc s)) (empty (pipe s))
              (write_closed (pipe s)) (r_waits s);
  i_wwait : wait_ok (w_phase (wpc s)) (writer (pipe s)) (r_taking (rpc s)) (full (pipe s))
              (read_closed (pipe s)) (w_waits s) }.

(** ** The reader's steps *)

(** The bytes do not depend on the wakers. *)
Lemma base_reader p c stream out : base p stream out -> base (set_reader c p) stream out.
Proof. intros []. by constructor. Qed.

Lemma base_writer p c stream out : base p stream out -> base (set_writer c p) stream out.
Proof. intros []. by constructor. Qed.

#[export] Hint Resolve base_reader base_writer : core.

(** The state the reader leaves when it moves on without touching the pipe. *)
Definition read_moved pc res o o2 (s : Sys) : Sys :=
  with_r_result res (with_r_waits o (with_w_waits o2 (with_rpc pc s))).

Lemma read_move s pc res o o2 :
  inv s -> holds_reg (registering (r_phase (rpc s))) = false -> r_taking (rpc s) = None ->
  holds_reg (registering (r_phase pc)) = false -> r_taking pc = None ->
  r_data (pipe s) (sent s) pc -> end_data (pipe s) res ->
  wait_ok (r_phase pc) (reader (pipe s)) (w_taking (wpc s)) (empty (pipe s)) (write_closed (pipe s)) o ->
  (forall w, o2 = Some w -> w_waits s = Some w) ->
  inv (read_moved pc res o o2 s).
Proof.
  intros [[Hb Hr Hw He] Hcr Hcw Hwr Hww] Hreg Htak Hreg' Htak' Hd Hend Hwait Ho2. constructor; cbn.
  - by constructor.
  - by eapply word_reg.
  - by rewrite Htak', <- Htak.
  - done.
  - rewrite Htak', <- Htak. by eapply wait_weaken.
Qed.

Lemma reader_excluded s q :
  inv s -> rpc s = RRegister q.1 q.2 -> negb (reg_touches q.2 && writer_taking s) = true.
Proof.
  intros [_ Hc _ _ _] Hpc. rewrite Hpc in Hc. unfold word_ok in Hc. cbn in Hc. unfold writer_taking.
  destruct q as [r q]; cbn in *. destruct q; cbn; try done; destruct (wpc s) as [| | | | | | | | |[]| |[]]; done.
Qed.

Lemma read_register s r q :
  inv s -> rpc s = RRegister r q -> match read_step s with Ok s' => inv s' | Err _ => False end.
Proof.
  intros Hi Hpc. unfold read_step. rewrite Hpc. pose proof (reader_excluded s (r, q) Hi Hpc) as Hx.
  cbn in Hx. rewrite Hx. cbn [exclusive and_then].
  destruct (register_step q (reader (pipe s))) as [[c l] x] eqn:Hs.
  destruct Hi as [[Hb Hr Hw He] Hcr Hcw Hwr Hww]. rewrite Hpc in *. cbn in Hcr, Hcw, Hwr, Hr.
  pose proof (reg_word _ _ _ Hcr q c l x eq_refl Hs) as Hcr'.
  pose proof (wait_reg Hwr (r_waker r) q c l x eq_refl Hs) as Hwr'.
  destruct x as [q'|[]];
    (constructor; cbn; [constructor; cbn; auto | done | done | done | by eapply wait_weaken; eauto]).
Qed.

(** A step of the reader's wake of the writer. *)
Lemma read_wake s q next last :
  inv s -> r_taking (rpc s) = Some q -> r_phase (rpc s) = PAway ->
  (forall q', r_taking (next q') = Some q' /\ r_phase (next q') = PAway /\ r_data (pipe s) (sent s) (next q')) ->
  r_taking last = None -> holds_reg (registering (r_phase last)) = false ->
  (forall p stream, r_data p stream last) ->
  match wake_writer q next last s with Ok s' => inv s' | Err _ => False end.
Proof.
  intros [[Hb Hr Hw He] Hcr Hcw Hwr Hww] Ht Hph Hnext Hlast Hlreg Hldata. unfold wake_writer.
  assert (Hx : negb (take_touches q && writer_registering s) = true).
  { rewrite Ht in Hcw. unfold word_ok in Hcw. unfold writer_registering. destruct q; cbn in *; try done.
    destruct (wpc s) as [| | |? []| | | | | | | |]; done. }
  rewrite Hx. cbn [exclusive and_then]. destruct (take_step q (writer (pipe s))) as [[c l] q'] eqn:Hs.
  assert (Hnone : r_waits s = None).
  { destruct (r_waits s) as [w|] eqn:E; [| done]. specialize (Hwr w eq_refl). by rewrite Hph in Hwr. }
  pose proof (taken_word _ _ _ Hcw q c l q' Ht Hs) as Hcw'.
  pose proof (wait_take Hww Hcw q c l q' Ht Hs) as Hww'.
  rewrite Hph in Hcr. destruct q' as [q'|].
  - destruct (Hnext q') as (Hn1 & Hn2 & Hn3). constructor; cbn; rewrite ?Hn1, ?Hn2, ?Hnone;
      [constructor; cbn; auto; by destruct (next q') | done ..].
  - constructor; cbn; rewrite ?Hlast, ?Hnone;
      [constructor; cbn; auto; apply Hldata | by eapply word_reg | done | by apply wait_none | done].
Qed.

(** The two copies never meet: the reader's bytes are published, the writer's
    are not yet, and all of them fit in the ring. *)
Lemma copies_apart s : inv s -> apart (reader_cells s) (writer_cells s) = true.
Proof.
  intros [[Hb Hr Hw _] _ _ _ _]. destruct Hb. unfold apart, reader_cells, writer_cells.
  destruct (rpc s) as [| | | | | | | |r wr| | | | |]; try done.
  destruct (wpc s) as [| | | | | | |v rd| | | |]; try (by apply forallb_forall).
  apply forallb_forall. intros k Hk. rewrite <- list_elem_of_In in Hk. unfold cells in *.
  apply list_elem_of_fmap in Hk as (i & -> & Hi%elem_of_seqZ). cbn in Hr, Hw.
  destruct Hr as (Hr1 & Hr2 & Hr3), Hw as (Hw1 & Hw2 & _ & Hw3 & Hw4). unfold there, room in *.
  apply negb_true_iff, not_true_iff_false. intros (j & Hj & Hij%Z.eqb_eq)%existsb_exists.
  rewrite <- list_elem_of_In in Hj. apply list_elem_of_fmap in Hj as (j' & -> & Hj'%elem_of_seqZ).
  apply mod_apart in Hij; lia.
Qed.

Lemma read_copy s r w :
  inv s -> rpc s = RCopy r w -> match read_step s with Ok s' => inv s' | Err _ => False end.
Proof.
  intros Hi Hpc. unfold read_step. rewrite Hpc, (copies_apart s Hi). assert (Hi' := Hi).
  destruct Hi as [[Hb Hr Hw He] Hcr Hcw Hwr Hww]. rewrite Hpc in *. cbn in Hr. destruct Hr as (Hr1 & Hr2 & Hr3).
  destruct Hb as [Hcap Hwr' Hwid Hrd Hfull Hout Hring]. unfold cap, there in *.
  rewrite sub64_Some by lia. cbn [or_panic and_then exclusive].
  rewrite (copy_out_ok (ring (pipe s)) Hcap _ _ (sent s)); [| lia | lia | lia |]; cycle 1.
  { intros i Hi. apply Hring. lia. }
  apply (read_move s (RStore _ _) (r_result s) (r_waits s) (w_waits s)); try done;
    try (by rewrite Hpc). cbn. split; [done |].
  exists (Z.min (w - r_read r) (r_len r)). rewrite Hr1. split; [lia |]. split; [lia | done].
Qed.

Lemma read_store s r out :
  inv s -> rpc s = RStore r out -> match read_step s with Ok s' => inv s' | Err _ => False end.
Proof.
  intros Hi Hpc. unfold read_step. rewrite Hpc.
  destruct Hi as [[Hb Hr Hw He] Hcr Hcw Hwr Hww]. rewrite Hpc in *. cbn in Hr, Hcr, Hcw, Hww.
  destruct Hr as (Hr1 & n & Hn1 & Hn2 & Hout). destruct Hb as [Hcap Hwr' Hwid Hrd Hfull Hgot Hring].
  assert (Hl : vlen out = n) by (rewrite Hout, vlen_takez; [done |]; rewrite vlen_dropz; lia).
  rewrite add64_Some by lia. cbn [or_panic and_then]. rewrite Hl, Hr1. constructor; cbn.
  - constructor; cbn; [| done | | done].
    + unfold cap in *. constructor; unfold cap; cbn; try lia; try done.
      * rewrite Hgot, Hout. rewrite (takez_split (read (pipe s)) (read (pipe s) + n)) by lia.
        do 2 f_equal. lia.
      * intros i Hi. apply Hring. lia.
    + destruct (wpc s); cbn in *; unfold cap in *; cbn in *; try done; naive_solver lia.
  - by eapply word_reg.
  - by eapply word_take.
  - apply wait_none.
  - apply (wait_other Hww); [done | by right].
Qed.

Lemma read_drop s :
  inv s -> rpc s = RDrop -> match read_step s with Ok s' => inv s' | Err _ => False end.
Proof.
  intros Hi Hpc. unfold read_step. rewrite Hpc.
  destruct Hi as [[Hb Hr Hw He] Hcr Hcw Hwr Hww]. rewrite Hpc in *. cbn in Hcr, Hcw, Hww. constructor; cbn.
  - constructor; cbn; [| done | by destruct (wpc s) | done]. by destruct Hb; constructor.
  - done.
  - by eapply word_take.
  - intros w Ho. by specialize (Hwr w Ho).
  - apply (wait_other Hww); [done | by right].
Qed.

(** The reader looks, and goes on in the same phase or to a copy. *)
Lemma read_look s pc :
  inv s -> r_data (pipe s) (sent s) pc ->
  r_phase pc = PReady \/ r_phase pc = r_phase (rpc s) ->
  holds_reg (registering (r_phase (rpc s))) = false -> r_taking (rpc s) = None -> r_taking pc = None ->
  inv (with_rpc pc s).
Proof.
  intros Hi Hd Hph Hreg Ht Ht'.
  apply (read_move s pc (r_result s) (r_waits s) (w_waits s)); try done; try apply Hi.
  - destruct Hph as [-> | ->]; done.
  - destruct Hph as [-> | ->]; [done | apply Hi].
Qed.

Lemma read_answer s x :
  inv s -> end_data (pipe s) (Some x) ->
  holds_reg (registering (r_phase (rpc s))) = false -> r_taking (rpc s) = None -> inv (read_ready x s).
Proof.
  intros Hi He Hreg Ht. apply (read_move s RIdle (Some x) None (w_waits s)); done.
Qed.

Lemma read_ok s : inv s -> match read_step s with Ok s' => inv s' | Err e => e = Disabled end.
Proof.
  intros Hi. assert (Hi' := Hi). destruct Hi' as [[Hb Hr Hw He] Hcr Hcw Hwr Hww].
  destruct (rpc s) as [|w len|r|r|r q|r|r|r|r w|r out|q| |q|] eqn:Hpc; cbn in Hr, Hwr.
  - unfold read_step. by rewrite Hpc.
  - unfold read_step. rewrite Hpc. destruct (Z.eqb_spec len 0).
    + apply read_answer; try done; by rewrite Hpc.
    + apply read_look; try done; rewrite ?Hpc; try done; cbn; [| by right]. split; [done | split; [lia | done]].
  - unfold read_step. rewrite Hpc. destruct (Z.eqb_spec (written (pipe s)) (r_read r)).
    + apply read_look; try done; rewrite ?Hpc; try done; cbn; [naive_solver lia | by right].
    + destruct Hb. apply read_look; try done; rewrite ?Hpc; try done; cbn; [naive_solver lia | by left].
  - unfold read_step. rewrite Hpc. destruct (write_closed (pipe s)) eqn:Hc.
    + apply read_answer; try done; rewrite ?Hpc; try done. cbn. naive_solver.
    + apply (read_move s _ (r_result s) (r_waits s) (w_waits s)); try done; rewrite ?Hpc; try done; cbn;
        [naive_solver congruence |]. rewrite Hc. intros w Ho. specialize (Hwr w Ho). cbn in *. done.
  - pose proof (read_register s r q Hi Hpc) as H. by destruct (read_step s).
  - unfold read_step. rewrite Hpc.
    apply (read_move s (RLook r) (r_result s) (unless_woken [r_waker r] (r_waits s)) (unless_woken [r_waker r] (w_waits s)));
      try done; rewrite ?Hpc; try done; [| by intros ? ?%unless_woken_keeps].
    intros w [Ho Hn]%unless_woken_Some. specialize (Hwr w Ho). cbn in *. subst. set_solver.
  - unfold read_step. rewrite Hpc. destruct (Z.eqb_spec (written (pipe s)) (r_read r)).
    + apply (read_move s _ (r_result s) (r_waits s) (w_waits s)); try done; rewrite ?Hpc; try done; cbn;
        [naive_solver lia |]. intros w Ho. specialize (Hwr w Ho). cbn in *. unfold empty. naive_solver congruence.
    + destruct Hb. apply read_look; try done; rewrite ?Hpc; try done; cbn; [naive_solver lia | by left].
  - unfold read_step. rewrite Hpc. destruct (write_closed (pipe s)) eqn:Hc.
    + apply read_answer; try done; rewrite ?Hpc; try done. cbn. naive_solver.
    + apply (read_move s RIdle (Some ReadPending) (r_waits s) (w_waits s)); try done; rewrite ?Hpc; try done.
      rewrite Hc. intros w Ho. specialize (Hwr w Ho). cbn in *. naive_solver.
  - pose proof (read_copy s r w Hi Hpc) as H. by destruct (read_step s).
  - pose proof (read_store s r out Hi Hpc) as H. by destruct (read_step s).
  - unfold read_step. rewrite Hpc.
    pose proof (read_wake s q RWake RIdle Hi) as H. rewrite Hpc in H.
    specialize (H eq_refl eq_refl ltac:(done) eq_refl eq_refl ltac:(done)). by destruct (wake_writer _ _ _ _).
  - pose proof (read_drop s Hi Hpc) as H. by destruct (read_step s).
  - unfold read_step. rewrite Hpc.
    pose proof (read_wake s q RDropWake RGone Hi) as H. rewrite Hpc in H.
    specialize (H eq_refl eq_refl ltac:(done) eq_refl eq_refl ltac:(done)). by destruct (wake_writer _ _ _ _).
  - unfold read_step. by rewrite Hpc.
Qed.
