(* ===== verification/PipeWrite.v ===== *)
(** * The writer's steps

    Each step of the writing side of [io/util/duplex.rs] keeps the invariant of
    the pipe; with the reader's steps, so does every action. *)

From S2P Require Import Prelude Bytes AtomicWaker AtomicWaits Pipe PipeInv.
Open Scope Z_scope.

Definition write_moved pc res o o2 (s : Sys) : Sys :=
  with_w_result res (with_w_waits o (with_r_waits o2 (with_wpc pc s))).

Lemma write_move s pc res o o2 :
  inv s -> holds_reg (registering (w_phase (wpc s))) = false -> w_taking (wpc s) = None ->
  holds_reg (registering (w_phase pc)) = false -> w_taking pc = None ->
  w_data (pipe s) pc ->
  wait_ok (w_phase pc) (writer (pipe s)) (r_taking (rpc s)) (full (pipe s)) (read_closed (pipe s)) o ->
  (forall w, o2 = Some w -> r_waits s = Some w) ->
  inv (write_moved pc res o o2 s).
Proof.
  intros [[Hb Hr Hw He] Hcr Hcw Hwr Hww] Hreg Htak Hreg' Htak' Hd Hwait Ho2. constructor; cbn.
  - by constructor.
  - by rewrite Htak', <- Htak.
  - by eapply word_reg.
  - rewrite Htak', <- Htak. by eapply wait_weaken.
  - done.
Qed.

Lemma writer_excluded s r q :
  inv s -> wpc s = WRegister r q -> negb (reg_touches q && reader_taking s) = true.
Proof.
  intros [_ _ Hc _ _] Hpc. rewrite Hpc in Hc. unfold word_ok in Hc. cbn in Hc. unfold reader_taking.
  destruct q; cbn; try done; destruct (rpc s) as [| | | | | | | | | |[]| |[]|]; done.
Qed.

Lemma write_register s r q :
  inv s -> wpc s = WRegister r q -> match write_step s with Ok s' => inv s' | Err _ => False end.
Proof.
  intros Hi Hpc. unfold write_step. rewrite Hpc, (writer_excluded s r q Hi Hpc). cbn [exclusive and_then].
  destruct (register_step q (writer (pipe s))) as [[c l] x] eqn:Hs.
  destruct Hi as [[Hb Hr Hw He] Hcr Hcw Hwr Hww]. rewrite Hpc in *. cbn in Hcr, Hcw, Hww, Hw.
  pose proof (reg_word _ _ _ Hcw q c l x eq_refl Hs) as Hcw'.
  pose proof (wait_reg Hww (w_waker r) q c l x eq_refl Hs) as Hww'.
  destruct x as [q'|[]];
    (constructor; cbn; [constructor; cbn; auto | done | done | by eapply wait_weaken; eauto | done]).
Qed.

Lemma write_wake s q next :
  inv s -> w_taking (wpc s) = Some q -> w_phase (wpc s) = PAway ->
  (forall q', w_taking (next q') = Some q' /\ w_phase (next q') = PAway /\ w_data (pipe s) (next q')) ->
  match wake_reader q next s with Ok s' => inv s' | Err _ => False end.
Proof.
  intros [[Hb Hr Hw He] Hcr Hcw Hwr Hww] Ht Hph Hnext. unfold wake_reader.
  assert (Hx : negb (take_touches q && reader_registering s) = true).
  { rewrite Ht in Hcr. unfold word_ok in Hcr. unfold reader_registering. destruct q; cbn in *; try done.
    destruct (rpc s) as [| | | |? []| | | | | | | | |]; done. }
  rewrite Hx. cbn [exclusive and_then]. destruct (take_step q (reader (pipe s))) as [[c l] q'] eqn:Hs.
  assert (Hnone : w_waits s = None).
  { destruct (w_waits s) as [w|] eqn:E; [| done]. specialize (Hww w eq_refl). by rewrite Hph in Hww. }
  pose proof (taken_word _ _ _ Hcr q c l q' Ht Hs) as Hcr'.
  pose proof (wait_take Hwr Hcr q c l q' Ht Hs) as Hwr'.
  rewrite Hph in Hcw. destruct q' as [q'|].
  - destruct (Hnext q') as (Hn1 & Hn2 & Hn3). constructor; cbn; rewrite ?Hn1, ?Hn2, ?Hnone;
      [constructor; cbn; auto; by destruct (next q') | done ..].
  - constructor; cbn; rewrite ?Hnone;
      [constructor; cbn; auto | done | done | done | by apply wait_none].
Qed.

Lemma write_copy s r rd :
  inv s -> wpc s = WCopy r rd -> match write_step s with Ok s' => inv s' | Err _ => False end.
Proof.
  intros Hi Hpc. unfold write_step. rewrite Hpc, (copies_apart s Hi).
  destruct Hi as [[Hb Hr Hw He] Hcr Hcw Hwr Hww]. rewrite Hpc in *. cbn in Hw, Hcr, Hcw, Hwr, Hww.
  destruct Hw as (Hw1 & Hw2 & Hw3 & Hw4 & Hw5). destruct Hb as [Hcap Hwr' Hwid Hrd Hfull Hgot Hring].
  rewrite !sub64_Some by lia. cbn [or_panic and_then]. rewrite sub64_Some by lia.
  cbn [or_panic and_then exclusive]. set (n := room r rd (pipe s)).
  assert (Hn : 0 < n <= vlen (w_input r) /\ n <= cap (pipe s) - (written (pipe s) - rd)) by (unfold n, room; lia).
  assert (Hv : vlen (takez n (w_input r)) = n) by (apply vlen_takez; lia).
  destruct (copy_in_ok (ring (pipe s)) Hcap (takez n (w_input r)) (w_written r)) as (l & -> & Hl & Hin & Hkeep);
    [unfold cap in *; lia | lia |]. cbn [or_panic and_then]. rewrite Hw1, Hv in *.
  assert (Hc : cap (set_ring l (pipe s)) = cap (pipe s)) by done.
  constructor; cbn; [| done ..]. constructor; cbn; [| by destruct (rpc s) | | done].
  - constructor; rewrite ?Hc; cbn; try done. intros i Hi. rewrite Hkeep, Hring; try done.
    + apply Z.mod_pos_bound. done.
    + intros j Hj Heq. apply mod_apart in Heq; unfold cap in *; lia.
  - rewrite Hc. split; [done |]. split; [done |]. split; [lia |]. split; [lia |].
    intros j Hj. unfold cap in *. rewrite Hin by done. apply vget_takez. done.
Qed.

Lemma write_store s r n :
  inv s -> wpc s = WStore r n ->
  match write_step s with
  | Ok s' => inv s'
  | Err e => e = Panics /\ u64_max < w_written r + n
  end.
Proof.
  intros Hi Hpc. unfold write_step. rewrite Hpc. unfold add64.
  destruct (Z.leb_spec (w_written r + n) u64_max) as [Hle|]; [| done]. cbn [or_panic and_then].
  destruct Hi as [[Hb Hr Hw He] Hcr Hcw Hwr Hww]. rewrite Hpc in *. cbn in Hw, Hcr, Hcw, Hwr.
  destruct Hw as (Hw1 & Hw2 & Hw3 & Hw4 & Hw5). destruct Hb as [Hcap Hwr' Hwid Hrd Hfull Hgot Hring].
  assert (Hv : vlen (takez n (w_input r)) = n) by (apply vlen_takez; lia). rewrite Hw1 in *.
  constructor; cbn.
  - constructor; cbn; [| | done |].
    + constructor; unfold cap in *; cbn in *; try lia; try done.
      * rewrite vlen_app. lia.
      * by rewrite takez_app_l by lia.
      * intros i Hi. destruct (Z.lt_ge_cases i (written (pipe s))).
        { rewrite vget_app_l by lia. apply Hring. lia. }
        rewrite vget_app_r, vget_takez, <- Hw5 by lia. do 2 f_equal. lia.
    + destruct (rpc s); cbn in *; try done;
        try (destruct Hr as (? & ? & Hcl); split; [done |]; split; [done |];
             intros Hc; specialize (Hcl Hc); intuition congruence); [naive_solver lia |].
      destruct Hr as (? & m & ? & ? & ->). split; [done |]. exists m. split; [done |]. split; [lia |].
      rewrite dropz_app_l by lia. rewrite takez_app_l; [done |]. rewrite vlen_dropz; lia.
    + destruct (r_result s) as [[| |]|]; cbn in *; try done. naive_solver congruence.
  - by eapply word_take.
  - by eapply word_reg.
  - apply (wait_other Hwr); [done | by right].
  - apply wait_none.
Qed.

Lemma write_close s :
  inv s -> wpc s = WClose -> match write_step s with Ok s' => inv s' | Err _ => False end.
Proof.
  intros Hi Hpc. unfold write_step. rewrite Hpc.
  destruct Hi as [[Hb Hr Hw He] Hcr Hcw Hwr Hww]. rewrite Hpc in *. cbn in Hcr, Hcw, Hwr. constructor; cbn.
  - constructor; cbn; [by destruct Hb; constructor | | done |].
    + destruct (rpc s); cbn in *; try done; naive_solver.
    + destruct (r_result s) as [[| |]|]; cbn in *; try done. naive_solver.
  - by eapply word_take.
  - done.
  - apply (wait_other Hwr); [done | by right].
  - intros w Ho. by specialize (Hww w Ho).
Qed.

(** The writer looks, and goes on in the same phase or to a copy. *)
Lemma write_look s pc :
  inv s -> w_data (pipe s) pc ->
  w_phase pc = PReady \/ w_phase pc = w_phase (wpc s) ->
  holds_reg (registering (w_phase (wpc s))) = false -> w_taking (wpc s) = None -> w_taking pc = None ->
  inv (with_wpc pc s).
Proof.
  intros Hi Hd Hph Hreg Ht Ht'.
  apply (write_move s pc (w_result s) (w_waits s) (r_waits s)); try done; try apply Hi.
  - destruct Hph as [-> | ->]; done.
  - destruct Hph as [-> | ->]; [done | apply Hi].
Qed.

Lemma write_answer s x :
  inv s -> holds_reg (registering (w_phase (wpc s))) = false -> w_taking (wpc s) = None -> inv (write_ready x s).
Proof. intros Hi Hreg Ht. apply (write_move s WIdle (Some x) None (r_waits s)); done. Qed.

(** The one panic the writer meets: the count of all bytes ever written leaves
    its type. *)
Definition overflows (s : Sys) : Prop :=
  exists r n, wpc s = WStore r n /\ u64_max < written (pipe s) + n.

Lemma write_ok s :
  inv s ->
  match write_step s with
  | Ok s' => inv s'
  | Err Disabled => wpc s = WIdle
  | Err Panics => overflows s
  | Err (Races | Uninit | Freed) => False
  end.
Proof.
  intros Hi. assert (Hi' := Hi). destruct Hi' as [[Hb Hr Hw He] Hcr Hcw Hwr Hww].
  destruct (wpc s) as [|w input|r|r q|r|r|r|r rd|r n|q| |q] eqn:Hpc; cbn in Hw, Hww.
  - unfold write_step. by rewrite Hpc.
  - unfold write_step. rewrite Hpc.
    destruct (read_closed (pipe s) || write_closed (pipe s)) eqn:Hc; [apply write_answer; by rewrite ?Hpc |].
    apply orb_false_iff in Hc as [Hc1 Hc2]. destruct (Z.eqb_spec (vlen input) 0); [apply write_answer; by rewrite ?Hpc |].
    apply write_look; try done; rewrite ?Hpc; try done; cbn; [| by right].
    pose proof (vlen_nonneg input). split; [done | split; [lia | done]].
  - unfold write_step. rewrite Hpc. destruct Hb, Hw as (Hw1 & Hw2 & Hw3). rewrite sub64_Some by lia.
    cbn [or_panic and_then]. destruct (Z.eqb_spec (w_written r - read (pipe s)) (cap (pipe s))).
    + apply (write_move s _ (w_result s) (w_waits s) (r_waits s)); try done; rewrite ?Hpc; try done; cbn.
      intros w Ho. specialize (Hww w Ho). cbn in *. done.
    + apply write_look; try done; rewrite ?Hpc; try done; cbn; [| by left].
      at_hand 3. lia.
  - pose proof (write_register s r q Hi Hpc) as H. by destruct (write_step s).
  - unfold write_step. rewrite Hpc.
    apply (write_move s (WLook r) (w_result s) (unless_woken [w_waker r] (w_waits s)) (unless_woken [w_waker r] (r_waits s)));
      try done; rewrite ?Hpc; try done; [| by intros ? ?%unless_woken_keeps].
    intros w [Ho Hn]%unless_woken_Some. specialize (Hww w Ho). cbn in *. subst. set_solver.
  - unfold write_step. rewrite Hpc. destruct Hb, Hw as (Hw1 & Hw2 & Hw3). rewrite sub64_Some by lia.
    cbn [or_panic and_then]. destruct (Z.eqb_spec (w_written r - read (pipe s)) (cap (pipe s))).
    + apply (write_move s _ (w_result s) (w_waits s) (r_waits s)); try done; rewrite ?Hpc; try done; cbn.
      intros w Ho. specialize (Hww w Ho). cbn in *. unfold full. rewrite <- Hw1. naive_solver.
    + apply write_look; try done; rewrite ?Hpc; try done; cbn; [| by left].
      at_hand 3. lia.
  - unfold write_step. rewrite Hpc. destruct (read_closed (pipe s)) eqn:Hc; [apply write_answer; by rewrite ?Hpc |].
    apply (write_move s WIdle (Some WritePending) (w_waits s) (r_waits s)); try done; rewrite ?Hpc; try done.
    rewrite Hc. intros w Ho. specialize (Hww w Ho). cbn in *. naive_solver.
  - pose proof (write_copy s r rd Hi Hpc) as H. by destruct (write_step s).
  - pose proof (write_store s r n Hi Hpc) as H. destruct (write_step s) as [s'|e]; [done |].
    destruct H as [-> Hlt]. exists r, n. split; [done |]. destruct Hw as [<- _]. done.
  - unfold write_step. rewrite Hpc. pose proof (write_wake s q WWake Hi) as H. rewrite Hpc in H.
    specialize (H eq_refl eq_refl ltac:(done)). by destruct (wake_reader _ _ _).
  - pose proof (write_close s Hi Hpc) as H. by destruct (write_step s).
  - unfold write_step. rewrite Hpc. pose proof (write_wake s q WCloseWake Hi) as H. rewrite Hpc in H.
    specialize (H eq_refl eq_refl ltac:(done)). by destruct (wake_reader _ _ _).
Qed.

(** Every action of the two tasks keeps the invariant. *)
Lemma act_ok a s :
  inv s ->
  match act a s with
  | Ok s' => inv s'
  | Err Disabled => True
  | Err Panics => a = WriteStep /\ overflows s
  | Err (Races | Uninit | Freed) => False
  end.
Proof.
  intros Hi. destruct a as [w len| | |w input| |]; cbn.
  - destruct (rpc s) eqn:Hpc; try done. destruct (Z.leb_spec 0 len); [| done].
    apply (read_move s (RBegin w len) (r_result s) (Some w) (w_waits s)); try done; rewrite ?Hpc; try done; try apply Hi.
    by intros ? [= ->].
  - destruct (rpc s) eqn:Hpc; try done.
    apply (read_move s RDrop (r_result s) None (w_waits s)); try done; rewrite ?Hpc; try done; apply Hi.
  - pose proof (read_ok s Hi) as H. destruct (read_step s) as [|[]]; done.
  - destruct (rpc s), (wpc s) eqn:Hpc; try done;
      apply (write_move s (WBegin w input) (w_result s) (Some w) (r_waits s)); try done; rewrite ?Hpc; try done;
      by intros ? [= ->].
  - destruct (rpc s), (wpc s) eqn:Hpc; try done;
      apply (write_move s WClose (w_result s) None (r_waits s)); try done; by rewrite ?Hpc.
  - pose proof (write_ok s Hi) as H. destruct (rpc s), (write_step s) as [|[]]; try done; by split.
Qed.

Lemma start_inv capacity : inv (start capacity).
Proof.
  assert (Hl : vlen (replicate (Z.to_nat (Z.max capacity 1)) (0 : Z)) = Z.max capacity 1).
  { unfold vlen. rewrite length_replicate. lia. }
  constructor; cbn; try done. constructor; cbn; try done. constructor; unfold cap; cbn; rewrite ?Hl; try lia; done.
Qed.

Lemma acts_inv l s s' : inv s -> acts l s = Ok s' -> inv s'.
Proof.
  apply run_inv. intros a s1 s2 Hi Ha. pose proof (act_ok a s1 Hi) as H. by rewrite Ha in H.
Qed.
