(* ===== verification/PipeSpec.v ===== *)
(** * What a pipe promises

    Properties of [io/util/duplex.rs] over every interleaving of its reader and
    its writer, from a new pipe of any capacity. *)

From S2P Require Import Prelude Bytes AtomicWaker AtomicWaits Pipe PipeInv PipeWrite.
Open Scope Z_scope.

(** ** Calls end *)

Definition r_left (pc : ReadPc) : Z :=
  match pc with
  | RIdle | RGone => 0
  | RWake q | RDropWake q => take_left q
  | RDrop => 5
  | RStore _ _ => 5
  | RCopy _ _ => 6
  | RLookClosed _ => 1
  | RLook _ => 7
  | RInUse _ => 8
  | RRegister _ q => 8 + reg_left q
  | RClosed _ => 15
  | RWritten _ => 16
  | RBegin _ _ => 17
  end.

Definition w_left (pc : WritePc) : Z :=
  match pc with
  | WIdle => 0
  | WWake q | WCloseWake q => take_left q
  | WClose => 5
  | WStore _ _ => 5
  | WCopy _ _ => 6
  | WLookClosed _ => 1
  | WLook _ => 7
  | WInUse _ => 8
  | WRegister _ q => 8 + reg_left q
  | WRead _ => 15
  | WBegin _ _ => 16
  end.

Lemma read_step_left s s' : read_step s = Ok s' -> wpc s' = wpc s /\ 0 <= r_left (rpc s') < r_left (rpc s).
Proof.
  unfold read_step, wake_writer. intros H. destruct (rpc s) as [|w len|r|r|r q|r|r|r|r w|r out|q| |q|] eqn:Hpc;
    open_step H; try (by split; [done | lia]).
  all: open_cell H; split; done || lia.
Qed.

Lemma write_step_left s s' : write_step s = Ok s' -> rpc s' = rpc s /\ 0 <= w_left (wpc s') < w_left (wpc s).
Proof.
  unfold write_step, wake_reader. intros H. destruct (wpc s) as [|w input|r|r q|r|r|r|r rd|r n|q| |q] eqn:Hpc;
    open_step H; try (by split; [done | lia]).
  all: open_cell H; split; done || lia.
Qed.

(** ** Wakes come *)


(** The reader waits with [w], and the writer's wake of it is due. *)
Definition reader_due (w : Waker) (q : Taking) (s : Sys) : Prop :=
  inv s /\ w_taking (wpc s) = Some q /\ rpc s = RIdle /\ r_waits s = Some w /\ due (Some q) w.
Definition writer_due (w : Waker) (q : Taking) (s : Sys) : Prop :=
  inv s /\ r_taking (rpc s) = Some q /\ wpc s = WIdle /\ w_waits s = Some w /\ due (Some q) w.

Lemma wake_reader_due w q s :
  reader_due w q s -> exists s', act WriteStep s = Ok s' /\
    (r_waits s' = None \/ exists q', reader_due w q' s' /\ take_left q' < take_left q).
Proof.
  intros (Hi & Ht & Hr & Hw & Hd). pose proof (act_ok WriteStep s Hi) as Ha.
  assert (Hs : act WriteStep s = wake_reader q (match wpc s with WWake _ => WWake | _ => WCloseWake end) s).
  { cbn. unfold write_step. destruct (wpc s); simplify_eq/=; done. }
  destruct Hi as [_ Hc _ Hwait _]. rewrite Hr, Hw, Ht in *. destruct (Hwait w eq_refl) as (Hk & _ & _).
  rewrite Hs in *. unfold wake_reader in *.
  destruct (exclusive _) as [[]|[]] eqn:Hx; cbn [and_then] in *; try (by unfold exclusive in Hx; case_match).
  destruct (take_step q (reader (pipe s))) as [[c l] q'] eqn:E. eexists. split; [done |].
  cbn. rewrite Hw. destruct (unless_woken_cases l w) as [Hn | [Hn Hl]]; rewrite Hn; [by left | right].
  destruct (take_due _ _ _ Hc q c l q' w eq_refl eq_refl E Hk Hd) as [|Hd']; [done |].
  destruct q' as [q'|]; [| done]. apply take_steps_left in E. exists q'. split; [| done].
  split; [exact Ha |]. cbn. rewrite Hr, Hw, Hn. by destruct (wpc s).
Qed.

Lemma wake_writer_due w q s :
  writer_due w q s -> exists s', act ReadStep s = Ok s' /\
    (w_waits s' = None \/ exists q', writer_due w q' s' /\ take_left q' < take_left q).
Proof.
  intros (Hi & Ht & Hr & Hw & Hd). pose proof (act_ok ReadStep s Hi) as Ha.
  assert (Hs : act ReadStep s = wake_writer q (match rpc s with RWake _ => RWake | _ => RDropWake end)
    (match rpc s with RWake _ => RIdle | _ => RGone end) s).
  { cbn. unfold read_step. destruct (rpc s); simplify_eq/=; done. }
  destruct Hi as [_ _ Hc _ Hwait]. rewrite Hr, Hw, Ht in *. destruct (Hwait w eq_refl) as (Hk & _ & _).
  rewrite Hs in *. unfold wake_writer in *.
  destruct (exclusive _) as [[]|[]] eqn:Hx; cbn [and_then] in *; try (by unfold exclusive in Hx; case_match).
  destruct (take_step q (writer (pipe s))) as [[c l] q'] eqn:E. eexists. split; [done |].
  cbn. rewrite Hw. destruct (unless_woken_cases l w) as [Hn | [Hn Hl]]; rewrite Hn; [by left | right].
  destruct (take_due _ _ _ Hc q c l q' w eq_refl eq_refl E Hk Hd) as [|Hd']; [done |].
  destruct q' as [q'|]; [| done]. apply take_steps_left in E. exists q'. split; [| done].
  split; [exact Ha |]. cbn. rewrite Hr, Hw, Hn. by destruct (rpc s).
Qed.

(** ** The properties *)

(** C8. A pipe of any capacity under any interleaving of its reader and its
    writer: the bytes delivered are the first of the bytes written, in order,
    with at most the capacity between them; no step races on the ring or on a
    waker's slot, and none panics short of [usize::MAX] bytes written in all; a
    poll answers the end only after the writer closed, and a poll that began
    after the writer closed answers it only when every byte was delivered. *)
Theorem pipe_delivers_in_order (capacity : Z) (l : list Act) (s : Sys) :
  acts l (start capacity) = Ok s ->
  (exists rest, sent s = got s ++ rest /\ vlen rest <= cap (pipe s)) /\
  (forall a, match act a s with
             | Ok _ | Err Disabled => True
             | Err Panics => overflows s
             | Err (Races | Uninit | Freed) => False
             end) /\
  (forall closed, r_result s = Some (ReadEnd closed) ->
    write_closed (pipe s) = true /\ (closed = true -> got s = sent s)).
Proof.
  intros Hl. pose proof (acts_inv l _ s (start_inv capacity) Hl) as Hi. split; [| split].
  - destruct Hi as [[[] _ _ _] _ _ _ _]. exists (dropz (read (pipe s)) (sent s)). rewrite b_out.
    split; [by rewrite takez_dropz |]. rewrite vlen_dropz; lia.
  - intros a. pose proof (act_ok a s Hi) as Ha. destruct (act a s) as [|[]]; tauto.
  - intros closed Hr. destruct Hi as [[[] _ _ He] _ _ _ _]. rewrite Hr in He. destruct He as [Hc Hall].
    split; [done |]. intros ->. rewrite b_out, takez_all; [done |]. rewrite <- Hall by done. lia.
Qed.

#[local] Transparent takez dropz.

(** A reader that waits, is woken by a write, reads, and then sees the end. *)
Definition pipe_run : list Act :=
  [PollRead 7 2] ++ replicate 8 ReadStep ++ [PollWrite 8 [1; 2; 3]] ++ replicate 8 WriteStep ++
  [PollRead 7 4] ++ replicate 7 ReadStep ++ [CloseWriter] ++ replicate 4 WriteStep ++
  [PollRead 7 4] ++ replicate 3 ReadStep.

Definition pipe_ran : Sys :=
  {| pipe := {| ring := [1; 2; 3; 0]; written := 3; read := 3; reader := AtomicWaker.new;
                writer := AtomicWaker.new; write_closed := true; read_closed := false |};
     rpc := RIdle; wpc := WIdle; sent := [1; 2; 3]; got := [1; 2; 3]; r_waits := None; w_waits := None;
     r_result := Some (ReadEnd true); w_result := Some (Wrote 3) |}.

Lemma pipe_delivers_in_order_witness :
  acts pipe_run (start 4) = Ok pipe_ran /\ got pipe_ran = [1; 2; 3] /\ got pipe_ran = sent pipe_ran.
Proof.
  assert (E : acts pipe_run (start 4) = Ok pipe_ran) by (lazy; reflexivity).
  split; [exact E |]. split; [reflexivity |].
  apply (pipe_delivers_in_order 4 pipe_run pipe_ran E) with true; reflexivity.
Defined.

(** C9. No wake of a pipe is lost. Under any interleaving, a reader that
    answered pending and was not woken has nothing to see (no byte, no close),
    or the writer is at that moment in a call that wakes it within four more
    steps of its own; a writer that answered pending faces a full ring and a
    reader that is there, or the reader wakes it in the same way. And every call
    is wait-free: it ends within 17 steps of its own side, which the other
    side's steps never set back. *)
Theorem pipe_loses_no_wake (capacity : Z) (l : list Act) (s : Sys) :
  acts l (start capacity) = Ok s ->
  (forall w, rpc s = RIdle -> r_waits s = Some w ->
    written (pipe s) = read (pipe s) /\ write_closed (pipe s) = false \/
    exists k s', (k <= 4)%nat /\ acts (replicate k WriteStep) s = Ok s' /\ r_waits s' = None) /\
  (forall w, wpc s = WIdle -> w_waits s = Some w ->
    written (pipe s) - read (pipe s) = cap (pipe s) /\ read_closed (pipe s) = false \/
    exists k s', (k <= 4)%nat /\ acts (replicate k ReadStep) s = Ok s' /\ w_waits s' = None) /\
  (forall s', act ReadStep s = Ok s' -> w_left (wpc s') = w_left (wpc s) /\
    0 <= r_left (rpc s') < r_left (rpc s) /\ r_left (rpc s) <= 17) /\
  (forall s', act WriteStep s = Ok s' -> r_left (rpc s') = r_left (rpc s) /\
    0 <= w_left (wpc s') < w_left (wpc s) /\ w_left (wpc s) <= 17).
Proof.
  intros Hl. pose proof (acts_inv l _ s (start_inv capacity) Hl) as Hi. split; [| split; [| split]].
  - intros w Hr Hw. assert (Hwait := i_rwait s Hi). rewrite Hr in Hwait.
    destruct (Hwait w Hw) as (Hk & Hn & Hc). unfold empty in Hn.
    assert (Hd : due (w_taking (wpc s)) w \/ written (pipe s) = read (pipe s) /\ write_closed (pipe s) = false) by tauto.
    destruct Hd as [Hd|]; [right | by left]. destruct (w_taking (wpc s)) as [q|] eqn:Ht; [| done].
    by apply (wake_comes act WriteStep (reader_due w) _ (wake_reader_due w) q s).
  - intros w Hr Hw. assert (Hwait := i_wwait s Hi). rewrite Hr in Hwait.
    destruct (Hwait w Hw) as (Hk & Hn & Hc). unfold full in Hn.
    assert (Hd : due (r_taking (rpc s)) w \/ written (pipe s) - read (pipe s) = cap (pipe s) /\ read_closed (pipe s) = false) by tauto.
    destruct Hd as [Hd|]; [right | by left]. destruct (r_taking (rpc s)) as [q|] eqn:Ht; [| done].
    by apply (wake_comes act ReadStep (writer_due w) _ (wake_writer_due w) q s).
  - intros s' [-> Hs]%read_step_left. split; [done |]. split; [lia |].
    destruct (rpc s) as [| | | |? []| | | | | |[]| |[]|]; cbn; lia.
  - intros s' [-> Hs]%write_step_left. split; [done |]. split; [lia |].
    destruct (wpc s) as [| | |? []| | | | | |[]| |[]]; cbn; lia.
Qed.

(** The reader waits and the writer has published three bytes, but not yet
    taken the reader's waker. *)
Definition wake_pending_run : list Act :=
  [PollRead 7 2] ++ replicate 8 ReadStep ++ [PollWrite 8 [1; 2; 3]] ++ replicate 4 WriteStep.

Definition wake_pending : Sys :=
  {| pipe := {| ring := [1; 2; 3; 0]; written := 3; read := 0;
                reader := {| state := WAITING; slot := Some 7 |}; writer := AtomicWaker.new;
                write_closed := false; read_closed := false |};
     rpc := RIdle; wpc := WWake TakeStart; sent := [1; 2; 3]; got := []; r_waits := Some 7; w_waits := None;
     r_result := Some ReadPending; w_result := Some (Wrote 3) |}.

Lemma pipe_loses_no_wake_witness :
  acts wake_pending_run (start 4) = Ok wake_pending /\
  exists k s', (k <= 4)%nat /\ acts (replicate k WriteStep) wake_pending = Ok s' /\ r_waits s' = None.
Proof.
  assert (E : acts wake_pending_run (start 4) = Ok wake_pending) by (lazy; reflexivity).
  split; [exact E |].
  destruct (proj1 (pipe_loses_no_wake 4 wake_pending_run wake_pending E) 7 eq_refl eq_refl) as [[H _] | H];
    [discriminate H | exact H].
Defined.

(** Every byte of [input] written, in [n] steps, then the close, with no step of
    the reader between. *)
Definition write_and_close (n : nat) (input : list Z) : list Act :=
  [PollWrite 8 input] ++ replicate n WriteStep ++ [CloseWriter] ++ [WriteStep].

Definition ended_early : Sys :=
  {| pipe := {| ring := [1; 2; 3; 0]; written := 3; read := 0; reader := AtomicWaker.new;
                writer := AtomicWaker.new; write_closed := true; read_closed := false |};
     rpc := RIdle; wpc := WCloseWake TakeStart; sent := [1; 2; 3]; got := []; r_waits := None;
     w_waits := None; r_result := Some (ReadEnd false); w_result := Some (Wrote 3) |}.

(** C38. The end may be answered too early. A poll that looks at the count of
    bytes written, finds none, and looks at the close only after the writer has
    written and closed answers the end while every byte is still in the ring:
    at its first look, and likewise at the look it takes after registering. The
    documentation of [close_write] says the reader sees the end after what is
    left. *)
Theorem pipe_end_comes_before_the_bytes :
  (exists s, acts ([PollRead 7 4] ++ replicate 2 ReadStep ++ write_and_close 7 [1; 2; 3] ++ [ReadStep]) (start 4) = Ok s /\
     rpc s = RIdle /\ r_result s = Some (ReadEnd false) /\ sent s = [1; 2; 3] /\ got s = []) /\
  (exists s, acts ([PollRead 7 4] ++ replicate 7 ReadStep ++ write_and_close 8 [1; 2; 3] ++ [ReadStep]) (start 4) = Ok s /\
     rpc s = RIdle /\ r_result s = Some (ReadEnd false) /\ sent s = [1; 2; 3] /\ got s = []).
Proof. split; exists ended_early; (split; [lazy; reflexivity | done]). Qed.
