(* ===== verification/Oneshot.v ===== *)
(** * The shared one-shot channel

    [sync/oneshot.rs]: one value from one sender to one receiver on any two
    threads. Each call is a small program whose steps are the atomic operations
    on the state word, the accesses to the value's cell and the steps of the two
    waker cells; the two sides' steps interleave anywhere. [act] is one step of
    the system, with what each side did to the value in [log]. *)

From S2P Require Import Prelude Coop AtomicWaker AtomicWaits.
Open Scope Z_scope.

(** ** The channel *)

Definition VALUE_SENT : Z := 1.
Definition RX_CLOSED : Z := 2.
Definition TX_DROPPED : Z := 4.

Definition has (bits state : Z) : bool := negb (Z.land state bits =? 0).

Inductive RxClose : Type := Open | WithValue | Empty.

Definition is_open (c : RxClose) : bool := match c with Open => true | _ => false end.
Definition is_empty_close (c : RxClose) : bool := match c with Empty => true | _ => false end.

(** The value's cell holds nothing before the write and after the read. *)
Record Inner : Type := {
  word : Z;
  value : option Z;
  rx_waker : AtomicWaker;
  tx_waker : AtomicWaker
}.

Definition inner_new : Inner :=
  {| word := 0; value := None; rx_waker := AtomicWaker.new; tx_waker := AtomicWaker.new |}.

Definition set_word x c := {| word := x; value := value c; rx_waker := rx_waker c; tx_waker := tx_waker c |}.
Definition set_value x c := {| word := word c; value := x; rx_waker := rx_waker c; tx_waker := tx_waker c |}.
Definition set_rx_waker x c := {| word := word c; value := value c; rx_waker := x; tx_waker := tx_waker c |}.
Definition set_tx_waker x c := {| word := word c; value := value c; rx_waker := rx_waker c; tx_waker := x |}.

Definition fetch_or (bits : Z) (c : Inner) : Inner := set_word (Z.lor (word c) bits) c.

(** The receiver's outcome against a word: nothing yet, nothing ever, or the
    value, which it is about to read. *)
Inductive Outcome : Type := Waits | Fails | Takes.

Definition completes (close : RxClose) (state : Z) : bool :=
  is_empty_close close || has (Z.lor VALUE_SENT TX_DROPPED) state.

Definition resolve (close : RxClose) (state : Z) : Outcome :=
  if is_empty_close close then Fails
  else if has VALUE_SENT state then Takes
  else if has TX_DROPPED state then Fails
  else Waits.

(** [resolve_if]: the outcome, or an error when [permits], asked only once the
    receive would complete, says no. *)
Definition resolve_if {A} (close : RxClose) (state : Z) (permits : A -> bool * A) (a : A) :
    Result Outcome unit * A :=
  if completes close state then
    let '(ok, a) := permits a in
    (if ok : bool then Ok (resolve close state) else Err tt, a)
  else (Ok (resolve close state), a).

(** ** The two sides *)

(** Where the sender is: in no call; in [send], about to write the cell, to
    publish it, to read it back, or waking the receiver; in [poll_closed],
    about to look, registering, or about to look again; in its drop; gone. *)
Inductive SendPc : Type :=
| SIdle
| SWrite (v : Z)
| SPublish
| SReadBack
| SWake (q : Taking)
| SLoad (w : Waker)
| SRegister (w : Waker) (q : Registering)
| SInUse (w : Waker)
| SLook (w : Waker)
| SDrop
| SDropWake (q : Taking)
| SGone.

(** Where the receiver is: in no call; in [poll], about to look, registering,
    about to look again, or about to read the value; in [try_recv]; in [close];
    in its drop, which ends with the read of a value it owns; gone. *)
Inductive RecvPc : Type :=
| RIdle
| RLoad (w : Waker)
| RRegister (w : Waker) (q : Registering)
| RInUse (w : Waker)
| RLook (w : Waker)
| RTake
| RTryLoad
| RTryTake
| RClose
| RCloseWake (q : Taking)
| RDrop
| RDropWake (owns_value : bool) (q : Taking)
| RDropRead
| RGone.

Inductive SendResult : Type :=
| SendOk
| SendErr (v : Z)
| ClosedReady
| ClosedPending
| IsClosed (b : bool).

Inductive RecvResult : Type :=
| RecvOk (v : Z)
| RecvErr
| RecvPending
| TryOk (v : Z)
| TryEmpty
| TryClosed
| IsEmpty (b : bool).

(** What happened to the value: it was given to [send]; the send was decided
    to succeed; it came back; it was received; the receiver's drop dropped it. *)
Inductive Event : Type :=
| Offers (v : Z)
| Accepts
| GivesBack (v : Z)
| Receives (v : Z)
| Drops (v : Z).

(** The channel, the two sides ([terminated]: the receiver has let go of the
    channel), the thread the receiver is polled on, and the waker each side
    waits with: it was polled with it, answered [Pending], and was not woken
    since. *)
Record Sys : Type := {
  chan : Inner;
  spc : SendPc;
  rpc : RecvPc;
  close : RxClose;
  terminated : bool;
  thread : Thread;
  s_waits : option Waker;
  r_waits : option Waker;
  s_result : option SendResult;
  r_result : option RecvResult;
  log : list Event
}.

(** [channel]. *)
Definition channel : Sys :=
  {| chan := inner_new; spc := SIdle; rpc := RIdle; close := Open; terminated := false;
     thread := thread_new; s_waits := None; r_waits := None; s_result := None; r_result := None;
     log := [] |}.

Definition with_chan x s := {| chan := x; spc := spc s; rpc := rpc s; close := close s;
  terminated := terminated s; thread := thread s; s_waits := s_waits s; r_waits := r_waits s;
  s_result := s_result s; r_result := r_result s; log := log s |}.
Definition with_spc x s := {| chan := chan s; spc := x; rpc := rpc s; close := close s;
  terminated := terminated s; thread := thread s; s_waits := s_waits s; r_waits := r_waits s;
  s_result := s_result s; r_result := r_result s; log := log s |}.
Definition with_rpc x s := {| chan := chan s; spc := spc s; rpc := x; close := close s;
  terminated := terminated s; thread := thread s; s_waits := s_waits s; r_waits := r_waits s;
  s_result := s_result s; r_result := r_result s; log := log s |}.
Definition with_close x s := {| chan := chan s; spc := spc s; rpc := rpc s; close := x;
  terminated := terminated s; thread := thread s; s_waits := s_waits s; r_waits := r_waits s;
  s_result := s_result s; r_result := r_result s; log := log s |}.
Definition with_terminated x s := {| chan := chan s; spc := spc s; rpc := rpc s; close := close s;
  terminated := x; thread := thread s; s_waits := s_waits s; r_waits := r_waits s;
  s_result := s_result s; r_result := r_result s; log := log s |}.
Definition with_thread x s := {| chan := chan s; spc := spc s; rpc := rpc s; close := close s;
  terminated := terminated s; thread := x; s_waits := s_waits s; r_waits := r_waits s;
  s_result := s_result s; r_result := r_result s; log := log s |}.
Definition with_s_waits x s := {| chan := chan s; spc := spc s; rpc := rpc s; close := close s;
  terminated := terminated s; thread := thread s; s_waits := x; r_waits := r_waits s;
  s_result := s_result s; r_result := r_result s; log := log s |}.
Definition with_r_waits x s := {| chan := chan s; spc := spc s; rpc := rpc s; close := close s;
  terminated := terminated s; thread := thread s; s_waits := s_waits s; r_waits := x;
  s_result := s_result s; r_result := r_result s; log := log s |}.
Definition with_s_result x s := {| chan := chan s; spc := spc s; rpc := rpc s; close := close s;
  terminated := terminated s; thread := thread s; s_waits := s_waits s; r_waits := r_waits s;
  s_result := x; r_result := r_result s; log := log s |}.
Definition with_r_result x s := {| chan := chan s; spc := spc s; rpc := rpc s; close := close s;
  terminated := terminated s; thread := thread s; s_waits := s_waits s; r_waits := r_waits s;
  s_result := s_result s; r_result := x; log := log s |}.
Definition logs e s := {| chan := chan s; spc := spc s; rpc := rpc s; close := close s;
  terminated := terminated s; thread := thread s; s_waits := s_waits s; r_waits := r_waits s;
  s_result := s_result s; r_result := r_result s; log := log s ++ [e] |}.

Definition wake_all (l : list Waker) (s : Sys) : Sys :=
  with_r_waits (unless_woken l (r_waits s)) (with_s_waits (unless_woken l (s_waits s)) s).

(** ** Steps *)

Definition Step : Type := Result Sys Stop.

(** The accesses to the value's cell, and to the wakers' slots. *)
Definition sender_touches (s : Sys) : bool := match spc s with SWrite _ | SReadBack => true | _ => false end.
Definition receiver_touches (s : Sys) : bool :=
  match rpc s with RTake | RTryTake | RDropRead => true | _ => false end.

Definition sender_registering (s : Sys) : bool :=
  match spc s with SRegister _ q => reg_touches q | _ => false end.
Definition receiver_registering (s : Sys) : bool :=
  match rpc s with RRegister _ q => reg_touches q | _ => false end.
Definition sender_taking (s : Sys) : bool :=
  match spc s with SWake q | SDropWake q => take_touches q | _ => false end.
Definition receiver_taking (s : Sys) : bool :=
  match rpc s with RCloseWake q | RDropWake _ q => take_touches q | _ => false end.

(** [read_value], by a side that the other one must not meet at the cell. *)
Definition read_value (other_touches : bool) (s : Sys) : Result (Z * Sys) Stop :=
  let? _ := exclusive (negb other_touches) in
  match value (chan s) with
  | Some v => Ok (v, with_chan (set_value None (chan s)) s)
  | None => Err Uninit
  end.

(** A step of [rx_waker.wake()], by the sender, and of [tx_waker.wake()], by the
    receiver; [last] is what follows the call. *)
Definition wake_receiver (q : Taking) (next : Taking -> SendPc) (last : Sys -> Sys) (s : Sys) : Step :=
  let? _ := exclusive (negb (take_touches q && receiver_registering s)) in
  let '(c, woken, q) := take_step q (rx_waker (chan s)) in
  let s := wake_all woken (with_chan (set_rx_waker c (chan s)) s) in
  Ok (match q with Some q => with_spc (next q) s | None => last s end).

Definition wake_sender (q : Taking) (next : Taking -> RecvPc) (last : Sys -> Sys) (s : Sys) : Step :=
  let? _ := exclusive (negb (take_touches q && sender_registering s)) in
  let '(c, woken, q) := take_step q (tx_waker (chan s)) in
  let s := wake_all woken (with_chan (set_tx_waker c (chan s)) s) in
  Ok (match q with Some q => with_rpc (next q) s | None => last s end).

(** *** The sender *)

Definition send_answers (pc : SendPc) (x : SendResult) (s : Sys) : Sys :=
  with_s_result (Some x) (with_s_waits None (with_spc pc s)).
Definition closed_pending (s : Sys) : Sys := with_s_result (Some ClosedPending) (with_spc SIdle s).

(** [send], [poll_closed] and the drop. *)
Definition send_step (s : Sys) : Step :=
  let c := chan s in
  match spc s with
  | SIdle | SGone => Err Disabled
  | SWrite v =>
      let? _ := exclusive (negb (receiver_touches s)) in
      Ok (with_spc SPublish (with_chan (set_value (Some v) c) s))
  | SPublish =>
      let s := with_chan (fetch_or (Z.lor VALUE_SENT TX_DROPPED) c) s in
      if has RX_CLOSED (word c) then Ok (with_spc SReadBack s)
      else Ok (with_spc (SWake TakeStart) (logs Accepts s))
  | SReadBack =>
      let? (v, s) := read_value (receiver_touches s) s in
      Ok (send_answers SGone (SendErr v) (logs (GivesBack v) s))
  | SWake q => wake_receiver q SWake (send_answers SGone SendOk) s
  | SLoad w =>
      if has RX_CLOSED (word c) then Ok (send_answers SIdle ClosedReady s)
      else Ok (with_spc (SRegister w (RegStart w)) s)
  | SRegister w q =>
      let? _ := exclusive (negb (reg_touches q && receiver_taking s)) in
      let '(c', woken, q) := register_step q (tx_waker c) in
      let s := wake_all woken (with_chan (set_tx_waker c' c) s) in
      match q with
      | inl q => Ok (with_spc (SRegister w q) s)
      | inr InUse => Ok (with_spc (SInUse w) s)
      | inr _ => Ok (with_spc (SLook w) s)
      end
  | SInUse w => Ok (with_spc (SLook w) (wake_all (register_wakes w InUse) s))
  | SLook w =>
      if has RX_CLOSED (word c) then Ok (send_answers SIdle ClosedReady s) else Ok (closed_pending s)
  | SDrop =>
      let s := with_chan (fetch_or TX_DROPPED c) s in
      if negb (has RX_CLOSED (word c)) then Ok (with_spc (SDropWake TakeStart) s) else Ok (with_spc SGone s)
  | SDropWake q => wake_receiver q SDropWake (with_spc SGone) s
  end.

(** *** The receiver *)

Definition recv_answers (x : RecvResult) (s : Sys) : Sys :=
  with_r_result (Some x) (with_r_waits None (with_rpc RIdle s)).
Definition recv_pending (s : Sys) : Sys := with_r_result (Some RecvPending) (with_rpc RIdle s).

(** A look at the word by [poll]: what the budget says, and then what the
    outcome says; [waits] is what follows when there is none. *)
Definition poll_look (w : Waker) (waits : Sys -> Sys) (s : Sys) : Sys :=
  let '(r, t) := resolve_if (close s) (word (chan s)) (spend w) (thread s) in
  let s := with_thread t s in
  match r with
  | Err _ => recv_pending (wake_all [w] s)
  | Ok Fails => recv_answers RecvErr (with_terminated true s)
  | Ok Takes => with_rpc RTake s
  | Ok Waits => waits s
  end.

(** What the receiver writes down about its close. *)
Definition closed_as (prev : Z) : RxClose := if has VALUE_SENT prev then WithValue else Empty.

(** What the drop does once the other side needs no wake: a value it owns is
    read and dropped. *)
Definition drop_ends (owns_value : bool) (s : Sys) : Sys := with_rpc (if owns_value then RDropRead else RGone) s.

(** [poll], [try_recv], [close] and the drop. *)
Definition recv_step (s : Sys) : Step :=
  let c := chan s in
  match rpc s with
  | RIdle | RGone => Err Disabled
  | RLoad w => Ok (poll_look w (with_rpc (RRegister w (RegStart w))) s)
  | RRegister w q =>
      let? _ := exclusive (negb (reg_touches q && sender_taking s)) in
      let '(c', woken, q) := register_step q (rx_waker c) in
      let s := wake_all woken (with_chan (set_rx_waker c' c) s) in
      match q with
      | inl q => Ok (with_rpc (RRegister w q) s)
      | inr InUse => Ok (with_rpc (RInUse w) s)
      | inr _ => Ok (with_rpc (RLook w) s)
      end
  | RInUse w => Ok (with_rpc (RLook w) (wake_all (register_wakes w InUse) s))
  | RLook w => Ok (poll_look w recv_pending s)
  | RTake =>
      let? (v, s) := read_value (sender_touches s) s in
      Ok (recv_answers (RecvOk v) (with_terminated true (logs (Receives v) s)))
  | RTryLoad =>
      match resolve (close s) (word c) with
      | Fails => Ok (recv_answers TryClosed (with_terminated true s))
      | Takes => Ok (with_rpc RTryTake s)
      | Waits => Ok (with_r_result (Some TryEmpty) (with_rpc RIdle s))
      end
  | RTryTake =>
      let? (v, s) := read_value (sender_touches s) s in
      Ok (recv_answers (TryOk v) (with_terminated true (logs (Receives v) s)))
  | RClose =>
      let prev := word c in
      let s := with_close (closed_as prev) (with_chan (fetch_or RX_CLOSED c) s) in
      if negb (has TX_DROPPED prev) then Ok (with_rpc (RCloseWake TakeStart) s) else Ok (with_rpc RIdle s)
  | RCloseWake q => wake_sender q RCloseWake (with_rpc RIdle) s
  | RDrop =>
      match close s with
      | WithValue => Ok (drop_ends true s)
      | Empty => Ok (drop_ends false s)
      | Open =>
          let prev := word c in
          let owns_value := has VALUE_SENT prev in
          let s := with_chan (fetch_or RX_CLOSED c) s in
          if negb (has TX_DROPPED prev) then Ok (with_rpc (RDropWake owns_value TakeStart) s)
          else Ok (drop_ends owns_value s)
      end
  | RDropWake owns_value q => wake_sender q (RDropWake owns_value) (drop_ends owns_value) s
  | RDropRead =>
      let? (v, s) := read_value (sender_touches s) s in
      Ok (with_rpc RGone (logs (Drops v) s))
  end.

(** ** The system *)

(** What the two tasks do: call, when they are not in a call, or take a step.
    A poll begins with what the executor leaves of the budget. *)
Inductive Act : Type :=
| Send (v : Z)
| PollClosed (w : Waker)
| AskClosed
| DropSender
| SendStep
| PollRecv (w : Waker) (ops : Z)
| TryRecv
| Close
| AskEmpty
| DropReceiver
| RecvStep.

(** [is_closed] and [is_empty], one load each. *)
Definition is_closed (c : Inner) : bool := has RX_CLOSED (word c).
Definition is_empty (s : Sys) : bool :=
  terminated s || is_empty_close (close s) || negb (has VALUE_SENT (word (chan s))).

Definition act (a : Act) (s : Sys) : Step :=
  match a, spc s, rpc s with
  | Send v, SIdle, _ => Ok (with_spc (SWrite v) (with_s_waits None (logs (Offers v) s)))
  | PollClosed w, SIdle, _ => Ok (with_spc (SLoad w) (with_s_waits (Some w) s))
  | AskClosed, SIdle, _ => Ok (with_s_result (Some (IsClosed (is_closed (chan s)))) s)
  | DropSender, SIdle, _ => Ok (with_spc SDrop (with_s_waits None s))
  | SendStep, _, _ => send_step s
  | PollRecv w ops, _, RIdle =>
      if terminated s then Err Panics
      else Ok (with_rpc (RLoad w) (with_r_waits (Some w) (with_thread (set_budget ops (thread s)) s)))
  | TryRecv, _, RIdle =>
      if terminated s then Ok (with_r_result (Some TryClosed) s) else Ok (with_rpc RTryLoad s)
  | Close, _, RIdle =>
      if terminated s || negb (is_open (close s)) then Ok s
      else Ok (with_rpc RClose (with_r_waits None s))
  | AskEmpty, _, RIdle => Ok (with_r_result (Some (IsEmpty (is_empty s))) s)
  | DropReceiver, _, RIdle =>
      Ok (with_rpc (if terminated s then RGone else RDrop) (with_r_waits None s))
  | RecvStep, _, _ => recv_step s
  | _, _, _ => Err Disabled
  end.

Definition acts : list Act -> Sys -> Step := run act.
