(* ===== verification/OneshotInv.v ===== *)
(** * The invariant of a shared one-shot channel

    What holds of [sync/oneshot.rs] at every step of its two sides: who owns
    the value's cell ([sender_ok], [receiver_ok]), who holds each waker's slot,
    and where the waker of a side that waits is. *)

From S2P Require Import Prelude Coop AtomicWaker AtomicWaits Oneshot.
Open Scope Z_scope.

(** ** The word *)

(** The word with its three bits: sent, closed, dropped. *)
Definition bits (vs rc td : bool) : Z := Z.b2z vs + 2 * Z.b2z rc + 4 * Z.b2z td.

Section bits.
Context (vs rc td : bool).

Lemma word_sent : has VALUE_SENT (bits vs rc td) = vs.
Proof using Type. by destruct vs, rc, td. Qed.
Lemma word_closed : has RX_CLOSED (bits vs rc td) = rc.
Proof using Type. by destruct vs, rc, td. Qed.
Lemma word_dropped : has TX_DROPPED (bits vs rc td) = td.
Proof using Type. by destruct vs, rc, td. Qed.
Lemma word_either : has (Z.lor VALUE_SENT TX_DROPPED) (bits vs rc td) = vs || td.
Proof using Type. by destruct vs, rc, td. Qed.
Lemma or_sent : Z.lor (bits vs rc td) (Z.lor VALUE_SENT TX_DROPPED) = bits true rc true.
Proof using Type. by destruct vs, rc, td. Qed.
Lemma or_closed : Z.lor (bits vs rc td) RX_CLOSED = bits vs true td.
Proof using Type. by destruct vs, rc, td. Qed.
Lemma or_dropped : Z.lor (bits vs rc td) TX_DROPPED = bits vs rc true.
Proof using Type. by destruct vs, rc, td. Qed.
End bits.

#[global] Opaque bits has.
Create HintDb oneshot.
#[export] Hint Rewrite word_sent word_closed word_dropped word_either or_sent or_closed or_dropped : oneshot.

(** ** The value *)

(** The send succeeded and the value is in its cell, the receiver's to read. *)
Definition owned (value : option Z) (log : list Event) : Prop :=
  exists v, value = Some v /\ log = [Offers v; Accepts].

(** A send that succeeded: the value waits, or was received, or was dropped. *)
Definition accepted (pc : RecvPc) (terminated : bool) (value : option Z) (log : list Event) : Prop :=
  owned value log \/
  (value = None /\ terminated = true /\ exists v, log = [Offers v; Accepts; Receives v]) \/
  (value = None /\ pc = RGone /\ exists v, log = [Offers v; Accepts; Drops v]).

Definition sender_ok (pc : SendPc) (rpc : RecvPc) (terminated vs rc td : bool) (value : option Z)
    (log : list Event) : Prop :=
  match pc with
  | SIdle | SLoad _ | SRegister _ _ | SInUse _ | SLook _ | SDrop =>
      vs = false /\ td = false /\ value = None /\ log = []
  | SWrite v => vs = false /\ td = false /\ value = None /\ log = [Offers v]
  | SPublish => vs = false /\ td = false /\ exists v, value = Some v /\ log = [Offers v]
  | SReadBack => vs = true /\ td = true /\ rc = true /\ exists v, value = Some v /\ log = [Offers v]
  | SWake _ => vs = true /\ td = true /\ accepted rpc terminated value log
  | SDropWake _ => vs = false /\ td = true /\ value = None /\ log = []
  | SGone =>
      td = true /\
      ((vs = false /\ value = None /\ log = []) \/
       (vs = true /\ rc = true /\ value = None /\ exists v, log = [Offers v; GivesBack v]) \/
       (vs = true /\ accepted rpc terminated value log))
  end.

(** The send was decided to succeed. *)
Definition accepts (log : list Event) : bool :=
  existsb (fun e => match e with Accepts => true | _ => false end) log.

(** A receiver that has not let go: what it wrote down says whether the value
    can ever be its own. *)
Definition close_ok (close : RxClose) (rc : bool) (value : option Z) (log : list Event) : Prop :=
  match close with
  | Open => rc = false
  | WithValue => rc = true /\ owned value log
  | Empty => rc = true /\ accepts log = false
  end.

Definition receiver_ok (pc : RecvPc) (close : RxClose) (terminated rc td : bool) (value : option Z)
    (log : list Event) : Prop :=
  match pc with
  | RIdle =>
      if terminated then (rc = true \/ td = true) /\ ~ owned value log
      else close_ok close rc value log
  | RTake | RTryTake => terminated = false /\ close_ok close rc value log /\ owned value log
  | RClose => terminated = false /\ close = Open /\ rc = false
  | RRegister _ _ | RInUse _ | RLook _ => terminated = false /\ close = Open /\ rc = false
  | RDropWake owns _ =>
      terminated = false /\ rc = true /\ (if owns then owned value log else accepts log = false)
  | RDropRead => terminated = false /\ rc = true /\ owned value log
  | RGone => (rc = true \/ td = true) /\ ~ owned value log
  | RLoad _ | RTryLoad | RCloseWake _ | RDrop => terminated = false /\ close_ok close rc value log
  end.

(** ** Waits *)

Definition r_phase (pc : RecvPc) : Phase :=
  match pc with
  | RIdle | RTryLoad => PIdle
  | RLoad w | RInUse w => PBefore w
  | RRegister w q => PReg w q
  | RLook w => PLook w
  | RTake | RTryTake => PReady
  | _ => PAway
  end.

Definition s_phase (pc : SendPc) : Phase :=
  match pc with
  | SIdle => PIdle
  | SLoad w | SInUse w => PBefore w
  | SRegister w q => PReg w q
  | SLook w => PLook w
  | _ => PAway
  end.

Definition r_taking (pc : RecvPc) : option Taking :=
  match pc with RCloseWake q | RDropWake _ q => Some q | _ => None end.
Definition s_taking (pc : SendPc) : option Taking :=
  match pc with SWake q | SDropWake q => Some q | _ => None end.

(** A receiver that closed no longer waits: its next poll has an answer. *)
Definition closed_ok (pc : RecvPc) (rc : bool) (o : option Waker) : Prop :=
  rc = true -> match pc with RLoad _ | RTake => True | _ => o = None end.

Record inv_at (vs rc td : bool) (s : Sys) : Prop := {
  i_word : word (chan s) = bits vs rc td;
  i_sender : sender_ok (spc s) (rpc s) (terminated s) vs rc td (value (chan s)) (log s);
  i_receiver : receiver_ok (rpc s) (close s) (terminated s) rc td (value (chan s)) (log s);
  i_rx : word_ok (rx_waker (chan s)) (registering (r_phase (rpc s))) (s_taking (spc s));
  i_tx : word_ok (tx_waker (chan s)) (registering (s_phase (spc s))) (r_taking (rpc s));
  i_rwait : wait_ok (r_phase (rpc s)) (rx_waker (chan s)) (s_taking (spc s)) (vs || td = false) false (r_waits s);
  i_swait : wait_ok (s_phase (spc s)) (tx_waker (chan s)) (r_taking (rpc s)) (rc = false) false (s_waits s);
  i_closed : closed_ok (rpc s) rc (r_waits s) }.

Definition inv (s : Sys) : Prop := exists vs rc td, inv_at vs rc td s.

Lemma channel_inv : inv channel.
Proof.
  exists false, false, false. constructor; cbn; try done; try (by intros ? ?). 
Qed.

Ltac cases :=
  repeat match goal with
  | h : _ /\ _ |- _ => destruct h
  | h : ex _ |- _ => destruct h
  | h : _ \/ _ |- _ => destruct h
  end.
Ltac value_tac :=
  cbn in *; unfold accepted, close_ok, owned in *; repeat case_match; cbn in *; cases;
  simplify_eq/=; try congruence; naive_solver.

(** ** Waits that end *)

(** What was looked for is not there: the look after the registration. *)
Lemma wait_seen ph c tak (nothing : Prop) w o :
  wait_ok ph c tak nothing false o -> ph = PLook w -> nothing -> wait_ok PIdle c tak nothing false o.
Proof. intros H -> Hn w' Ho. destruct (H w' Ho) as [-> Hk]. auto. Qed.

(** A wait that needs no wake: there is none, or its look is still to come. *)
Lemma wait_blind ph c tak (nothing nothing' : Prop) o :
  wait_ok ph c tak nothing false o ->
  o = None \/ (match ph with PBefore _ | PReady => True | _ => False end) ->
  wait_ok ph c tak nothing' false o.
Proof. intros H [-> | Hp] w Ho; [done |]. specialize (H w Ho). by destruct ph. Qed.

(** A waker registered in a cell in use is woken, and looks again. *)
Lemma wait_in_use c tak nothing w o ph :
  wait_ok (PBefore w) c tak nothing false o -> wait_ok ph c tak nothing false (unless_woken [w] o).
Proof. intros H w' [Ho Hn]%unless_woken_Some. specialize (H w' Ho). cbn in H. subst. set_solver. Qed.

(** ** The sender's steps *)

Section sender.
Context {vs rc td : bool} {s : Sys}.
Context (H : inv_at vs rc td s).

Lemma receiver_excluded : sender_touches s = true -> receiver_touches s = false.
Proof using H.
  destruct H as [_ Hs Hr _ _ _ _ _]. clear H. unfold sender_touches, receiver_touches.
  destruct (spc s); try done; destruct (rpc s); try done; intros _; value_tac.
Qed.

Lemma sender_registers_alone w q : spc s = SRegister w q -> negb (reg_touches q && receiver_taking s) = true.
Proof using H.
  intros Hpc. destruct H as [_ _ _ _ Htx _ _ _]. clear H. rewrite Hpc in Htx. unfold receiver_taking, word_ok in *.
  destruct (rpc s) as [| | | | | | | | |p| |? p| |]; try (by rewrite andb_false_r); cbn in Htx;
    destruct q, p; cbn in *; done.
Qed.

Lemma sender_takes_alone q : s_taking (spc s) = Some q -> negb (take_touches q && receiver_registering s) = true.
Proof using H.
  intros Hpc. destruct H as [_ _ _ Hrx _ _ _ _]. clear H. rewrite Hpc in Hrx. unfold receiver_registering, word_ok in *.
  destruct (rpc s) as [| |w p| | | | | | | | | | |]; try (by rewrite andb_false_r). cbn in Hrx.
  destruct q, p; cbn in *; done.
Qed.

(** The sender moves on without touching the channel. *)
Lemma send_move pc res o o2 :
  holds_reg (registering (s_phase (spc s))) = false -> s_taking (spc s) = None ->
  holds_reg (registering (s_phase pc)) = false -> s_taking pc = None ->
  sender_ok pc (rpc s) (terminated s) vs rc td (value (chan s)) (log s) ->
  wait_ok (s_phase pc) (tx_waker (chan s)) (r_taking (rpc s)) (rc = false) false o ->
  (forall w, o2 = Some w -> r_waits s = Some w) ->
  inv (with_s_result res (with_s_waits o (with_r_waits o2 (with_spc pc s)))).
Proof using H.
  destruct H as [Hw Hs Hr Hrx Htx Hrw Hsw Hcl]. clear H. intros Hreg Htak Hreg' Htak' Hs' Hw' Ho2.
  exists vs, rc, td. constructor; cbn; try done.
  - by rewrite Htak', <- Htak.
  - by eapply word_reg.
  - rewrite Htak', <- Htak. by eapply wait_weaken.
  - intros Hc. specialize (Hcl Hc). destruct (rpc s); try done; destruct o2 as [w0|]; try done;
      specialize (Ho2 w0 eq_refl); congruence.
Qed.

(** The sender takes a step of a wake. *)
Lemma send_wakes pc q c' l res o :
  s_phase (spc s) = PAway -> s_taking (spc s) = Some q -> take_step q (rx_waker (chan s)) = (c', l, s_taking pc) ->
  s_phase pc = PAway ->
  sender_ok pc (rpc s) (terminated s) vs rc td (value (chan s)) (log s) -> o = None ->
  inv (with_s_result res (with_s_waits o (with_spc pc (wake_all l (with_chan (set_rx_waker c' (chan s)) s))))).
Proof using H.
  destruct H as [Hw Hs Hr Hrx Htx Hrw Hsw Hcl]. clear H. intros Hph Htak Hst Hph' Hs' ->.
  exists vs, rc, td. constructor; cbn; try done.
  - by eapply taken_word.
  - rewrite Hph'. by rewrite Hph in Htx.
  - by eapply wait_take.
  - intros Hc. specialize (Hcl Hc). destruct (rpc s); try done; by rewrite Hcl.
Qed.
End sender.

Section sender_steps.
Context {vs rc td : bool} {s : Sys}.
Context (H : inv_at vs rc td s).

Lemma send_write v :
  spc s = SWrite v -> inv (with_spc SPublish (with_chan (set_value (Some v) (chan s)) s)).
Proof using H.
  intros Hpc. destruct H as [Hw Hs Hr Hrx Htx Hrw Hsw Hcl]. clear H. rewrite Hpc in *.
  exists vs, rc, td. constructor; cbn; try done; [value_tac |].
  destruct Hs as (-> & -> & Hv & Hl). rewrite Hl in *.
  destruct (rpc s); value_tac.
Qed.

Lemma send_publish :
  spc s = SPublish ->
  inv (let s' := with_chan (fetch_or (Z.lor VALUE_SENT TX_DROPPED) (chan s)) s in
       if has RX_CLOSED (word (chan s)) then with_spc SReadBack s'
       else with_spc (SWake TakeStart) (logs Accepts s')).
Proof using H.
  intros Hpc. destruct H as [Hw Hs Hr Hrx Htx Hrw Hsw Hcl]. clear H. rewrite Hpc in *. cbn in Hs.
  destruct Hs as (-> & -> & v & Hv & Hl). rewrite Hw, word_closed. cbv zeta.
  exists true, rc, true. destruct rc; constructor; cbn; rewrite ?Hw, ?or_sent; try done.
  - eauto 10.
  - rewrite Hl in *. destruct (rpc s); value_tac.
  - eapply wait_blind; [done |]. specialize (Hcl eq_refl). destruct (rpc s); auto.
  - rewrite Hl. split; [done |]. split; [done |]. left. by exists v.
  - rewrite Hl in *. destruct (rpc s); value_tac.
  - by eapply wait_other; [| | right].
Qed.

Lemma send_read_back v :
  spc s = SReadBack -> value (chan s) = Some v ->
  inv (send_answers SGone (SendErr v) (logs (GivesBack v) (with_chan (set_value None (chan s)) s))).
Proof using H.
  intros Hpc Hv. destruct H as [Hw Hs Hr Hrx Htx Hrw Hsw Hcl]. clear H. rewrite Hpc in *. cbn in Hs.
  destruct Hs as (-> & -> & -> & v' & Hv' & Hl). simplify_eq.
  exists true, true, true. constructor; cbn; try done.
  - rewrite Hl. naive_solver.
  - rewrite Hl in *. destruct (rpc s); value_tac.
Qed.

Lemma send_drop :
  spc s = SDrop ->
  inv (let s' := with_chan (fetch_or TX_DROPPED (chan s)) s in
       if negb (has RX_CLOSED (word (chan s))) then with_spc (SDropWake TakeStart) s' else with_spc SGone s').
Proof using H.
  intros Hpc. destruct H as [Hw Hs Hr Hrx Htx Hrw Hsw Hcl]. clear H. rewrite Hpc in *. cbn in Hs.
  destruct Hs as (-> & -> & Hv & Hl). rewrite Hw, word_closed. cbv zeta.
  exists false, rc, true. destruct rc; constructor; cbn; rewrite ?Hw, ?or_dropped; try done.
  - naive_solver.
  - rewrite Hl in *. destruct (rpc s); value_tac.
  - eapply wait_blind; [done |]. specialize (Hcl eq_refl). destruct (rpc s); auto.
  - rewrite Hl in *. destruct (rpc s); value_tac.
  - by eapply wait_other; [| | right].
Qed.

Lemma send_registers w q c' l r :
  spc s = SRegister w q -> register_step q (tx_waker (chan s)) = (c', l, r) ->
  inv (with_spc (match r with inl q => SRegister w q | inr InUse => SInUse w | inr _ => SLook w end)
         (wake_all l (with_chan (set_tx_waker c' (chan s)) s))).
Proof using H.
  intros Hpc Hst. destruct H as [Hw Hs Hr Hrx Htx Hrw Hsw Hcl]. clear H. rewrite Hpc in *.
  pose proof (reg_word _ _ _ Htx q c' l r eq_refl Hst) as Htx'.
  pose proof (wait_reg Hsw w q c' l r eq_refl Hst) as Hsw'.
  exists vs, rc, td. constructor; cbn; try done.
  - by destruct r as [|[]].
  - by destruct r as [|[]].
  - by destruct r as [|[]].
  - assert (s_taking match r with inl q => SRegister w q | inr InUse => SInUse w | inr _ => SLook w end = None) as ->
      by (by destruct r as [|[]]).
    by eapply wait_weaken; [| apply unless_woken_keeps].
  - by destruct r as [|[]].
  - intros Hc. specialize (Hcl Hc). destruct (rpc s); try done; by rewrite Hcl.
Qed.

(** A step of a wake, and what follows its last one. *)
Lemma send_wake_ok q next last res (f : option Waker -> option Waker) :
  spc s = next q ->
  (forall q, s_phase (next q) = PAway /\ s_taking (next q) = Some q /\
     sender_ok (next q) (rpc s) (terminated s) vs rc td (value (chan s)) (log s)) ->
  sender_ok SGone (rpc s) (terminated s) vs rc td (value (chan s)) (log s) ->
  (forall s', s_result s' = s_result s -> last s' = with_s_result res (with_s_waits (f (s_waits s')) (with_spc SGone s'))) ->
  f None = None ->
  match wake_receiver q next last s with Ok s' => inv s' | Err e => e = Disabled end.
Proof using H.
  intros Hpc Hn Hg Hl Hf. destruct (Hn q) as (Hph & Ht & Hs). rewrite <- Hpc in *.
  unfold wake_receiver. rewrite (sender_takes_alone H) by done. cbn.
  destruct (take_step q (rx_waker (chan s))) as [[c' l] q'] eqn:Hst.
  assert (unless_woken l (s_waits s) = None) as Hw.
  { destruct (unless_woken l (s_waits s)) as [w|] eqn:E; [| done]. apply unless_woken_keeps in E.
    pose proof (i_swait _ _ _ _ H w E) as Hw. by rewrite Hph in Hw. }
  destruct q' as [q'|].
  - destruct (Hn q') as (Hph' & Ht' & Hs').
    apply (send_wakes H (next q') q c' l (s_result s) (unless_woken l (s_waits s))); rewrite ?Ht'; done.
  - rewrite Hl by done. cbn. rewrite Hw, Hf. by apply (send_wakes H SGone q c' l res None).
Qed.
End sender_steps.

Lemma send_ok s :
  inv s -> match send_step s with Ok s' => inv s' | Err e => e = Disabled end.
Proof.
  intros (vs & rc & td & H). pose proof (i_word _ _ _ _ H) as Hw. pose proof (i_sender _ _ _ _ H) as Hs.
  pose proof (i_swait _ _ _ _ H) as Hsw. unfold send_step.
  destruct (spc s) as [|v| | |q|w|w q|w|w| |q|] eqn:Hpc; try done.
  - rewrite (receiver_excluded H) by (by unfold sender_touches; rewrite Hpc). by apply (send_write H).
  - pose proof (send_publish H Hpc) as Hi. by destruct (has RX_CLOSED (word (chan s))).
  - unfold read_value. rewrite (receiver_excluded H) by (by unfold sender_touches; rewrite Hpc).
    destruct Hs as (_ & _ & _ & v & Hv & _). cbn. rewrite Hv. by apply (send_read_back H).
  - apply (send_wake_ok H q SWake (send_answers SGone SendOk) (Some SendOk) (fun _ => None)); cbn in *; naive_solver.
  - rewrite Hw, word_closed. destruct rc.
    + apply (send_move H SIdle (Some ClosedReady) None (r_waits s)); by rewrite ?Hpc.
    + apply (send_move H (SRegister w (RegStart w)) (s_result s) (s_waits s) (r_waits s)); rewrite ?Hpc; try done.
      intros w' Ho. by rewrite (Hsw w' Ho).
  - rewrite (sender_registers_alone H w q Hpc). cbn.
    destruct (register_step q (tx_waker (chan s))) as [[c' l] r] eqn:Hst.
    pose proof (send_registers H w q c' l r Hpc Hst). by destruct r as [|[]].
  - apply (send_move H (SLook w) (s_result s) (unless_woken [w] (s_waits s)) (unless_woken [w] (r_waits s)));
      rewrite ?Hpc; eauto. by eapply wait_in_use.
  - rewrite Hw, word_closed. destruct rc.
    + apply (send_move H SIdle (Some ClosedReady) None (r_waits s)); by rewrite ?Hpc.
    + apply (send_move H SIdle (Some ClosedPending) (s_waits s) (r_waits s)); rewrite ?Hpc; try done.
      by eapply wait_seen.
  - pose proof (send_drop H Hpc) as Hi. by destruct (negb _).
  - apply (send_wake_ok H q SDropWake (with_spc SGone) (s_result s) id); cbn in *; try done; [naive_solver.. | by intros s' <-].
Qed.
