(* ===== verification/OneshotRecv.v ===== *)
(** * The receiver's steps of a shared one-shot channel

    The invariant of [sync/oneshot.rs] under [poll], [try_recv], [close] and
    the drop of the receiver, and under every step of the system. *)

From S2P Require Import Prelude Coop AtomicWaker AtomicWaits Oneshot OneshotInv.
Open Scope Z_scope.

(** ** Moves *)

Section receiver.
Context {vs rc td : bool} {s : Sys}.
Context (H : inv_at vs rc td s).

Lemma sender_excluded : receiver_touches s = true -> sender_touches s = false.
Proof using H.
  pose proof (receiver_excluded H) as He. intros Hr. destruct (sender_touches s); [| done].
  by rewrite He in Hr.
Qed.

Lemma receiver_registers_alone w q : rpc s = RRegister w q -> negb (reg_touches q && sender_taking s) = true.
Proof using H.
  intros Hpc. destruct H as [_ _ _ Hrx _ _ _ _]. clear H. rewrite Hpc in Hrx. unfold sender_taking, word_ok in *.
  destruct (spc s) as [| | | |p| | | | | |p|]; try (by rewrite andb_false_r); cbn in Hrx;
    destruct q, p; cbn in *; done.
Qed.

Lemma receiver_takes_alone q : r_taking (rpc s) = Some q -> negb (take_touches q && sender_registering s) = true.
Proof using H.
  intros Hpc. destruct H as [_ _ _ _ Htx _ _ _]. clear H. rewrite Hpc in Htx. unfold sender_registering, word_ok in *.
  destruct (spc s) as [| | | | | |w p| | | | |]; try (by rewrite andb_false_r). cbn in Htx.
  destruct q, p; cbn in *; done.
Qed.

(** The receiver is not in its last step, so a value it was sent is not yet
    dropped. *)
Lemma sender_moves pc pc' t t' :
  sender_ok (spc s) pc t vs rc td (value (chan s)) (log s) -> pc <> RGone -> (t = true -> t' = true) ->
  sender_ok (spc s) pc' t' vs rc td (value (chan s)) (log s).
Proof using Type.
  clear H. intros Hs Hpc Ht. destruct (spc s); try done; unfold sender_ok, accepted in *; naive_solver.
Qed.

(** The receiver moves on without touching the channel. *)
Lemma recv_move pc t th res o o2 :
  holds_reg (registering (r_phase (rpc s))) = false -> r_taking (rpc s) = None -> rpc s <> RGone ->
  holds_reg (registering (r_phase pc)) = false -> r_taking pc = None ->
  (terminated s = true -> t = true) ->
  receiver_ok pc (close s) t rc td (value (chan s)) (log s) ->
  wait_ok (r_phase pc) (rx_waker (chan s)) (s_taking (spc s)) (vs || td = false) false o ->
  closed_ok pc rc o ->
  (forall w, o2 = Some w -> s_waits s = Some w) ->
  inv (with_r_result res (with_r_waits o (with_s_waits o2 (with_rpc pc (with_terminated t (with_thread th s)))))).
Proof using H.
  destruct H as [Hw Hs Hr Hrx Htx Hrw Hsw Hcl]. clear H. intros Hreg Htak Hg Hreg' Htak' Ht Hr' Hw' Hc' Ho2.
  exists vs, rc, td. constructor; cbn; try done.
  - by eapply sender_moves.
  - by eapply word_reg.
  - by rewrite Htak', <- Htak.
  - rewrite Htak', <- Htak. by eapply wait_weaken.
Qed.

(** The receiver takes a step of a wake. *)
Lemma recv_wakes pc q c' l :
  r_phase (rpc s) = PAway -> r_taking (rpc s) = Some q -> take_step q (tx_waker (chan s)) = (c', l, r_taking pc) ->
  registering (r_phase pc) = None ->
  receiver_ok pc (close s) (terminated s) rc td (value (chan s)) (log s) -> 
  inv (with_rpc pc (wake_all l (with_chan (set_tx_waker c' (chan s)) s))).
Proof using H.
  destruct H as [Hw Hs Hr Hrx Htx Hrw Hsw Hcl]. clear H. intros Hph Htak Hst Hph' Hr'.
  assert (unless_woken l (r_waits s) = None) as Hn.
  { destruct (unless_woken l (r_waits s)) as [w|] eqn:E; [| done]. apply unless_woken_keeps in E.
    specialize (Hrw w E). by rewrite Hph in Hrw. }
  exists vs, rc, td. constructor; cbn; rewrite ?Hn; try done.
  - eapply sender_moves; [done | | done]. intros Hg. by rewrite Hg in Htak.
  - rewrite Hph'. by rewrite Hph in Hrx.
  - by eapply taken_word.
  - by eapply wait_take.
  - intros _. by destruct pc.
Qed.
End receiver.

(** ** Steps *)

Section receiver_steps.
Context {vs rc td : bool} {s : Sys}.
Context (H : inv_at vs rc td s).

(** What the outcome of a look says. *)
Lemma resolve_ok :
  rpc s <> RGone -> terminated s = false -> close_ok (close s) rc (value (chan s)) (log s) ->
  match resolve (close s) (word (chan s)) with
  | Waits => close s = Open /\ vs || td = false
  | Takes => owned (value (chan s)) (log s)
  | Fails => (rc = true \/ td = true) /\ ~ owned (value (chan s)) (log s)
  end.
Proof using H.
  intros Hg Ht Hc. destruct H as [Hw Hs Hr _ _ _ _ _]. clear H. unfold resolve. rewrite Hw, word_sent, word_dropped.
  destruct (close s); cbn in *.
  - subst. destruct vs, td; try done; destruct (spc s); value_tac.
  - destruct Hc as [-> Ho]. destruct vs; [done |]. destruct (spc s); value_tac.
  - destruct Hc as [-> Hl]. split; [by left |]. intros (v & _ & E). by rewrite E in Hl.
Qed.

(** A look of [poll], before and after the registration. *)
Lemma poll_look_ok w waits :
  rpc s = RLoad w \/ rpc s = RLook w ->
  (close s = Open -> vs || td = false ->
   forall th, inv (waits (with_thread th s))) ->
  inv (poll_look w waits s).
Proof using H.
  intros Hpc Hwait. pose proof (i_rwait _ _ _ _ H) as Hrw. pose proof (i_receiver _ _ _ _ H) as Hr.
  assert (terminated s = false /\ close_ok (close s) rc (value (chan s)) (log s)) as [Ht Hc].
  { destruct Hpc as [E|E]; rewrite E in Hr; [done |]. destruct Hr as (? & E' & ?). by rewrite E'. }
  assert (rpc s <> RGone) as Hg by (destruct Hpc; congruence).
  pose proof (resolve_ok Hg Ht Hc) as Ho.
  assert (forall th pc t res o o2,
    receiver_ok pc (close s) t rc td (value (chan s)) (log s) ->
    holds_reg (registering (r_phase pc)) = false -> r_taking pc = None ->
    wait_ok (r_phase pc) (rx_waker (chan s)) (s_taking (spc s)) (vs || td = false) false o ->
    closed_ok pc rc o -> (forall w, o2 = Some w -> s_waits s = Some w) ->
    inv (with_r_result res (with_r_waits o (with_s_waits o2 (with_rpc pc (with_terminated t (with_thread th s))))))) as Hm.
  { intros th pc t res o o2 ? ? ? ? ? ?. apply (recv_move H pc t th res o o2); try done; try congruence;
      destruct Hpc as [E|E]; by rewrite E. }
  unfold poll_look, resolve_if.
  assert (Hdone : forall th, inv
    match resolve (close s) (word (chan s)) with
    | Fails => recv_answers RecvErr (with_terminated true (with_thread th s))
    | Takes => with_rpc RTake (with_thread th s)
    | Waits => waits (with_thread th s)
    end).
  { intros th. destruct (resolve (close s) (word (chan s))).
    - destruct Ho. by apply Hwait.
    - apply (Hm th RIdle true (Some RecvErr) None (s_waits s)); try done.
    - apply (Hm th RTake (terminated s) (r_result s) (r_waits s) (s_waits s)); try done. }
  destruct (completes _ _); [| apply Hdone].
  destruct (spend w (thread s)) as [[] th]; [apply Hdone |].
  apply (Hm th RIdle (terminated s) (Some RecvPending) (unless_woken [w] (r_waits s)) (unless_woken [w] (s_waits s))); eauto.
  - cbn. by rewrite Ht.
  - intros w' [Ho' Hn]%unless_woken_Some. specialize (Hrw w' Ho').
    destruct Hpc as [E|E]; rewrite E in Hrw; cbn in Hrw; [subst | destruct Hrw; subst]; set_solver.
  - intros _. destruct (unless_woken [w] (r_waits s)) as [w'|] eqn:E'; [| done].
    apply unless_woken_Some in E' as [Ho' Hn]. specialize (Hrw w' Ho').
    destruct Hpc as [E|E]; rewrite E in Hrw; cbn in Hrw; [subst | destruct Hrw; subst]; set_solver.
Qed.

Lemma recv_registers w q c' l r :
  rpc s = RRegister w q -> register_step q (rx_waker (chan s)) = (c', l, r) ->
  inv (with_rpc (match r with inl q => RRegister w q | inr InUse => RInUse w | inr _ => RLook w end)
         (wake_all l (with_chan (set_rx_waker c' (chan s)) s))).
Proof using H.
  intros Hpc Hst. destruct H as [Hw Hs Hr Hrx Htx Hrw Hsw Hcl]. clear H. rewrite Hpc in *.
  pose proof (reg_word _ _ _ Hrx q c' l r eq_refl Hst) as Hrx'.
  pose proof (wait_reg Hrw w q c' l r eq_refl Hst) as Hrw'. destruct Hr as (Ht & Hc & ->).
  exists vs, false, td. constructor; cbn; try done.
  - by eapply sender_moves.
  - by destruct r as [|[]].
  - by destruct r as [|[]].
  - by destruct r as [|[]].
  - by destruct r as [|[]].
  - assert (r_taking match r with inl q => RRegister w q | inr InUse => RInUse w | inr _ => RLook w end = None) as ->
      by (by destruct r as [|[]]).
    by eapply wait_weaken; [| apply unless_woken_keeps].
Qed.

(** The read of a value the receiver owns, and what becomes of it. *)
Lemma recv_reads pc t res v (e : Z -> Event) :
  receiver_touches s = true -> value (chan s) = Some v ->
  match pc with RIdle => t = true /\ e = Receives | RGone => rpc s = RDropRead /\ e = Drops | _ => False end ->
  inv (with_r_result res (with_r_waits None
    (with_rpc pc (with_terminated t (logs (e v) (with_chan (set_value None (chan s)) s)))))).
Proof using H.
  intros Htouch Hv Hpc. destruct H as [Hw Hs Hr Hrx Htx Hrw Hsw Hcl]. clear H.
  assert (owned (value (chan s)) (log s) /\ r_taking (rpc s) = None /\ registering (r_phase (rpc s)) = None) as (Ho & Hta & Hre).
  { unfold receiver_touches in Htouch. destruct (rpc s); try done; cbn in Hr; naive_solver. }
  destruct Ho as (v' & Hv' & Hl). assert (v' = v) as -> by congruence.
  assert (vs = true /\ td = true) as [-> ->].
  { rewrite Hl, Hv in Hs. destruct (spc s); value_tac. }
  exists true, rc, true. rewrite Hta, Hre in *.
  constructor; cbn; rewrite ?Hl; try done; try (by destruct pc).
  - rewrite Hl, Hv in Hs. destruct (spc s), pc; try done; unfold sender_ok, accepted in *; naive_solver.
  - destruct pc; try done; destruct Hpc as [Ht He]; cbn; subst; [split; [by right |] | split; [by right|]];
      intros (? & ? & ?); done.
Qed.

(** [close] and the drop raise the bit and wake the sender, unless it is gone. *)
Lemma recv_closes (pc : bool -> RecvPc) cl :
  close s = Open -> rc = false -> terminated s = false -> r_phase (rpc s) = PAway -> r_taking (rpc s) = None ->
  rpc s <> RGone ->
  (forall b, registering (r_phase (pc b)) = None /\ r_taking (pc b) = (if b then Some TakeStart else None)) ->
  (vs = true -> owned (value (chan s)) (log s)) ->
  receiver_ok (pc (negb td)) cl false true td (value (chan s)) (log s) ->
  inv (with_rpc (pc (negb td)) (with_close cl (with_chan (fetch_or RX_CLOSED (chan s)) s))).
Proof using H.
  destruct H as [Hw Hs Hr Hrx Htx Hrw Hsw Hcl]. clear H. intros Ho -> Ht Hph Htak Hg Hpc Hown Hr'.
  destruct (Hpc (negb td)) as [Hreg' Htak'].
  assert (Hn : r_waits s = None).
  { destruct (r_waits s) as [w|] eqn:E; [| done]. specialize (Hrw w eq_refl). by rewrite Hph in Hrw. }
  exists vs, true, td. constructor; cbn; rewrite ?Hw, ?or_closed, ?Hn; try done.
  - eapply (sender_moves (rc := true)); [| done | done]. rewrite Ht in *.
    destruct (spc s); try done; unfold sender_ok, accepted in *; naive_solver.
  - by rewrite Ht.
  - rewrite Hreg'. by rewrite Hph in Hrx.
  - rewrite Htak'. rewrite Htak in Htx. by destruct td.
  - rewrite Htak'. rewrite Htak in Hsw. destruct td; cbn; [| by eapply wait_other; [| | right]].
    eapply wait_blind; [done |]. left. destruct (s_waits s) as [w|] eqn:E; [| done]. specialize (Hsw w eq_refl).
    destruct (spc s); cbn in *; naive_solver.
  - intros _. by destruct (pc (negb td)).
Qed.
End receiver_steps.

Lemma recv_wake_ok {vs rc td s} (H : inv_at vs rc td s) q next last :
  rpc s = next q ->
  (forall q, r_phase (next q) = PAway /\ r_taking (next q) = Some q /\
     receiver_ok (next q) (close s) (terminated s) rc td (value (chan s)) (log s)) ->
  registering (r_phase last) = None -> r_taking last = None ->
  receiver_ok last (close s) (terminated s) rc td (value (chan s)) (log s) ->
  match wake_sender q next (with_rpc last) s with Ok s' => inv s' | Err e => e = Disabled end.
Proof.
  intros Hpc Hn Hreg Htak Hr. destruct (Hn q) as (Hph & Ht & Hs). rewrite <- Hpc in *.
  unfold wake_sender. rewrite (receiver_takes_alone H) by done. cbn.
  destruct (take_step q (tx_waker (chan s))) as [[c' l] [q'|]] eqn:Hst.
  - destruct (Hn q') as (Hph' & Ht' & Hs'). apply (recv_wakes H (next q') q c' l); rewrite ?Ht', ?Hph'; done.
  - apply (recv_wakes H last q c' l); rewrite ?Htak; done.
Qed.

(** What the word says of a send, to a receiver that has not closed. *)
Lemma unsent {rc td s} (H : inv_at false rc td s) : accepts (log s) = false.
Proof.
  pose proof (i_sender _ _ _ _ H) as Hs. unfold sender_ok, accepted, owned in Hs.
  destruct (spc s); cases; simplify_eq; match goal with E : log s = _ |- _ => by rewrite E end.
Qed.

Lemma sent_owned {vs rc td s} (H : inv_at vs rc td s) :
  rpc s <> RGone -> terminated s = false -> close s = Open -> rc = false ->
  vs = true -> owned (value (chan s)) (log s).
Proof.
  intros Hg Ht Ho -> ->. pose proof (resolve_ok H Hg Ht) as Hres.
  unfold resolve in Hres. rewrite (i_word _ _ _ _ H), word_sent, Ho in Hres. by apply Hres.
Qed.

Lemma recv_close {vs rc td s} (H : inv_at vs rc td s) :
  rpc s = RClose ->
  inv (let s' := with_close (closed_as (word (chan s))) (with_chan (fetch_or RX_CLOSED (chan s)) s) in
       if negb (has TX_DROPPED (word (chan s))) then with_rpc (RCloseWake TakeStart) s' else with_rpc RIdle s').
Proof.
  intros Hpc. pose proof (i_receiver _ _ _ _ H) as Hr. rewrite Hpc in Hr. destruct Hr as (Ht & Ho & ->).
  pose proof (recv_closes H (fun b : bool => if b then RCloseWake TakeStart else RIdle) (closed_as (word (chan s)))
    Ho eq_refl Ht) as Hi. rewrite (i_word _ _ _ _ H), word_dropped in *. rewrite Hpc in Hi.
  assert (close_ok (closed_as (bits vs false td)) true (value (chan s)) (log s)) as Hc.
  { unfold closed_as. rewrite word_sent. destruct vs; split; try done; [| by apply (unsent H)].
    apply (sent_owned H); congruence. }
  destruct td; apply Hi; try done; try (by intros []); apply (sent_owned H); congruence.
Qed.

Lemma recv_drop {vs rc td s} (H : inv_at vs rc td s) :
  rpc s = RDrop -> close s = Open ->
  inv (let s' := with_chan (fetch_or RX_CLOSED (chan s)) s in let owns := has VALUE_SENT (word (chan s)) in
       if negb (has TX_DROPPED (word (chan s))) then with_rpc (RDropWake owns TakeStart) s' else drop_ends owns s').
Proof.
  intros Hpc Ho. pose proof (i_receiver _ _ _ _ H) as Hr. rewrite Hpc, Ho in Hr. destruct Hr as (Ht & ->).
  pose proof (recv_closes H (fun b : bool => if b then RDropWake vs TakeStart else if vs then RDropRead else RGone)
    (close s) Ho eq_refl Ht) as Hi. rewrite (i_word _ _ _ _ H), word_dropped, word_sent in *. rewrite Hpc in Hi.
  assert (if vs then owned (value (chan s)) (log s) else accepts (log s) = false) as Hc.
  { destruct vs; [| by apply (unsent H)]. apply (sent_owned H); congruence. }
  destruct td; apply Hi; try done; try (by intros []; destruct vs); try (apply (sent_owned H); congruence); try (destruct vs; done).
  destruct vs; [done |]. split; [by left |]. intros (v & _ & E). by rewrite E in Hc.
Qed.

Lemma recv_ok s :
  inv s -> match recv_step s with Ok s' => inv s' | Err e => e = Disabled end.
Proof.
  intros (vs & rc & td & H). pose proof (i_word _ _ _ _ H) as Hw. pose proof (i_receiver _ _ _ _ H) as Hr.
  pose proof (i_rwait _ _ _ _ H) as Hrw. pose proof (i_closed _ _ _ _ H) as Hcl.
  assert (Hread : receiver_touches s = true -> exists v, value (chan s) = Some v /\
    read_value (sender_touches s) s = Ok (v, with_chan (set_value None (chan s)) s)).
  { intros Ht. unfold read_value. rewrite (sender_excluded H Ht).
    assert (owned (value (chan s)) (log s)) as (v & Hv & _).
    { unfold receiver_touches in Ht. destruct (rpc s); try done; cbn in Hr; tauto. }
    exists v. cbn. by rewrite Hv. }
  unfold recv_step. destruct (rpc s) as [|w|w q|w|w| | | | |q| |owns q| |] eqn:Hpc; try done.
  - apply (poll_look_ok H); [by left |]. intros Ho Hn th. destruct Hr as (Ht & Hr). rewrite Ho in Hr. cbn in Hr. subst.
    apply (recv_move H (RRegister w (RegStart w)) (terminated s) th (r_result s) (r_waits s) (s_waits s));
      rewrite ?Hpc; try done.
    intros w' Hw'. by rewrite (Hrw w' Hw').
  - rewrite (receiver_registers_alone H w q Hpc). cbn.
    destruct (register_step q (rx_waker (chan s))) as [[c' l] r] eqn:Hst.
    pose proof (recv_registers H w q c' l r Hpc Hst). by destruct r as [|[]].
  - destruct Hr as (Ht & Ho & ->).
    apply (recv_move H (RLook w) (terminated s) (thread s) (r_result s) (unless_woken [w] (r_waits s))
      (unless_woken [w] (s_waits s))); rewrite ?Hpc; eauto; try done. by eapply wait_in_use.
  - apply (poll_look_ok H); [by right |]. intros Ho Hn th. destruct Hr as (Ht & _ & ->).
    apply (recv_move H RIdle (terminated s) th (Some RecvPending) (r_waits s) (s_waits s)); rewrite ?Hpc; try done.
    + cbn. by rewrite Ht, Ho.
    + by eapply wait_seen.
  - destruct Hread as (v & Hv & ->); [by unfold receiver_touches; rewrite Hpc |].
    apply (recv_reads H RIdle true (Some (RecvOk v)) v Receives); try done. unfold receiver_touches. by rewrite Hpc.
  - destruct Hr as [Ht Hc]. assert (rpc s <> RGone) as Hg by congruence.
    pose proof (resolve_ok H Hg Ht Hc) as Ho. destruct (resolve (close s) (word (chan s))).
    + apply (recv_move H RIdle (terminated s) (thread s) (Some TryEmpty) (r_waits s) (s_waits s)); rewrite ?Hpc; try done.
      cbn. by rewrite Ht.
    + apply (recv_move H RIdle true (thread s) (Some TryClosed) None (s_waits s)); rewrite ?Hpc; try done.
    + apply (recv_move H RTryTake (terminated s) (thread s) (r_result s) (r_waits s) (s_waits s)); rewrite ?Hpc; done.
  - destruct Hread as (v & Hv & ->); [by unfold receiver_touches; rewrite Hpc |].
    apply (recv_reads H RIdle true (Some (TryOk v)) v Receives); try done. unfold receiver_touches. by rewrite Hpc.
  - pose proof (recv_close H Hpc) as Hi. by destruct (negb _).
  - destruct Hr as [Ht Hc]. by apply (recv_wake_ok H q RCloseWake RIdle); rewrite ?Ht.
  - destruct Hr as [Ht Hc]. destruct (close s) eqn:Ho.
    + pose proof (recv_drop H Hpc Ho) as Hi. by destruct (negb _).
    + destruct Hc as [-> Hown].
      by apply (recv_move H RDropRead (terminated s) (thread s) (r_result s) (r_waits s) (s_waits s)); rewrite ?Hpc, ?Ho.
    + destruct Hc as [-> Hl].
      apply (recv_move H RGone (terminated s) (thread s) (r_result s) (r_waits s) (s_waits s)); rewrite ?Hpc, ?Ho; try done.
      split; [by left |]. intros (v & _ & E). by rewrite E in Hl.
  - destruct Hr as (Ht & -> & Ho). apply (recv_wake_ok H q (RDropWake owns) (if owns then RDropRead else RGone)); try done.
    + by destruct owns.
    + by destruct owns.
    + destruct owns; cbn; [done |]. split; [by left |]. intros (v & _ & E). by rewrite E in Ho.
  - destruct Hread as (v & Hv & ->); [by unfold receiver_touches; rewrite Hpc |].
    assert (r_waits s = None) as Hn by (destruct Hr as (_ & -> & _); exact (Hcl eq_refl)).
    pose proof (recv_reads H RGone (terminated s) (r_result s) v Drops) as Hi. rewrite <- Hn in Hi at 1.
    apply Hi; try done. unfold receiver_touches. by rewrite Hpc.
Qed.
