(* ===== verification/OneshotSpec.v ===== *)
(** * What a shared one-shot channel promises

    The theorems of [sync/oneshot.rs]: what becomes of the value, that no wake
    is lost, and that every call ends within a fixed number of its own steps. *)

From S2P Require Import Prelude Coop AtomicWaker AtomicWaits Oneshot OneshotInv OneshotRecv.
Open Scope Z_scope.

(** ** Calls *)

Section calls.
Context {vs rc td : bool} {s : Sys}.
Context (H : inv_at vs rc td s).

(** A call of the sender begins, with the waker it waits with. *)
Lemma send_begins pc o res l :
  spc s = SIdle -> s_taking pc = None -> registering (s_phase pc) = None ->
  sender_ok pc (rpc s) (terminated s) vs rc td (value (chan s)) l ->
  (l = log s \/ exists v, l = [Offers v]) ->
  wait_ok (s_phase pc) (tx_waker (chan s)) (r_taking (rpc s)) (rc = false) false o ->
  inv {| chan := chan s; spc := pc; rpc := rpc s; close := close s; terminated := terminated s;
         thread := thread s; s_waits := o; r_waits := r_waits s; s_result := res; r_result := r_result s;
         log := l |}.
Proof using H.
  destruct H as [Hw Hs Hr Hrx Htx Hrw Hsw Hcl]. clear H. intros Hpc Htak Hreg Hs' Hl Hw'. rewrite Hpc in *.
  exists vs, rc, td. constructor; cbn; rewrite ?Htak, ?Hreg; try done.
  destruct Hs as (_ & _ & Hv & Hn). rewrite Hv, Hn in *.
  destruct Hl as [-> | [v ->]]; [done |]. destruct (rpc s); value_tac.
Qed.

(** A call of the receiver begins. *)
Lemma recv_begins pc o th :
  rpc s = RIdle -> r_taking pc = None -> registering (r_phase pc) = None ->
  receiver_ok pc (close s) (terminated s) rc td (value (chan s)) (log s) ->
  wait_ok (r_phase pc) (rx_waker (chan s)) (s_taking (spc s)) (vs || td = false) false o ->
  closed_ok pc rc o ->
  inv (with_rpc pc (with_r_waits o (with_thread th s))).
Proof using H.
  intros Hpc Htak Hreg Hr Hw Hc.
  apply (recv_move H pc (terminated s) th (r_result s) o (s_waits s)); rewrite ?Hpc, ?Hreg; done.
Qed.

Lemma results_free rs ss : inv (with_s_result ss (with_r_result rs s)).
Proof using H. exists vs, rc, td. by destruct H. Qed.
End calls.

(** A step of either side, or a call, keeps the invariant; the only step that
    fails is the poll of a receiver that has completed. *)
Lemma oneshot_act_ok a s :
  inv s ->
  match act a s with
  | Ok s' => inv s'
  | Err Panics => rpc s = RIdle /\ terminated s = true /\ exists w ops, a = PollRecv w ops
  | Err e => e = Disabled
  end.
Proof.
  intros Hi. pose proof Hi as (vs & rc & td & H). pose proof (i_receiver _ _ _ _ H) as Hr.
  pose proof (i_sender _ _ _ _ H) as Hs. pose proof (i_closed _ _ _ _ H) as Hcl.
  destruct a as [v|w| | | |w ops| | | | |]; cbn.
  - destruct (spc s) eqn:Hpc; try done. cbn in Hs.
    destruct Hs as (? & ? & ? & E). apply (send_begins H (SWrite v) None (s_result s) (log s ++ [Offers v])); rewrite ?E; try done.
    by right; exists v.
  - destruct (spc s) eqn:Hpc; try done.
    apply (send_begins H (SLoad w) (Some w) (s_result s) (log s)); try done; [by left | by intros ? [= ->]].
  - destruct (spc s) eqn:Hpc; try done.
    apply (results_free H (r_result s) (Some (IsClosed (is_closed (chan s))))).
  - destruct (spc s) eqn:Hpc; try done.
    by apply (send_begins H SDrop None (s_result s) (log s)); try done; left.
  - pose proof (send_ok s Hi). destruct (send_step s) as [|e]; [done |]. by subst e.
  - destruct (rpc s) eqn:Hpc; try done. destruct (terminated s) eqn:Ht; [by eauto |].
    apply (recv_begins H (RLoad w)); rewrite ?Ht; try done. by intros ? [= ->].
  - destruct (rpc s) eqn:Hpc; try done. destruct (terminated s) eqn:Ht.
    + apply (results_free H (Some TryClosed) (s_result s)).
    + apply (recv_begins H RTryLoad (r_waits s) (thread s)); rewrite ?Ht; try done.
      pose proof (i_rwait _ _ _ _ H) as Hw. by rewrite Hpc in Hw.
  - destruct (rpc s) eqn:Hpc; try done. destruct (terminated s) eqn:Ht; [done |].
    destruct (close s) eqn:Hc; try done. apply (recv_begins H RClose None (thread s)); rewrite ?Ht, ?Hc; done.
  - destruct (rpc s) eqn:Hpc; try done. apply (results_free H (Some (IsEmpty (is_empty s))) (s_result s)).
  - destruct (rpc s) eqn:Hpc; try done. destruct (terminated s) eqn:Ht.
    + by apply (recv_begins H RGone None (thread s)); rewrite ?Ht.
    + by apply (recv_begins H RDrop None (thread s)); rewrite ?Ht.
  - pose proof (recv_ok s Hi). destruct (recv_step s) as [|e]; [done |]. by subst e.
Qed.

Lemma oneshot_acts_ok l s s' : inv s -> acts l s = Ok s' -> inv s'.
Proof.
  apply run_inv. intros a s1 s2 Hi Ha. pose proof (oneshot_act_ok a s1 Hi) as H. by rewrite Ha in H.
Qed.

(** ** Calls end *)

(** How many steps of its own a side's call has left, at most. *)
Definition s_left (pc : SendPc) : Z :=
  match pc with
  | SIdle | SGone => 0
  | SWake q | SDropWake q => take_left q
  | SReadBack => 1
  | SPublish => 5
  | SWrite _ => 6
  | SLook _ => 1
  | SInUse _ => 2
  | SRegister _ q => 2 + reg_left q
  | SLoad _ => 9
  | SDrop => 5
  end.

Definition r_left (pc : RecvPc) : Z :=
  match pc with
  | RIdle | RGone => 0
  | RTake | RTryTake | RDropRead => 1
  | RLook _ => 2
  | RInUse _ => 3
  | RRegister _ q => 3 + reg_left q
  | RLoad _ => 10
  | RTryLoad => 2
  | RCloseWake q => take_left q
  | RClose => 5
  | RDropWake _ q => 1 + take_left q
  | RDrop => 6
  end.

Lemma send_step_left s s' : send_step s = Ok s' -> rpc s' = rpc s /\ 0 <= s_left (spc s') < s_left (spc s).
Proof.
  unfold send_step, wake_receiver, read_value. intros H.
  destruct (spc s) as [|v| | |q|w|w q|w|w| |q|] eqn:Hpc; open_step H; try (by split; [done | lia]).
  - destruct (value (chan s)); simplify_eq/=; split; done || lia.
  - open_cell H; split; done || lia.
  - open_cell H; split; done || lia.
  - open_cell H; split; done || lia.
Qed.

Lemma poll_look_left w waits s n :
  (spc (waits s) = spc s /\ 0 <= r_left (rpc (waits s)) < n) ->
  (forall th, spc (waits (with_thread th s)) = spc (waits s) /\ rpc (waits (with_thread th s)) = rpc (waits s)) ->
  1 < n ->
  spc (poll_look w waits s) = spc s /\ 0 <= r_left (rpc (poll_look w waits s)) < n.
Proof.
  intros Hw Ht Hn. unfold poll_look. destruct (resolve_if _ _ _ _) as [[[]|] th]; cbn; try (split; [done | lia]).
  destruct (Ht th) as [-> ->]. done.
Qed.

Lemma recv_step_left s s' : recv_step s = Ok s' -> spc s' = spc s /\ 0 <= r_left (rpc s') < r_left (rpc s).
Proof.
  unfold recv_step, wake_sender, read_value, drop_ends. intros H.
  destruct (rpc s) as [|w|w q|w|w| | | | |q| |owns q| |] eqn:Hpc; open_step H; try (by split; [done | lia]).
  all: try (by apply poll_look_left).
  all: try (destruct (close s); simplify_eq/=; split; done || lia).
  all: try (destruct (resolve _ _); simplify_eq/=; split; done || lia).
  all: try (destruct (value (chan s)); simplify_eq/=; split; done || lia).
  all: open_cell H; repeat case_match; split; done || lia.
Qed.

(** ** Wakes come *)

(** The receiver waits with [w], and the sender's wake of it is due; and the
    other way round. *)
Definition receiver_due (w : Waker) (q : Taking) (s : Sys) : Prop :=
  inv s /\ s_taking (spc s) = Some q /\ rpc s = RIdle /\ r_waits s = Some w /\ due (Some q) w.
Definition sender_due (w : Waker) (q : Taking) (s : Sys) : Prop :=
  inv s /\ r_taking (rpc s) = Some q /\ spc s = SIdle /\ s_waits s = Some w /\ due (Some q) w.

Lemma wake_receiver_due w q s :
  receiver_due w q s -> exists s', act SendStep s = Ok s' /\
    (r_waits s' = None \/ exists q', receiver_due w q' s' /\ take_left q' < take_left q).
Proof.
  intros (Hi & Ht & Hr & Hw & Hd). pose proof (oneshot_act_ok SendStep s Hi) as Ha.
  assert (Hs : act SendStep s = wake_receiver q (match spc s with SWake _ => SWake | _ => SDropWake end)
    (match spc s with SWake _ => send_answers SGone SendOk | _ => with_spc SGone end) s).
  { cbn. unfold send_step. destruct (spc s); simplify_eq/=; done. }
  destruct Hi as (vs & rc & td & H). pose proof (i_rx _ _ _ _ H) as Hc. pose proof (i_rwait _ _ _ _ H) as Hwait.
  rewrite Hr, Hw, Ht in *. destruct (Hwait w eq_refl) as (Hk & _ & _). rewrite Hs in *. unfold wake_receiver in *.
  rewrite (sender_takes_alone H) in * by done. cbn [exclusive and_then] in *.
  destruct (take_step q (rx_waker (chan s))) as [[c l] q'] eqn:E. eexists. split; [done |].
  destruct (unless_woken_cases l w) as [Hn | [Hn Hl]].
  - left. destruct q', (spc s); cbn; by rewrite Hw, Hn.
  - right. destruct (take_due _ _ _ Hc q c l q' w eq_refl eq_refl E Hk Hd) as [|Hd']; [done |].
    destruct q' as [q'|]; [| done]. apply take_steps_left in E. exists q'. split; [| done].
    split; [exact Ha |]. cbn. rewrite Hr, Hw, Hn. by destruct (spc s).
Qed.

Lemma wake_sender_due w q s :
  sender_due w q s -> exists s', act RecvStep s = Ok s' /\
    (s_waits s' = None \/ exists q', sender_due w q' s' /\ take_left q' < take_left q).
Proof.
  intros (Hi & Ht & Hr & Hw & Hd). pose proof (oneshot_act_ok RecvStep s Hi) as Ha.
  assert (Hs : act RecvStep s = wake_sender q (match rpc s with RDropWake owns _ => RDropWake owns | _ => RCloseWake end)
    (match rpc s with RDropWake owns _ => drop_ends owns | _ => with_rpc RIdle end) s).
  { cbn. unfold recv_step. destruct (rpc s); simplify_eq/=; done. }
  destruct Hi as (vs & rc & td & H). pose proof (i_tx _ _ _ _ H) as Hc. pose proof (i_swait _ _ _ _ H) as Hwait.
  rewrite Hr, Hw, Ht in *. destruct (Hwait w eq_refl) as (Hk & _ & _). rewrite Hs in *. unfold wake_sender in *.
  rewrite (receiver_takes_alone H) in * by done. cbn [exclusive and_then] in *.
  destruct (take_step q (tx_waker (chan s))) as [[c l] q'] eqn:E. eexists. split; [done |].
  destruct (unless_woken_cases l w) as [Hn | [Hn Hl]].
  - left. destruct q', (rpc s); cbn; by rewrite Hw, Hn.
  - right. destruct (take_due _ _ _ Hc q c l q' w eq_refl eq_refl E Hk Hd) as [|Hd']; [done |].
    destruct q' as [q'|]; [| done]. apply take_steps_left in E. exists q'. split; [| done].
    split; [exact Ha |]. cbn. rewrite Hr, Hw, Hn. by destruct (rpc s).
Qed.

(** ** The properties *)

#[local] Transparent has.

(** What can have become of a value at any moment, and at the end. *)
Definition story (l : list Event) : Prop :=
  match l with
  | [] | [Offers _] | [Offers _; Accepts] => True
  | [Offers v; GivesBack v'] | [Offers v; Accepts; Receives v'] | [Offers v; Accepts; Drops v'] => v' = v
  | _ => False
  end.
Definition ended (l : list Event) : Prop :=
  match l with
  | [] => True
  | [Offers v; GivesBack v'] | [Offers v; Accepts; Receives v'] | [Offers v; Accepts; Drops v'] => v' = v
  | _ => False
  end.

Lemma inv_story s : inv s -> story (log s).
Proof.
  intros (vs & rc & td & H). pose proof (i_sender _ _ _ _ H) as Hs. unfold sender_ok, accepted, owned in Hs.
  destruct (spc s); cases; match goal with E : log s = _ |- _ => by rewrite E end.
Qed.

Lemma inv_ended s : inv s -> spc s = SGone -> rpc s = RGone -> value (chan s) = None /\ ended (log s).
Proof.
  intros (vs & rc & td & H) Hs Hr. pose proof (i_sender _ _ _ _ H) as Ho. pose proof (i_receiver _ _ _ _ H) as Hc.
  rewrite Hs in Ho. rewrite Hr in Hc. unfold sender_ok, accepted in Ho. cbn in Hc. unfold ended.
  cases; try done; (split; [done |]); match goal with E : log s = _ |- _ => by rewrite E end.
Qed.

(** C13. A value crosses a shared one-shot channel at most once and is never
    lost. Under any interleaving of the two sides, whatever they call, no step
    races on the value's cell or on a waker's slot and none reads a cell that
    holds no value; the only panic is the poll of a receiver that completed. A
    value given to [send] comes back to the sender, or the send succeeds and the
    value is received or dropped by the receiver's drop, never two of these; a
    receiver that was told the channel is closed has missed no value; and once
    both halves are gone the cell is empty and the value has one of the three
    ends. *)
Theorem oneshot_passes_its_value_once (l : list Act) (s : Sys) :
  acts l channel = Ok s ->
  (forall a, match act a s with
             | Ok _ | Err Disabled => True
             | Err Panics => terminated s = true /\ exists w ops, a = PollRecv w ops
             | Err (Races | Uninit | Freed) => False
             end) /\
  story (log s) /\
  (rpc s = RIdle -> terminated s = true -> accepts (log s) = true -> exists v, log s = [Offers v; Accepts; Receives v]) /\
  (spc s = SGone -> rpc s = RGone -> value (chan s) = None /\ ended (log s)).
Proof.
  intros Hl. pose proof (oneshot_acts_ok l _ s channel_inv Hl) as Hi. split; [| split; [| split]].
  - intros a. pose proof (oneshot_act_ok a s Hi) as Ha. destruct (act a s) as [|[]]; try done. tauto.
  - by apply inv_story.
  - intros Hr Ht Ha. pose proof Hi as (vs & rc & td & H). pose proof (i_sender _ _ _ _ H) as Hs.
    pose proof (i_receiver _ _ _ _ H) as Hc. rewrite Hr, Ht in *. destruct Hc as [_ Hc].
    unfold sender_ok, accepted in Hs.
    destruct (spc s); cases; try done; try (by eexists);
      match goal with E : log s = _ |- _ => by rewrite E in Ha end.
  - by apply inv_ended.
Qed.

(** The receiver waits, is woken by the send, receives the value and is
    dropped. *)
Definition oneshot_run : list Act :=
  [PollRecv 7 1] ++ replicate 5 RecvStep ++ [Send 42] ++ replicate 6 SendStep ++
  [PollRecv 7 1] ++ replicate 2 RecvStep ++ [DropReceiver].

Definition oneshot_ran : Sys :=
  {| chan := {| word := 5; value := None; rx_waker := AtomicWaker.new; tx_waker := AtomicWaker.new |};
     spc := SGone; rpc := RGone; close := Open; terminated := true;
     thread := {| budget := 0; task := None; budget_yields := 0; woken := [] |};
     s_waits := None; r_waits := None; s_result := Some SendOk; r_result := Some (RecvOk 42);
     log := [Offers 42; Accepts; Receives 42] |}.

Lemma oneshot_passes_its_value_once_witness :
  acts oneshot_run channel = Ok oneshot_ran /\ value (chan oneshot_ran) = None /\ ended (log oneshot_ran).
Proof.
  assert (E : acts oneshot_run channel = Ok oneshot_ran) by (lazy; reflexivity).
  split; [exact E |]. apply (oneshot_passes_its_value_once oneshot_run oneshot_ran E); reflexivity.
Defined.

(** C14. No wake of a shared one-shot channel is lost. Under any interleaving, a
    receiver whose poll answered pending and which was not woken since, and did
    not close or drop its half, has nothing to see (no value, and a sender that is there), or the sender is at
    that moment in a call that wakes it within four more steps of its own; a
    sender that waits for the close faces an open channel, or the receiver
    wakes it in the same way. And every call is wait-free: it ends within ten
    steps of its own side, which the other side's steps never set back. *)
Theorem oneshot_loses_no_wake (l : list Act) (s : Sys) :
  acts l channel = Ok s ->
  (forall w, rpc s = RIdle -> r_waits s = Some w ->
    completes (close s) (word (chan s)) = false \/
    exists k s', (k <= 4)%nat /\ acts (replicate k SendStep) s = Ok s' /\ r_waits s' = None) /\
  (forall w, spc s = SIdle -> s_waits s = Some w ->
    is_closed (chan s) = false \/
    exists k s', (k <= 4)%nat /\ acts (replicate k RecvStep) s = Ok s' /\ s_waits s' = None) /\
  (forall s', act SendStep s = Ok s' -> r_left (rpc s') = r_left (rpc s) /\
    0 <= s_left (spc s') < s_left (spc s) /\ s_left (spc s) <= 10) /\
  (forall s', act RecvStep s = Ok s' -> s_left (spc s') = s_left (spc s) /\
    0 <= r_left (rpc s') < r_left (rpc s) /\ r_left (rpc s) <= 10).
Proof.
  intros Hl. pose proof (oneshot_acts_ok l _ s channel_inv Hl) as Hi. pose proof Hi as (vs & rc & td & H).
  pose proof (i_word _ _ _ _ H) as Hw. split; [| split; [| split]].
  - intros w Hr Ho. pose proof (i_rwait _ _ _ _ H) as Hwait. pose proof (i_closed _ _ _ _ H) as Hcl.
    pose proof (i_receiver _ _ _ _ H) as Hrec. rewrite Hr in *. destruct (Hwait w Ho) as (_ & Hn & _).
    destruct Hn as [Hn | Hd].
    + left. unfold completes. rewrite Hw, word_either, Hn, orb_false_r. destruct (close s) eqn:Hc; try done.
      destruct rc; [rewrite (Hcl eq_refl) in Ho; done |]. cbn in Hrec.
      destruct (terminated s); [destruct Hrec as [[|] _]; destruct vs, td; done | by destruct Hrec].
    + right. destruct (s_taking (spc s)) as [q|] eqn:Ht; [| done].
      by apply (wake_comes act SendStep (receiver_due w) _ (wake_receiver_due w) q s).
  - intros w Hr Ho. pose proof (i_swait _ _ _ _ H) as Hwait. rewrite Hr in Hwait. destruct (Hwait w Ho) as (_ & Hn & _).
    destruct Hn as [-> | Hd]; [left; unfold is_closed; by rewrite Hw, word_closed |].
    right. destruct (r_taking (rpc s)) as [q|] eqn:Ht; [| done].
    by apply (wake_comes act RecvStep (sender_due w) _ (wake_sender_due w) q s).
  - intros s' [-> Hs]%send_step_left. split; [done |]. split; [lia |].
    destruct (spc s) as [| | | |[]| |? []| | | |[]|]; cbn; lia.
  - intros s' [-> Hs]%recv_step_left. split; [done |]. split; [lia |].
    destruct (rpc s) as [| |? []| | | | | | |[]| |? []| |]; cbn; lia.
Qed.

(** The receiver waits and the sender has published its value, but not yet
    taken the receiver's waker. *)
Definition oneshot_wake_run : list Act :=
  [PollRecv 7 1] ++ replicate 5 RecvStep ++ [Send 42] ++ replicate 2 SendStep.

Definition oneshot_wake_pending : Sys :=
  {| chan := {| word := 5; value := Some 42; rx_waker := {| state := WAITING; slot := Some 7 |};
                tx_waker := AtomicWaker.new |};
     spc := SWake TakeStart; rpc := RIdle; close := Open; terminated := false;
     thread := {| budget := 1; task := None; budget_yields := 0; woken := [] |};
     s_waits := None; r_waits := Some 7; s_result := None; r_result := Some RecvPending;
     log := [Offers 42; Accepts] |}.

Lemma oneshot_loses_no_wake_witness :
  acts oneshot_wake_run channel = Ok oneshot_wake_pending /\
  exists k s', (k <= 4)%nat /\ acts (replicate k SendStep) oneshot_wake_pending = Ok s' /\ r_waits s' = None.
Proof.
  assert (E : acts oneshot_wake_run channel = Ok oneshot_wake_pending) by (lazy; reflexivity).
  split; [exact E |].
  destruct (proj1 (oneshot_loses_no_wake oneshot_wake_run oneshot_wake_pending E) 7 eq_refl eq_refl) as [H | H];
    [discriminate H | exact H].
Defined.
