(* ===== verification/WaiterNode.v ===== *)
(** * The waiter node

    [sync/waiter/node.rs], with the calls of [sync/waiter/wait.rs] and
    [sync/waiter/wake.rs] on one node: the parked wait every shared lock queues.
    Three parties hold it: the future that waits, the queue whose drain pass
    grants or nudges it, and the wake list that calls its waker. Each party is a
    small program whose steps are the atomic operations on the node's word and
    the accesses to its two waker slots, and the steps interleave anywhere. *)

From S2P Require Import Prelude AtomicWaits.
Open Scope Z_scope.

(** ** The word *)

Definition PHASE : Z := 3.
Definition WAITING : Z := 0.
Definition GRANTED : Z := 1.
Definition CANCELLED : Z := 2.
Definition REGISTERING : Z := 4.
Definition ARMED : Z := 8.
Definition TAKING : Z := 16.
Definition CURRENT : Z := 32.
Definition TAKEN : Z := 64.
Definition NUDGED : Z := 128.
Definition OWED : Z := 256.
Definition QUEUE_REF : Z := 512.
Definition FUTURE_REF : Z := 1024.
Definition WAKE_REF : Z := 2048.
Definition REFS : Z := Z.lor QUEUE_REF (Z.lor FUTURE_REF WAKE_REF).

(** [state & bits != 0], [state | bits], [state & !bits], [state & PHASE]. *)
Definition has (bits s : Z) : bool := negb (Z.land s bits =? 0).
Definition with_ (bits s : Z) : Z := Z.lor s bits.
Definition without (bits s : Z) : Z := Z.ldiff s bits.
Definition in_phase (phase s : Z) : bool := Z.land s PHASE =? phase.

Definition claim (s : Z) : Z :=
  let taken := if has CURRENT s then TAKEN else 0 in
  with_ WAKE_REF (with_ TAKING (with_ taken (without (Z.lor ARMED TAKEN) s))).

Definition claimable (s : Z) : bool :=
  Z.land s (Z.lor ARMED (Z.lor REGISTERING TAKING)) =? ARMED.

(** ** The node *)

(** [live]: the node has not gone back to its pool. *)
Record Node : Type := {
  word : Z;
  slot0 : option Waker;
  slot1 : option Waker;
  payload : Z;
  live : bool
}.

Definition set_word x n := {| word := x; slot0 := slot0 n; slot1 := slot1 n; payload := payload n; live := live n |}.
Definition set_payload x n := {| word := word n; slot0 := slot0 n; slot1 := slot1 n; payload := x; live := live n |}.

(** [slot]: the slot the bit of [s] names. *)
Definition slot (s bit : Z) (n : Node) : option Waker := if has bit s then slot1 n else slot0 n.
Definition set_slot (s bit : Z) (o : option Waker) (n : Node) : Node :=
  if has bit s
  then {| word := word n; slot0 := slot0 n; slot1 := o; payload := payload n; live := live n |}
  else {| word := word n; slot0 := o; slot1 := slot1 n; payload := payload n; live := live n |}.

(** [arm], on a node fresh from the pool, whose slots are empty. *)
Definition arm (p : Z) (w : Waker) : Node :=
  {| word := Z.lor WAITING (Z.lor REGISTERING (Z.lor QUEUE_REF FUTURE_REF)); slot0 := Some w; slot1 := None;
     payload := p; live := true |}.

(** [Pool::put]: the slots are cleared and the node is no longer anybody's. *)
Definition put (n : Node) : Node :=
  {| word := word n; slot0 := None; slot1 := None; payload := payload n; live := false |}.

(** [compare_exchange_weak], which may fail for no reason: the node and whether
    it was changed. *)
Definition compare_exchange (spurious : bool) (current next : Z) (n : Node) : Node * bool :=
  if negb spurious && (word n =? current) then (set_word next n, true) else (n, false).

(** ** The three parties *)

(** How a future's wait ended: granted, with the payload, or withdrawn, with
    whether a nudge had reached it unused. *)
Inductive Outcome : Type :=
| WasGranted (p : Z)
| Withdrew (nudged : bool).

(** Where the future is. [FIdle]: in no call on its node, which is fresh from
    [enqueue] when it still has the waker [arm] put there to settle; then in
    [park], in [spin_park], in [granted], in [owe] and [unowe], in [cancel];
    granted and about to read the payload;
    letting go of the node; giving it back to the pool; gone. *)
Inductive FuturePc : Type :=
| FIdle (fresh : option Waker)
| FLoad (w : Waker)
| FTry (w : Waker) (s : Z)
| FWrite (w : Waker) (target : Z)
| FSettleLoad (w : Waker)
| FSettle (w : Waker) (s : Z)
| FSpinLoad (w : Waker) (rounds : nat)
| FSpin (w : Waker) (rounds : nat) (s : Z)
| FMarked (w : Waker) (rounds : nat)
| FAsk (fresh : option Waker)
| FOweLoad (fresh : option Waker)
| FOwe (fresh : option Waker) (s : Z)
| FUnoweLoad (fresh : option Waker)
| FUnowe (fresh : option Waker) (s : Z)
| FCancelLoad
| FCancel (s : Z)
| FCancelTake (s : Z)
| FPayload
| FRelease (o : Outcome)
| FPut (o : Outcome)
| FGone (o : Outcome).

(** Where the queue is. [QIdle]: the node is on its list and no pass is at it;
    then in [grant], with the payload it leaves, or in [nudge]; looking whether
    the node is to be pruned; letting go of it, having granted it or not; giving
    it back; gone. *)
Inductive QueuePc : Type :=
| QIdle
| QPayload (p : Z)
| QTouchLoad (grants : bool)
| QTouch (grants : bool) (s : Z)
| QPrune
| QOwed (granted : bool)
| QRelease (granted : bool)
| QPut (granted : bool)
| QGone (granted : bool).

(** Where the wake list is: the node is not on one; it is listed; about to take
    the waker from the taken slot; with the waker, about to give the slot back;
    about to call the waker and take the next one; giving the node back. *)
Inductive WakePc : Type :=
| WNone
| WListed
| WSlot (s : Z)
| WTake (s : Z) (o : option Waker)
| WAgain (o : option Waker)
| WPut (o : option Waker).

(** What the last call on the node answered. *)
Inductive FutureResult : Type :=
| ParkPending
| ParkNudged
| NotGranted
| Owed (b : bool)
| Unowed (b : bool).

Inductive QueueResult : Type :=
| NudgeOut (b : bool)
| Kept.

(** The node and its three parties; [calls], the wakers a wake list took and
    has not called yet; [waits], the waker a future whose last look answered
    [Pending] waits with until it is called; how many nudges were sent, seen by
    the future, and lost to a grant; how often the queue settled the owed
    mark. *)
Record Sys : Type := {
  node : Node;
  fpc : FuturePc;
  qpc : QueuePc;
  wpc : WakePc;
  calls : list Waker;
  waits : option Waker;
  f_result : option FutureResult;
  q_result : option QueueResult;
  sent : Z;
  seen : Z;
  absorbed : Z;
  forgiven : Z
}.

(** A node just armed and pushed on its queue's arrival stack. *)
Definition enqueued (p : Z) (w : Waker) : Sys :=
  {| node := arm p w; fpc := FIdle (Some w); qpc := QIdle; wpc := WNone; calls := []; waits := None;
     f_result := None; q_result := None; sent := 0; seen := 0; absorbed := 0; forgiven := 0 |}.

Definition with_node x s := {| node := x; fpc := fpc s; qpc := qpc s; wpc := wpc s; calls := calls s;
  waits := waits s; f_result := f_result s; q_result := q_result s; sent := sent s; seen := seen s;
  absorbed := absorbed s; forgiven := forgiven s |}.
Definition with_fpc x s := {| node := node s; fpc := x; qpc := qpc s; wpc := wpc s; calls := calls s;
  waits := waits s; f_result := f_result s; q_result := q_result s; sent := sent s; seen := seen s;
  absorbed := absorbed s; forgiven := forgiven s |}.
Definition with_qpc x s := {| node := node s; fpc := fpc s; qpc := x; wpc := wpc s; calls := calls s;
  waits := waits s; f_result := f_result s; q_result := q_result s; sent := sent s; seen := seen s;
  absorbed := absorbed s; forgiven := forgiven s |}.
Definition with_wpc x s := {| node := node s; fpc := fpc s; qpc := qpc s; wpc := x; calls := calls s;
  waits := waits s; f_result := f_result s; q_result := q_result s; sent := sent s; seen := seen s;
  absorbed := absorbed s; forgiven := forgiven s |}.
Definition with_calls x s := {| node := node s; fpc := fpc s; qpc := qpc s; wpc := wpc s; calls := x;
  waits := waits s; f_result := f_result s; q_result := q_result s; sent := sent s; seen := seen s;
  absorbed := absorbed s; forgiven := forgiven s |}.
Definition with_waits x s := {| node := node s; fpc := fpc s; qpc := qpc s; wpc := wpc s; calls := calls s;
  waits := x; f_result := f_result s; q_result := q_result s; sent := sent s; seen := seen s;
  absorbed := absorbed s; forgiven := forgiven s |}.
Definition with_f_result x s := {| node := node s; fpc := fpc s; qpc := qpc s; wpc := wpc s; calls := calls s;
  waits := waits s; f_result := Some x; q_result := q_result s; sent := sent s; seen := seen s;
  absorbed := absorbed s; forgiven := forgiven s |}.
Definition with_q_result x s := {| node := node s; fpc := fpc s; qpc := qpc s; wpc := wpc s; calls := calls s;
  waits := waits s; f_result := f_result s; q_result := Some x; sent := sent s; seen := seen s;
  absorbed := absorbed s; forgiven := forgiven s |}.
Definition more_sent x s := {| node := node s; fpc := fpc s; qpc := qpc s; wpc := wpc s; calls := calls s;
  waits := waits s; f_result := f_result s; q_result := q_result s; sent := sent s + x; seen := seen s;
  absorbed := absorbed s; forgiven := forgiven s |}.
Definition more_seen x s := {| node := node s; fpc := fpc s; qpc := qpc s; wpc := wpc s; calls := calls s;
  waits := waits s; f_result := f_result s; q_result := q_result s; sent := sent s; seen := seen s + x;
  absorbed := absorbed s; forgiven := forgiven s |}.
Definition more_absorbed x s := {| node := node s; fpc := fpc s; qpc := qpc s; wpc := wpc s; calls := calls s;
  waits := waits s; f_result := f_result s; q_result := q_result s; sent := sent s; seen := seen s;
  absorbed := absorbed s + x; forgiven := forgiven s |}.
Definition more_forgiven x s := {| node := node s; fpc := fpc s; qpc := qpc s; wpc := wpc s; calls := calls s;
  waits := waits s; f_result := f_result s; q_result := q_result s; sent := sent s; seen := seen s;
  absorbed := absorbed s; forgiven := forgiven s + x |}.

(** [waker.wake()]: a future that waited with it no longer does. *)
Definition wake (w : Waker) (s : Sys) : Sys := with_waits (unless_woken [w] (waits s)) s.

(** ** Steps *)

Definition Step : Type := Result Sys Stop.

(** Every access needs the node to be there. *)
Definition alive (n : Node) : Result unit Stop := if live n then Ok tt else Err Freed.

(** The slot the future is about to touch, and the wake list's. *)
Definition f_slot (pc : FuturePc) : option bool :=
  match pc with FWrite _ t => Some (has CURRENT t) | FCancelTake s => Some (has CURRENT s) | _ => None end.
Definition w_slot (pc : WakePc) : option bool := match pc with WSlot s => Some (has TAKEN s) | _ => None end.

Definition slots_apart (s : Sys) : bool :=
  match f_slot (fpc s), w_slot (wpc s) with Some a, Some b => negb (Bool.eqb a b) | _, _ => true end.

(** *** The future *)

(** The word [park] registers with: the current slot is one that no take under
    way reads. *)
Definition register (s : Z) : Z :=
  let current := if has TAKING s then negb (has TAKEN s) else has CURRENT s in
  with_ (if current then CURRENT else 0) (with_ REGISTERING (without (Z.lor ARMED CURRENT) s)).

(** The slot of a registration: a waker for the same task stays. *)
Definition store_waker (w : Waker) (target : Z) (n : Node) : Node :=
  match slot target CURRENT n with
  | Some old => if will_wake old w then n else set_slot target CURRENT (Some w) n
  | None => set_slot target CURRENT (Some w) n
  end.

Definition marked (s : Z) : bool := in_phase GRANTED s || has NUDGED s.

(** [Seen], once [park] has settled the node on [s]. *)
Definition settled (w : Waker) (st : Z) (s : Sys) : Sys :=
  if in_phase GRANTED st then with_fpc FPayload (more_absorbed (Z.b2z (has NUDGED st)) s)
  else if has NUDGED st then with_fpc (FIdle None) (with_f_result ParkNudged (more_seen 1 s))
  else with_fpc (FIdle None) (with_f_result ParkPending (with_waits (Some w) s)).

Definition future_step (spurious : bool) (s : Sys) : Step :=
  let n := node s in
  let? _ := match fpc s with FIdle _ | FGone _ => Err Disabled | _ => alive n end in
  match fpc s with
  | FIdle _ | FGone _ => Err Disabled
  | FLoad w => Ok (with_fpc (FTry w (word n)) s)
  | FTry w st =>
      if in_phase GRANTED st then Ok (with_fpc FPayload s)
      else if has NUDGED st then
        match compare_exchange spurious st (without NUDGED st) n with
        | (n, true) => Ok (with_fpc (FIdle None) (with_f_result ParkNudged (more_seen 1 (with_node n s))))
        | (n, false) => Ok (with_fpc (FTry w (word n)) s)
        end
      else
        match compare_exchange spurious st (register st) n with
        | (n, true) => Ok (with_fpc (FWrite w (register st)) (with_node n s))
        | (n, false) => Ok (with_fpc (FTry w (word n)) s)
        end
  | FWrite w target =>
      let? _ := exclusive (slots_apart s) in
      Ok (with_fpc (FSettleLoad w) (with_node (store_waker w target n) s))
  | FSettleLoad w => Ok (with_fpc (FSettle w (word n)) s)
  | FSettle w st =>
      match compare_exchange spurious st (with_ ARMED (without (Z.lor REGISTERING NUDGED) st)) n with
      | (n, true) => Ok (settled w st (with_node n s))
      | (n, false) => Ok (with_fpc (FSettle w (word n)) s)
      end
  | FSpinLoad w k => Ok (with_fpc (FSpin w k (word n)) s)
  | FSpin w k st =>
      if marked st then Ok (with_fpc (FLoad w) s)
      else if negb (has ARMED st) then Ok (with_fpc (FMarked w k) s)
      else
        match compare_exchange spurious st (without ARMED st) n with
        | (n, true) => Ok (with_fpc (FMarked w k) (with_node n s))
        | (n, false) => Ok (with_fpc (FSpin w k (word n)) s)
        end
  | FMarked w k =>
      match k with
      | O => Ok (with_fpc (FLoad w) s)
      | S k => Ok (with_fpc (if marked (word n) then FLoad w else FMarked w k) s)
      end
  | FAsk f =>
      if in_phase GRANTED (word n) then Ok (with_fpc FPayload (with_waits None s))
      else Ok (with_fpc (FIdle f) (with_f_result NotGranted s))
  | FOweLoad f => Ok (with_fpc (FOwe f (word n)) s)
  | FOwe f st =>
      if negb (in_phase WAITING st) then Ok (with_fpc (FIdle f) (with_f_result (Owed false) s))
      else
        match compare_exchange spurious st (with_ OWED st) n with
        | (n, true) => Ok (with_fpc (FIdle f) (with_f_result (Owed true) (with_node n s)))
        | (n, false) => Ok (with_fpc (FOwe f (word n)) s)
        end
  | FUnoweLoad f => Ok (with_fpc (FUnowe f (word n)) s)
  | FUnowe f st =>
      if negb (in_phase WAITING st) || negb (has OWED st)
      then Ok (with_fpc (FIdle f) (with_f_result (Unowed false) s))
      else
        match compare_exchange spurious st (without OWED st) n with
        | (n, true) => Ok (with_fpc (FIdle f) (with_f_result (Unowed true) (with_node n s)))
        | (n, false) => Ok (with_fpc (FUnowe f (word n)) s)
        end
  | FCancelLoad => Ok (with_fpc (FCancel (word n)) s)
  | FCancel st =>
      if in_phase GRANTED st then Ok (with_fpc FPayload s)
      else
        match compare_exchange spurious st (with_ CANCELLED (without ARMED st)) n with
        | (n, true) =>
            let pc := if has ARMED st then FCancelTake st else FRelease (Withdrew (has NUDGED st)) in
            Ok (with_fpc pc (with_node n s))
        | (n, false) => Ok (with_fpc (FCancel (word n)) s)
        end
  | FCancelTake st =>
      let? _ := exclusive (slots_apart s) in
      Ok (with_fpc (FRelease (Withdrew (has NUDGED st))) (with_node (set_slot st CURRENT None n) s))
  | FPayload => Ok (with_fpc (FRelease (WasGranted (payload n))) s)
  | FRelease o =>
      let pc := if Z.land (word n) REFS =? FUTURE_REF then FPut o else FGone o in
      Ok (with_fpc pc (with_node (set_word (without FUTURE_REF (word n)) n) s))
  | FPut o => Ok (with_fpc (FGone o) (with_node (put n) s))
  end.

(** *** The queue *)

(** [touch], once it has read [st]: it sets the bit of a node that waits, and
    claims its waker when it can; then [grant] goes on to let the node go, and
    [nudge] answers whether a nudge is on its way. *)
Definition touched (grants : bool) (spurious : bool) (st : Z) (s : Sys) : Step :=
  let bit := if grants then GRANTED else NUDGED in
  let answers (sent : bool) (s : Sys) :=
    if grants then with_qpc (QOwed sent) s else with_qpc QIdle (with_q_result (NudgeOut sent) s) in
  if negb (in_phase WAITING st) then Ok (answers false s)
  else if negb grants && has bit st then Ok (answers true s)
  else
    let take := claimable st in
    match compare_exchange spurious st (with_ bit (if take then claim st else st)) (node s) with
    | (n, true) =>
        let s := more_sent (Z.b2z (negb grants)) (answers true (with_node n s)) in
        if take then match wpc s with WNone => Ok (with_wpc WListed s) | _ => Err Races end else Ok s
    | (n, false) => Ok (with_qpc (QTouch grants (word n)) s)
    end.

(** [grant], [nudge], the prune of a withdrawn node, and [release_queued]. *)
Definition queue_step (spurious : bool) (s : Sys) : Step :=
  let n := node s in
  let? _ := match qpc s with QIdle | QGone _ => Err Disabled | _ => alive n end in
  match qpc s with
  | QIdle | QGone _ => Err Disabled
  | QPayload p => Ok (with_qpc (QTouchLoad true) (with_node (set_payload p n) s))
  | QTouchLoad grants => Ok (with_qpc (QTouch grants (word n)) s)
  | QTouch grants st => touched grants spurious st s
  | QPrune =>
      if in_phase CANCELLED (word n) then Ok (with_qpc (QOwed false) s)
      else Ok (with_qpc QIdle (with_q_result Kept s))
  | QOwed g => Ok (with_qpc (QRelease g) (more_forgiven (Z.b2z (has OWED (word n))) s))
  | QRelease g =>
      let pc := if Z.land (word n) REFS =? QUEUE_REF then QPut g else QGone g in
      Ok (with_qpc pc (with_node (set_word (without QUEUE_REF (word n)) n) s))
  | QPut g => Ok (with_qpc (QGone g) (with_node (put n) s))
  end.

(** *** The wake list *)

Definition later (o : option Waker) (s : Sys) : Sys :=
  with_calls (calls s ++ match o with Some w => [w] | None => [] end) s.

(** [pop] and [take_claimed]. *)
Definition wake_step (spurious : bool) (s : Sys) : Step :=
  let n := node s in
  match wpc s with
  | WNone => Err Disabled
  | WListed => let? _ := alive n in Ok (with_wpc (WSlot (word n)) s)
  | WSlot st =>
      let? _ := alive n in
      let? _ := exclusive (slots_apart s) in
      Ok (with_wpc (WTake st (slot st TAKEN n)) (with_node (set_slot st TAKEN None n) s))
  | WTake st o =>
      let? _ := alive n in
      let again := (Z.land st (Z.lor ARMED REGISTERING) =? ARMED) && (has NUDGED st || in_phase GRANTED st) in
      let next := if again then claim (without TAKING st) else without (Z.lor TAKING WAKE_REF) st in
      match compare_exchange spurious st next n with
      | (n, true) =>
          let s := with_node n s in
          if again then Ok (with_wpc (WAgain o) s)
          else if Z.land st REFS =? WAKE_REF then Ok (with_wpc (WPut o) s)
          else Ok (with_wpc WNone (later o s))
      | (n, false) => Ok (with_wpc (WTake (word n) o) s)
      end
  | WAgain o => Ok (with_wpc WListed (match o with Some w => wake w s | None => s end))
  | WPut o =>
      let? _ := alive n in
      Ok (with_wpc WNone (later o (with_node (put n) s)))
  end.

(** ** The system *)

(** Calls, when the party is in none, and steps. A step says whether its
    compare-and-swap, if it is one, fails for no reason. [Call]: a wake list
    calls one of the wakers it took. *)
Inductive Act : Type :=
| ParkFresh
| Park (w : Waker)
| SpinPark (w : Waker) (rounds : nat)
| AskGranted
| Owe
| Unowe
| Cancel
| FutureStep (spurious : bool)
| Grant (p : option Z)
| Nudge
| Prune
| QueueStep (spurious : bool)
| WakeStep (spurious : bool)
| Call (i : nat).

Definition act (a : Act) (s : Sys) : Step :=
  match a, fpc s, qpc s with
  | ParkFresh, FIdle (Some w), _ => Ok (with_fpc (FSettleLoad w) s)
  | Park w, FIdle None, _ => Ok (with_fpc (FLoad w) (with_waits None s))
  | SpinPark w k, FIdle None, _ =>
      Ok (with_fpc (match k with O => FLoad w | _ => FSpinLoad w k end) (with_waits None s))
  | AskGranted, FIdle f, _ => Ok (with_fpc (FAsk f) s)
  | Owe, FIdle f, _ => Ok (with_fpc (FOweLoad f) s)
  | Unowe, FIdle f, _ => Ok (with_fpc (FUnoweLoad f) s)
  | Cancel, FIdle _, _ => Ok (with_fpc FCancelLoad (with_waits None s))
  | FutureStep b, _, _ => future_step b s
  | Grant p, _, QIdle =>
      Ok (with_qpc (match p with Some p => QPayload p | None => QTouchLoad true end) s)
  | Nudge, _, QIdle => Ok (with_qpc (QTouchLoad false) s)
  | Prune, _, QIdle => Ok (with_qpc QPrune s)
  | QueueStep b, _, _ => queue_step b s
  | WakeStep b, _, _ => wake_step b s
  | Call i, _, _ =>
      match calls s !! i with
      | Some w => Ok (wake w (with_calls (delete i (calls s)) s))
      | None => Err Disabled
      end
  | _, _, _ => Err Disabled
  end.

Definition acts : list Act -> Sys -> Step := run act.
