(* ===== verification/WaiterNodeInv.v ===== *)
(** * The invariant of a waiter node

    The word of [sync/waiter/node.rs] taken apart into its bits ([view]), and
    what holds of a node at every step of its future, its queue and its wake
    list: who holds a reference, which slot each may touch, where the waker of
    a future that waits is. *)

From S2P Require Import Prelude AtomicWaits WaiterNode.
Open Scope Z_scope.

(** ** The word taken apart *)

(** Its bits from the lowest: granted, cancelled, registering, armed, taking,
    the current slot, the taken slot, nudged, owed, and the references of the
    queue, the future and the wake list. *)
Inductive View : Type := Mk (gra can reg arm tak cur tkn ndg owd rq rf rw : bool).

Definition view (s : Z) : View :=
  Mk (Z.testbit s 0) (Z.testbit s 1) (Z.testbit s 2) (Z.testbit s 3) (Z.testbit s 4) (Z.testbit s 5)
     (Z.testbit s 6) (Z.testbit s 7) (Z.testbit s 8) (Z.testbit s 9) (Z.testbit s 10) (Z.testbit s 11).

#[local] Arguments Z.testbit : simpl never.

Lemma high_testbit m i : 0 <= m < 4096 -> 12 <= i -> Z.testbit m i = false.
Proof.
  intros Hm Hi. destruct (Z.eq_dec m 0) as [-> |]; [by apply Z.testbit_0_l |].
  apply Z.bits_above_log2; [lia |]. assert (Z.log2 m < 12); [| lia]. apply Z.log2_lt_pow2; lia.
Qed.

Definition bits : list Z := [0; 1; 2; 3; 4; 5; 6; 7; 8; 9; 10; 11].

(** A comparison of some bits is one of each. *)
Lemma land_eqb s m c :
  0 <= m < 4096 -> 0 <= c < 4096 ->
  (Z.land s m =? c) = forallb (fun i => Bool.eqb (Z.testbit s i && Z.testbit m i) (Z.testbit c i)) bits.
Proof.
  intros Hm Hc. apply eq_true_iff_eq. rewrite Z.eqb_eq, forallb_forall. split.
  - intros <- i _. rewrite Z.land_spec. apply eqb_reflx.
  - intros H. apply Z.bits_inj'. intros i Hi. rewrite Z.land_spec. destruct (Z.lt_ge_cases i 12).
    + apply eqb_true_iff, H. unfold bits, In. lia.
    + rewrite (high_testbit m), (high_testbit c) by lia. apply andb_false_r.
Qed.

Lemma parts {s g c r a t u k n o q f w} :
  view s = Mk g c r a t u k n o q f w ->
  Z.testbit s 0 = g /\ Z.testbit s 1 = c /\ Z.testbit s 2 = r /\ Z.testbit s 3 = a /\ Z.testbit s 4 = t /\
  Z.testbit s 5 = u /\ Z.testbit s 6 = k /\ Z.testbit s 7 = n /\ Z.testbit s 8 = o /\ Z.testbit s 9 = q /\
  Z.testbit s 10 = f /\ Z.testbit s 11 = w.
Proof. unfold view. intros Hv. injection Hv. tauto. Qed.

(** Reads every bit of [s], computes those of the masks, and goes through what
    is left. *)
Ltac read_bits Hv :=
  repeat (rewrite Z.lor_spec || rewrite Z.ldiff_spec);
  destruct (parts Hv) as (-> & -> & -> & -> & -> & -> & -> & -> & -> & -> & -> & ->); clear Hv;
  repeat match goal with
  | |- context [Z.testbit ?m ?i] =>
      let b := eval vm_compute in (Z.testbit m i) in
      match b with true => change (Z.testbit m i) with true | false => change (Z.testbit m i) with false end
  end;
  rewrite ?andb_false_r, ?andb_true_r, ?orb_false_r, ?orb_true_r; cbn [negb andb orb Bool.eqb];
  rewrite ?andb_false_r, ?andb_true_r, ?orb_false_r, ?orb_true_r.
Ltac by_cases :=
  repeat match goal with |- context [?b] => is_var b; match type of b with bool => destruct b end end; reflexivity.
Ltac by_test Hv := unfold in_phase, has, claimable; rewrite !land_eqb by (vm_compute; split; congruence);
  cbn [forallb bits]; read_bits Hv; by_cases.

Ltac by_view Hv := unfold view, with_, without; read_bits Hv; f_equal; by_cases.

Section parts.
Context {s : Z} {g c r a t u k n o q f w : bool}.
Context (Hv : view s = Mk g c r a t u k n o q f w).

Lemma test_waiting : in_phase WAITING s = negb g && negb c.
Proof using Hv. by_test Hv. Qed.
Lemma test_granted : in_phase GRANTED s = g && negb c.
Proof using Hv. by_test Hv. Qed.
Lemma test_cancelled : in_phase CANCELLED s = negb g && c.
Proof using Hv. by_test Hv. Qed.
Lemma test_current : has CURRENT s = u.
Proof using Hv. by_test Hv. Qed.
Lemma test_taken : has TAKEN s = k.
Proof using Hv. by_test Hv. Qed.
Lemma test_taking : has TAKING s = t.
Proof using Hv. by_test Hv. Qed.
Lemma test_armed : has ARMED s = a.
Proof using Hv. by_test Hv. Qed.
Lemma test_nudged : has NUDGED s = n.
Proof using Hv. by_test Hv. Qed.
Lemma test_owed : has OWED s = o.
Proof using Hv. by_test Hv. Qed.
Lemma test_claimable : claimable s = a && negb r && negb t.
Proof using Hv. by_test Hv. Qed.
Lemma test_again : (Z.land s (Z.lor ARMED REGISTERING) =? ARMED) = a && negb r.
Proof using Hv. by_test Hv. Qed.
Lemma test_last_future : (Z.land s REFS =? FUTURE_REF) = f && negb q && negb w.
Proof using Hv. by_test Hv. Qed.
Lemma test_last_queue : (Z.land s REFS =? QUEUE_REF) = q && negb f && negb w.
Proof using Hv. by_test Hv. Qed.
Lemma test_last_wake : (Z.land s REFS =? WAKE_REF) = w && negb q && negb f.
Proof using Hv. by_test Hv. Qed.

Lemma view_granted : view (with_ GRANTED s) = Mk true c r a t u k n o q f w.
Proof using Hv. by_view Hv. Qed.
Lemma view_nudged : view (with_ NUDGED s) = Mk g c r a t u k true o q f w.
Proof using Hv. by_view Hv. Qed.
Lemma view_looked : view (without NUDGED s) = Mk g c r a t u k false o q f w.
Proof using Hv. by_view Hv. Qed.
Lemma view_settled : view (with_ ARMED (without (Z.lor REGISTERING NUDGED) s)) = Mk g c false true t u k false o q f w.
Proof using Hv. by_view Hv. Qed.
Lemma view_disarmed : view (without ARMED s) = Mk g c r false t u k n o q f w.
Proof using Hv. by_view Hv. Qed.
Lemma view_owed : view (with_ OWED s) = Mk g c r a t u k n true q f w.
Proof using Hv. by_view Hv. Qed.
Lemma view_unowed : view (without OWED s) = Mk g c r a t u k n false q f w.
Proof using Hv. by_view Hv. Qed.
Lemma view_cancelled : view (with_ CANCELLED (without ARMED s)) = Mk g true r false t u k n o q f w.
Proof using Hv. by_view Hv. Qed.
Lemma view_untaking : view (without TAKING s) = Mk g c r a false u k n o q f w.
Proof using Hv. by_view Hv. Qed.
Lemma view_untaken : view (without (Z.lor TAKING WAKE_REF) s) = Mk g c r a false u k n o q f false.
Proof using Hv. by_view Hv. Qed.
Lemma view_no_future : view (without FUTURE_REF s) = Mk g c r a t u k n o q false w.
Proof using Hv. by_view Hv. Qed.
Lemma view_no_queue : view (without QUEUE_REF s) = Mk g c r a t u k n o false f w.
Proof using Hv. by_view Hv. Qed.
Lemma view_claimed : view (claim s) = Mk g c r false true u u n o q f true.
Proof using Hv. unfold claim. rewrite test_current. destruct u; by_view Hv. Qed.
Lemma view_registered :
  view (register s) = let b := if t then negb k else u in Mk g c true false t b k n o q f w.
Proof using Hv. unfold register. rewrite test_taking, test_taken, test_current. destruct t, k, u; by_view Hv. Qed.
End parts.

(** ** The parties *)

Definition f_holds (pc : FuturePc) : bool := match pc with FPut _ | FGone _ => false | _ => true end.
Definition q_holds (pc : QueuePc) : bool := match pc with QPut _ | QGone _ => false | _ => true end.
Definition w_holds (pc : WakePc) : bool := match pc with WNone | WPut _ => false | _ => true end.
Definition f_puts (pc : FuturePc) : bool := match pc with FPut _ => true | _ => false end.
Definition q_puts (pc : QueuePc) : bool := match pc with QPut _ => true | _ => false end.
Definition w_puts (pc : WakePc) : bool := match pc with WPut _ => true | _ => false end.

Definition sl (b : bool) (n : Node) : option Waker := if b then slot1 n else slot0 n.

(** Where the future is between its looks: what it left in the node. *)
Definition fresh_ok (fresh : option Waker) (r u : bool) (n : Node) : Prop :=
  match fresh with Some w => r = true /\ sl u n = Some w | None => r = false end.

Definition outcome_ok (o : Outcome) (g c a ndg : bool) (n : Node) : Prop :=
  match o with
  | WasGranted p => g = true /\ p = payload n
  | Withdrew b => c = true /\ b = ndg /\ a = false
  end.

Definition future_ok (pc : FuturePc) (g c r a t u k ndg : bool) (n : Node) : Prop :=
  match pc with
  | FIdle f | FAsk f | FOweLoad f | FOwe f _ | FUnoweLoad f | FUnowe f _ => c = false /\ fresh_ok f r u n
  | FLoad _ | FSpinLoad _ _ | FSpin _ _ _ | FMarked _ _ => c = false /\ r = false
  | FTry _ st => c = false /\ r = false /\ (in_phase GRANTED st = true -> g = true)
  | FWrite _ target => c = false /\ r = true /\ has CURRENT target = u
  | FSettleLoad w | FSettle w _ => c = false /\ r = true /\ sl u n = Some w
  | FCancelLoad => c = false
  | FCancel st => c = false /\ (in_phase GRANTED st = true -> g = true)
  | FCancelTake st =>
      c = true /\ a = false /\ has CURRENT st = u /\ has NUDGED st = ndg /\ (t = true -> k = negb u)
  | FPayload => g = true /\ c = false
  | FRelease o | FPut o | FGone o => outcome_ok o g c a ndg n
  end.

(** The queue lets go of a node that no longer waits. *)
Definition queue_ok (pc : QueuePc) (g c o : bool) (forgiven : Z) : Prop :=
  match pc with
  | QIdle | QPayload _ | QTouchLoad _ | QPrune => g = false /\ forgiven = 0
  | QTouch _ st => g = false /\ forgiven = 0 /\ (in_phase WAITING st = false -> c = true)
  | QOwed gr => forgiven = 0 /\ (if gr then g = true else c = true)
  | QRelease gr | QPut gr | QGone gr => forgiven = Z.b2z o /\ (if gr then g = true else c = true)
  end.

Definition wake_ok (pc : WakePc) (k : bool) : Prop :=
  match pc with WSlot st => has TAKEN st = k | _ => True end.

(** The waker is where the wake list finds it, or in its hands. *)
Definition in_hand (pc : WakePc) (k : bool) (n : Node) (calls : list Waker) (x : Waker) : Prop :=
  x ∈ calls \/
  match pc with
  | WNone => False
  | WListed | WSlot _ => sl k n = Some x
  | WTake _ o | WPut o => o = Some x
  | WAgain o => o = Some x \/ sl k n = Some x
  end.

Definition waiting_pc (pc : FuturePc) : Prop :=
  match pc with
  | FIdle None | FAsk None | FOweLoad None | FOwe None _ | FUnoweLoad None | FUnowe None _ => True
  | _ => False
  end.

(** A future that waits: its waker is armed, and a mark it has not seen is one
    that the wake list will see; or its waker is on its way. *)
Definition waits_ok (fpc : FuturePc) (wpc : WakePc) (g a t u k ndg : bool) (n : Node) (calls : list Waker)
    (o : option Waker) : Prop :=
  forall x, o = Some x ->
  waiting_pc fpc /\
  ((a = true /\ sl u n = Some x /\ (g || ndg = true -> t = true)) \/
   (a = false /\ in_hand wpc k n calls x)).

(** The node goes back to its pool once, when nobody holds it. *)
Record live_ok (s : Sys) (q f w : bool) : Prop := {
  l_live : live (node s) = q || f || w || f_puts (fpc s) || q_puts (qpc s) || w_puts (wpc s);
  l_one : f_puts (fpc s) || q_puts (qpc s) || w_puts (wpc s) = true -> q || f || w = false;
  l_fq : f_puts (fpc s) && q_puts (qpc s) = false;
  l_fw : f_puts (fpc s) && w_puts (wpc s) = false;
  l_qw : q_puts (qpc s) && w_puts (wpc s) = false }.

Record inv_at (g c r a t u k n o q f w : bool) (s : Sys) : Prop := {
  i_view : view (word (node s)) = Mk g c r a t u k n o q f w;
  i_phase : g && c = false;
  i_f : f = f_holds (fpc s);
  i_q : q = q_holds (qpc s);
  i_w : w = w_holds (wpc s);
  i_t : t = w;
  i_reg : r = true -> a = false;
  i_apart : t = true -> a || r = true -> k = negb u;
  i_live : live_ok s q f w;
  i_future : future_ok (fpc s) g c r a t u k n (node s);
  i_queue : queue_ok (qpc s) g c o (forgiven s);
  i_wake : wake_ok (wpc s) k;
  i_waits : waits_ok (fpc s) (wpc s) g a t u k n (node s) (calls s) (waits s);
  i_counts : sent s = seen s + absorbed s + Z.b2z n }.

Definition inv (s : Sys) : Prop := exists g c r a t u k n o q f w, inv_at g c r a t u k n o q f w s.

Lemma enqueued_inv p w : inv (enqueued p w).
Proof.
  exists false, false, true, false, false, false, false, false, false, true, true, false.
  constructor; cbn; try done; by constructor.
Qed.
