(* ===== verification/WaiterNodeFuture.v ===== *)
(** * The future's steps on a waiter node

    The invariant of [sync/waiter/node.rs] under [park], [spin_park],
    [granted], [owe], [unowe] and [cancel] of [sync/waiter/wait.rs]. *)

From S2P Require Import Prelude AtomicWaits WaiterNode WaiterNodeInv.
Open Scope Z_scope.

(** ** Steps *)

Lemma exchange_spec b current next n n' ok :
  compare_exchange b current next n = (n', ok) ->
  if ok : bool then word n = current /\ n' = set_word next n else n' = n.
Proof.
  unfold compare_exchange. destruct (negb b && (word n =? current)) eqn:E; intros [= <- <-]; [| done].
  apply andb_true_iff in E as [_ E%Z.eqb_eq]. done.
Qed.

Section future.
Context {g c r a t u k n o q f w : bool} {s : Sys}.
Context (H : inv_at g c r a t u k n o q f w s).

Lemma future_alive : f_holds (fpc s) || f_puts (fpc s) = true -> live (node s) = true.
Proof using H.
  intros Hf. destruct H as [_ _ Ef _ _ _ _ _ [Hl _ _ _ _] _ _ _ _ _]. rewrite Hl, Ef.
  apply orb_true_iff in Hf as [-> | ->]; by rewrite ?orb_true_r.
Qed.

(** The future moves on without touching the node. *)
Lemma future_move pc res o' :
  f_holds (fpc s) = true -> f_holds pc = true ->
  future_ok pc g c r a t u k n (node s) ->
  (forall x, o' = Some x -> waits s = Some x /\ waiting_pc pc) ->
  inv (with_fpc pc {| node := node s; fpc := fpc s; qpc := qpc s; wpc := wpc s; calls := calls s; waits := o';
    f_result := res; q_result := q_result s; sent := sent s; seen := seen s; absorbed := absorbed s; forgiven := forgiven s |}).
Proof using H.
  intros Hh Hh' Hok Ho. destruct H as [Hv Hph Ef Eq Ew Et Hreg Hap Hl Hf Hq Hw Hwa Hc]. clear H.
  assert (f_puts (fpc s) = false /\ f_puts pc = false) as [Hp Hp'] by (destruct (fpc s), pc; done).
  exists g, c, r, a, t, u, k, n, o, q, f, w. constructor; cbn; try done.
  - by rewrite Hh', <- Hh.
  - destruct Hl. constructor; cbn; rewrite ?Hp' in *; rewrite ?Hp in *; done.
  - intros x Hx. destruct (Ho x Hx) as [Hs Hpc]. destruct (Hwa x Hs) as [_ Hr]. done.
Qed.

(** The future changes the word. *)
Lemma future_swap next pc c' r' a' u' n' o' res wa se ab :
  f_holds (fpc s) = true -> f_holds pc = true ->
  view next = Mk g c' r' a' t u' k n' o' q f w ->
  g && c' = false -> (r' = true -> a' = false) -> (t = true -> a' || r' = true -> k = negb u') ->
  future_ok pc g c' r' a' t u' k n' (node s) ->
  queue_ok (qpc s) g c' o' (forgiven s) ->
  waits_ok pc (wpc s) g a' t u' k n' (node s) (calls s) wa ->
  sent s = se + ab + Z.b2z n' ->
  inv {| node := set_word next (node s); fpc := pc; qpc := qpc s; wpc := wpc s; calls := calls s; waits := wa;
    f_result := res; q_result := q_result s; sent := sent s; seen := se; absorbed := ab; forgiven := forgiven s |}.
Proof using H.
  intros Hh Hh' Hv' Hph' Hreg' Hap' Hok Hq' Hwa' Hc'.
  destruct H as [Hv Hph Ef Eq Ew Et Hreg Hap Hl Hf Hq Hw Hwa Hc]. clear H.
  assert (f_puts (fpc s) = false /\ f_puts pc = false) as [Hp Hp'] by (destruct (fpc s), pc; done).
  exists g, c', r', a', t, u', k, n', o', q, f, w. constructor; cbn; try done.
  - by rewrite Hh', <- Hh.
  - destruct Hl. constructor; cbn; rewrite ?Hp' in *; rewrite ?Hp in *; done.
Qed.
End future.

Ltac cas :=
  match goal with |- context [compare_exchange ?b ?x ?y ?n] =>
    let n' := fresh "n'" in let ok := fresh "ok" in let E := fresh "E" in
    destruct (compare_exchange b x y n) as [n' ok] eqn:E; apply exchange_spec in E;
    destruct ok; [destruct E as [<- ->] | subst n']
  end.

(** What most moves leave to show. *)
Ltac side Hpc Hn :=
  cbn; rewrite ?Hpc, ?Hn; try done; try exact id; try (by apply andb_false_r); try (cbn in *; lia).

Section future_steps.
Context {g c r a t u k n o q f w : bool} {s : Sys}.
Context (H : inv_at g c r a t u k n o q f w s).

Lemma not_waiting : ~ waiting_pc (fpc s) -> waits s = None.
Proof using H.
  intros Hn. destruct (waits s) as [x|] eqn:E; [| done]. by destruct (i_waits _ _ _ _ _ _ _ _ _ _ _ _ _ H x E).
Qed.

(** A move out of a look, when nothing waits. *)
Lemma future_moves pc :
  ~ waiting_pc (fpc s) -> f_holds (fpc s) = true -> f_holds pc = true ->
  future_ok pc g c r a t u k n (node s) -> inv (with_fpc pc s).
Proof using H.
  intros Hn Hh Hh' Hok. apply (future_move H pc (f_result s) (waits s)); try done. by rewrite not_waiting.
Qed.

Lemma granted_now : in_phase GRANTED (word (node s)) = true -> g = true.
Proof using H. rewrite (test_granted (i_view _ _ _ _ _ _ _ _ _ _ _ _ _ H)). by intros [? _]%andb_true_iff. Qed.

End future_steps.

Lemma future_try b x st s :
  inv s -> fpc s = FTry x st -> match future_step b s with Ok s' => inv s' | Err e => e = Disabled end.
Proof.
  intros (g & c & r & a & t & u & k & n & o & q & f & w & H) Hpc. pose proof H as [Hv Hph Ef Eq Ew Et Hreg Hap Hl Hf Hq Hw Hwa Hc]. rewrite Hpc in Hf.
  destruct Hf as (-> & -> & Hg). assert (Hn : waits s = None) by (apply (not_waiting H); rewrite Hpc; exact id).
  unfold future_step, alive. rewrite Hpc, (future_alive H) by (by rewrite Hpc). cbn.
  destruct (in_phase GRANTED st) eqn:Eg; [apply (future_moves H); rewrite ?Hpc; try exact id; naive_solver |].
  destruct (has NUDGED st) eqn:En; cas.
  - rewrite (test_nudged Hv) in En. subst n.
    eapply (future_swap H); [.. | by apply (view_looked Hv) | | | | | | |]; side Hpc Hn.
  - apply (future_moves H); side Hpc Hpc. pose proof (granted_now H). tauto.
  - rewrite (test_nudged Hv) in En. subst n.
    eapply (future_swap H); [.. | by apply (view_registered Hv) | | | | | | |]; side Hpc Hn.
    + intros -> _. by rewrite negb_involutive.
    + split; [done |]. split; [done |]. by apply (test_current (view_registered Hv)).
  - apply (future_moves H); side Hpc Hpc. pose proof (granted_now H). tauto.
Qed.

(** The future, with no wait, changes a slot. *)
Lemma future_writes {g c r a t u k n o q f w s} (H : inv_at g c r a t u k n o q f w s) pc n' :
  waits s = None -> f_holds (fpc s) = true -> f_holds pc = true ->
  word n' = word (node s) -> payload n' = payload (node s) -> live n' = live (node s) ->
  future_ok pc g c r a t u k n n' -> inv (with_fpc pc (with_node n' s)).
Proof.
  intros Hn Hh Hh' Ew' Ep El Hok. pose proof H as [Hv Hph Ef Eq Ew Et Hreg Hap Hl Hf Hq Hw Hwa Hc].
  assert (f_puts (fpc s) = false /\ f_puts pc = false) as [Hp Hp'] by (destruct (fpc s), pc; done).
  exists g, c, r, a, t, u, k, n, o, q, f, w. constructor; cbn; try done.
  - by rewrite Ew'.
  - by rewrite Hh', <- Hh.
  - destruct Hl. constructor; cbn; rewrite ?El; rewrite ?Hp' in *; rewrite ?Hp in *; done.
  - by rewrite Hn.
Qed.

Lemma slots_are_apart {g c r a t u k n o q f w s} (H : inv_at g c r a t u k n o q f w s) :
  match f_slot (fpc s) with Some b => b = u /\ (t = true -> k = negb u) | None => True end -> slots_apart s = true.
Proof.
  intros Hf. unfold slots_apart. destruct (f_slot (fpc s)) as [b|]; [| done]. destruct Hf as [-> Hk].
  pose proof H as [Hv Hph Ef Eq Ew Et Hreg Hap Hl _ Hq Hw Hwa Hc].
  destruct (wpc s); try done. cbn in *. subst. rewrite Hk by done. by destruct u.
Qed.

Lemma store_waker_spec w0 tg n : 
  let n' := store_waker w0 tg n in
  word n' = word n /\ payload n' = payload n /\ live n' = live n /\ sl (has CURRENT tg) n' = Some w0.
Proof.
  cbn. unfold store_waker, slot, set_slot, sl. destruct (has CURRENT tg).
  - destruct (slot1 n) as [y|] eqn:E; [destruct (will_wake y w0) eqn:Ew |]; try done. 
    apply Z.eqb_eq in Ew. by subst.
  - destruct (slot0 n) as [y|] eqn:E; [destruct (will_wake y w0) eqn:Ew |]; try done. 
    apply Z.eqb_eq in Ew. by subst.
Qed.

Ltac start H Hpc :=
  intros (g & c & r & a & t & u & k & n & o & q & f & w & H) Hpc;
  pose proof H as [Hv Hph Ef Eq Ew Et Hreg Hap Hl Hf Hq Hw Hwa Hc]; rewrite Hpc in Hf;
  unfold future_step, alive; rewrite Hpc, (future_alive H) by (by rewrite Hpc); cbn.
Ltac no_wait H Hpc Hn := assert (Hn : waits _ = None) by (apply (not_waiting H); rewrite Hpc; exact id).

Lemma future_write b x tg s :
  inv s -> fpc s = FWrite x tg -> match future_step b s with Ok s' => inv s' | Err e => e = Disabled end.
Proof.
  start H Hpc. destruct Hf as (-> & -> & Ht). no_wait H Hpc Hn.
  rewrite (slots_are_apart H); [cbn | rewrite Hpc; cbn; split; [done |]; intros Et'; by apply Hap; rewrite ?orb_true_r].
  destruct (store_waker_spec x tg (node s)) as (? & ? & ? & Hsl).
  apply (future_writes H); side Hpc Hn. by rewrite <- Ht.
Qed.

Lemma future_settle b x st s :
  inv s -> fpc s = FSettle x st -> match future_step b s with Ok s' => inv s' | Err e => e = Disabled end.
Proof.
  start H Hpc. destruct Hf as (-> & -> & Hsl). no_wait H Hpc Hn. cas.
  - unfold settled. rewrite (test_granted Hv), (test_nudged Hv), andb_true_r.
    assert (t = true -> true || false = true -> k = negb u) as Hk by (intros Et' _; by apply Hap; rewrite ?orb_true_r).
    destruct g; [| destruct n]; cbn; eapply (future_swap H); (try by apply (view_settled Hv)); side Hpc Hn.
    intros y [= <-]. split; [done |]. left. done.
  - apply (future_moves H); side Hpc Hn.
Qed.

Lemma future_spin b x m st s :
  inv s -> fpc s = FSpin x m st -> match future_step b s with Ok s' => inv s' | Err e => e = Disabled end.
Proof.
  start H Hpc. destruct Hf as (-> & ->). no_wait H Hpc Hn.
  destruct (marked st); [apply (future_moves H); side Hpc Hn |].
  destruct (negb (has ARMED st)); [apply (future_moves H); side Hpc Hn |]. cas.
  - eapply (future_swap H); (try by apply (view_disarmed Hv)); side Hpc Hn.
  - apply (future_moves H); side Hpc Hn.
Qed.

(** A wait survives a move between two places where the future waits. *)
Lemma waits_move pc pc' wpc g a t u k n nd l o :
  waits_ok pc wpc g a t u k n nd l o -> (waiting_pc pc -> waiting_pc pc') -> waits_ok pc' wpc g a t u k n nd l o.
Proof. intros Hw Hpc x Hx. destruct (Hw x Hx) as [? ?]. auto. Qed.

Lemma future_answers {g c r a t u k n o q f w s} (H : inv_at g c r a t u k n o q f w s) pc res :
  f_holds (fpc s) = true -> f_holds pc = true -> (waiting_pc (fpc s) -> waiting_pc pc) ->
  future_ok pc g c r a t u k n (node s) ->
  inv {| node := node s; fpc := pc; qpc := qpc s; wpc := wpc s; calls := calls s; waits := waits s;
    f_result := res; q_result := q_result s; sent := sent s; seen := seen s; absorbed := absorbed s;
    forgiven := forgiven s |}.
Proof.
  intros Hh Hh' Hpc Hok. apply (future_move H pc res (waits s)); try done.
  intros x Hx. split; [done |]. apply Hpc. by destruct (i_waits _ _ _ _ _ _ _ _ _ _ _ _ _ H x Hx).
Qed.

Lemma queue_still g c o o' qpc z : queue_ok qpc g c o z -> g = false -> c = false -> queue_ok qpc g c o' z.
Proof. intros Hq -> ->. destruct qpc as [| | | | |[]|[]|[]|[]]; cbn in *; tauto || naive_solver. Qed.

Lemma waiting_now {g c r a t u k n o q f w s} (H : inv_at g c r a t u k n o q f w s) :
  in_phase WAITING (word (node s)) = true -> g = false /\ c = false.
Proof. rewrite (test_waiting (i_view _ _ _ _ _ _ _ _ _ _ _ _ _ H)). by destruct g, c. Qed.

Lemma future_owe b fr st s :
  inv s -> fpc s = FOwe fr st -> match future_step b s with Ok s' => inv s' | Err e => e = Disabled end.
Proof.
  start H Hpc. destruct Hf as (-> & Hfr). destruct (in_phase WAITING st) eqn:Ewt; cbn.
  - cas.
    + apply (waiting_now H) in Ewt as [-> _].
      eapply (future_swap H); (try by apply (view_owed Hv)); side Hpc Hpc; [by eapply queue_still |].
      rewrite Hpc in Hwa. by eapply waits_move; [done |]; destruct fr.
    + apply (future_answers H (FOwe fr (word (node s))) (f_result s)); side Hpc Hpc; by destruct fr.
  - apply (future_answers H (FIdle fr) (Some (Owed false))); side Hpc Hpc; by destruct fr.
Qed.

Lemma future_unowe b fr st s :
  inv s -> fpc s = FUnowe fr st -> match future_step b s with Ok s' => inv s' | Err e => e = Disabled end.
Proof.
  start H Hpc. destruct Hf as (-> & Hfr). destruct (in_phase WAITING st) eqn:Ewt; cbn; [destruct (has OWED st); cbn |].
  - cas.
    + apply (waiting_now H) in Ewt as [-> _].
      eapply (future_swap H); (try by apply (view_unowed Hv)); side Hpc Hpc; [by eapply queue_still |].
      rewrite Hpc in Hwa. by eapply waits_move; [done |]; destruct fr.
    + apply (future_answers H (FUnowe fr (word (node s))) (f_result s)); side Hpc Hpc; by destruct fr.
  - apply (future_answers H (FIdle fr) (Some (Unowed false))); side Hpc Hpc; by destruct fr.
  - apply (future_answers H (FIdle fr) (Some (Unowed false))); side Hpc Hpc; by destruct fr.
Qed.

Lemma future_cancel b st s :
  inv s -> fpc s = FCancel st -> match future_step b s with Ok s' => inv s' | Err e => e = Disabled end.
Proof.
  start H Hpc. destruct Hf as (-> & Hg). no_wait H Hpc Hn.
  destruct (in_phase GRANTED st) eqn:Eg; [apply (future_moves H); side Hpc Hn; split; auto |]. cas.
  - rewrite (test_granted Hv), andb_true_r in Eg. subst g. rewrite (test_armed Hv), (test_nudged Hv).
    assert (queue_ok (qpc s) false true o (forgiven s)) as Hq'.
    { destruct (qpc s) as [| | | | |[]|[]|[]|[]]; cbn in *; naive_solver. }
    destruct a; eapply (future_swap H); (try by apply (view_cancelled Hv)); side Hpc Hn.
    + intros _ Hr. assert (r = false) as Hr' by (destruct r; [by apply Hreg |done]). by rewrite Hr' in Hr.
    + split; [done |]. split; [done |]. rewrite (test_current Hv), (test_nudged Hv). auto.
  - apply (future_moves H); side Hpc Hn. pose proof (granted_now H). tauto.
Qed.

Lemma set_slot_spec st bit x n :
  let n' := set_slot st bit x n in
  word n' = word n /\ payload n' = payload n /\ live n' = live n /\ sl (has bit st) n' = x /\
  sl (negb (has bit st)) n' = sl (negb (has bit st)) n.
Proof. cbn. unfold set_slot, sl. by destruct (has bit st). Qed.

Lemma future_cancel_take b st s :
  inv s -> fpc s = FCancelTake st -> match future_step b s with Ok s' => inv s' | Err e => e = Disabled end.
Proof.
  start H Hpc. destruct Hf as (-> & -> & Hu & Hnd & Hk). no_wait H Hpc Hn.
  rewrite (slots_are_apart H); [cbn | by rewrite Hpc].
  destruct (set_slot_spec st CURRENT None (node s)) as (? & ? & ? & _).
  by apply (future_writes H); side Hpc Hn.
Qed.

Ltac bools := repeat match goal with b : bool |- _ => destruct b end; try done.

Lemma future_release b out s :
  inv s -> fpc s = FRelease out -> match future_step b s with Ok s' => inv s' | Err e => e = Disabled end.
Proof.
  start H Hpc. no_wait H Hpc Hn. rewrite (test_last_future Hv). rewrite Hpc in Ef. cbn in Ef. subst f. cbn.
  exists g, c, r, a, t, u, k, n, o, q, false, w. destruct Hl as [Hlive Hone Hfq Hfw Hqw]. rewrite Hpc in *. cbn in *.
  assert (q_puts (qpc s) = false /\ w_puts (wpc s) = false) as [Eqp Ewp].
  { rewrite orb_true_r in Hone. cbn in Hone. destruct (q_puts (qpc s)), (w_puts (wpc s)); naive_solver. }
  rewrite Eqp, Ewp in *.
  destruct q eqn:Eq', w eqn:Ew'; cbn; constructor; cbn; rewrite ?Hn; try done; try (by apply (view_no_future Hv));
    try (constructor; cbn; by rewrite ?Eqp, ?Ewp).
Qed.

Lemma future_put b out s :
  inv s -> fpc s = FPut out -> match future_step b s with Ok s' => inv s' | Err e => e = Disabled end.
Proof.
  start H Hpc. no_wait H Hpc Hn. destruct Hl as [Hlive Hone Hfq Hfw Hqw]. rewrite Hpc in *. cbn in *.
  specialize (Hone eq_refl). apply orb_false_iff in Hone as [[-> ->]%orb_false_iff ->].
  exists g, c, r, a, t, u, k, n, o, false, false, false. constructor; cbn; rewrite ?Hn; try done.
  constructor; cbn; by rewrite ?Hfq, ?Hfw.
Qed.

Lemma future_ok_step b s :
  inv s -> match future_step b s with Ok s' => inv s' | Err e => e = Disabled end.
Proof.
  intros Hi. destruct (fpc s) as [fr|x|x st|x tg|x|x st|x m|x m st|x m|fr|fr|fr st|fr|fr st| |st|st| |out|out|out] eqn:Hpc;
    try (by unfold future_step; rewrite Hpc);
    try first [by eapply future_try | by eapply future_write | by eapply future_settle | by eapply future_spin
      | by eapply future_owe | by eapply future_unowe | by eapply future_cancel | by eapply future_cancel_take
      | by eapply future_release | by eapply future_put].
  all: revert Hi Hpc; start H Hpc.
  - destruct Hf as [-> ->]. apply (future_moves H); side Hpc Hpc. pose proof (granted_now H). tauto.
  - destruct Hf as (-> & -> & Hf). by apply (future_moves H); side Hpc Hpc.
  - destruct Hf as (-> & ->). by apply (future_moves H); side Hpc Hpc.
  - destruct Hf as (-> & ->). destruct m as [|m]; [by apply (future_moves H); side Hpc Hpc |].
    destruct (marked (word (node s))); by apply (future_moves H); side Hpc Hpc.
  - destruct Hf as (-> & Hfr). destruct (in_phase GRANTED (word (node s))) eqn:Eg.
    + apply (future_move H FPayload (f_result s) None); side Hpc Hpc. by rewrite (granted_now H).
    + apply (future_answers H (FIdle fr) (Some NotGranted)); side Hpc Hpc; by destruct fr.
  - destruct Hf as (-> & Hfr). apply (future_answers H (FOwe fr _) (f_result s)); side Hpc Hpc; by destruct fr.
  - destruct Hf as (-> & Hfr). apply (future_answers H (FUnowe fr _) (f_result s)); side Hpc Hpc; by destruct fr.
  - rewrite Hf in *. apply (future_moves H); side Hpc Hpc. pose proof (granted_now H). tauto.
  - destruct Hf as (-> & ->). by apply (future_moves H); side Hpc Hpc.
Qed.
