(* ===== verification/WaiterNodeQueue.v ===== *)
(** * The queue's and the wake list's steps on a waiter node

    The invariant of [sync/waiter/node.rs] under [grant], [nudge] and the
    release of [sync/waiter/wake.rs], and under a wake list's [pop]. *)

From S2P Require Import Prelude AtomicWaits WaiterNode WaiterNodeInv WaiterNodeFuture.
Open Scope Z_scope.

(** ** The queue *)

Section queue.
Context {g c r a t u k n o q f w : bool} {s : Sys}.
Context (H : inv_at g c r a t u k n o q f w s).

Lemma queue_alive : q_holds (qpc s) || q_puts (qpc s) = true -> live (node s) = true.
Proof using H.
  intros Hf. destruct H as [_ _ _ Eq _ _ _ _ [Hl _ _ _ _] _ _ _ _ _]. rewrite Hl, Eq.
  apply orb_true_iff in Hf as [-> | ->]; by rewrite ?orb_true_r.
Qed.

(** The queue moves on without touching the node. *)
Lemma queue_move pc res z :
  q_holds (qpc s) = true -> q_holds pc = true -> queue_ok pc g c o z ->
  inv {| node := node s; fpc := fpc s; qpc := pc; wpc := wpc s; calls := calls s; waits := waits s;
    f_result := f_result s; q_result := res; sent := sent s; seen := seen s; absorbed := absorbed s;
    forgiven := z |}.
Proof using H.
  intros Hh Hh' Hok. destruct H as [Hv Hph Ef Eq Ew Et Hreg Hap Hl Hf Hq Hw Hwa Hc]. clear H.
  assert (q_puts (qpc s) = false /\ q_puts pc = false) as [Hp Hp'] by (destruct (qpc s), pc; done).
  exists g, c, r, a, t, u, k, n, o, q, f, w. constructor; cbn; try done.
  - by rewrite Hh', <- Hh.
  - destruct Hl. constructor; cbn; rewrite ?Hp' in *; rewrite ?Hp in *; done.
Qed.

(** A mark on a node that waits, with its waker claimed or not. *)
Lemma queue_swap next pc wp g' a' t' k' n' w' res se :
  q_holds (qpc s) = true -> q_holds pc = true ->
  view next = Mk g' c r a' t' u k' n' o q f w' ->
  g' && c = false -> (r = true -> a' = false) -> (t' = true -> a' || r = true -> k' = negb u) ->
  w' = w_holds wp -> t' = w' -> w_puts wp = w_puts (wpc s) ->
  (g = true -> g' = true) -> (c = true -> n' = n) -> (a = false -> a' = false) -> (t' = true -> a = false -> t = true /\ k' = k) ->
  queue_ok pc g' c o (forgiven s) -> wake_ok wp k' ->
  waits_ok (fpc s) wp g' a' t' u k' n' (node s) (calls s) (waits s) ->
  se = sent s + Z.b2z n' - Z.b2z n ->
  inv {| node := set_word next (node s); fpc := fpc s; qpc := pc; wpc := wp; calls := calls s; waits := waits s;
    f_result := f_result s; q_result := res; sent := se; seen := seen s; absorbed := absorbed s;
    forgiven := forgiven s |}.
Proof using H.
  intros Hh Hh' Hv' Hph' Hreg' Hap' Hw' Ht' Hwp Hg' Hn' Ha' Hk' Hok Hwk Hwa' Hse.
  destruct H as [Hv Hph Ef Eq Ew Et Hreg Hap Hl Hf Hq Hw Hwa Hc]. clear H.
  assert (q_puts (qpc s) = false /\ q_puts pc = false) as [Hp Hp'] by (destruct (qpc s), pc; done).
  exists g', c, r, a', t', u, k', n', o, q, f, w'. constructor; cbn; try done.
  - by rewrite Hh', <- Hh.
  - destruct Hl as [Hlive Hone Hfq Hfw Hqw]. rewrite Hh in Eq. subst q.
    constructor; cbn; rewrite ?Hwp; rewrite ?Hp' in *; rewrite ?Hp in *; done.
  - unfold future_ok, outcome_ok in *. destruct (fpc s); try done; try (destruct o0); naive_solver.
  - lia.
Qed.
End queue.

Lemma view_marked {s g c r a t u k n o q f w} (grants : bool) :
  view s = Mk g c r a t u k n o q f w ->
  view (with_ (if grants then GRANTED else NUDGED) s) =
    Mk (grants || g) c r a t u k (negb grants || n) o q f w.
Proof. intros Hv. destruct grants; cbn; [by apply (view_granted Hv) | by apply (view_nudged Hv)]. Qed.

Lemma wake_free {g c r a t u k n o q f s} (H : inv_at g c r a t u k n o q f false s) :
  q || f = true -> wpc s = WNone.
Proof.
  intros Hr. pose proof (i_w _ _ _ _ _ _ _ _ _ _ _ _ _ H) as Ew. destruct (i_live _ _ _ _ _ _ _ _ _ _ _ _ _ H) as [_ Hone _ _ _].
  destruct (wpc s); try done. cbn in Hone. rewrite !orb_true_r in Hone. specialize (Hone eq_refl).
  by rewrite orb_false_r, Hr in Hone.
Qed.

(** The mark claims the armed waker of a node nobody registers or takes from. *)
Lemma queue_claims {n o q f w s} u k (grants : bool) (H : inv_at false false false true false u k n o q f w s) pc res :
  (grants = false -> n = false) -> q_holds (qpc s) = true -> q_holds pc = true ->
  queue_ok pc grants false o (forgiven s) ->
  wpc s = WNone /\
  inv {| node := set_word (with_ (if grants then GRANTED else NUDGED) (claim (word (node s)))) (node s); fpc := fpc s;
    qpc := pc; wpc := WListed; calls := calls s; waits := waits s; f_result := f_result s; q_result := res;
    sent := sent s + Z.b2z (negb grants); seen := seen s; absorbed := absorbed s; forgiven := forgiven s |}.
Proof.
  intros Hnd Hh Hh' Hok. pose proof H as [Hv Hph Ef Eq Ew Et Hreg Hap Hl Hf Hq Hw Hwa Hc].
  destruct w; [done |]. rewrite Hh in Eq. subst q. assert (wpc s = WNone) as Hwn by (by apply (wake_free H)).
  split; [done |].
  apply (queue_swap H _ pc WListed (grants || false) false true u (negb grants || n) true); try done;
    [by apply (view_marked grants), (view_claimed Hv) |..]; try done.
  all: rewrite ?orb_false_r, ?andb_false_r, ?Hwn; try done.
  - intros x Hx. destruct (Hwa x Hx) as [Hpc [(_ & Hsl & _) | [? _]]]; [| done].
    split; [done |]. right. split; [done |]. right. exact Hsl.
  - destruct grants; cbn; [destruct n; cbn; lia |]. rewrite Hnd by done. cbn. lia.
Qed.

(** The mark finds no waker to claim. *)
Lemma queue_marks {r a t u k n o q f w s} (grants : bool) (H : inv_at false false r a t u k n o q f w s) pc res :
  (grants = false -> n = false) -> q_holds (qpc s) = true -> q_holds pc = true ->
  a && negb r && negb t = false -> queue_ok pc grants false o (forgiven s) ->
  inv {| node := set_word (with_ (if grants then GRANTED else NUDGED) (word (node s))) (node s); fpc := fpc s;
    qpc := pc; wpc := wpc s; calls := calls s; waits := waits s; f_result := f_result s; q_result := res;
    sent := sent s + Z.b2z (negb grants); seen := seen s; absorbed := absorbed s; forgiven := forgiven s |}.
Proof.
  intros Hnd Hh Hh' Hcl Hok. pose proof H as [Hv Hph Ef Eq Ew Et Hreg Hap Hl Hf Hq Hw Hwa Hc].
  apply (queue_swap H _ pc (wpc s) (grants || false) a t k (negb grants || n) w); try done;
    [by apply (view_marked grants Hv) |..]; try done.
  all: rewrite ?orb_false_r, ?andb_false_r; try done.
  - intros x Hx. destruct (Hwa x Hx) as [Hpc Hr]. split; [done |]. destruct Hr as [(-> & Hsl & Ht) | Hr]; [| by right].
    left. split; [done |]. split; [done |]. intros _.
    assert (r = false) as -> by (destruct r; [by apply Hreg | done]). by destruct t.
  - destruct grants; cbn; [destruct n; cbn; lia |]. rewrite Hnd by done. cbn. lia.
Qed.

Lemma queue_touch b grants st s :
  inv s -> qpc s = QTouch grants st -> match touched grants b st s with Ok s' => inv s' | Err e => e = Disabled end.
Proof.
  intros (g & c & r & a & t & u & k & n & o & q & f & w & H) Hpc.
  pose proof H as [Hv Hph Ef Eq Ew Et Hreg Hap Hl Hf Hq Hw Hwa Hc]. rewrite Hpc in Hq.
  destruct Hq as (-> & Hz & Hst). unfold touched.
  destruct (in_phase WAITING st) eqn:Ewt; cbn.
  2: { destruct grants; [apply (queue_move H (QOwed false) (q_result s) (forgiven s))
         | apply (queue_move H QIdle (Some (NudgeOut false)) (forgiven s))]; rewrite ?Hpc; try done.
       split; auto. }
  destruct (negb grants && has (if grants then GRANTED else NUDGED) st) eqn:Eb.
  { destruct grants; [done |]. by apply (queue_move H QIdle (Some (NudgeOut true)) (forgiven s)); rewrite ?Hpc. }
  cas.
  - apply (waiting_now H) in Ewt as [_ ->]. rewrite (test_claimable Hv).
    assert (grants = false -> n = false) as Hnd.
    { intros ->. cbn in Eb. by rewrite (test_nudged Hv) in Eb. }
    assert (queue_ok (if grants then QOwed true else QIdle) grants false o (forgiven s)) as Hok by (by destruct grants).
    destruct (a && negb r && negb t) eqn:Ecl.
    + apply andb_true_iff in Ecl as [[-> ->%negb_true_iff]%andb_true_iff ->%negb_true_iff].
      destruct grants; cbn.
      * destruct (queue_claims u k true H (QOwed true) (q_result s)) as [-> Hi]; rewrite ?Hpc; done.
      * destruct (queue_claims u k false H QIdle (Some (NudgeOut true))) as [-> Hi]; rewrite ?Hpc; done.
    + destruct grants; cbn.
      * apply (queue_marks true H (QOwed true) (q_result s)); rewrite ?Hpc; done.
      * apply (queue_marks false H QIdle (Some (NudgeOut true))); rewrite ?Hpc; done.
  - apply (queue_move H (QTouch grants (word (node s))) (q_result s) (forgiven s)); rewrite ?Hpc; try done.
    split; [done |]. split; [done |]. rewrite (test_waiting Hv). by destruct c.
Qed.

Lemma queue_release b gr s :
  inv s -> qpc s = QRelease gr -> match queue_step b s with Ok s' => inv s' | Err e => e = Disabled end.
Proof.
  intros (g & c & r & a & t & u & k & n & o & q & f & w & H) Hpc.
  pose proof H as [Hv Hph Ef Eq Ew Et Hreg Hap Hl Hf Hq Hw Hwa Hc].
  unfold queue_step, alive. rewrite Hpc, (queue_alive H) by (by rewrite Hpc). cbn.
  rewrite (test_last_queue Hv). rewrite Hpc in Eq. cbn in Eq. subst q. cbn.
  exists g, c, r, a, t, u, k, n, o, false, f, w. destruct Hl as [Hlive Hone Hfq Hfw Hqw]. rewrite Hpc in *. cbn in *.
  assert (f_puts (fpc s) = false /\ w_puts (wpc s) = false) as [Eqp Ewp].
  { destruct (f_puts (fpc s)), (w_puts (wpc s)); naive_solver. }
  rewrite Eqp, Ewp in *.
  destruct f eqn:Ef', w eqn:Ew'; cbn; constructor; cbn; try done; try (by apply (view_no_queue Hv));
    try (constructor; cbn; by rewrite ?Eqp, ?Ewp).
Qed.

Lemma queue_put b gr s :
  inv s -> qpc s = QPut gr -> match queue_step b s with Ok s' => inv s' | Err e => e = Disabled end.
Proof.
  intros (g & c & r & a & t & u & k & n & o & q & f & w & H) Hpc.
  pose proof H as [Hv Hph Ef Eq Ew Et Hreg Hap Hl Hf Hq Hw Hwa Hc].
  unfold queue_step, alive. rewrite Hpc, (queue_alive H) by (by rewrite Hpc). cbn.
  destruct Hl as [Hlive Hone Hfq Hfw Hqw]. rewrite Hpc in *. cbn in *. rewrite !orb_true_r in Hone.
  specialize (Hone eq_refl). apply orb_false_iff in Hone as [[-> ->]%orb_false_iff ->].
  rewrite andb_true_r in Hfq.
  assert (exists out, fpc s = FGone out) as [out Hfp] by (destruct (fpc s); try done; eauto).
  assert (waits s = None) as Hn by (apply (not_waiting H); rewrite Hfp; exact id).
  exists g, c, r, a, t, u, k, n, o, false, false, false. constructor; cbn; rewrite ?Hn; try done.
  - constructor; cbn; by rewrite ?Hfq, ?Hqw.
  - by rewrite Hfp in *.
Qed.

Lemma queue_payload b p s :
  inv s -> qpc s = QPayload p -> match queue_step b s with Ok s' => inv s' | Err e => e = Disabled end.
Proof.
  intros (g & c & r & a & t & u & k & n & o & q & f & w & H) Hpc.
  pose proof H as [Hv Hph Ef Eq Ew Et Hreg Hap Hl Hf Hq Hw Hwa Hc].
  unfold queue_step, alive. rewrite Hpc, (queue_alive H) by (by rewrite Hpc). cbn.
  rewrite Hpc in *. destruct Hq as [-> Hz].
  exists false, c, r, a, t, u, k, n, o, q, f, w. constructor; cbn; try done.
  - destruct Hl. by constructor; rewrite ?Hpc in *.
  - unfold future_ok, outcome_ok in *. destruct (fpc s); try done; destruct o0; naive_solver.
Qed.

Lemma queue_ok_step b s :
  inv s -> match queue_step b s with Ok s' => inv s' | Err e => e = Disabled end.
Proof.
  intros Hi. destruct (qpc s) as [|p|gr|gr st| |gr|gr|gr|gr] eqn:Hpc; try (by unfold queue_step; rewrite Hpc);
    try first [by eapply queue_release | by eapply queue_put | by eapply queue_payload].
  all: pose proof Hi as (g & c & r & a & t & u & k & n & o & q & f & w & H);
    pose proof H as [Hv Hph Ef Eq Ew Et Hreg Hap Hl Hf Hq Hw Hwa Hc];
    unfold queue_step, alive; rewrite Hpc, (queue_alive H) by (by rewrite Hpc); cbn; rewrite Hpc in Hq.
  - destruct Hq as [-> Hz]. apply (queue_move H (QTouch gr (word (node s))) (q_result s) (forgiven s)); rewrite ?Hpc; try done.
    split; [done |]. split; [done |]. rewrite (test_waiting Hv). by destruct c.
  - by apply queue_touch.
  - destruct Hq as [-> Hz]. destruct (in_phase CANCELLED (word (node s))) eqn:E.
    + apply (queue_move H (QOwed false) (q_result s) (forgiven s)); rewrite ?Hpc; try done.
      split; [done |]. rewrite (test_cancelled Hv) in E. by destruct c.
    + by apply (queue_move H QIdle (Some Kept) (forgiven s)); rewrite ?Hpc.
  - destruct Hq as [Hz Hg]. apply (queue_move H (QRelease gr) (q_result s) (forgiven s + Z.b2z (has OWED (word (node s))))); rewrite ?Hpc; try done.
    split; [| done]. rewrite Hz. by rewrite (test_owed Hv).
Qed.

(** ** The wake list *)

Section wakes.
Context {g c r a t u k n o q f w : bool} {s : Sys}.
Context (H : inv_at g c r a t u k n o q f w s).

Lemma node_wake_alive : w_holds (wpc s) || w_puts (wpc s) = true -> live (node s) = true.
Proof using H.
  intros Hf. destruct H as [_ _ _ _ Ew _ _ _ [Hl _ _ _ _] _ _ _ _ _]. rewrite Hl, Ew.
  apply orb_true_iff in Hf as [-> | ->]; by rewrite ?orb_true_r.
Qed.
End wakes.

Lemma wake_slot b st s :
  inv s -> wpc s = WSlot st -> match wake_step b s with Ok s' => inv s' | Err e => e = Disabled end.
Proof.
  intros (g & c & r & a & t & u & k & n & o & q & f & w & H) Hpc.
  pose proof H as [Hv Hph Ef Eq Ew Et Hreg Hap Hl Hf Hq Hw Hwa Hc].
  unfold wake_step, alive. rewrite Hpc, (node_wake_alive H) by (by rewrite Hpc). cbn. rewrite Hpc in *. cbn in Hw, Ew. subst w t.
  assert (slots_apart s = true) as ->.
  { apply (slots_are_apart H). destruct (fpc s); try done; cbn in *.
    - destruct Hf as (-> & -> & ->). split; [done |]. intros _. apply Hap; [done | by rewrite orb_true_r].
    - tauto. }
  cbn. destruct (set_slot_spec st TAKEN None (node s)) as (E1 & E2 & E3 & _ & E4). rewrite Hw in E4.
  assert (slot st TAKEN (node s) = sl k (node s)) as -> by (unfold slot, sl; by rewrite Hw).
  assert (Hu : a || r = true -> sl u (set_slot st TAKEN None (node s)) = sl u (node s)).
  { intros Har. rewrite (Hap eq_refl Har) in E4. by rewrite negb_involutive in E4. }
  exists g, c, r, a, true, u, k, n, o, q, f, true. constructor; cbn; rewrite ?E1; try done.
  - destruct Hl. constructor; cbn in *; rewrite ?E3; rewrite ?Hpc in *; done.
  - unfold future_ok, outcome_ok, fresh_ok in *. destruct (fpc s); try done; repeat case_match; rewrite ?E2; try done;
      destruct_and?; subst; rewrite ?Hu by (by rewrite ?orb_true_r); done.
  - intros x Hx. destruct (Hwa x Hx) as [Hp [(-> & Hsl & Ht) | (-> & Hh)]]; (split; [done |]).
    + left. by rewrite Hu.
    + right. split; [done |]. destruct Hh as [? | Hh]; [by left | by right].
Qed.

Lemma wake_take b st x s :
  inv s -> wpc s = WTake st x -> match wake_step b s with Ok s' => inv s' | Err e => e = Disabled end.
Proof.
  intros (g & c & r & a & t & u & k & n & o & q & f & w & H) Hpc.
  pose proof H as [Hv Hph Ef Eq Ew Et Hreg Hap Hl Hf Hq Hw Hwa Hc].
  unfold wake_step, alive. rewrite Hpc, (node_wake_alive H) by (by rewrite Hpc). cbn. rewrite Hpc in *. cbn in Ew. subst w t.
  destruct Hl as [Hlive Hone Hfq Hfw Hqw]. rewrite Hpc in *. cbn in *.
  assert (f_puts (fpc s) = false /\ q_puts (qpc s) = false) as [Efp Eqp].
  { rewrite orb_true_r in Hone. destruct (f_puts (fpc s)), (q_puts (qpc s)); naive_solver. }
  cas.
  - rewrite (test_again Hv), (test_nudged Hv), (test_granted Hv), (test_last_wake Hv).
    destruct (a && negb r && (n || g && negb c)) eqn:Ea.
    + apply andb_true_iff in Ea as [[-> ->%negb_true_iff]%andb_true_iff Hm].
      exists g, c, false, false, true, u, u, n, o, q, f, true. constructor; cbn; try done; try (by intros).
      * apply (view_claimed (view_untaking Hv)).
      * unfold future_ok, outcome_ok, fresh_ok in *. destruct (fpc s); try done; repeat case_match; naive_solver.
      * intros y Hy. destruct (Hwa y Hy) as [Hp [(_ & Hsl & Ht) | (? & Hh)]]; [| done].
        split; [done |]. right. split; [done |]. right. by right.
    + assert (Hm : forall y, waits s = Some y -> a = true -> g || n = false).
      { intros y Hy Ha. destruct (Hwa y Hy) as [Hp _]. subst a.
        assert (r = false) as -> by (destruct r; [by apply Hreg | done]). cbn in Ea.
        assert (c = false) as -> by (destruct (fpc s); cbn in *; naive_solver). rewrite andb_true_r in Ea.
        by rewrite orb_comm. }
      assert (Hf' : future_ok (fpc s) g c r a false u k n (set_word (without (Z.lor TAKING WAKE_REF) (word (node s))) (node s))).
      { unfold future_ok in *. destruct (fpc s); try done. naive_solver. }
      assert (Hwa' : forall y, waits s = Some y -> waiting_pc (fpc s) /\
        ((a = true /\ sl u (node s) = Some y /\ (g || n = true -> false = true)) \/ (a = false /\ (y ∈ calls s \/ x = Some y)))).
      { intros y Hy. destruct (Hwa y Hy) as [Hp [(Ha & Hsl & _) | (Ha & Hh)]]; (split; [done |]); [left | by right].
        split; [done |]. split; [done |]. by rewrite (Hm y Hy Ha). }
      destruct (q || f) eqn:Eqf.
      * assert (true && negb q && negb f = false) as -> by (by destruct q, f). unfold later.
        exists g, c, r, a, false, u, k, n, o, q, f, false. constructor; cbn; try done; try (by apply (view_untaken Hv)).
        -- constructor; cbn; rewrite ?Efp, ?Eqp; try done. by rewrite Hlive, Eqf.
        -- intros y Hy. destruct (Hwa' y Hy) as [Hp [Hr | (Ha & Hr)]]; (split; [done |]); [by left | right].
           split; [done |]. left. destruct Hr as [Hr | ->]; set_solver.
      * apply orb_false_iff in Eqf as [-> ->]. cbn.
        exists g, c, r, a, false, u, k, n, o, false, false, false. constructor; cbn; try done; try (by apply (view_untaken Hv)).
        -- constructor; cbn; by rewrite ?Efp, ?Eqp.
  - by exists g, c, r, a, true, u, k, n, o, q, f, true.
Qed.

Lemma wake_put b x s :
  inv s -> wpc s = WPut x -> match wake_step b s with Ok s' => inv s' | Err e => e = Disabled end.
Proof.
  intros (g & c & r & a & t & u & k & n & o & q & f & w & H) Hpc.
  pose proof H as [Hv Hph Ef Eq Ew Et Hreg Hap Hl Hf Hq Hw Hwa Hc].
  unfold wake_step, alive. rewrite Hpc, (node_wake_alive H) by (by rewrite Hpc). cbn.
  destruct Hl as [Hlive Hone Hfq Hfw Hqw]. rewrite Hpc in *. cbn in *. rewrite !orb_true_r in Hone.
  specialize (Hone eq_refl). apply orb_false_iff in Hone as [[-> ->]%orb_false_iff ->].
  rewrite andb_true_r in Hfw, Hqw.
  assert (exists out, fpc s = FGone out) as [out Hfp] by (destruct (fpc s); try done; eauto).
  assert (waits s = None) as Hn by (apply (not_waiting H); rewrite Hfp; exact id).
  exists g, c, r, a, t, u, k, n, o, false, false, false. constructor; cbn; rewrite ?Hn; try done.
  - constructor; cbn; by rewrite ?Hfw, ?Hqw.
  - by rewrite Hfp in *.
Qed.

Lemma waits_woken pc pc' wpc g a t u k n nd l l' y o :
  waits_ok pc wpc g a t u k n nd l o ->
  (forall x, x <> y -> in_hand wpc k nd l x -> in_hand pc' k nd l' x) ->
  waits_ok pc pc' g a t u k n nd l' (unless_woken [y] o).
Proof.
  intros Hw Hh x [Hx Hne]%unless_woken_Some. destruct (Hw x Hx) as [Hp Hr]. split; [done |].
  destruct Hr as [? | [Ha Hr]]; [by left | right]. split; [done |]. apply Hh; [| done]. set_solver.
Qed.

Lemma wake_ok_step b s :
  inv s -> match wake_step b s with Ok s' => inv s' | Err e => e = Disabled end.
Proof.
  intros Hi. destruct (wpc s) as [| |st|st x|x|x] eqn:Hpc; try (by unfold wake_step; rewrite Hpc);
    try first [by eapply wake_slot | by eapply wake_take | by eapply wake_put].
  all: destruct Hi as (g & c & r & a & t & u & k & n & o & q & f & w & H);
    pose proof H as [Hv Hph Ef Eq Ew Et Hreg Hap Hl Hf Hq Hw Hwa Hc]; unfold wake_step; rewrite Hpc in *.
  - unfold alive. rewrite (node_wake_alive H) by (by rewrite Hpc). cbn.
    exists g, c, r, a, t, u, k, n, o, q, f, w. constructor; cbn; try done.
    + destruct Hl. constructor; cbn in *; rewrite ?Hpc in *; done.
    + by apply (test_taken Hv).
  - exists g, c, r, a, t, u, k, n, o, q, f, w. destruct x as [y|]; constructor; cbn; try done;
      try (destruct Hl; constructor; cbn in *; rewrite ?Hpc in *; done).
    + eapply waits_woken; [done |]. intros x Hne [? | [|]]; [by left | congruence | by right].
    + intros x Hx. destruct (Hwa x Hx) as [Hp [Hr | (Ha & Hr)]]; (split; [done |]); [by left | right].
      split; [done |]. destruct Hr as [? | [|]]; [by left | done | by right].
Qed.

Lemma waker_call_ok i y s :
  inv s -> calls s !! i = Some y -> inv (wake y (with_calls (delete i (calls s)) s)).
Proof.
  intros (g & c & r & a & t & u & k & n & o & q & f & w & H) Hi.
  pose proof H as [Hv Hph Ef Eq Ew Et Hreg Hap Hl Hf Hq Hw Hwa Hc].
  exists g, c, r, a, t, u, k, n, o, q, f, w. constructor; cbn; try done.
  - destruct Hl. by constructor.
  - eapply waits_woken; [done |]. intros x Hne [Hx | ?]; [left | by right].
    apply list_elem_of_lookup in Hx as [j Hj]. apply list_elem_of_lookup.
    destruct (decide (j < i)%nat); [exists j; by rewrite list_lookup_delete_lt |].
    exists (j - 1)%nat. assert (j <> i) by congruence. rewrite list_lookup_delete_ge by lia.
    by replace (S (j - 1)) with j by lia.
Qed.
