(* ===== verification/WaiterNodeSpec.v ===== *)
(** * What a waiter node promises

    The theorems of [sync/waiter/node.rs], over every interleaving of a node's
    future, its queue and its wake list from the moment it is queued. *)

From S2P Require Import Prelude AtomicWaits WaiterNode WaiterNodeInv WaiterNodeFuture WaiterNodeQueue.
Open Scope Z_scope.

(** ** Every action *)

(** A call on the node begins: nothing but the place of its party changes. *)
Lemma future_begins s pc o :
  inv s -> f_holds (fpc s) = true -> f_holds pc = true ->
  (forall g c r a t u k n nd, future_ok (fpc s) g c r a t u k n nd -> future_ok pc g c r a t u k n nd) ->
  (forall x, o = Some x -> waits s = Some x /\ waiting_pc pc) ->
  inv (with_fpc pc (with_waits o s)).
Proof.
  intros (g & c & r & a & t & u & k & n & ow & q & f & w & H) Hh Hh' Hok Ho.
  apply (future_move H pc (f_result s) o); try done. apply Hok, (i_future _ _ _ _ _ _ _ _ _ _ _ _ _ H).
Qed.

Lemma waiting_kept s x : inv s -> waits s = Some x -> waits s = Some x /\ waiting_pc (fpc s).
Proof. intros (g & c & r & a & t & u & k & n & ow & q & f & w & H) Hx. split; [done |]. by destruct (i_waits _ _ _ _ _ _ _ _ _ _ _ _ _ H x Hx). Qed.

Lemma queue_begins s pc :
  inv s -> qpc s = QIdle -> match pc with QPayload _ | QTouchLoad _ | QPrune => True | _ => False end ->
  inv (with_qpc pc s).
Proof.
  intros (g & c & r & a & t & u & k & n & ow & q & f & w & H) Hpc Hp.
  pose proof (i_queue _ _ _ _ _ _ _ _ _ _ _ _ _ H) as Hq. rewrite Hpc in Hq.
  apply (queue_move H pc (q_result s) (forgiven s)); rewrite ?Hpc; by destruct pc.
Qed.

Lemma node_act_ok a s :
  inv s -> match act a s with Ok s' => inv s' | Err e => e = Disabled end.
Proof.
  intros Hi. pose proof (fun x => waiting_kept s x Hi) as Hk.
  destruct a as [|x|x m| | | | |b|p| | |b|b|i]; cbn.
  - destruct (fpc s) as [[w|]| | | | | | | | | | | | | | | | | | | |] eqn:Hpc; try done.
    apply (future_begins s (FSettleLoad w) (waits s)); rewrite ?Hpc; done.
  - destruct (fpc s) as [[w|]| | | | | | | | | | | | | | | | | | | |] eqn:Hpc; try done.
    by apply (future_begins s (FLoad x) None); rewrite ?Hpc.
  - destruct (fpc s) as [[w|]| | | | | | | | | | | | | | | | | | | |] eqn:Hpc; try done.
    destruct m; by apply (future_begins s _ None); rewrite ?Hpc.
  - destruct (fpc s) as [fr| | | | | | | | | | | | | | | | | | | |] eqn:Hpc; try done.
    apply (future_begins s (FAsk fr) (waits s)); rewrite ?Hpc; done.
  - destruct (fpc s) as [fr| | | | | | | | | | | | | | | | | | | |] eqn:Hpc; try done.
    apply (future_begins s (FOweLoad fr) (waits s)); rewrite ?Hpc; done.
  - destruct (fpc s) as [fr| | | | | | | | | | | | | | | | | | | |] eqn:Hpc; try done.
    apply (future_begins s (FUnoweLoad fr) (waits s)); rewrite ?Hpc; done.
  - destruct (fpc s) as [fr| | | | | | | | | | | | | | | | | | | |] eqn:Hpc; try done.
    apply (future_begins s FCancelLoad None); rewrite ?Hpc; try done. by intros ? ? ? ? ? ? ? ? ? [? _].
  - by apply future_ok_step.
  - destruct (qpc s) eqn:Hpc; try done. apply queue_begins; try done. by destruct p.
  - destruct (qpc s) eqn:Hpc; try done. by apply queue_begins.
  - destruct (qpc s) eqn:Hpc; try done. by apply queue_begins.
  - by apply queue_ok_step.
  - by apply wake_ok_step.
  - destruct (calls s !! i) as [y|] eqn:E; [| done]. by apply waker_call_ok.
Qed.

Lemma node_acts_ok l s s' : inv s -> acts l s = Ok s' -> inv s'.
Proof.
  apply run_inv. intros a s1 s2 Hi Ha. pose proof (node_act_ok a s1 Hi) as H. by rewrite Ha in H.
Qed.

(** ** Wakes come *)

(** How far the wake of [x] is from the wakers about to be called. *)
Definition stage (s : Sys) : Z :=
  let stale st := Z.b2z (negb (word (node s) =? st)) in
  if has ARMED (word (node s)) then
    match wpc s with WAgain _ => 12 | WListed => 11 | WSlot _ => 10 | WTake st _ => 8 + stale st | _ => 0 end
  else
    match wpc s with WAgain _ => 7 | WListed => 6 | WSlot _ => 5 | WTake st _ => 3 + stale st | WPut _ => 2 | _ => 0 end.

Definition wake_due (x : Waker) (s : Sys) : Prop :=
  inv s /\ waits s = Some x /\ marked (word (node s)) = true.

(** One step brings the wake of [x] nearer. *)
Definition nearer (x : Waker) (s s' : Sys) : Prop :=
  waits s' = None \/
  (waits s' = Some x /\ marked (word (node s')) = true /\ (x ∈ calls s' \/ 0 <= stage s' < stage s)).

Lemma due_take x st y s :
  wake_due x s -> x ∉ calls s -> wpc s = WTake st y ->
  exists s', act (WakeStep false) s = Ok s' /\ inv s' /\ nearer x s s'.
Proof.
  intros (Hi & Hx & Hm) Hn Hpc. pose proof (node_act_ok (WakeStep false) s Hi) as Ha.
  pose proof Hi as (g & c & r & a & t & u & k & n & o & q & f & w & H).
  pose proof H as [Hv Hph Ef Eq Ew Et Hreg Hap Hl Hf Hq Hw Hwa Hc]. destruct (Hwa x Hx) as [Hp Hr].
  assert (Hmk : g || n = true).
  { unfold marked in Hm. rewrite (test_granted Hv), (test_nudged Hv) in Hm. destruct g, n; done. }
  cbn in *. unfold wake_step in *. rewrite Hpc in *.
  unfold alive in *. rewrite (node_wake_alive H) in * by (by rewrite Hpc). cbn in *.
  unfold compare_exchange in *. destruct (Z.eqb_spec (word (node s)) st) as [<- |]; cbn in *.
  2: { eexists. split; [done |]. split; [done |]. right. split; [done |]. split; [done |]. right. unfold stage. cbn.
       rewrite Hpc, (test_armed Hv), Z.eqb_refl. rewrite (proj2 (Z.eqb_neq _ _)) by done. destruct a; cbn; lia. }
  assert (r = false /\ c = false) as [-> ->].
  { destruct (fpc s) as [[|]| | | | | | | | |[|]|[|]|[|]|[|]|[|]| | | | | | |]; try done; cbn in Hf; tauto. }
  rewrite (test_again Hv), (test_nudged Hv), (test_granted Hv), (test_last_wake Hv) in *.
  rewrite !andb_true_r in *. rewrite (orb_comm n g), Hmk, andb_true_r in *.
  destruct a.
  + eexists. split; [done |]. split; [done |]. right. split; [done |].
    pose proof (view_claimed (view_untaking Hv)) as Hv'. split; [unfold marked; cbn; by rewrite (test_granted Hv'), (test_nudged Hv'), andb_true_r |].
    right. unfold stage. cbn. rewrite Hpc, (test_armed Hv), (test_armed Hv'), Z.eqb_refl. cbn. lia.
  + pose proof (view_untaken Hv) as Hv'. destruct Hr as [(? & _) | (_ & [? | ->])]; [done | done |].
    assert (marked (without (Z.lor TAKING WAKE_REF) (word (node s))) = true) as Hm'.
    { unfold marked. by rewrite (test_granted Hv'), (test_nudged Hv'), andb_true_r. }
    destruct (w && negb q && negb f); eexists; (split; [done |]); (split; [done |]); right; (split; [done |]); (split; [exact Hm' |]).
    * right. unfold stage. cbn. rewrite Hpc, (test_armed Hv), (test_armed Hv'), Z.eqb_refl. cbn. lia.
    * left. cbn. set_solver.
Qed.

Lemma due_step x s :
  wake_due x s -> x ∉ calls s ->
  exists s', act (WakeStep false) s = Ok s' /\ inv s' /\ nearer x s s'.
Proof.
  intros Hdue Hn. pose proof Hdue as (Hi & Hx & Hm). pose proof (node_act_ok (WakeStep false) s Hi) as Ha.
  pose proof Hi as (g & c & r & a & t & u & k & n & o & q & f & w & H).
  pose proof H as [Hv Hph Ef Eq Ew Et Hreg Hap Hl Hf Hq Hw Hwa Hc]. destruct (Hwa x Hx) as [Hp Hr].
  assert (Hmk : g || n = true).
  { unfold marked in Hm. rewrite (test_granted Hv), (test_nudged Hv) in Hm. destruct g, n; done. }
  destruct (wpc s) as [| |st|st y|y|y] eqn:Hpc; [| | | by apply (due_take x st y) | |];
    cbn in *; unfold wake_step in *; rewrite Hpc in *.
  - destruct Hr as [(-> & _ & Ht) | (_ & [? | []])]; [| done]. rewrite (Ht Hmk) in Et. by subst.
  - unfold alive in *. rewrite (node_wake_alive H) in * by (by rewrite Hpc). cbn in *. eexists. split; [done |]. split; [done |].
    right. split; [done |]. split; [done |]. right. unfold stage. cbn. rewrite Hpc, (test_armed Hv). destruct a; lia.
  - unfold alive in *. rewrite (node_wake_alive H) in * by (by rewrite Hpc). cbn in *.
    destruct (exclusive (slots_apart s)) as [[]|e] eqn:Ex; cbn in *; [| unfold exclusive in Ex; case_match; congruence].
    eexists. split; [done |]. split; [done |]. destruct (set_slot_spec st TAKEN None (node s)) as (E1 & _).
    right. split; [done |]. cbn. rewrite E1. split; [done |]. right. unfold stage. cbn. rewrite Hpc, E1, (test_armed Hv).
    destruct a, (word (node s) =? st); cbn; lia.
  - eexists. split; [done |]. split; [done |]. unfold nearer. destruct y as [y|]; cbn.
    + rewrite Hx. destruct (unless_woken_cases [y] x) as [-> | [-> _]]; [by left | right].
      split; [done |]. split; [done |]. right. unfold stage. cbn. rewrite Hpc, (test_armed Hv). destruct a; lia.
    + right. split; [done |]. split; [done |]. right. unfold stage. cbn. rewrite Hpc, (test_armed Hv). destruct a; lia.
  - unfold alive in *. rewrite (node_wake_alive H) in * by (by rewrite Hpc). cbn in *. eexists. split; [done |]. split; [done |].
    right. split; [done |]. split; [done |]. left. cbn. destruct Hr as [(-> & _ & Ht) | (_ & [? | ->])]; [| done | set_solver].
    rewrite (Ht Hmk) in Et. by subst.
Qed.

(** An action of the wake list: a step, or a call of a waker it took. *)
Definition wakes_only (a : Act) : bool := match a with WakeStep _ | Call _ => true | _ => false end.

Lemma due_runs m x s :
  wake_due x s -> stage s <= Z.of_nat m ->
  exists l s', (length l <= m + 2)%nat /\ forallb wakes_only l = true /\ acts l s = Ok s' /\ waits s' = None.
Proof.
  assert (Hcall : forall s, wake_due x s -> x ∈ calls s -> exists i s', act (Call i) s = Ok s' /\ waits s' = None).
  { intros s1 (_ & Hx & _) Hin. apply list_elem_of_lookup in Hin as [i Hi]. exists i. cbn. rewrite Hi. eexists. split; [done |].
    cbn. rewrite Hx. cbn. unfold will_wake. by rewrite Z.eqb_refl. }
  revert s. induction m as [|m IH]; intros s Hd Hs.
  all: destruct (decide (x ∈ calls s)) as [Hin | Hn];
    [destruct (Hcall s Hd Hin) as (i & s' & Ha & Hw); exists [Call i], s'; split; [cbn; lia |]; split; [done |];
     split; [exact (run_step act _ _ _ _ Ha) | done] |].
  all: destruct (due_step x s Hd Hn) as (s1 & Ha & Hi & [Hw | (Hx & Hm & [Hin | Hst])]);
    [exists [WakeStep false], s1; split; [cbn; lia |]; split; [done |]; split; [exact (run_step act _ _ _ _ Ha) | done] | |].
  1,3: destruct (Hcall s1 (conj Hi (conj Hx Hm)) Hin) as (i & s' & Hc & Hw); exists [WakeStep false; Call i], s';
    split; [cbn; lia |]; split; [done |]; split; [unfold acts; rewrite (run_step act _ _ _ _ Ha); exact (run_step act _ _ _ _ Hc) | done].
  - lia.
  - destruct (IH s1 (conj Hi (conj Hx Hm))) as (l & s' & Hl & Hall & Hr & Hw); [lia |].
    exists (WakeStep false :: l), s'. split; [cbn; lia |]. split; [done |]. split; [| done]. unfold acts. by rewrite (run_step act _ _ _ _ Ha).
Qed.

(** ** The properties *)

Definition f_outcome (pc : FuturePc) : option Outcome :=
  match pc with FRelease o | FPut o | FGone o => Some o | _ => None end.
Definition q_granted (pc : QueuePc) : option bool :=
  match pc with QOwed b | QRelease b | QPut b | QGone b => Some b | _ => None end.
Definition f_gone (pc : FuturePc) : bool := match pc with FGone _ => true | _ => false end.
Definition q_gone (pc : QueuePc) : bool := match pc with QGone _ => true | _ => false end.

(** C10. A waiter node is safe under any interleaving of its three parties,
    whatever they call and however often a compare-and-swap fails. No step races
    on a waker's slot and none touches the node after it went back to its pool;
    it goes back exactly when the last of the three has let go. The future and
    the queue agree on how the wait ended: the queue granted it and the future
    has the payload the queue left, or the future withdrew and the queue knows.
    Each nudge sent is seen by the future, superseded by a grant, or still on
    the node, and a future that withdraws reports just the last; the owed mark
    is settled once, when the queue lets go. *)
Theorem waiter_node_is_safe (p : Z) (w : Waker) (l : list Act) (s : Sys) :
  acts l (enqueued p w) = Ok s ->
  (forall a, match act a s with Ok _ => True | Err e => e = Disabled end) /\
  (live (node s) = false <-> f_gone (fpc s) = true /\ q_gone (qpc s) = true /\ wpc s = WNone) /\
  (forall out granted, f_outcome (fpc s) = Some out -> q_granted (qpc s) = Some granted ->
    match out with WasGranted x => granted = true /\ x = payload (node s) | Withdrew _ => granted = false end) /\
  sent s = seen s + absorbed s + Z.b2z (has NUDGED (word (node s))) /\
  (forall nudged, f_outcome (fpc s) = Some (Withdrew nudged) -> nudged = has NUDGED (word (node s))) /\
  (q_gone (qpc s) = true -> forgiven s = Z.b2z (has OWED (word (node s)))).
Proof.
  intros Hl. pose proof (node_acts_ok l _ s (enqueued_inv p w) Hl) as Hi. split.
  { intros a. pose proof (node_act_ok a s Hi). by destruct (act a s). }
  destruct Hi as (g & c & r & a & t & u & k & n & o & q & f & w' & H).
  pose proof H as [Hv Hph Ef Eq Ew Et Hreg Hap Hlv Hf Hq Hw Hwa Hc]. rewrite (test_nudged Hv), (test_owed Hv).
  split; [| split; [| split; [| split]]]; [| | done | |].
  - destruct Hlv as [Hlive Hone _ _ _]. rewrite Hlive, Ef, Eq, Ew.
    destruct (fpc s), (qpc s), (wpc s); cbn; split; try done; intros (? & ? & ?); done.
  - intros out granted Ho Hg. assert (outcome_ok out g c a n (node s)) as Hout.
    { destruct (fpc s); try done; cbn in Ho; by simplify_eq. }
    assert (if granted then g = true else c = true) as Hgr.
    { destruct (qpc s); try done; cbn in Hg; simplify_eq; cbn in Hq; by destruct Hq. }
    destruct out, granted; cbn in Hout; destruct_and?; subst; done.
  - intros b Ho. destruct (fpc s); try done; cbn in Ho; simplify_eq; cbn in Hf; tauto.
  - destruct (qpc s); try done. intros _. by destruct Hq.
Qed.

(** C11. No wake of a waiter node is lost. Under any interleaving, a future
    whose look answered pending and whose waker was not called since is on a
    node that carries neither a grant nor a nudge, or a wake list has its waker
    in hand or will find it armed: fourteen more steps of the wake list call
    it. *)
Theorem waiter_loses_no_wake (p : Z) (w : Waker) (l : list Act) (s : Sys) (x : Waker) :
  acts l (enqueued p w) = Ok s -> waits s = Some x ->
  marked (word (node s)) = false \/
  exists l' s', (length l' <= 14)%nat /\ forallb wakes_only l' = true /\ acts l' s = Ok s' /\ waits s' = None.
Proof.
  intros Hl Hx. pose proof (node_acts_ok l _ s (enqueued_inv p w) Hl) as Hi.
  destruct (marked (word (node s))) eqn:Hm; [right | by left].
  apply (due_runs 12 x s); [done |]. unfold stage. destruct (has _ _), (wpc s); try lia; destruct (_ =? _); cbn; lia.
Qed.

(** A future parks; a drain pass nudges it and a wake list calls its waker; it
    parks again, is granted with the payload 9, and both let go. *)
Definition node_run : list Act :=
  [ParkFresh] ++ replicate 2 (FutureStep false) ++ [Nudge] ++ replicate 2 (QueueStep false) ++
  replicate 3 (WakeStep false) ++ [Call 0%nat; Park 7] ++ replicate 2 (FutureStep false) ++
  [Park 7] ++ replicate 5 (FutureStep false) ++ [Grant (Some 9)] ++ replicate 5 (QueueStep false) ++
  replicate 3 (WakeStep false) ++ [Call 0%nat; AskGranted] ++ replicate 4 (FutureStep false).

Definition node_ran : Sys :=
  {| node := {| word := 1; slot0 := None; slot1 := None; payload := 9; live := false |};
     fpc := FGone (WasGranted 9); qpc := QGone true; wpc := WNone; calls := []; waits := None;
     f_result := Some ParkPending; q_result := Some (NudgeOut true); sent := 1; seen := 1; absorbed := 0;
     forgiven := 0 |}.

Lemma waiter_node_is_safe_witness :
  acts node_run (enqueued 3 5) = Ok node_ran /\ true = true /\ 9 = payload (node node_ran).
Proof.
  assert (E : acts node_run (enqueued 3 5) = Ok node_ran) by (lazy; reflexivity).
  split; [exact E |].
  apply (proj1 (proj2 (proj2 (waiter_node_is_safe 3 5 node_run node_ran E))) (WasGranted 9) true); reflexivity.
Defined.

(** A future that parked and a nudge that has just claimed its waker. *)
Definition nudged_run : list Act :=
  [ParkFresh] ++ replicate 2 (FutureStep false) ++ [Nudge] ++ replicate 2 (QueueStep false).

Definition nudged_ran : Sys :=
  {| node := {| word := 3728; slot0 := Some 5; slot1 := None; payload := 3; live := true |};
     fpc := FIdle None; qpc := QIdle; wpc := WListed; calls := []; waits := Some 5;
     f_result := Some ParkPending; q_result := Some (NudgeOut true); sent := 1; seen := 0; absorbed := 0;
     forgiven := 0 |}.

Lemma waiter_loses_no_wake_witness :
  acts nudged_run (enqueued 3 5) = Ok nudged_ran /\
  exists l' s', (length l' <= 14)%nat /\ forallb wakes_only l' = true /\ acts l' nudged_ran = Ok s' /\ waits s' = None.
Proof.
  assert (E : acts nudged_run (enqueued 3 5) = Ok nudged_ran) by (lazy; reflexivity).
  split; [exact E |].
  destruct (waiter_loses_no_wake 3 5 nudged_run nudged_ran 5 E eq_refl) as [H | H]; [discriminate H | exact H].
Defined.
