(* ===== verification/QueueWord.v ===== *)
(** * The state word of a wait queue

    The queue's bits of the word in [sync/queue.rs], what a change of the word
    comes to for the drain role, and the changes the queue's own calls make.
    The bits from [FIRST_BIT] up are the primitive's. *)

From S2P Require Import Prelude.
Open Scope Z_scope.

(** ** The word *)

Definition DRAINING : Z := 1.
Definition DIRTY : Z := 2.
Definition QUEUED : Z := 4.
Definition NUDGE_OUT : Z := 8.
Definition HANDOFF : Z := 16.
Definition WAKE_FRONT : Z := 32.
Definition FIRST_BIT : Z := 6.

Definition has (bits s : Z) : bool := negb (Z.land s bits =? 0).

(** Whether a release that saw [prev] must run a pass, and whether a contender
    that saw [s] stops spinning. *)
Definition wants_drain (prev : Z) : bool := has QUEUED prev && (negb (has NUDGE_OUT prev) || has HANDOFF prev).
Definition stops_spin (s : Z) : bool := has HANDOFF s || (Z.land s (Z.lor QUEUED DRAINING) =? QUEUED).

(** What a transition does with the word it was shown. *)
Inductive Change : Type :=
| Keep
| Set_ (next : Z)
| Drain (next : Z)
| Wake (next : Z).

(** The word [transition] swaps in, and whether it claims the role with it. *)
Definition swaps (current : Z) (x : Change) : option (Z * bool) :=
  match x with
  | Keep => None
  | Set_ next => Some (next, false)
  | Drain next => if has DRAINING current then Some (Z.lor next DIRTY, false) else Some (Z.lor next DRAINING, true)
  | Wake next => if has DRAINING current then Some (next, false) else Some (Z.lor next DRAINING, true)
  end.

(** The changes the queue's own calls make: [enqueue], [withdrawn], [released],
    and [owe_or_take] with what the primitive would take. *)
Definition enqueues (s : Z) : Change := Drain (Z.lor s QUEUED).
Definition withdrawn (woken : bool) (s : Z) : Change :=
  Drain (Z.lor (Z.ldiff s NUDGE_OUT) (if woken then WAKE_FRONT else 0)).
Definition released (s : Z) : Change := Wake (Z.lor s WAKE_FRONT).
Definition owe_or_take (take : Z -> option Z) (s : Z) : Change :=
  if has HANDOFF s then Keep
  else match take s with Some next => Set_ next | None => Drain (Z.lor s HANDOFF) end.

(** The bits a pass may ask to clear: none of those that keep the role. *)
Definition may_clear (clear : Z) : bool := negb (has (Z.lor DRAINING (Z.lor DIRTY WAKE_FRONT)) clear).

(** What [drain] waits to be clear as it gives the role up, and what it clears. *)
Definition wanted (clear : Z) : Z := if has QUEUED clear then 0 else WAKE_FRONT.
Definition gone (clear : Z) : Z :=
  if has QUEUED clear then Z.lor (Z.lor DRAINING WAKE_FRONT) clear else Z.lor DRAINING clear.

(** The bits only the queue's own calls and the role's holder touch. *)
Definition own_bits (s : Z) : Z := Z.land s (Z.lor DRAINING (Z.lor DIRTY WAKE_FRONT)).

(** ** Bits *)

Lemma has_testbit i s : 0 <= i -> has (2 ^ i) s = Z.testbit s i.
Proof.
  intros Hi. unfold has. destruct (Z.testbit s i) eqn:E.
  - destruct (Z.eqb_spec (Z.land s (2 ^ i)) 0) as [E0|]; [| done].
    assert (Z.testbit (Z.land s (2 ^ i)) i = false) as Hf by (rewrite E0; apply Z.testbit_0_l).
    rewrite Z.land_spec, E, Z.pow2_bits_true in Hf by lia. done.
  - assert (Z.land s (2 ^ i) = 0) as ->; [| done]. apply Z.bits_inj'. intros j Hj.
    rewrite Z.land_spec, Z.testbit_0_l, Z.pow2_bits_eqb by lia. destruct (Z.eqb_spec i j) as [-> |]; [by rewrite E |].
    apply andb_false_r.
Qed.

Lemma bit_draining s : has DRAINING s = Z.testbit s 0.
Proof. by apply (has_testbit 0). Qed.
Lemma bit_dirty s : has DIRTY s = Z.testbit s 1.
Proof. by apply (has_testbit 1). Qed.
Lemma bit_queued s : has QUEUED s = Z.testbit s 2.
Proof. by apply (has_testbit 2). Qed.
Lemma bit_front s : has WAKE_FRONT s = Z.testbit s 5.
Proof. by apply (has_testbit 5). Qed.

Lemma has_or a b s : has (Z.lor a b) s = has a s || has b s.
Proof.
  unfold has. rewrite Z.land_lor_distr_r. rewrite <- negb_andb. f_equal. apply eq_true_iff_eq.
  rewrite andb_true_iff, !Z.eqb_eq. apply Z.lor_eq_0_iff.
Qed.

Lemma has_none s : has 0 s = false.
Proof. unfold has. by rewrite Z.land_0_r. Qed.

#[local] Opaque has.
#[local] Arguments Z.testbit : simpl never.

(** Reads the role's bits of a word that was computed. *)
Ltac bits :=
  rewrite ?bit_draining, ?bit_dirty, ?bit_front, ?bit_queued in *;
  rewrite ?Z.lor_spec, ?Z.ldiff_spec, ?Z.lor_spec in *;
  repeat match goal with
  | |- context [Z.testbit ?m ?i] =>
      let b := eval vm_compute in (Z.testbit m i) in
      match b with true => change (Z.testbit m i) with true | false => change (Z.testbit m i) with false end
  | h : context [Z.testbit ?m ?i] |- _ =>
      let b := eval vm_compute in (Z.testbit m i) in
      match b with true => change (Z.testbit m i) with true in h | false => change (Z.testbit m i) with false in h end
  end;
  rewrite ?andb_true_r, ?andb_false_r, ?orb_true_r, ?orb_false_r in *.

Lemma own_bits_spec a b :
  own_bits a = own_bits b -> has DRAINING a = has DRAINING b /\ has DIRTY a = has DIRTY b /\ has WAKE_FRONT a = has WAKE_FRONT b.
Proof.
  unfold own_bits. intros E.
  assert (H : forall i, Z.testbit (Z.lor DRAINING (Z.lor DIRTY WAKE_FRONT)) i = true -> Z.testbit a i = Z.testbit b i).
  { intros i Hi. apply (f_equal (fun z => Z.testbit z i)) in E. by rewrite !Z.land_spec, Hi, !andb_true_r in E. }
  rewrite !bit_draining, !bit_dirty, !bit_front. rewrite !H by done. done.
Qed.

