(* ===== verification/DrainRole.v ===== *)
(** * The wait queue and its drain role

    [sync/queue.rs]: one state word, a stack of arriving waiters, and a role,
    one bit of the word, that whoever changes the queue claims or else leaves a
    mark for. Any number of threads run the calls; each step is one atomic
    operation on the word or on the stack. What a primitive adds, the change a
    transition makes and the pass its drain runs, is left open: [polite] is what
    the queue relies on of the one, and a pass answers any bits to clear but the
    queue's own. *)

From S2P Require Import Prelude AtomicWaits QueueWord.
Open Scope Z_scope.

(** ** Threads *)

(** Where a call is: [enqueue], about to push its waiter on the stack; in
    [transition], with the waiter it publishes, if any; and, once it holds the
    role, in [drain]: about to clear the marks, to take the arrivals, to run the
    pass, to look at the owed count, and to give the role up. *)
Inductive Pc : Type :=
| PushLoad (x : Z) (f : Z -> Change)
| Push (x : Z) (head : option Z) (f : Z -> Change)
| Load (x : option Z) (f : Z -> Change)
| Swap (x : option Z) (f : Z -> Change) (current : Z)
| Clear
| Take (front : bool)
| Pass (arrived : list Z) (front : bool)
| Owed (clear : Z)
| ExitLoad (clear : Z)
| Exit (clear : Z) (current : Z).

(** The queue and the threads in a call. For the theorems: the thread that
    holds the role; the waiters pushed, and those passes took, in order;
    whether a change that asks for a pass, and a request to wake the front,
    came since the last pass began; how many of each there were, and how many
    passes began; and whether the pass before the role was given up said it
    found nobody queued. *)
Record Sys : Type := {
  word : Z;
  arrivals : list Z;
  owed : Z;
  threads : gmap nat Pc;
  holder : option nat;
  pushed : list Z;
  taken : list Z;
  changed : bool;
  asked : bool;
  changes : Z;
  requests : Z;
  passes : Z;
  found_none : bool
}.

(** [WaitQueue::new]. *)
Definition queue_new (state : Z) : Sys :=
  {| word := state; arrivals := []; owed := 0; threads := ∅; holder := None; pushed := []; taken := [];
     changed := false; asked := false; changes := 0; requests := 0; passes := 0; found_none := false |}.

Definition with_word x s := {| word := x; arrivals := arrivals s; owed := owed s; threads := threads s;
  holder := holder s; pushed := pushed s; taken := taken s; changed := changed s; asked := asked s;
  changes := changes s; requests := requests s; passes := passes s; found_none := found_none s |}.
Definition with_owed x s := {| word := word s; arrivals := arrivals s; owed := x; threads := threads s;
  holder := holder s; pushed := pushed s; taken := taken s; changed := changed s; asked := asked s;
  changes := changes s; requests := requests s; passes := passes s; found_none := found_none s |}.
Definition with_threads x s := {| word := word s; arrivals := arrivals s; owed := owed s; threads := x;
  holder := holder s; pushed := pushed s; taken := taken s; changed := changed s; asked := asked s;
  changes := changes s; requests := requests s; passes := passes s; found_none := found_none s |}.
Definition goto (i : nat) (pc : Pc) (s : Sys) : Sys := with_threads (<[i := pc]> (threads s)) s.
Definition returns (i : nat) (s : Sys) : Sys := with_threads (delete i (threads s)) s.

(** The stack before and after a push and a take. *)
Definition pushes (x : Z) (s : Sys) : Sys := {| word := word s; arrivals := x :: arrivals s; owed := owed s;
  threads := threads s; holder := holder s; pushed := pushed s ++ [x]; taken := taken s; changed := changed s;
  asked := asked s; changes := changes s; requests := requests s; passes := passes s; found_none := found_none s |}.
Definition takes (s : Sys) : Sys := {| word := word s; arrivals := []; owed := owed s; threads := threads s;
  holder := holder s; pushed := pushed s; taken := taken s ++ rev (arrivals s); changed := changed s;
  asked := asked s; changes := changes s; requests := requests s; passes := passes s; found_none := found_none s |}.

(** What a transition asks for, and that a pass begins. *)
Definition notes (x : Change) (s : Sys) : Sys :=
  let drain := match x with Drain _ => true | _ => false end in
  let wakes := match x with Drain n | Wake n => has WAKE_FRONT n | _ => false end in
  {| word := word s; arrivals := arrivals s; owed := owed s; threads := threads s; holder := holder s;
     pushed := pushed s; taken := taken s; changed := changed s || drain; asked := asked s || wakes;
     changes := changes s + Z.b2z drain;
     requests := requests s + match x with Wake _ => 1 | _ => 0 end; passes := passes s; found_none := found_none s |}.
Definition begins (s : Sys) : Sys := {| word := word s; arrivals := arrivals s; owed := owed s;
  threads := threads s; holder := holder s; pushed := pushed s; taken := taken s; changed := false;
  asked := false; changes := changes s; requests := requests s; passes := passes s + 1; found_none := false |}.
Definition holds (o : option nat) (s : Sys) : Sys := {| word := word s; arrivals := arrivals s; owed := owed s;
  threads := threads s; holder := o; pushed := pushed s; taken := taken s; changed := changed s;
  asked := asked s; changes := changes s; requests := requests s; passes := passes s; found_none := found_none s |}.
Definition ends (none : bool) (s : Sys) : Sys := {| word := word s; arrivals := arrivals s; owed := owed s;
  threads := threads s; holder := holder s; pushed := pushed s; taken := taken s; changed := changed s;
  asked := asked s; changes := changes s; requests := requests s; passes := passes s; found_none := none |}.

(** ** Steps *)

Definition Step : Type := Result Sys Stop.

(** A swap that compares, and may fail for no reason. *)
Definition swapped (spurious : bool) (current : Z) (s : Sys) : bool := negb spurious && (word s =? current).

(** One step of thread [i]: [push], [transition], [drain]. A pass answers
    [clear]. *)
Definition step (i : nat) (spurious : bool) (clear : Z) (s : Sys) : Step :=
  match threads s !! i with
  | None => Err Disabled
  | Some (PushLoad x f) => Ok (goto i (Push x (head (arrivals s)) f) s)
  | Some (Push x h f) =>
      if negb spurious && bool_decide (head (arrivals s) = h) then Ok (goto i (Load (Some x) f) (pushes x s))
      else Ok (goto i (Push x (head (arrivals s)) f) s)
  | Some (Load x f) => Ok (goto i (Swap x f (word s)) s)
  | Some (Swap x f current) =>
      match swaps current (f current) with
      | None => Ok (returns i s)
      | Some (next, claim) =>
          if swapped spurious current s then
            let s := notes (f current) (with_word next s) in
            if claim then Ok (goto i Clear (holds (Some i) s)) else Ok (returns i s)
          else Ok (goto i (Swap x f (word s)) s)
      end
  | Some Clear =>
      let before := word s in
      Ok (goto i (Take (has WAKE_FRONT before)) (begins (with_word (Z.ldiff before (Z.lor DIRTY WAKE_FRONT)) s)))
  | Some (Take front) => Ok (goto i (Pass (rev (arrivals s)) front) (takes s))
  | Some (Pass arrived front) => if may_clear clear then Ok (goto i (Owed clear) s) else Err Disabled
  | Some (Owed clear) => Ok (goto i (ExitLoad (if owed s =? 0 then Z.lor clear HANDOFF else clear)) s)
  | Some (ExitLoad clear) => Ok (goto i (Exit clear (word s)) s)
  | Some (Exit clear current) =>
      if negb (has (Z.lor DIRTY (wanted clear)) current) then
        if swapped spurious current s then
          let s := with_word (Z.ldiff current (gone clear)) s in
          Ok (returns i (holds None (ends (has QUEUED clear) s)))
        else Ok (goto i (Exit clear (word s)) s)
      else Ok (goto i Clear s)
  end.

(** A thread calls: to change the queue, with a waiter to push first or not; a
    step of a call; and what the primitive does besides: any change of the word
    outside of the role's bits, and of the owed count. *)
Inductive Act : Type :=
| Call (i : nat) (x : option Z) (f : Z -> Change)
| StepOf (i : nat) (spurious : bool) (clear : Z)
| Word (next : Z)
| OwedCount (n : Z).

Definition act (a : Act) (s : Sys) : Step :=
  match a with
  | Call i x f =>
      match threads s !! i with
      | Some _ => Err Disabled
      | None => Ok (goto i (match x with Some x => PushLoad x f | None => Load None f end) s)
      end
  | StepOf i spurious clear => step i spurious clear s
  | Word next => if own_bits next =? own_bits (word s) then Ok (with_word next s) else Err Disabled
  | OwedCount n => Ok (with_owed n s)
  end.

Definition acts : list Act -> Sys -> Step := run act.

(** ** What a primitive keeps to *)

(** A change leaves the role's two bits to the queue, carries a request when
    it is a release's, and takes back nobody's; with a waiter to publish it asks
    for a pass. *)
Definition polite (f : Z -> Change) : Prop :=
  forall s, match f s with
            | Keep => True
            | Set_ n =>
                has DRAINING n = has DRAINING s /\ has DIRTY n = has DIRTY s /\ has WAKE_FRONT n = has WAKE_FRONT s
            | Drain n =>
                has DRAINING n = has DRAINING s /\ has DIRTY n = has DIRTY s /\
                (has WAKE_FRONT s = true -> has WAKE_FRONT n = true)
            | Wake n =>
                has DRAINING n = has DRAINING s /\ has DIRTY n = has DIRTY s /\ has WAKE_FRONT n = true
            end.

Definition drains (f : Z -> Change) : Prop := forall s, match f s with Drain _ => True | _ => False end.

Definition polite_act (a : Act) : Prop :=
  match a with
  | Call _ x f => polite f /\ (x <> None -> drains f)
  | _ => True
  end.

(** ** What the drain role promises

    The theorems of [sync/queue.rs], over any number of threads and whatever
    the primitives built on it do within [polite]. *)

#[local] Opaque has.
#[local] Arguments Z.testbit : simpl never.
Open Scope Z_scope.

(** ** The changes of the queue's own calls *)

Lemma enqueues_polite : polite enqueues /\ drains enqueues.
Proof. split; intros s; cbn; [| done]. bits. auto. Qed.

Lemma withdrawn_polite b : polite (withdrawn b).
Proof. intros s. cbn. destruct b; bits; auto. Qed.

Lemma released_polite : polite released.
Proof. intros s. cbn. bits. auto. Qed.

Lemma owe_or_take_polite take :
  (forall s n, take s = Some n -> own_bits n = own_bits s) -> polite (owe_or_take take).
Proof.
  intros Ht s. unfold owe_or_take. destruct (has HANDOFF s); [done |]. destruct (take s) as [n|] eqn:E.
  - by apply own_bits_spec, Ht.
  - bits. auto.
Qed.

(** ** The invariant *)

Definition draining (pc : Pc) : bool :=
  match pc with PushLoad _ _ | Push _ _ _ | Load _ _ | Swap _ _ _ => false | _ => true end.

(** A thread keeps the change it makes; one that gives the role up has not
    seen a mark that is not there. *)
Definition pc_ok (pc : Pc) (s : Sys) : Prop :=
  match pc with
  | PushLoad x f | Push x _ f => polite f /\ drains f
  | Load x f | Swap x f _ => polite f /\ (x <> None -> drains f)
  | Clear => changed s || asked s = true
  | Exit clear current =>
      (has DIRTY current = true -> has DIRTY (word s) = true) /\
      (has WAKE_FRONT current = true -> has WAKE_FRONT (word s) = true) /\ may_clear clear = true
  | ExitLoad clear | Owed clear => may_clear clear = true
  | _ => True
  end.

(** A thread that pushed [x] and has not published it. *)
Definition publishes (x : Z) (pc : Pc) : Prop :=
  match pc with Load (Some y) _ | Swap (Some y) _ _ => y = x | _ => False end.

Record inv (s : Sys) : Prop := {
  i_held : has DRAINING (word s) = bool_decide (holder s <> None);
  i_role : forall i pc, threads s !! i = Some pc -> draining pc = bool_decide (holder s = Some i);
  i_there : forall i, holder s = Some i -> exists pc, threads s !! i = Some pc;
  i_pcs : forall i pc, threads s !! i = Some pc -> pc_ok pc s;
  i_dirty : has DIRTY (word s) = true -> holder s <> None /\ changed s = true;
  i_changed : changed s = true -> has DIRTY (word s) = true \/ exists i, threads s !! i = Some Clear;
  i_front : has WAKE_FRONT (word s) = true -> holder s <> None /\ asked s = true;
  i_asked : asked s = true -> has WAKE_FRONT (word s) = true \/ (exists i, threads s !! i = Some Clear) \/
    (holder s = None /\ found_none s = true);
  i_order : pushed s = taken s ++ rev (arrivals s);
  i_arrived : forall x, x ∈ arrivals s ->
    (exists i pc, threads s !! i = Some pc /\ publishes x pc) \/ changed s = true \/
    (exists i front, threads s !! i = Some (Take front));
  i_passes : passes s + Z.b2z (changed s || asked s) <= changes s + requests s }.

Lemma queue_new_inv state :
  has DRAINING state = false -> has DIRTY state = false -> has WAKE_FRONT state = false -> inv (queue_new state).
Proof.
  intros H1 H2 H3. constructor; cbn; try done; try (by rewrite H1); try (by rewrite H2); try (by rewrite H3).
  set_solver.
Qed.

(** ** Steps *)

Ltac map_cases i :=
  repeat match goal with
  | h : <[i := _]> _ !! ?j = Some _ |- _ =>
      destruct (decide (i = j)) as [<- |]; [rewrite lookup_insert_eq in h; injection h as <- | rewrite lookup_insert_ne in h by done]
  | h : delete i _ !! ?j = Some _ |- _ => apply lookup_delete_Some in h as [? h]
  end.

(** A thread that publishes, and a mark that is served, are still there when
    another thread has moved. *)
Lemma arrived_keeps (m : gmap nat Pc) i pc pc' x :
  m !! i = Some pc -> (publishes x pc -> publishes x pc') -> (forall front, pc <> Take front) ->
  (exists j p, m !! j = Some p /\ publishes x p) \/ (exists j front, m !! j = Some (Take front)) ->
  (exists j p, <[i := pc']> m !! j = Some p /\ publishes x p) \/ (exists j front, <[i := pc']> m !! j = Some (Take front)).
Proof.
  intros Hi Hp Ht [(j & p & Hj & Hx) | (j & fr & Hj)].
  - left. destruct (decide (i = j)) as [<- |]; [| exists j, p; by rewrite lookup_insert_ne].
    exists i, pc'. rewrite lookup_insert_eq. split; [done |]. apply Hp. by simplify_eq.
  - right. destruct (decide (i = j)) as [<- |]; [| exists j, fr; by rewrite lookup_insert_ne]. simplify_eq. by destruct (Ht fr).
Qed.

(** A thread about to begin a pass is so when another has moved. *)
Lemma clear_stays (m : gmap nat Pc) i pc pc' :
  m !! i = Some pc -> (pc = Clear -> pc' = Clear) -> (exists j, m !! j = Some Clear) -> exists j, <[i := pc']> m !! j = Some Clear.
Proof.
  intros Hi Hc [j Hj]. destruct (decide (i = j)) as [<- |]; [| exists j; by rewrite lookup_insert_ne].
  exists i. rewrite lookup_insert_eq. f_equal. apply Hc. by simplify_eq.
Qed.

Lemma clear_left (m : gmap nat Pc) i pc :
  m !! i = Some pc -> pc <> Clear -> (exists j, m !! j = Some Clear) -> exists j, delete i m !! j = Some Clear.
Proof. intros Hi Hc [j Hj]. exists j. rewrite lookup_delete_ne; [done |]. intros ->. by simplify_eq. Qed.

Lemma inv_goto s i pc pc' :
  inv s -> threads s !! i = Some pc -> draining pc' = draining pc -> pc_ok pc' s ->
  (pc = Clear -> pc' = Clear) -> (forall front, pc <> Take front) -> (forall x, publishes x pc -> publishes x pc') ->
  inv (goto i pc' s).
Proof.
  intros [Hh Hr Ht Hp Hd Hc Ha Hf Ho Hx Hn] Hi Hdr Hok Hcl Htk Hpub. constructor; cbn; try done.
  - intros j p Hj. map_cases i; [| by apply Hr]. rewrite Hdr. by apply Hr.
  - intros j Hj. destruct (decide (i = j)) as [<- |]; [exists pc'; by rewrite lookup_insert_eq |].
    rewrite lookup_insert_ne by done. by apply Ht.
  - intros j p Hj. map_cases i; [done |]. by eapply Hp.
  - intros Hch. destruct (Hc Hch) as [? | ?]; [by left | right]. by eapply clear_stays.
  - intros Has. destruct (Hf Has) as [? | [? | ?]]; [by left | right; left; by eapply clear_stays | by right; right].
  - intros x Hin. pose proof (arrived_keeps (threads s) i pc pc' x Hi (Hpub x) Htk) as Hk.
    destruct (Hx x Hin) as [? | [? | ?]]; tauto.
Qed.

(** A call that has nothing to publish returns. *)
Lemma inv_returns s i pc :
  inv s -> threads s !! i = Some pc -> draining pc = false -> (forall x, ~ publishes x pc) -> inv (returns i s).
Proof.
  intros [Hh Hr Ht Hp Hd Hc Ha Hf Ho Hx Hn] Hi Hdr Hpub. constructor; cbn; try done.
  - intros j p Hj. map_cases i. by apply Hr.
  - intros j Hj. destruct (Ht j Hj) as [p Hpc]. exists p. rewrite lookup_delete_ne; [done |]. intros ->.
    rewrite (Hr j pc Hi) in Hdr. by rewrite bool_decide_eq_true_2 in Hdr.
  - intros j p Hj. map_cases i. by eapply Hp.
  - intros Hch. destruct (Hc Hch) as [? | ?]; [by left | right]. eapply clear_left; try done. by intros ->.
  - intros Has. destruct (Hf Has) as [? | [? | ?]]; [by left | right; left; eapply clear_left; try done; by intros -> | by right; right].
  - intros x Hin. destruct (Hx x Hin) as [(j & p & Hj & Hy) | [? | (j & fr & Hj)]]; [left | by right; left | right; right].
    + exists j, p. split; [| done]. rewrite lookup_delete_ne; [done |]. intros ->. simplify_eq. by destruct (Hpub x).
    + exists j, fr. rewrite lookup_delete_ne; [done |]. intros ->. by simplify_eq.
Qed.

Lemma step_push s i x h f :
  inv s -> threads s !! i = Some (Push x h f) -> inv (goto i (Load (Some x) f) (pushes x s)).
Proof.
  intros [Hh Hr Ht Hp Hd Hc Ha Hf Ho Hx Hn] Hi. pose proof (Hp i _ Hi) as [Hpol Hdr].
  constructor; cbn; try done.
  - intros j p Hj. map_cases i; [| by apply Hr]. by rewrite <- (Hr i _ Hi).
  - intros j Hj. destruct (decide (i = j)) as [<- |]; [eexists; by rewrite lookup_insert_eq |].
    rewrite lookup_insert_ne by done. by apply Ht.
  - intros j p Hj. map_cases i; [by split |]. by eapply Hp.
  - intros Hch. destruct (Hc Hch) as [? | ?]; [by left | right]. by eapply clear_stays.
  - intros Has. destruct (Hf Has) as [? | [? | ?]]; [by left | right; left; by eapply clear_stays | by right; right].
  - by rewrite Ho, app_assoc.
  - intros y [-> | Hin]%elem_of_cons; [left; exists i; eexists; by rewrite lookup_insert_eq |].
    pose proof (arrived_keeps (threads s) i _ (Load (Some x) f) y Hi) as Hk.
    destruct (Hx y Hin) as [? | [? | ?]]; [| by right; left |]; destruct Hk; naive_solver.
Qed.

Lemma sum_b2z a b c : a + Z.b2z b <= c -> a + Z.b2z true <= c + 1.
Proof. destruct b; cbn; lia. Qed.

(** A change made while another thread holds the role, or that asks for no
    pass: the call returns. *)
Lemma step_swap_returns s i x f next :
  inv s -> threads s !! i = Some (Swap x f (word s)) -> swaps (word s) (f (word s)) = Some (next, false) ->
  inv (returns i (notes (f (word s)) (with_word next s))).
Proof.
  intros Hi Hpc Hsw. pose proof Hi as [Hh Hr Ht Hp Hd Hc Ha Hf Ho Hx Hn].
  pose proof (Hp i _ Hpc) as [Hpol Hdr]. specialize (Hpol (word s)).
  assert (Hw : has DRAINING next = has DRAINING (word s) /\
    (has DIRTY (word s) = true -> has DIRTY next = true) /\ (has WAKE_FRONT (word s) = true -> has WAKE_FRONT next = true) /\
    (has DIRTY next = true -> has DIRTY (word s) = true \/ (has DRAINING (word s) = true /\ exists n, f (word s) = Drain n)) /\
    (match f (word s) with Drain _ => has DIRTY next = true | _ => True end) /\
    (has WAKE_FRONT (word s) || match f (word s) with Drain n | Wake n => has WAKE_FRONT n | _ => false end) = has WAKE_FRONT next).
  { destruct (f (word s)) as [|n|n|n]; cbn in Hsw; try done; [injection Hsw as <- | |];
      try (destruct (has DRAINING (word s)) eqn:Ed; [injection Hsw as <- | done]); destruct Hpol as (E1 & E2 & E3).
    - rewrite E1, E2, E3, orb_false_r. tauto.
    - bits. rewrite ?E1, ?E2. destruct (Z.testbit (word s) 5), (Z.testbit n 5); naive_solver.
    - bits. rewrite ?E1, ?E2, ?E3. destruct (Z.testbit (word s) 5); naive_solver. }
  destruct Hw as (W1 & W2 & W3 & W4 & W5 & W6).
  constructor; cbn; rewrite ?W1; try done.
  - intros j p Hj. map_cases i. by apply Hr.
  - intros j Hj. destruct (Ht j Hj) as [p Hp']. exists p. rewrite lookup_delete_ne; [done |]. intros ->.
    pose proof (Hr j _ Hpc) as E. by rewrite bool_decide_eq_true_2 in E.
  - intros j p Hj. map_cases i. pose proof (Hp j p Hj) as Hok. destruct p; try done; cbn in *.
    + by apply orb_true_iff in Hok as [-> | ->]; rewrite ?orb_true_l, ?orb_true_r.
    + destruct Hok as (? & ? & ?). auto.
  - intros Hdi. destruct (W4 Hdi) as [Hdi' | [Hdr' [n E]]].
    + destruct (Hd Hdi') as [? ->]. done.
    + rewrite E, orb_true_r. rewrite Hh in Hdr'. apply bool_decide_eq_true in Hdr'. done.
  - intros Hch. apply orb_true_iff in Hch as [Hch | Hch].
    + destruct (Hc Hch) as [? | ?]; [left; auto | right]. by eapply clear_left.
    + left. by destruct (f (word s)).
  - intros Hwf. rewrite <- W6 in Hwf. apply orb_true_iff in Hwf as [Hwf | Hwf]; [by destruct (Ha Hwf) as [? ->] |].
    rewrite Hwf, orb_true_r. split; [| done]. destruct (f (word s)) as [|n|n|n]; try done; cbn in Hsw;
      rewrite Hh in Hsw; by destruct (bool_decide_reflect (holder s <> None)).
  - intros [Has | Has]%orb_true_iff; [| left; by rewrite <- W6, Has, orb_true_r].
    destruct (Hf Has) as [? | [? | ?]]; [left; auto | right; left; by eapply clear_left | by right; right].
  - intros y Hin. destruct (Hx y Hin) as [(j & p & Hj & Hy) | [-> | (j & fr & Hj)]]; [| by right; left |].
    + destruct (decide (i = j)) as [<- | Hne]; [| left; exists j, p; by rewrite lookup_delete_ne].
      right. left. simplify_eq. destruct x as [x'|]; [| done]. specialize (Hdr ltac:(done) (word s)).
      destruct (f (word s)); try done. apply orb_true_r.
    + right. right. exists j, fr. rewrite lookup_delete_ne; [done |]. intros ->. by simplify_eq.
  - destruct (f (word s)) as [|n|n|n]; cbn; rewrite ?orb_false_r, ?orb_true_r; cbn; try lia;
      [| destruct (has WAKE_FRONT n)]; destruct (changed s), (asked s); cbn in *; lia.
Qed.

(** A change that claims the role: nobody holds it. *)
Lemma step_swap_claims s i x f next :
  inv s -> threads s !! i = Some (Swap x f (word s)) -> swaps (word s) (f (word s)) = Some (next, true) ->
  inv (goto i Clear (holds (Some i) (notes (f (word s)) (with_word next s)))).
Proof.
  intros Hi Hpc Hsw. pose proof Hi as [Hh Hr Ht Hp Hd Hc Ha Hf Ho Hx Hn].
  pose proof (Hp i _ Hpc) as [Hpol Hdr]. specialize (Hpol (word s)).
  assert (Hw : has DRAINING (word s) = false /\ has DRAINING next = true /\ has DIRTY next = has DIRTY (word s) /\
    match f (word s) with Drain n | Wake n => has WAKE_FRONT n | _ => false end = has WAKE_FRONT next /\
    (match f (word s) with Drain _ => true | _ => false end || has WAKE_FRONT next) = true /\
    match f (word s) with Drain _ | Wake _ => True | _ => False end).
  { destruct (f (word s)) as [|n|n|n]; cbn in Hsw; try done;
      (destruct (has DRAINING (word s)) eqn:Ed; [done | injection Hsw as <-]); destruct Hpol as (E1 & E2 & E3);
      bits; rewrite ?E2; first [solve [auto 10] | rewrite E3; auto 10]. }
  destruct Hw as (W1 & W2 & W3 & W4 & W5 & W6). rewrite W1 in Hh. symmetry in Hh. apply bool_decide_eq_false in Hh.
  assert (holder s = None) as Hno by (destruct (holder s); [by destruct Hh | done]).
  assert (has DIRTY (word s) = false) as Hdi by (destruct (has DIRTY (word s)) eqn:E; [by destruct Hd | done]).
  assert (Hnd : forall j p, threads s !! j = Some p -> draining p = false).
  { intros j p Hj. rewrite (Hr j p Hj), Hno. by apply bool_decide_eq_false. }
  assert (changed s = false) as Hch.
  { destruct (changed s); [| done]. destruct (Hc eq_refl) as [? | [j Hj]]; [congruence |]. by specialize (Hnd j _ Hj). }
  rewrite Hch in *. constructor; cbn; rewrite ?Hch, ?W2, ?W3, ?W4, ?Hdi; try done.
  - intros j p Hj. map_cases i; [by rewrite bool_decide_eq_true_2 |]. rewrite (Hnd j p Hj), bool_decide_eq_false_2; [done | congruence].
  - intros j [= <-]. exists Clear. by rewrite lookup_insert_eq.
  - intros j p Hj. map_cases i; [cbn; rewrite Hch, W4; by destruct (asked s); rewrite ?orb_true_r |].
    pose proof (Hp j p Hj) as Hok. specialize (Hnd j p Hj). by destruct p.
  - intros _. right. exists i. by rewrite lookup_insert_eq.
  - intros ->. by rewrite orb_true_r.
  - intros _. right. left. exists i. by rewrite lookup_insert_eq.
  - intros y Hin. destruct (Hx y Hin) as [(j & p & Hj & Hy) | [? | (j & fr & Hj)]]; [| done | by specialize (Hnd j _ Hj)].
    destruct (decide (i = j)) as [<- | Hne]; [| left; exists j, p; by rewrite lookup_insert_ne].
    right. left. simplify_eq. destruct x as [x'|]; [| done]. specialize (Hdr ltac:(done) (word s)). by destruct (f (word s)).
  - destruct (f (word s)); try done; cbn in *; destruct (asked s); cbn in *; [lia | lia | lia | rewrite W5; cbn; lia].
Qed.

Lemma step_clear s i :
  inv s -> threads s !! i = Some Clear ->
  inv (goto i (Take (has WAKE_FRONT (word s))) (begins (with_word (Z.ldiff (word s) (Z.lor DIRTY WAKE_FRONT)) s))).
Proof.
  intros [Hh Hr Ht Hp Hd Hc Ha Hf Ho Hx Hn] Hi. pose proof (Hp i _ Hi) as Hca. cbn in Hca.
  pose proof (Hr i _ Hi) as Hho. symmetry in Hho. apply bool_decide_eq_true in Hho.
  assert (has DRAINING (Z.ldiff (word s) (Z.lor DIRTY WAKE_FRONT)) = has DRAINING (word s) /\
    has DIRTY (Z.ldiff (word s) (Z.lor DIRTY WAKE_FRONT)) = false /\
    has WAKE_FRONT (Z.ldiff (word s) (Z.lor DIRTY WAKE_FRONT)) = false) as (W1 & W2 & W3) by (bits; auto).
  assert (Hnd : forall j p, i <> j -> threads s !! j = Some p -> draining p = false).
  { intros j p Hne Hj. rewrite (Hr j p Hj), Hho. apply bool_decide_eq_false. congruence. }
  constructor; cbn; rewrite ?W1, ?W2, ?W3; try done.
  - intros j p Hj. map_cases i; [by rewrite <- (Hr i _ Hi) | by apply Hr].
  - intros j Hj. destruct (decide (i = j)) as [<- |]; [eexists; by rewrite lookup_insert_eq |].
    rewrite lookup_insert_ne by done. by apply Ht.
  - intros j p Hj. map_cases i; [done |]. pose proof (Hp j p Hj) as Hok. specialize (Hnd j p ltac:(done) Hj). by destruct p.
  - intros y Hin. right. right. exists i. eexists. by rewrite lookup_insert_eq.
  - rewrite Hca in Hn. cbn in *. lia.
Qed.

Lemma step_take s i front :
  inv s -> threads s !! i = Some (Take front) -> inv (goto i (Pass (rev (arrivals s)) front) (takes s)).
Proof.
  intros [Hh Hr Ht Hp Hd Hc Ha Hf Ho Hx Hn] Hi. constructor; cbn; try done.
  - intros j p Hj. map_cases i; [by rewrite <- (Hr i _ Hi) | by apply Hr].
  - intros j Hj. destruct (decide (i = j)) as [<- |]; [eexists; by rewrite lookup_insert_eq |].
    rewrite lookup_insert_ne by done. by apply Ht.
  - intros j p Hj. map_cases i; [done |]. by eapply Hp.
  - intros Hch. destruct (Hc Hch) as [? | ?]; [by left | right]. by eapply clear_stays.
  - intros Has. destruct (Hf Has) as [? | [? | ?]]; [by left | right; left; by eapply clear_stays | by right; right].
  - by rewrite Ho, app_nil_r.
  - set_solver.
Qed.

(** The role is given up: no mark is left. *)
Lemma step_exit s i clear :
  inv s -> threads s !! i = Some (Exit clear (word s)) -> has (Z.lor DIRTY (wanted clear)) (word s) = false ->
  inv (let s' := with_word (Z.ldiff (word s) (gone clear)) s in
       returns i (holds None (ends (has QUEUED clear) s'))).
Proof.
  intros [Hh Hr Ht Hp Hd Hc Ha Hf Ho Hx Hn] Hi Hw. pose proof (Hp i _ Hi) as (_ & _ & Hcl).
  pose proof (Hr i _ Hi) as Hho. symmetry in Hho. apply bool_decide_eq_true in Hho.
  assert (Hnd : forall j p, i <> j -> threads s !! j = Some p -> draining p = false).
  { intros j p Hne Hj. rewrite (Hr j p Hj), Hho. apply bool_decide_eq_false. congruence. }
  rewrite has_or in Hw. apply orb_false_iff in Hw as [Hdi Hwf].
  assert (changed s = false) as Hch.
  { destruct (changed s); [| done]. destruct (Hc eq_refl) as [? | [j Hj]]; [congruence |].
    destruct (decide (i = j)) as [<- | Hne]; [by simplify_eq |]. by specialize (Hnd j _ Hne Hj). }
  assert (has DRAINING (Z.ldiff (word s) (gone clear)) = false /\ has DIRTY (Z.ldiff (word s) (gone clear)) = false /\
    has WAKE_FRONT (Z.ldiff (word s) (gone clear)) = false /\ (has WAKE_FRONT (word s) = true -> has QUEUED clear = true)) as (W1 & W2 & W3 & W4).
  { unfold gone, wanted in *. destruct (has QUEUED clear); bits; rewrite ?Hdi, ?Hwf; cbn; rewrite ?andb_false_r; repeat split; done. }
  assert (He : forall x, x ∈ arrivals s -> exists j pc, delete i (threads s) !! j = Some pc /\ publishes x pc).
  { intros y Hin. destruct (Hx y Hin) as [(j & p & Hj & Hy) | [? | (j & fr & Hj)]]; [| congruence |].
    - exists j, p. rewrite lookup_delete_ne; [done |]. intros ->. by simplify_eq.
    - destruct (decide (i = j)) as [<- | Hne]; [by simplify_eq | by specialize (Hnd j _ Hne Hj)]. }
  cbv zeta. constructor; cbn; rewrite ?W1, ?W2, ?W3, ?Hch; try done.
  - intros j p Hj. map_cases i. rewrite (Hnd j p ltac:(done) Hj). by rewrite bool_decide_eq_false_2.
  - intros j p Hj. map_cases i. pose proof (Hp j p Hj) as Hok. specialize (Hnd j p ltac:(done) Hj). by destruct p.
  - intros Has. right. right. split; [done |]. destruct (Hf Has) as [? | [[j Hj] | [? _]]]; [by apply W4 | | congruence].
    destruct (decide (i = j)) as [<- | Hne]; [by simplify_eq | by specialize (Hnd j _ Hne Hj)].
  - intros y Hin. left. by apply He.
  - by rewrite Hch in Hn.
Qed.

(** ** Every action *)

Lemma inv_word s next : inv s -> own_bits next = own_bits (word s) -> inv (with_word next s).
Proof.
  intros [Hh Hr Ht Hp Hd Hc Ha Hf Ho Hx Hn] (E1 & E2 & E3)%own_bits_spec.
  constructor; cbn; rewrite ?E1, ?E2, ?E3; try done.
  intros i pc Hi. pose proof (Hp i pc Hi) as Hok. destruct pc; try done. cbn in *. by rewrite E2, E3.
Qed.

Lemma inv_call s i x f :
  inv s -> threads s !! i = None -> polite f -> (x <> None -> drains f) ->
  inv (goto i (match x with Some x => PushLoad x f | None => Load None f end) s).
Proof.
  intros [Hh Hr Ht Hp Hd Hc Ha Hf Ho Hx Hn] Hi Hpol Hdr.
  assert (holder s <> Some i) as Hni by (intros E; destruct (Ht i E); congruence).
  constructor; cbn; try done.
  - intros j p Hj. map_cases i; [| by apply Hr]. rewrite bool_decide_eq_false_2 by done. by destruct x.
  - intros j Hj. rewrite lookup_insert_ne by congruence. by apply Ht.
  - intros j p Hj. map_cases i; [destruct x; cbn; auto |]. by eapply Hp.
  - intros Hch. destruct (Hc Hch) as [? | [j Hj]]; [by left | right]. exists j. rewrite lookup_insert_ne; [done | congruence].
  - intros Has. destruct (Hf Has) as [? | [[j Hj] | ?]]; [by left | right; left | by right; right].
    exists j. rewrite lookup_insert_ne; [done | congruence].
  - intros y Hin. destruct (Hx y Hin) as [(j & p & Hj & Hy) | [? | (j & fr & Hj)]]; [left | by right; left | right; right].
    + exists j, p. rewrite lookup_insert_ne; [done | congruence].
    + exists j, fr. rewrite lookup_insert_ne; [done | congruence].
Qed.

Lemma drain_step_ok i b clear s :
  inv s -> match step i b clear s with Ok s' => inv s' | Err e => e = Disabled end.
Proof.
  intros Hi. unfold step. destruct (threads s !! i) as [pc|] eqn:Hpc; [| done].
  pose proof (i_pcs s Hi i pc Hpc) as Hok. pose proof (inv_goto s i pc) as Hg.
  destruct pc as [x f|x h f|x f|x f cur| |front|l front|cl|cl|cl cur].
  - by apply Hg.
  - destruct (negb b && _); [by eapply step_push | by apply Hg].
  - by apply Hg.
  - destruct (swaps cur (f cur)) as [[next claim]|] eqn:Hs.
    + destruct (swapped b cur s) eqn:Ec; [| by apply Hg]. unfold swapped in Ec. apply andb_true_iff in Ec as [_ <-%Z.eqb_eq].
      destruct claim; [by eapply step_swap_claims | by eapply step_swap_returns].
    + eapply inv_returns; try done. intros y Hy. destruct x as [x|]; [| done]. destruct Hok as [_ Hdr].
      specialize (Hdr ltac:(done) cur). destruct (f cur); try done. cbn in Hs. by destruct (has DRAINING cur).
  - by apply step_clear.
  - by apply step_take.
  - destruct (may_clear clear) eqn:E; [by apply Hg | done].
  - apply Hg; try done. cbn in *. destruct (owed s =? 0); [| done]. unfold may_clear in *. rewrite !has_or in *.
    bits. done.
  - by apply Hg.
  - destruct (negb (has _ cur)) eqn:Ew.
    + destruct (swapped b cur s) eqn:Ec.
      * unfold swapped in Ec. apply andb_true_iff in Ec as [_ <-%Z.eqb_eq]. apply negb_true_iff in Ew. by apply step_exit.
      * apply Hg; try done. cbn in *. tauto.
    + apply Hg; try done. cbn in *. apply negb_false_iff in Ew. rewrite has_or in Ew. destruct Hok as (H1 & H2 & _).
      apply orb_true_iff in Ew as [Ew | Ew]; [by destruct (i_dirty s Hi (H1 Ew)) as [_ ->] |].
      unfold wanted in Ew. destruct (has QUEUED cl); [by rewrite has_none in Ew |].
      destruct (i_front s Hi (H2 Ew)) as [_ ->]. apply orb_true_r.
Qed.

Lemma drain_act_ok a s :
  inv s -> polite_act a -> match act a s with Ok s' => inv s' | Err e => e = Disabled end.
Proof.
  intros Hi Hp. destruct a as [i x f|i b clear|next|n]; cbn.
  - destruct (threads s !! i) eqn:E; [done |]. destruct Hp. by apply inv_call.
  - by apply drain_step_ok.
  - destruct (Z.eqb_spec (own_bits next) (own_bits (word s))); [by apply inv_word | done].
  - by destruct Hi.
Qed.

Lemma drain_acts_ok l s s' : Forall polite_act l -> inv s -> acts l s = Ok s' -> inv s'.
Proof.
  intros Hl. revert s. induction Hl as [|a l Ha Hl IH]; intros s Hi; cbn; [by intros [= <-] |].
  pose proof (drain_act_ok a s Hi Ha) as Hs. destruct (act a s) as [s1|]; cbn; [| done]. by apply IH.
Qed.

(** ** A drain left alone ends *)

Definition clean (s : Sys) : bool := negb (has DIRTY (word s)) && negb (has WAKE_FRONT (word s)).

(** How many steps the holder takes at most when no other thread does. *)
Definition drain_left (pc : Pc) (s : Sys) : Z :=
  let more := if clean s then 0 else 7 in
  match pc with
  | Clear => 6
  | Take _ => 5 + more
  | Pass _ _ => 4 + more
  | Owed _ => 3 + more
  | ExitLoad _ => 2 + more
  | Exit _ current => (if word s =? current then 1 else 2) + more
  | _ => 0
  end.

Lemma drain_left_step i pc clear s :
  inv s -> threads s !! i = Some pc -> draining pc = true -> may_clear clear = true ->
  exists s', act (StepOf i false clear) s = Ok s' /\ inv s' /\
    (threads s' !! i = None \/
     exists pc', threads s' !! i = Some pc' /\ draining pc' = true /\ 0 <= drain_left pc' s' < drain_left pc s).
Proof.
  intros Hi Hpc Hd Hc. pose proof (drain_act_ok (StepOf i false clear) s Hi I) as Ha. cbn in *. unfold step in *.
  rewrite Hpc in *. pose proof (i_pcs s Hi i pc Hpc) as Hok.
  assert (Hgo : forall s1 pc', inv (goto i pc' s1) -> draining pc' = true -> 0 <= drain_left pc' s1 < drain_left pc s ->
    exists s', (Ok (goto i pc' s1) : Step) = Ok s' /\ inv s' /\ (threads s' !! i = None \/
      exists pc', threads s' !! i = Some pc' /\ draining pc' = true /\ 0 <= drain_left pc' s' < drain_left pc s)).
  { intros s1 pc' Hi1 Hd' Hl. eexists. split; [done |]. split; [done |]. right. exists pc'.
    cbn. rewrite lookup_insert_eq. done. }
  destruct pc as [x f|x h f|x f|x f cur| |front|l front|cl|cl|cl cur]; try done.
  - apply Hgo; try done. cbn. unfold clean. cbn. assert (has DIRTY (Z.ldiff (word s) (Z.lor DIRTY WAKE_FRONT)) = false /\
      has WAKE_FRONT (Z.ldiff (word s) (Z.lor DIRTY WAKE_FRONT)) = false) as [-> ->] by (bits; auto). cbn. lia.
  - apply Hgo; try done. unfold drain_left, clean; cbn; destruct (negb _ && negb _); lia.
  - rewrite Hc in *. apply Hgo; try done. unfold drain_left, clean; cbn; destruct (negb _ && negb _); lia.
  - apply Hgo; try done. unfold drain_left, clean; cbn; destruct (negb _ && negb _); lia.
  - apply Hgo; try done. cbn. rewrite Z.eqb_refl. unfold clean; destruct (negb _ && negb _); lia.
  - destruct (negb (has (Z.lor DIRTY (wanted cl)) cur)) eqn:Ew.
    + unfold swapped in *. cbn [negb andb] in *. destruct (Z.eqb_spec (word s) cur) as [<- | Hne].
      * eexists. split; [done |]. split; [done |]. left. cbn. apply lookup_delete_eq.
      * apply Hgo; try done. cbn. rewrite Z.eqb_refl. rewrite (proj2 (Z.eqb_neq _ _)) by done. unfold clean; destruct (negb _ && negb _); lia.
    + apply Hgo; try done. cbn. apply negb_false_iff in Ew. rewrite has_or in Ew. destruct Hok as (H1 & H2 & _).
      assert (clean s = false) as ->; [| destruct (_ =? _); lia]. unfold clean.
      apply orb_true_iff in Ew as [Ew | Ew]; [by rewrite (H1 Ew) |]. unfold wanted in Ew.
      destruct (has QUEUED cl); [by rewrite has_none in Ew |]. rewrite (H2 Ew). apply andb_false_r.
Qed.

Lemma drain_left_runs n i pc clear s :
  inv s -> threads s !! i = Some pc -> draining pc = true -> may_clear clear = true -> drain_left pc s <= Z.of_nat n ->
  exists k s', (k <= n + 1)%nat /\ acts (replicate k (StepOf i false clear)) s = Ok s' /\ threads s' !! i = None.
Proof.
  intros Hi Hpc Hd Hc. revert s pc Hi Hpc Hd. induction n as [|n IH]; intros s pc Hi Hpc Hd Hl;
    destruct (drain_left_step i pc clear s Hi Hpc Hd Hc) as (s1 & Ha & Hi1 & [Hn | (pc' & Hpc' & Hd' & Hl')]).
  1,3: exists 1%nat, s1; split; [lia |]; split; [exact (run_step act _ _ _ _ Ha) | done].
  - lia.
  - destruct (IH s1 pc' Hi1 Hpc' Hd' ltac:(lia)) as (k & s' & Hk & Hr & Hn).
    exists (S k), s'. split; [lia |]. split; [| done]. unfold acts. cbn [replicate]. by rewrite (run_step act _ _ _ _ Ha).
Qed.

(** While nobody holds the role, nothing is left for it. *)
Lemma free_is_served s :
  inv s -> has DRAINING (word s) = false ->
  changed s = false /\ (asked s = true -> found_none s = true) /\
  forall x, x ∈ arrivals s -> exists i pc, threads s !! i = Some pc /\ publishes x pc.
Proof.
  intros [Hh Hr Ht Hp Hd Hc Ha Hf Ho Hx Hn] Hw. rewrite Hw in Hh. symmetry in Hh. apply bool_decide_eq_false in Hh.
  assert (holder s = None) as Hno by (destruct (holder s); [by destruct Hh | done]).
  assert (Hnd : forall j p, threads s !! j = Some p -> draining p = false).
  { intros j p Hj. rewrite (Hr j p Hj), Hno. by apply bool_decide_eq_false. }
  assert (changed s = false) as Hch.
  { destruct (changed s); [| done]. destruct (Hc eq_refl) as [? | [j Hj]]; [by destruct Hd | by specialize (Hnd j _ Hj)]. }
  split; [done |]. split.
  { intros Has. destruct (Hf Has) as [Hwf | [[j Hj] | [_ ?]]]; [by destruct (Ha Hwf) | by specialize (Hnd j _ Hj) | done]. }
  intros x Hin. destruct (Hx x Hin) as [? | [? | (j & fr & Hj)]]; [done | congruence | by specialize (Hnd j _ Hj)].
Qed.

(** ** The theorem *)

Lemma drain_left_bound pc s : drain_left pc s <= 12.
Proof. unfold drain_left. destruct pc, (clean s); cbn; try case_match; lia. Qed.

(** C15. However the threads' calls interleave, from a queue whose role is free
    and unmarked: one thread at most is inside [drain]; the passes have taken
    the waiters in the order they were pushed, each once, and those not taken
    are the stack; no more passes began than changes and requests asked for one.
    While the role is free every change that asked for a pass came before a pass
    began; a request to wake the front that came after the last pass began was
    dropped because that pass found nobody queued, and is never dropped
    otherwise; and a waiter still on the stack has a thread about to publish it.
    And whoever holds the role gives it up, in 13 steps of its own at most, once
    the others stand still. *)
Theorem drain_misses_no_change (state clear : Z) (l : list Act) (s : Sys)
    (Hfree : has DRAINING state = false /\ has DIRTY state = false /\ has WAKE_FRONT state = false)
    (Hl : Forall polite_act l) (Hrun : acts l (queue_new state) = Ok s) (Hc : may_clear clear = true) :
  (forall i j p q, threads s !! i = Some p -> threads s !! j = Some q -> draining p = true -> draining q = true -> i = j) /\
  pushed s = taken s ++ rev (arrivals s) /\
  passes s <= changes s + requests s /\
  (has DRAINING (word s) = false ->
     changed s = false /\ (asked s = true -> found_none s = true) /\
     forall x, x ∈ arrivals s -> exists i pc, threads s !! i = Some pc /\ publishes x pc) /\
  (forall i pc, threads s !! i = Some pc -> draining pc = true ->
     exists k s', (k <= 13)%nat /\ acts (replicate k (StepOf i false clear)) s = Ok s' /\ threads s' !! i = None).
Proof.
  destruct Hfree as (H1 & H2 & H3).
  pose proof (drain_acts_ok l _ s Hl (queue_new_inv state H1 H2 H3) Hrun) as Hi. pose proof (i_role s Hi) as Hr.
  split; [| split; [exact (i_order s Hi) | split; [| split]]].
  - intros i j p q Hp Hq Hdp Hdq. rewrite (Hr i p Hp) in Hdp. rewrite (Hr j q Hq) in Hdq.
    apply bool_decide_eq_true in Hdp, Hdq. congruence.
  - pose proof (i_passes s Hi). destruct (changed s || asked s); cbn in *; lia.
  - apply free_is_served, Hi.
  - intros i pc Hpc Hd. apply (drain_left_runs 12 i pc clear s Hi Hpc Hd Hc). apply drain_left_bound.
Qed.

#[local] Transparent has.

(** A second waiter arrives while the first one's pass runs. *)
Definition two_arrive : list Act :=
  [Call 0 (Some 7) enqueues; Call 1 (Some 8) enqueues] ++
  replicate 6 (StepOf 0 false 0) ++ replicate 4 (StepOf 1 false 0).

Lemma two_arrive_polite : Forall polite_act two_arrive.
Proof. repeat constructor; cbn; try apply enqueues_polite; intros _; apply enqueues_polite. Qed.

Definition two_arrived : Sys := match acts two_arrive (queue_new 0) with Ok s => s | Err _ => queue_new 0 end.

Lemma drain_misses_no_change_witness :
  acts two_arrive (queue_new 0) = Ok two_arrived /\
  taken two_arrived = [7] /\ arrivals two_arrived = [8] /\ has DIRTY (word two_arrived) = true /\
  exists k s', (k <= 13)%nat /\ acts (replicate k (StepOf 0 false 0)) two_arrived = Ok s' /\ threads s' !! 0%nat = None.
Proof.
  split; [vm_compute; reflexivity |]. do 3 (split; [vm_compute; reflexivity |]).
  refine (proj2 (proj2 (proj2 (proj2 (drain_misses_no_change 0 0 two_arrive two_arrived _ two_arrive_polite _ _)))) 0%nat
    (default Clear (threads two_arrived !! 0%nat)) _ _); [repeat split |..]; vm_compute; reflexivity.
Defined.
