(* ===== verification/Spin.v ===== *)
(** * The spin of a contended acquire

    [sync/spin.rs]: how many rounds a lock's next spin makes, doubled by a spin
    that saw what it waited for and halved by one that ran out, and the gaps
    between two looks of a spin on the state word. The budget is one byte, read
    and written by single atomic operations; a report of a spin reads it only to
    see that it is not [NEVER], which never changes, so a report is one step. *)

From S2P Require Import Prelude.
Open Scope Z_scope.

Definition SPIN_MAX : Z := 128.
Definition START : Z := 64.
Definition GAP_MAX : Z := 16.
Definition NEVER : Z := 255.

(** ** Gaps *)

Record Gaps : Type := { gap : Z; gaps_left : Z }.

Definition gaps_new (rounds : Z) : Gaps := {| gap := 1; gaps_left := rounds |}.

(** [Gaps::wait]: the gaps after the next pause, or nothing once the budget is
    spent. *)
Definition wait (g : Gaps) : option Gaps :=
  if gaps_left g =? 0 then None
  else
    let pauses := Z.min (gap g) (gaps_left g) in
    Some {| gap := Z.min (gap g * 2) GAP_MAX; gaps_left := gaps_left g - pauses |}.

(** ** The budget *)

Definition rounds (budget : Z) : Z := if budget =? NEVER then 0 else budget.

(** [Budget::store], on the byte: [u8::try_from] refuses what does not fit. *)
Definition store (from next budget : Z) : Z :=
  if negb (next =? from) && (next <? 256) && negb (budget =? NEVER) then next else budget.

Definition u32_max : Z := 2 ^ 32 - 1.

Definition won (n budget : Z) : Z := store n (Z.min (Z.max (Z.min (n * 2) u32_max) 1) SPIN_MAX) budget.
Definition ran_out (n budget : Z) : Z := store n (n / 2) budget.

(** ** What it keeps *)

Definition budget_fits (budget : Z) : Prop := budget = NEVER \/ 0 <= budget <= SPIN_MAX.

(** The pauses of a whole spin. *)
Fixpoint pauses (fuel : nat) (g : Gaps) : option Z :=
  match fuel with
  | O => None
  | S fuel =>
      match wait g with
      | None => Some 0
      | Some g' => option_map (Z.add (gaps_left g - gaps_left g')) (pauses fuel g')
      end
  end.

Lemma wait_Some g g' :
  wait g = Some g' -> 1 <= gap g -> 0 <= gaps_left g -> 1 <= gap g' /\ 0 <= gaps_left g' < gaps_left g.
Proof.
  unfold wait. destruct (Z.eqb_spec (gaps_left g) 0); [done |]. intros [= <-] Hg Hl. cbn.
  unfold GAP_MAX. lia.
Qed.

Lemma pauses_all fuel g :
  1 <= gap g -> 0 <= gaps_left g < Z.of_nat fuel -> pauses fuel g = Some (gaps_left g).
Proof.
  revert g. induction fuel as [|fuel IH]; intros g Hg Hl; [lia |]. cbn [pauses].
  destruct (wait g) as [g'|] eqn:E.
  - pose proof (wait_Some g g' E Hg ltac:(lia)) as [? ?]. rewrite IH by lia. cbn. f_equal. lia.
  - unfold wait in E. destruct (Z.eqb_spec (gaps_left g) 0) as [-> |]; done.
Qed.

Lemma store_fits n next b : budget_fits b -> 0 <= next <= SPIN_MAX -> budget_fits (store n next b).
Proof. unfold store, budget_fits. intros H Hn. case_match; [by right | done]. Qed.

Lemma won_fits n b : budget_fits b -> 0 <= n -> budget_fits (won n b).
Proof. intros H Hn. apply store_fits; [done |]. unfold SPIN_MAX. lia. Qed.

Lemma ran_out_fits n b : budget_fits b -> 0 <= n <= SPIN_MAX -> budget_fits (ran_out n b).
Proof.
  intros H Hn. apply store_fits; [done |]. split; [apply Z.div_pos; lia |].
  pose proof (Z.div_le_upper_bound n 2 n). lia.
Qed.

Lemma rounds_fits b : budget_fits b -> 0 <= rounds b <= SPIN_MAX.
Proof. unfold rounds, budget_fits, SPIN_MAX. intros [-> | H]; [done |]. case_match; lia. Qed.

(** A report never stores what the budget's owner means as never. *)
Lemma never_stays n b : b = NEVER -> won n b = NEVER /\ ran_out n b = NEVER.
Proof. intros ->. unfold won, ran_out, store. by rewrite !andb_false_r. Qed.
