(* ===== verification/NodeCell.v ===== *)
(** * A waiter node as its primitives see it

    What the users of a waiter node ([sync/waiter/]) rely on: a wait that waits,
    is granted or is withdrawn, with the marks on it, its payload and who still
    holds it. Each operation of the node is one step here; [NodeCellSpec] shows
    that the node's own steps, one atomic operation each, come to these. *)

From S2P Require Import Prelude.
Open Scope Z_scope.

Inductive CellPhase : Type := Waiting | Granted | Cancelled.

#[global] Instance CellPhase_eq_dec : EqDecision CellPhase.
Proof. solve_decision. Defined.

(** [held_by_future]: the future has neither seen its grant nor withdrawn. *)
Record Cell : Type := {
  phase : CellPhase;
  nudged : bool;
  owed_mark : bool;
  payload : Z;
  held_by_future : bool;
  held_by_queue : bool
}.

(** [Waiter::arm]. *)
Definition cell_new (p : Z) : Cell :=
  {| phase := Waiting; nudged := false; owed_mark := false; payload := p; held_by_future := true; held_by_queue := true |}.

Definition set_phase x c := {| phase := x; nudged := nudged c; owed_mark := owed_mark c; payload := payload c;
  held_by_future := held_by_future c; held_by_queue := held_by_queue c |}.
Definition set_nudged x c := {| phase := phase c; nudged := x; owed_mark := owed_mark c; payload := payload c;
  held_by_future := held_by_future c; held_by_queue := held_by_queue c |}.
Definition set_owed_mark x c := {| phase := phase c; nudged := nudged c; owed_mark := x; payload := payload c;
  held_by_future := held_by_future c; held_by_queue := held_by_queue c |}.
Definition set_payload x c := {| phase := phase c; nudged := nudged c; owed_mark := owed_mark c; payload := x;
  held_by_future := held_by_future c; held_by_queue := held_by_queue c |}.
Definition drop_future c := {| phase := phase c; nudged := nudged c; owed_mark := owed_mark c; payload := payload c;
  held_by_future := false; held_by_queue := held_by_queue c |}.
Definition drop_queue c := {| phase := phase c; nudged := nudged c; owed_mark := owed_mark c; payload := payload c;
  held_by_future := held_by_future c; held_by_queue := false |}.

Definition is_waiting (c : Cell) : bool := match phase c with Waiting => true | _ => false end.
Definition is_granted (c : Cell) : bool := match phase c with Granted => true | _ => false end.
Definition is_cancelled (c : Cell) : bool := match phase c with Cancelled => true | _ => false end.

(** ** The queue's operations *)

(** [WakeList::grant], up to the release: whether the wait still waited. *)
Definition cell_grant (c : Cell) : bool * Cell :=
  if is_waiting c then (true, set_nudged false (set_phase Granted c)) else (false, c).

(** [WakeList::nudge]: whether a nudge is on its way, this one or another. *)
Definition cell_nudge (c : Cell) : bool * Cell :=
  if is_waiting c then (true, set_nudged true c) else (false, c).

(** [release_queued]: whether there was a mark to settle. *)
Definition cell_let_go (c : Cell) : bool * Cell := (owed_mark c, drop_queue c).

(** ** The future's operations *)

(** [Wait::park]. *)
Inductive Seen : Type := SeenGranted (p : Z) | SeenNudged | SeenPending.

Definition cell_look (c : Cell) : Seen * Cell :=
  if is_granted c then (SeenGranted (payload c), drop_future c)
  else if nudged c then (SeenNudged, set_nudged false c)
  else (SeenPending, c).

(** What a spin on the node waits for. *)
Definition cell_marked (c : Cell) : bool := is_granted c || nudged c.

(** [Wait::owe] and [Wait::unowe]. *)
Definition cell_owe (c : Cell) : bool * Cell :=
  if is_waiting c then (true, set_owed_mark true c) else (false, c).
Definition cell_unowe (c : Cell) : bool * Cell :=
  if is_waiting c && owed_mark c then (true, set_owed_mark false c) else (false, c).

(** [Wait::cancel]. *)
Inductive Left : Type := LeftGranted (p : Z) | LeftWithdrawn (nudge_unused : bool).

Definition cell_cancel (c : Cell) : Left * Cell :=
  if is_granted c then (LeftGranted (payload c), drop_future c)
  else (LeftWithdrawn (nudged c), drop_future (set_nudged false (set_phase Cancelled c))).
