(* ===== verification/NodeCellSpec.v ===== *)
(** * The waiter node is the cell its users see

    Every run of a waiter node ([WaiterNode]: its word one atomic operation at a
    time, three parties at once) is a run of the cell ([NodeCell]), on which the
    operations of the future and of the queue are single steps: the calls and
    the answers are the same, in the same order. The step of a call falls
    between its call and its return: where its compare-and-swap succeeds, or at
    the load that decides it. *)

From S2P Require Import Prelude AtomicWaits WaiterNode WaiterNodeInv WaiterNodeFuture WaiterNodeQueue WaiterNodeSpec NodeCell.
Open Scope Z_scope.

(** ** The cell as a system of two sides *)

Inductive CellOp : Type :=
| OpPayload (p : Z)
| OpGrant
| OpNudge
| OpPrune
| OpLetGo
| OpLook
| OpAsk
| OpOwe
| OpUnowe
| OpCancel.

Inductive CellAnswer : Type :=
| Told (b : bool)
| Collected (p : Z)
| SawNudge
| SawNothing
| Withdrawn (nudge_unused : bool).

(** [Wait::granted]: a look that leaves a nudge alone. *)
Definition cell_ask (c : Cell) : Seen * Cell :=
  if is_granted c then (SeenGranted (payload c), drop_future c) else (SeenPending, c).

Definition saw (r : Seen) : CellAnswer :=
  match r with SeenGranted p => Collected p | SeenNudged => SawNudge | SeenPending => SawNothing end.
Definition left_with (r : Left) : CellAnswer :=
  match r with LeftGranted p => Collected p | LeftWithdrawn b => Withdrawn b end.

Definition cell_op (o : CellOp) (c : Cell) : CellAnswer * Cell :=
  match o with
  | OpPayload p => (Told true, set_payload p c)
  | OpGrant => prod_map Told id (cell_grant c)
  | OpNudge => prod_map Told id (cell_nudge c)
  | OpPrune => (Told (is_cancelled c), c)
  | OpLetGo => prod_map Told id (cell_let_go c)
  | OpLook => prod_map saw id (cell_look c)
  | OpAsk => prod_map saw id (cell_ask c)
  | OpOwe => prod_map Told id (cell_owe c)
  | OpUnowe => prod_map Told id (cell_unowe c)
  | OpCancel => prod_map left_with id (cell_cancel c)
  end.

(** A side is in no call, has called, or has its answer and did not return. *)
Inductive Side : Type := TheFuture | TheQueue.
Inductive Status : Type := Free | Asked (o : CellOp) | Answered (r : CellAnswer).
Inductive Event : Type := Calls (x : Side) (o : CellOp) | Returns (x : Side) (r : CellAnswer).

Record Spec : Type := { cell : Cell; f_call : Status; q_call : Status }.

Definition spec_new (p : Z) : Spec := {| cell := cell_new p; f_call := Free; q_call := Free |}.

Definition status (x : Side) (t : Spec) : Status := match x with TheFuture => f_call t | TheQueue => q_call t end.
Definition set_status (x : Side) (u : Status) (t : Spec) : Spec :=
  match x with
  | TheFuture => {| cell := cell t; f_call := u; q_call := q_call t |}
  | TheQueue => {| cell := cell t; f_call := f_call t; q_call := u |}
  end.
Definition set_cell (c : Cell) (t : Spec) : Spec := {| cell := c; f_call := f_call t; q_call := q_call t |}.

Inductive spec_run : list Event -> Spec -> Spec -> Prop :=
| spec_nothing t : spec_run [] t t
| spec_call x o es t t' : status x t = Free -> spec_run es (set_status x (Asked o) t) t' -> spec_run (Calls x o :: es) t t'
| spec_effect x o es t t' :
    status x t = Asked o ->
    spec_run es (set_status x (Answered (fst (cell_op o (cell t)))) (set_cell (snd (cell_op o (cell t))) t)) t' ->
    spec_run es t t'
| spec_return x r es t t' :
    status x t = Answered r -> spec_run es (set_status x Free t) t' -> spec_run (Returns x r :: es) t t'.

Lemma spec_run_app es1 es2 t1 t2 t3 : spec_run es1 t1 t2 -> spec_run es2 t2 t3 -> spec_run (es1 ++ es2) t1 t3.
Proof.
  induction 1 as [| x o es t t' Ho H IH | x o es t t' Ho H IH | x r es t t' Ho H IH]; intros H3; cbn; [done | | |].
  - by apply spec_call; [| apply IH].
  - apply (spec_effect x o); [done | by apply IH].
  - by apply spec_return; [| apply IH].
Qed.

(** ** The node as a cell *)

Definition f_keeps (pc : FuturePc) : bool :=
  match pc with FCancelTake _ | FRelease _ | FPut _ | FGone _ => false | _ => true end.
Definition q_keeps (pc : QueuePc) : bool := match pc with QRelease _ | QPut _ | QGone _ => false | _ => true end.

Definition cell_at (w p : Z) (f q : bool) : Cell :=
  {| phase := if in_phase GRANTED w then Granted else if in_phase CANCELLED w then Cancelled else Waiting;
     nudged := in_phase WAITING w && has NUDGED w;
     owed_mark := has OWED w;
     payload := p;
     held_by_future := f;
     held_by_queue := q |}.

Definition cell_of (s : Sys) : Cell :=
  cell_at (word (node s)) (WaiterNode.payload (node s)) (f_keeps (fpc s)) (q_keeps (qpc s)).

(** What the calls and the returns of a step are. *)
Definition ended (o : Outcome) : CellAnswer := match o with WasGranted p => Collected p | Withdrew b => Withdrawn b end.
Definition f_answer (r : option FutureResult) : CellAnswer :=
  match r with
  | Some (Owed b) | Some (Unowed b) => Told b
  | Some ParkNudged => SawNudge
  | _ => SawNothing
  end.
Definition q_answer (r : option QueueResult) : CellAnswer := match r with Some (NudgeOut b) => Told b | _ => Told false end.

(** A node that leaves its list is let go of. *)
Definition q_events (s s' : Sys) : list Event :=
  match qpc s, qpc s' with
  | QPayload _, _ => [Returns TheQueue (Told true); Calls TheQueue OpGrant]
  | QTouch _ _, QOwed b => [Returns TheQueue (Told b); Calls TheQueue OpLetGo]
  | QPrune, QOwed _ => [Returns TheQueue (Told true); Calls TheQueue OpLetGo]
  | QTouch _ _, QIdle | QPrune, QIdle => [Returns TheQueue (q_answer (q_result s'))]
  | QOwed _, _ => [Returns TheQueue (Told (negb (forgiven s' =? forgiven s)))]
  | _, _ => []
  end.

Definition events (a : Act) (s s' : Sys) : list Event :=
  match a with
  | ParkFresh | Park _ | SpinPark _ _ => [Calls TheFuture OpLook]
  | AskGranted => [Calls TheFuture OpAsk]
  | Owe => [Calls TheFuture OpOwe]
  | Unowe => [Calls TheFuture OpUnowe]
  | Cancel => [Calls TheFuture OpCancel]
  | FutureStep _ =>
      match fpc s' with
      | FIdle _ => [Returns TheFuture (f_answer (f_result s'))]
      | FGone o => [Returns TheFuture (ended o)]
      | _ => []
      end
  | Grant (Some p) => [Calls TheQueue (OpPayload p)]
  | Grant None => [Calls TheQueue OpGrant]
  | Nudge => [Calls TheQueue OpNudge]
  | Prune => [Calls TheQueue OpPrune]
  | QueueStep _ => q_events s s'
  | WakeStep _ | Call _ => []
  end.

Fixpoint history (l : list Act) (s : Sys) : list Event :=
  match l with
  | [] => []
  | a :: l => match act a s with Ok s' => events a s s' ++ history l s' | Err _ => [] end
  end.

(** Where a side is in its call. *)
Definition f_status (pc : FuturePc) (x : Status) : Prop :=
  match pc with
  | FIdle _ | FGone _ => x = Free
  | FLoad _ | FTry _ _ | FWrite _ _ | FSettleLoad _ | FSettle _ _ | FSpinLoad _ _ | FSpin _ _ _ | FMarked _ _ => x = Asked OpLook
  | FAsk _ => x = Asked OpAsk
  | FOweLoad _ => x = Asked OpOwe
  | FOwe _ st => x = if in_phase WAITING st then Asked OpOwe else Answered (Told false)
  | FUnoweLoad _ => x = Asked OpUnowe
  | FUnowe _ st => x = if in_phase WAITING st && has OWED st then Asked OpUnowe else Answered (Told false)
  | FCancelLoad | FCancel _ => x = Asked OpCancel
  | FCancelTake st => x = Answered (Withdrawn (has NUDGED st))
  | FPayload => x = Asked OpLook \/ x = Asked OpAsk \/ x = Asked OpCancel
  | FRelease o | FPut o => x = Answered (ended o)
  end.

Definition touch_op (grants : bool) : CellOp := if grants then OpGrant else OpNudge.

Definition q_status (pc : QueuePc) (x : Status) : Prop :=
  match pc with
  | QIdle | QRelease _ | QPut _ | QGone _ => x = Free
  | QPayload p => x = Asked (OpPayload p)
  | QTouchLoad grants => x = Asked (touch_op grants)
  | QTouch grants st =>
      x = if in_phase WAITING st && (grants || negb (has NUDGED st)) then Asked (touch_op grants)
          else Answered (Told (in_phase WAITING st))
  | QPrune => x = Asked OpPrune
  | QOwed _ => x = Asked OpLetGo
  end.

Record sim (s : Sys) (t : Spec) : Prop := {
  s_cell : cell t = cell_of s;
  s_future : f_status (fpc s) (f_call t);
  s_queue : q_status (qpc s) (q_call t) }.

(** A run of the cell over a step. *)
Definition follows (es : list Event) (t : Spec) (s' : Sys) : Prop := exists t', spec_run es t t' /\ sim s' t'.

Section follow.
Context {s s' : Sys} {t : Spec}.
Context (S : sim s t).

Lemma f_stays : cell_of s' = cell_of s -> qpc s' = qpc s -> f_status (fpc s') (f_call t) -> follows [] t s'.
Proof using S.
  intros Ec Eq Hf. destruct S as [S1 S2 S3]. exists t. split; [constructor |]. by constructor; rewrite ?Ec, ?Eq.
Qed.

Lemma f_effect o r :
  f_call t = Asked o -> cell_op o (cell_of s) = (r, cell_of s') -> qpc s' = qpc s -> f_status (fpc s') (Answered r) ->
  follows [] t s'.
Proof using S.
  intros Ho Hc Eq Hf. destruct S as [S1 S2 S3]. eexists. split; [eapply (spec_effect TheFuture o); [done | constructor] |].
  rewrite S1, Hc. by constructor; cbn; rewrite ?Eq.
Qed.

Lemma f_effect_return o r :
  f_call t = Asked o -> cell_op o (cell_of s) = (r, cell_of s') -> qpc s' = qpc s -> f_status (fpc s') Free ->
  follows [Returns TheFuture r] t s'.
Proof using S.
  intros Ho Hc Eq Hf. destruct S as [S1 S2 S3].
  eexists. split; [eapply (spec_effect TheFuture o); [done |]; rewrite S1, Hc; by eapply spec_return, spec_nothing |].
  by constructor; cbn; rewrite ?Eq.
Qed.

Lemma f_back r :
  f_call t = Answered r -> cell_of s' = cell_of s -> qpc s' = qpc s -> f_status (fpc s') Free ->
  follows [Returns TheFuture r] t s'.
Proof using S.
  intros Ho Ec Eq Hf. destruct S as [S1 S2 S3].
  eexists. split; [by eapply spec_return, spec_nothing |]. by constructor; cbn; rewrite ?Eq, ?Ec.
Qed.

Lemma q_stays : cell_of s' = cell_of s -> fpc s' = fpc s -> q_status (qpc s') (q_call t) -> follows [] t s'.
Proof using S.
  intros Ec Eq Hf. destruct S as [S1 S2 S3]. exists t. split; [constructor |]. by constructor; rewrite ?Ec, ?Eq.
Qed.

Lemma q_effect o r :
  q_call t = Asked o -> cell_op o (cell_of s) = (r, cell_of s') -> fpc s' = fpc s -> q_status (qpc s') (Answered r) ->
  follows [] t s'.
Proof using S.
  intros Ho Hc Eq Hf. destruct S as [S1 S2 S3]. eexists. split; [eapply (spec_effect TheQueue o); [done | constructor] |].
  rewrite S1, Hc. by constructor; cbn; rewrite ?Eq.
Qed.

(** Back, and perhaps on to the next call. *)
Lemma q_back r next :
  q_call t = Answered r -> cell_of s' = cell_of s -> fpc s' = fpc s ->
  q_status (qpc s') (match next with Some o => Asked o | None => Free end) ->
  follows (Returns TheQueue r :: match next with Some o => [Calls TheQueue o] | None => [] end) t s'.
Proof using S.
  intros Ho Ec Eq Hf. destruct S as [S1 S2 S3]. destruct next;
    (eexists; split; [first [by eapply spec_return, spec_call, spec_nothing | by eapply spec_return, spec_nothing] | by constructor; cbn; rewrite ?Eq, ?Ec]).
Qed.

Lemma q_effect_back o r next :
  q_call t = Asked o -> cell_op o (cell_of s) = (r, cell_of s') -> fpc s' = fpc s ->
  q_status (qpc s') (match next with Some o => Asked o | None => Free end) ->
  follows (Returns TheQueue r :: match next with Some o => [Calls TheQueue o] | None => [] end) t s'.
Proof using S.
  intros Ho Hc Eq Hf. destruct S as [S1 S2 S3]. destruct next;
    (eexists; split; [eapply (spec_effect TheQueue o); [done |]; rewrite S1, Hc;
      first [by eapply spec_return, spec_call, spec_nothing | by eapply spec_return, spec_nothing] | by constructor; cbn; rewrite ?Eq]).
Qed.
End follow.

(** ** Every step *)

Lemma cell_at_view {s g c r a t u k n o q f w} (p : Z) (fk qk : bool) :
  view s = Mk g c r a t u k n o q f w ->
  cell_at s p fk qk =
    {| phase := if g && negb c then Granted else if negb g && c then Cancelled else Waiting;
       nudged := negb g && negb c && n; owed_mark := o; payload := p; held_by_future := fk; held_by_queue := qk |}.
Proof.
  intros Hv. unfold cell_at. by rewrite (test_granted Hv), (test_cancelled Hv), (test_waiting Hv), (test_nudged Hv), (test_owed Hv).
Qed.

Lemma set_slot_keeps st bit x m :
  word (set_slot st bit x m) = word m /\ WaiterNode.payload (set_slot st bit x m) = WaiterNode.payload m.
Proof. unfold set_slot. by destruct (has bit st). Qed.

Lemma store_waker_keeps x target m :
  word (store_waker x target m) = word m /\ WaiterNode.payload (store_waker x target m) = WaiterNode.payload m.
Proof. unfold store_waker. repeat case_match; try done; apply set_slot_keeps. Qed.

(** The state a compare-and-swap leaves, or not. *)
Ltac exchange E :=
  match type of E with context [compare_exchange ?b ?x ?y ?n] =>
    let n' := fresh "n'" in let ok := fresh "ok" in let X := fresh "X" in
    destruct (compare_exchange b x y n) as [n' ok] eqn:X; apply exchange_spec in X;
    destruct ok; [destruct X as [<- ->] | subst n']
  end.

Ltac cells Hpc Hv Hv' :=
  unfold cell_of; cbn [node fpc qpc with_fpc with_qpc with_node with_f_result with_q_result more_seen more_absorbed more_sent
    more_forgiven with_waits with_wpc with_calls set_word WaiterNode.set_payload word WaiterNode.payload f_keeps q_keeps];
  rewrite ?Hpc; cbn [f_keeps q_keeps]; rewrite ?(cell_at_view _ _ _ Hv'), ?(cell_at_view _ _ _ Hv).
(** The same cell. *)
Ltac same Hpc Hv Hv' := cells Hpc Hv Hv'; reflexivity.

Section future_sim.
Context {g c r a t u k n o q f w : bool} {s : Sys} {t0 : Spec}.
Context (H : inv_at g c r a t u k n o q f w s) (S : sim s t0).

(** [park], and the spin before it. *)
Lemma try_sim b x st s' : fpc s = FTry x st -> future_step b s = Ok s' -> follows (events (FutureStep b) s s') t0 s'.
Proof using H S.
  intros Hpc E. destruct H as [Hv Hph _ _ _ _ _ _ _ Hf _ _ _ _]. pose proof (s_future s t0 S) as Hs. rewrite Hpc in Hf, Hs.
  destruct Hf as (-> & -> & Hg). unfold future_step, alive in E. rewrite Hpc in E. destruct (live (node s)); [| done]. cbn [and_then] in E.
  destruct (in_phase GRANTED st) eqn:Eg; [injection E as <-; apply (f_stays S); [same Hpc Hv Hv | done | cbn; auto] |].
  destruct (has NUDGED st) eqn:En; exchange E; injection E as <-; cbn [events fpc with_fpc]; try (apply (f_stays S); [same Hpc Hv Hv | done..]).
  - rewrite (test_nudged Hv) in En. subst n. rewrite (test_granted Hv), andb_true_r in Eg. subst g.
    apply (f_effect_return S OpLook); try done. cells Hpc Hv (view_looked Hv). done.
  - apply (f_stays S); [| done..]. cells Hpc Hv (view_registered Hv). done.
Qed.

Lemma settle_sim b x st s' : fpc s = FSettle x st -> future_step b s = Ok s' -> follows (events (FutureStep b) s s') t0 s'.
Proof using H S.
  intros Hpc E. destruct H as [Hv Hph _ _ _ _ _ _ _ Hf _ _ _ _]. pose proof (s_future s t0 S) as Hs. rewrite Hpc in Hf, Hs.
  destruct Hf as (-> & -> & _). unfold future_step, alive in E. rewrite Hpc in E. destruct (live (node s)); [| done]. cbn [and_then] in E.
  exchange E; injection E as <-; [| apply (f_stays S); [same Hpc Hv Hv | done..]].
  unfold settled. rewrite (test_granted Hv), (test_nudged Hv), andb_true_r. pose proof (view_settled Hv) as Hv'.
  destruct g; [| destruct n]; cbn [events fpc with_fpc].
  - apply (f_stays S); [cells Hpc Hv Hv' | | cbn]; auto.
  - apply (f_effect_return S OpLook); try done. cells Hpc Hv Hv'. done.
  - apply (f_effect_return S OpLook); try done. cells Hpc Hv Hv'. done.
Qed.

Lemma look_sim b s' :
  match fpc s with FLoad _ | FWrite _ _ | FSettleLoad _ | FSpinLoad _ _ | FSpin _ _ _ | FMarked _ _ => True | _ => False end ->
  future_step b s = Ok s' -> follows (events (FutureStep b) s s') t0 s'.
Proof using H S.
  intros Hpc E. destruct H as [Hv Hph _ _ _ _ _ _ _ Hf _ _ _ _]. pose proof (s_future s t0 S) as Hs.
  unfold future_step, alive in E. destruct (fpc s) eqn:Ef; try done; cbn in Hf, Hs; destruct Hf as [-> Hf];
    (destruct (live (node s)); [| done]); cbn [and_then] in E.
  - injection E as <-. apply (f_stays S); [same Ef Hv Hv | done..].
  - unfold exclusive in E. destruct (slots_apart s); [| done]. injection E as <-. apply (f_stays S); [| done..].
    destruct (store_waker_keeps w0 target (node s)) as [Ew Ep]. unfold cell_of. cbn. by rewrite Ew, Ep, Ef.
  - injection E as <-. apply (f_stays S); [same Ef Hv Hv | done..].
  - injection E as <-. apply (f_stays S); [same Ef Hv Hv | done..].
  - destruct (marked s0); [injection E as <-; apply (f_stays S); [same Ef Hv Hv | done..] |].
    destruct (negb (has ARMED s0)); [injection E as <-; apply (f_stays S); [same Ef Hv Hv | done..] |].
    exchange E; injection E as <-; apply (f_stays S); try done; [cells Ef Hv (view_disarmed Hv) | cells Ef Hv Hv]; done.
  - destruct rounds; injection E as <-; [| destruct (marked (word (node s)))]; (apply (f_stays S); [same Ef Hv Hv | done..]).
Qed.

(** [granted], [owe], [unowe], [cancel], and the way out. *)
Lemma owe_sim b s' :
  match fpc s with FAsk _ | FOweLoad _ | FOwe _ _ | FUnoweLoad _ | FUnowe _ _ => True | _ => False end ->
  future_step b s = Ok s' -> follows (events (FutureStep b) s s') t0 s'.
Proof using H S.
  intros Hpc E. destruct H as [Hv Hph _ _ _ _ _ _ _ Hf _ _ _ _]. pose proof (s_future s t0 S) as Hs.
  unfold future_step, alive in E. destruct (fpc s) eqn:Ef; try done; cbn in Hf, Hs; destruct Hf as [-> Hf];
    (destruct (live (node s)); [| done]); cbn [and_then] in E; rewrite ?(test_granted Hv), ?andb_true_r in E.
  - destruct g; injection E as <-; [apply (f_stays S); [same Ef Hv Hv | done | cbn; auto] |].
    apply (f_effect_return S OpAsk); try done. cells Ef Hv Hv. done.
  - injection E as <-. destruct g eqn:Eg; [apply (f_effect S OpOwe (Told false)) | apply (f_stays S)]; try done;
      try (cbn; rewrite (test_waiting Hv); done); cells Ef Hv Hv; done.
  - destruct (in_phase WAITING s0) eqn:Ew; cbn [negb] in E; [exchange E |]; injection E as <-; cbn [events fpc with_fpc].
    + rewrite (test_waiting Hv), andb_true_r in Ew. destruct g; [done |].
      apply (f_effect_return S OpOwe); try done. cells Ef Hv (view_owed Hv). done.
    + destruct g eqn:Eg; [apply (f_effect S OpOwe (Told false)) | apply (f_stays S)]; try done;
        try (cbn; rewrite (test_waiting Hv); done); cells Ef Hv Hv; done.
    + apply (f_back S); try done. same Ef Hv Hv.
  - injection E as <-. destruct (negb g && o) eqn:Eg; [apply (f_stays S) | apply (f_effect S OpUnowe (Told false))]; try done;
      try (cbn; rewrite (test_waiting Hv), (test_owed Hv), andb_true_r, Eg; done); cells Ef Hv Hv; try done.
    by destruct g, o.
  - rewrite <- negb_andb in E. destruct (in_phase WAITING s0 && has OWED s0) eqn:Ew; cbn [negb] in E; [exchange E |]; injection E as <-;
      cbn [events fpc with_fpc].
    + rewrite (test_waiting Hv), (test_owed Hv), andb_true_r in Ew. apply andb_true_iff in Ew as [Eg ->]. destruct g; [done |].
      apply (f_effect_return S OpUnowe); try done. cells Ef Hv (view_unowed Hv). done.
    + destruct (negb g && o) eqn:Eg; [apply (f_stays S) | apply (f_effect S OpUnowe (Told false))]; try done;
        try (cbn; rewrite (test_waiting Hv), (test_owed Hv), andb_true_r, Eg; done); cells Ef Hv Hv; try done.
      by destruct g, o.
    + apply (f_back S); try done. same Ef Hv Hv.
Qed.

Lemma cancel_sim b s' :
  match fpc s with FCancelLoad | FCancel _ | FCancelTake _ | FPayload | FRelease _ | FPut _ => True | _ => False end ->
  future_step b s = Ok s' -> follows (events (FutureStep b) s s') t0 s'.
Proof using H S.
  intros Hpc E. destruct H as [Hv Hph _ _ _ _ _ _ _ Hf _ _ _ _]. pose proof (s_future s t0 S) as Hs.
  unfold future_step, alive in E. destruct (fpc s) eqn:Ef; try done; cbn in Hf, Hs;
    (destruct (live (node s)); [| done]); cbn [and_then] in E.
  - injection E as <-. apply (f_stays S); [same Ef Hv Hv | done..].
  - destruct Hf as [-> _]. destruct (in_phase GRANTED s0) eqn:Eg; [injection E as <-; apply (f_stays S); [same Ef Hv Hv | done | cbn; auto] |].
    exchange E; injection E as <-; [| apply (f_stays S); [same Ef Hv Hv | done..]].
    rewrite (test_granted Hv), andb_true_r in Eg. subst g.
    destruct (has ARMED (word (node s))); cbn [events fpc with_fpc]; apply (f_effect S OpCancel (Withdrawn (has NUDGED (word (node s)))));
      try done; rewrite (test_nudged Hv); cells Ef Hv (view_cancelled Hv); done.
  - unfold exclusive in E. destruct (slots_apart s); [| done]. injection E as <-. apply (f_stays S); [| done..].
    destruct (set_slot_keeps s0 CURRENT None (node s)) as [Ew Ep]. unfold cell_of. cbn. by rewrite Ew, Ep, Ef.
  - destruct Hf as [-> ->]. injection E as <-.
    destruct Hs as [Hs | [Hs | Hs]]; eapply (f_effect S _ _ Hs); try done; cells Ef Hv Hv; done.
  - destruct (_ =? _); injection E as <-; cbn [events fpc with_fpc]; [apply (f_stays S) | apply (f_back S)]; try done;
      cells Ef Hv (view_no_future Hv); done.
  - injection E as <-. apply (f_back S); try done. same Ef Hv Hv.
Qed.

Lemma future_sim b s' : future_step b s = Ok s' -> follows (events (FutureStep b) s s') t0 s'.
Proof using H S.
  intros E. destruct (fpc s) eqn:Ef; try (apply look_sim; [by rewrite Ef | done]); try (apply owe_sim; [by rewrite Ef | done]);
    try (apply cancel_sim; [by rewrite Ef | done]).
  - unfold future_step in E. by rewrite Ef in E.
  - by eapply try_sim.
  - by eapply settle_sim.
  - unfold future_step in E. by rewrite Ef in E.
Qed.
End future_sim.

Section queue_sim.
Context {g c r a t u k n o q f w : bool} {s : Sys} {t0 : Spec}.
Context (H : inv_at g c r a t u k n o q f w s) (S : sim s t0).

(** A load decides the call, or the call goes on with what it read. *)
Lemma touch_reads grants x :
  q_call t0 = Asked (touch_op grants) -> q_keeps (qpc s) = true ->
  fpc x = fpc s -> node x = node s -> qpc x = QTouch grants (word (node s)) -> follows [] t0 x.
Proof using H S.
  intros Hs Hk Ef En Eq. destruct H as [Hv Hph _ _ _ _ _ _ _ _ _ _ _ _].
  assert (Ec : cell_of x = cell_of s) by (unfold cell_of; by rewrite Ef, En, Eq, Hk).
  destruct (in_phase WAITING (word (node s)) && (grants || negb (has NUDGED (word (node s))))) eqn:E.
  - apply (q_stays S); [done.. |]. rewrite Eq. cbn. by rewrite E.
  - apply (q_effect S (touch_op grants) (Told (in_phase WAITING (word (node s)))) Hs); [| done | rewrite Eq; cbn; by rewrite E].
    rewrite Ec. unfold cell_of. rewrite (cell_at_view _ _ _ Hv). rewrite (test_waiting Hv), (test_nudged Hv) in *.
    destruct grants, g, c, n; done.
Qed.

Lemma touch_sim b grants st s' :
  qpc s = QTouch grants st -> touched grants b st s = Ok s' -> follows (q_events s s') t0 s'.
Proof using H S.
  intros Hpc E. pose proof H as [Hv Hph _ _ _ _ _ _ _ _ Hq _ _ _]. pose proof (s_queue s t0 S) as Hs. rewrite Hpc in Hs, Hq. cbn in Hs.
  unfold touched in E. unfold q_events. rewrite Hpc.
  destruct (in_phase WAITING st) eqn:Ew; cbn [negb andb] in E, Hs.
  2: { destruct grants; injection E as <-; cbn [qpc with_qpc].
       - apply (q_back S _ (Some OpLetGo)); try done. same Hpc Hv Hv.
       - apply (q_back S _ None); try done. same Hpc Hv Hv. }
  assert (Hd : grants = false -> has NUDGED st = true -> follows (match qpc s' with QOwed b => [Returns TheQueue (Told b); Calls TheQueue OpLetGo]
    | QIdle => [Returns TheQueue (q_answer (q_result s'))] | _ => [] end) t0 s').
  { intros -> En. rewrite En in *. cbn in E, Hs. injection E as <-. apply (q_back S _ None); try done. same Hpc Hv Hv. }
  destruct (negb grants && has (if grants then GRANTED else NUDGED) st) eqn:Ed.
  { apply Hd; destruct grants; done. }
  assert (Hs' : q_call t0 = Asked (touch_op grants)) by (destruct grants; [done | cbn in Ed, Hs; by rewrite Ed in Hs]).
  exchange E.
  2: { injection E as <-. cbn [qpc with_qpc]. apply (touch_reads grants); try done. by rewrite Hpc. }
  set (next := with_ _ _) in E. assert (Hv' : exists a' t' k' w', view next = Mk (grants || g) c r a' t' u k' (negb grants || n) o q f w').
  { unfold next. destruct (claimable (word (node s))); do 4 eexists; [apply (view_marked grants (view_claimed Hv)) | apply (view_marked grants Hv)]. }
  clearbody next. destruct Hv' as (a' & t' & k' & w' & Hv').
  assert (Hn : node s' = set_word next (node s) /\ fpc s' = fpc s /\ (if grants then qpc s' = QOwed true else qpc s' = QIdle /\ q_result s' = Some (NudgeOut true))).
  { destruct grants; cbn in E; (destruct (claimable (word (node s))); [destruct (wpc s) |]); try done; by injection E as <-. }
  destruct Hn as (En & Ef & Eq). rewrite (test_waiting Hv) in Ew. apply andb_true_iff in Ew as [->%negb_true_iff ->%negb_true_iff].
  destruct grants; cbn [touch_op orb negb] in *.
  - rewrite Eq. apply (q_effect_back S OpGrant _ (Some OpLetGo)); try done; [| by rewrite Eq].
    unfold cell_of. rewrite En, Ef, Eq, Hpc. cbn [word set_word WaiterNode.payload q_keeps]. by rewrite (cell_at_view _ _ _ Hv), (cell_at_view _ _ _ Hv').
  - destruct Eq as [Eq Er]. rewrite Eq, Er. apply (q_effect_back S OpNudge _ None); try done; [| by rewrite Eq].
    unfold cell_of. rewrite En, Ef, Eq, Hpc. cbn [word set_word WaiterNode.payload q_keeps]. by rewrite (cell_at_view _ _ _ Hv), (cell_at_view _ _ _ Hv').
Qed.

Lemma queue_sim b s' : queue_step b s = Ok s' -> follows (events (QueueStep b) s s') t0 s'.
Proof using H S.
  intros E. pose proof H as [Hv Hph _ _ _ _ _ _ _ _ Hq _ _ _]. pose proof (s_queue s t0 S) as Hs.
  unfold queue_step, alive in E. cbn [events].
  destruct (qpc s) eqn:Hpc; try done; (destruct (live (node s)); [| done]); cbn [and_then] in E; cbn in Hs; cbn in Hq;
    try (by eapply touch_sim; [exact Hpc | exact E]); unfold q_events; rewrite Hpc.
  - injection E as <-. apply (q_effect_back S (OpPayload p) _ (Some OpGrant)); try done. cells Hpc Hv Hv. done.
  - injection E as <-. apply (touch_reads grants); try done. by rewrite Hpc.
  - destruct Hq as [-> _]. rewrite (test_cancelled Hv) in E. cbn [negb andb] in E. destruct c; injection E as <-; cbn [qpc with_qpc].
    + apply (q_effect_back S OpPrune _ (Some OpLetGo)); try done. cells Hpc Hv Hv. done.
    + apply (q_effect_back S OpPrune _ None); try done. cells Hpc Hv Hv. done.
  - injection E as <-. cbn [forgiven qpc with_qpc more_forgiven]. rewrite (test_owed Hv).
    assert (negb (forgiven s + Z.b2z o =? forgiven s) = o) as -> by (destruct o; cbn; lia).
    apply (q_effect_back S OpLetGo _ None); try done. cells Hpc Hv Hv. done.
  - destruct (_ =? _); injection E as <-; cbn [qpc with_qpc]; apply (q_stays S); try done; cells Hpc Hv (view_no_queue Hv); done.
  - injection E as <-. apply (q_stays S); try done. same Hpc Hv Hv.
Qed.

Lemma wake_sim b s' : wake_step b s = Ok s' -> follows [] t0 s'.
Proof using H S.
  intros E. pose proof H as [Hv _ _ _ _ _ _ _ _ _ _ _ _ _].
  assert (Hk : cell_of s' = cell_of s /\ fpc s' = fpc s /\ qpc s' = qpc s).
  { unfold wake_step, alive, exclusive in E. destruct (wpc s) as [| |st|st x|x|x]; try done;
      repeat match type of E with context [if ?b then _ else _] => match b with live _ => destruct b; [| done] | slots_apart _ => destruct b; [| done] end end;
      cbn [and_then] in E.
    - by injection E as <-.
    - injection E as <-. cbn. destruct (set_slot_keeps st TAKEN None (node s)) as [Ew Ep]. unfold cell_of. cbn. by rewrite Ew, Ep.
    - exchange E; [| by injection E as <-]. destruct ((_ =? ARMED) && _); [injection E as <- |].
      + split; [| done]. cells Hv Hv (view_claimed (view_untaking Hv)). done.
      + destruct (_ =? WAKE_REF); injection E as <-; (split; [| done]); unfold later; cells Hv Hv (view_untaken Hv); done.
    - destruct x; by injection E as <-.
    - by injection E as <-. }
  destruct Hk as (Ec & Ef & Eq). destruct S as [S1 S2 S3]. exists t0. split; [constructor |]. by constructor; rewrite ?Ec, ?Ef, ?Eq.
Qed.
End queue_sim.

(** A call begins. *)
Lemma f_begins s pc x o t :
  sim s t -> (exists f, fpc s = FIdle f) -> f_status pc (Asked o) -> f_keeps pc = true ->
  follows [Calls TheFuture o] t (with_fpc pc (with_waits x s)).
Proof.
  intros [S1 S2 S3] [f Hf] Ho Hk. rewrite Hf in S2. eexists. split; [by eapply spec_call, spec_nothing |].
  constructor; cbn; try done. unfold cell_of in *. cbn. by rewrite S1, Hf, Hk.
Qed.

Lemma f_begins_same s pc o t :
  sim s t -> (exists f, fpc s = FIdle f) -> f_status pc (Asked o) -> f_keeps pc = true ->
  follows [Calls TheFuture o] t (with_fpc pc s).
Proof. intros. apply (f_begins s pc (waits s)); done. Qed.

Lemma q_begins s pc o t :
  sim s t -> qpc s = QIdle -> q_status pc (Asked o) -> q_keeps pc = true -> follows [Calls TheQueue o] t (with_qpc pc s).
Proof.
  intros [S1 S2 S3] Hf Ho Hk. rewrite Hf in S3. eexists. split; [by eapply spec_call, spec_nothing |].
  constructor; cbn; try done. unfold cell_of in *. cbn. by rewrite S1, Hf, Hk.
Qed.

Lemma act_sim a s s' t : inv s -> sim s t -> act a s = Ok s' -> follows (events a s s') t s'.
Proof.
  intros (g & c & r & a0 & t0 & u & k & n & o & q & f & w & H) S E.
  destruct a as [|x|x m| | | | |b|p| | |b|b|i]; cbn [act] in E;
    [.. | by eapply future_sim | | | | by eapply queue_sim | by eapply wake_sim |]; cbn [events];
    try destruct m;
    try (destruct (fpc s) as [[]| | | | | | | | | | | | | | | | | | | |] eqn:Ef; try done; injection E as <-;
         first [apply f_begins | apply f_begins_same]; rewrite ?Ef; eauto; done);
    try (destruct (fpc s), (qpc s) eqn:Eq; try done; injection E as <-; try destruct p; by apply q_begins).
  destruct (calls s !! i) as [x|]; [| by destruct (fpc s), (qpc s)].
  assert (s' = wake x (with_calls (delete i (calls s)) s)) as -> by (destruct (fpc s), (qpc s); by injection E as <-).
  destruct S as [S1 S2 S3]. exists t. split; [constructor | by constructor].
Qed.

Lemma runs_sim l s s' t : inv s -> sim s t -> acts l s = Ok s' -> follows (history l s) t s'.
Proof.
  revert s t. induction l as [|a l IH]; intros s t Hi S E.
  - injection E as <-. exists t. split; [constructor | done].
  - unfold acts in *. cbn in *. destruct (act a s) as [s1|e] eqn:Ea; [| done]. cbn in E.
    pose proof (node_act_ok a s Hi) as Hi1. rewrite Ea in Hi1. destruct (act_sim a s s1 t Hi S Ea) as (t1 & Hr & S1).
    destruct (IH s1 t1 Hi1 S1 E) as (t2 & Hr2 & S2). exists t2. split; [by eapply spec_run_app | done].
Qed.

(** C12. Every run of a waiter node is a run of the cell its users see: with the
    same calls and returns in the same order, each call of the future and of the
    queue is one step of the cell, taken between its call and its return. The
    cell it leaves is the node's, and a spin reads the marks of that cell. *)
Theorem waiter_node_refines_cell p w l s :
  acts l (enqueued p w) = Ok s ->
  exists t, spec_run (history l (enqueued p w)) (spec_new p) t /\ cell t = cell_of s /\
            (held_by_future (cell t) = true -> cell_marked (cell t) = marked (word (node s))).
Proof.
  intros E. destruct (runs_sim l (enqueued p w) s (spec_new p) (enqueued_inv p w)) as (t & Hr & S); [by constructor | done |].
  exists t. split; [done |]. split; [apply S |].
  destruct (node_acts_ok l _ s (enqueued_inv p w) E) as (g & c & r & a0 & t0 & u & k & n & o & q & f & w0 & [Hv Hph _ _ _ _ _ _ _ Hf _ _ _ _]).
  rewrite (s_cell _ _ S). unfold cell_of. rewrite (cell_at_view _ _ _ Hv). cbn [held_by_future]. intros Hk.
  unfold marked. rewrite (test_granted Hv), (test_nudged Hv).
  assert (c = false) as -> by (destruct (fpc s); cbn in Hf; done || tauto || (by destruct Hf)).
  destruct g, n; done.
Qed.

(** A future that parks, is nudged, looks, parks again and is granted: the calls
    and the answers of its cell. *)
Definition node_events : list Event :=
  [Calls TheFuture OpLook; Returns TheFuture SawNothing; Calls TheQueue OpNudge; Returns TheQueue (Told true);
   Calls TheFuture OpLook; Returns TheFuture SawNudge; Calls TheFuture OpLook; Returns TheFuture SawNothing;
   Calls TheQueue (OpPayload 9); Returns TheQueue (Told true); Calls TheQueue OpGrant; Returns TheQueue (Told true);
   Calls TheQueue OpLetGo; Returns TheQueue (Told false); Calls TheFuture OpAsk; Returns TheFuture (Collected 9)].

Lemma waiter_node_refines_cell_witness :
  exists t, spec_run node_events (spec_new 3) t /\ cell t = cell_of node_ran.
Proof.
  assert (E : acts node_run (enqueued 3 5) = Ok node_ran) by (lazy; reflexivity).
  assert (Eh : history node_run (enqueued 3 5) = node_events) by (lazy; reflexivity).
  destruct (waiter_node_refines_cell 3 5 node_run node_ran E) as (t & Hr & Hc & _). rewrite Eh in Hr. exists t. exact (conj Hr Hc).
Defined.
