(* ===== verification/Sums.v ===== *)
(** * Sums over the entries of a map

    A system whose clients are the entries of a map keeps books that add up
    over them: a step of one client changes a sum by what it changes of that
    client's share. *)

From S2P Require Import Prelude.
Open Scope Z_scope.

Section sums.
Context {A : Type}.
Implicit Types (f : A -> Z) (m : gmap nat A) (i j : nat) (a b : A).

Definition msum f m : Z := map_fold (fun _ a acc => f a + acc) 0 m.

Lemma msum_empty f : msum f ∅ = 0.
Proof. apply map_fold_empty. Qed.

Lemma msum_new f m i a : m !! i = None -> msum f (<[i := a]> m) = f a + msum f m.
Proof. intros Hi. unfold msum. rewrite map_fold_insert_L; [done | intros; lia | done]. Qed.

Lemma msum_insert f m i a b : m !! i = Some a -> msum f (<[i := b]> m) = msum f m - f a + f b.
Proof.
  intros Hi. rewrite <- (insert_delete_eq m i b), msum_new by apply lookup_delete_eq.
  rewrite <- (insert_delete_id m i a Hi) at 2. rewrite msum_new by apply lookup_delete_eq. lia.
Qed.

(** An entry that is not there counts as [d], whose share is nothing. *)
Lemma msum_set f m i d b : f d = 0 -> msum f (<[i := b]> m) = msum f m - f (default d (m !! i)) + f b.
Proof.
  intros Hd. destruct (m !! i) as [a|] eqn:E; cbn; [by apply msum_insert |]. rewrite msum_new by done. lia.
Qed.

Lemma msum_nonneg f m : (forall i a, m !! i = Some a -> 0 <= f a) -> 0 <= msum f m.
Proof.
  induction m as [|i a m Hi IH] using map_ind; intros H; [by rewrite msum_empty |]. rewrite msum_new by done.
  assert (0 <= f a) by (apply (H i); by rewrite lookup_insert_eq).
  assert (0 <= msum f m); [| lia]. apply IH. intros j b Hj. apply (H j). rewrite lookup_insert_ne; [done | congruence].
Qed.

Lemma msum_add f g h m : (forall a, h a = f a + g a) -> msum h m = msum f m + msum g m.
Proof.
  intros H. induction m as [|i a m Hi IH] using map_ind; [done |]. rewrite !msum_new, IH, H by done. lia.
Qed.

(** The shares of one entry, and of two, are in the sum. *)
Lemma msum_one f m i a :
  (forall j b, m !! j = Some b -> 0 <= f b) -> m !! i = Some a -> f a <= msum f m.
Proof.
  intros H Hi. rewrite <- (insert_delete_id m i a Hi), msum_new by apply lookup_delete_eq.
  assert (0 <= msum f (delete i m)); [| lia]. apply msum_nonneg. intros j b [_ Hj]%lookup_delete_Some. eauto.
Qed.

Lemma msum_two f m i j a b :
  (forall k x, m !! k = Some x -> 0 <= f x) -> i <> j -> m !! i = Some a -> m !! j = Some b -> f a + f b <= msum f m.
Proof.
  intros H Hne Hi Hj. rewrite <- (insert_delete_id m i a Hi), msum_new by apply lookup_delete_eq.
  assert (f b <= msum f (delete i m)); [| lia]. apply (msum_one f _ j).
  - intros k x [_ Hk]%lookup_delete_Some. eauto.
  - by rewrite lookup_delete_ne.
Qed.

Lemma msum_pos f m :
  (forall i a, m !! i = Some a -> 0 <= f a) -> 0 < msum f m -> exists i a, m !! i = Some a /\ 0 < f a.
Proof.
  induction m as [|i a m Hi IH] using map_ind; intros H; [by rewrite msum_empty |]. rewrite msum_new by done.
  assert (0 <= f a) by (apply (H i); by rewrite lookup_insert_eq). intros Hs.
  destruct (Z.lt_ge_cases 0 (f a)); [exists i, a; by rewrite lookup_insert_eq |].
  destruct IH as (j & b & Hj & Hb); [| lia | exists j, b; split; [| done]; rewrite lookup_insert_ne; [done | congruence]].
  intros j b Hj. apply (H j). rewrite lookup_insert_ne; [done | congruence].
Qed.
End sums.

(** How often an element is in a list. *)
Definition count (n : nat) (l : list nat) : Z := Z.of_nat (count_occ Nat.eq_dec l n).

Lemma count_nil n : count n [] = 0.
Proof. done. Qed.
Lemma count_cons n m l : count n (m :: l) = Z.b2z (m =? n)%nat + count n l.
Proof. unfold count. cbn. destruct (Nat.eq_dec m n) as [-> |]; [rewrite Nat.eqb_refl | rewrite (proj2 (Nat.eqb_neq _ _)) by done]; cbn; lia. Qed.
Lemma count_app n l k : count n (l ++ k) = count n l + count n k.
Proof. unfold count. rewrite count_occ_app. lia. Qed.
Lemma count_rev n l : count n (rev l) = count n l.
Proof.
  induction l as [|m l IH]; [done |]. cbn [rev]. rewrite count_app, count_cons, count_cons, count_nil, IH. lia.
Qed.
Lemma count_nonneg n l : 0 <= count n l.
Proof. unfold count. lia. Qed.
Lemma count_in n l : n ∈ l <-> 0 < count n l.
Proof. unfold count. rewrite list_elem_of_In, (count_occ_In Nat.eq_dec). lia. Qed.

Create Rewrite HintDb counts.
#[export] Hint Rewrite count_nil count_cons count_app count_rev : counts.
#[export] Hint Resolve count_nonneg : nuclei.
