(* ===== verification/RawSemaphore.v ===== *)
(** * The shared semaphore

    [sync/raw_semaphore.rs] over [sync/contend.rs], [sync/queue.rs] and
    [sync/list.rs]: the permit core of the semaphore, the mutex and the
    once-cell that threads share. Any number of clients, each a thread with a
    future of its own, call it; a step is one atomic operation on the state
    word, on the arrival stack, on a counter or on a waiter node ([NodeCell]),
    together with the code up to the next one. A call inside a call goes on with
    what is left of its caller ([Kont]). *)

From S2P Require Import Prelude Coop AtomicWaits QueueWord Spin NodeCell.
Open Scope Z_scope.

(** ** The word *)

Definition CLOSED : Z := 64.
Definition SHIFT : Z := 7.
Definition FLAGS : Z := 127.
Definition ONE : Z := 128.
Definition MAX : Z := 2 ^ 57 - 1.
Definition MAX_BYPASS : Z := 16.
Definition CLOSED_GRANT : Z := usize_max.

(** The permits a word says are free, and the word that has [n] more or less. *)
Definition free (state : Z) : Z := Z.shiftr state SHIFT.
Definition plus (n state : Z) : Z := (state + Z.shiftl n SHIFT) mod u64_size.
Definition minus (n state : Z) : Z := state - Z.shiftl n SHIFT.

Definition closed_in (state : Z) : bool := has CLOSED state.

(** [Lock::admit]. *)
Definition admits (state need : Z) : option Z :=
  if (need <=? free state) && negb (has CLOSED state) then Some (minus need state) else None.

Definition close_step (state : Z) : Change := if closed_in state then Keep else Drain (Z.lor state CLOSED).

(** The transitions of the semaphore: [enqueue], [withdrawn], [released], [add],
    [close], and the two of [owe_or_take]. [add] panics beyond [MAX]. *)
Inductive Tr : Type :=
| TEnqueue
| TWithdrawn (woken : bool)
| TReleased
| TAdd (n : Z)
| TClose
| TOwe (need : Z)
| TPass.

Definition change (tr : Tr) (state : Z) : option Change :=
  match tr with
  | TEnqueue => Some (enqueues state)
  | TWithdrawn woken => Some (withdrawn woken state)
  | TReleased => Some (released state)
  | TAdd n =>
      let permits := free state + n in
      if permits <=? MAX then
        let next := Z.lor (Z.land state FLAGS) (Z.shiftl permits SHIFT) in
        Some (if has QUEUED state then Wake (Z.lor next WAKE_FRONT) else Set_ next)
      else None
  | TClose => Some (close_step state)
  | TOwe need => Some (owe_or_take (fun state => admits state need) state)
  | TPass => Some (Drain state)
  end.

(** ** Clients *)

(** What a call answered. *)
Inductive Answer : Type :=
| PollPending
| PollTaken
| PollClosed
| Tried (b : bool)
| Forgot (n : Z)
| Done.

(** Why permits are taken: the first attempt of a poll, the retry of a waiter
    that was nudged, and [try_acquire]. *)
Inductive Purpose : Type := First | Retry | Try.

(** What goes on when a transition, a release or a withdrawal is over: the call
    answers; the poll that queued looks at its node; the poll that took on its
    own completes; the poll whose budget is spent yields; [owe_or_take] goes on,
    after its first transition and after its last. *)
Inductive Kont : Type :=
| KReturn (a : Answer)
| KPark
| KTook
| KYield
| KOwed
| KOweDone (took : bool) (seen : Z).

(** A drain, from the clearing of the marks to the exit; [front] is whether the
    pass was asked to wake the front. [DRelease] lets go of a node, and
    [DForgive] settles its mark, before what follows. The others, in the order
    of the code: taking the arrivals and absorbing them, the look at the
    withdrawals and the sweep; the look at the closed bit, and the grants of a
    closed semaphore; the look at the handoff bit, and the handoff, which finds
    the front, takes its permits and grants it, or gives them back; whether it
    still hands off; the front to nudge, the permits to go by, the nudges with
    the marker they raise, and its fall; whether anybody is left; the owed
    count, and the way out. *)
Inductive Stage : Type :=
| DClear
| DTake (front : bool)
| DAbsorb (rest : list nat) (front : bool)
| DTidy (front : bool)
| DSweep (kept rest : list nat) (front : bool)
| DClosed (front : bool)
| DCloseFront
| DClosePayload (n : nat)
| DCloseGrant (n : nat)
| DHandoff (front : bool)
| DHandFront (front : bool)
| DHandLoad (n : nat) (need : Z) (front : bool)
| DHandSwap (n : nat) (need current : Z) (front : bool)
| DHandGrant (n : nat) (need : Z) (front : bool)
| DHandBack (need : Z) (front : bool)
| DAsk (front : bool)
| DAskOwed (front : bool)
| DNudgeFront (front : bool)
| DBudget (front : bool)
| DNudges (first : bool) (rest : list nat) (budget : Z) (raised sent front : bool)
| DRaise (n : nat) (rest : list nat) (budget : Z) (sent front : bool)
| DNudge (n : nat) (rest : list nat) (budget : Z) (sent front : bool)
| DLower
| DEnd
| DOwed (clear : Z)
| DExitLoad (clear : Z)
| DExit (clear current : Z)
| DRelease (n : nat) (next : Stage)
| DForgive (next : Stage).

(** Where a client is. *)
Inductive Pc : Type :=
| Idle
| TakeLoad (p : Purpose) (n : Z)
| TakeSwap (p : Purpose) (n current : Z)
| TakeOneLoad
| TakeOneSwap (seen : Z)
| SpinRounds (seen : Z)
| SpinLoad (rounds : Z) (g : Gaps) (freed : bool)
| SpinSwap (rounds : Z) (g : Gaps) (seen : Z)
| SpinWon (rounds : Z)
| SpinRanOut (rounds : Z)
| Enqueue
| Push (n : nat) (head : option nat)
| TrLoad (tr : Tr) (k : Kont)
| TrSwap (tr : Tr) (k : Kont) (current : Z) (x : Change)
| Draining (st : Stage) (k : Kont) (seen : Z) (x : Change)
| ParkLook
| Consume (granted : option Z)
| OweCount
| OweMark
| OweSeen
| OweUnowe (took : bool) (seen : Z)
| OweForgive (took : bool) (seen : Z)
| OweLook (took : bool) (seen : Z)
| WonLook
| WonStore
| CancelLook (k : Kont)
| CancelCount (woken : bool) (k : Kont)
| CancelConsume (payload : Z) (k : Kont)
| ReleaseAdd (n : Z) (k : Kont)
| AtOnce
| ParkRounds
| ParkBegin (rounds : Z)
| ParkSpin (rounds : Z) (left : nat)
| ParkStore (won_ : bool) (rounds : Z)
| ForgetLoad (n : Z)
| ForgetSwap (n current : Z).

(** A client: where it is; its future, with what it asks for, its node if it
    is queued and the bypasses it counted; whether it queued in this poll; its
    waker and its thread; the permits it holds; what its last call answered. *)
Record Client : Type := {
  pc : Pc;
  need : Z;
  queued : option nat;
  bypass : Z;
  queued_now : bool;
  waker : Waker;
  thread : Thread;
  held : Z;
  answer : option Answer
}.

Definition client_new : Client :=
  {| pc := Idle; need := 0; queued := None; bypass := 0; queued_now := false; waker := 0; thread := thread_new;
     held := 0; answer := None |}.

Definition at_ x c := {| pc := x; need := need c; queued := queued c; bypass := bypass c;
  queued_now := queued_now c; waker := waker c; thread := thread c; held := held c; answer := answer c |}.
Definition set_need x c := {| pc := pc c; need := x; queued := queued c; bypass := bypass c;
  queued_now := queued_now c; waker := waker c; thread := thread c; held := held c; answer := answer c |}.
Definition set_queued x c := {| pc := pc c; need := need c; queued := x; bypass := bypass c;
  queued_now := queued_now c; waker := waker c; thread := thread c; held := held c; answer := answer c |}.
Definition set_bypass x c := {| pc := pc c; need := need c; queued := queued c; bypass := x;
  queued_now := queued_now c; waker := waker c; thread := thread c; held := held c; answer := answer c |}.
Definition set_queued_now x c := {| pc := pc c; need := need c; queued := queued c; bypass := bypass c;
  queued_now := x; waker := waker c; thread := thread c; held := held c; answer := answer c |}.
Definition set_waker x c := {| pc := pc c; need := need c; queued := queued c; bypass := bypass c;
  queued_now := queued_now c; waker := x; thread := thread c; held := held c; answer := answer c |}.
Definition set_thread x c := {| pc := pc c; need := need c; queued := queued c; bypass := bypass c;
  queued_now := queued_now c; waker := waker c; thread := x; held := held c; answer := answer c |}.
Definition set_held x c := {| pc := pc c; need := need c; queued := queued c; bypass := bypass c;
  queued_now := queued_now c; waker := waker c; thread := thread c; held := x; answer := answer c |}.
Definition answers x c := {| pc := Idle; need := need c; queued := queued c; bypass := bypass c;
  queued_now := queued_now c; waker := waker c; thread := thread c; held := held c; answer := Some x |}.

(** ** The shared state *)

(** The word, the arrival stack (the newest first), the counts of owed waiters
    and of withdrawals, the spin budget, the waiting list with the withdrawals
    its last sweep saw, and the nodes. For the theorems: who holds the drain
    role, and how many permits there are. *)
Record Shared : Type := {
  word : Z;
  arrivals : list nat;
  owed : Z;
  cancels : Z;
  spin : Z;
  waiting : list nat;
  swept : Z;
  nodes : gmap nat Cell;
  fresh : nat;
  holder : option nat;
  total : Z
}.

(** [RawSemaphore::new] and [RawSemaphore::without_spin]. *)
Definition semaphore_new (spins : bool) (permits : Z) : option Shared :=
  if permits <=? MAX then
    Some {| word := Z.shiftl permits SHIFT; arrivals := []; owed := 0; cancels := 0;
            spin := if spins then START else NEVER; waiting := []; swept := 0; nodes := ∅; fresh := 0;
            holder := None; total := permits |}
  else None.

Definition set_word x h := {| word := x; arrivals := arrivals h; owed := owed h; cancels := cancels h; spin := spin h;
  waiting := waiting h; swept := swept h; nodes := nodes h; fresh := fresh h; holder := holder h; total := total h |}.
Definition set_arrivals x h := {| word := word h; arrivals := x; owed := owed h; cancels := cancels h; spin := spin h;
  waiting := waiting h; swept := swept h; nodes := nodes h; fresh := fresh h; holder := holder h; total := total h |}.
Definition set_owed x h := {| word := word h; arrivals := arrivals h; owed := x; cancels := cancels h; spin := spin h;
  waiting := waiting h; swept := swept h; nodes := nodes h; fresh := fresh h; holder := holder h; total := total h |}.
Definition set_cancels x h := {| word := word h; arrivals := arrivals h; owed := owed h; cancels := x; spin := spin h;
  waiting := waiting h; swept := swept h; nodes := nodes h; fresh := fresh h; holder := holder h; total := total h |}.
Definition set_spin x h := {| word := word h; arrivals := arrivals h; owed := owed h; cancels := cancels h; spin := x;
  waiting := waiting h; swept := swept h; nodes := nodes h; fresh := fresh h; holder := holder h; total := total h |}.
Definition set_waiting x h := {| word := word h; arrivals := arrivals h; owed := owed h; cancels := cancels h;
  spin := spin h; waiting := x; swept := swept h; nodes := nodes h; fresh := fresh h; holder := holder h;
  total := total h |}.
Definition set_swept x h := {| word := word h; arrivals := arrivals h; owed := owed h; cancels := cancels h;
  spin := spin h; waiting := waiting h; swept := x; nodes := nodes h; fresh := fresh h; holder := holder h;
  total := total h |}.
Definition set_nodes x h := {| word := word h; arrivals := arrivals h; owed := owed h; cancels := cancels h;
  spin := spin h; waiting := waiting h; swept := swept h; nodes := x; fresh := fresh h; holder := holder h;
  total := total h |}.
Definition set_fresh x h := {| word := word h; arrivals := arrivals h; owed := owed h; cancels := cancels h;
  spin := spin h; waiting := waiting h; swept := swept h; nodes := nodes h; fresh := x; holder := holder h;
  total := total h |}.
Definition set_holder x h := {| word := word h; arrivals := arrivals h; owed := owed h; cancels := cancels h;
  spin := spin h; waiting := waiting h; swept := swept h; nodes := nodes h; fresh := fresh h; holder := x;
  total := total h |}.
Definition set_total x h := {| word := word h; arrivals := arrivals h; owed := owed h; cancels := cancels h;
  spin := spin h; waiting := waiting h; swept := swept h; nodes := nodes h; fresh := fresh h; holder := holder h;
  total := x |}.

(** [WaitQueue::forgive] and its opposite. *)
Definition forgive (h : Shared) : Shared := set_owed ((owed h - 1) mod u64_size) h.
Definition owe_one (h : Shared) : Shared := set_owed ((owed h + 1) mod u64_size) h.

Definition node_at (n : nat) (h : Shared) : Result Cell Stop :=
  match nodes h !! n with Some x => Ok x | None => Err Freed end.

(** An operation on a node, and its answer. *)
Definition on_node {A} (n : nat) (f : Cell -> A * Cell) (h : Shared) : Result (A * Shared) Stop :=
  let? x := node_at n h in
  Ok (fst (f x), set_nodes (<[n := snd (f x)]> (nodes h)) h).

(** ** The drain *)

(** [List::front]: the list is empty; its head has withdrawn and goes; or it
    waits. *)
Definition at_front (again none : Stage) (some : nat -> Cell -> Stage) (h : Shared) :
    Result (option Stage * Shared) Stop :=
  match waiting h with
  | [] => Ok (Some none, h)
  | n :: rest =>
      let? x := node_at n h in
      if is_cancelled x then Ok (Some (DRelease n again), set_waiting rest h) else Ok (Some (some n x), h)
  end.

(** [List::absorb]: a node that has withdrawn goes, the others are linked. *)
Definition absorb (rest : list nat) (front : bool) (h : Shared) : Result (option Stage * Shared) Stop :=
  match rest with
  | [] => Ok (Some (DTidy front), h)
  | n :: rest =>
      let? x := node_at n h in
      if is_cancelled x then Ok (Some (DRelease n (DAbsorb rest front)), h)
      else Ok (Some (DAbsorb rest front), set_waiting (waiting h ++ [n]) h)
  end.

(** [List::tidy] and [List::sweep]. *)
Definition tidy (front : bool) (h : Shared) : Result (option Stage * Shared) Stop :=
  if vlen (waiting h) / 2 <? (cancels h - swept h) mod u64_size
  then Ok (Some (DSweep [] (waiting h) front), set_swept (cancels h) h)
  else Ok (Some (DClosed front), h).

Definition sweep (kept rest : list nat) (front : bool) (h : Shared) : Result (option Stage * Shared) Stop :=
  match rest with
  | [] => Ok (Some (DClosed front), h)
  | n :: rest =>
      let? x := node_at n h in
      if is_cancelled x then Ok (Some (DRelease n (DSweep kept rest front)), set_waiting (kept ++ rest) h)
      else Ok (Some (DSweep (kept ++ [n]) rest front), h)
  end.

(** The end of [drain]: the role is given up, or another pass begins. *)
Definition gives_up (spurious : bool) (clear current : Z) (h : Shared) : Result (option Stage * Shared) Stop :=
  if negb (has (Z.lor DIRTY (wanted clear)) current) then
    if negb spurious && (word h =? current)
    then Ok (None, set_holder None (set_word (Z.ldiff current (gone clear)) h))
    else Ok (Some (DExit clear (word h)), h)
  else Ok (Some DClear, h).

(** [take] for a handoff, which has seen [current]. *)
Definition hand_goes (n : nat) (need current : Z) (front : bool) : Stage :=
  match admits current need with Some _ => DHandSwap n need current front | None => DAsk front end.

(** A look at the next node to nudge: a withdrawn one is passed over. *)
Definition nudges (first : bool) (rest : list nat) (budget : Z) (raised sent front : bool) (h : Shared) :
    Result (option Stage * Shared) Stop :=
  let ends := if raised && negb sent then DLower else DEnd in
  match rest with
  | [] => Ok (Some ends, h)
  | n :: rest =>
      let? x := node_at n h in
      if is_cancelled x then Ok (Some (DNudges first rest budget raised sent front), h)
      else if (budget <? payload x) && negb (first && front) then Ok (Some ends, h)
      else
        let budget := Z.max 0 (budget - payload x) in
        Ok (Some (if raised then DNudge n rest budget sent front else DRaise n rest budget sent front), h)
  end.

(** One step of [drain] and of the pass; no stage is left when the role is
    given up. *)
Definition drain_step (spurious : bool) (st : Stage) (h : Shared) : Result (option Stage * Shared) Stop :=
  match st with
  | DClear =>
      let before := word h in
      Ok (Some (DTake (has WAKE_FRONT before)), set_word (Z.ldiff before (Z.lor DIRTY WAKE_FRONT)) h)
  | DTake front => Ok (Some (DAbsorb (rev (arrivals h)) front), set_arrivals [] h)
  | DAbsorb rest front => absorb rest front h
  | DTidy front => tidy front h
  | DSweep kept rest front => sweep kept rest front h
  | DClosed front => Ok (Some (if closed_in (word h) then DCloseFront else DHandoff front), h)
  | DCloseFront => at_front DCloseFront (DOwed QUEUED) (fun n _ => DClosePayload n) h
  | DClosePayload n =>
      let? (_, h) := on_node n (fun x => (tt, set_payload CLOSED_GRANT x)) (set_waiting (tail (waiting h)) h) in
      Ok (Some (DCloseGrant n), h)
  | DCloseGrant n =>
      let? (_, h) := on_node n cell_grant h in
      Ok (Some (DRelease n DCloseFront), h)
  | DHandoff front => Ok (Some (if has HANDOFF (word h) then DHandFront front else DAsk front), h)
  | DHandFront front => at_front (DHandFront front) (DAsk front) (fun n x => DHandLoad n (payload x) front) h
  | DHandLoad n need front => Ok (Some (hand_goes n need (word h) front), h)
  | DHandSwap n need current front =>
      if negb spurious && (word h =? current)
      then Ok (Some (DHandGrant n need front), set_waiting (tail (waiting h)) (set_word (minus need current) h))
      else Ok (Some (hand_goes n need (word h) front), h)
  | DHandGrant n need front =>
      let? (granted, h) := on_node n cell_grant h in
      Ok (Some (DRelease n (if granted : bool then DHandFront front else DHandBack need front)), h)
  | DHandBack need front => Ok (Some (DHandFront front), set_word (plus need (word h)) h)
  | DAsk front => Ok (Some (if has HANDOFF (word h) then DAskOwed front else DNudgeFront front), h)
  | DAskOwed front => Ok (Some (if owed h =? 0 then DNudgeFront front else DEnd), h)
  | DNudgeFront front => at_front (DNudgeFront front) DEnd (fun _ _ => DBudget front) h
  | DBudget front => Ok (Some (DNudges true (waiting h) (free (word h)) false false front), h)
  | DNudges first rest budget raised sent front => nudges first rest budget raised sent front h
  | DRaise n rest budget sent front =>
      Ok (Some (DNudge n rest budget sent front), set_word (Z.lor (word h) NUDGE_OUT) h)
  | DNudge n rest budget sent front =>
      let? (out, h) := on_node n cell_nudge h in
      Ok (Some (DNudges false rest budget true (sent || out) front), h)
  | DLower => Ok (Some DEnd, set_word (Z.ldiff (word h) NUDGE_OUT) h)
  | DEnd => at_front DEnd (DOwed QUEUED) (fun _ _ => DOwed 0) h
  | DOwed clear => Ok (Some (DExitLoad (if owed h =? 0 then Z.lor clear HANDOFF else clear)), h)
  | DExitLoad clear => Ok (Some (DExit clear (word h)), h)
  | DExit clear current => gives_up spurious clear current h
  | DRelease n next =>
      let? (mark, h) := on_node n cell_let_go h in
      Ok (Some (if mark : bool then DForgive next else next), h)
  | DForgive next => Ok (Some next, forgive h)
  end.

(** ** Calls *)

Definition CStep : Type := Result (Client * Shared) Stop.

(** The poll answers. *)
Definition taken (c : Client) : Client := answers PollTaken (set_held (held c + need c) c).

(** [Poll::Ready(Err(Closed))], when the budget allows it or the poll waited. *)
Definition ends_closed (spends : bool) (c : Client) : Client :=
  if spends then
    let '(ok, t) := spend (waker c) (thread c) in
    answers (if ok : bool then PollClosed else PollPending) (set_thread t c)
  else answers PollClosed c.

(** After an attempt. *)
Definition attempt_won (p : Purpose) (n : Z) (c : Client) : Client :=
  match p with
  | First => at_ AtOnce c
  | Retry => at_ WonLook c
  | Try => answers (Tried true) (set_held (held c + n) c)
  end.

Definition attempt_lost (p : Purpose) (seen : Z) (c : Client) : Client :=
  match p with
  | First => if closed_in seen then ends_closed true c else at_ (SpinRounds seen) c
  | Retry =>
      at_ ParkRounds (if has HANDOFF seen then c else set_bypass (Z.min (bypass c + 1) MAX_BYPASS) c)
  | Try => answers (Tried false) c
  end.

(** [take_from], which has seen [current]. *)
Definition take_goes (p : Purpose) (n current : Z) (c : Client) : Client :=
  match admits current n with
  | Some _ => if has HANDOFF current then attempt_lost p current c else at_ (TakeSwap p n current) c
  | None => attempt_lost p current c
  end.

(** [RawSemaphore::try_take]: nothing is asked of an open semaphore's permits
    when none is wanted. *)
Definition try_take (p : Purpose) (n state : Z) (c : Client) : Client :=
  if n =? 0 then if closed_in state then attempt_lost p state c else attempt_won p n c
  else take_goes p n state c.

(** [RawSemaphore::take_one], and the general attempt after it. *)
Definition take_one (state : Z) (c : Client) : Client :=
  if (state =? ONE) || (ONE <=? state) && negb (has (Z.lor HANDOFF CLOSED) state)
  then at_ (TakeOneSwap state) c
  else take_goes First 1 state c.

(** [spin_take], before its next look. *)
Definition spin_goes (rounds : Z) (g : Gaps) (freed : bool) (seen : Z) (c : Client) : Client :=
  match wait g with
  | None => at_ (if freed then Enqueue else SpinRanOut rounds) c
  | Some g => at_ (if stops_spin seen then Enqueue else SpinLoad rounds g freed) c
  end.

Definition spin_look (rounds : Z) (g : Gaps) (freed : bool) (state : Z) (c : Client) : Client :=
  match (if stops_spin state then None else admits state (need c)) with
  | Some _ => at_ (SpinSwap rounds g state) c
  | None => spin_goes rounds g freed state c
  end.

(** [owe_or_take], once it knows whether it took. *)
Definition owe_ends (took : bool) (seen : Z) (c : Client) : Client :=
  if took then attempt_won Retry (need c) c else attempt_lost Retry seen c.

Definition owe_goes (marked took : bool) (seen : Z) (c : Client) : Client :=
  if negb marked then at_ (OweForgive took seen) c
  else if took || has HANDOFF seen then at_ (OweUnowe took seen) c
  else owe_ends took seen c.

Definition is_set (x : Change) : bool := match x with Set_ _ => true | _ => false end.

(** What is left of the caller once a transition returned the word it last saw,
    or the call had none to make. *)
Definition resume (k : Kont) (seen : Z) (x : Change) (c : Client) : Client :=
  match k with
  | KReturn a => answers a c
  | KPark => at_ ParkLook c
  | KTook => if queued_now c then at_ AtOnce c else taken c
  | KYield => answers PollPending (set_thread (snd (refused (waker c) (thread c))) c)
  | KOwed => owe_goes true (is_set x) seen c
  | KOweDone took seen => owe_ends took seen c
  end.

(** [RawSemaphore::release], and [release_wakes] when a pass is wanted. *)
Definition release (n : Z) (k : Kont) (c : Client) (h : Shared) : Client * Shared :=
  let before := word h in
  if n =? 0 then (resume k before Keep c, h)
  else (if wants_drain before then at_ (TrLoad TReleased k) c else resume k before Keep c, set_word (plus n before) h).

(** [RawSemaphore::forget], which has seen [current]. *)
Definition forget (spurious : bool) (n current : Z) (c : Client) (h : Shared) : Client * Shared :=
  let taken := Z.min (free current) n in
  if negb spurious && (word h =? current)
  then (answers (Forgot taken) c, set_total (total h - taken) (set_word (minus taken current) h))
  else (at_ (ForgetSwap n (word h)) c, h).

(** [transition], which has seen [current]. *)
Definition tr_goes (tr : Tr) (k : Kont) (current : Z) (c : Client) : Result Client Stop :=
  match change tr current with
  | None => Err Panics
  | Some Keep => Ok (resume k current Keep c)
  | Some x => Ok (at_ (TrSwap tr k current x) c)
  end.

(** How many permits a transition adds. *)
Definition adds (tr : Tr) : Z := match tr with TAdd n => n | _ => 0 end.

(** An operation on the client's own node; [none] without one. *)
Definition on_mine {A} (none : A) (f : Cell -> A * Cell) (c : Client) (h : Shared) : Result (A * Shared) Stop :=
  match queued c with Some n => on_node n f h | None => Ok (none, h) end.

Definition mine_marked (c : Client) (h : Shared) : Result bool Stop :=
  match queued c with Some n => let? x := node_at n h in Ok (cell_marked x) | None => Ok true end.

(** One step of client [me]. *)
Definition client_step (me : nat) (spurious : bool) (c : Client) (h : Shared) : CStep :=
  let state := word h in
  match pc c with
  | Idle => Err Disabled
  | TakeLoad p n => Ok (try_take p n state c, h)
  | TakeSwap p n current =>
      if negb spurious && (state =? current) then Ok (attempt_won p n c, set_word (minus n current) h)
      else Ok (take_goes p n state c, h)
  | TakeOneLoad => Ok (take_one state c, h)
  | TakeOneSwap seen =>
      if state =? seen then Ok (at_ AtOnce c, set_word (seen - ONE) h) else Ok (take_goes First 1 state c, h)
  | SpinRounds seen =>
      let r := rounds (spin h) in
      Ok (if r =? 0 then at_ Enqueue c else spin_goes r (gaps_new r) false seen c, h)
  | SpinLoad r g freed => Ok (spin_look r g freed state c, h)
  | SpinSwap r g seen =>
      if state =? seen then Ok (at_ (SpinWon r) c, set_word (minus (need c) seen) h)
      else Ok (spin_goes r g true state c, h)
  | SpinWon r => Ok (at_ AtOnce c, set_spin (won r (spin h)) h)
  | SpinRanOut r => Ok (at_ Enqueue c, set_spin (ran_out r (spin h)) h)
  | Enqueue =>
      let n := fresh h in
      Ok (at_ (Push n (head (arrivals h))) c, set_fresh (S n) (set_nodes (<[n := cell_new (need c)]> (nodes h)) h))
  | Push n x =>
      if negb spurious && bool_decide (head (arrivals h) = x)
      then Ok (at_ (TrLoad TEnqueue KPark) (set_queued_now true (set_queued (Some n) c)), set_arrivals (n :: arrivals h) h)
      else Ok (at_ (Push n (head (arrivals h))) c, h)
  | TrLoad tr k => let? c := tr_goes tr k state c in Ok (c, h)
  | TrSwap tr k current x =>
      match swaps current x with
      | None => Err Panics
      | Some (next, claim) =>
          if negb spurious && (state =? current) then
            let h := set_total (total h + adds tr) (set_word next h) in
            if claim : bool then Ok (at_ (Draining DClear k current x) c, set_holder (Some me) h)
            else Ok (resume k current x c, h)
          else let? c := tr_goes tr k state c in Ok (c, h)
      end
  | Draining st k seen x =>
      let? _ := exclusive (bool_decide (holder h = Some me)) in
      let? (st, h) := drain_step spurious st h in
      Ok (match st with Some st => at_ (Draining st k seen x) c | None => resume k seen x c end, h)
  | ParkLook =>
      let? (r, h) := on_mine (SeenGranted 0) cell_look c h in
      Ok (match r with
          | SeenGranted p => at_ (Consume (Some p)) (set_queued None c)
          | SeenNudged => at_ (Consume None) c
          | SeenPending => answers PollPending c
          end, h)
  | Consume granted =>
      let h := set_word (Z.ldiff state NUDGE_OUT) h in
      Ok (match granted with
          | Some p =>
              if p =? CLOSED_GRANT then ends_closed (queued_now c) c
              else if queued_now c then at_ AtOnce c else taken c
          | None => if bypass c + 1 =? MAX_BYPASS then at_ OweCount c else at_ (TakeLoad Retry (need c)) c
          end, h)
  | OweCount => Ok (at_ OweMark c, owe_one h)
  | OweMark =>
      let? (marked, h) := on_mine false cell_owe c h in
      Ok (at_ (if marked : bool then TrLoad (TOwe (need c)) KOwed else OweSeen) c, h)
  | OweSeen => Ok (owe_goes false false state c, h)
  | OweUnowe took seen =>
      let? (b, h) := on_mine false cell_unowe c h in
      Ok (at_ (if b : bool then OweForgive took seen else OweLook took seen) c, h)
  | OweForgive took seen => Ok (at_ (OweLook took seen) c, forgive h)
  | OweLook took seen =>
      Ok (if has HANDOFF state then at_ (TrLoad TPass (KOweDone took seen)) c else owe_ends took seen c, h)
  | WonLook => Ok (at_ (if rounds (spin h) =? 0 then WonStore else CancelLook KTook) c, h)
  | WonStore => Ok (at_ (CancelLook KTook) c, set_spin (won 0 (spin h)) h)
  | CancelLook k =>
      let? (r, h) := on_mine None (fun x => prod_map Some id (cell_cancel x)) c h in
      let c := set_queued None c in
      Ok (match r with
          | None => resume k state Keep c
          | Some (LeftWithdrawn woken) => at_ (CancelCount woken k) c
          | Some (LeftGranted p) => at_ (CancelConsume p k) c
          end, h)
  | CancelCount woken k => Ok (at_ (TrLoad (TWithdrawn woken) k) c, set_cancels ((cancels h + 1) mod u64_size) h)
  | CancelConsume p k =>
      let h := set_word (Z.ldiff state NUDGE_OUT) h in
      Ok (if p =? CLOSED_GRANT then resume k state Keep c else at_ (ReleaseAdd (need c) k) c, h)
  | ReleaseAdd n k => Ok (release n k c h)
  | AtOnce =>
      let '(ok, t) := try_spend (thread c) in
      let c := set_thread t c in
      Ok (if ok : bool then taken c else at_ (ReleaseAdd (need c) KYield) c, h)
  | ParkRounds =>
      let r := rounds (spin h) in
      Ok (at_ (if r =? 0 then ParkLook else ParkBegin r) c, h)
  | ParkBegin r =>
      let? marked := mine_marked c h in
      Ok (at_ (if marked : bool then ParkLook else ParkSpin r (Z.to_nat r)) c, h)
  | ParkSpin r k =>
      match k with
      | O => Ok (at_ (ParkStore false r) c, h)
      | S k =>
          let? marked := mine_marked c h in
          Ok (at_ (if marked : bool then ParkStore true r else ParkSpin r k) c, h)
      end
  | ParkStore saw r => Ok (at_ ParkLook c, set_spin (if saw then won r (spin h) else ran_out r (spin h)) h)
  | ForgetLoad n => Ok (at_ (ForgetSwap n state) c, h)
  | ForgetSwap n current => Ok (forget spurious n current c h)
  end.

(** ** The system *)

Record Sys : Type := { shared : Shared; clients : gmap nat Client }.

Definition system_new (spins : bool) (permits : Z) : option Sys :=
  h ← semaphore_new spins permits; Some {| shared := h; clients := ∅ |}.

(** What clients do, when they are in no call: begin a future for some permits,
    poll it (as any acquire, or as a mutex does) with what the executor leaves
    of the budget, drop it, or take a step; try to acquire, release permits they
    hold or keep them for good, add and forget permits, close. *)
Inductive Act : Type :=
| Acquire (i : nat) (n : Z)
| PollAcquire (i : nat) (w : Waker) (ops : Z)
| PollOne (i : nat) (w : Waker) (ops : Z)
| DropAcquire (i : nat)
| TryAcquire (i : nat) (n : Z)
| Release (i : nat) (n : Z)
| ForgetHeld (i : nat) (n : Z)
| Add (i : nat) (n : Z)
| Forget (i : nat) (n : Z)
| Close (i : nat)
| StepOf (i : nat) (spurious : bool).

Definition is_idle (c : Client) : bool := match pc c with Idle => true | _ => false end.
Definition not_queued (c : Client) : bool := match queued c with None => true | Some _ => false end.
Definition if_ (b : bool) (r : CStep) : CStep := if b then r else Err Disabled.

(** A poll begins. *)
Definition begins (first : Pc) (w : Waker) (ops : Z) (c : Client) : Client :=
  at_ (if not_queued c then first else ParkLook)
    (set_queued_now false (set_thread (set_budget ops (thread c)) (set_waker w c))).

Definition client_act (a : Act) (c : Client) (h : Shared) : CStep :=
  match a with
  | Acquire _ n => if_ (is_idle c && not_queued c && (0 <=? n) && (n <=? MAX)) (Ok (set_need n (set_bypass 0 c), h))
  | PollAcquire _ w ops => if_ (is_idle c) (Ok (begins (TakeLoad First (need c)) w ops c, h))
  | PollOne _ w ops => if_ (is_idle c && (need c =? 1)) (Ok (begins TakeOneLoad w ops c, h))
  | DropAcquire _ =>
      if_ (is_idle c) (Ok (if not_queued c then answers Done c else at_ (CancelLook (KReturn Done)) c, h))
  | TryAcquire _ n => if_ (is_idle c && (0 <=? n) && (n <=? MAX)) (Ok (at_ (TakeLoad Try n) c, h))
  | Release _ n =>
      if_ (is_idle c && (0 <=? n) && (n <=? held c))
        (Ok (at_ (ReleaseAdd n (KReturn Done)) (set_held (held c - n) c), h))
  | ForgetHeld _ n =>
      if_ (is_idle c && (0 <=? n) && (n <=? held c))
        (Ok (answers Done (set_held (held c - n) c), set_total (total h - n) h))
  | Add _ n =>
      if_ (is_idle c && (0 <=? n) && (n <=? usize_max))
        (Ok (if n =? 0 then answers Done c else at_ (TrLoad (TAdd n) (KReturn Done)) c, h))
  | Forget _ n =>
      if_ (is_idle c && (0 <=? n)) (Ok (if n =? 0 then answers (Forgot 0) c else at_ (ForgetLoad n) c, h))
  | Close _ => if_ (is_idle c) (Ok (at_ (TrLoad TClose (KReturn Done)) c, h))
  | StepOf i spurious => client_step i spurious c h
  end.

Definition who (a : Act) : nat :=
  match a with
  | Acquire i _ | PollAcquire i _ _ | PollOne i _ _ | DropAcquire i | TryAcquire i _ | Release i _ | ForgetHeld i _
  | Add i _ | Forget i _ | Close i | StepOf i _ => i
  end.

Definition act (a : Act) (s : Sys) : Result Sys Stop :=
  let? (c, h) := client_act a (default client_new (clients s !! who a)) (shared s) in
  Ok {| shared := h; clients := <[who a := c]> (clients s) |}.

Definition acts : list Act -> Sys -> Result Sys Stop := run act.
