(* ===== verification/RawSemaphoreWord.v ===== *)
(** * The semaphore's word taken apart

    The word of [sync/raw_semaphore.rs] as its seven bits and its permits, and
    what each operation on it does to them. *)

From S2P Require Import Prelude QueueWord RawSemaphore.
Open Scope Z_scope.

(** The bits from the lowest: draining, dirty, queued, a nudge out, handoff, a
    request to wake the front, closed; then the free permits. *)
Inductive View : Type := Mk (dr di qu nu ha fr cl : bool) (p : Z).

Definition view (s : Z) : View :=
  Mk (Z.testbit s 0) (Z.testbit s 1) (Z.testbit s 2) (Z.testbit s 3) (Z.testbit s 4) (Z.testbit s 5)
     (Z.testbit s 6) (Z.shiftr s 7).

#[local] Arguments Z.testbit : simpl never.
#[local] Arguments Z.shiftr : simpl never.

Lemma bit_nudge_out s : has NUDGE_OUT s = Z.testbit s 3.
Proof. by apply (has_testbit 3). Qed.
Lemma bit_handoff s : has HANDOFF s = Z.testbit s 4.
Proof. by apply (has_testbit 4). Qed.
Lemma bit_closed s : has CLOSED s = Z.testbit s 6.
Proof. by apply (has_testbit 6). Qed.

Lemma land_queued s : (Z.land s (Z.lor QUEUED DRAINING) =? QUEUED) = Z.testbit s 2 && negb (Z.testbit s 0).
Proof.
  apply eq_true_iff_eq. rewrite Z.eqb_eq, andb_true_iff, negb_true_iff. split.
  - intros E. split; [apply (f_equal (fun z => Z.testbit z 2)) in E | apply (f_equal (fun z => Z.testbit z 0)) in E];
      rewrite Z.land_spec in E; change (Z.testbit (Z.lor QUEUED DRAINING) 2) with true in E;
      change (Z.testbit (Z.lor QUEUED DRAINING) 0) with true in E; by rewrite andb_true_r in E.
  - intros [H2 H0]. apply Z.bits_inj'. intros i Hi. rewrite Z.land_spec.
    destruct (decide (i = 0)) as [-> |]; [by rewrite H0 |]. destruct (decide (i = 2)) as [-> |]; [by rewrite H2 |].
    change (Z.lor QUEUED DRAINING) with (2 ^ 2 + 2 ^ 0). change QUEUED with (2 ^ 2).
    rewrite (Z.pow2_bits_false 2) by lia. destruct (decide (i = 1)) as [-> |]; [apply andb_false_r |].
    assert (Z.testbit (2 ^ 2 + 2 ^ 0) i = false) as ->; [| apply andb_false_r].
    apply Z.bits_above_log2; [done |]. change (Z.log2 (2 ^ 2 + 2 ^ 0)) with 2. lia.
Qed.

Lemma word_parts {s d y q n h f c p} :
  view s = Mk d y q n h f c p ->
  Z.testbit s 0 = d /\ Z.testbit s 1 = y /\ Z.testbit s 2 = q /\ Z.testbit s 3 = n /\ Z.testbit s 4 = h /\
  Z.testbit s 5 = f /\ Z.testbit s 6 = c /\ Z.shiftr s 7 = p.
Proof. unfold view. intros Hv. injection Hv. tauto. Qed.

Lemma low_bits s i : 0 <= i < 7 -> Z.testbit s i = Z.testbit (s mod 128) i.
Proof. intros Hi. change 128 with (2 ^ 7). rewrite Z.mod_pow2_bits_low by lia. done. Qed.

Lemma view_low s t p : s mod 128 = t mod 128 -> Z.shiftr s 7 = p ->
  forall d y q n h f c p', view t = Mk d y q n h f c p' -> view s = Mk d y q n h f c p.
Proof.
  intros Hm Hp d y q n h f c p' (<- & <- & <- & <- & <- & <- & <- & _)%word_parts. unfold view.
  rewrite Hp, !(low_bits s), Hm, <- !low_bits by lia. done.
Qed.

Lemma word_split s : s = 128 * free s + s mod 128.
Proof. unfold free, SHIFT. rewrite Z.shiftr_div_pow2 by done. change (2 ^ 7) with 128. apply Z.div_mod. done. Qed.

Lemma word_range s : 0 <= free s <= MAX -> 0 <= s < u64_size.
Proof.
  intros H. pose proof (word_split s). pose proof (Z.mod_pos_bound s 128 ltac:(done)). unfold MAX, u64_size in *. lia.
Qed.

Lemma free_add s n : free (s + 128 * n) = free s + n.
Proof.
  unfold free, SHIFT. rewrite !Z.shiftr_div_pow2 by done. change (2 ^ 7) with 128.
  rewrite (Z.mul_comm 128 n), Z.div_add by done. done.
Qed.

Lemma mod_add s n : (s + 128 * n) mod 128 = s mod 128.
Proof. rewrite (Z.mul_comm 128 n). by apply Z.mod_add. Qed.

Lemma shiftl_mul n : Z.shiftl n SHIFT = 128 * n.
Proof. unfold SHIFT. rewrite Z.shiftl_mul_pow2 by done. change (2 ^ 7) with 128. lia. Qed.

Lemma plus_eq n s : 0 <= free s -> 0 <= n -> free s + n <= MAX -> plus n s = s + 128 * n.
Proof.
  intros H0 Hn H. unfold plus. rewrite shiftl_mul. apply Z.mod_small. apply word_range. rewrite free_add. lia.
Qed.

Lemma minus_eq n s : minus n s = s + 128 * (- n).
Proof. unfold minus. rewrite shiftl_mul. lia. Qed.

#[global] Opaque has.

(** Reads every bit, computes those of the masks, and goes through what is
    left. *)
Ltac read_word Hv :=
  repeat (rewrite Z.lor_spec || rewrite Z.ldiff_spec || rewrite Z.shiftr_lor || rewrite Z.shiftr_ldiff);
  destruct (word_parts Hv) as (-> & -> & -> & -> & -> & -> & -> & ->);
  repeat match goal with
  | |- context [Z.testbit ?m ?i] =>
      let b := eval vm_compute in (Z.testbit m i) in
      match b with true => change (Z.testbit m i) with true | false => change (Z.testbit m i) with false end
  | |- context [Z.shiftr ?m 7] =>
      let v := eval vm_compute in (Z.shiftr m 7) in
      match v with 0 => change (Z.shiftr m 7) with 0 end
  end;
  rewrite ?Z.lor_0_r, ?Z.ldiff_0_r, ?andb_false_r, ?andb_true_r, ?orb_false_r, ?orb_true_r.
Ltac by_word Hv := unfold view; read_word Hv; reflexivity.

Section word_parts.
Context {s : Z} {d y q n h f c : bool} {p : Z}.
Context (Hv : view s = Mk d y q n h f c p).

Lemma test_draining : has DRAINING s = d.
Proof using Hv. rewrite bit_draining. apply (word_parts Hv). Qed.
Lemma test_dirty : has DIRTY s = y.
Proof using Hv. rewrite bit_dirty. apply (word_parts Hv). Qed.
Lemma test_queued : has QUEUED s = q.
Proof using Hv. rewrite bit_queued. apply (word_parts Hv). Qed.
Lemma test_nudge_out : has NUDGE_OUT s = n.
Proof using Hv. rewrite bit_nudge_out. apply (word_parts Hv). Qed.
Lemma test_handoff : has HANDOFF s = h.
Proof using Hv. rewrite bit_handoff. apply (word_parts Hv). Qed.
Lemma test_front : has WAKE_FRONT s = f.
Proof using Hv. rewrite bit_front. apply (word_parts Hv). Qed.
Lemma test_closed : has CLOSED s = c.
Proof using Hv. rewrite bit_closed. apply (word_parts Hv). Qed.
Lemma test_free : free s = p.
Proof using Hv. apply (word_parts Hv). Qed.
Lemma test_wants : wants_drain s = q && (negb n || h).
Proof using Hv. unfold wants_drain. by rewrite test_queued, test_nudge_out, test_handoff. Qed.
Lemma test_stops : stops_spin s = h || q && negb d.
Proof using Hv.
  unfold stops_spin. rewrite land_queued, test_handoff. destruct (word_parts Hv) as (-> & _ & -> & _). done.
Qed.
Lemma test_barred : has (Z.lor HANDOFF CLOSED) s = h || c.
Proof using Hv. by rewrite has_or, test_handoff, test_closed. Qed.

Lemma view_nudge_out : view (Z.lor s NUDGE_OUT) = Mk d y q true h f c p.
Proof using Hv. by_word Hv. Qed.
Lemma view_no_nudge : view (Z.ldiff s NUDGE_OUT) = Mk d y q false h f c p.
Proof using Hv. by_word Hv. Qed.
Lemma view_clear : view (Z.ldiff s (Z.lor DIRTY WAKE_FRONT)) = Mk d false q n h false c p.
Proof using Hv. by_word Hv. Qed.
Lemma view_claim : view (Z.lor s DRAINING) = Mk true y q n h f c p.
Proof using Hv. by_word Hv. Qed.
Lemma view_dirty : view (Z.lor s DIRTY) = Mk d true q n h f c p.
Proof using Hv. by_word Hv. Qed.
Lemma view_queued : view (Z.lor s QUEUED) = Mk d y true n h f c p.
Proof using Hv. by_word Hv. Qed.
Lemma view_handoff : view (Z.lor s HANDOFF) = Mk d y q n true f c p.
Proof using Hv. by_word Hv. Qed.
Lemma view_front : view (Z.lor s WAKE_FRONT) = Mk d y q n h true c p.
Proof using Hv. by_word Hv. Qed.
Lemma view_closed : view (Z.lor s CLOSED) = Mk d y q n h f true p.
Proof using Hv. by_word Hv. Qed.
Lemma view_withdrawn (b : bool) : view (Z.lor (Z.ldiff s NUDGE_OUT) (if b then WAKE_FRONT else 0)) = Mk d y q false h (f || b) c p.
Proof using Hv. destruct b; by_word Hv. Qed.

Lemma view_plus k : 0 <= p -> 0 <= k -> p + k <= MAX -> view (plus k s) = Mk d y q n h f c (p + k).
Proof using Hv.
  intros Hp Hk Hm. rewrite plus_eq by (rewrite ?test_free; lia). eapply view_low; [apply mod_add | | exact Hv].
  change (free (s + 128 * k) = p + k). by rewrite free_add, test_free.
Qed.
Lemma view_minus k : view (minus k s) = Mk d y q n h f c (p - k).
Proof using Hv.
  rewrite minus_eq. eapply view_low; [apply mod_add | | exact Hv].
  change (free (s + 128 * - k) = p - k). rewrite free_add, test_free. lia.
Qed.
Lemma view_added k : view (Z.lor (Z.land s FLAGS) (Z.shiftl k SHIFT)) = Mk d y q n h f c k.
Proof using Hv.
  assert (E : Z.lor (Z.land s FLAGS) (Z.shiftl k SHIFT) = s mod 128 + 128 * k).
  { rewrite shiftl_mul. change FLAGS with (Z.ones 7). rewrite Z.land_ones by done. change (2 ^ 7) with 128.
    rewrite <- Z.add_lor_land. assert (Z.land (s mod 128) (128 * k) = 0) as ->; [| lia].
    apply Z.bits_inj'. intros i Hi. rewrite Z.land_spec, Z.testbit_0_l. change 128 with (2 ^ 7).
    destruct (Z.lt_ge_cases i 7); [rewrite (Z.mul_comm (2 ^ 7)), Z.mul_pow2_bits_low by lia; apply andb_false_r |].
    by rewrite Z.mod_pow2_bits_high by lia. }
  rewrite E. eapply view_low; [| | exact Hv].
  - rewrite mod_add. by rewrite Z.mod_mod.
  - change (free (s mod 128 + 128 * k) = k). rewrite free_add. unfold free, SHIFT.
    rewrite Z.shiftr_div_pow2 by done. change (2 ^ 7) with 128. rewrite Z.div_small by (by apply Z.mod_pos_bound). lia.
Qed.
End word_parts.

Lemma view_of s : exists d y q n h f c, view s = Mk d y q n h f c (free s).
Proof. unfold view, free, SHIFT. eauto 10. Qed.
