(* ===== verification/RawSemaphoreInv.v ===== *)
(** * The invariant of the shared semaphore

    The books of [RawSemaphore]: the permits that are free, granted and not
    collected, held, or on their way, add up; a drain role has one holder; a
    node is linked once and owned once. Each is a sum over the clients, so a
    step of one keeps it when it keeps that client's share ([good]). *)

From S2P Require Import Prelude Coop AtomicWaits QueueWord Spin NodeCell RawSemaphore RawSemaphoreWord Sums.
Open Scope Z_scope.

(** ** The shares of a client *)

(** The permits that wait on a node for its future. *)
Definition cell_carries (x : Cell) : Z :=
  if is_granted x && held_by_future x && negb (payload x =? CLOSED_GRANT) then payload x else 0.

Definition kont_carries (k : Kont) (need : Z) : Z :=
  match k with KTook => need | KOweDone took _ => if took then need else 0 | _ => 0 end.

Fixpoint stage_carries (st : Stage) : Z :=
  match st with
  | DHandGrant _ need _ | DHandBack need _ => need
  | DRelease _ next | DForgive next => stage_carries next
  | _ => 0
  end.

(** The permits a client took and neither holds nor gave back. *)
Definition pc_carries (pc : Pc) (need : Z) : Z :=
  match pc with
  | SpinWon _ | AtOnce | WonLook | WonStore => need
  | CancelLook k | CancelCount _ k | TrLoad _ k | TrSwap _ k _ _ => kont_carries k need
  | CancelConsume p k => (if p =? CLOSED_GRANT then 0 else need) + kont_carries k need
  | ReleaseAdd n k => n + kont_carries k need
  | Draining st k _ _ => stage_carries st + kont_carries k need
  | Consume (Some p) => if p =? CLOSED_GRANT then 0 else need
  | OweUnowe took _ | OweForgive took _ | OweLook took _ => if took then need else 0
  | _ => 0
  end.

Definition under_way (c : Client) : Z := pc_carries (pc c) (need c).
Definition carries (c : Client) : Z := held c + pc_carries (pc c) (need c).

Definition is_draining (c : Client) : Z := match pc c with Draining _ _ _ _ => 1 | _ => 0 end.

(** The permits a client is about to add. *)
Definition adding (c : Client) : Z := match pc c with TrLoad tr _ | TrSwap tr _ _ _ => adds tr | _ => 0 end.

(** The nodes a client has taken off the lists, or not put there yet. *)
Fixpoint stage_nodes (st : Stage) : list nat :=
  match st with
  | DAbsorb rest _ => rest
  | DCloseGrant n | DHandGrant n _ _ => [n]
  | DRelease _ next | DForgive next => stage_nodes next
  | _ => []
  end.

Definition pc_nodes (pc : Pc) : list nat :=
  match pc with Push n _ => [n] | Draining st _ _ _ => stage_nodes st | _ => [] end.

Definition links (n : nat) (c : Client) : Z := count n (pc_nodes (pc c)).

(** The node a client waits on. *)
Definition own_node (c : Client) : option nat := match pc c with Push n _ => Some n | _ => queued c end.
Definition owns (n : nat) (c : Client) : Z := match own_node c with Some m => Z.b2z (m =? n)%nat | None => 0 end.

(** ** What holds of a client *)

Definition linked_ok (l : list nat) (h : Shared) : Prop :=
  forall n, n ∈ l -> exists x, nodes h !! n = Some x /\ phase x <> Granted /\ payload x <> CLOSED_GRANT.

Definition there (n : nat) (h : Shared) : Prop := exists x, nodes h !! n = Some x.

Definition at_head (n : nat) (need : Z) (h : Shared) : Prop :=
  (exists rest, waiting h = n :: rest) /\ exists x, nodes h !! n = Some x /\ payload x = need.

Fixpoint stage_ok (st : Stage) (h : Shared) : Prop :=
  match st with
  | DAbsorb rest _ => linked_ok rest h
  | DSweep kept rest _ => waiting h = kept ++ rest
  | DClosePayload n => exists rest, waiting h = n :: rest
  | DCloseGrant n => exists x, nodes h !! n = Some x /\ payload x = CLOSED_GRANT
  | DHandLoad n need _ => at_head n need h
  | DHandSwap n need current _ => at_head n need h /\ need <= free current
  | DHandGrant n need _ => exists x, nodes h !! n = Some x /\ payload x = need /\ need <> CLOSED_GRANT
  | DHandBack need _ => 0 <= need
  | DNudges _ rest _ _ _ _ => forall n, n ∈ rest -> there n h
  | DRaise n rest _ _ _ | DNudge n rest _ _ _ => there n h /\ forall n, n ∈ rest -> there n h
  | DOwed clear => clear = 0 \/ clear = QUEUED
  | DExitLoad clear | DExit clear _ => clear = 0 \/ clear = QUEUED \/ clear = HANDOFF \/ clear = Z.lor QUEUED HANDOFF
  | DRelease n next => there n h /\ stage_ok next h
  | DForgive next => stage_ok next h
  | _ => True
  end.

(** A transition that may take permits goes on as [owe_or_take]. *)
Definition tr_ok (tr : Tr) (k : Kont) (c : Client) : Prop :=
  match tr with
  | TOwe n => n = need c /\ k = KOwed
  | TAdd n => 0 <= n /\ k <> KOwed
  | _ => k <> KOwed
  end.

Definition kont_queued (k : Kont) : bool := match k with KPark | KOwed | KOweDone _ _ => true | _ => false end.

(** The client is queued, is not, or may be either. *)
Definition queued_at (pc : Pc) : option bool :=
  match pc with
  | TakeLoad First _ | TakeSwap First _ _ | TakeOneLoad | TakeOneSwap _ | SpinRounds _ | SpinLoad _ _ _
  | SpinSwap _ _ _ | SpinWon _ | SpinRanOut _ | Enqueue | Push _ _ => Some false
  | TakeLoad Retry _ | TakeSwap Retry _ _ | ParkLook | Consume None | OweCount | OweMark | OweSeen | OweUnowe _ _
  | OweForgive _ _ | OweLook _ _ | WonLook | WonStore | CancelLook _ | ParkRounds | ParkBegin _ | ParkSpin _ _
  | ParkStore _ _ => Some true
  | TrLoad _ k | TrSwap _ k _ _ | Draining _ k _ _ => if kont_queued k then Some true else None
  | _ => None
  end.

Definition is_some {A} (o : option A) : bool := match o with Some _ => true | None => false end.

Definition pc_ok (c : Client) (h : Shared) : Prop :=
  match pc c with
  | TakeLoad p n => 0 <= n /\ (p <> Try -> n = need c)
  | TakeSwap p n current => 0 <= n <= free current /\ (p <> Try -> n = need c)
  | TakeOneLoad => need c = 1
  | TakeOneSwap seen => need c = 1 /\ 1 <= free seen
  | SpinSwap _ _ seen => need c <= free seen
  | Push n _ => exists x, nodes h !! n = Some x /\ phase x = Waiting /\ held_by_future x = true /\ payload x = need c
  | TrLoad tr k => tr_ok tr k c
  | TrSwap tr k current x => tr_ok tr k c /\ change tr current = Some x /\ x <> Keep
  | Draining st k _ x => is_set x = false /\ stage_ok st h
  | CancelLook k | CancelCount _ k | CancelConsume _ k => kont_queued k = false
  | ReleaseAdd n k => 0 <= n /\ kont_queued k = false
  | ForgetLoad n | ForgetSwap n _ => 0 <= n
  | _ => True
  end.

Definition own_ok (c : Client) (h : Shared) : Prop :=
  forall n, queued c = Some n ->
  exists x, nodes h !! n = Some x /\ held_by_future x = true /\ phase x <> Cancelled /\
            (payload x = need c \/ payload x = CLOSED_GRANT).

Record client_ok (i : nat) (c : Client) (h : Shared) : Prop := {
  c_held : 0 <= held c;
  c_need : 0 <= need c <= MAX;
  c_queued : forall b, queued_at (pc c) = Some b -> is_some (queued c) = b;
  c_pc : pc_ok c h;
  c_own : own_ok c h;
  c_role : is_draining c = 1 -> holder h = Some i }.

(** ** The books *)

Definition cell_ok (x : Cell) : Prop :=
  (phase x = Waiting -> held_by_future x = true) /\ (0 <= payload x <= MAX \/ payload x = CLOSED_GRANT).

Record shared_ok (h : Shared) : Prop := {
  h_free : 0 <= free (word h);
  h_cells : forall n x, nodes h !! n = Some x -> (n < fresh h)%nat /\ cell_ok x;
  h_linked : linked_ok (waiting h ++ arrivals h) h }.

Definition linked (n : nat) (h : Shared) : Z := count n (waiting h ++ arrivals h).

(** [limit] is what the permits may come to. *)
Record inv (limit : Z) (s : Sys) : Prop := {
  i_shared : shared_ok (shared s);
  i_clients : forall i c, clients s !! i = Some c -> client_ok i c (shared s);
  i_sum : free (word (shared s)) + msum cell_carries (nodes (shared s)) + msum carries (clients s) = total (shared s);
  i_limit : total (shared s) + msum adding (clients s) <= limit;
  i_role : msum is_draining (clients s) = Z.b2z (has DRAINING (word (shared s)));
  i_links : forall n, linked n (shared s) + msum (links n) (clients s) <= Z.b2z (n <? fresh (shared s))%nat;
  i_owns : forall n, msum (owns n) (clients s) <= Z.b2z (n <? fresh (shared s))%nat }.

(** ** A step and the rest *)

(** Two clients own different nodes, and the links are disjoint. *)
Record apart (c d : Client) (h : Shared) : Prop := {
  a_owns : forall n, owns n c + owns n d <= 1;
  a_links : forall n, linked n h + links n c + links n d <= 1;
  a_role : is_draining c + is_draining d <= Z.b2z (has DRAINING (word h)) }.

(** What the step of a client relies on. *)
Record ready (i : nat) (c : Client) (h : Shared) : Prop := {
  r_shared : shared_ok h;
  r_client : client_ok i c h;
  r_room : free (word h) + carries c <= total h;
  r_total : total h + adding c <= MAX;
  r_links : forall n, linked n h + links n c <= 1;
  r_role : is_draining c <= Z.b2z (has DRAINING (word h)) }.

(** A step of a client keeps the books; [more] permits are about to be added. *)
Record good (more : Z) (i : nat) (c : Client) (h : Shared) (c' : Client) (h' : Shared) : Prop := {
  g_shared : shared_ok h';
  g_client : client_ok i c' h';
  g_sum : free (word h') + msum cell_carries (nodes h') + carries c' - total h' =
          free (word h) + msum cell_carries (nodes h) + carries c - total h;
  g_total : total h' + adding c' <= total h + adding c + more;
  g_role : is_draining c' - Z.b2z (has DRAINING (word h')) = is_draining c - Z.b2z (has DRAINING (word h));
  g_links : forall n, linked n h' + links n c' - Z.b2z (n <? fresh h')%nat <= linked n h + links n c - Z.b2z (n <? fresh h)%nat;
  g_owns : forall n, owns n c' - Z.b2z (n <? fresh h')%nat <= owns n c - Z.b2z (n <? fresh h)%nat;
  g_others : forall j d, j <> i -> apart c d h -> client_ok j d h -> client_ok j d h' }.

Lemma cell_carries_nonneg x : cell_ok x -> 0 <= cell_carries x.
Proof.
  intros [_ Hp]. unfold cell_carries. destruct (is_granted x && held_by_future x); cbn; [| lia].
  destruct (Z.eqb_spec (payload x) CLOSED_GRANT); cbn; lia.
Qed.

Lemma stage_carries_nonneg st h : shared_ok h -> stage_ok st h -> 0 <= stage_carries st.
Proof.
  intros Hh. induction st; cbn; try lia; try tauto.
  intros (x & Hx & <- & Hc). destruct (h_cells h Hh _ _ Hx) as [_ [_ [? | ?]]]; [lia | done].
Qed.

Lemma kont_carries_nonneg k need : 0 <= need -> 0 <= kont_carries k need.
Proof. intros. destruct k; cbn; try lia. case_match; lia. Qed.

Lemma under_way_nonneg i c h : shared_ok h -> client_ok i c h -> 0 <= under_way c.
Proof.
  intros Hh [Hd [Hn _] _ Hp _ _]. unfold under_way, pc_ok in *.
  assert (forall k, 0 <= kont_carries k (need c)) as Hk by (intros; by apply kont_carries_nonneg).
  destruct (pc c); cbn in *; repeat case_match; try (specialize (Hk k)); try lia.
  destruct Hp as [_ Hs]. pose proof (stage_carries_nonneg st h Hh Hs). lia.
Qed.

Lemma carries_nonneg i c h : shared_ok h -> client_ok i c h -> 0 <= carries c.
Proof. intros Hh Hc. pose proof (under_way_nonneg i c h Hh Hc). pose proof (c_held i c h Hc). unfold carries, under_way in *. lia. Qed.

Lemma adding_nonneg i c h : client_ok i c h -> 0 <= adding c.
Proof.
  intros H%c_pc. unfold adding, pc_ok in *. destruct (pc c); try done; destruct tr; cbn in *; lia.
Qed.

Lemma links_nonneg n c : 0 <= links n c.
Proof. apply count_nonneg. Qed.
Lemma owns_nonneg n c : 0 <= owns n c.
Proof. unfold owns. destruct (own_node c) as [m|]; [destruct (m =? n)%nat |]; cbn; lia. Qed.
Lemma is_draining_nonneg c : 0 <= is_draining c.
Proof. unfold is_draining. by destruct (pc c). Qed.
#[local] Hint Resolve links_nonneg owns_nonneg is_draining_nonneg : core.

Lemma client_new_ok i h : client_ok i client_new h.
Proof. constructor; cbn; try done; unfold MAX; lia. Qed.

Definition client_at (i : nat) (s : Sys) : Client := default client_new (clients s !! i).

Lemma client_at_ok limit s i : inv limit s -> client_ok i (client_at i s) (shared s).
Proof. intros Hs. unfold client_at. destruct (clients s !! i) eqn:E; cbn; [by eapply i_clients | apply client_new_ok]. Qed.

(** The share of one client, and of another besides, in a sum over them all. *)
Lemma share_one (f : Client -> Z) s i :
  f client_new = 0 -> (forall j c, clients s !! j = Some c -> 0 <= f c) -> f (client_at i s) <= msum f (clients s).
Proof.
  intros Hn Hf. unfold client_at. destruct (clients s !! i) as [c|] eqn:E; cbn; [by apply (msum_one f _ i) |].
  rewrite Hn. by apply msum_nonneg.
Qed.

Lemma share_two (f : Client -> Z) s i j d :
  f client_new = 0 -> (forall k c, clients s !! k = Some c -> 0 <= f c) -> j <> i -> clients s !! j = Some d ->
  f (client_at i s) + f d <= msum f (clients s).
Proof.
  intros Hn Hf Hne Hj. unfold client_at. destruct (clients s !! i) as [c|] eqn:E; cbn; [by apply (msum_two f _ i j) |].
  rewrite Hn. pose proof (msum_one f _ j d Hf Hj). lia.
Qed.

Lemma nodes_sum_nonneg h : shared_ok h -> 0 <= msum cell_carries (nodes h).
Proof. intros Hh. apply msum_nonneg. intros n x Hx. apply cell_carries_nonneg. by eapply h_cells. Qed.

Lemma inv_ready limit s i : inv limit s -> limit <= MAX -> ready i (client_at i s) (shared s).
Proof.
  intros Hi Hl. pose proof (i_shared _ s Hi) as Hh.
  assert (Hokay : forall j c, clients s !! j = Some c -> client_ok j c (shared s)) by apply (i_clients _ s Hi).
  constructor; [done | by eapply client_at_ok | | | |].
  - rewrite <- (i_sum _ s Hi). pose proof (nodes_sum_nonneg _ Hh).
    enough (carries (client_at i s) <= msum carries (clients s)) by lia. apply share_one; [done |].
    intros j c Hc. eapply carries_nonneg; eauto.
  - pose proof (i_limit _ s Hi). enough (adding (client_at i s) <= msum adding (clients s)) by lia.
    apply share_one; [done |]. intros j c Hc. eapply adding_nonneg; eauto.
  - intros n. pose proof (i_links _ s Hi n). pose proof (share_one (links n) s i eq_refl ltac:(auto)).
    destruct (n <? fresh (shared s))%nat; cbn in *; lia.
  - rewrite <- (i_role _ s Hi). by apply share_one.
Qed.

Lemma inv_apart limit s i j d : inv limit s -> j <> i -> clients s !! j = Some d -> apart (client_at i s) d (shared s).
Proof.
  intros Hi Hne Hj. constructor.
  - intros n. pose proof (i_owns _ s Hi n). pose proof (share_two (owns n) s i j d eq_refl ltac:(auto) Hne Hj).
    destruct (n <? fresh (shared s))%nat; cbn in *; lia.
  - intros n. pose proof (i_links _ s Hi n). pose proof (share_two (links n) s i j d eq_refl ltac:(auto) Hne Hj).
    destruct (n <? fresh (shared s))%nat; cbn in *; lia.
  - rewrite <- (i_role _ s Hi). by apply (share_two is_draining s i j).
Qed.

Lemma inv_step limit more s i c' h' :
  inv limit s -> good more i (client_at i s) (shared s) c' h' ->
  inv (limit + more) {| shared := h'; clients := <[i := c']> (clients s) |}.
Proof.
  intros Hi [Hh Hc Hsum Htotal Hrole Hlinks Howns Hothers]. constructor; cbn [shared clients]; [done | | | | | |].
  - intros j d Hj. destruct (decide (i = j)) as [<- | Hne].
    + rewrite lookup_insert_eq in Hj. by simplify_eq.
    + rewrite lookup_insert_ne in Hj by done. apply Hothers; [done | by eapply (inv_apart _ s i j) | by eapply i_clients].
  - pose proof (i_sum _ s Hi). rewrite (msum_set carries (clients s) i client_new c') by done. unfold client_at in *. lia.
  - pose proof (i_limit _ s Hi). rewrite (msum_set adding (clients s) i client_new c') by done. unfold client_at in *. lia.
  - pose proof (i_role _ s Hi). rewrite (msum_set is_draining (clients s) i client_new c') by done. unfold client_at in *. lia.
  - intros n. pose proof (i_links _ s Hi n). rewrite (msum_set (links n) (clients s) i client_new c') by done.
    specialize (Hlinks n). unfold client_at in *. lia.
  - intros n. pose proof (i_owns _ s Hi n). rewrite (msum_set (owns n) (clients s) i client_new c') by done.
    specialize (Howns n). unfold client_at in *. lia.
Qed.
