(* ===== verification/RawSemaphoreCalls.v ===== *)
(** * The calls of the shared semaphore keep its books

    Every step of a client outside of the drain: attempts, spins, transitions,
    looks at its own node, withdrawals and releases. *)

From S2P Require Import Prelude Coop AtomicWaits QueueWord Spin NodeCell RawSemaphore RawSemaphoreWord Sums.
From S2P Require Import RawSemaphoreInv.
Open Scope Z_scope.

(** ** What goes on *)

(** The step a client makes, with the calls it is made of. *)
Ltac open_step := unfold client_step, try_take, take_one, spin_look, release, forget.

(** [c'] is [c] gone on to another step of its own, with [v] permits under
    way. *)
Record moved (c c' : Client) (v : Z) : Prop := {
  m_need : need c' = need c;
  m_held : held c <= held c';
  m_carries : carries c' = held c + v;
  m_pc : forall h, pc_ok c' h;
  m_at : forall b, queued_at (pc c') = Some b -> is_some (queued c') = b;
  m_queued : queued c' = queued c;
  m_adding : adding c' <= Z.max 0 (adding c);
  m_calm : match pc c' with Push _ _ | Draining _ _ _ _ => False | _ => True end }.

Ltac moves := constructor; unfold carries, adding, pc_ok; cbn; intros; simplify_eq; try done; try lia; auto.

Lemma moved_answers a c : moved c (answers a c) 0.
Proof. moves. Qed.

Lemma moved_taken c : 0 <= need c -> moved c (taken c) (need c).
Proof. moves. Qed.

Lemma moved_ends_closed b c : moved c (ends_closed b c) 0.
Proof. unfold ends_closed. destruct b; [destruct (spend _ _) |]; moves. Qed.

Lemma moved_at x c :
  (forall h, pc_ok (at_ x c) h) -> (forall b, queued_at x = Some b -> is_some (queued c) = b) ->
  match x with Push _ _ | Draining _ _ _ _ => False | _ => True end ->
  adding (at_ x c) = 0 -> moved c (at_ x c) (pc_carries x (need c)).
Proof.
  intros H1 H2 H3 H4. constructor; cbn; try done. rewrite H4. lia.
Qed.

(** Whether an attempt's client is queued. *)
Definition queued_for (p : Purpose) (c : Client) : Prop :=
  match p with First => queued c = None | Retry => queued c <> None | Try => True end.

Lemma queued_some c : queued c <> None -> is_some (queued c) = true.
Proof. by destruct (queued c). Qed.
Lemma queued_none c : queued c = None -> is_some (queued c) = false.
Proof. by intros ->. Qed.
#[local] Hint Resolve queued_some queued_none : core.

Lemma moved_won p n c :
  queued_for p c -> 0 <= n -> (p <> Try -> n = need c) -> moved c (attempt_won p n c) n.
Proof.
  intros Hq Hn Hp. destruct p; cbn in *.
  - rewrite (Hp ltac:(done)). apply (moved_at AtOnce); cbn; done.
  - rewrite (Hp ltac:(done)). apply (moved_at WonLook); cbn; intros; simplify_eq; auto.
  - moves.
Qed.

Lemma moved_lost p seen c : queued_for p c -> moved c (attempt_lost p seen c) 0.
Proof.
  intros Hq. destruct p; unfold attempt_lost, queued_for in *.
  - destruct (closed_in seen); [apply moved_ends_closed |]. apply (moved_at (SpinRounds seen)); cbn; intros; simplify_eq; auto.
  - destruct (has HANDOFF seen); [apply (moved_at ParkRounds); cbn; intros; simplify_eq; auto |]. moves.
  - apply moved_answers.
Qed.

Lemma moved_take_goes p n current c :
  queued_for p c -> 0 <= n -> (p <> Try -> n = need c) -> moved c (take_goes p n current c) 0.
Proof.
  intros Hq Hn Hp. unfold take_goes, admits. destruct (Z.leb_spec n (free current)); cbn [andb]; [| by apply moved_lost].
  destruct (negb _); [| by apply moved_lost]. destruct (has HANDOFF current); [by apply moved_lost |].
  apply (moved_at (TakeSwap p n current)); [done | | done | done]. destruct p; cbn in *; intros; simplify_eq; auto.
Qed.

Lemma moved_spin_goes r g freed seen c : queued c = None -> moved c (spin_goes r g freed seen c) 0.
Proof.
  intros Hq. unfold spin_goes. destruct (wait g); case_match; moves.
Qed.

Lemma moved_owe_ends took seen c :
  queued c <> None -> 0 <= need c -> moved c (owe_ends took seen c) (if took then need c else 0).
Proof. intros Hq Hn. unfold owe_ends. destruct took; [by apply moved_won | by apply moved_lost]. Qed.

Lemma moved_owe_goes marked took seen c :
  queued c <> None -> 0 <= need c -> moved c (owe_goes marked took seen c) (if took then need c else 0).
Proof.
  intros Hq Hn. unfold owe_goes. destruct marked; cbn; [| apply (moved_at (OweForgive took seen)); cbn; intros; simplify_eq; auto].
  destruct (took || _) eqn:E; [apply (moved_at (OweUnowe took seen)); cbn; intros; simplify_eq; auto |].
  by apply moved_owe_ends.
Qed.

(** The permits under way once a transition is over. *)
Definition resumes (k : Kont) (x : Change) (need : Z) : Z :=
  match k with KOwed => if is_set x then need else 0 | _ => kont_carries k need end.

Lemma moved_resume k seen x c :
  (kont_queued k = true -> queued c <> None) -> 0 <= need c -> moved c (resume k seen x c) (resumes k x (need c)).
Proof.
  intros Hq Hn. destruct k; unfold resume, resumes, kont_carries, kont_queued in *.
  - apply moved_answers.
  - apply (moved_at ParkLook); cbn; intros; simplify_eq; auto.
  - destruct (queued_now c); [by apply (moved_at AtOnce) | by apply moved_taken].
  - moves.
  - apply moved_owe_goes; auto.
  - apply moved_owe_ends; auto.
Qed.

(** What a transition that has seen [current] goes on to. *)
Lemma tr_goes_moved tr k current c c' :
  tr_goes tr k current c = Ok c' -> tr_ok tr k c -> (kont_queued k = true -> queued c <> None) -> 0 <= need c ->
  adding c = adds tr -> moved c c' (kont_carries k (need c)).
Proof.
  intros H Ht Hq Hn Had. unfold tr_goes in H. destruct (change tr current) as [x|] eqn:E; [| done].
  assert (Hkeep : moved c (resume k current Keep c) (kont_carries k (need c))).
  { replace (kont_carries k (need c)) with (resumes k Keep (need c)) by (by destruct k). by apply moved_resume. }
  assert (Hgo : x <> Keep -> moved c (at_ (TrSwap tr k current x) c) (kont_carries k (need c))).
  { intros Hx. constructor; unfold adding; cbn; try done; [| unfold adding in Had; rewrite Had; lia]. intros b Hb.
    destruct (kont_queued k); simplify_eq. auto. }
  destruct x; simplify_eq; auto.
Qed.

(** ** Steps that touch neither the nodes nor the lists *)

Definition quiet (pc : Pc) : bool := match pc with Push _ _ | Draining _ _ _ _ => false | _ => true end.

Lemma quiet_shares c : quiet (pc c) = true -> is_draining c = 0 /\ own_node c = queued c.
Proof. unfold is_draining, own_node. by destruct (pc c). Qed.

Record same_lists (h h' : Shared) : Prop := {
  s_nodes : nodes h' = nodes h;
  s_waiting : waiting h' = waiting h;
  s_arrivals : arrivals h' = arrivals h;
  s_fresh : fresh h' = fresh h;
  s_holder : holder h' = holder h }.

Lemma stage_ok_ext st h h' : nodes h' = nodes h -> waiting h' = waiting h -> stage_ok st h -> stage_ok st h'.
Proof.
  intros En Ew. induction st; cbn; unfold linked_ok, at_head, there; rewrite ?En, ?Ew; tauto.
Qed.

Lemma client_ok_ext i c h h' :
  nodes h' = nodes h -> waiting h' = waiting h -> holder h' = holder h -> client_ok i c h -> client_ok i c h'.
Proof.
  intros En Ew Eh [H1 H2 H3 H4 H5 H6]. constructor; try done; [| unfold own_ok; by rewrite En | by rewrite Eh].
  unfold pc_ok in *. destruct (pc c); rewrite ?En; try done. destruct H4. split; [done |]. by eapply stage_ok_ext.
Qed.

Lemma shared_ok_ext h h' :
  same_lists h h' -> shared_ok h -> 0 <= free (word h') -> shared_ok h'.
Proof.
  intros [En Ew Ea Ef Eh] [H1 H2 H3] Hf. constructor; [done | |]; unfold linked_ok; by rewrite ?En, ?Ew, ?Ea, ?Ef.
Qed.

Lemma moved_ok i c c' h v :
  client_ok i c h -> moved c c' v -> client_ok i c' h.
Proof.
  intros [H1 H2 H3 H4 H5 H6] [M1 M2 M3 M4 M5 M6 Ma M7]. constructor; [lia | by rewrite M1 | done | done | |].
  - unfold own_ok. by rewrite M1, M6.
  - unfold is_draining. by destruct (pc c').
Qed.

Lemma moved_shares c c' v :
  moved c c' v -> is_draining c' = 0 /\ (forall n, links n c' = 0) /\ own_node c' = queued c.
Proof.
  intros [M1 M2 M3 M4 M5 M6 Ma M7]. unfold is_draining, links, own_node. destruct (pc c'); cbn; rewrite ?count_nil, ?M6; done.
Qed.

Lemma owns_le c c' n : own_node c' = queued c -> queued c = own_node c \/ queued c = None -> owns n c' <= owns n c.
Proof.
  intros E [Ho | Ho]; unfold owns; rewrite E, Ho; [lia |]. pose proof (owns_nonneg n c). done.
Qed.

Lemma good_moved i c h c' h' v :
  ready i c h -> same_lists h h' -> moved c c' v -> quiet (pc c) = true ->
  0 <= free (word h') -> total h' + adding c' <= total h + adding c -> has DRAINING (word h') = has DRAINING (word h) ->
  free (word h') + v - total h' = free (word h) + pc_carries (pc c) (need c) - total h ->
  good 0 i c h c' h'.
Proof.
  intros [R1 R2 R3 Rt R4 R5] Hs Hm [Hd Ho]%quiet_shares Hf Ht Hr Hsum. pose proof Hs as [En Ew Ea Ef Eh].
  destruct (moved_shares c c' v Hm) as (Hd' & Hl' & Ho'). constructor.
  - by eapply shared_ok_ext.
  - apply (moved_ok i c c' h' v); [| done]. by eapply client_ok_ext.
  - rewrite En, (m_carries c c' v Hm). unfold carries. lia.
  - lia.
  - rewrite Hd, Hd', Hr. done.
  - intros n. unfold linked. rewrite Ew, Ea, Ef, Hl'. pose proof (count_nonneg n (pc_nodes (pc c))). unfold links. lia.
  - intros n. rewrite Ef. apply Z.sub_le_mono_r, owns_le; auto.
  - intros j d _ _ Hj. by eapply client_ok_ext.
Qed.

(** Only the word changes, and not its role. *)
Lemma good_word i c h c' w v :
  ready i c h -> moved c c' v -> quiet (pc c) = true ->
  0 <= free w -> has DRAINING w = has DRAINING (word h) -> free w + v = free (word h) + pc_carries (pc c) (need c) ->
  good 0 i c h c' (set_word w h).
Proof.
  intros R Hm Hq Hf Hr Hs. apply (good_moved i c h c' _ v); try done; cbn; [| lia]. pose proof (m_adding _ _ _ Hm).
  pose proof (adding_nonneg i c h (r_client _ _ _ R)). lia.
Qed.

(** Nothing the books see changes. *)
Lemma good_calm i c h c' h' v :
  ready i c h -> same_lists h h' -> word h' = word h -> total h' = total h -> moved c c' v -> quiet (pc c) = true ->
  v = pc_carries (pc c) (need c) -> good 0 i c h c' h'.
Proof.
  intros R Hs Hw Ht Hm Hq ->. apply (good_moved i c h c' h' _ R Hs Hm Hq); rewrite ?Hw, ?Ht; try done.
  - apply (h_free h (r_shared _ _ _ R)).
  - pose proof (m_adding _ _ _ Hm). pose proof (adding_nonneg i c h (r_client _ _ _ R)). lia.
Qed.

(** ** Attempts *)

(** An [add] that would leave more than [MAX] permits panics. *)
Definition overflows (c : Client) (h : Shared) : Prop :=
  exists n k, MAX < free (word h) + n /\ (pc c = TrLoad (TAdd n) k \/ exists current x, pc c = TrSwap (TAdd n) k current x).

Definition step_good (i : nat) (c : Client) (h : Shared) (r : CStep) : Prop :=
  match r with Ok (c', h') => good 0 i c h c' h' | Err e => e = Disabled \/ e = Panics /\ overflows c h end.

Section steps.
Context {i : nat} {c : Client} {h : Shared}.
Context (R : ready i c h).

Lemma my_need : 0 <= need c <= MAX.
Proof using R. exact (c_need i c h (r_client i c h R)). Qed.
Lemma my_pc : pc_ok c h.
Proof using R. exact (c_pc i c h (r_client i c h R)). Qed.
Lemma my_queued b : queued_at (pc c) = Some b -> is_some (queued c) = b.
Proof using R. exact (c_queued i c h (r_client i c h R) b). Qed.
Lemma queued_yes : queued_at (pc c) = Some true -> queued c <> None.
Proof using R. intros H%my_queued. by destruct (queued c). Qed.
Lemma queued_no : queued_at (pc c) = Some false -> queued c = None.
Proof using R. intros H%my_queued. by destruct (queued c). Qed.
Lemma my_free : 0 <= free (word h).
Proof using R. exact (h_free h (r_shared i c h R)). Qed.

Lemma queued_for_at p x : (p = First -> queued_at (pc c) = Some false) -> (p = Retry -> queued_at (pc c) = Some true) -> x = c -> queued_for p x.
Proof using R. intros H1 H2 ->. destruct p; cbn; [apply queued_no | apply queued_yes |]; auto. Qed.

(** A swap that takes [n] permits. *)
Lemma good_takes c' n :
  moved c c' n -> quiet (pc c) = true -> pc_carries (pc c) (need c) = 0 ->
  n <= free (word h) -> good 0 i c h c' (set_word (minus n (word h)) h).
Proof using R.
  intros Hm Hq Hc Hn. destruct (view_of (word h)) as (d & y & q & nu & ha & f & cl & Hv). pose proof (view_minus Hv n) as Hv'.
  apply (good_word i c h c' _ n R Hm Hq); rewrite ?(test_free Hv'), ?(test_draining Hv'), ?(test_draining Hv); try done; lia.
Qed.

(** Lowering the marker. *)
Lemma good_consumes c' v :
  moved c c' v -> quiet (pc c) = true -> v = pc_carries (pc c) (need c) ->
  good 0 i c h c' (set_word (Z.ldiff (word h) NUDGE_OUT) h).
Proof using R.
  intros Hm Hq ->. destruct (view_of (word h)) as (d & y & q & nu & ha & f & cl & Hv). pose proof (view_no_nudge Hv) as Hv'.
  apply (good_word i c h c' _ _ R Hm Hq); rewrite ?(test_free Hv'), ?(test_draining Hv'), ?(test_draining Hv); try done.
  apply my_free.
Qed.

(** Giving [n] permits back. *)
Lemma good_gives c' n v :
  moved c c' v -> quiet (pc c) = true -> 0 <= n -> pc_carries (pc c) (need c) = n + v ->
  0 <= v -> good 0 i c h c' (set_word (plus n (word h)) h).
Proof using R.
  intros Hm Hq Hn Hc Hv0. destruct (view_of (word h)) as (d & y & q & nu & ha & f & cl & Hv).
  assert (free (word h) + n <= MAX) as Hroom.
  { pose proof (r_room i c h R). pose proof (r_total i c h R). pose proof (c_held i c h (r_client i c h R)).
    pose proof (adding_nonneg i c h (r_client i c h R)). unfold carries in *. lia. }
  pose proof (view_plus Hv n my_free Hn Hroom) as Hv'. pose proof my_free.
  apply (good_word i c h c' _ v R Hm Hq); rewrite ?(test_free Hv'), ?(test_draining Hv'), ?(test_draining Hv); try done; lia.
Qed.
End steps.


Ltac side Hpc := rewrite ?Hpc; try done; cbn; try done.

(** Nothing the books see changes: the step moves on. *)
Ltac calmly R Hpc lem := eapply (good_calm _ _ _ _ _ _ R); [done | done | done | eapply lem | side Hpc ..].

Lemma take_step_ok i b c h p n :
  ready i c h -> pc c = TakeLoad p n -> step_good i c h (client_step i b c h).
Proof.
  intros R Hpc. pose proof (my_pc R) as Hok. unfold pc_ok in Hok. open_step. rewrite Hpc in *. cbn.
  destruct Hok as [Hn Hp].
  assert (Hq : queued_for p c) by (apply (queued_for_at R); [intros ->.. | done]; by rewrite Hpc).
  destruct (Z.eqb_spec n 0) as [-> |]; [destruct (closed_in _) |].
  - by calmly R Hpc moved_lost.
  - calmly R Hpc moved_won; done.
  - calmly R Hpc moved_take_goes; done.
Qed.

Lemma take_swap_ok i b c h p n current :
  ready i c h -> pc c = TakeSwap p n current -> step_good i c h (client_step i b c h).
Proof.
  intros R Hpc. pose proof (my_pc R) as Hok. unfold pc_ok in Hok. open_step. rewrite Hpc in *. cbn.
  destruct Hok as [Hn Hp].
  assert (Hq : queued_for p c) by (apply (queued_for_at R); [intros ->.. | done]; by rewrite Hpc).
  destruct (negb b && _) eqn:E.
  - apply andb_true_iff in E as [_ <-%Z.eqb_eq]. apply (good_takes R); side Hpc; [| lia]. apply moved_won; [done | lia | done].
  - calmly R Hpc moved_take_goes; [done | lia | done].
Qed.

#[local] Arguments try_spend : simpl never.
#[local] Arguments spend : simpl never.
#[local] Arguments refused : simpl never.
#[local] Arguments attempt_won : simpl never.
#[local] Arguments attempt_lost : simpl never.
#[local] Arguments take_goes : simpl never.
#[local] Arguments spin_goes : simpl never.
#[local] Arguments owe_ends : simpl never.
#[local] Arguments owe_goes : simpl never.
#[local] Arguments resume : simpl never.
#[local] Arguments ends_closed : simpl never.
#[local] Arguments taken : simpl never.

(** A step to [x], with what was under way still under way. *)
Lemma good_at i c h x h' :
  ready i c h -> same_lists h h' -> word h' = word h -> total h' = total h -> quiet (pc c) = true ->
  (forall h, pc_ok (at_ x c) h) -> (forall b, queued_at x = Some b -> is_some (queued c) = b) -> quiet x = true ->
  adding (at_ x c) = 0 -> pc_carries x (need c) = pc_carries (pc c) (need c) -> good 0 i c h (at_ x c) h'.
Proof.
  intros R Hs Hw Ht Hq Hok Ha Hx Hxa Hc.
  apply (good_calm i c h _ h' _ R Hs Hw Ht (moved_at x c Hok Ha ltac:(by destruct x) Hxa) Hq Hc).
Qed.

Lemma moved_thread t c c' v : moved (set_thread t c) c' v -> moved c c' v.
Proof. intros [M1 M2 M3 M4 M5 M6 Ma M7]. by constructor. Qed.

(** ** The mutex's attempt and the spin *)

Lemma take_one_ok i b c h :
  ready i c h -> (pc c = TakeOneLoad \/ exists seen, pc c = TakeOneSwap seen) -> step_good i c h (client_step i b c h).
Proof.
  intros R Hc. pose proof (my_pc R) as Hok. unfold pc_ok in Hok. open_step.
  assert (Hq : queued_for First c) by (apply (queued_no R); by destruct Hc as [-> | [seen ->]]).
  destruct Hc as [Hpc | [seen Hpc]]; rewrite Hpc in *; cbn.
  - destruct (_ || _) eqn:E.
    + apply good_at; side Hpc; intros; simplify_eq; auto. split; [done |]. unfold free, SHIFT.
      rewrite Z.shiftr_div_pow2 by done. apply Z.div_le_lower_bound; [done |]. unfold ONE in E. change (2 ^ 7) with 128. lia.
    + calmly R Hpc moved_take_goes; [done | lia | done].
  - destruct Hok as [H1 Hs]. destruct (Z.eqb_spec (word h) seen) as [<- |].
    + replace (word h - ONE) with (minus (need c) (word h)) by (rewrite H1; unfold minus; rewrite shiftl_mul; unfold ONE; lia).
      apply (good_takes R); side Hpc; first [lia | by apply (moved_at AtOnce)].
    + calmly R Hpc moved_take_goes; [done | lia | done].
Qed.

Lemma spin_ok i b c h :
  ready i c h ->
  match pc c with
  | SpinRounds _ | SpinLoad _ _ _ | SpinSwap _ _ _ | SpinWon _ | SpinRanOut _ => step_good i c h (client_step i b c h)
  | _ => True
  end.
Proof.
  intros R. pose proof (my_pc R) as Hok. unfold pc_ok in Hok. open_step.
  destruct (pc c) eqn:Hpc; try done; pose proof (queued_no R ltac:(by rewrite Hpc)) as Hq; cbn.
  - case_match; [apply good_at; side Hpc; intros; simplify_eq; by rewrite Hq |]. by calmly R Hpc moved_spin_goes.
  - destruct (if stops_spin (word h) then None else _) eqn:E; cbn; [| by calmly R Hpc moved_spin_goes].
    apply good_at; side Hpc; intros; simplify_eq; [| by rewrite Hq]. unfold pc_ok. cbn.
    destruct (stops_spin _); [done |]. unfold admits in E. destruct (Z.leb_spec (need c) (free (word h))); done.
  - destruct (Z.eqb_spec (word h) seen) as [<- |]; cbn; [| by calmly R Hpc moved_spin_goes].
    apply (good_takes R); side Hpc. apply (moved_at (SpinWon rounds)); cbn; intros; simplify_eq; auto.
  - apply good_at; side Hpc.
  - apply good_at; side Hpc; intros; simplify_eq; by rewrite Hq.
Qed.

(** ** The retry of a nudged waiter *)

Lemma retry_ok i b c h :
  ready i c h ->
  match pc c with
  | Consume _ | OweCount | OweSeen | OweForgive _ _ | OweLook _ _ | WonLook | WonStore | CancelCount _ _ | CancelConsume _ _
  | ReleaseAdd _ _ | AtOnce | ParkRounds | ParkStore _ _ | ForgetLoad _ | ForgetSwap _ _ => step_good i c h (client_step i b c h)
  | _ => True
  end.
Proof.
  intros R. pose proof (my_pc R) as Hok. unfold pc_ok in Hok. pose proof (my_need R) as Hn. open_step.
  destruct (pc c) eqn:Hpc; try done; pose proof (my_queued R) as Hq; rewrite Hpc in Hq; cbn in Hq |- *.
  - (* Consume *) destruct granted as [p|].
    + destruct (p =? CLOSED_GRANT) eqn:E.
      { eapply (good_consumes R); [apply moved_ends_closed | side Hpc ..]. by rewrite E. }
      destruct (queued_now c).
      * eapply (good_consumes R); [by apply (moved_at AtOnce) | side Hpc ..]. by rewrite E.
      * eapply (good_consumes R); [apply moved_taken; lia | side Hpc ..]. by rewrite E.
    + case_match.
      * eapply (good_consumes R); [apply (moved_at OweCount); cbn; auto | side Hpc ..].
      * eapply (good_consumes R); [apply (moved_at (TakeLoad Retry (need c))); cbn; auto; split; [lia | done] | side Hpc ..].
  - apply good_at; side Hpc; auto.
  - calmly R Hpc moved_owe_goes; [| lia]. apply (queued_yes R). by rewrite Hpc.
  - apply good_at; side Hpc; auto.
  - case_match; [apply good_at; side Hpc; auto |]. calmly R Hpc moved_owe_ends; [| lia]. apply (queued_yes R). by rewrite Hpc.
  - case_match; apply good_at; side Hpc; auto.
  - apply good_at; side Hpc; auto.
  - (* CancelCount *) apply good_at; side Hpc; [| by rewrite Hok]. unfold pc_ok. cbn. by intros _ ->.
  - (* CancelConsume *) case_match.
    + eapply (good_consumes R); [apply moved_resume; [by rewrite Hok | lia] | side Hpc ..].
      rewrite H. by destruct k.
    + eapply (good_consumes R); [apply (moved_at (ReleaseAdd (need c) k)); cbn; [split; [lia | done] | done ..] | side Hpc ..].
      by rewrite H.
  - (* ReleaseAdd *) destruct Hok as [Hn0 Hk].
    assert (Hres : forall x, moved c (resume k (word h) x c) (kont_carries k (need c))).
    { intros x. replace (kont_carries k (need c)) with (resumes k x (need c)) by (by destruct k).
      apply moved_resume; [by rewrite Hk | lia]. }
    pose proof (kont_carries_nonneg k (need c) ltac:(lia)).
    destruct (Z.eqb_spec n 0) as [-> |]; [by eapply (good_calm i c h _ h _ R); [done | done | done | apply Hres | side Hpc ..] |].
    case_match; [| by eapply (good_gives R _ n); [apply Hres | side Hpc ..]].
    eapply (good_gives R _ n); [apply (moved_at (TrLoad TReleased k)); cbn | side Hpc ..]; [by destruct k | by rewrite Hk | done | done].
  - (* AtOnce *) destruct (try_spend (thread c)) as [[|] t].
    + eapply (good_calm i c h _ h _ R); [done | done | done | | side Hpc ..]. apply (moved_thread t), moved_taken. cbn. lia.
    + eapply (good_calm i c h _ h _ R); [done | done | done | apply (moved_thread t), (moved_at (ReleaseAdd (need c) KYield)); cbn | side Hpc ..]; try done;
        first [lia | split; [lia | done]].
  - case_match; apply good_at; side Hpc; auto.
  - apply good_at; side Hpc; auto.
  - apply good_at; side Hpc; auto.
  - (* ForgetSwap *) destruct (negb b && _) eqn:E; [| apply good_at; side Hpc; auto].
    apply andb_true_iff in E as [_ <-%Z.eqb_eq]. pose proof (my_free R).
    destruct (view_of (word h)) as (d & y & q & nu & ha & f & cl & Hv). set (k := Z.min (free (word h)) n).
    pose proof (view_minus Hv k) as Hv'. assert (0 <= k) by lia.
    apply (good_moved i c h _ _ 0 R); cbn; rewrite ?Hpc, ?(test_free Hv'), ?(test_draining Hv'), ?(test_draining Hv); 
      first [done | apply moved_answers | lia | unfold adding; rewrite ?Hpc; cbn; lia].
Qed.

(** ** Transitions *)

(** The role is held, and the change marks it, or free, and the change claims
    it. *)
Ltac swap_to Hv V :=
  let W := fresh in pose proof V as W;
  rewrite ?(test_draining Hv) in *;
  match type of Hv with
  | _ = Mk ?d _ _ _ _ _ _ _ =>
      destruct d; simplify_eq;
      [first [rewrite (test_draining (view_dirty W)), (test_free (view_dirty W)) | rewrite (test_draining W), (test_free W)]
      | rewrite (test_draining (view_claim W)), (test_free (view_claim W))]
  end; cbn; repeat split; try done; lia.

(** The words a change swaps in have the permits and the role it says. *)
Lemma swaps_view tr current x next claim :
  change tr current = Some x -> swaps current x = Some (next, claim) -> 0 <= free current ->
  has DRAINING next = has DRAINING current || claim /\ (claim = true -> has DRAINING current = false) /\
  free next = free current + adds tr - (match tr with TOwe need => if is_set x then need else 0 | _ => 0 end) /\
  (match tr with TOwe need => is_set x = true -> need <= free current | _ => True end) /\
  (match tr with TAdd _ => free next <= MAX | TOwe _ => True | _ => is_set x = false end) /\
  (claim = true -> is_set x = false).
Proof.
  intros Hc Hs H0. destruct (view_of current) as (d & y & q & n & ha & f & c & Hv).
  destruct tr; cbn in Hc.
  - injection Hc as <-. cbn in Hs. swap_to Hv (view_queued Hv).
  - injection Hc as <-. cbn in Hs. swap_to Hv (view_withdrawn Hv woken).
  - injection Hc as <-. cbn in Hs. swap_to Hv (view_front Hv).
  - destruct (Z.leb_spec (free current + n0) MAX); [| done]. injection Hc as <-. pose proof (view_added Hv (free current + n0)) as V.
    rewrite (test_queued Hv) in *. destruct q; cbn in Hs; [swap_to Hv (view_front V) |].
    simplify_eq. rewrite (test_draining V), (test_free V), (test_draining Hv); cbn. rewrite orb_false_r. repeat split; try done; lia.
  - injection Hc as <-. unfold close_step, closed_in in *. rewrite (test_closed Hv) in *. destruct c; [done |]. cbn in Hs.
    swap_to Hv (view_closed Hv).
  - injection Hc as <-. unfold owe_or_take, admits in *. rewrite (test_handoff Hv), (test_closed Hv) in *. destruct ha; [done |].
    destruct (Z.leb_spec need (free current)); destruct c; cbn in *; try (swap_to Hv (view_handoff Hv)).
    simplify_eq. pose proof (view_minus Hv need) as V. rewrite (test_draining V), (test_free V), (test_draining Hv), orb_false_r.
    repeat split; try done; lia.
  - injection Hc as <-. cbn in Hs. swap_to Hv Hv.
Qed.

Lemma tr_panics tr k current c e : tr_goes tr k current c = Err e -> e = Panics /\ exists n, tr = TAdd n /\ MAX < free current + n.
Proof.
  unfold tr_goes. destruct (change tr current) as [x|] eqn:E; [by destruct x |]. intros [= <-]. split; [done |].
  destruct tr; try done. exists n. split; [done |]. cbn in E. destruct (Z.leb_spec (free current + n) MAX); [done | lia].
Qed.


Lemma resume_adding k seen x c : adding (resume k seen x c) = 0.
Proof.
  unfold adding. destruct k; unfold resume, owe_goes, owe_ends, attempt_won, attempt_lost; repeat case_match; simplify_eq/=; done.
Qed.

Lemma kont_queued_yes i c h k :
  ready i c h -> queued_at (pc c) = (if kont_queued k then Some true else None) -> kont_queued k = true -> queued c <> None.
Proof. intros R E Hk. rewrite Hk in E. by apply (queued_yes R). Qed.

Lemma tr_goes_ok i c h tr k :
  ready i c h -> quiet (pc c) = true -> adding c = adds tr -> tr_ok tr k c -> kont_carries k (need c) = pc_carries (pc c) (need c) ->
  queued_at (pc c) = (if kont_queued k then Some true else None) ->
  (forall n, MAX < free (word h) + n -> tr = TAdd n -> overflows c h) ->
  step_good i c h (let? c := tr_goes tr k (word h) c in Ok (c, h)).
Proof.
  intros R Hq Ha Ht Hc Hk Ho. destruct (tr_goes tr k (word h) c) as [c'|e] eqn:E; cbn.
  - eapply (good_calm i c h c' h _ R); [done | done | done | | done | exact Hc].
    eapply tr_goes_moved; try done; [by eapply kont_queued_yes | apply (my_need R)].
  - apply tr_panics in E as [-> (n & -> & Hn)]. right. split; [done |]. by apply (Ho n).
Qed.

Lemma tr_load_ok i b c h tr k : ready i c h -> pc c = TrLoad tr k -> step_good i c h (client_step i b c h).
Proof.
  intros R Hpc. pose proof (my_pc R) as Hok. unfold pc_ok in Hok. open_step. rewrite Hpc in *.
  apply tr_goes_ok; rewrite ?Hpc; try done; [unfold adding; by rewrite Hpc |].
  intros n Hn ->. exists n, k. auto.
Qed.

(** A client that does not drain depends on its own node alone. *)
Lemma client_ok_calm j d h h' :
  nodes h' = nodes h -> is_draining d = 0 -> client_ok j d h -> client_ok j d h'.
Proof.
  intros En Hd [H1 H2 H3 H4 H5 H6]. constructor; try done; [| unfold own_ok; by rewrite En | by rewrite Hd].
  unfold pc_ok, is_draining in *. destruct (pc d); rewrite ?En; done.
Qed.

Lemma apart_calm c d h : apart c d h -> has DRAINING (word h) = false -> is_draining d = 0.
Proof.
  intros [_ _ Ha] Hw. rewrite Hw in Ha. cbn in Ha. pose proof (is_draining_nonneg c). pose proof (is_draining_nonneg d). lia.
Qed.

Lemma tr_claims_ok i c h tr k x next :
  ready i c h -> pc c = TrSwap tr k (word h) x -> swaps (word h) x = Some (next, true) ->
  good 0 i c h (at_ (Draining DClear k (word h) x) c)
    (set_holder (Some i) (set_total (total h + adds tr) (set_word next h))).
Proof.
  intros R Hpc Hs. pose proof (my_pc R) as Hok. unfold pc_ok in Hok. rewrite Hpc in Hok. destruct Hok as (Ht & Hch & _).
  destruct (swaps_view tr (word h) x next true Hch Hs (my_free R)) as (Hd & Hd0 & Hf & Hle & Hm & Hx).
  specialize (Hd0 eq_refl). specialize (Hx eq_refl). rewrite Hd0 in Hd. cbn in Hd.
  assert (free next = free (word h) + adds tr) as Hf' by (rewrite Hf, Hx; destruct tr; lia). pose proof (my_free R).
  pose proof (adding_nonneg i c h (r_client i c h R)) as Ha. pose proof R as [[R1 R2 R3] RC _ _ _ _].
  assert (Hadd : adding c = adds tr) by (unfold adding; by rewrite Hpc). rewrite Hadd in Ha.
  pose proof RC as [C1 C2 C3 C4 C5 C6]. constructor.
  - constructor; cbn; [lia | done | done].
  - constructor; cbn; try done. intros b Hb. apply C3. by rewrite Hpc.
  - cbn. unfold carries. rewrite Hpc. cbn. lia.
  - cbn. rewrite Hadd. unfold adding. cbn. lia.
  - cbn. rewrite Hd, Hd0. unfold is_draining. by rewrite Hpc.
  - intros n. unfold linked, links. cbn [arrivals waiting fresh set_holder set_total set_word pc at_]. rewrite Hpc. cbn. lia.
  - intros n. unfold owns, own_node. cbn [fresh set_holder set_total set_word pc at_ queued]. rewrite Hpc. done.
  - intros j d Hj Hap HC. eapply (client_ok_calm j d h); [done | | done]. by eapply apart_calm.
Qed.

Lemma tr_swap_ok i b c h tr k current x :
  ready i c h -> pc c = TrSwap tr k current x -> step_good i c h (client_step i b c h).
Proof.
  intros R Hpc. pose proof (my_pc R) as Hok. unfold pc_ok in Hok. open_step. rewrite Hpc in *.
  destruct Hok as (Ht & Hch & Hx). destruct (swaps current x) as [[next claim]|] eqn:Hs.
  2: { exfalso. destruct x; cbn in Hs; try done; by destruct (has DRAINING current). }
  destruct (negb b && _) eqn:E.
  - apply andb_true_iff in E as [_ <-%Z.eqb_eq]. destruct claim; [by apply tr_claims_ok |].
    destruct (swaps_view tr (word h) x next false Hch Hs (my_free R)) as (Hd & _ & Hf & Hle & Hm & _).
    rewrite orb_false_r in Hd. pose proof (my_free R). pose proof (adding_nonneg i c h (r_client i c h R)) as Ha.
    assert (Hadd : adding c = adds tr) by (unfold adding; by rewrite Hpc). rewrite Hadd in Ha.
    assert (Hmv : moved c (resume k (word h) x c) (resumes k x (need c))).
    { apply moved_resume; [| apply (my_need R)]. eapply kont_queued_yes; [done | by rewrite Hpc]. }
    apply (good_moved i c h _ _ (resumes k x (need c)) R); [done | exact Hmv | by rewrite Hpc | | | done |]; cbn.
    + destruct tr; cbn in *; try lia. destruct (is_set x); [specialize (Hle eq_refl) |]; lia.
    + rewrite resume_adding, Hadd. lia.
    + rewrite Hpc. cbn. destruct tr; cbn in *; destruct_and?; subst; cbn; try (destruct k; cbn; try done; lia); destruct (is_set x); lia.
  - apply tr_goes_ok; rewrite ?Hpc; try done; [unfold adding; by rewrite Hpc |].
    intros n Hn ->. exists n, k. eauto 10.
Qed.

(** ** A client and its own node *)

(** What a future does to its node: it never grants it, and leaves its
    payload. *)
Definition by_future (x x' : Cell) : Prop :=
  payload x' = payload x /\ (phase x' = Granted -> phase x = Granted) /\ cell_ok x'.

Definition put_node (n : nat) (x : Cell) (h : Shared) : Shared := set_nodes (<[n := x]> (nodes h)) h.

Lemma put_node_lookup n x x' h m y :
  nodes h !! n = Some x -> by_future x x' -> nodes h !! m = Some y ->
  exists y', nodes (put_node n x' h) !! m = Some y' /\ payload y' = payload y /\ (phase y' = Granted -> phase y = Granted).
Proof.
  intros Hx (Hp & Hg & _) Hy. cbn. destruct (decide (n = m)) as [<- |].
  - simplify_eq. exists x'. by rewrite lookup_insert_eq.
  - exists y. by rewrite lookup_insert_ne.
Qed.

Lemma linked_ok_future l n x x' h :
  nodes h !! n = Some x -> by_future x x' -> linked_ok l h -> linked_ok l (put_node n x' h).
Proof.
  intros Hx Hb Hl m (y & Hy & Hg & Hp)%Hl. destruct (put_node_lookup n x x' h m y Hx Hb Hy) as (y' & Hy' & E & Hg').
  exists y'. rewrite E. split; [done |]. split; [| done]. intros Hy2. by apply Hg, Hg'.
Qed.

Lemma stage_ok_future st n x x' h :
  nodes h !! n = Some x -> by_future x x' -> stage_ok st h -> stage_ok st (put_node n x' h).
Proof.
  intros Hx Hb.
  assert (Hnode : forall m (P : Z -> Prop), (exists y, nodes h !! m = Some y /\ P (payload y)) ->
    exists y, nodes (put_node n x' h) !! m = Some y /\ P (payload y)).
  { intros m P (y & Hy & HP). destruct (put_node_lookup n x x' h m y Hx Hb Hy) as (y' & Hy' & E & _). exists y'. by rewrite E. }
  assert (Hthere : forall m, there m h -> there m (put_node n x' h)).
  { intros m [y Hy]. destruct (put_node_lookup n x x' h m y Hx Hb Hy) as (y' & Hy' & _). by exists y'. }
  assert (Hhead : forall m k, at_head m k h -> at_head m k (put_node n x' h)).
  { intros m k [Hw Hy]. split; [done |]. by apply (Hnode m (fun z => z = k)). }
  induction st; cbn -[put_node]; try done; try tauto; try solve [intros [? ?]; split; auto | auto].
  - by eapply linked_ok_future.
  - apply (Hnode n0 (fun z => z = CLOSED_GRANT)).
  - intros (y & Hy & Ey & Hc). destruct (put_node_lookup n x x' h n0 y Hx Hb Hy) as (y' & Hy' & E & _).
    exists y'. rewrite E. done.
Qed.

Lemma owns_mine c n : queued c = Some n -> quiet (pc c) = true -> owns n c = 1.
Proof. intros Hq [_ Ho]%quiet_shares. unfold owns. by rewrite Ho, Hq, Nat.eqb_refl. Qed.

Lemma not_mine c d h n m : apart c d h -> queued c = Some n -> quiet (pc c) = true -> own_node d = Some m -> m <> n.
Proof.
  intros [Ho _ _] Hq Hc Hd ->. specialize (Ho n). rewrite (owns_mine c n Hq Hc) in Ho. unfold owns in Ho.
  rewrite Hd, Nat.eqb_refl in Ho. cbn in Ho. lia.
Qed.

Lemma others_future c d h j n x x' :
  apart c d h -> queued c = Some n -> quiet (pc c) = true -> nodes h !! n = Some x -> by_future x x' ->
  client_ok j d h -> client_ok j d (put_node n x' h).
Proof.
  intros Hap Hq Hc Hx Hb [H1 H2 H3 H4 H5 H6].
  assert (Hne : forall m, own_node d = Some m -> m <> n) by (intros; by eapply not_mine). constructor; try done.
  - unfold pc_ok, own_node in *. destruct (pc d); try done.
    + cbn. rewrite lookup_insert_ne; [done |]. intros ->. by destruct (Hne n0).
    + destruct H4. split; [done |]. by eapply stage_ok_future.
  - intros m Hm. destruct (H5 m Hm) as (y & Hy & Hr). exists y. split; [| done]. cbn. rewrite lookup_insert_ne; [done |].
    intros ->. unfold own_node in Hne. destruct (pc d) eqn:Hpd; try (by destruct (Hne m)).
    specialize (H3 false eq_refl). by rewrite Hm in H3.
Qed.

(** A step of a client on its own node. *)
Lemma good_mine i c h n x x' c0 c' v :
  ready i c h -> queued c = Some n -> quiet (pc c) = true -> nodes h !! n = Some x -> by_future x x' ->
  moved c0 c' v -> (c0 = c /\ held_by_future x' = true /\ phase x' <> Cancelled \/ c0 = set_queued None c) ->
  cell_carries x' + v = cell_carries x + pc_carries (pc c) (need c) -> good 0 i c h c' (put_node n x' h).
Proof.
  intros R Hq Hc Hx Hb Hm H0 Hsum. pose proof R as [RS RC _ _ _ _]. pose proof RS as [S1 S2 S3]. pose proof RC as [C1 C2 C3 C4 C5 C6].
  destruct (moved_shares c0 c' v Hm) as (Hd' & Hl' & Ho'). destruct (quiet_shares c Hc) as [Hd Ho].
  assert (E0 : need c0 = need c /\ held c0 = held c /\ adding c0 = adding c /\ (queued c0 = queued c \/ queued c0 = None))
    by (destruct H0 as [(-> & _) | ->]; auto). destruct E0 as (En & Eh & Ea & Eq).
  constructor.
  - constructor; [done | | by eapply linked_ok_future]. cbn. intros m y Hy. destruct (decide (n = m)) as [<- |].
    + rewrite lookup_insert_eq in Hy. simplify_eq. split; [by eapply S2 |]. by destruct Hb as (_ & _ & ?).
    + rewrite lookup_insert_ne in Hy by done. by apply S2.
  - destruct Hm as [M1 M2 M3 M4 M5 M6 Ma M7]. constructor; [lia | by rewrite M1, En | done | done | |].
    + intros m Hm. rewrite M6 in Hm. destruct H0 as [(-> & Hf & Hcn) | ->]; [| done].
      assert (m = n) as -> by congruence. exists x'. cbn. rewrite lookup_insert_eq, M1. split; [done |]. split; [done |]. split; [done |]. destruct Hb as (-> & _).
      destruct (C5 n Hq) as (y & Hy & _ & _ & Hp). by simplify_eq.
    + unfold is_draining. by destruct (pc c').
  - cbn. rewrite (msum_insert cell_carries (nodes h) n x x' Hx), (m_carries _ _ _ Hm), Eh. unfold carries. lia.
  - cbn. pose proof (m_adding _ _ _ Hm). pose proof (adding_nonneg i c h RC). rewrite Ea in *. lia.
  - cbn. rewrite Hd, Hd'. done.
  - intros m. cbn [fresh put_node set_nodes]. rewrite Hl'. pose proof (links_nonneg m c).
    change (linked m (put_node n x' h)) with (linked m h). lia.
  - intros m. cbn [fresh put_node set_nodes]. apply Z.sub_le_mono_r. unfold owns. rewrite Ho', Ho.
    destruct Eq as [-> | ->]; [done |]. destruct (queued c) as [k|]; [destruct (k =? m)%nat |]; done.
  - intros j d Hj Hap HC. by eapply others_future.
Qed.

Lemma my_node i c h n :
  ready i c h -> queued c = Some n ->
  exists x, nodes h !! n = Some x /\ held_by_future x = true /\ phase x <> Cancelled /\
    (payload x = need c \/ payload x = CLOSED_GRANT) /\ cell_ok x.
Proof.
  intros R Hq. destruct (c_own i c h (r_client i c h R) n Hq) as (x & Hx & Hf & Hc & Hp).
  exists x. repeat (split; [done |]). by eapply (h_cells h (r_shared i c h R)).
Qed.

Lemma need_not_closed i c h : ready i c h -> need c <> CLOSED_GRANT.
Proof. intros R. pose proof (my_need R). unfold MAX, CLOSED_GRANT, usize_max in *. lia. Qed.

(** A look that finds the grant takes its permits off the node. *)
Lemma collects i c h x :
  ready i c h -> held_by_future x = true -> payload x = need c \/ payload x = CLOSED_GRANT -> is_granted x = true ->
  cell_carries x = if payload x =? CLOSED_GRANT then 0 else need c.
Proof.
  intros R Hf Hp Hg. unfold cell_carries. rewrite Hf, Hg. cbn. pose proof (need_not_closed i c h R).
  destruct (Z.eqb_spec (payload x) CLOSED_GRANT); cbn; [done |]. by destruct Hp.
Qed.

Lemma cell_carries_dropped x : cell_carries (drop_future x) = 0.
Proof. unfold cell_carries. cbn. by rewrite andb_false_r. Qed.

Lemma by_future_dropped x : cell_ok x -> phase x <> Waiting -> by_future x (drop_future x).
Proof. intros [H1 H2] Hw. by split. Qed.

Lemma granted_phase x : is_granted x = true -> phase x = Granted.
Proof. unfold is_granted. by destruct (phase x). Qed.

Lemma by_future_same x x' :
  cell_ok x -> payload x' = payload x -> phase x' = phase x -> held_by_future x' = held_by_future x -> by_future x x'.
Proof. intros [H1 H2] Hp Hph Hf. unfold by_future, cell_ok. by rewrite Hp, Hph, Hf. Qed.

(** The node stays the client's. *)
Lemma good_mine_keeps i c h n x x' c' v :
  ready i c h -> queued c = Some n -> quiet (pc c) = true -> nodes h !! n = Some x ->
  payload x' = payload x -> phase x' = phase x -> held_by_future x' = held_by_future x ->
  moved c c' v -> v = pc_carries (pc c) (need c) -> good 0 i c h c' (put_node n x' h).
Proof.
  intros R Hq Hc Hx Ep Eph Ef Hm ->. destruct (my_node i c h n R Hq) as (y & Hy & Hf & Hcn & _ & Hok).
  assert (y = x) as -> by congruence. apply (good_mine i c h n x x' c c' (pc_carries (pc c) (need c)) R Hq Hc Hx); [by apply by_future_same | done | |].
  - left. by rewrite Ef, Eph.
  - unfold cell_carries, is_granted. by rewrite Ep, Eph, Ef.
Qed.

Lemma good_mine_at i c h n x x' pc' :
  ready i c h -> queued c = Some n -> quiet (pc c) = true -> nodes h !! n = Some x ->
  payload x' = payload x -> phase x' = phase x -> held_by_future x' = held_by_future x ->
  (forall h, pc_ok (at_ pc' c) h) -> queued_at pc' = Some true -> quiet pc' = true -> adding (at_ pc' c) = 0 ->
  pc_carries pc' (need c) = pc_carries (pc c) (need c) -> good 0 i c h (at_ pc' c) (put_node n x' h).
Proof.
  intros R Hq Hc Hx Ep Eph Ef H1 H2 H3 H4 H5. apply (good_mine_keeps i c h n x x' _ (pc_carries pc' (need c))); try done.
  apply moved_at; [done | | by destruct pc' | done].
  intros b' Hb. rewrite H2 in Hb. simplify_eq. by rewrite Hq.
Qed.

(** The client lets its node go. *)
Lemma good_mine_leaves i c h n x x' c' v :
  ready i c h -> queued c = Some n -> quiet (pc c) = true -> nodes h !! n = Some x -> by_future x x' ->
  moved (set_queued None c) c' v -> cell_carries x' + v = cell_carries x + pc_carries (pc c) (need c) ->
  good 0 i c h c' (put_node n x' h).
Proof. intros R Hq Hc Hx Hb Hm Hs. apply (good_mine i c h n x x' (set_queued None c) c' v); auto. Qed.

Lemma park_look_ok i b c h : ready i c h -> pc c = ParkLook -> step_good i c h (client_step i b c h).
Proof.
  intros R Hpc. destruct (queued c) as [n|] eqn:Hq; [| by destruct (queued_yes R); rewrite ?Hpc].
  destruct (my_node i c h n R Hq) as (x & Hx & Hf & Hc & Hp & Hok). assert (Hqt : quiet (pc c) = true) by (by rewrite Hpc).
  open_step. rewrite Hpc. unfold on_mine. rewrite Hq. unfold on_node, node_at. rewrite Hx. cbn [and_then].
  fold (put_node n (snd (cell_look x)) h). unfold cell_look. destruct (is_granted x) eqn:Hg; cbn [fst snd].
  - eapply good_mine_leaves; try done.
    + apply by_future_dropped; [done |]. by rewrite (granted_phase x Hg).
    + by apply (moved_at (Consume (Some (payload x)))).
    + rewrite Hpc, cell_carries_dropped, (collects i c h x R Hf Hp Hg). cbn. by rewrite Z.add_0_r.
  - destruct (nudged x); cbn [fst snd].
    + by apply (good_mine_at i c h n x); rewrite ?Hpc.
    + eapply (good_mine_keeps i c h n x x _ 0); try done; [apply moved_answers | by rewrite Hpc].
Qed.

Lemma cancel_ok i b c h k : ready i c h -> pc c = CancelLook k -> step_good i c h (client_step i b c h).
Proof.
  intros R Hpc. destruct (queued c) as [n|] eqn:Hq; [| by destruct (queued_yes R); rewrite ?Hpc].
  pose proof (my_pc R) as Hk. unfold pc_ok in Hk. rewrite Hpc in Hk. assert (Hqt : quiet (pc c) = true) by (by rewrite Hpc).
  destruct (my_node i c h n R Hq) as (x & Hx & Hf & Hc & Hp & Hok).
  open_step. rewrite Hpc. unfold on_mine. rewrite Hq. unfold on_node, node_at. rewrite Hx. cbn [and_then].
  unfold cell_cancel. destruct (is_granted x) eqn:Hg; cbn [fst snd prod_map id].
  - eapply (good_mine_leaves i c h n x (drop_future x)); try done.
    + apply by_future_dropped; [done |]. by rewrite (granted_phase x Hg).
    + by apply (moved_at (CancelConsume (payload x) k)).
    + rewrite Hpc, cell_carries_dropped, (collects i c h x R Hf Hp Hg). cbn. lia.
  - apply (good_mine_leaves i c h n x (drop_future (set_nudged false (set_phase Cancelled x))) _ (kont_carries k (need c))); try done.
    + destruct Hok as [_ ?]. by split.
    + by apply (moved_at (CancelCount (nudged x) k)).
    + rewrite Hpc, cell_carries_dropped. unfold cell_carries. rewrite Hg. cbn. lia.
Qed.

Lemma owe_ok i b c h : ready i c h -> (pc c = OweMark \/ exists took seen, pc c = OweUnowe took seen) ->
  step_good i c h (client_step i b c h).
Proof.
  intros R Hpc. assert (Hat : queued_at (pc c) = Some true /\ quiet (pc c) = true) by (by destruct Hpc as [-> | (? & ? & ->)]).
  destruct Hat as [Hat Hqt]. destruct (queued c) as [n|] eqn:Hq; [| by destruct (queued_yes R)].
  destruct (my_node i c h n R Hq) as (x & Hx & _).
  open_step. destruct Hpc as [Hpc | (took & seen & Hpc)]; rewrite Hpc in *; unfold on_mine; rewrite Hq;
    unfold on_node, node_at; rewrite Hx; cbn [and_then]; unfold cell_owe, cell_unowe;
    [destruct (is_waiting x) | destruct (is_waiting x && owed_mark x)]; cbn [fst snd].
  - by apply (good_mine_at i c h n x); rewrite ?Hpc.
  - by apply (good_mine_at i c h n x); rewrite ?Hpc.
  - by apply (good_mine_at i c h n x); rewrite ?Hpc.
  - by apply (good_mine_at i c h n x); rewrite ?Hpc.
Qed.

Lemma park_spin_ok i b c h :
  ready i c h -> match pc c with ParkBegin _ | ParkSpin _ _ => step_good i c h (client_step i b c h) | _ => True end.
Proof.
  intros R. unfold client_step, mine_marked. destruct (pc c) eqn:Hpc; try done;
    (destruct (queued c) as [n|] eqn:Hq; [| by destruct (queued_yes R); rewrite ?Hpc]);
    destruct (my_node i c h n R Hq) as (x & Hx & _); unfold node_at; rewrite Hx; cbn [and_then].
  - case_match; apply good_at; side Hpc; intros; simplify_eq; by rewrite Hq.
  - case_match; [| case_match]; apply good_at; side Hpc; intros; simplify_eq; by rewrite Hq.
Qed.

(** ** Queueing *)

Lemma fresh_none h : shared_ok h -> nodes h !! fresh h = None.
Proof.
  intros Hh. destruct (nodes h !! fresh h) as [x|] eqn:E; [| done]. apply (h_cells h Hh) in E as [E _]. lia.
Qed.

(** A new node changes nothing for those who know others. *)
Lemma stage_ok_more st h x :
  shared_ok h -> stage_ok st h -> stage_ok st (set_fresh (S (fresh h)) (set_nodes (<[fresh h := x]> (nodes h)) h)).
Proof.
  intros Hh. pose proof (fresh_none h Hh) as Hn.
  assert (Hk : forall m y, nodes h !! m = Some y -> <[fresh h := x]> (nodes h) !! m = Some y).
  { intros m y Hm. rewrite lookup_insert_ne; [done |]. intros <-. congruence. }
  induction st; cbn; unfold linked_ok, at_head, there; cbn; try done; try tauto; naive_solver.
Qed.

Lemma client_ok_more j d h x :
  shared_ok h -> client_ok j d h -> client_ok j d (set_fresh (S (fresh h)) (set_nodes (<[fresh h := x]> (nodes h)) h)).
Proof.
  intros Hh [H1 H2 H3 H4 H5 H6]. pose proof (fresh_none h Hh) as Hn.
  assert (Hk : forall m y, nodes h !! m = Some y -> <[fresh h := x]> (nodes h) !! m = Some y).
  { intros m y Hm. rewrite lookup_insert_ne; [done |]. intros <-. congruence. }
  constructor; try done.
  - unfold pc_ok in *. destruct (pc d); try done.
    + destruct H4 as (y & Hy & Hr). exists y. split; [by apply Hk | done].
    + destruct H4. split; [done |]. by apply stage_ok_more.
  - intros m Hm. destruct (H5 m Hm) as (y & Hy & Hr). exists y. split; [by apply Hk | done].
Qed.

Lemma enqueue_ok i b c h : ready i c h -> pc c = Enqueue -> step_good i c h (client_step i b c h).
Proof.
  intros R Hpc. pose proof R as [RS RC _ _ _ _]. pose proof RS as [S1 S2 S3]. pose proof RC as [C1 C2 C3 C4 C5 C6].
  pose proof (queued_no R ltac:(by rewrite Hpc)) as Hq. pose proof (fresh_none h RS) as Hn.
  open_step. rewrite Hpc. cbn [step_good]. constructor.
  - constructor; [done | |].
    + cbn. intros m y Hy. destruct (decide (fresh h = m)) as [<- |].
      * rewrite lookup_insert_eq in Hy. simplify_eq. split; [lia |]. split; [done |]. cbn. lia.
      * rewrite lookup_insert_ne in Hy by done. apply S2 in Hy as [? ?]. split; [lia | done].
    + intros m (y & Hy & Hr)%S3. exists y. split; [| done]. cbn. rewrite lookup_insert_ne; [done |]. intros <-. congruence.
  - constructor; try done.
    + intros b' [= <-]. cbn. by rewrite Hq.
    + unfold pc_ok. cbn. exists (cell_new (need c)). by rewrite lookup_insert_eq.
    + intros m Hm. cbn in Hm. congruence.
  - cbn. rewrite msum_new by done. unfold carries. rewrite Hpc. unfold cell_carries. cbn. lia.
  - unfold adding. rewrite Hpc. cbn. lia.
  - unfold is_draining. rewrite Hpc. done.
  - intros m. unfold linked, links. cbn [pc at_ arrivals waiting set_fresh set_nodes pc_nodes fresh]. rewrite Hpc.
    autorewrite with counts. destruct (Nat.eqb_spec (fresh h) m), (Nat.ltb_spec m (S (fresh h))), (Nat.ltb_spec m (fresh h)); cbn; lia.
  - intros m. unfold owns, own_node. cbn [pc at_ set_fresh fresh set_nodes]. rewrite Hpc, Hq.
    destruct (Nat.eqb_spec (fresh h) m), (Nat.ltb_spec m (S (fresh h))), (Nat.ltb_spec m (fresh h)); cbn; lia.
  - intros j d Hj Hap HC. by apply client_ok_more.
Qed.

Lemma push_arrival_ok i b c h n x : ready i c h -> pc c = Push n x -> step_good i c h (client_step i b c h).
Proof.
  intros R Hpc. pose proof R as [RS RC _ _ _ _]. pose proof RS as [S1 S2 S3]. pose proof RC as [C1 C2 C3 C4 C5 C6].
  pose proof (queued_no R ltac:(by rewrite Hpc)) as Hq. pose proof (need_not_closed i c h R) as Hnc.
  unfold pc_ok in C4. rewrite Hpc in C4. destruct C4 as (y & Hy & Hw & Hf & Hp).
  open_step. rewrite Hpc. destruct (negb b && _); cbn [step_good]; constructor.
  - constructor; [done | done |]. cbn. intros m Hm. apply elem_of_app in Hm as [Hm | [-> | Hm]%elem_of_cons].
    + apply S3. apply elem_of_app. by left.
    + exists y. split; [done |]. split; [by rewrite Hw | congruence].
    + apply S3. apply elem_of_app. by right.
  - constructor; try done.
    + by intros b' [= <-].
    + intros m [= <-]. exists y. split; [done |]. split; [done |]. split; [by rewrite Hw | by left].
  - cbn. unfold carries. rewrite Hpc. cbn. lia.
  - unfold adding. rewrite Hpc. cbn. lia.
  - unfold is_draining. cbn. rewrite Hpc. lia.
  - intros m. unfold linked, links. cbn [pc at_ arrivals waiting set_arrivals pc_nodes fresh set_queued_now set_queued]. rewrite Hpc.
    cbn [pc_nodes]. autorewrite with counts. lia.
  - intros m. unfold owns, own_node. cbn [pc at_ set_arrivals fresh set_queued_now set_queued queued]. rewrite Hpc. done.
  - intros j d Hj Hap HC. by apply (client_ok_ext j d h).
  - done.
  - constructor; try done.
    + intros b' [= <-]. cbn. by rewrite Hq.
    + unfold pc_ok. cbn. by exists y.
  - cbn. unfold carries. rewrite Hpc. cbn. lia.
  - unfold adding. rewrite Hpc. cbn. lia.
  - unfold is_draining. cbn. rewrite Hpc. lia.
  - intros m. unfold links. cbn [pc at_ pc_nodes]. rewrite Hpc. done.
  - intros m. unfold owns, own_node. cbn [pc at_]. rewrite Hpc. done.
  - done.
Qed.
