(* ===== verification/RawSemaphoreDrain.v ===== *)
(** * The drain of the shared semaphore keeps its books

    Every step of [drain] and of the pass it runs: the holder of the role
    absorbs arrivals, sweeps, closes, hands permits over and nudges. *)

From S2P Require Import Prelude Coop AtomicWaits QueueWord Spin NodeCell RawSemaphore RawSemaphoreWord Sums.
From S2P Require Import RawSemaphoreInv RawSemaphoreCalls.
Open Scope Z_scope.

Section drains.
Context {i : nat} {c : Client} {h : Shared} {st : Stage} {k : Kont} {seen : Z} {x : Change}.
Context (R : ready i c h) (Hpc : pc c = Draining st k seen x).

Lemma drain_client : is_draining c = 1 /\ adding c = 0 /\ own_node c = queued c /\ carries c = held c + stage_carries st + kont_carries k (need c)
  /\ (forall n, links n c = count n (stage_nodes st)) /\ is_set x = false /\ stage_ok st h /\ holder h = Some i.
Proof using R Hpc.
  pose proof (my_pc R) as Hok. unfold pc_ok in Hok. rewrite Hpc in Hok. destruct Hok as [Hx Hs].
  assert (is_draining c = 1) as Hd by (unfold is_draining; by rewrite Hpc).
  repeat split; try done; try (intros; unfold adding, own_node, carries, links; rewrite Hpc; cbn; done || lia).
  by apply (c_role i c h (r_client i c h R)).
Qed.

(** Another client does not drain meanwhile. *)
Lemma others_calm d : apart c d h -> is_draining d = 0.
Proof using Hpc.
  intros [_ _ Ha]. assert (is_draining c = 1) as Hd by (unfold is_draining; by rewrite Hpc). rewrite Hd in Ha.
  pose proof (is_draining_nonneg d). destruct (has DRAINING (word h)); cbn in Ha; lia.
Qed.

(** The next stage, with [nodes] as they were. *)
Lemma good_stage st' h' :
  nodes h' = nodes h -> fresh h' = fresh h -> holder h' = holder h -> total h' = total h ->
  has DRAINING (word h') = has DRAINING (word h) -> 0 <= free (word h') ->
  free (word h') + stage_carries st' = free (word h) + stage_carries st ->
  (forall n, linked n h' + count n (stage_nodes st') <= linked n h + count n (stage_nodes st)) ->
  linked_ok (waiting h' ++ arrivals h') h -> stage_ok st' h' ->
  good 0 i c h (at_ (Draining st' k seen x) c) h'.
Proof using R Hpc.
  intros En Ef Eh Et Ed Hf Hs Hl Hlk Hst. destruct drain_client as (D1 & D2 & D3 & D4 & D5 & D6 & D7 & D8).
  pose proof R as [[S1 S2 S3] [C1 C2 C3 C4 C5 C6] _ _ _ _]. constructor.
  - constructor; [done | by rewrite En, Ef |]. unfold linked_ok. by rewrite En.
  - constructor; cbn; try done.
    + intros b Hb. apply C3. by rewrite Hpc.
    + unfold own_ok. cbn. by rewrite En.
    + by rewrite Eh.
  - rewrite En, Et, D4. unfold carries. cbn. lia.
  - rewrite Et, D2. unfold adding. cbn. lia.
  - rewrite Ed, D1. done.
  - intros n. rewrite Ef, D5. specialize (Hl n). unfold links. cbn. lia.
  - intros n. rewrite Ef. unfold owns. rewrite D3. done.
  - intros j d Hj Hap HC. eapply (client_ok_calm j d h); [done | by apply others_calm | done].
Qed.

(** What the queue does to a node: it leaves the future's hold on it, and
    grants or closes only one that is linked or in hand. *)
Definition by_queue (n : nat) (y y' : Cell) : Prop :=
  held_by_future y' = held_by_future y /\ cell_ok y' /\
  (phase y' = phase y /\ payload y' = payload y \/
   1 <= linked n h + links n c /\ (phase y' = phase y \/ phase y = Waiting /\ phase y' = Granted) /\
   (payload y' = payload y \/ payload y' = CLOSED_GRANT)).

Lemma others_queue j d n y y' h' :
  apart c d h -> nodes h !! n = Some y -> by_queue n y y' -> nodes h' = <[n := y']> (nodes h) ->
  client_ok j d h -> client_ok j d h'.
Proof using Hpc.
  intros Hap Hy (Hf & Hok & Hb) En [H1 H2 H3 H4 H5 H6]. pose proof (others_calm d Hap) as Hd. constructor; try done.
  - unfold pc_ok, is_draining in *. destruct (pc d) eqn:Hpd; try done. rewrite En.
    destruct (decide (n = n0)) as [<- |]; [| by rewrite lookup_insert_ne]. destruct H4 as (z & Hz & Hr). simplify_eq.
    exists y'. rewrite lookup_insert_eq, Hf. destruct Hb as [[-> ->] | [Hn _]]; [done |].
    destruct Hap as [_ Hl _]. specialize (Hl n). unfold links in Hl at 2. rewrite Hpd in Hl. cbn [pc_nodes] in Hl.
    rewrite count_cons, count_nil, Nat.eqb_refl in Hl. cbn in Hl. lia.
  - intros m Hm. rewrite En. destruct (H5 m Hm) as (z & Hz & Hzf & Hzc & Hzp).
    destruct (decide (n = m)) as [<- |]; [| exists z; by rewrite lookup_insert_ne]. simplify_eq.
    exists y'. rewrite lookup_insert_eq, Hf. split; [done |]. split; [done |].
    destruct Hb as [[-> ->] | (_ & [-> | [_ ->]] & [-> | ->])]; split; try done; auto.
  - by rewrite Hd.
Qed.

(** The next stage, with one node changed. *)
Lemma good_stage_node st' h' n y y' :
  nodes h !! n = Some y -> by_queue n y y' -> nodes h' = <[n := y']> (nodes h) ->
  fresh h' = fresh h -> holder h' = holder h -> total h' = total h -> word h' = word h ->
  cell_carries y' + stage_carries st' = cell_carries y + stage_carries st ->
  (forall n, linked n h' + count n (stage_nodes st') <= linked n h + count n (stage_nodes st)) ->
  linked_ok (waiting h' ++ arrivals h') h' -> stage_ok st' h' ->
  good 0 i c h (at_ (Draining st' k seen x) c) h'.
Proof using R Hpc.
  intros Hy Hb En Ef Eh Et Ew Hs Hl Hlk Hst. destruct drain_client as (D1 & D2 & D3 & D4 & D5 & D6 & D7 & D8).
  pose proof R as [[S1 S2 S3] [C1 C2 C3 C4 C5 C6] _ _ _ _]. constructor.
  - constructor; [by rewrite Ew | | done]. rewrite En, Ef. intros m z Hz. destruct (decide (n = m)) as [<- |].
    + rewrite lookup_insert_eq in Hz. simplify_eq. split; [by eapply S2 |]. by destruct Hb as (_ & ? & _).
    + rewrite lookup_insert_ne in Hz by done. by apply S2.
  - constructor; cbn; try done.
    + intros b Hb'. apply C3. by rewrite Hpc.
    + intros m Hm. cbn in Hm. rewrite En. destruct (C5 m Hm) as (z & Hz & Hzf & Hzc & Hzp). cbn.
      destruct (decide (n = m)) as [<- |]; [| exists z; by rewrite lookup_insert_ne]. simplify_eq.
      exists y'. rewrite lookup_insert_eq. destruct Hb as (-> & _ & Hb). split; [done |]. split; [done |].
      destruct Hb as [[-> ->] | (_ & [-> | [_ ->]] & [-> | ->])]; split; try done; auto.
    + by rewrite Eh.
  - rewrite En, Et, Ew, D4, (msum_insert cell_carries (nodes h) n y y' Hy). unfold carries. cbn. lia.
  - rewrite Et, D2. unfold adding. cbn. lia.
  - rewrite Ew, D1. done.
  - intros m. rewrite Ef, D5. specialize (Hl m). unfold links. cbn. lia.
  - intros m. rewrite Ef. unfold owns. rewrite D3. done.
  - intros j d Hj Hap HC. by eapply others_queue.
Qed.
End drains.

(** ** The stages *)

Section stages.
Context {i : nat} {c : Client} {h : Shared} {st : Stage} {k : Kont} {seen : Z} {x : Change}.
Context (R : ready i c h) (Hpc : pc c = Draining st k seen x).

Definition stage_good (r : Result (option Stage * Shared) Stop) : Prop :=
  match r with
  | Ok (Some st', h') => good 0 i c h (at_ (Draining st' k seen x) c) h'
  | Ok (None, h') => good 0 i c h (resume k seen x c) h'
  | Err _ => False
  end.

Lemma here : stage_ok st h.
Proof using R Hpc. by destruct (drain_client R Hpc) as (_ & _ & _ & _ & _ & _ & ? & _). Qed.
Lemma lists_ok : linked_ok (waiting h ++ arrivals h) h.
Proof using R. exact (h_linked h (r_shared i c h R)). Qed.
Lemma free_ok : 0 <= free (word h).
Proof using R. exact (h_free h (r_shared i c h R)). Qed.
Lemma linked_once n : linked n h + count n (stage_nodes st) <= 1.
Proof using R Hpc. pose proof (r_links i c h R n) as H. unfold links in H. by rewrite Hpc in H. Qed.

(** Nothing but the stage changes. *)
Lemma stage_moves st' :
  stage_carries st' = stage_carries st -> stage_nodes st' = stage_nodes st -> stage_ok st' h ->
  good 0 i c h (at_ (Draining st' k seen x) c) h.
Proof using R Hpc.
  intros Hc Hn Hs. apply (good_stage R Hpc); try done; [apply free_ok | by rewrite Hc | by rewrite Hn | apply lists_ok].
Qed.

(** The word changes, and neither its permits nor its role. *)
Lemma stage_marks st' w :
  stage_carries st' = stage_carries st -> stage_nodes st' = stage_nodes st -> stage_ok st' h ->
  free w = free (word h) -> has DRAINING w = has DRAINING (word h) ->
  good 0 i c h (at_ (Draining st' k seen x) c) (set_word w h).
Proof using R Hpc.
  intros Hc Hn Hs Hf Hd. apply (good_stage R Hpc); cbn; try done; try (rewrite ?Hf, ?Hc; done); [rewrite Hf; apply free_ok | by rewrite Hn | apply lists_ok |].
  by apply (stage_ok_ext st' h).
Qed.

(** The head of the list: it is there, and goes when it has withdrawn. *)
Lemma front_good again none some :
  stage_carries st = 0 -> stage_nodes st = [] ->
  (stage_carries again = 0 /\ stage_nodes again = [] /\ forall h, stage_ok again h) ->
  (stage_carries none = 0 /\ stage_nodes none = [] /\ forall h, stage_ok none h) ->
  (forall n y rest, waiting h = n :: rest -> nodes h !! n = Some y -> phase y <> Granted -> payload y <> CLOSED_GRANT ->
     stage_carries (some n y) = 0 /\ stage_nodes (some n y) = [] /\ stage_ok (some n y) h) ->
  stage_good (at_front again none some h).
Proof using R Hpc.
  intros Hc Hn (A1 & A2 & A3) (N1 & N2 & N3) Hs. unfold at_front. destruct (waiting h) as [|n rest] eqn:Ew; cbn.
  - apply stage_moves; rewrite ?Hc, ?Hn; auto.
  - pose proof lists_ok as Hl. rewrite Ew in Hl. destruct (Hl n) as (y & Hy & Hg & Hp); [set_solver |].
    unfold node_at. rewrite Hy. cbn [and_then]. destruct (is_cancelled y); cbn.
    + apply (good_stage R Hpc); cbn; try done; rewrite ?A1, ?A2, ?Hc, ?Hn; try done.
      * apply free_ok.
      * intros m. unfold linked. cbn. rewrite Ew. autorewrite with counts. destruct (n =? m)%nat; cbn; lia.
      * intros m Hm. apply Hl. set_solver.
      * split; [by exists y | done].
    + destruct (Hs n y rest eq_refl Hy Hg Hp) as (S1 & S2 & S3). apply stage_moves; rewrite ?Hc, ?Hn; auto.
Qed.
End stages.

Lemma marks_ok i b c h st k seen x :
  ready i c h -> pc c = Draining st k seen x ->
  match st with
  | DClear | DLower | DRaise _ _ _ _ _ => stage_good (i := i) (c := c) (k := k) (seen := seen) (x := x) (h := h) (drain_step b st h)
  | _ => True
  end.
Proof.
  intros R Hpc. pose proof (here R Hpc) as Hst. destruct (view_of (word h)) as (d & y & q & n & ha & f & cl & Hv).
  destruct st; try done; cbn; apply (stage_marks R Hpc); cbn; try done; try (cbn in Hst; tauto).
  - by rewrite (test_free (view_clear Hv)).
  - by rewrite (test_draining (view_clear Hv)), (test_draining Hv).
  - by rewrite (test_free (view_nudge_out Hv)).
  - by rewrite (test_draining (view_nudge_out Hv)), (test_draining Hv).
  - by rewrite (test_free (view_no_nudge Hv)).
  - by rewrite (test_draining (view_no_nudge Hv)), (test_draining Hv).
Qed.

Lemma moves_ok i b c h st k seen x :
  ready i c h -> pc c = Draining st k seen x ->
  match st with
  | DClosed _ | DHandoff _ | DHandLoad _ _ _ | DAsk _ | DAskOwed _ | DBudget _ | DNudges _ _ _ _ _ _ | DOwed _ | DExitLoad _ | DForgive _ =>
      stage_good (i := i) (c := c) (k := k) (seen := seen) (x := x) (h := h) (drain_step b st h)
  | _ => True
  end.
Proof.
  intros R Hpc. pose proof (here R Hpc) as Hst. pose proof (lists_ok R) as Hl.
  destruct st; try done; cbn in *; try (case_match; apply (stage_moves R Hpc); done).
  - unfold hand_goes, admits. destruct (Z.leb_spec need (free (word h))); cbn; [destruct (negb _); cbn |]; by apply (stage_moves R Hpc).
  - apply (stage_moves R Hpc); cbn; try done. intros n Hn. destruct (Hl n) as (y & Hy & _); [set_solver | by exists y].
  - unfold nudges. destruct rest as [|n rest]; cbn; [case_match; by apply (stage_moves R Hpc) |].
    destruct (Hst n) as [y Hy]; [set_solver |]. unfold node_at. rewrite Hy. cbn.
    assert (Hrest : forall m, m ∈ rest -> there m h) by (intros; apply Hst; set_solver).
    assert (there n h) by (by exists y).
    destruct (is_cancelled y); cbn; [by apply (stage_moves R Hpc) |].
    destruct (_ && _); cbn; [case_match; by apply (stage_moves R Hpc) |].
    destruct raised; by apply (stage_moves R Hpc).
  - destruct Hst as [-> | ->]; case_match; apply (stage_moves R Hpc); cbn; tauto.
  - by apply (stage_moves R Hpc).
  - apply (good_stage R Hpc); try done; [apply (free_ok R) |]. by apply (stage_ok_ext st h).
Qed.

Lemma fronts_ok i b c h st k seen x :
  ready i c h -> pc c = Draining st k seen x ->
  match st with
  | DCloseFront | DHandFront _ | DNudgeFront _ | DEnd =>
      stage_good (i := i) (c := c) (k := k) (seen := seen) (x := x) (h := h) (drain_step b st h)
  | _ => True
  end.
Proof.
  intros R Hpc. destruct st; try done; cbn; apply (front_good R Hpc); try (by cbn; auto); intros n y rest Ew Hy Hg Hp; cbn; try (by auto).
  - split; [done |]. split; [done |]. by exists rest.
  - split; [done |]. split; [done |]. split; [by exists rest | by exists y].
Qed.

Lemma lists_move_ok i b c h st k seen x :
  ready i c h -> pc c = Draining st k seen x ->
  match st with
  | DTake _ | DAbsorb _ _ | DTidy _ | DSweep _ _ _ =>
      stage_good (i := i) (c := c) (k := k) (seen := seen) (x := x) (h := h) (drain_step b st h)
  | _ => True
  end.
Proof.
  intros R Hpc. pose proof (here R Hpc) as Hst. pose proof (lists_ok R) as Hl. pose proof (free_ok R).
  destruct st as [|front|rest front|front|kept rest front| | | | | | | | | | | | | | | | | | | | | | | |]; try done; cbn in *; unfold absorb, tidy, sweep.
  - (* DTake *) apply (good_stage R Hpc); cbn; try done.
    + intros n. unfold linked. cbn. autorewrite with counts. lia.
    + intros n Hn. apply Hl. rewrite app_nil_r in Hn. set_solver.
    + intros n Hn. apply Hl. apply elem_of_app. right. apply list_elem_of_In, in_rev, list_elem_of_In, Hn.
  - (* DAbsorb *) destruct rest as [|n rest]; cbn; [by apply (stage_moves R Hpc) |].
    destruct (Hst n) as (y & Hy & Hg & Hp); [set_solver |]. unfold node_at. rewrite Hy. cbn.
    assert (linked_ok rest h) as Hr by (intros m Hm; apply Hst; set_solver).
    destruct (is_cancelled y); cbn; apply (good_stage R Hpc); cbn; try done.
    + intros m. rewrite count_cons. destruct (n =? m)%nat; cbn; lia.
    + split; [by exists y | done].
    + intros m. unfold linked. cbn. autorewrite with counts. lia.
    + intros m Hm. rewrite <- app_assoc in Hm. cbn in Hm. apply elem_of_app in Hm as [Hm | [-> | Hm]%elem_of_cons]; [apply Hl; set_solver | by exists y | apply Hl; set_solver].
  - (* DTidy *) case_match; cbn; [| by apply (stage_moves R Hpc)]. by apply (good_stage R Hpc).
  - (* DSweep *) destruct rest as [|n rest]; cbn; [by apply (stage_moves R Hpc) |].
    destruct (Hl n) as (y & Hy & Hg & Hp); [rewrite Hst; set_solver |]. unfold node_at. rewrite Hy. cbn.
    destruct (is_cancelled y); cbn.
    + apply (good_stage R Hpc); cbn; try done.
      * intros m. unfold linked. cbn. rewrite Hst. autorewrite with counts. destruct (n =? m)%nat; cbn; lia.
      * intros m Hm. apply Hl. rewrite Hst. set_solver.
      * split; [by exists y | done].
    + apply (stage_moves R Hpc); cbn; try done. by rewrite Hst, <- app_assoc.
Qed.

(** One node changes. *)
Lemma linked_ok_set l n y y' h h' :
  nodes h !! n = Some y -> nodes h' = <[n := y']> (nodes h) ->
  (n ∉ l \/ phase y' = phase y /\ payload y' = payload y) -> linked_ok l h -> linked_ok l h'.
Proof.
  intros Hy En Hn Hl m Hm. rewrite En. destruct (Hl m Hm) as (z & Hz & Hg & Hp).
  destruct (decide (n = m)) as [<- |]; [| exists z; by rewrite lookup_insert_ne].
  destruct Hn as [? | [E1 E2]]; [done |]. simplify_eq. exists y'. by rewrite lookup_insert_eq, E1, E2.
Qed.

Lemma there_set m n y' h h' : nodes h' = <[n := y']> (nodes h) -> there m h -> there m h'.
Proof.
  intros En [z Hz]. unfold there. rewrite En. destruct (decide (n = m)) as [<- |]; [exists y'; by rewrite lookup_insert_eq | exists z; by rewrite lookup_insert_ne].
Qed.

Lemma stage_ok_set st n y y' h h' :
  nodes h !! n = Some y -> nodes h' = <[n := y']> (nodes h) -> waiting h' = waiting h ->
  phase y' = phase y -> payload y' = payload y -> stage_ok st h -> stage_ok st h'.
Proof.
  intros Hy En Ew E1 E2. assert (Ht : forall m, there m h -> there m h') by (intros; by eapply there_set).
  assert (Hx : forall m (P : Z -> Prop), (exists x, nodes h !! m = Some x /\ P (payload x)) -> exists x, nodes h' !! m = Some x /\ P (payload x)).
  { intros m P (z & Hz & HP). rewrite En. destruct (decide (n = m)) as [<- |]; [| exists z; by rewrite lookup_insert_ne].
    simplify_eq. exists y'. by rewrite lookup_insert_eq, E2. }
  induction st; cbn; unfold at_head; rewrite ?Ew; try done.
  - apply (linked_ok_set _ n y y'); auto.
  - apply (Hx _ (fun p => p = CLOSED_GRANT)).
  - intros [H1 H2]. split; [done |]. exact (Hx _ (fun p => p = _) H2).
  - intros [[H1 H2] H3]. split; [split |]; [done | | done]. exact (Hx _ (fun p => p = _) H2).
  - apply (Hx _ (fun p => p = _ /\ _)).
  - auto.
  - intros [? ?]. auto.
  - intros [? ?]. auto.
  - intros [? ?]. auto.
Qed.

Section node_stages.
Context {i : nat} {c : Client} {h : Shared} {st : Stage} {k : Kont} {seen : Z} {x : Change}.
Context (R : ready i c h) (Hpc : pc c = Draining st k seen x).
Notation holds r := (stage_good (i := i) (c := c) (k := k) (seen := seen) (x := x) (h := h) r).

(** A node keeps its phase and its payload: nudged, or let go. *)
Lemma node_kept n y y' st' :
  nodes h !! n = Some y -> phase y' = phase y -> payload y' = payload y -> held_by_future y' = held_by_future y ->
  stage_carries st' = stage_carries st -> stage_nodes st' = stage_nodes st -> stage_ok st' h ->
  good 0 i c h (at_ (Draining st' k seen x) c) (set_nodes (<[n := y']> (nodes h)) h).
Proof using R Hpc.
  intros Hy E1 E2 E3 Hc Hn Hs. destruct (h_cells h (r_shared i c h R) n y Hy) as [_ [Hk1 Hk2]].
  apply (good_stage_node R Hpc _ _ n y y'); cbn; try done.
  - split; [done |]. split; [split; rewrite ?E1, ?E2, ?E3; done | by left].
  - unfold cell_carries, is_granted. rewrite E1, E2, E3. lia.
  - by rewrite Hn.
  - apply (linked_ok_set _ n y y' h); auto; apply (lists_ok R).
  - by apply (stage_ok_set st' n y y' h).
Qed.

Lemma nudge_ok b n rest budget sent front : st = DNudge n rest budget sent front -> holds (drain_step b st h).
Proof using R Hpc.
  intros E. pose proof (here R Hpc) as Hst. rewrite E in Hst |- *. destruct Hst as [[y Hy] Hr]. cbn. unfold on_node, node_at. rewrite Hy. cbn.
  apply (node_kept n y); try done; unfold cell_nudge; case_match; cbn; try done; by rewrite E.
Qed.

Lemma let_go_ok b n next : st = DRelease n next -> holds (drain_step b st h).
Proof using R Hpc.
  intros E. pose proof (here R Hpc) as Hst. rewrite E in Hst |- *. destruct Hst as [[y Hy] Hr]. cbn. unfold on_node, node_at. rewrite Hy. cbn.
  apply (node_kept n y); try done; try (rewrite E; by case_match). by case_match.
Qed.

(** A node in hand is granted, or had withdrawn. *)
Lemma grant_node n y st' :
  nodes h !! n = Some y -> stage_nodes st = [n] -> stage_nodes st' = [] ->
  stage_carries st' + (if is_waiting y && negb (payload y =? CLOSED_GRANT) then payload y else 0) = stage_carries st ->
  (forall h, stage_ok st' h) ->
  good 0 i c h (at_ (Draining (DRelease n st') k seen x) c) (set_nodes (<[n := snd (cell_grant y)]> (nodes h)) h).
Proof using R Hpc.
  intros Hy Hn Hn' Hc Hs. destruct (h_cells h (r_shared i c h R) n y Hy) as [_ [Hk1 Hk2]].
  pose proof (linked_once R Hpc n) as Ho. rewrite Hn, count_cons, count_nil, Nat.eqb_refl in Ho. cbn in Ho.
  assert (Hoff : n ∉ waiting h ++ arrivals h) by (intros Hin%count_in; unfold linked in Ho; lia).
  assert (Hl : links n c = 1) by (unfold links; rewrite Hpc; cbn; rewrite Hn, count_cons, count_nil, Nat.eqb_refl; done).
  apply (good_stage_node R Hpc _ _ n y (snd (cell_grant y))); cbn; try done.
  - unfold cell_grant. split; [by destruct (is_waiting y) |].
    split; [unfold cell_ok; destruct (is_waiting y); cbn; done |]. right.
    split; [rewrite Hl; pose proof (count_nonneg n (waiting h ++ arrivals h)); unfold linked; lia |].
    unfold is_waiting. destruct (phase y) eqn:E; cbn; auto.
  - unfold cell_carries, cell_grant, is_waiting, is_granted in *. destruct (phase y) eqn:E; cbn in *; rewrite ?E; cbn; try done; try lia.
    rewrite (Hk1 eq_refl). cbn in *. lia.
  - intros m. rewrite Hn, Hn', count_nil. pose proof (count_nonneg m [n]). unfold linked. cbn [waiting arrivals set_nodes]. lia.
  - apply (linked_ok_set _ n y (snd (cell_grant y)) h); auto. apply (lists_ok R).
  - split; [| done]. eapply there_set; [done |]. by exists y.
Qed.

(** The head of the list is linked once. *)
Lemma head_once n rest : waiting h = n :: rest -> linked n h = 1 /\ n ∉ rest ++ arrivals h.
Proof using R Hpc.
  intros Ew. pose proof (linked_once R Hpc n) as Ho. unfold linked in *. rewrite Ew in *. cbn [app] in *.
  rewrite count_cons, Nat.eqb_refl in *. cbn in *. pose proof (count_nonneg n (stage_nodes st)). pose proof (count_nonneg n (rest ++ arrivals h)).
  split; [lia |]. intros Hin%count_in. lia.
Qed.

Lemma linked_tail n rest m : waiting h = n :: rest -> linked m (set_waiting rest h) + count m [n] = linked m h.
Proof using.
  intros Ew. unfold linked. cbn [waiting arrivals set_waiting]. rewrite Ew. cbn [app]. autorewrite with counts. lia.
Qed.

Lemma close_payload_ok b n : st = DClosePayload n -> holds (drain_step b st h).
Proof using R Hpc.
  intros E. pose proof (here R Hpc) as Hst. rewrite E in Hst |- *. destruct Hst as [rest Ew].
  destruct (head_once n rest Ew) as [H1 Hout]. pose proof (lists_ok R) as Hl. rewrite Ew in Hl.
  destruct (Hl n) as (y & Hy & Hg & Hp); [set_solver |].
  cbn. unfold on_node, node_at. cbn [nodes set_waiting]. rewrite Hy, Ew. cbn.
  destruct (h_cells h (r_shared i c h R) n y Hy) as [_ [Hk1 Hk2]].
  apply (good_stage_node R Hpc _ _ n y (set_payload CLOSED_GRANT y)); cbn; try done; rewrite ?E.
  - split; [done |]. split; [split; [done | by right] |]. right. split; [pose proof (links_nonneg n c); lia |]. auto.
  - unfold cell_carries, is_granted. cbn. by destruct (phase y).
  - intros m. cbn. rewrite count_nil. pose proof (linked_tail n rest m Ew) as HH. unfold linked in *. cbn [waiting arrivals set_waiting set_nodes] in *. lia.
  - apply (linked_ok_set _ n y (set_payload CLOSED_GRANT y) h); auto. intros m Hm. apply Hl. set_solver.
  - exists (set_payload CLOSED_GRANT y). by rewrite lookup_insert_eq.
Qed.

Lemma close_grant_ok b n : st = DCloseGrant n -> holds (drain_step b st h).
Proof using R Hpc.
  intros E. pose proof (here R Hpc) as Hst. rewrite E in Hst |- *. destruct Hst as (y & Hy & Hp).
  cbn. unfold on_node, node_at. rewrite Hy. cbn. apply (grant_node n y); rewrite ?E; cbn; try done.
  rewrite Hp, Z.eqb_refl, andb_false_r. done.
Qed.

Lemma hand_grant_ok b n need front : st = DHandGrant n need front -> holds (drain_step b st h).
Proof using R Hpc.
  intros E. pose proof (here R Hpc) as Hst. rewrite E in Hst |- *. destruct Hst as (y & Hy & Hp & Hc).
  destruct (h_cells h (r_shared i c h R) n y Hy) as [_ [Hk1 [Hk2 | ?]]]; [| congruence].
  assert (payload y =? CLOSED_GRANT = false) as Hf by (apply Z.eqb_neq; congruence).
  cbn. unfold on_node, node_at. rewrite Hy. cbn. destruct (is_waiting y) eqn:Ey; cbn.
  - apply (grant_node n y); rewrite ?E; cbn; try done; unfold cell_grant; rewrite ?Ey, ?Hf; cbn; done || lia.
  - apply (grant_node n y); rewrite ?E; cbn; try done; unfold cell_grant; rewrite ?Ey, ?Hf; cbn; intros; done || lia.
Qed.

Lemma hand_swap_ok b n need current front : st = DHandSwap n need current front -> holds (drain_step b st h).
Proof using R Hpc.
  intros E. pose proof (here R Hpc) as Hst. rewrite E in Hst |- *. destruct Hst as [[[rest Ew] (y & Hy & Hp)] Hn]. cbn.
  destruct (negb b && _) eqn:Es.
  - apply andb_prop in Es as [_ ->%Z.eqb_eq%eq_sym]. destruct (view_of (word h)) as (d & yy & q & nn & ha & f & cl & Hv).
    pose proof (lists_ok R) as Hl. rewrite Ew in Hl. destruct (Hl n) as (z & Hz & Hg & Hpz); [set_solver |]. simplify_eq.
    rewrite Ew. cbn. apply (good_stage R Hpc); cbn; rewrite ?E; try done.
    + by rewrite (test_draining (view_minus Hv _)), (test_draining Hv).
    + rewrite (test_free (view_minus Hv _)). lia.
    + rewrite (test_free (view_minus Hv _)). cbn. lia.
    + intros m. cbn. rewrite count_nil. pose proof (linked_tail n rest m Ew) as HH. unfold linked in *. cbn [waiting arrivals set_waiting set_word] in *. lia.
    + intros m Hm. apply Hl. set_solver.
    + by exists y.
  - apply (stage_moves R Hpc); unfold hand_goes, admits; rewrite ?E; destruct (Z.leb_spec need (free (word h))); cbn; try (case_match; done); try done.
    destruct (has CLOSED _); cbn; [done |]. split; [| done]. split; [by exists rest | by exists y].
Qed.

Lemma hand_back_ok b need front : st = DHandBack need front -> holds (drain_step b st h).
Proof using R Hpc.
  intros E. pose proof (here R Hpc) as Hst. destruct (drain_client R Hpc) as (_ & _ & _ & D4 & _).
  pose proof (r_client i c h R) as [C1 C2 _ _ _ _]. pose proof (kont_carries_nonneg k (RawSemaphore.need c) ltac:(lia)).
  pose proof (r_room i c h R). pose proof (r_total i c h R). pose proof (adding_nonneg i c h (r_client i c h R)).
  pose proof (free_ok R). rewrite E in Hst, D4 |- *. cbn in Hst, D4 |- *.
  destruct (view_of (word h)) as (d & yy & q & nn & ha & f & cl & Hv). pose proof (view_plus Hv need ltac:(lia) Hst ltac:(lia)) as Hv'.
  apply (good_stage R Hpc); cbn; rewrite ?E; try done.
  - by rewrite (test_draining Hv'), (test_draining Hv).
  - rewrite (test_free Hv'). lia.
  - rewrite (test_free Hv'). cbn. lia.
  - apply (lists_ok R).
Qed.
End node_stages.

(** ** Giving the role up *)

Lemma gone_view clear s d y q n h f c p :
  (clear = 0 \/ clear = QUEUED \/ clear = HANDOFF \/ clear = Z.lor QUEUED HANDOFF) ->
  view s = Mk d y q n h f c p -> has DRAINING (Z.ldiff s (gone clear)) = false /\ free (Z.ldiff s (gone clear)) = p.
Proof.
  intros Hc Hv. split.
  - rewrite bit_draining, Z.ldiff_spec. enough (Z.testbit (gone clear) 0 = true) as -> by apply andb_false_r.
    unfold gone. by destruct (has QUEUED clear); destruct Hc as [-> | [-> | [-> | ->]]].
  - unfold free, SHIFT. rewrite Z.shiftr_ldiff by done. enough (Z.shiftr (gone clear) 7 = 0) as -> by (rewrite Z.ldiff_0_r; apply (test_free Hv)).
    unfold gone. by destruct (has QUEUED clear); destruct Hc as [-> | [-> | [-> | ->]]].
Qed.

Lemma exit_ok i b c h clear current k seen x :
  ready i c h -> pc c = Draining (DExit clear current) k seen x ->
  stage_good (i := i) (c := c) (k := k) (seen := seen) (x := x) (h := h) (drain_step b (DExit clear current) h).
Proof.
  intros R Hpc. pose proof (here R Hpc) as Hst. cbn in Hst |- *. unfold gives_up. destruct (negb (has _ current)); [| by apply (stage_moves R Hpc)].
  destruct (negb b && _) eqn:E; [| by apply (stage_moves R Hpc)]. apply andb_true_iff in E as [_ <-%Z.eqb_eq]. cbn.
  destruct (view_of (word h)) as (d & y & q & n & ha & f & cl & Hv). destruct (gone_view clear _ _ _ _ _ _ _ _ _ Hst Hv) as [Hd Hf].
  destruct (drain_client R Hpc) as (D1 & D2 & D3 & D4 & D5 & D6 & D7 & D8). pose proof (r_role i c h R) as Hr. rewrite D1 in Hr.
  assert (Hm : moved c (resume k seen x c) (resumes k x (need c))).
  { apply moved_resume; [| apply (my_need R)]. intros Hk. apply (queued_yes R). by rewrite Hpc; cbn; rewrite Hk. }
  assert (Hc : resumes k x (need c) = kont_carries k (need c)) by (destruct k; cbn; rewrite ?D6; done).
  destruct (moved_shares _ _ _ Hm) as (M1 & M2 & M3). pose proof R as [[S1 S2 S3] RC _ _ _ _]. constructor; cbn.
  - constructor; [cbn; by rewrite Hf | done | done].
  - eapply (client_ok_calm i _ h); [done | done |]. by eapply moved_ok.
  - rewrite Hf, (m_carries _ _ _ Hm), Hc, D4. cbn. lia.
  - pose proof (m_adding _ _ _ Hm). lia.
  - rewrite Hd, D1, M1. destruct (has DRAINING (word h)); cbn in *; lia.
  - intros m. rewrite M2, D5. cbn [stage_nodes]. rewrite count_nil. unfold linked. cbn. lia.
  - intros m. unfold owns. rewrite M3, D3. lia.
  - intros j e Hj Hap HC. eapply (client_ok_calm j e h); [done | exact (others_calm Hpc e Hap) | done].
Qed.

(** ** One step of a client *)

Lemma stage_step_ok i b c h st k seen x :
  ready i c h -> pc c = Draining st k seen x ->
  stage_good (i := i) (c := c) (k := k) (seen := seen) (x := x) (h := h) (drain_step b st h).
Proof.
  intros R Hpc. pose proof (marks_ok i b c h st k seen x R Hpc) as H1. pose proof (moves_ok i b c h st k seen x R Hpc) as H2.
  pose proof (fronts_ok i b c h st k seen x R Hpc) as H3. pose proof (lists_move_ok i b c h st k seen x R Hpc) as H4.
  destruct st; try done.
  - by eapply close_payload_ok.
  - by eapply close_grant_ok.
  - by eapply hand_swap_ok.
  - by eapply hand_grant_ok.
  - by eapply hand_back_ok.
  - by eapply nudge_ok.
  - by eapply exit_ok.
  - by eapply let_go_ok.
Qed.

Lemma client_step_ok i b c h : ready i c h -> step_good i c h (client_step i b c h).
Proof.
  intros R. pose proof (spin_ok i b c h R) as H1. pose proof (retry_ok i b c h R) as H2. pose proof (park_spin_ok i b c h R) as H3.
  destruct (pc c) eqn:Hpc; try done.
  - unfold client_step. rewrite Hpc. by left.
  - by eapply take_step_ok.
  - by eapply take_swap_ok.
  - apply take_one_ok; eauto.
  - apply take_one_ok; eauto.
  - by apply enqueue_ok.
  - by eapply push_arrival_ok.
  - by eapply tr_load_ok.
  - by eapply tr_swap_ok.
  - pose proof (stage_step_ok i b c h st k seen x R Hpc) as Hs. destruct (drain_client R Hpc) as (_ & _ & _ & _ & _ & _ & _ & Hh).
    unfold client_step. rewrite Hpc, Hh. unfold exclusive. rewrite bool_decide_eq_true_2 by done. cbn [and_then].
    destruct (drain_step b st h) as [[[st'|] h']|e]; done.
  - by apply park_look_ok.
  - apply owe_ok; eauto.
  - apply owe_ok; eauto.
  - by eapply cancel_ok.
Qed.
