(* ===== verification/RawSemaphoreSpec.v ===== *)
(** * What the shared semaphore promises

    Whatever the clients do and however their steps interleave, as long as there
    are no more permits than it may hold, the permits add up and the structure is
    never used out of turn; and runs in which a waiter or permits are lost. *)

From S2P Require Import Prelude Coop AtomicWaits QueueWord Spin NodeCell RawSemaphore RawSemaphoreWord Sums.
From S2P Require Import RawSemaphoreInv RawSemaphoreCalls RawSemaphoreDrain.
Open Scope Z_scope.

(** The permits a sequence of acts adds. *)
Definition grows (a : Act) : Z := match a with Add _ n => Z.max 0 n | _ => 0 end.
Definition added (l : list Act) : Z := foldr (fun a n => grows a + n) 0 l.

(** All the permits there are, those held, granted or under way included, with
    those some client is about to add. *)
Definition made (s : Sys) : Z := total (shared s) + msum adding (clients s).

(** At each step of a run they, and those the step asks to add, are no more than
    a semaphore may hold. *)
Fixpoint within (l : list Act) (s : Sys) : bool :=
  match l with
  | [] => true
  | a :: l => (made s + grows a <=? MAX) && match act a s with Ok s' => within l s' | Err _ => true end
  end.

Definition act_good (a : Act) (i : nat) (c : Client) (h : Shared) (r : CStep) : Prop :=
  match r with Ok (c', h') => good (grows a) i c h c' h' | Err e => e = Disabled \/ e = Panics /\ overflows c h end.

(** A client in no call carries what it holds. *)
Lemma idle_shares c : is_idle c = true ->
  carries c = held c /\ adding c = 0 /\ is_draining c = 0 /\ own_node c = queued c /\ forall n, links n c = 0.
Proof.
  unfold is_idle, carries, adding, is_draining, own_node, links. destruct (pc c); try done. intros _. cbn.
  repeat split; intros; lia.
Qed.

(** It goes on to [c'], with the same node. *)
Lemma good_begins more i c h c' h' :
  ready i c h -> is_idle c = true -> same_lists h h' -> word h' = word h -> total h' <= total h ->
  0 <= held c' -> 0 <= need c' <= MAX -> (need c' = need c \/ queued c = None) -> queued c' = queued c ->
  quiet (pc c') = true -> (forall b, queued_at (pc c') = Some b -> is_some (queued c') = b) -> pc_ok c' h' ->
  carries c' - total h' = held c - total h -> adding c' <= more ->
  good more i c h c' h'.
Proof.
  intros R Hi Hs Ew Ht Hh Hn Hnn Hq Hqt Hqa Hok Hc Ha. pose proof Hs as [En Ewt Ea Ef Eh].
  destruct (idle_shares c Hi) as (I1 & I2 & I3 & I4 & I5). destruct (quiet_shares c' Hqt) as [Q1 Q2].
  assert (Hl : forall n, links n c' = 0) by (intros n; unfold links; destruct (pc c'); try done; apply count_nil).
  pose proof R as [RS [C1 C2 C3 C4 C5 C6] _ _ _ _]. constructor.
  - eapply shared_ok_ext; [done | done |]. rewrite Ew. apply (h_free h RS).
  - constructor; try done; [| by rewrite Q1]. intros n Hqn. rewrite Hq in Hqn. rewrite En.
    destruct Hnn as [-> | Hnone]; [by apply C5 | congruence].
  - rewrite Ew, En, I1. lia.
  - lia.
  - by rewrite Ew, I3, Q1.
  - intros n. unfold linked. rewrite Ef, Ewt, Ea, Hl, I5. lia.
  - intros n. unfold owns. rewrite Ef, Q2, I4, Hq. lia.
  - intros j d Hj Hap HC. by apply (client_ok_ext j d h).
Qed.

Ltac begins_at Hidle :=
  apply good_begins; try done; unfold pc_ok, carries, adding; cbn; rewrite ?Hidle; cbn; intros; simplify_eq;
  try (by auto); try lia.

Lemma client_act_ok a c h : ready (who a) c h -> act_good a (who a) c h (client_act a c h).
Proof.
  intros R. pose proof (r_client _ _ _ R) as [C1 C2 _ _ _ _].
  destruct a; cbn [client_act who grows act_good]; try (apply client_step_ok; done); unfold if_; case_match; try (by left);
    repeat match goal with H : _ && _ = true |- _ => apply andb_prop in H as [? ?] end;
    (assert (Hidle : pc c = Idle) by (unfold is_idle in *; by destruct (pc c)));
    (assert (Hq : if not_queued c then queued c = None else is_some (queued c) = true) by (unfold not_queued; by destruct (queued c)));
    unfold begins; try (destruct (not_queued c)); try (destruct (Z.eqb_spec n 0)); try done; try (by begins_at Hidle).
  all: begins_at Hidle; first [by rewrite Hq | by split; [lia | congruence]].
Qed.

(** ** Every run *)

Lemma grows_nonneg a : 0 <= grows a.
Proof. destruct a; cbn; lia. Qed.

Lemma added_nonneg l : 0 <= added l.
Proof. unfold added. induction l as [|a l IH]; cbn [foldr]; [lia |]. pose proof (grows_nonneg a). lia. Qed.

Lemma no_overflow i c h : ready i c h -> overflows c h -> False.
Proof.
  intros R (n & k & Hn & Hpc). pose proof (r_room i c h R). pose proof (r_total i c h R) as Ht.
  pose proof (carries_nonneg i c h (r_shared i c h R) (r_client i c h R)).
  unfold adding in Ht. destruct Hpc as [Hpc | (current & x & Hpc)]; rewrite Hpc in Ht; cbn in Ht; lia.
Qed.

Lemma sys_act_inv limit a s :
  inv limit s -> limit <= MAX -> match act a s with Ok s' => inv (limit + grows a) s' | Err e => e = Disabled end.
Proof.
  intros Hi Hl. pose proof (inv_ready limit s (who a) Hi Hl) as R. pose proof (client_act_ok a _ _ R) as Ha.
  unfold act. fold (client_at (who a) s). destruct (client_act a (client_at (who a) s) (shared s)) as [[c h]|e] eqn:E; cbn in Ha |- *.
  - by apply inv_step.
  - destruct Ha as [? | [_ Ho]]; [done |]. by destruct (no_overflow _ _ _ R Ho).
Qed.

(** The tightest limit. *)
Lemma inv_made limit s : inv limit s -> made s <= limit /\ inv (made s) s.
Proof. intros [I1 I2 I3 I4 I5 I6 I7]. split; [done |]. by constructor. Qed.

Lemma sys_acts_inv limit l s :
  inv limit s -> limit <= MAX -> within l s = true ->
  match acts l s with Ok s' => made s' <= MAX /\ inv (limit + added l) s' | Err e => e = Disabled end.
Proof.
  revert limit s. induction l as [|a l IH]; intros limit s Hi Hl Hw.
  - cbn. rewrite Z.add_0_r. split; [| done]. apply inv_made in Hi as [? _]. lia.
  - change (added (a :: l)) with (grows a + added l) in *. cbn [within] in Hw. apply andb_true_iff in Hw as [Hm%Z.leb_le Hw].
    pose proof (grows_nonneg a). destruct (inv_made _ _ Hi) as [Hk Hi']. pose proof (sys_act_inv _ a s Hi' ltac:(lia)) as Ha.
    change (acts (a :: l) s) with (match act a s with Ok s' => acts l s' | Err e => Err e end). destruct (act a s) as [s'|e]; [| done].
    pose proof (IH _ s' Ha Hm Hw) as Hs. destruct (acts l s') as [s2|e]; [| done]. destruct Hs as [? Hs]. split; [done |].
    destruct (inv_made _ _ Hs) as [Hle [I1 I2 I3 I4 I5 I6 I7]]. constructor; try done. unfold made in *. lia.
Qed.

Lemma system_inv spins permits s : system_new spins permits = Some s -> 0 <= permits -> inv permits s.
Proof.
  unfold system_new, semaphore_new. destruct (Z.leb_spec permits MAX) as [Hm|]; [| done]. intros Hs Hp. cbn in Hs. simplify_eq.
  assert (Hf : free (Z.shiftl permits SHIFT) = permits) by (rewrite shiftl_mul; apply (free_add 0)).
  constructor; cbn [shared clients word nodes total fresh]; rewrite ?Hf, ?msum_empty; try lia; try done.
  - constructor; cbn; [by rewrite Hf | done | by intros n ?%elem_of_nil].
  - assert (has DRAINING (Z.shiftl permits SHIFT) = false) as ->; [| done]. rewrite bit_draining. by rewrite Z.shiftl_spec_low.
Qed.

Lemma new_bound spins permits s : system_new spins permits = Some s -> permits <= MAX.
Proof. unfold system_new, semaphore_new. by destruct (Z.leb_spec permits MAX). Qed.

(** ** What is promised *)

(** The shares of two different clients. *)
Lemma inv_two limit s i j c d :
  inv limit s -> i <> j -> clients s !! i = Some c -> clients s !! j = Some d ->
  held c + held d + free (word (shared s)) + msum cell_carries (nodes (shared s)) <= total (shared s).
Proof.
  intros Hi Hne Hc Hd. pose proof (i_shared _ s Hi) as Hh. pose proof (i_sum _ s Hi). pose proof (nodes_sum_nonneg _ Hh).
  assert (carries c + carries d <= msum carries (clients s)).
  { apply (msum_two carries _ i j); [| done..]. intros k e He. eapply carries_nonneg; [done |]. by eapply i_clients. }
  pose proof (under_way_nonneg i c _ Hh (i_clients _ s Hi i c Hc)). pose proof (under_way_nonneg j d _ Hh (i_clients _ s Hi j d Hd)).
  unfold carries, under_way in *. lia.
Qed.

Lemma inv_one_drains limit s i j c d :
  inv limit s -> clients s !! i = Some c -> clients s !! j = Some d -> is_draining c = 1 -> is_draining d = 1 -> i = j.
Proof.
  intros Hi Hc Hd H1 H2. pose proof (c_role i c _ (i_clients _ s Hi i c Hc) H1). pose proof (c_role j d _ (i_clients _ s Hi j d Hd) H2).
  congruence.
Qed.

(** C16. The shared semaphore keeps its books whatever its clients do and
    however their steps interleave, as long as all the permits there are, those
    held included, and those being added come to no more than a semaphore may
    hold ([within]): no call panics, frees a node in use or enters the list out
    of turn; the word stays a machine word; free permits, permits granted and
    not collected, permits held and permits under way come to all there are,
    which are at most those it began with and those added; and one thread drains
    at a time. [add] itself checks the free permits alone; beyond that bound it
    panics, or permits are lost, as a run below shows. *)
Theorem shared_semaphore_accounts spins permits s0 l :
  system_new spins permits = Some s0 -> 0 <= permits -> within l s0 = true ->
  match acts l s0 with
  | Ok s =>
      let h := shared s in
      0 <= word h < u64_size /\
      free (word h) + msum cell_carries (nodes h) + msum held (clients s) + msum under_way (clients s) = total h /\
      0 <= free (word h) /\ 0 <= msum cell_carries (nodes h) /\ 0 <= msum under_way (clients s) /\
      total h <= MAX /\ total h <= permits + added l /\
      (forall i c, clients s !! i = Some c -> 0 <= held c) /\
      (forall i j c d, clients s !! i = Some c -> clients s !! j = Some d -> is_draining c = 1 -> is_draining d = 1 -> i = j)
  | Err e => e = Disabled
  end.
Proof.
  intros Hs Hp Hl. pose proof (sys_acts_inv permits l s0 (system_inv _ _ _ Hs Hp) (new_bound _ _ _ Hs) Hl) as Ha.
  destruct (acts l s0) as [s|e]; [| done]. cbn. destruct Ha as [Hm Ha]. unfold made in Hm. pose proof Ha as [I1 I2 I3 I4 I5 I6 I7].
  rewrite (msum_add held under_way carries (clients s)) in I3 by done.
  assert (0 <= msum held (clients s)) by (apply msum_nonneg; intros i c Hc; by apply (c_held i c (shared s)), I2).
  assert (0 <= msum under_way (clients s)) by (apply msum_nonneg; intros i c Hc; eapply under_way_nonneg; [done | by apply I2]).
  assert (0 <= msum adding (clients s)) by (apply msum_nonneg; intros i c Hc; eapply adding_nonneg; by apply I2).
  pose proof (nodes_sum_nonneg _ I1). pose proof (h_free _ I1). split; [apply word_range; lia |].
  repeat split; try lia; try done.
  - intros i c Hc. by apply (c_held i c (shared s)), I2.
  - intros i j c d Hc Hd. exact (inv_one_drains _ s i j c d Ha Hc Hd).
Qed.

(** ** A run *)

(** A call and its steps. *)
Definition call (a : Act) (steps : nat) : list Act := a :: replicate steps (StepOf (who a) false).

(** Three clients at a semaphore of two permits: the third waits, and is served
    once the first releases. *)
Definition served : list Act :=
  call (TryAcquire 1 1) 2 ++ call (TryAcquire 2 1) 2 ++ [Acquire 3 1] ++ call (PollAcquire 3 7 10) 22 ++
  call (Release 1 1) 20 ++ call (PollAcquire 3 7 10) 25.

(** Then a client adds two permits, and another forgets one. *)
Definition grown : list Act := served ++ call (Add 4 2) 2 ++ call (Forget 5 1) 2.

Definition two_permits : Sys :=
  {| shared := {| word := 256; arrivals := []; owed := 0; cancels := 0; spin := NEVER; waiting := []; swept := 0; nodes := ∅;
                  fresh := 0; holder := None; total := 2 |};
     clients := ∅ |}.

Definition after (l : list Act) : Sys := match acts l two_permits with Ok s => s | Err _ => two_permits end.

Lemma shared_semaphore_accounts_witness :
  acts grown two_permits = Ok (after grown) /\ held (client_at 3 (after grown)) = 1 /\ total (shared (after grown)) = 3 /\
  match acts grown two_permits with
  | Ok s => msum held (clients s) <= 4
  | Err e => e = Disabled
  end.
Proof.
  do 3 (split; [vm_compute; reflexivity |]).
  assert (E : acts grown two_permits = Ok (after grown)) by (vm_compute; reflexivity).
  pose proof (shared_semaphore_accounts false 2 two_permits grown ltac:(vm_compute; reflexivity) ltac:(lia) ltac:(vm_compute; reflexivity)) as H.
  rewrite E in H |- *. destruct H as (_ & Hs & H0 & H1 & H2 & _ & Ht & _). change (added grown) with 2 in Ht. lia.
Defined.

(** C18. A client that holds all the permits there are, whatever was added and
    forgotten within the bound, excludes the rest: nobody else holds any, none
    is free, and none is on its way to a waiter. So with one permit, as in a
    mutex, one holder at most. *)
Theorem shared_lock_excludes spins permits s0 l s i j c d :
  system_new spins permits = Some s0 -> 0 <= permits -> within l s0 = true -> acts l s0 = Ok s ->
  i <> j -> clients s !! i = Some c -> clients s !! j = Some d ->
  held c = total (shared s) ->
  held d = 0 /\ free (word (shared s)) = 0 /\ msum cell_carries (nodes (shared s)) = 0.
Proof.
  intros Hs Hp Hl Ha Hne Hc Hd Hheld.
  pose proof (sys_acts_inv permits l s0 (system_inv _ _ _ Hs Hp) (new_bound _ _ _ Hs) Hl) as Hi. rewrite Ha in Hi. destruct Hi as [_ Hi].
  pose proof (inv_two _ s i j c d Hi Hne Hc Hd). pose proof (h_free _ (i_shared _ s Hi)).
  pose proof (c_held j d _ (i_clients _ s Hi j d Hd)). pose proof (nodes_sum_nonneg _ (i_shared _ s Hi)). lia.
Qed.

(** A permit is added; client 1 takes all three; client 2 asks and gets none. *)
Definition all_taken : list Act := call (Add 2 1) 2 ++ call (TryAcquire 1 3) 2 ++ call (TryAcquire 2 1) 1.

Lemma shared_lock_excludes_witness :
  held (client_at 1 (after all_taken)) = 3 /\
  held (client_at 2 (after all_taken)) = 0 /\ free (word (shared (after all_taken))) = 0 /\
  msum cell_carries (nodes (shared (after all_taken))) = 0.
Proof.
  split; [vm_compute; reflexivity |].
  refine (shared_lock_excludes false 2 two_permits all_taken (after all_taken) 1 2 (client_at 1 (after all_taken)) (client_at 2 (after all_taken)) _ _ _ _ _ _ _ _);
    try (vm_compute; reflexivity); [vm_compute; discriminate | done].
Defined.

(** ** The mutex's first look *)

Lemma one_admitted s d y q n h f c :
  0 <= s -> view s = Mk d y q n h f c (free s) ->
  (s =? ONE) || (ONE <=? s) && negb (has (Z.lor HANDOFF CLOSED) s) = (1 <=? free s) && negb c && negb h.
Proof.
  intros Hs Hv. rewrite (test_barred Hv).
  assert (E : (ONE <=? s) = (1 <=? free s)).
  { apply eq_true_iff_eq. rewrite !Z.leb_le. pose proof (word_split s). pose proof (Z.mod_pos_bound s 128 ltac:(done)). unfold ONE. lia. }
  rewrite E. destruct (Z.eqb_spec s ONE) as [-> |]; cbn [orb].
  - injection Hv. intros. subst. done.
  - destruct (1 <=? free s), c, h; done.
Qed.

(** C36. The attempt a mutex makes before the general one is that attempt for
    one permit: on every state it swaps exactly when the general one would, to
    the same state, and goes on alike when it loses. *)
Theorem take_one_is_take me b c h :
  pc c = TakeOneLoad -> 0 <= word h ->
  client_step me b c h =
    Ok (match pc (take_goes First 1 (word h) c) with
        | TakeSwap First _ seen => at_ (TakeOneSwap seen) c
        | _ => take_goes First 1 (word h) c
        end, h) /\
  forall h' seen, client_step me b (at_ (TakeOneSwap seen) c) h' = client_step me false (at_ (TakeSwap First 1 seen) c) h'.
Proof.
  intros Hpc Hw. split.
  - open_step. rewrite Hpc. unfold take_goes, admits, attempt_lost, ends_closed, closed_in. destruct (spend (waker c) (thread c)) as [ok t].
    destruct (view_of (word h)) as (d & y & q & n & ha & f & cl & Hv). pose proof (one_admitted _ _ _ _ _ _ _ _ Hw Hv) as E.
    rewrite E, (test_handoff Hv), (test_closed Hv). destruct (1 <=? free (word h)), cl, ha; done.
  - intros h' seen. cbn. unfold minus, SHIFT, ONE. by destruct (word h' =? seen).
Qed.

Lemma take_one_is_take_witness :
  exists c', client_step 0 false (at_ TakeOneLoad client_new) (shared two_permits) = Ok (c', shared two_permits) /\ pc c' = TakeOneSwap 256.
Proof.
  eexists. split; [refine (proj1 (take_one_is_take 0 false (at_ TakeOneLoad client_new) (shared two_permits) _ _)); [done | by vm_compute] |].
  vm_compute. reflexivity.
Defined.

(** ** A waiter left behind *)

(** Client 0 is nudged and loses again and again, until its next loss is owed. *)
Definition round (x y : nat) : list Act :=
  call (Release x 1) 20 ++ call (TryAcquire y 1) 2 ++ call (PollAcquire 0 7 100) 5.
Definition passed_over : list Act :=
  call (TryAcquire 1 1) 2 ++ call (TryAcquire 2 1) 2 ++ [Acquire 0 1] ++ call (PollAcquire 0 7 100) 22 ++
  concat (replicate 7 (round 1 3 ++ round 3 1)) ++ round 1 3.

(** It is nudged once more as it makes that attempt, raises the handoff bit and
    is handed a permit: its nudge is still out, and nobody is queued. *)
Definition granted_while_nudged : list Act :=
  call (Release 3 1) 20 ++ call (PollAcquire 0 7 100) 2 ++ call (TryAcquire 1 1) 2 ++ call (Release 2 1) 20 ++
  call (TryAcquire 2 1) 2 ++ replicate 19 (StepOf 0 false) ++ call (Release 1 1) 23.

(** Client 5 queues; client 2 releases, and finds the nudge out; client 0
    collects its grant and takes the marker back. *)
Definition left_behind : list Act :=
  [Acquire 5 1] ++ call (PollAcquire 5 9 100) 22 ++ call (Release 2 1) 1 ++ replicate 2 (StepOf 0 false).

Definition stalled : list Act := passed_over ++ granted_while_nudged ++ left_behind.

(** C39. A waiter can be left asleep beside a free permit: a release skips its
    pass because a nudge is out, the nudge belongs to a waiter that was granted
    meanwhile, and that waiter takes the marker back without looking again.
    Nobody is in a call, a permit is free, and the only waiter, which asks for
    one, is neither nudged nor granted. *)
Theorem waiter_left_beside_a_free_permit :
  exists l s0 s n x,
    system_new false 2 = Some s0 /\ acts l s0 = Ok s /\
    forallb (fun '(_, c) => is_idle c) (map_to_list (clients s)) = true /\
    free (word (shared s)) = 1 /\ closed_in (word (shared s)) = false /\ waiting (shared s) = [n] /\
    queued (client_at 5 s) = Some n /\ need (client_at 5 s) = 1 /\
    nodes (shared s) !! n = Some x /\ is_waiting x = true /\ nudged x = false.
Proof.
  exists stalled, two_permits, (after stalled), 1%nat, (default (cell_new 0) (nodes (shared (after stalled)) !! 1%nat)).
  do 10 (split; [vm_compute; reflexivity |]). vm_compute. reflexivity.
Qed.

(** ** Permits lost *)

Definition one_permit : Sys :=
  {| shared := {| word := 128; arrivals := []; owed := 0; cancels := 0; spin := NEVER; waiting := []; swept := 0; nodes := ∅;
                  fresh := 0; holder := None; total := 1 |};
     clients := ∅ |}.

(** Client 1 takes the permit; client 2 adds as many as a semaphore may hold;
    client 1 gives its permit back. *)
Definition carried_out : list Act := call (TryAcquire 1 1) 2 ++ call (Add 2 MAX) 2 ++ call (Release 1 1) 1.

Definition spilt : Sys := match acts carried_out one_permit with Ok s => s | Err _ => one_permit end.

(** C40. Added permits can be lost: [add] compares the free permits alone with
    the most a semaphore holds, so it accepts permits beside those that are
    held, and the release of a held one carries out of the word. Nobody holds a
    permit, and of all that were made none is free. *)
Theorem release_loses_added_permits :
  exists l s0 s,
    system_new false 1 = Some s0 /\ acts l s0 = Ok s /\
    forallb (fun '(_, c) => is_idle c && (held c =? 0)) (map_to_list (clients s)) = true /\
    total (shared s) = MAX + 1 /\ msum cell_carries (nodes (shared s)) = 0 /\ free (word (shared s)) = 0.
Proof.
  exists carried_out, one_permit, spilt. do 5 (split; [vm_compute; reflexivity |]). vm_compute. reflexivity.
Qed.
