(* ===== verification/RawSemaphoreWakes.v ===== *)
(** * Who wakes the waiters of a mutex

    The shared semaphore with one permit: while the permit is free and somebody
    waits, a waiter was nudged, or retries, or a pass over the list is due. The
    invariant sees of each client its part in this ([Role]), and of the shared
    state the bits and the permits of the word, the nodes and the two lists, so
    that a step of a client is one of a few kinds ([W_take], [W_claim], ...). *)

From S2P Require Import Prelude Coop AtomicWaits QueueWord Spin NodeCell RawSemaphore RawSemaphoreWord Sums.
From S2P Require Import RawSemaphoreInv RawSemaphoreCalls RawSemaphoreDrain.
Open Scope Z_scope.

(** ** The part of a client *)

(** None; it publishes a node, or is about to say so; it withdrew, and is about
    to say so; it is about to ask for a pass; it retries; it was nudged, or
    granted, and is about to take the marker back; it drains. *)
Inductive Role : Type :=
| RNone
| RPush (n : nat)
| REnqueue
| RWithdraw
| RPass
| RRetry
| RConsume
| RTakes
| RDrain (st : Stage).

Definition tr_role (tr : Tr) : Role :=
  match tr with
  | TEnqueue => REnqueue
  | TWithdrawn _ => RWithdraw
  | TReleased | TPass => RPass
  | TOwe _ => RRetry
  | TAdd _ | TClose => RNone
  end.

(** The stage of a drain, once it has let go of what it is at. *)
Fixpoint ahead (st : Stage) : Stage := match st with DRelease _ next | DForgive next => ahead next | _ => st end.

Definition role (pc : Pc) : Role :=
  match pc with
  | Push n _ => RPush n
  | TrLoad tr _ | TrSwap tr _ _ _ => tr_role tr
  | CancelCount _ _ => RWithdraw
  | TakeLoad Retry _ | TakeSwap Retry _ _ | OweCount | OweMark => RRetry
  | Consume None => RConsume
  | Consume (Some _) | CancelConsume _ _ => RTakes
  | Draining st _ _ _ => RDrain (ahead st)
  | _ => RNone
  end.

Definition enqueuing (r : Role) : bool := match r with RPush _ | REnqueue => true | _ => false end.
(** A pass comes of it. *)
Definition bound (r : Role) : bool := match r with RPush _ | REnqueue | RWithdraw | RPass => true | _ => false end.
Definition in_hand (r : Role) (n : nat) : Prop :=
  match r with RPush m => n = m | RDrain st => n ∈ stage_nodes st | _ => False end.

(** ** The stages of a pass *)

Definition fresh_pass (st : Stage) : bool := match st with DClear | DTake _ => true | _ => false end.

(** It found nobody queued. *)
Definition found_none (st : Stage) : bool :=
  match st with DOwed clear | DExitLoad clear | DExit clear _ => has QUEUED clear | _ => false end.

(** It raised the marker, and no nudge of it is out. *)
Definition unsent (st : Stage) : bool :=
  match st with DNudge _ _ _ sent _ => negb sent | DNudges _ _ _ raised sent _ => raised && negb sent | DLower => true | _ => false end.

Definition waits (ns : gmap nat Cell) (n : nat) : Prop := exists x, ns !! n = Some x /\ phase x = Waiting.

(** It has its look at the permits ahead, or will nudge a waiter for sure. *)
Definition early (ha : bool) (ns : gmap nat Cell) (st : Stage) : Prop :=
  match st with
  | DClear | DTake _ | DAbsorb _ _ | DTidy _ | DSweep _ _ _ | DClosed _ | DHandoff _ | DHandFront _ | DHandLoad _ _ _
  | DHandSwap _ _ _ _ | DHandGrant _ _ _ | DHandBack _ _ => True
  | DAsk _ | DNudgeFront _ | DBudget _ => ha = false
  | DNudges _ rest budget raised _ _ => ha = false /\ raised = false /\ 1 <= budget /\ exists n, n ∈ rest /\ waits ns n
  | DRaise n _ _ _ _ | DNudge n _ _ _ _ => ha = false /\ waits ns n
  | _ => False
  end.

(** ** The invariant *)

Section wakes.
Context (A : Role -> Prop) (ns : gmap nat Cell) (wt ar : list nat).

(** A withdrawal that the pass under way will be told of, or was. *)
Definition told (di : bool) : Prop := di = true \/ A RWithdraw.

Definition nudging_ok (di : bool) (st : Stage) : Prop :=
  match st with
  | DNudges _ rest _ raised sent _ => rest ⊆ wt /\ (raised = false -> sent = false) /\ (raised = true -> sent = false -> told di)
  | DRaise n rest _ sent _ => n ∈ wt /\ rest ⊆ wt /\ sent = false /\ (waits ns n \/ told di)
  | DNudge n rest _ _ _ => n ∈ wt /\ rest ⊆ wt /\ (waits ns n \/ told di)
  | DLower => told di
  | DCloseFront | DClosePayload _ | DCloseGrant _ => False
  | _ => True
  end.

(** Whose nudge the marker stands for. *)
Definition marked_by : Prop :=
  (exists n x, ns !! n = Some x /\ (phase x = Waiting /\ nudged x = true \/ phase x = Granted /\ held_by_future x = true)) \/
  A RConsume \/ A RTakes \/ A RWithdraw \/ exists st, A (RDrain st) /\ unsent st = true.

(** Why a free permit does not stay beside a waiter. While a handoff is owed
    only a pass helps. *)
Definition due (di ha fr : bool) : Prop :=
  (ha = false /\ ((exists n x, ns !! n = Some x /\ phase x = Waiting /\ nudged x = true) \/ A RRetry \/ A RConsume)) \/
  (exists st, A (RDrain st) /\ (di = true \/ (fr = true /\ found_none st = false) \/ early ha ns st)) \/
  (exists r, A r /\ bound r = true).

Record W (v : View) : Prop := {
  w_closed : let 'Mk _ _ _ _ _ _ cl _ := v in cl = false;
  w_pay : forall n x, ns !! n = Some x -> payload x = 1;
  w_place : forall n, waits ns n -> n ∈ wt \/ n ∈ ar \/ exists r, A r /\ in_hand r n;
  w_queued : let 'Mk _ _ qu _ _ _ _ _ := v in (exists n, waits ns n) -> qu = true \/ exists r, A r /\ enqueuing r = true;
  w_arrived : let 'Mk _ di _ _ _ _ _ _ := v in
    ar <> [] -> (exists r, A r /\ enqueuing r = true) \/ exists st, A (RDrain st) /\ (di = true \/ fresh_pass st = true);
  w_none : forall st, A (RDrain st) -> found_none st = true -> wt = [];
  w_nudging : let 'Mk _ di _ _ _ _ _ _ := v in forall st, A (RDrain st) -> nudging_ok di st;
  w_marks : let 'Mk _ _ _ nu _ _ _ _ := v in nu = true -> marked_by;
  w_due : let 'Mk _ di _ _ ha fr _ p := v in p = 1 -> (exists n, waits ns n) -> due di ha fr }.
End wakes.

Arguments W : clear implicits.

(** The parts of the others and of one. *)
Definition and_ (E : Role -> Prop) (r : Role) : Role -> Prop := fun x => E x \/ x = r.

(** ** Kinds of steps *)

Lemma nudging_ok_mono (A A' : Role -> Prop) ns wt di di' st :
  (A RWithdraw -> di' = true \/ A' RWithdraw) -> (di = true -> di' = true) -> nudging_ok A ns wt di st -> nudging_ok A' ns wt di' st.
Proof.
  intros HA Hd. assert (Ht : told A di -> told A' di') by (unfold told; tauto). destruct st; cbn; try done; try tauto.
Qed.

Lemma some_mono (A A' : Role -> Prop) (P : Role -> Prop) :
  (forall r, r <> RNone -> A r -> A' r) -> ~ P RNone -> (exists r, A r /\ P r) -> exists r, A' r /\ P r.
Proof. intros HA HP (r & Hr & Hp). exists r. split; [| done]. apply HA; [by intros -> | done]. Qed.

Section kinds.
Context {E : Role -> Prop} {ns : gmap nat Cell} {wt ar : list nat}.

(** More parts, and no other drain. *)
Lemma W_more A A' v :
  (forall r, r <> RNone -> A r -> A' r) -> (forall st, A' (RDrain st) -> A (RDrain st)) -> W A ns wt ar v -> W A' ns wt ar v.
Proof.
  intros HA Hd. destruct v. intros [H1 H2 H3 H4 H5 H6 H7 H8 H9].
  pose proof (fun P => some_mono A A' P HA) as Hs.
  assert (Hst : forall P : Stage -> Prop, (exists st, A (RDrain st) /\ P st) -> exists st, A' (RDrain st) /\ P st).
  { intros P (st & Hr & Hp). exists st. split; [by apply HA | done]. }
  constructor; try done.
  - intros m Hm. destruct (H3 m Hm) as [? | [? | Hr]]; auto.
  - intros Hm. destruct (H4 Hm) as [? | Hr]; auto.
  - intros Ha. destruct (H5 Ha) as [Hr | Hr]; auto.
  - intros st Hr Hf. apply (H6 st); auto.
  - intros st Hr. apply (nudging_ok_mono A A' ns wt di di); auto.
  - intros Hn. destruct (H8 Hn) as [? | [? | [? | [? | Hr]]]]; unfold marked_by; auto 10.
  - intros Hp Hm. destruct (H9 Hp Hm) as [[Hha [? | [? | ?]]] | [Hr | Hr]]; unfold due; auto 10.
Qed.

Lemma W_same r v : W (and_ E RNone) ns wt ar v -> bound r = false -> (forall st, r <> RDrain st) -> W (and_ E r) ns wt ar v.
Proof. intros HW Hb Hd. eapply W_more; [| | done]; unfold and_; naive_solver. Qed.

(** The word changes: permits are taken, the marker falls. *)
Lemma W_word A d y q n h f c p n' p' :
  (n' = true -> n = true) -> (p' = 1 -> p = 1) -> W A ns wt ar (Mk d y q n h f c p) -> W A ns wt ar (Mk d y q n' h f c p').
Proof. intros Hn Hp [H1 H2 H3 H4 H5 H6 H7 H8 H9]. constructor; auto. Qed.
End kinds.

Definition retrying (r : Role) : bool := match r with RRetry | RConsume => true | _ => false end.
Definition drains (r : Role) : bool := match r with RDrain _ => true | _ => false end.
(** The marker may stand for it. *)
Definition marking (r : Role) : bool := match r with RConsume | RTakes | RWithdraw => true | _ => false end.

Section parts.
Context {E : Role -> Prop} {ns : gmap nat Cell}.

(** What one part did, another does. *)
Lemma some_part (P P' : Role -> Prop) r r' :
  (P r -> P' r') -> (forall x, E x -> P x -> P' x) -> (exists x, and_ E r x /\ P x) -> exists x, and_ E r' x /\ P' x.
Proof. intros Hr HE (x & [Hx | ->] & Hp); [exists x; split; [by left | by apply HE] | exists r'; split; [by right | by apply Hr]]. Qed.

Lemma some_drain (P : Stage -> Prop) r r' :
  drains r = false -> (exists st, and_ E r (RDrain st) /\ P st) -> exists st, and_ E r' (RDrain st) /\ P st.
Proof. intros Hr (st & [Hx | <-] & Hp); [| done]. exists st. split; [by left | done]. Qed.

Lemma marked_part r r' :
  drains r = false -> (marking r = true -> marking r' = true) -> marked_by (and_ E r) ns -> marked_by (and_ E r') ns.
Proof.
  intros Hd Hm [H | [H | [H | [H | H]]]]; [by left | | | | do 4 right; by apply (some_drain _ r)];
    destruct H as [H | <-]; try (unfold marked_by, and_; by auto 8); specialize (Hm eq_refl); destruct r'; try done; unfold marked_by, and_; auto 8.
Qed.

Lemma due_part r r' y h f :
  drains r = false -> (h = false -> retrying r = true -> retrying r' = true) -> (bound r = true -> bound r' = true) ->
  due (and_ E r) ns y h f -> due (and_ E r') ns y h f.
Proof.
  intros Hd Hr Hb [[Hh H] | [H | H]].
  - left. split; [done |]. destruct H as [H | [H | H]]; [by left | |]; (destruct H as [H | <-]; [right; unfold and_; by auto |]);
      specialize (Hr Hh eq_refl); destruct r'; try done; right; unfold and_; auto.
  - right; left. by apply (some_drain _ r).
  - right; right. revert H. by apply some_part.
Qed.

Lemma due_bound r y h f : bound r = true -> due (and_ E r) ns y h f.
Proof. intros Hb. right; right. exists r. split; [by right | done]. Qed.

Lemma due_dirty r st h f : E (RDrain st) -> due (and_ E r) ns true h f.
Proof. intros Hb. right; left. exists st. split; [by left | by left]. Qed.
End parts.

(** ** Steps of a client that does not drain *)

Section kinds.
Context {E : Role -> Prop} {ns : gmap nat Cell} {wt ar : list nat}.

(** The word changes and one part, and no list or node. *)
Lemma W_step r r' d y q n h f c p d' y' q' n' h' f' p' :
  W (and_ E r) ns wt ar (Mk d y q n h f c p) -> drains r = false -> (drains r' = true -> r' = RDrain DClear) ->
  (forall m, in_hand r m -> in_hand r' m) ->
  (q = true -> q' = true) -> (y = true -> y' = true) ->
  (enqueuing r = true -> enqueuing r' = true \/ (q' = true /\ exists st, and_ E r' (RDrain st) /\ (y' = true \/ fresh_pass st = true))) ->
  (r = RWithdraw -> y' = true \/ r' = RWithdraw \/ forall st, ~ E (RDrain st)) ->
  (n' = true -> n = true /\ (marking r = true -> marking r' = true)) ->
  (p' = 1 -> (exists m, waits ns m) -> due (and_ E r') ns y' h' f') ->
  W (and_ E r') ns wt ar (Mk d' y' q' n' h' f' c p').
Proof.
  intros [H1 H2 H3 H4 H5 H6 H7 H8 H9] Hd Hd' Hh Hq Hy He Hw Hn Hdue. constructor; try done.
  - intros m Hm. destruct (H3 m Hm) as [? | [? | Hr]]; auto. right; right. revert Hr. by apply some_part; [apply Hh |].
  - intros Hm. destruct (H4 Hm) as [? | (x & [Hx | ->] & Hx')]; [auto | |].
    + right. exists x. split; [by left | done].
    + destruct (He Hx') as [? | [? _]]; [right; exists r'; split; [by right | done] | by left].
  - intros Ha. destruct (H5 Ha) as [(x & [Hx | ->] & Hx') | Hst].
    + left. exists x. split; [by left | done].
    + destruct (He Hx') as [? | [_ ?]]; [left; exists r'; split; [by right | done] | by right].
    + right. destruct (some_drain _ r r' Hd Hst) as (st & Hs & Hs'). exists st. split; [done |]. tauto.
  - intros st [Hs | <-] Hf; [| by specialize (Hd' eq_refl); simplify_eq]. apply (H6 st); [by left | done].
  - intros st [Hs | <-]; [| by specialize (Hd' eq_refl); simplify_eq]. eapply nudging_ok_mono; [| exact Hy | apply H7; by left].
    intros [Hx | <-]; [right; by left |]. destruct (Hw eq_refl) as [? | [-> | Hno]]; [by left | right; by right | by destruct (Hno st)].
  - intros Hn'. destruct (Hn Hn') as [-> Hm]. apply (marked_part r); auto.
Qed.

(** A retry ends: it took, it lost to a handoff, or nothing was free. *)
Lemma W_retried d y q n h f c p p' :
  (p' = 1 -> p = 1 /\ h = true) ->
  W (and_ E RRetry) ns wt ar (Mk d y q n h f c p) -> W (and_ E RNone) ns wt ar (Mk d y q n h f c p').
Proof.
  intros Hp HW. apply (W_step RRetry RNone d y q n h f c p); try done. intros [-> ->]%Hp Hm.
  apply (due_part RRetry RNone); try done. by apply (w_due _ _ _ _ _ HW).
Qed.

(** The marker is taken back, by who was nudged and by who was granted. *)
Lemma W_consumed d y q n h f c p :
  W (and_ E RConsume) ns wt ar (Mk d y q n h f c p) -> W (and_ E RRetry) ns wt ar (Mk d y q false h f c p).
Proof.
  intros HW. apply (W_step RConsume RRetry d y q n h f c p); try done. intros -> Hm.
  apply (due_part RConsume RRetry); try done. by apply (w_due _ _ _ _ _ HW).
Qed.

Lemma W_collected d y q n h f c p :
  W (and_ E RTakes) ns wt ar (Mk d y q n h f c p) -> W (and_ E RNone) ns wt ar (Mk d y q false h f c p).
Proof.
  intros HW. apply (W_step RTakes RNone d y q n h f c p); try done. intros -> Hm.
  apply (due_part RTakes RNone); try done. by apply (w_due _ _ _ _ _ HW).
Qed.

(** A release that asks for a pass. *)
Lemma W_releases d y q n h f c p p' :
  W (and_ E RNone) ns wt ar (Mk d y q n h f c p) -> W (and_ E RPass) ns wt ar (Mk d y q n h f c p').
Proof. intros HW. apply (W_step RNone RPass d y q n h f c p); try done. intros _ _. by apply due_bound. Qed.

(** A release that sees a nudge out, or nobody queued. *)
Lemma W_frees d y q n h f c p p' :
  q && (negb n || h) = false -> ~ E RTakes -> (forall m x, ns !! m = Some x -> ~ (phase x = Granted /\ held_by_future x = true)) ->
  W (and_ E RNone) ns wt ar (Mk d y q n h f c p) -> W (and_ E RNone) ns wt ar (Mk d y q n h f c p').
Proof.
  intros Hw Ht Hg HW. apply (W_step RNone RNone d y q n h f c p); try done. intros _ Hm.
  destruct (w_queued _ _ _ _ _ HW Hm) as [-> | (r & Hr & He)].
  2: { right; right. exists r. split; [done |]. by destruct r. }
  assert (n = true /\ h = false) as [-> ->] by (destruct n, h; done).
  destruct (w_marks _ _ _ _ _ HW eq_refl) as [(m & x & Hx & [Hn | Hn]) | [Hr | [[Hr | ?] | [Hr | (st & Hr & Hu)]]]]; try done.
  - left. split; [done |]. left. by exists m, x.
  - by destruct (Hg m x Hx).
  - left. split; [done |]. by right; right.
  - right; right. by exists RWithdraw.
  - pose proof (w_nudging _ _ _ _ _ HW st Hr) as Hk.
    assert (Hw' : told (and_ E RNone) y -> due (and_ E RNone) ns y false f).
    { intros [-> | Hx]; [right; left; exists st; auto | right; right; by exists RWithdraw]. }
    destruct st; try done; cbn in Hu, Hk.
    + apply Hw', Hk; destruct raised, sent; done.
    + destruct Hk as (_ & _ & [Hwait | ?]); [| auto]. right; left. eexists. split; [exact Hr |]. right; right. done.
    + auto.
Qed.
End kinds.

Lemma enqueuing_bound r : enqueuing r = true -> bound r = true.
Proof. by destruct r. Qed.

(** With an empty list and nothing in the hands of the pass, whoever waits has
    just come. *)
Lemma W_nobody A ns ar d y q n h f c p :
  W A ns [] ar (Mk d y q n h f c p) ->
  (forall st, A (RDrain st) -> fresh_pass st = false /\ stage_nodes st = []) -> (exists m, waits ns m) ->
  (exists r, A r /\ enqueuing r = true) \/ exists st, A (RDrain st) /\ y = true.
Proof.
  intros HW Hst [m Hm].
  destruct (w_place _ _ _ _ _ HW m Hm) as [?%elem_of_nil | [Ha | (r & Hr & Hh)]]; [done | |].
  - destruct (w_arrived _ _ _ _ _ HW) as [? | (st & Hs & [? | Hf])]; [intros ->; by apply elem_of_nil in Ha | auto | eauto |].
    destruct (Hst st Hs) as [Hf' _]. congruence.
  - destruct r; try done; [left; eauto |]. destruct (Hst st Hr) as [_ Hn]. cbn in Hh. rewrite Hn in Hh. by apply elem_of_nil in Hh.
Qed.

Section transitions.
Context {E : Role -> Prop} {ns : gmap nat Cell} {wt ar : list nat}.

(** A transition that claims the role. *)
Lemma W_claims r d y q n h f c p d' q' n' h' f' :
  W (and_ E r) ns wt ar (Mk d y q n h f c p) -> match r with REnqueue | RWithdraw | RPass | RRetry => True | _ => False end ->
  (forall st, ~ E (RDrain st)) -> (q = true -> q' = true) -> (enqueuing r = true -> q' = true) -> (n' = true -> n = true /\ r <> RWithdraw) ->
  W (and_ E (RDrain DClear)) ns wt ar (Mk d' y q' n' h' f' c p).
Proof.
  intros HW Hr Hno Hq He Hn. apply (W_step r (RDrain DClear) d y q n h f c p); try done; try (by destruct r); auto.
  - intros Hx. right. split; [auto |]. exists DClear. split; [by right | by right].
  - intros Hn'. destruct (Hn Hn') as [? ?]. split; [done |]. by destruct r.
  - intros _ _. right; left. exists DClear. split; [by right |]. by right; right.
Qed.

(** A transition that leaves the pass to the holder of the role. *)
Lemma W_dirties r st d y q n h f c p d' q' n' h' f' :
  W (and_ E r) ns wt ar (Mk d y q n h f c p) -> match r with REnqueue | RWithdraw | RPass | RRetry => True | _ => False end ->
  E (RDrain st) -> (q = true -> q' = true) -> (enqueuing r = true -> q' = true) -> (n' = true -> n = true /\ r <> RWithdraw) ->
  W (and_ E RNone) ns wt ar (Mk d' true q' n' h' f' c p).
Proof.
  intros HW Hr Hst Hq He Hn. apply (W_step r RNone d y q n h f c p); try done; try (by destruct r); auto.
  - intros Hx. right. split; [auto |]. exists st. split; [by left | by left].
  - intros Hn'. destruct (Hn Hn') as [? ?]. split; [done |]. by destruct r.
  - intros _ _. by eapply due_dirty.
Qed.

(** A release that leaves its request with the holder. *)
Lemma W_asks st d y q n h f c p :
  W (and_ E RPass) ns wt ar (Mk d y q n h f c p) -> E (RDrain st) -> (forall st', E (RDrain st') -> st' = st) ->
  (found_none st = true -> stage_nodes st = [] /\ fresh_pass st = false) ->
  W (and_ E RNone) ns wt ar (Mk d y q n h true c p).
Proof.
  intros HW Hst Hone Hf. apply (W_step RPass RNone d y q n h f c p); try done. intros -> Hm.
  destruct (found_none st) eqn:En; [| right; left; exists st; split; [by left | auto]].
  pose proof (w_none _ _ _ _ _ HW st (or_introl Hst) En) as Hw. subst wt.
  assert (HW' : W (and_ E RNone) ns [] ar (Mk d y q n h f c 0)) by (by apply (W_step RPass RNone d y q n h f c 1)).
  destruct (W_nobody _ _ _ _ _ _ _ _ _ _ _ HW') as [(r & Hr & He%enqueuing_bound) | (st' & Hs & ->)]; [| done | right; right; by exists r | right; left; exists st'; auto].
  intros st' [Hs | ?]; [| done]. rewrite (Hone st' Hs). destruct (Hf eq_refl). done.
Qed.
End transitions.

(** ** Nodes *)

Section nodes.
Context {E : Role -> Prop} {wt ar : list nat}.

(** A client publishes a node. *)
Lemma W_arms ns k d y q n h f c p :
  W (and_ E RNone) ns wt ar (Mk d y q n h f c p) -> ns !! k = None ->
  W (and_ E (RPush k)) (<[k := cell_new 1]> ns) wt ar (Mk d y q n h f c p).
Proof.
  intros [H1 H2 H3 H4 H5 H6 H7 H8 H9] Hk.
  assert (Hw : forall m, waits ns m -> waits (<[k := cell_new 1]> ns) m).
  { intros m (x & Hx & Hp). exists x. split; [| done]. rewrite lookup_insert_ne; [done |]. intros ->. congruence. }
  constructor; try done.
  - intros m x Hx. destruct (decide (k = m)) as [<- |]; [rewrite lookup_insert_eq in Hx; by simplify_eq | rewrite lookup_insert_ne in Hx by done; eauto].
  - intros m (x & Hx & Hp). destruct (decide (k = m)) as [<- | Hne].
    + right; right. exists (RPush k). split; [by right | done].
    + rewrite lookup_insert_ne in Hx by done. destruct (H3 m) as [? | [? | (r & [Hr | ->] & Hh)]]; [by exists x | auto.. | |].
      * right; right. exists r. split; [by left | done].
      * done.
  - intros _. right. exists (RPush k). split; [by right | done].
  - intros _. left. exists (RPush k). split; [by right | done].
  - intros st [Hs | ?] Hf; [| done]. apply (H6 st); [by left | done].
  - intros st [Hs | ?]; [| done]. specialize (H7 st (or_introl Hs)).
    assert (Ht : told (and_ E RNone) y -> told (and_ E (RPush k)) y) by (intros [? | [? | ?]]; [by left | right; by left | done]).
    destruct st; cbn in *; try done; naive_solver.
  - intros Hn. destruct (H8 Hn) as [(m & x & Hx & Hp) | [H | [H | [H | (st & [H | ?] & Hu)]]]]; try done.
    + left. exists m, x. split; [| done]. rewrite lookup_insert_ne; [done |]. intros ->. congruence.
    + right; left. destruct H; [by left | done].
    + right; right; left. destruct H; [by left | done].
    + right; right; right; left. destruct H; [by left | done].
    + right; right; right; right. exists st. split; [by left | done].
  - intros _ _. by apply due_bound.
Qed.

(** It is on the arrival stack. *)
Lemma W_pushes ns k d y q n h f c p :
  W (and_ E (RPush k)) ns wt ar (Mk d y q n h f c p) -> W (and_ E REnqueue) ns wt (k :: ar) (Mk d y q n h f c p).
Proof.
  intros [H1 H2 H3 H4 H5 H6 H7 H8 H9]. constructor; try done.
  - intros m Hm. destruct (H3 m Hm) as [? | [? | (r & [Hr | ->] & Hh)]]; [by left | right; left; by right | |].
    + right; right. exists r. split; [by left | done].
    + cbn in Hh. subst m. right; left. by left.
  - intros _. right. exists REnqueue. split; [by right | done].
  - intros _. left. exists REnqueue. split; [by right | done].
  - intros st [Hs | ?] Hf; [| done]. apply (H6 st); [by left | done].
  - intros st [Hs | ?]; [| done]. eapply nudging_ok_mono; [| exact id | apply H7; by left]. intros [? | ?]; [right; by left | done].
  - intros Hn. by apply (marked_part (RPush k)); auto.
  - intros _ _. by apply due_bound.
Qed.
End nodes.

Lemma waits_set ns k x x' m :
  ns !! k = Some x -> waits (<[k := x']> ns) m <-> (m = k /\ phase x' = Waiting) \/ (m <> k /\ waits ns m).
Proof.
  intros Hk. unfold waits. destruct (decide (m = k)) as [-> | Hne].
  - rewrite lookup_insert_eq. split; [intros (? & ? & ?); simplify_eq; auto |]. intros [[_ ?] | [? _]]; [eauto | done].
  - rewrite lookup_insert_ne by done. split; [auto |]. intros [[? _] | [_ ?]]; done.
Qed.

Lemma early_mono h ns ns' st : (forall m, waits ns m -> waits ns' m) -> early h ns st -> early h ns' st.
Proof. intros Hw. destruct st; cbn; try done; naive_solver. Qed.

(** What the nodes are to the nudges. *)
Definition nudged_one (ns : gmap nat Cell) : Prop := exists m x, ns !! m = Some x /\ phase x = Waiting /\ nudged x = true.
Definition marks_it (x : Cell) : Prop := phase x = Waiting /\ nudged x = true \/ phase x = Granted /\ held_by_future x = true.

(** The waiters stay, and what the marker stands for. *)
Lemma W_nodes A ns ns' wt ar v :
  (forall m, waits ns m <-> waits ns' m) -> (forall m x, ns' !! m = Some x -> payload x = 1) ->
  ((exists m x, ns !! m = Some x /\ marks_it x) -> exists m x, ns' !! m = Some x /\ marks_it x) ->
  (nudged_one ns -> nudged_one ns') -> W A ns wt ar v -> W A ns' wt ar v.
Proof.
  intros Hw Hp Hm Hn. destruct v. intros [H1 H2 H3 H4 H5 H6 H7 H8 H9]. constructor; try done.
  - intros m Hm'%Hw. by apply H3.
  - intros [m Hm'%Hw]. apply H4. by exists m.
  - intros st Hst. specialize (H7 st Hst). destruct st; cbn in *; rewrite <- ?Hw; done.
  - intros Hnu. destruct (H8 Hnu) as [H | H]; [left; by apply Hm | by right].
  - intros Hp' [m Hm'%Hw]. destruct (H9 Hp') as [[Hh [H | H]] | [(st & Hs & [? | [? | He]]) | H]]; [by exists m | | | | | |].
    + left. split; [done |]. left. by apply Hn.
    + left. split; [done |]. by right.
    + right; left. exists st. auto.
    + right; left. exists st. auto.
    + right; left. exists st. split; [done |]. right; right. eapply early_mono; [| done]. intros. by apply Hw.
    + by right; right.
Qed.

(** A mark for the owed count, or a reference, changes nothing. *)
Lemma W_quiet_node A ns k x x' wt ar v :
  ns !! k = Some x -> phase x' = phase x -> nudged x' = nudged x -> payload x' = payload x -> held_by_future x' = held_by_future x ->
  W A ns wt ar v -> W A (<[k := x']> ns) wt ar v.
Proof.
  intros Hk E1 E2 E3 E4 HW.
  assert (Hset : forall P : Cell -> Prop, (P x -> P x') -> (exists m y, ns !! m = Some y /\ P y) -> exists m y, <[k := x']> ns !! m = Some y /\ P y).
  { intros P HP (m & y & Hy & Hpy). destruct (decide (m = k)) as [-> |]; [simplify_eq; exists k, x'; rewrite lookup_insert_eq; auto |].
    exists m, y. by rewrite lookup_insert_ne. }
  eapply W_nodes; [| | | | done].
  - intros m. rewrite (waits_set ns k x x' m Hk), E1. unfold waits. destruct (decide (m = k)) as [-> |]; naive_solver.
  - intros m y Hy. pose proof (w_pay _ _ _ _ _ HW) as Hp. destruct (decide (m = k)) as [-> |].
    + rewrite lookup_insert_eq in Hy. simplify_eq. rewrite E3. eauto.
    + rewrite lookup_insert_ne in Hy by done. eauto.
  - apply Hset. unfold marks_it. by rewrite E1, E2, E4.
  - apply Hset. by rewrite E1, E2.
Qed.

Section looks.
Context {E : Role -> Prop} {ns : gmap nat Cell} {wt ar : list nat} {k : nat} {x : Cell}.
Context (Hk : ns !! k = Some x).

Lemma payload_set (x' : Cell) m y :
  (forall m x, ns !! m = Some x -> payload x = 1) -> payload x' = payload x -> <[k := x']> ns !! m = Some y -> payload y = 1.
Proof using Hk.
  intros Hp E3 Hy. destruct (decide (m = k)) as [-> |]; [rewrite lookup_insert_eq in Hy; simplify_eq; rewrite E3; eauto |].
  rewrite lookup_insert_ne in Hy by done. eauto.
Qed.

(** A waiter looks at its node: it was granted, or nudged. *)
Lemma W_looks (r' : Role) x' v :
  phase x' = phase x -> payload x' = payload x -> match r' with RConsume => True | RTakes => phase x = Granted | _ => False end ->
  W (and_ E RNone) ns wt ar v -> W (and_ E r') (<[k := x']> ns) wt ar v.
Proof using Hk.
  intros E1 E3 Hr HW.
  assert (Hw : forall m, waits ns m <-> waits (<[k := x']> ns) m).
  { intros m. rewrite (waits_set ns k x x' m Hk), E1. unfold waits. destruct (decide (m = k)) as [-> |]; naive_solver. }
  destruct v. destruct HW as [H1 H2 H3 H4 H5 H6 H7 H8 H9].
  assert (Hm : marking r' = true) by (by destruct r'). assert (Hd : drains r' = false) by (by destruct r').
  constructor; try done.
  - intros m y Hy. by eapply payload_set.
  - intros m Hm'%Hw. destruct (H3 m Hm') as [? | [? | Hh]]; auto. right; right. revert Hh. by apply some_part.
  - intros [m Hm'%Hw]. destruct H4 as [? | Hh]; [by exists m | auto |]. right. revert Hh. by apply some_part.
  - intros Ha. destruct (H5 Ha) as [Hh | Hh]; [left; revert Hh; by apply some_part | right; by apply (some_drain _ RNone)].
  - intros st [Hs | <-] Hf; [| done]. apply (H6 st); [by left | done].
  - intros st [Hs | <-]; [| done]. specialize (H7 st (or_introl Hs)).
    assert (Ht : told (and_ E RNone) di -> told (and_ E r') di) by (intros [? | [? | ?]]; [by left | right; by left | done]).
    destruct st; cbn in *; rewrite <- ?Hw; try done; naive_solver.
  - intros _. destruct r'; try done; [right; left | right; right; left]; by right.
  - intros Hp [m Hm'%Hw]. destruct (H9 Hp) as [[Hh [(j & y & Hy & Hpy) | H]] | [(st & [Hs | ?] & Hst) | H]]; [by exists m | | | | done |].
    + left. split; [done |]. destruct (decide (j = k)) as [-> | Hne]; [| left; exists j, y; by rewrite lookup_insert_ne].
      simplify_eq. destruct r'; try done; [right; right; by right |]. destruct Hpy. congruence.
    + left. split; [done |]. right. destruct H as [[? | ?] | [? | ?]]; try done; [left | right]; by left.
    + right; left. exists st. split; [by left |]. destruct Hst as [? | [? | He]]; auto. right; right. eapply early_mono; [| done]. intros. by apply Hw.
    + right; right. revert H. by apply some_part.
Qed.

(** A waiter withdraws. *)
Lemma W_withdraws x' v :
  phase x' = Cancelled -> payload x' = payload x -> W (and_ E RNone) ns wt ar v -> W (and_ E RWithdraw) (<[k := x']> ns) wt ar v.
Proof using Hk.
  intros E1 E3 HW.
  assert (Hw : forall m, waits (<[k := x']> ns) m -> waits ns m).
  { intros m [[_ ?] | [_ ?]]%(waits_set ns k x x' m Hk); [congruence | done]. }
  assert (Hw' : forall m, waits ns m -> m <> k -> waits (<[k := x']> ns) m).
  { intros m Hm Hne. apply (waits_set ns k x x' m Hk). auto. }
  destruct v. destruct HW as [H1 H2 H3 H4 H5 H6 H7 H8 H9]. constructor; try done.
  - intros m y Hy. by eapply payload_set.
  - intros m Hm'%Hw. destruct (H3 m Hm') as [? | [? | Hh]]; auto. right; right. revert Hh. by apply some_part.
  - intros [m Hm'%Hw]. destruct H4 as [? | Hh]; [by exists m | auto |]. right. revert Hh. by apply some_part.
  - intros Ha. destruct (H5 Ha) as [Hh | Hh]; [left; revert Hh; by apply some_part | right; by apply (some_drain _ RNone)].
  - intros st [Hs | ?] Hf; [| done]. apply (H6 st); [by left | done].
  - intros st [Hs | ?]; [| done]. specialize (H7 st (or_introl Hs)).
    assert (Ht : told (and_ E RWithdraw) di) by (right; by right). destruct st; cbn in *; try done; naive_solver.
  - intros _. right; right; right; left. by right.
  - intros _ _. by apply due_bound.
Qed.
End looks.

(** ** Steps of the drain *)

Section pass.
Context {E : Role -> Prop} (Hno : forall st, ~ E (RDrain st)).

(** What is due of the others, and of the pass. *)
Definition due_others (ns : gmap nat Cell) (h : bool) : Prop :=
  (h = false /\ (nudged_one ns \/ E RRetry \/ E RConsume)) \/ exists r, E r /\ bound r = true.
Definition due_pass (ns : gmap nat Cell) (y h f : bool) (st : Stage) : Prop :=
  y = true \/ (f = true /\ found_none st = false) \/ early h ns st.

Lemma due_drain ns y h f st :
  due (and_ E (RDrain st)) ns y h f <-> due_others ns h \/ due_pass ns y h f st.
Proof using Hno.
  unfold due, due_others, due_pass, nudged_one, and_. split.
  - intros [[Hh [H | [[H | H] | [H | H]]]] | [(st' & [H | H] & Hd) | (r & [H | ->] & Hb)]]; try done.
    + left; left. split; [done |]. by left.
    + left; left. split; [done |]. by right; left.
    + left; left. split; [done |]. by right; right.
    + by destruct (Hno st').
    + injection H as ->. by right.
    + left; right. by exists r.
  - intros [[[Hh [H | [H | H]]] | (r & H & Hb)] | H].
    + left. split; [done |]. by left.
    + left. split; [done |]. right; left. by left.
    + left. split; [done |]. right; right. by left.
    + right; right. exists r. split; [by left | done].
    + right; left. exists st. split; [by right | done].
Qed.

Lemma nudging_drain st ns wt y st' : nudging_ok (and_ E (RDrain st)) ns wt y st' <-> nudging_ok E ns wt y st'.
Proof using.
  split; (apply nudging_ok_mono; [| exact id]); [intros [? | ?]; [by right | done] | intros ?; right; by left].
Qed.

(** The pass goes on: its stage, the lists and the word change. *)
Lemma W_pass ns wt ar wt' ar' st st' d y q n h f c p y' n' f' p' :
  W (and_ E (RDrain st)) ns wt ar (Mk d y q n h f c p) ->
  (forall m, waits ns m -> m ∈ wt \/ m ∈ ar \/ m ∈ stage_nodes st -> m ∈ wt' \/ m ∈ ar' \/ m ∈ stage_nodes st') ->
  (ar' <> [] -> ar <> [] /\ ((y = true \/ fresh_pass st = true) -> y' = true \/ fresh_pass st' = true)) ->
  (found_none st' = true -> wt' = []) ->
  (nudging_ok E ns wt y st -> nudging_ok E ns wt' y' st') ->
  (n' = true -> (n = true /\ (unsent st = true -> unsent st' = true)) \/ unsent st' = true \/ exists m x, ns !! m = Some x /\ marks_it x) ->
  (p' = 1 -> (exists m, waits ns m) -> (p = 1 -> due_others ns h \/ due_pass ns y h f st) -> due_others ns h \/ due_pass ns y' h f' st') ->
  W (and_ E (RDrain st')) ns wt' ar' (Mk d y' q n' h f' c p').
Proof using Hno.
  intros [H1 H2 H3 H4 H5 H6 H7 H8 H9] Hpl Har Hfn Hnu Hma Hdue. constructor; try done.
  - intros m Hm. destruct (H3 m Hm) as [? | [? | (r & [Hr | ->] & Hh)]].
    3: { right; right. exists r. split; [by left | done]. }
    all: destruct (Hpl m Hm) as [? | [? | ?]]; auto; right; right; exists (RDrain st'); (split; [by right | done]).
  - intros Hm. destruct (H4 Hm) as [? | Hh]; [auto |]. right. revert Hh. by apply some_part.
  - intros Ha. destruct (Har Ha) as [Ha' Hst]. destruct (H5 Ha') as [Hh | (x & [Hx | Hx] & Hy)].
    + left. revert Hh. by apply some_part.
    + by destruct (Hno x).
    + injection Hx as ->. right. exists st'. split; [by right | auto].
  - intros x [Hx | Hx]; [by destruct (Hno x) |]. injection Hx as ->. auto.
  - intros x [Hx | Hx]; [by destruct (Hno x) |]. injection Hx as ->. apply nudging_drain, Hnu, (nudging_drain st), H7. by right.
  - intros Hn. destruct (Hma Hn) as [[-> Hu] | [Hu | Hx]]; [| do 4 right; exists st'; split; [by right | done] | by left].
    destruct (H8 eq_refl) as [H | [[H | ?] | [[H | ?] | [[H | ?] | (x & [Hx | Hx] & Hux)]]]]; try done; unfold marked_by, and_; auto 10.
    + by destruct (Hno x).
    + injection Hx as ->. do 4 right. exists st'. auto.
  - intros Hp Hm. apply due_drain, Hdue; try done. intros Hp1. apply due_drain. auto.
Qed.

(** A stage that changes nothing but where the pass is. *)
Lemma W_moves ns wt ar st st' v :
  stage_nodes st = stage_nodes st' -> fresh_pass st = false -> (found_none st' = true -> wt = []) ->
  (forall y, nudging_ok E ns wt y st -> nudging_ok E ns wt y st') -> (unsent st = true -> unsent st' = true) ->
  (let 'Mk d y q n h f c p := v in p = 1 -> (exists m, waits ns m) -> due_others ns h \/ due_pass ns y h f st -> due_others ns h \/ due_pass ns y h f st') ->
  W (and_ E (RDrain st)) ns wt ar v -> W (and_ E (RDrain st')) ns wt ar v.
Proof using Hno.
  intros Hs Hf Hn Hnu Hu Hdue HW. destruct v. eapply W_pass; [exact HW | ..]; auto.
  - rewrite Hs. auto.
  - intros Ha. split; [done |]. rewrite Hf. intros [? | ?]; [by left | done].
Qed.

(** Whoever waits, with an empty list, has just come. *)
Lemma W_empty ns ar st d y q n h f c p :
  W (and_ E (RDrain st)) ns [] ar (Mk d y q n h f c p) -> fresh_pass st = false -> stage_nodes st = [] -> (exists m, waits ns m) ->
  (exists r, E r /\ enqueuing r = true) \/ y = true.
Proof using Hno.
  intros HW Hf Hs Hm. destruct (W_nobody _ _ _ _ _ _ _ _ _ _ _ HW) as [(r & [Hr | ->] & Hb) | (x & _ & Hy)]; try done; eauto.
  intros x [Hx | Hx]; [by destruct (Hno x) |]. injection Hx as ->. done.
Qed.

(** The front is granted. *)
Lemma W_grants ns wt ar st st' k x x' v :
  W (and_ E (RDrain st)) ns wt ar v -> ns !! k = Some x -> stage_nodes st = [k] -> fresh_pass st = false -> unsent st = false ->
  phase x' = Granted -> held_by_future x' = true -> payload x' = payload x ->
  stage_nodes st' = [] -> found_none st' = false -> (forall ns h y, early h ns st' /\ nudging_ok E ns wt y st') ->
  W (and_ E (RDrain st')) (<[k := x']> ns) wt ar v.
Proof using Hno.
  intros HW Hk Hs Hf Hu E1 E2 E3 Hs' Hfn He. destruct v. destruct HW as [H1 H2 H3 H4 H5 H6 H7 H8 H9].
  assert (Hw : forall m, waits (<[k := x']> ns) m -> waits ns m /\ m <> k).
  { intros m [[_ ?] | [? ?]]%(waits_set ns k x x' m Hk); [congruence | done]. }
  constructor; try done.
  - intros m z Hz. exact (payload_set Hk x' m z H2 E3 Hz).
  - intros m [Hm Hne]%Hw. destruct (H3 m Hm) as [? | [? | (r & [Hr | ->] & Hh)]]; auto.
    + right; right. exists r. split; [by left | done].
    + cbn in Hh. rewrite Hs in Hh. by apply list_elem_of_singleton in Hh.
  - intros [m [Hm _]%Hw]. destruct H4 as [? | Hh]; [by exists m | auto |]. right. revert Hh. by apply some_part.
  - intros Ha. destruct (H5 Ha) as [Hh | (z & [Hz | Hz] & Hy)]; [left; revert Hh; by apply some_part | by destruct (Hno z) |].
    injection Hz as ->. right. exists st'. split; [by right |]. left. rewrite Hf in Hy. naive_solver.
  - intros z [Hz | Hz]; [by destruct (Hno z) |]. injection Hz as ->. congruence.
  - intros z [Hz | Hz]; [by destruct (Hno z) |]. injection Hz as ->. apply nudging_drain, He. exact false.
  - intros Hn. left. exists k, x'. rewrite lookup_insert_eq. auto.
  - intros _ _. right; left. exists st'. split; [by right |]. right; right. apply He. exact false.
Qed.

(** The role is given up. *)
Lemma W_exits ns wt ar st d y q n h f c p q' h' f' :
  W (and_ E (RDrain st)) ns wt ar (Mk d y q n h f c p) ->
  match st with DExit _ _ => True | _ => False end -> y = false -> (found_none st = true \/ f = false) ->
  (q = true -> found_none st = false -> q' = true) -> (h' = true -> h = true) ->
  W (and_ E RNone) ns wt ar (Mk false false q' n h' f' c p).
Proof using Hno.
  intros HW Hst -> Hf Hq Hh. pose proof HW as [H1 H2 H3 H4 H5 H6 H7 H8 H9]. destruct st; try done.
  assert (Henq : (exists r, and_ E (RDrain (DExit clear current)) r /\ enqueuing r = true) -> exists r, and_ E RNone r /\ enqueuing r = true) by (by apply some_part).
  constructor; try done.
  - intros m Hm. destruct (H3 m Hm) as [? | [? | Hx]]; auto. right; right. revert Hx. apply some_part; [| done]. by intros ?%elem_of_nil.
  - intros Hm. destruct (found_none (DExit clear current)) eqn:Ef.
    + pose proof (H6 _ (or_intror eq_refl) Ef) as ->. destruct (W_empty _ _ _ _ _ _ _ _ _ _ _ HW) as [(r & Hr & He) | ?]; try done.
      right. exists r. split; [by left | done].
    + destruct (H4 Hm) as [? | ?]; auto.
  - intros Ha. destruct (H5 Ha) as [? | (z & [Hz | Hz] & Hy)]; [auto | by destruct (Hno z) |]. injection Hz as ->. naive_solver.
  - intros z [Hz | ?] _; [by destruct (Hno z) | done].
  - intros z [Hz | ?]; [by destruct (Hno z) | done].
  - intros Hn. destruct (H8 Hn) as [? | [[? | ?] | [[? | ?] | [[? | ?] | (z & [Hz | Hz] & Hy)]]]]; try done; unfold marked_by, and_; auto 10.
    + by destruct (Hno z).
    + by injection Hz as ->.
  - intros Hp Hm. destruct (proj1 (due_drain ns false h f (DExit clear current)) (H9 Hp Hm)) as [[[-> Hd] | (r & Hr & Hb)] | [? | [[-> Hd] | ?]]]; try done.
    + left. split; [destruct h'; [by specialize (Hh eq_refl) | done] |]. destruct Hd as [? | [? | ?]]; [by left | right; left; by left | right; right; by left].
    + right; right. exists r. split; [by left | done].
    + destruct Hf; congruence.
Qed.
End pass.
