(* ===== verification/RawSemaphoreMutex.v ===== *)
(** * A mutex loses no wake

    The shared semaphore with one permit, used as [sync/mutex.rs] uses it: every
    step of every client keeps the invariant of [RawSemaphoreWakes], call by
    call and stage of the pass by stage; so a waiter of a free mutex has been
    told, and its next poll takes the mutex. *)

From S2P Require Import Prelude Coop AtomicWaits QueueWord Spin NodeCell RawSemaphore RawSemaphoreWord Sums.
From S2P Require Import RawSemaphoreInv RawSemaphoreCalls RawSemaphoreDrain RawSemaphoreSpec RawSemaphoreWakes.
Open Scope Z_scope.

(** ** The clients of a mutex *)

(** They neither add, forget nor close, and every grant is one permit. *)
Definition mutex_at (pc : Pc) : Prop :=
  match pc with
  | TrLoad tr _ | TrSwap tr _ _ _ => match tr with TAdd _ | TClose => False | _ => True end
  | ForgetLoad _ | ForgetSwap _ _ => False
  | Consume (Some p) | CancelConsume p _ => p = 1
  | _ => True
  end.

(** No future is polled or waits. *)
Definition plain (pc : Pc) : bool :=
  match pc with
  | Idle | TakeLoad Try _ | TakeSwap Try _ _ | ReleaseAdd _ (KReturn _) | TrLoad TReleased (KReturn _) | TrSwap TReleased (KReturn _) _ _
  | Draining _ (KReturn _) _ _ => true
  | _ => false
  end.

Definition asks_one (c : Client) : Prop := need c = 1 \/ queued c = None /\ plain (pc c) = true.

(** The others, as one client meets them. *)
Record env (E : Role -> Prop) (c : Client) (h : Shared) : Prop := {
  e_alone : forall st, E (RDrain st) -> is_draining c = 0 /\ has DRAINING (word h) = true;
  e_drains : has DRAINING (word h) = true -> is_draining c = 1 \/ exists st, E (RDrain st);
  e_one : forall st st', E (RDrain st) -> E (RDrain st') -> st' = st;
  e_takes : E RTakes -> free (word h) + carries c <= 0;
  e_room : forall n x, nodes h !! n = Some x -> free (word h) + carries c + cell_carries x <= 1;
  e_free : free (word h) + carries c <= 1 }.

Definition wk (E : Role -> Prop) (r : Role) (h : Shared) : Prop := W (and_ E r) (nodes h) (waiting h) (arrivals h) (view (word h)).

(** Nothing to do with the waiters, and within the mutex's calls. *)
Definition calm (pc : Pc) : Prop := role pc = RNone /\ mutex_at pc.

Lemma calm_lost p seen c : calm (pc (attempt_lost p seen c)).
Proof. unfold attempt_lost, ends_closed. destruct p; repeat case_match; done. Qed.
Lemma calm_won p n c : calm (pc (attempt_won p n c)).
Proof. by destruct p. Qed.
Lemma calm_spin r g freed seen c : calm (pc (spin_goes r g freed seen c)).
Proof. unfold spin_goes. repeat case_match; done. Qed.
Lemma calm_owe_ends took seen c : calm (pc (owe_ends took seen c)).
Proof. unfold owe_ends. destruct took; [apply (calm_won Retry) | apply (calm_lost Retry)]. Qed.
Lemma calm_owe_goes marked took seen c : calm (pc (owe_goes marked took seen c)).
Proof. unfold owe_goes. repeat case_match; try done; apply calm_owe_ends. Qed.
Lemma calm_resume k seen x c : calm (pc (resume k seen x c)).
Proof. unfold resume. destruct k; try done; [by destruct (queued_now c) | apply calm_owe_goes | apply calm_owe_ends]. Qed.
Lemma calm_closed b c : calm (pc (ends_closed b c)).
Proof. unfold ends_closed. repeat case_match; done. Qed.

(** The invariant, after a step of one client. *)
Definition stays (E : Role -> Prop) (c' : Client) (h' : Shared) : Prop := wk E (role (pc c')) h' /\ mutex_at (pc c').

Lemma stays_calm E c' h' : calm (pc c') -> wk E RNone h' -> stays E c' h'.
Proof. intros [Hr Hm] HW. split; [by rewrite Hr | done]. Qed.

Lemma wk_word E r r' h w :
  (forall d y q n ha f c p, view (word h) = Mk d y q n ha f c p ->
   exists d' y' q' n' h' f' c' p', view w = Mk d' y' q' n' h' f' c' p' /\
     (W (and_ E r) (nodes h) (waiting h) (arrivals h) (Mk d y q n ha f c p) -> W (and_ E r') (nodes h) (waiting h) (arrivals h) (Mk d' y' q' n' h' f' c' p'))) ->
  wk E r h -> wk E r' (set_word w h).
Proof.
  intros H HW. unfold wk in *. cbn. destruct (view_of (word h)) as (d & y & q & n & ha & f & c & Hv). rewrite Hv in HW.
  destruct (H _ _ _ _ _ _ _ _ Hv) as (d' & y' & q' & n' & h' & f' & c' & p' & -> & HW'). auto.
Qed.

Section calls.
Context {E : Role -> Prop} {i : nat} {c : Client} {h : Shared}.
Context (R : ready i c h) (EN : env E c h) (HW : wk E (role (pc c)) h) (HM : mutex_at (pc c)) (HN : asks_one c).

(** A take leaves fewer permits. *)
Lemma takes_calm n w : 0 <= n -> w = minus n (word h) -> wk E RNone h -> wk E RNone (set_word w h).
Proof using R EN.
  intros Hn ->. apply wk_word. intros d y q m ha f cl p Hv. pose proof (view_minus Hv n) as Hv'. do 8 eexists. split; [exact Hv' |].
  apply W_word; [done |]. pose proof (e_free _ _ _ EN). rewrite (test_free Hv) in *.
  pose proof (carries_nonneg i c h (r_shared _ _ _ R) (r_client _ _ _ R)). lia.
Qed.

Lemma take_wakes b c' h' p n :
  pc c = TakeLoad p n \/ (exists current, pc c = TakeSwap p n current) -> p <> Retry ->
  client_step i b c h = Ok (c', h') -> stays E c' h'.
Proof using All.
  intros Hpc Hp Es. assert (Hr : role (pc c) = RNone) by (destruct Hpc as [-> | [current ->]]; by destruct p). rewrite Hr in HW.
  pose proof (my_pc R) as Hok. unfold pc_ok in Hok.
  assert (Hg : stays E (take_goes p n (word h) c) h).
  { unfold take_goes. destruct (admits (word h) n); [destruct (has HANDOFF (word h)) |]; (apply stays_calm; [first [apply calm_lost | by destruct p] | done]). }
  revert Es. open_step. destruct Hpc as [Hpc | [current Hpc]]; rewrite Hpc in *; cbn in Hok |- *.
  - repeat case_match; intros [= <- <-]; try done; (apply stays_calm; [first [apply calm_lost | apply calm_won] | done]).
  - destruct (negb b && _) eqn:Eb; intros [= <- <-]; [| done]. apply andb_true_iff in Eb as [_ <-%Z.eqb_eq].
    apply stays_calm; [apply calm_won |]. eapply takes_calm; [| done | done]. lia.
Qed.
End calls.

(** The mutex is never closed. *)
Lemma open_word {E r h} : wk E r h -> has CLOSED (word h) = false.
Proof.
  intros HW. destruct (view_of (word h)) as (d & y & q & n & ha & f & cl & Hv). pose proof (w_closed _ _ _ _ _ HW) as Hc.
  rewrite Hv in Hc. by rewrite (test_closed Hv).
Qed.

Section more_calls.
Context {E : Role -> Prop} {i : nat} {c : Client} {h : Shared}.
Context (R : ready i c h) (EN : env E c h) (HW : wk E (role (pc c)) h) (HM : mutex_at (pc c)) (HN : asks_one c).

Lemma need_one : plain (pc c) = false -> need c = 1.
Proof using HN. destruct HN as [? | [_ ?]]; [done | congruence]. Qed.

Lemma take_one_wakes b c' h' :
  pc c = TakeOneLoad \/ (exists seen, pc c = TakeOneSwap seen) -> client_step i b c h = Ok (c', h') -> stays E c' h'.
Proof using All.
  intros Hpc Es. assert (Hr : role (pc c) = RNone) by (by destruct Hpc as [-> | [seen ->]]). rewrite Hr in HW.
  assert (Hg : stays E (take_goes First 1 (word h) c) h).
  { unfold take_goes. destruct (admits (word h) 1); [destruct (has HANDOFF (word h)) |]; (apply stays_calm; [first [apply calm_lost | done] | done]). }
  revert Es. open_step. destruct Hpc as [Hpc | [seen Hpc]]; rewrite Hpc in *; cbn.
  - destruct (_ || _); intros [= <- <-]; [by apply stays_calm | done].
  - destruct (Z.eqb_spec (word h) seen) as [<- |]; intros [= <- <-]; [| done]. apply stays_calm; [done |].
    eapply (takes_calm R EN 1); [done | | done]. unfold minus, ONE. by rewrite shiftl_mul.
Qed.

(** Steps that touch nothing the waiters see. *)
Lemma calm_wakes b c' h' :
  match pc c with
  | SpinRounds _ | SpinLoad _ _ _ | SpinSwap _ _ _ | SpinWon _ | SpinRanOut _ | OweSeen | OweForgive _ _ | OweLook _ _ | WonLook
  | WonStore | AtOnce | ParkRounds | ParkStore _ _ | ParkBegin _ | ParkSpin _ _ => True | _ => False end ->
  client_step i b c h = Ok (c', h') -> stays E c' h'.
Proof using All.
  intros Hpc Es. assert (Hr : role (pc c) = RNone) by (by destruct (pc c)). rewrite Hr in HW. pose proof (my_need R) as Hn.
  revert Es. open_step. unfold mine_marked, node_at. destruct (pc c); try done; cbn;
    try (destruct (try_spend (thread c)) as [ok t]); try match goal with |- context [word h =? ?x] => destruct (Z.eqb_spec (word h) x) as [<- |] end;
    repeat case_match; cbn; intros Es; simplify_eq;
    try (apply stays_calm; [first [done | apply calm_spin | apply calm_owe_goes | apply calm_owe_ends] | done]).
  - apply stays_calm; [done |]. eapply (takes_calm R EN (need c)); [lia | done | done].
  - split; [| done]. eapply W_more; [| | exact HW]; unfold and_; naive_solver.
  - by apply stays_calm; [destruct (cell_marked c0) |].
  - by apply stays_calm; [destruct (cell_marked c0) |].
Qed.

(** A retry takes, loses to a handoff, or finds nothing free. *)
Lemma retry_ends c' w :
  role (pc c) = RRetry -> calm (pc c') -> free w = free (word h) - 1 \/ w = word h /\ (free (word h) = 1 -> has HANDOFF (word h) = true) ->
  (forall d y q n ha f cl p, view (word h) = Mk d y q n ha f cl p -> exists p', view w = Mk d y q n ha f cl p') ->
  stays E c' (set_word w h).
Proof using All.
  intros Hr Hc Hw Hv. apply stays_calm; [done |]. rewrite Hr in HW. revert HW. apply wk_word. intros d y q n ha f cl p Hvw.
  destruct (Hv _ _ _ _ _ _ _ _ Hvw) as [p' Hvw']. do 8 eexists. split; [exact Hvw' |]. apply W_retried.
  pose proof (e_free _ _ _ EN). pose proof (carries_nonneg i c h (r_shared _ _ _ R) (r_client _ _ _ R)).
  rewrite (test_free Hvw), (test_free Hvw'), (test_handoff Hvw) in Hw. rewrite (test_free Hvw) in *.
  intros ->. destruct Hw as [? | [-> Hh]]; [lia |]. rewrite Hvw in Hvw'. injection Hvw' as ->. auto.
Qed.

Lemma retry_lost c' : role (pc c) = RRetry -> calm (pc c') -> (free (word h) = 1 -> has HANDOFF (word h) = true) -> stays E c' h.
Proof using All.
  intros Hr Hc Hh. assert (h = set_word (word h) h) as -> by (by destruct h). apply retry_ends; [done | done | auto |]. eauto.
Qed.

Lemma take_retry_wakes b c' h' n :
  pc c = TakeLoad Retry n \/ (exists current, pc c = TakeSwap Retry n current) -> client_step i b c h = Ok (c', h') -> stays E c' h'.
Proof using All.
  intros Hpc Es. assert (Hr : role (pc c) = RRetry) by (by destruct Hpc as [-> | [current ->]]).
  assert (Hpl : plain (pc c) = false) by (by destruct Hpc as [-> | [current ->]]). pose proof (need_one Hpl) as Hn1.
  pose proof (my_pc R) as Hok. unfold pc_ok in Hok. pose proof (open_word HW) as Hop.
  assert (n = 1) as -> by (destruct Hpc as [Hpc | [current Hpc]]; rewrite Hpc in Hok; destruct Hok as [_ Hx]; rewrite Hx; done).
  assert (Hg : stays E (take_goes Retry 1 (word h) c) h).
  { unfold take_goes, admits. rewrite Hop. destruct (Z.leb_spec 1 (free (word h))); cbn [andb negb].
    - destruct (has HANDOFF (word h)) eqn:Eh; [apply retry_lost; [done | apply (calm_lost Retry) | done] |].
      split; [cbn; by rewrite Hr in HW | done].
    - apply retry_lost; [done | apply (calm_lost Retry) | lia]. }
  revert Es. open_step. destruct Hpc as [Hpc | [current Hpc]]; rewrite Hpc; cbn.
  - by intros [= <- <-].
  - destruct (negb b && _) eqn:Eb; intros [= <- <-]; [| done]. apply andb_true_iff in Eb as [_ <-%Z.eqb_eq].
    apply retry_ends; [done | done | | intros ???????? Hv; eexists; exact (view_minus Hv 1)].
    left. destruct (view_of (word h)) as (d & y & q & m & ha & f & cl & Hv). exact (test_free (view_minus Hv 1)).
Qed.
End more_calls.

(** A granted node that its future holds has the permit. *)
Lemma granted_takes E c h r n x :
  env E c h -> wk E r h -> nodes h !! n = Some x -> phase x = Granted -> held_by_future x = true -> free (word h) + carries c <= 0.
Proof.
  intros EN HW Hx Hg Hf. pose proof (e_room _ _ _ EN n x Hx) as Hr. pose proof (w_pay _ _ _ _ _ HW n x Hx) as Hp.
  unfold cell_carries, is_granted in Hr. rewrite Hg, Hf, Hp in Hr. change (1 =? CLOSED_GRANT) with false in Hr. cbn in Hr. lia.
Qed.

Lemma carries_ok i c h : ready i c h -> 0 <= carries c.
Proof. intros R. exact (carries_nonneg i c h (r_shared _ _ _ R) (r_client _ _ _ R)). Qed.

Lemma release_carries i c h n k : ready i c h -> pc c = ReleaseAdd n k -> n <= carries c.
Proof.
  intros R Hpc. pose proof (c_held _ _ _ (r_client _ _ _ R)). pose proof (my_need R) as Hn.
  pose proof (kont_carries_nonneg k (need c) ltac:(lia)). unfold carries. rewrite Hpc. cbn. lia.
Qed.

Section node_calls.
Context {E : Role -> Prop} {i : nat} {c : Client} {h : Shared}.
Context (R : ready i c h) (EN : env E c h) (HW : wk E (role (pc c)) h) (HM : mutex_at (pc c)) (HN : asks_one c).

Lemma owe_wakes b c' h' :
  match pc c with OweCount | OweMark | OweUnowe _ _ => True | _ => False end -> client_step i b c h = Ok (c', h') -> stays E c' h'.
Proof using All.
  intros Hpc Es. assert (Hq : queued_at (pc c) = Some true) by (by destruct (pc c)). pose proof (queued_yes R Hq) as Hqc.
  destruct (queued c) as [n|] eqn:Eq; [| done]. destruct (my_node i c h n R Eq) as (x & Hx & Hf & Hc & Hp & Hok).
  assert (Hset : forall r x', wk E r h -> phase x' = phase x -> nudged x' = nudged x -> payload x' = payload x -> held_by_future x' = held_by_future x ->
    wk E r (set_nodes (<[n := x']> (nodes h)) h)) by (intros; by eapply W_quiet_node).
  pose proof (granted_takes _ _ _ _ n x EN HW Hx) as Hg. pose proof (carries_ok _ _ _ R) as Hco.
  pose proof (retry_lost R EN HW HM HN) as Hlost.
  revert Es. unfold client_step, on_mine, on_node, node_at. rewrite Eq, Hx. destruct (pc c) eqn:Epc; try done; cbn.
  - intros [= <- <-]. by split.
  - unfold cell_owe. destruct (is_waiting x) eqn:Ew; cbn; intros [= <- <-].
    + split; [| done]. by apply Hset.
    + rewrite insert_id by done. assert (set_nodes (nodes h) h = h) as -> by (by destruct h).
      apply Hlost; [done | done |]. unfold is_waiting in Ew. destruct (phase x); try done. specialize (Hg eq_refl Hf). lia.
  - unfold cell_unowe. destruct (is_waiting x && owed_mark x); cbn; intros [= <- <-]; (apply stays_calm; [done |]); by apply Hset.
Qed.

Lemma consume_wakes b c' h' :
  match pc c with Consume _ | CancelConsume _ _ | CancelCount _ _ => True | _ => False end -> client_step i b c h = Ok (c', h') -> stays E c' h'.
Proof using All.
  intros Hpc Es.
  assert (Hw : forall r r', (forall d y q n ha f cl p, W (and_ E r) (nodes h) (waiting h) (arrivals h) (Mk d y q n ha f cl p) ->
    W (and_ E r') (nodes h) (waiting h) (arrivals h) (Mk d y q false ha f cl p)) -> wk E r h -> wk E r' (set_word (Z.ldiff (word h) NUDGE_OUT) h)).
  { intros r r' H. apply wk_word. intros d y q n ha f cl p Hv. pose proof (view_no_nudge Hv) as Hv'. do 8 eexists. split; [exact Hv' |]. apply H. }
  revert Es. unfold client_step. destruct (pc c) eqn:Epc; try done; cbn.
  - destruct granted as [p |]; cbn in HM, HW; intros [= <- <-].
    + subst p. change (1 =? CLOSED_GRANT) with false. cbn. apply stays_calm; [by destruct (queued_now c) |].
      eapply Hw; [| exact HW]. intros. by eapply W_collected.
    + split; [| by destruct (_ =? _)]. eapply Hw; [| exact HW]. destruct (_ =? _); intros; by eapply W_consumed.
  - intros [= <- <-]. by split.
  - cbn in HM. rewrite HM. change (1 =? CLOSED_GRANT) with false. intros [= <- <-]. apply stays_calm; [done |].
    eapply Hw; [| exact HW]. intros. by eapply W_collected.
Qed.

Lemma release_wakes n k c' h' : pc c = ReleaseAdd n k -> release n k c h = (c', h') -> stays E c' h'.
Proof using All.
  intros Hpc Es. pose proof (my_pc R) as Hok. unfold pc_ok in Hok. pose proof (carries_ok _ _ _ R) as Hco. pose proof (my_need R) as Hn.
  pose proof (e_free _ _ _ EN) as Hfr. pose proof (my_free R) as Hf0.
  pose proof (release_carries _ _ _ _ _ R Hpc) as Hge.
  rewrite Hpc in HW, Hok. cbn in HW, Hok. unfold release in Es.
  destruct (Z.eqb_spec n 0) as [-> |]; simplify_eq; [apply stays_calm; [apply calm_resume | done] |].
  assert (Hx : forall r', (forall d y q m ha f cl p, view (word h) = Mk d y q m ha f cl p -> W (and_ E RNone) (nodes h) (waiting h) (arrivals h) (Mk d y q m ha f cl p) ->
     W (and_ E r') (nodes h) (waiting h) (arrivals h) (Mk d y q m ha f cl (p + n))) -> wk E r' (set_word (plus n (word h)) h)).
  { intros r' H. apply (wk_word E RNone); [| done]. intros d y q m ha f cl p Hv.
    assert (view (plus n (word h)) = Mk d y q m ha f cl (p + n)) as Hv'.
    { pose proof (test_free Hv). apply (view_plus Hv); unfold MAX; lia. }
    do 8 eexists. split; [exact Hv' |]. by apply H. }
  destruct (wants_drain (word h)) eqn:Ew.
  - split; [| done]. cbn. apply Hx. intros. by eapply W_releases.
  - apply stays_calm; [apply calm_resume |]. apply Hx. intros d y q m ha f cl p Hv. eapply W_frees.
    + by rewrite <- (test_wants Hv).
    + intros Ht%(e_takes _ _ _ EN). lia.
    + intros j x Hj [Hg Hh]. pose proof (granted_takes _ _ _ _ j x EN HW Hj Hg Hh). lia.
Qed.
End node_calls.

Lemma env_no_drain E c h : env E c h -> has DRAINING (word h) = false -> forall st, ~ E (RDrain st).
Proof. intros EN Hd st [_ ?]%(e_alone _ _ _ EN). congruence. Qed.

Lemma env_drain E c h : env E c h -> has DRAINING (word h) = true -> is_draining c = 0 -> exists st, E (RDrain st).
Proof. intros EN Hd H0. destruct (e_drains _ _ _ EN Hd); [lia | done]. Qed.

Section transition_calls.
Context {E : Role -> Prop} {i : nat} {c : Client} {h : Shared}.
Context (R : ready i c h) (EN : env E c h) (HW : wk E (role (pc c)) h) (HM : mutex_at (pc c)) (HN : asks_one c).

(** A transition that asks for a pass claims the role, or marks it. *)
Lemma drain_wakes r w next (claim : bool) k s x c' :
  role (pc c) = r -> match r with REnqueue | RWithdraw | RPass | RRetry => True | _ => False end -> is_draining c = 0 ->
  swaps (word h) (Drain w) = Some (next, claim) ->
  (forall d y q n ha f cl p, view (word h) = Mk d y q n ha f cl p -> exists q' n' ha' f', view w = Mk d y q' n' ha' f' cl p /\
     (q = true -> q' = true) /\ (enqueuing r = true -> q' = true) /\ (n' = true -> n = true /\ r <> RWithdraw)) ->
  calm (pc c') -> stays E (if claim then at_ (Draining DClear k s x) c else c') (set_word next h).
Proof using All.
  intros Hr Hrk H0 Hs Hv Hc. cbn in Hs. rewrite Hr in HW. destruct (has DRAINING (word h)) eqn:Ed; simplify_eq.
  - apply stays_calm; [done |]. destruct (env_drain _ _ _ EN Ed H0) as [st Hst]. revert HW. apply wk_word.
    intros d y q n ha f cl p Hvw. destruct (Hv _ _ _ _ _ _ _ _ Hvw) as (q' & n' & ha' & f' & Hw & Hq & He & Hn).
    do 8 eexists. split; [exact (view_dirty Hw) |]. intros HW'. by eapply W_dirties.
  - pose proof (env_no_drain _ _ _ EN Ed) as Hno. split; [| done]. cbn [role pc at_ ahead]. revert HW. apply wk_word.
    intros d y q n ha f cl p Hvw. destruct (Hv _ _ _ _ _ _ _ _ Hvw) as (q' & n' & ha' & f' & Hw & Hq & He & Hn).
    do 8 eexists. split; [exact (view_claim Hw) |]. intros HW'. by eapply W_claims.
Qed.

(** A release wakes, or leaves its request. *)
Lemma wake_wakes next (claim : bool) k s x c' :
  role (pc c) = RPass -> is_draining c = 0 -> swaps (word h) (Wake (Z.lor (word h) WAKE_FRONT)) = Some (next, claim) ->
  calm (pc c') -> stays E (if claim then at_ (Draining DClear k s x) c else c') (set_word next h).
Proof using All.
  intros Hr H0 Hs Hc. cbn in Hs. rewrite Hr in HW. destruct (has DRAINING (word h)) eqn:Ed; simplify_eq.
  - apply stays_calm; [done |]. destruct (env_drain _ _ _ EN Ed H0) as [st Hst]. revert HW. apply wk_word.
    intros d y q n ha f cl p Hvw. do 8 eexists. split; [exact (view_front Hvw) |]. intros HW'.
    eapply (W_asks st); [exact HW' | done | intros st'; by apply (e_one _ _ _ EN) | by destruct st].
  - pose proof (env_no_drain _ _ _ EN Ed) as Hno. split; [| done]. cbn [role pc at_ ahead]. revert HW. apply wk_word.
    intros d y q n ha f cl p Hvw. do 8 eexists. split; [exact (view_claim (view_front Hvw)) |]. intros HW'. by eapply W_claims.
Qed.

(** What a transition's look comes to. *)
Lemma goes_wakes tr k c' :
  role (pc c) = tr_role tr -> match tr with TAdd _ | TClose => False | _ => True end ->
  tr_goes tr k (word h) c = Ok c' -> stays E c' h.
Proof using All.
  intros Hr Htr. unfold tr_goes.
  assert (Hsame : forall x, stays E (at_ (TrSwap tr k (word h) x) c) h) by (intros x; split; [cbn; rewrite <- Hr; done | done]).
  destruct tr; cbn [change]; try done; try (unfold enqueues, withdrawn, released; intros [= <-]; done).
  unfold owe_or_take. destruct (has HANDOFF (word h)) eqn:Eh.
  - intros [= <-]. apply (retry_lost R EN HW HM HN); [done | apply calm_resume | done].
  - by destruct (admits (word h) need); intros [= <-].
Qed.
End transition_calls.

Section swap_calls.
Context {E : Role -> Prop} {i : nat} {c : Client} {h : Shared}.
Context (R : ready i c h) (EN : env E c h) (HW : wk E (role (pc c)) h) (HM : mutex_at (pc c)) (HN : asks_one c).

(** The swap of a transition. *)
Lemma swapped_wakes tr k x next (claim : bool) :
  pc c = TrSwap tr k (word h) x -> swaps (word h) x = Some (next, claim) ->
  stays E (if claim then at_ (Draining DClear k (word h) x) c else resume k (word h) x c) (set_word next h).
Proof using All.
  intros Hpc Hs. pose proof (my_pc R) as Hok. unfold pc_ok in Hok. rewrite Hpc in Hok. destruct Hok as (Htr & Hch & Hk).
  assert (Hr : role (pc c) = tr_role tr) by (by rewrite Hpc). assert (Hm : match tr with TAdd _ | TClose => False | _ => True end).
  { pose proof HM as Hm. by rewrite Hpc in Hm. }
  assert (H0 : is_draining c = 0) by (unfold is_draining; by rewrite Hpc).
  pose proof (calm_resume k (word h) x c) as Hc.
  pose proof (fun r w => drain_wakes R EN HW HM HN r w next claim k (word h) x (resume k (word h) x c)) as Hd.
  destruct tr; try done; cbn in Hch; injection Hch as <-.
  - apply (Hd REnqueue (Z.lor (word h) QUEUED)); try done. intros d y q n ha f cl p Hv.
    pose proof (view_queued Hv) as V. do 4 eexists. split; [exact V |]. repeat split; done.
  - apply (Hd RWithdraw (Z.lor (Z.ldiff (word h) NUDGE_OUT) (if woken then WAKE_FRONT else 0))); try done.
    intros d y q n ha f cl p Hv. pose proof (view_withdrawn Hv woken) as V. do 4 eexists. split; [exact V |]. repeat split; done.
  - by apply (wake_wakes R EN HW HM HN).
  - destruct Htr as [-> _]. rewrite (need_one HN) in * by (by rewrite Hpc). unfold owe_or_take, admits in *.
    destruct (has HANDOFF (word h)); [done |]. pose proof (open_word HW) as Hop. rewrite Hop in *.
    destruct (Z.leb_spec 1 (free (word h))); cbn [andb negb] in *.
    + cbn in Hs. injection Hs as <- <-. apply (retry_ends R EN HW HM HN); [exact Hr | exact Hc | | intros ???????? Hv; eexists; exact (view_minus Hv 1)].
      left. destruct (view_of (word h)) as (d & y & q & m & ha & f & cl & Hv). exact (test_free (view_minus Hv 1)).
    + apply (Hd RRetry (Z.lor (word h) HANDOFF)); try done.
      intros d y q n ha f cl p Hv. pose proof (view_handoff Hv) as V. do 4 eexists. split; [exact V |]. repeat split; done.
  - apply (Hd RPass (word h)); try done. intros d y q n ha f cl p Hv. do 4 eexists. split; [exact Hv |]. repeat split; done.
Qed.

Lemma transition_wakes b c' h' :
  match pc c with TrLoad _ _ | TrSwap _ _ _ _ => True | _ => False end -> client_step i b c h = Ok (c', h') -> stays E c' h'.
Proof using All.
  intros Hpc. pose proof (goes_wakes R EN HW HM HN) as Hg. pose proof swapped_wakes as Hs. pose proof HM as Hm.
  unfold client_step. destruct (pc c) eqn:Epc; try done; cbn in Hm.
  - destruct (tr_goes tr k (word h) c) as [c1 |] eqn:Et; [| done]. cbn. intros [= <- <-]. by apply (Hg tr k).
  - destruct (swaps current x) as [[next claim] |] eqn:Esw; [| done].
    destruct (negb b && (word h =? current)) eqn:Eb.
    + apply andb_true_iff in Eb as [_ <-%Z.eqb_eq]. specialize (Hs tr k x next claim eq_refl Esw). destruct claim; intros [= <- <-]; exact Hs.
    + destruct (tr_goes tr k (word h) c) as [c1 |] eqn:Et; [| done]. cbn. intros [= <- <-]. by apply (Hg tr k).
Qed.

(** A client enqueues. *)
Lemma enqueue_wakes b c' h' :
  match pc c with Enqueue | Push _ _ => True | _ => False end -> client_step i b c h = Ok (c', h') -> stays E c' h'.
Proof using All.
  intros Hpc. assert (Hpl : plain (pc c) = false) by (by destruct (pc c)). pose proof (need_one HN Hpl) as Hn.
  pose proof (fresh_none h (r_shared _ _ _ R)) as Hf. pose proof HW as HW'. unfold wk in *.
  destruct (view_of (word h)) as (d & y & q & n & ha & f & cl & Hv). rewrite Hv in HW'.
  unfold client_step. destruct (pc c) eqn:Epc; try done; cbn in HW'.
  - rewrite Hn. intros [= <- <-]. split; [| done]. unfold wk. cbn. rewrite Hv. by apply W_arms.
  - destruct (negb b && _); intros [= <- <-]; (split; [| done]); unfold wk; cbn; rewrite Hv; [by eapply W_pushes | done].
Qed.

(** A waiter looks at its node, or leaves it. *)
Lemma node_look_wakes b c' h' :
  match pc c with ParkLook | CancelLook _ => True | _ => False end -> client_step i b c h = Ok (c', h') -> stays E c' h'.
Proof using All.
  intros Hpc Es. assert (Hq : queued_at (pc c) = Some true) by (by destruct (pc c)). pose proof (queued_yes R Hq) as Hqc.
  destruct (queued c) as [n|] eqn:Eq; [| done]. destruct (my_node i c h n R Eq) as (x & Hx & Hf & Hc & _ & Hok).
  assert (Hr : role (pc c) = RNone) by (by destruct (pc c)). rewrite Hr in HW. pose proof (w_pay _ _ _ _ _ HW n x Hx) as Hp.
  pose proof (granted_phase x) as Hgp. revert Es. unfold client_step, on_mine, on_node, node_at. rewrite Eq, Hx.
  destruct (pc c) eqn:Epc; try done; cbn.
  - unfold cell_look. destruct (is_granted x) eqn:Eg; [| destruct (nudged x)]; cbn; rewrite ?Hp; intros [= <- <-]; (split; [| done]); cbn.
    + apply (W_looks Hx RTakes); auto.
    + by apply (W_looks Hx RConsume).
    + by rewrite insert_id.
  - unfold cell_cancel. destruct (is_granted x) eqn:Eg; cbn; rewrite ?Hp; intros [= <- <-]; (split; [| done]); cbn.
    + apply (W_looks Hx RTakes); auto.
    + by apply (W_withdraws Hx).
Qed.
End swap_calls.

(** ** The pass *)

(** Whoever waits is on the list, or has just come. *)
Lemma W_somewhere E ns wt ar st d y q n h f c p :
  (forall st, ~ E (RDrain st)) -> W (and_ E (RDrain st)) ns wt ar (Mk d y q n h f c p) -> fresh_pass st = false -> stage_nodes st = [] ->
  (exists m, waits ns m) -> (exists m, m ∈ wt /\ waits ns m) \/ (exists r, E r /\ enqueuing r = true) \/ y = true.
Proof.
  intros Hno HW Hf Hs [m Hm]. destruct (w_place _ _ _ _ _ HW m Hm) as [? | [Ha | (r & [Hr | ->] & Hh)]]; [left; eauto | | |].
  - destruct (w_arrived _ _ _ _ _ HW) as [(r & [Hr | ->] & He) | (z & [Hz | Hz] & Hy)]; [by intros ->; apply elem_of_nil in Ha | | done | |].
    + right; left. eauto.
    + by destruct (Hno z).
    + injection Hz as ->. destruct Hy; [auto | congruence].
  - destruct r; try done; [right; left; eexists; split; [exact Hr | done] | by destruct (Hno st0)].
  - cbn in Hh. rewrite Hs in Hh. by apply elem_of_nil in Hh.
Qed.

Section stages.
Context {E : Role -> Prop} (Hno : forall st, ~ E (RDrain st)) {h : Shared} {st : Stage}.
Context (HW : wk E (RDrain st) h) (HS : shared_ok h) (Hst : stage_ok st h) (Hroom : free (word h) + stage_carries st <= 1).

Lemma pay_one n x : nodes h !! n = Some x -> payload x = 1.
Proof using HW. apply (w_pay _ _ _ _ _ HW). Qed.

(** What is on the list waits, or has withdrawn. *)
Lemma listed n : n ∈ waiting h -> exists x, nodes h !! n = Some x /\ (phase x = Waiting \/ phase x = Cancelled).
Proof using HS.
  intros Hn. destruct (h_linked h HS n) as (x & Hx & Hg & _); [apply elem_of_app; by left |]. exists x. split; [done |]. destruct (phase x); auto. done.
Qed.

Lemma cancelled_not n x m : nodes h !! n = Some x -> is_cancelled x = true -> waits (nodes h) m -> m <> n.
Proof using. intros Hx Hc (z & Hz & Hp) ->. simplify_eq. unfold is_cancelled in Hc. by rewrite Hp in Hc. Qed.

(** The stage is early in any case: the pass has its look ahead. *)
Lemma looks_ahead st' h' :
  nodes h' = nodes h -> (forall ha ns, early ha ns st') -> (forall ns wt y, nudging_ok E ns wt y st') -> found_none st' = false ->
  unsent st = false ->
  (forall m, waits (nodes h) m -> m ∈ waiting h \/ m ∈ arrivals h \/ m ∈ stage_nodes st -> m ∈ waiting h' \/ m ∈ arrivals h' \/ m ∈ stage_nodes st') ->
  (arrivals h' = [] \/ arrivals h' = arrivals h /\ (fresh_pass st' = true \/ fresh_pass st = false /\ has DIRTY (word h') = has DIRTY (word h))) ->
  (forall d y q n ha f cl p, view (word h) = Mk d y q n ha f cl p -> exists y' f' p', view (word h') = Mk d y' q n ha f' cl p') ->
  wk E (RDrain st') h'.
Proof using HW Hno.
  intros En He Hn Hf Hu Hpl Har Hv. unfold wk in *. destruct (view_of (word h)) as (d & y & q & n & ha & f & cl & Hvw).
  destruct (Hv _ _ _ _ _ _ _ _ Hvw) as (y' & f' & p' & Hv'). rewrite Hvw in HW. rewrite Hv', En. eapply (W_pass Hno); [exact HW | exact Hpl | ..].
  - rewrite (test_dirty Hvw), (test_dirty Hv') in Har. destruct Har as [-> | [-> Har]]; [done |]. intros Ha. split; [done |].
    destruct Har as [-> | [-> ->]]; [by right |]. intros [? | ?]; [by left | done].
  - congruence.
  - intros _. apply Hn.
  - intros ->. left. split; [done |]. congruence.
  - intros _ _ _. right. right; right. apply He.
Qed.
End stages.

Section stages.
Context {E : Role -> Prop} (Hno : forall st, ~ E (RDrain st)) {h : Shared} {st : Stage}.
Context (HW : wk E (RDrain st) h) (HS : shared_ok h) (Hst : stage_ok st h) (Hroom : free (word h) + stage_carries st <= 1).

Lemma moves_on st' :
  stage_nodes st = stage_nodes st' -> fresh_pass st = false -> (found_none st' = true -> waiting h = []) ->
  (forall y, nudging_ok E (nodes h) (waiting h) y st -> nudging_ok E (nodes h) (waiting h) y st') -> (unsent st = true -> unsent st' = true) ->
  (forall d y q n ha f cl, view (word h) = Mk d y q n ha f cl 1 -> (exists m, waits (nodes h) m) ->
     due_pass (nodes h) y ha f st -> @due_others E (nodes h) ha \/ due_pass (nodes h) y ha f st') ->
  wk E (RDrain st') h.
Proof using HW Hno.
  intros H1 H2 H3 H4 H5 H6. unfold wk in *. destruct (view_of (word h)) as (d & y & q & n & ha & f & cl & Hv). rewrite Hv in HW. rewrite Hv.
  eapply (W_moves Hno); [exact H1 | done | done | done | done | | exact HW]. intros Hp Hm [? | Hd]; [by left |]. rewrite Hp in Hv. by eapply H6.
Qed.

(** Nobody is on the list: whoever waits has just come. *)
Lemma nobody_on d y q n ha f cl p f' st' :
  waiting h = [] -> fresh_pass st = false -> stage_nodes st = [] -> view (word h) = Mk d y q n ha f cl p -> (exists m, waits (nodes h) m) ->
  @due_others E (nodes h) ha \/ due_pass (nodes h) y ha f' st'.
Proof using HW Hno.
  intros Hw Hf Hs Hv Hm. unfold wk in HW. rewrite Hv, Hw in HW. destruct (W_empty Hno _ _ _ _ _ _ _ _ _ _ _ HW Hf Hs Hm) as [(r & Hr & He) | ->].
  - left; right. exists r. split; [done | by apply enqueuing_bound].
  - right. by left.
Qed.

(** The head has withdrawn: it goes. *)
Lemma head_goes n rest x :
  waiting h = n :: rest -> nodes h !! n = Some x -> is_cancelled x = true -> stage_nodes st = [] -> fresh_pass st = false -> found_none st = false ->
  (forall ns wt wt' y, nudging_ok E ns wt y st -> nudging_ok E ns wt' y st) -> wk E (RDrain st) (set_waiting rest h).
Proof using HW Hno.
  intros Hw Hx Hc Hs Hf Hfn Hn. unfold wk in *. cbn. destruct (view_of (word h)) as (d & y & q & nu & ha & f & cl & Hv). rewrite Hv, Hw in *.
  eapply (W_pass Hno); [exact HW | ..]; auto.
  - intros m Hm [Hin | ?]; [| by right]. apply elem_of_cons in Hin as [-> | ?]; [| by left]. by destruct (cancelled_not n x n Hx Hc Hm).
  - congruence.
  - apply Hn.
Qed.

(** [List::front]. *)
Lemma front_on again none some st' h' :
  at_front again none some h = Ok (Some st', h') -> again = st -> stage_nodes st = [] -> fresh_pass st = false -> found_none st = false ->
  unsent st = false -> (forall ns wt wt' y, nudging_ok E ns wt y st -> nudging_ok E ns wt' y st) -> ahead st = st ->
  match none with DAsk _ | DEnd => True | DOwed _ => True | _ => False end ->
  (forall n x, n ∈ waiting h -> nodes h !! n = Some x -> (exists rest, waiting h = n :: rest) -> wk E (RDrain (ahead (some n x))) h) ->
  wk E (RDrain (ahead st')) h'.
Proof using HW Hno.
  intros Ef -> Hs Hf Hfn Hu Hn Ha Hnone Hsome. unfold at_front, node_at in Ef. destruct (waiting h) as [| n rest] eqn:Ew.
  - injection Ef as <- <-. assert (ahead none = none) as -> by (by destruct none). apply moves_on; rewrite ?Hu; try done; try (by destruct none).
    intros; by eapply nobody_on.
  - destruct (nodes h !! n) as [x|] eqn:Ex; [| done]. cbn in Ef. destruct (is_cancelled x) eqn:Ec; injection Ef as <- <-.
    + cbn. rewrite Ha. by eapply head_goes.
    + apply Hsome; [by left | done | by exists rest].
Qed.
End stages.

(** A step of the pass keeps the invariant. *)
Definition pass_on (E : Role -> Prop) (b : bool) (st : Stage) (h : Shared) : Prop :=
  (forall st, ~ E (RDrain st)) -> wk E (RDrain st) h -> shared_ok h -> stage_ok st h -> free (word h) + stage_carries st <= 1 ->
  forall st' h', drain_step b st h = Ok (Some st', h') -> wk E (RDrain (ahead st')) h'.

Lemma same_view s :
  forall d y q n ha f cl p, view s = Mk d y q n ha f cl p -> exists y' f' p', view s = Mk d y' q n ha f' cl p'.
Proof. eauto. Qed.

(** The marks are cleared, and the arrivals taken. *)
Lemma clear_on E b h : pass_on E b DClear h.
Proof.
  intros Hno HW HS Hst Hr st' h' [= <- <-]. apply (looks_ahead Hno HW); auto; try done.
  intros ???????? Hv. pose proof (view_clear Hv). eauto.
Qed.

Lemma take_on E b h front : pass_on E b (DTake front) h.
Proof.
  intros Hno HW HS Hst Hr st' h' [= <- <-]. apply (looks_ahead Hno HW); auto; try done; [| apply same_view].
  intros m _. cbn. assert (m ∈ rev (arrivals h) <-> m ∈ arrivals h) as -> by (rewrite !list_elem_of_In; symmetry; apply in_rev). tauto.
Qed.

Lemma absorb_on E b h rest front : pass_on E b (DAbsorb rest front) h.
Proof.
  intros Hno HW HS Hst Hr st' h'. cbn. unfold absorb, node_at. destruct rest as [| n rest].
  - intros [= <- <-]. apply (looks_ahead Hno HW); auto; try done. apply same_view.
  - destruct (nodes h !! n) as [x|] eqn:Ex; [| done]. cbn. destruct (is_cancelled x) eqn:Ec; intros [= <- <-];
      (apply (looks_ahead Hno HW); auto; try done; try apply same_view); cbn; intros m Hm; rewrite ?elem_of_app, ?list_elem_of_singleton, ?elem_of_cons.
    + intros [? | [? | [-> | ?]]]; auto. by destruct (cancelled_not n x n Ex Ec Hm).
    + tauto.
Qed.

Lemma sweep_on E b h st :
  match st with DTidy _ | DSweep _ _ _ | DClosed _ => True | _ => False end -> pass_on E b st h.
Proof.
  intros Hs Hno HW HS Hst Hr st' h'. destruct st; try done; cbn.
  - unfold tidy. destruct (_ <? _); intros [= <- <-]; (apply (looks_ahead Hno HW); auto; try done; apply same_view).
  - unfold sweep, node_at. cbn in Hst. destruct rest as [| n rest].
    + intros [= <- <-]. apply (looks_ahead Hno HW); auto; try done. apply same_view.
    + destruct (nodes h !! n) as [x|] eqn:Ex; [| done]. cbn. destruct (is_cancelled x) eqn:Ec; intros [= <- <-];
        (apply (looks_ahead Hno HW); auto; try done; try apply same_view); cbn; intros m Hm; rewrite ?Hst, ?elem_of_app, ?elem_of_cons.
      intros [[? | [-> | ?]] | ?]; auto. by destruct (cancelled_not n x n Ex Ec Hm).
  - unfold closed_in. rewrite (open_word HW). intros [= <- <-]. apply (looks_ahead Hno HW); auto; try done. apply same_view.
Qed.

(** The handoff. *)
Lemma hand_front_on E b h front : pass_on E b (DHandFront front) h.
Proof.
  intros Hno HW HS Hst Hr st' h'. cbn. intros Ef. eapply (front_on Hno HW _ _ _ _ _ Ef); try done.
  intros n x Hn Hx _. cbn. apply (looks_ahead Hno HW); auto; try done. apply same_view.
Qed.

Lemma hand_goes_on E h st n current front :
  (forall st, ~ E (RDrain st)) -> wk E (RDrain st) h -> match st with DHandLoad _ _ _ | DHandSwap _ _ _ _ => True | _ => False end ->
  current = word h -> wk E (RDrain (ahead (hand_goes n 1 current front))) h.
Proof.
  intros Hno HW Hs ->. unfold hand_goes, admits. rewrite (open_word HW). destruct (Z.leb_spec 1 (free (word h))); cbn [andb negb ahead].
  - apply (looks_ahead Hno HW); auto; try done; [by destruct st | | by destruct st; auto | apply same_view].
    intros m _ [? | [? | Hin]]; auto. destruct st; try done; by apply elem_of_nil in Hin.
  - apply (moves_on Hno HW); try done; try (by destruct st). intros d y q nu ha f cl Hv. rewrite (test_free Hv) in *. lia.
Qed.

Lemma at_head_one E r n need h : wk E r h -> at_head n need h -> need = 1 /\ exists rest, waiting h = n :: rest.
Proof. intros HW [[rest Hr] (x & Hx & <-)]. split; [by apply (w_pay _ _ _ _ _ HW n) | eauto]. Qed.

Lemma hand_take_on E b h st :
  match st with DHandLoad _ _ _ | DHandSwap _ _ _ _ => True | _ => False end -> pass_on E b st h.
Proof.
  intros Hs Hno HW HS Hst Hr st' h'. destruct st; try done; cbn in Hst |- *.
  - destruct (at_head_one _ _ _ _ _ HW Hst) as [-> _]. intros [= <- <-]. by eapply (hand_goes_on E h).
  - destruct Hst as [Hh _]. destruct (at_head_one _ _ _ _ _ HW Hh) as [-> [rest Hw]].
    destruct (negb b && _) eqn:Eb; intros [= <- <-]; [| by eapply (hand_goes_on E h)].
    apply andb_true_iff in Eb as [_ <-%Z.eqb_eq]. cbn [ahead]. apply (looks_ahead Hno HW); auto; try done.
    + cbn. rewrite Hw. intros m _. cbn. rewrite list_elem_of_singleton, elem_of_cons. intros [[? | ?] | [? | ?%elem_of_nil]]; try done; auto.
    + cbn. right. split; [done |]. right. split; [done |]. destruct (view_of (word h)) as (d & y & q & m & ha & f & cl & Hv).
      rewrite (test_dirty Hv). apply (test_dirty (view_minus Hv 1)).
    + intros ???????? Hv. pose proof (view_minus Hv 1). eauto.
Qed.

Lemma hand_grant_on E b h n need front : pass_on E b (DHandGrant n need front) h.
Proof.
  intros Hno HW HS Hst Hr st' h'. destruct Hst as (x & Hx & _ & _). cbn. unfold on_node, node_at. rewrite Hx. cbn.
  unfold cell_grant. destruct (is_waiting x) eqn:Ew; cbn; intros [= <- <-]; cbn [ahead].
  - destruct (h_cells h HS n x Hx) as [_ [Hf _]]. unfold is_waiting in Ew. destruct (phase x) eqn:Ep; try done.
    eapply (W_grants Hno _ _ _ _ _ n x); [exact HW | done | done | done | done | done | by apply Hf | done | done | done |]. done.
  - rewrite insert_id by done. apply (looks_ahead Hno HW); auto; try done; [| apply same_view].
    intros m (z & Hz & Hp) [? | [? | ->%list_elem_of_singleton]]; auto. simplify_eq. unfold is_waiting in Ew. by rewrite Hp in Ew.
Qed.

Lemma hand_back_on E b h need front : pass_on E b (DHandBack need front) h.
Proof.
  intros Hno HW HS Hst Hr st' h' [= <- <-]. cbn in Hst, Hr. pose proof (h_free h HS). apply (looks_ahead Hno HW); auto; try done.
  - cbn. right. split; [done |]. right. split; [done |]. destruct (view_of (word h)) as (d & y & q & n & ha & f & cl & Hv).
    rewrite (test_dirty Hv). apply (test_dirty (view_plus Hv need ltac:(lia) ltac:(lia) ltac:(unfold MAX; lia))).
  - intros d y q n ha f cl p Hv. rewrite (test_free Hv) in *. pose proof (view_plus Hv need ltac:(lia) ltac:(lia) ltac:(unfold MAX; lia)). eauto.
Qed.

(** Whether the pass nudges, and the way out. *)
Lemma asks_on E b h st :
  match st with DHandoff _ | DAsk _ | DAskOwed _ | DOwed _ | DExitLoad _ => True | _ => False end -> pass_on E b st h.
Proof.
  intros Hs Hno HW HS Hst Hr st' h'. pose proof (fun st' => moves_on Hno HW st') as Hm. pose proof (w_none _ _ _ _ _ HW st (or_intror eq_refl)) as Hn.
  destruct st; try done; cbn; intros [= <- <-].
  - destruct (has HANDOFF (word h)) eqn:Eh; cbn; apply Hm; try done; intros d y q n ha f cl Hv _ _; right; right; right; cbn.
    + done.
    + by rewrite <- (test_handoff Hv).
  - destruct (has HANDOFF (word h)) eqn:Eh; cbn; apply Hm; try done; intros d y q n ha f cl Hv _; rewrite (test_handoff Hv) in Eh; subst ha.
    + intros [? | [? | ?]]; [right; by left | right; right; by left | done].
    + auto.
  - destruct (owed h =? 0); cbn; apply Hm; try done; intros d y q n ha f cl Hv _ [? | [? | ?]]; try done; [right; by left | right; right; by left | right; by left | right; right; by left].
  - cbn in Hn. assert (Hq : has QUEUED (if owed h =? 0 then Z.lor clear HANDOFF else clear) = has QUEUED clear).
    { destruct Hst as [-> | ->]; by destruct (owed h =? 0). }
    cbn. apply Hm; try done; cbn; rewrite ?Hq; [done |]. intros d y q n ha f cl Hv _ [? | [? | ?]]; try done; [right; by left |].
    right; right; left. cbn. by rewrite Hq.
  - cbn. apply Hm; try done. intros. auto.
Qed.

Lemma fronts_on E b h st : match st with DNudgeFront _ | DEnd => True | _ => False end -> pass_on E b st h.
Proof.
  intros Hs Hno HW HS Hst Hr st' h'. destruct st; try done; cbn; intros Ef; eapply (front_on Hno HW _ _ _ _ _ Ef); try done; intros n x _ _ _; cbn;
    apply (moves_on Hno HW); try done; intros; auto.
Qed.

Lemma budget_on E b h front : pass_on E b (DBudget front) h.
Proof.
  intros Hno HW HS Hst Hr st' h' [= <- <-]. cbn [ahead]. apply (moves_on Hno HW); try done.
  intros d y q n ha f cl Hv Hm Hd. pose proof HW as HW'. unfold wk in HW'. rewrite Hv in HW'.
  destruct (W_somewhere _ _ _ _ _ _ _ _ _ _ _ _ _ Hno HW' eq_refl eq_refl Hm) as [Hin | [(r & Hx & He%enqueuing_bound) | ->]].
  - destruct Hd as [? | [? | Hha]]; [right; by left | right; right; by left |]. right; right; right. cbn in *.
    rewrite (test_free Hv). repeat split; [done | lia | done].
  - left; right. eauto.
  - right. by left.
Qed.

(** The walk over those to nudge. *)
Lemma nudges_end E h first rest budget raised sent front :
  (forall st, ~ E (RDrain st)) -> wk E (RDrain (DNudges first rest budget raised sent front)) h -> rest = [] \/ budget <= 0 ->
  wk E (RDrain (ahead (if raised && negb sent then DLower else DEnd))) h.
Proof.
  intros Hno HW Hrest. destruct (raised && negb sent) eqn:Eu; cbn [ahead]; apply (moves_on Hno HW); try done; cbn; rewrite ?Eu; try done.
  - intros y (_ & _ & Ht). apply Ht; by destruct raised, sent.
  - intros d y q n ha f cl Hv _ [? | [? | (_ & _ & Hb & k & Hk & _)]]; [right; by left | right; right; by left |].
    destruct Hrest as [-> | ?]; [by apply elem_of_nil in Hk | lia].
  - intros d y q n ha f cl Hv _ [? | [? | (_ & _ & Hb & k & Hk & _)]]; [right; by left | right; right; by left |].
    destruct Hrest as [-> | ?]; [by apply elem_of_nil in Hk | lia].
Qed.

Lemma nudges_on E b h first rest budget raised sent front : pass_on E b (DNudges first rest budget raised sent front) h.
Proof.
  intros Hno HW HS Hst Hr st' h'. cbn. unfold nudges, node_at. pose proof (fun rest' => nudges_end E h first rest' budget raised sent front Hno) as Hend.
  assert (Hok : exists y, nudging_ok E (nodes h) (waiting h) y (DNudges first rest budget raised sent front)).
  { destruct (view_of (word h)) as (d & y & q & n & ha & f & cl & Hv). pose proof (w_nudging _ _ _ _ _ HW) as Hn. rewrite Hv in Hn. exists y.
    eapply (nudging_drain (DNudges first rest budget raised sent front)), Hn. by right. }
  destruct Hok as (y0 & Hsub & Hrs & _). destruct rest as [| n rest]; [intros [= <- <-]; eapply Hend; eauto |].
  destruct (nodes h !! n) as [x|] eqn:Ex; [| done]. cbn. rewrite (w_pay _ _ _ _ _ HW n x Ex).
  assert (Hn : n ∈ waiting h) by (apply Hsub; by left).
  assert (Hsub' : rest ⊆ waiting h) by (intros m Hm; apply Hsub; by right).
  destruct (is_cancelled x) eqn:Ec; [| destruct ((budget <? 1) && negb (first && front)) eqn:Eb]; intros [= <- <-]; cbn [ahead].
  - apply (moves_on Hno HW); try done; cbn.
    + intros y (_ & ? & ?). auto.
    + intros d y q nu ha f cl Hv _ [? | [? | (? & ? & ? & k & Hk & Hkw)]]; [right; by left | right; right; by left |].
      right; right; right. repeat split; try done. exists k. split; [| done]. apply elem_of_cons in Hk as [-> | ?]; [| done].
      by destruct (cancelled_not n x n Ex Ec Hkw).
  - apply andb_true_iff in Eb as [Eb%Z.ltb_lt _]. eapply Hend; [exact HW | right; lia].
  - assert (Hwait : waits (nodes h) n).
    { exists x. split; [done |]. destruct (listed HS n Hn) as (z & Hz & [? | Hp]); simplify_eq; [done |]. unfold is_cancelled in Ec. by rewrite Hp in Ec. }
    destruct raised; cbn [ahead]; apply (moves_on Hno HW); try done; cbn; auto.
    + intros d y q nu ha f cl Hv _ [? | [? | (? & ? & _)]]; [right; by left | right; right; by left | done].
    + intros d y q nu ha f cl Hv _ [? | [? | (? & _)]]; [right; by left | right; right; by left |]. right; right; right. done.
Qed.

(** The marker rises and falls. *)
Lemma marker_on E b h st : match st with DRaise _ _ _ _ _ | DLower => True | _ => False end -> pass_on E b st h.
Proof.
  intros Hs Hno HW HS Hst Hr st' h'. unfold wk in *. destruct (view_of (word h)) as (d & y & q & n & ha & f & cl & Hv).
  pose proof (w_nudging _ _ _ _ _ HW) as Hn. rewrite Hv in Hn. specialize (Hn st (or_intror eq_refl)).
  destruct st; try done; cbn; intros [= <- <-]; cbn; rewrite Hv in HW; [rewrite (view_nudge_out Hv) | rewrite (view_no_nudge Hv)];
    (eapply (W_pass Hno); [exact HW | ..]); cbn; auto; try discriminate.
  - tauto.
  - intros _. right; left. destruct Hn as (_ & _ & -> & _). done.
Qed.

(** A nudge. *)
Lemma nudge_on E b h n rest budget sent front : pass_on E b (DNudge n rest budget sent front) h.
Proof.
  intros Hno HW HS Hst Hr st' h'. destruct Hst as [[x Hx] _]. unfold wk in *. destruct (view_of (word h)) as (d & y & q & nu & ha & f & cl & Hv).
  rewrite Hv in HW. cbn. unfold on_node, node_at. rewrite Hx. cbn. unfold cell_nudge. destruct (is_waiting x) eqn:Ew; cbn; intros [= <- <-]; cbn; rewrite Hv.
  - assert (Hp : phase x = Waiting) by (unfold is_waiting in Ew; by destruct (phase x)).
    assert (Hone : nudged_one (<[n := set_nudged true x]> (nodes h))) by (exists n, (set_nudged true x); by rewrite lookup_insert_eq).
    assert (HW' : W (and_ E (RDrain (DNudge n rest budget sent front))) (<[n := set_nudged true x]> (nodes h)) (waiting h) (arrivals h) (Mk d y q nu ha f cl (free (word h)))).
    { eapply W_nodes; [| | | | exact HW].
      - intros m. rewrite (waits_set _ _ x _ m Hx). cbn. unfold waits. destruct (decide (m = n)) as [-> |]; naive_solver.
      - intros m z Hz. by apply (payload_set Hx (set_nudged true x) m z (w_pay _ _ _ _ _ HW)).
      - intros _. exists n, (set_nudged true x). rewrite lookup_insert_eq. split; [done |]. by left.
      - done. }
    eapply (W_pass Hno); [exact HW' | ..]; cbn; rewrite ?orb_true_r; auto; try discriminate.
    + intros (? & ? & _). done.
    + intros _. right; right. exists n, (set_nudged true x). rewrite lookup_insert_eq. split; [done |]. by left.
    + intros Hp1 Hm Hd. destruct (Hd Hp1) as [? | [? | [? | [-> _]]]]; [by left | right; by left | right; right; by left |]. left; left. by split; [| left].
  - rewrite insert_id, orb_false_r by done.
    assert (Hnw : ~ waits (nodes h) n) by (intros (z & Hz & Hp); simplify_eq; unfold is_waiting in Ew; by rewrite Hp in Ew).
    eapply (W_pass Hno); [exact HW | ..]; cbn; auto; try discriminate.
    + intros (_ & ? & [? | ?]); [done |]. done.
    + intros Hp1 Hm Hd. destruct (Hd Hp1) as [? | [? | [? | [_ ?]]]]; [by left | right; by left | right; right; by left | done].
Qed.

(** The queue lets go of a node. *)
Lemma let_go_on E b h st st' h' :
  match st with DRelease _ _ | DForgive _ => True | _ => False end -> wk E (RDrain (ahead st)) h -> stage_ok st h ->
  drain_step b st h = Ok (Some st', h') -> wk E (RDrain (ahead st')) h'.
Proof.
  intros Hs HW Hst. destruct st; try done; cbn in *.
  - destruct Hst as [[x Hx] _]. unfold on_node, node_at. rewrite Hx. cbn. intros [= <- <-].
    assert (ahead (if owed_mark x then DForgive st else st) = ahead st) as -> by (by destruct (owed_mark x)). by eapply W_quiet_node.
  - by intros [= <- <-].
Qed.

(** The role is given up, or another pass begins. *)
Lemma exit_on E b h clear current : pass_on E b (DExit clear current) h.
Proof.
  intros Hno HW HS Hst Hr st' h'. pose proof (w_none _ _ _ _ _ HW _ (or_intror eq_refl)) as Hn. cbn in Hn |- *. unfold gives_up.
  destruct (negb (has _ current)); [destruct (negb b && _) |]; intros [= <- <-]; cbn [ahead].
  - apply (moves_on Hno HW); try done. auto.
  - apply (looks_ahead Hno HW); auto; try done. apply same_view.
Qed.

Lemma gone_bits clear s d y q n h f c p :
  (clear = 0 \/ clear = QUEUED \/ clear = HANDOFF \/ clear = Z.lor QUEUED HANDOFF) -> view s = Mk d y q n h f c p ->
  exists q' h' f', view (Z.ldiff s (gone clear)) = Mk false y q' n h' f' c p /\ (q = true -> has QUEUED clear = false -> q' = true) /\ (h' = true -> h = true).
Proof.
  intros Hc Hv. destruct Hc as [-> | [-> | [-> | ->]]].
  - exists q, h, f. split; [by_word Hv | done].
  - exists false, h, false. split; [by_word Hv | done].
  - exists q, false, f. split; [by_word Hv | done].
  - exists false, false, false. split; [by_word Hv | done].
Qed.

Lemma exit_leaves E b h clear current h' :
  (forall st, ~ E (RDrain st)) -> wk E (RDrain (DExit clear current)) h -> stage_ok (DExit clear current) h ->
  drain_step b (DExit clear current) h = Ok (None, h') -> wk E RNone h'.
Proof.
  intros Hno HW Hst. cbn. unfold gives_up. destruct (negb (has _ current)) eqn:Ec; [destruct (negb b && _) eqn:Eb |]; intros [= <-].
  apply andb_true_iff in Eb as [_ <-%Z.eqb_eq]. unfold wk in *. destruct (view_of (word h)) as (d & y & q & n & ha & f & cl & Hv).
  destruct (gone_bits clear _ _ _ _ _ _ _ _ _ Hst Hv) as (q' & h' & f' & Hg & Hq & Hh). cbn in *. rewrite Hg. rewrite Hv in HW.
  rewrite has_or, (test_dirty Hv) in Ec. apply negb_true_iff, orb_false_iff in Ec as [-> Ec]. eapply (W_exits Hno); [exact HW | done | done | | done | done].
  cbn. unfold wanted in Ec. destruct (has QUEUED clear); [by left | right]. by rewrite <- (test_front Hv).
Qed.

(** Every stage but the letting go. *)
Lemma pass_step E b h st : match st with DRelease _ _ | DForgive _ => False | _ => True end -> pass_on E b st h.
Proof.
  intros Ha.
  assert (Hc : match st with DCloseFront | DClosePayload _ | DCloseGrant _ => True | _ => False end -> pass_on E b st h).
  { intros Hc Hno HW. destruct (view_of (word h)) as (d & y & q & n & ha & f & cl & Hv). pose proof (w_nudging _ _ _ _ _ HW) as Hn.
    rewrite Hv in Hn. specialize (Hn st (or_intror eq_refl)). by destruct st. }
  destruct st; try done; auto using clear_on, take_on, absorb_on, hand_front_on, hand_grant_on, hand_back_on, budget_on, nudges_on, nudge_on, exit_on;
    first [by apply sweep_on | by apply hand_take_on | by apply asks_on | by apply fronts_on | by apply marker_on].
Qed.

Definition letting_go (st : Stage) : bool := match st with DRelease _ _ | DForgive _ => true | _ => false end.

Lemma leaves_at_exit b st h h' : drain_step b st h = Ok (None, h') -> exists clear current, st = DExit clear current.
Proof.
  destruct st; cbn; unfold absorb, tidy, sweep, at_front, nudges, on_node, node_at; repeat (case_match; cbn; try done); try done; eauto.
Qed.

Section step.
Context {E : Role -> Prop} {i : nat} {c : Client} {h : Shared}.
Context (R : ready i c h) (EN : env E c h) (HW : wk E (role (pc c)) h) (HM : mutex_at (pc c)) (HN : asks_one c).

Lemma draining_wakes b c' h' st k seen x :
  pc c = Draining st k seen x -> client_step i b c h = Ok (c', h') -> stays E c' h'.
Proof using R EN HW.
  intros Hpc. destruct (drain_client R Hpc) as (D1 & _ & _ & D4 & _). pose proof (here R Hpc) as Hst.
  assert (Hno : forall st, ~ E (RDrain st)) by (intros z [Hz _]%(e_alone _ _ _ EN); lia).
  assert (Hroom : free (word h) + stage_carries st <= 1).
  { pose proof (e_free _ _ _ EN). pose proof (c_held _ _ _ (r_client _ _ _ R)). pose proof (kont_carries_nonneg k (need c) (proj1 (my_need R))). lia. }
  unfold client_step. rewrite Hpc. rewrite Hpc in HW. cbn in HW. destruct (bool_decide _); [| done]. cbn.
  destruct (drain_step b st h) as [[[st' |] h1] |] eqn:Ed; [| | done]; cbn; intros [= <- <-].
  - split; [| done]. cbn. destruct (letting_go st) eqn:El.
    + eapply (let_go_on E b h st); try done. by destruct st.
    + assert (Ha : ahead st = st) by (by destruct st). rewrite Ha in HW.
      eapply (pass_step E b h st); [by destruct st | done | done | apply (r_shared _ _ _ R) | done | done | done].
  - apply stays_calm; [apply calm_resume |]. destruct (leaves_at_exit _ _ _ _ Ed) as (clear & current & ->). by eapply exit_leaves.
Qed.

(** A step of a client keeps the invariant. *)
Lemma step_wakes b c' h' : client_step i b c h = Ok (c', h') -> stays E c' h'.
Proof using All.
  intros Es. pose proof (calm_wakes R EN HW HM HN b c' h') as H1. pose proof (owe_wakes R EN HW HM HN b c' h') as H2.
  pose proof (consume_wakes R EN HW HM HN b c' h') as H3. pose proof (transition_wakes R EN HW HM HN b c' h') as H4.
  pose proof (enqueue_wakes R EN HW HM HN b c' h') as H5. pose proof (node_look_wakes R EN HW HM HN b c' h') as H6.
  pose proof (fun p n => take_wakes R EN HW HM HN b c' h' p n) as H7. pose proof (fun n => take_retry_wakes R EN HW HM HN b c' h' n) as H8.
  pose proof (take_one_wakes R EN HW HM HN b c' h') as H9. pose proof (fun n k => release_wakes R EN HW HM HN n k c' h') as H10.
  pose proof (fun st k seen x => draining_wakes b c' h' st k seen x) as H11. pose proof HM as Hm.
  destruct (pc c) eqn:Epc; auto.
  - unfold client_step in Es. by rewrite Epc in Es.
  - destruct p; [apply (H7 First n) | apply (H8 n) | apply (H7 Try n)]; auto; done.
  - destruct p; [apply (H7 First n) | apply (H8 n) | apply (H7 Try n)]; eauto; done.
  - apply H9; eauto.
  - by apply (H11 st k seen x).
  - unfold client_step in Es. rewrite Epc in Es. apply (H10 n k); [done |]. by injection Es.
Qed.
End step.

(** ** What a step leaves of its client *)

(** The same future, in the same place. *)
Record kept (c c' : Client) : Prop := {
  k_need : need c' = need c;
  k_queued : queued c' = queued c;
  k_push : match pc c' with Push _ _ => False | _ => True end }.

Lemma kept_at c x : match x with Push _ _ => False | _ => True end -> kept c (at_ x c).
Proof. by constructor. Qed.
Lemma kept_answers c x : kept c (answers x c).
Proof. done. Qed.
Lemma kept_taken c : kept c (taken c).
Proof. done. Qed.
Lemma kept_closed c b : kept c (ends_closed b c).
Proof. unfold ends_closed. destruct b; [| done]. by destruct (spend _ _). Qed.
Lemma kept_lost c p seen : kept c (attempt_lost p seen c).
Proof. destruct p; unfold attempt_lost; [destruct (closed_in seen); [apply kept_closed | done] | by destruct (has HANDOFF seen) | done]. Qed.
Lemma kept_won c p n : kept c (attempt_won p n c).
Proof. by destruct p. Qed.
Lemma kept_take_goes c p n s : kept c (take_goes p n s c).
Proof. unfold take_goes. destruct (admits s n); [destruct (has HANDOFF s) |]; try apply kept_lost. done. Qed.
Lemma kept_spin_goes c r g freed seen : kept c (spin_goes r g freed seen c).
Proof. unfold spin_goes. destruct (wait g); [by destruct (stops_spin seen) | by destruct freed]. Qed.
Lemma kept_owe_ends c took seen : kept c (owe_ends took seen c).
Proof. destruct took; [apply kept_won | apply kept_lost]. Qed.
Lemma kept_owe_goes c m took seen : kept c (owe_goes m took seen c).
Proof. unfold owe_goes. destruct m; cbn; [| done]. destruct (took || has HANDOFF seen); [done | apply kept_owe_ends]. Qed.
Lemma kept_resume c k seen x : kept c (resume k seen x c).
Proof. destruct k; unfold resume; try done; [by destruct (queued_now c) | apply kept_owe_goes | apply kept_owe_ends]. Qed.
Lemma kept_tr_goes c tr k s c' : tr_goes tr k s c = Ok c' -> kept c c'.
Proof. unfold tr_goes. destruct (change tr s) as [[] |]; intros [= <-]; try apply kept_resume; done. Qed.
#[local] Hint Resolve kept_at kept_answers kept_taken kept_closed kept_lost kept_won kept_take_goes kept_spin_goes kept_owe_ends kept_owe_goes
  kept_resume : kept.

(** Steps that neither queue nor leave the queue. *)
Definition settles (pc : Pc) : bool := match pc with Enqueue | Push _ _ | ParkLook | CancelLook _ => false | _ => true end.

Lemma step_kept i b c h c' h' : settles (pc c) = true -> client_step i b c h = Ok (c', h') -> kept c c'.
Proof.
  intros Hp Es. revert Es. open_step. unfold on_mine, mine_marked, on_node, node_at, and_then. destruct (pc c) eqn:Epc; try done; cbn [settles] in Hp.
  all: try (destruct (try_spend (thread c)) as [ok t]).
  all: repeat (case_match; cbn; try done); intros Es; simplify_eq; cbn; eauto using kept_tr_goes with kept; try done.
Qed.

Lemma waits_back ns k x x' m : ns !! k = Some x -> (phase x' = Waiting -> phase x = Waiting) -> waits (<[k := x']> ns) m -> waits ns m.
Proof. intros Hk Hp [[-> Hw] | [_ ?]]%(waits_set ns k x x' m Hk); [exists x; auto | done]. Qed.

(** Nobody starts to wait, and no permit comes or goes. *)
Definition nobody_new (h h' : Shared) : Prop := total h' = total h /\ forall m, waits (nodes h') m -> waits (nodes h) m.

Lemma nobody_on_node {A} n (f : Cell -> A * Cell) h r h' :
  (forall x, phase (snd (f x)) = Waiting -> phase x = Waiting) -> on_node n f h = Ok (r, h') -> nobody_new h h'.
Proof.
  intros Hf. unfold on_node, node_at. destruct (nodes h !! n) as [x|] eqn:Hx; [| done]. cbn. intros [= _ <-]. split; [done |].
  intros m. exact (waits_back _ n x _ m Hx (Hf x)).
Qed.

Lemma drain_nobody_new b st h st' h' :
  match st with DClosePayload _ => False | _ => True end -> drain_step b st h = Ok (st', h') -> nobody_new h h'.
Proof.
  intros Hc. destruct st; try done; cbn; unfold absorb, tidy, sweep, at_front, nudges, gives_up.
  all: try match goal with |- context [on_node ?n ?f ?h] => destruct (on_node n f h) as [[r h1]|] eqn:En; [| done]; cbn; intros [= _ <-];
    apply (nobody_on_node _ _ _ _ _) in En; [done |]; unfold cell_grant, cell_nudge, cell_let_go; intros x; by destruct (is_waiting x) end.
  all: unfold and_then, node_at; repeat (case_match; try done); intros [= <- <-]; by split.
Qed.

Lemma step_nobody_new i b c h c' h' :
  settles (pc c) = true -> mutex_at (pc c) -> (forall n k seen x, pc c <> Draining (DClosePayload n) k seen x) ->
  client_step i b c h = Ok (c', h') -> nobody_new h h'.
Proof.
  intros Hp Hm Hcl. open_step. unfold mine_marked, on_mine. destruct (pc c) eqn:Epc; try done; cbn [settles mutex_at] in Hp, Hm.
  all: try match goal with |- context [drain_step ?b ?st ?h] => destruct (exclusive _); [| done]; cbn; destruct (drain_step b st h) as [[r h1]|] eqn:Ed; [| done];
    cbn; intros [= _ <-]; apply drain_nobody_new in Ed; [done |]; destruct st; try done; by edestruct Hcl end.
  all: try match goal with |- context [match queued ?c with Some n => on_node n ?f ?h | None => _ end] => destruct (queued c) as [n|]; [| cbn; intros [= _ <-]; by split];
    destruct (on_node n f h) as [[r h1]|] eqn:En; [| done]; cbn; intros [= _ <-];
    apply (nobody_on_node _ _ _ _ _) in En; [done |]; unfold cell_owe, cell_unowe; intros y; by destruct (is_waiting y), (owed_mark y) end.
  all: try match goal with |- context [try_spend ?t] => destruct (try_spend t) as [ok u] end.
  all: unfold and_then, node_at; repeat (case_match; cbn; try done); intros Es; simplify_eq; split; cbn; try done.
  all: lia.
Qed.

(** A call that is no future's stays so. *)
Lemma plain_kept i b c h c' h' : plain (pc c) = true -> client_step i b c h = Ok (c', h') -> plain (pc c') = true.
Proof.
  intros Hp. open_step. destruct (pc c) eqn:Epc; try done; cbn [plain] in Hp.
  - destruct p; try done. unfold take_goes. repeat case_match; intros Es; simplify_eq; done.
  - destruct p; try done. unfold take_goes. repeat case_match; intros Es; simplify_eq; done.
  - destruct tr, k; try done. cbn. by intros [= <- <-].
  - destruct tr, k; try done. destruct (swaps current x) as [[next []] |]; [..| done]; destruct (negb b && _); cbn; by intros [= <- <-].
  - destruct k; try done. destruct (exclusive _); [| done]. cbn. destruct (drain_step b st h) as [[[] ?] |]; [..| done]; cbn; by intros [= <- <-].
  - destruct k; try done. destruct (n =? 0); [| destruct (wants_drain (word h))]; by intros [= <- <-].
Qed.

(** What a step keeps of the mutex: the permit, what futures ask for, and
    that whoever waits belongs to somebody. *)
Record tidy_step (c : Client) (h : Shared) (c' : Client) (h' : Shared) : Prop := {
  t_total : total h' = total h;
  t_asks : asks_one c -> asks_one c';
  t_owner : forall n, waits (nodes h') n -> own_node c' = Some n \/ waits (nodes h) n /\ own_node c <> Some n }.

Lemma settled_tidy i b c h c' h' :
  settles (pc c) = true -> mutex_at (pc c) -> (forall n k seen x, pc c <> Draining (DClosePayload n) k seen x) ->
  client_step i b c h = Ok (c', h') -> tidy_step c h c' h'.
Proof.
  intros Hp Hm Hcl Es. pose proof (step_kept _ _ _ _ _ _ Hp Es) as [K1 K2 K3]. pose proof (step_nobody_new _ _ _ _ _ _ Hp Hm Hcl Es) as [N1 N2].
  constructor; [done | |].
  - intros [Hn | [Hq Hpl]]; [left; congruence | right]. split; [congruence |]. by eapply plain_kept.
  - intros n Hw%N2. assert (own_node c' = own_node c) as ->. { unfold own_node. rewrite K2. by destruct (pc c), (pc c'). }
    destruct (decide (own_node c = Some n)); auto.
Qed.

(** A future looks at its node: it keeps it, or nobody waits on it any more. *)
Lemma look_tidy i c h n x x' c' :
  ready i c h -> queued c = Some n -> quiet (pc c) = true -> quiet (pc c') = true -> nodes h !! n = Some x -> need c' = need c -> plain (pc c) = false ->
  (phase x' = Waiting -> phase x = Waiting /\ queued c' = Some n) -> tidy_step c h c' (set_nodes (<[n := x']> (nodes h)) h).
Proof.
  intros R Hq Hc Hc' Hx Hn Hpl Hw. destruct (quiet_shares c Hc) as [_ Ho]. destruct (quiet_shares c' Hc') as [_ Ho'].
  constructor; [done | intros [? | [_ ?]]; [left; congruence | congruence] |].
  rewrite Ho, Ho', Hq. cbn. intros m [[-> Hp] | [Hne Hm]]%(waits_set _ n x x' m Hx); [left; by apply Hw | right; split; [done | congruence]].
Qed.

Lemma queue_tidy i b c h c' h' : ready i c h -> settles (pc c) = false -> client_step i b c h = Ok (c', h') -> tidy_step c h c' h'.
Proof.
  intros R Hp. assert (Hpl : plain (pc c) = false) by (by destruct (pc c)).
  assert (Hone : need c' = need c -> asks_one c -> asks_one c') by (intros Hn [? | [_ ?]]; [left; congruence | congruence]).
  assert (Hlook : quiet (pc c) = true -> queued c <> None -> exists n x, queued c = Some n /\ nodes h !! n = Some x /\
    forall c' x', quiet (pc c') = true -> need c' = need c -> (phase x' = Waiting -> phase x = Waiting /\ queued c' = Some n) ->
      tidy_step c h c' (set_nodes (<[n := x']> (nodes h)) h)).
  { intros Hc Hq. destruct (queued c) as [n|] eqn:Eq; [| done]. destruct (my_node i c h n R Eq) as (x & Hx & _). exists n, x.
    repeat split; try done; intros; by eapply look_tidy. }
  pose proof (queued_yes R) as Hyes. pose proof (queued_no R) as Hnone.
  unfold client_step, on_mine, on_node, node_at. destruct (pc c) eqn:Epc; try done; cbn in Hnone, Hyes.
  - intros [= <- <-]. constructor; [done | auto |]. unfold own_node. cbn. rewrite Epc, Hnone by done. intros n (x & Hx & Hw).
    destruct (decide (fresh h = n)) as [-> | Hne]; [by left |]. rewrite lookup_insert_ne in Hx by done. right. split; [by exists x | done].
  - destruct (negb b && _); intros [= <- <-]; (constructor; [done | auto |]); unfold own_node; cbn; rewrite Epc; intros m Hw;
      (destruct (decide (n = m)) as [-> |]; [by left | right; split; [done | congruence]]).
  - destruct (Hlook eq_refl (Hyes eq_refl)) as (n & x & Hqn & Hx & Ht). rewrite Hqn, Hx. cbn. unfold cell_look. destruct (is_granted x) eqn:Eg; [| destruct (nudged x)];
      cbn; intros [= <- <-]; apply Ht; try done; cbn; auto; by rewrite (granted_phase x Eg).
  - destruct (Hlook eq_refl (Hyes eq_refl)) as (n & x & Hqn & Hx & Ht). rewrite Hqn, Hx. cbn. unfold cell_cancel. destruct (is_granted x) eqn:Eg;
      cbn; intros [= <- <-]; apply Ht; try done; cbn; auto; by rewrite (granted_phase x Eg).
Qed.

(** ** The mutex *)

(** What users of a mutex do with its semaphore: lock, with a future they may
    drop, try to lock, and unlock. *)
Definition mutex_act (a : Act) : bool :=
  match a with Acquire _ _ | PollOne _ _ _ | DropAcquire _ | TryAcquire _ _ | Release _ _ | StepOf _ _ => true | _ => false end.

(** The parts of all clients, and of all but one. *)
Definition parts (s : Sys) (r : Role) : Prop := exists i c, clients s !! i = Some c /\ role (pc c) = r.
Definition others (i : nat) (s : Sys) (r : Role) : Prop := exists j d, j <> i /\ clients s !! j = Some d /\ role (pc d) = r.

Record mutex_inv (s : Sys) : Prop := {
  x_inv : inv 1 s;
  x_total : total (shared s) = 1;
  x_clients : forall i c, clients s !! i = Some c -> mutex_at (pc c) /\ asks_one c;
  x_wakes : W (parts s) (nodes (shared s)) (waiting (shared s)) (arrivals (shared s)) (view (word (shared s)));
  x_owner : forall n, waits (nodes (shared s)) n -> exists i c, clients s !! i = Some c /\ own_node c = Some n }.

(** The parts a place has. *)
Lemma role_part pc :
  match role pc with
  | RDrain _ => exists st k seen x, pc = Draining st k seen x
  | RTakes => exists p, pc = Consume (Some p) \/ exists k, pc = CancelConsume p k
  | _ => True
  end.
Proof. destruct pc as [| [] | [] | | | | | | | | | | [] | [] | | | [] | | | | | | | | | | | | | | | | | | |]; cbn; eauto 8. Qed.

Lemma role_drains d st : role (pc d) = RDrain st -> is_draining d = 1.
Proof. intros Hr. pose proof (role_part (pc d)) as Hp. rewrite Hr in Hp. destruct Hp as (? & k & seen & x & E). unfold is_draining. by rewrite E. Qed.

Lemma drains_role d : is_draining d = 1 -> exists st, role (pc d) = RDrain st.
Proof. unfold is_draining. destruct (pc d); try done. cbn. eauto. Qed.

Section system.
Context {s : Sys} (X : mutex_inv s) (i : nat).

Lemma x_ready : ready i (client_at i s) (shared s).
Proof using X. eapply inv_ready; [apply (x_inv _ X) | done]. Qed.

Lemma x_client : mutex_at (pc (client_at i s)) /\ asks_one (client_at i s).
Proof using X.
  unfold client_at. destruct (clients s !! i) as [c|] eqn:Ec; [by apply (x_clients _ X i) |]. cbn. split; [done | by right].
Qed.

Lemma takes_one d j : clients s !! j = Some d -> role (pc d) = RTakes -> 1 <= carries d.
Proof using X.
  intros Hd Hr. destruct (x_clients _ X j d Hd) as [Hm Hn]. pose proof (i_clients _ _ (x_inv _ X) j d Hd) as Hok. pose proof (c_held _ _ _ Hok).
  pose proof (role_part (pc d)) as Hp. rewrite Hr in Hp. unfold carries. destruct Hp as (p & [Hp | [k Hp]]); rewrite Hp in *; cbn in Hm |- *; subst p;
    (assert (need d = 1) as -> by (apply (need_one Hn); by rewrite Hp)); change (1 =? CLOSED_GRANT) with false; [lia |].
  pose proof (kont_carries_nonneg k 1 ltac:(lia)). lia.
Qed.

Lemma x_wk : wk (others i s) (role (pc (client_at i s))) (shared s).
Proof using X.
  eapply W_more; [| | apply (x_wakes _ X)].
  - intros r Hr (j & d & Hd & Hrd). destruct (decide (j = i)) as [-> | Hne]; [right; unfold client_at; by rewrite Hd | left; by exists j, d].
  - intros st [(j & d & _ & Hd & Hrd) | Hr]; [by exists j, d |]. unfold client_at in Hr. destruct (clients s !! i) as [c|] eqn:Ec; [by exists i, c | done].
Qed.

Lemma x_env : env (others i s) (client_at i s) (shared s).
Proof using X.
  pose proof (x_inv _ X) as HI. pose proof (i_sum _ _ HI) as Hsum. rewrite (x_total _ X) in Hsum. pose proof (i_shared _ _ HI) as HS.
  assert (Hcn : forall j d, clients s !! j = Some d -> 0 <= carries d) by (intros j d Hd; eapply carries_nonneg; [done | by eapply i_clients]).
  assert (Hxn : forall n x, nodes (shared s) !! n = Some x -> 0 <= cell_carries x) by (intros n x Hx; by eapply cell_carries_nonneg, h_cells).
  pose proof (share_one carries s i eq_refl Hcn) as H1. pose proof (nodes_sum_nonneg _ HS).
  constructor.
  - intros st (j & d & Hne & Hd & Hr%role_drains). pose proof (a_role _ _ _ (inv_apart _ s i j d HI Hne Hd)) as Ha. rewrite Hr in Ha.
    pose proof (is_draining_nonneg (client_at i s)). destruct (has DRAINING (word (shared s))); cbn in Ha; [split; [lia | done] | lia].
  - intros Hd. pose proof (i_role _ _ HI) as Hr. rewrite Hd in Hr. cbn in Hr.
    destruct (msum_pos is_draining (clients s)) as (j & d & Hj & Hp); [intros ? d _; apply is_draining_nonneg | lia |].
    assert (Hd1 : is_draining d = 1) by (revert Hp; unfold is_draining; destruct (pc d); lia).
    destruct (decide (j = i)) as [-> | Hne]; [left; unfold client_at; by rewrite Hj | right]. destruct (drains_role d Hd1) as [st Hst]. by exists st, j, d.
  - intros st st' (j & d & _ & Hj & Hr) (j' & d' & _ & Hj' & Hr').
    assert (j = j') as <- by (eapply (inv_one_drains _ s j j' d d' HI); eauto using role_drains). congruence.
  - intros (j & d & Hne & Hj & Hr). pose proof (share_two carries s i j d eq_refl Hcn Hne Hj). pose proof (takes_one d j Hj Hr). lia.
  - intros n x Hx. pose proof (msum_one cell_carries _ n x Hxn Hx). lia.
  - lia.
Qed.
End system.

(** What begins in a client that is in no call. *)
Lemma begins_tidy c h c' : pc c = Idle -> queued c' = queued c -> (asks_one c -> asks_one c') -> match pc c' with Push _ _ => False | _ => True end -> tidy_step c h c' h.
Proof.
  intros Hpc Hq Ha Hp. constructor; [done | done |]. intros n Hw. assert (own_node c' = own_node c) as ->. { unfold own_node. rewrite Hpc, Hq. by destruct (pc c'). }
  destruct (decide (own_node c = Some n)); auto.
Qed.

Lemma asks_queued c : asks_one c -> queued c <> None -> need c = 1.
Proof. intros [? | [? _]]; done. Qed.

Lemma begins_wakes a E c h c' h' :
  mutex_act a = true -> match a with StepOf _ _ => False | _ => True end -> wk E (role (pc c)) h -> asks_one c -> client_act a c h = Ok (c', h') ->
  stays E c' h' /\ tidy_step c h c' h'.
Proof.
  intros Hm Hs HW Ha. assert (Hi : pc c = Idle -> wk E RNone h) by (intros Hpc; by rewrite Hpc in HW).
  pose proof (asks_queued c Ha) as Hq. unfold client_act, if_, is_idle. destruct a; try done; destruct (pc c) eqn:Epc; try done; cbn [andb]; specialize (Hi eq_refl).
  - destruct (_ && _) eqn:Eg; [| done]. intros [= <- <-]. apply andb_true_iff in Eg as [[Eg _]%andb_true_iff _].
    assert (Hn : queued c = None) by (unfold not_queued in Eg; by destruct (queued c)).
    split; [apply stays_calm; [by split; cbn; rewrite Epc | done] |]. apply begins_tidy; cbn; rewrite ?Epc; try done. intros _. right. cbn. by rewrite Epc.
  - destruct (Z.eqb_spec (need c) 1) as [Hn |]; [| done]. intros [= <- <-]. unfold begins.
    split; [apply stays_calm; [by cbn; destruct (not_queued c) | done] |]. apply begins_tidy; cbn; try done; [by left | by destruct (not_queued c)].
  - unfold not_queued. destruct (queued c) as [n|] eqn:Eq; intros [= <- <-]; (split; [by apply stays_calm |]); (apply begins_tidy; cbn; try done).
    + intros _. left. by apply Hq.
    + intros _. by right.
  - destruct (_ && _); [| done]. intros [= <- <-]. split; [by apply stays_calm |]. apply begins_tidy; cbn; try done. intros [? | [? _]]; [by left | by right].
  - destruct (_ && _); [| done]. intros [= <- <-]. split; [by apply stays_calm |]. apply begins_tidy; cbn; try done. intros [? | [? _]]; [by left | by right].
Qed.

(** Whatever a client of the mutex does keeps the invariant. *)
Lemma client_act_wakes a s c' h' :
  mutex_inv s -> mutex_act a = true -> client_act a (client_at (who a) s) (shared s) = Ok (c', h') ->
  stays (others (who a) s) c' h' /\ tidy_step (client_at (who a) s) (shared s) c' h'.
Proof.
  intros X Hm Ea. pose proof (x_wk X (who a)) as HW. pose proof (x_client X (who a)) as [HM HN].
  destruct (match a with StepOf _ _ => true | _ => false end) eqn:Es; [| eapply begins_wakes; try done; by destruct a].
  destruct a; try done. cbn in *. pose proof (x_ready X i) as R. split; [by eapply (step_wakes R (x_env X i) HW HM HN) |].
  destruct (settles (pc (client_at i s))) eqn:Ep; [| by eapply (queue_tidy i)].
  eapply settled_tidy; try done. intros n k seen x Hpc. pose proof (w_nudging _ _ _ _ _ HW) as Hn.
  destruct (view_of (word (shared s))) as (d & y & q & nu & ha & f & cl & Hv). rewrite Hv in Hn. rewrite Hpc in Hn. by apply (Hn (DClosePayload n) (or_intror eq_refl)).
Qed.

Lemma mutex_act_inv a s s' : mutex_inv s -> mutex_act a = true -> act a s = Ok s' -> mutex_inv s'.
Proof.
  intros X Hm Ha. pose proof (sys_act_inv 1 a s (x_inv _ X) ltac:(done)) as Hi. rewrite Ha in Hi. assert (grows a = 0) as Hg by (by destruct a). rewrite Hg in Hi.
  unfold act in Ha. fold (client_at (who a) s) in Ha. destruct (client_act a (client_at (who a) s) (shared s)) as [[c' h']|] eqn:Ec; [| done].
  destruct (client_act_wakes a s c' h' X Hm Ec) as [[HW HM] [T1 T2 T3]]. cbn in Ha. injection Ha as <-. set (i := who a) in *.
  assert (Hl : forall j d, <[i := c']> (clients s) !! j = Some d <-> (j = i /\ d = c') \/ (j <> i /\ clients s !! j = Some d)).
  { intros j d. destruct (decide (j = i)) as [-> |]; [rewrite lookup_insert_eq | rewrite lookup_insert_ne by done]; naive_solver. }
  constructor; cbn; [done | rewrite T1; apply (x_total _ X) | | |].
  - intros j d [[-> ->] | [_ Hd]]%Hl; [split; [done | apply T2, (x_client X i)] | by apply (x_clients _ X j)].
  - eapply W_more; [| | exact HW].
    + intros r _ [(j & d & Hne & Hd & Hr) | ->]; [exists j, d | exists i, c']; (split; [apply Hl; auto | done]).
    + intros st (j & d & [[-> ->] | [Hne Hd]]%Hl & Hr); [by right | left; by exists j, d].
  - intros n [Ho | [Hw Hne]]%T3; [exists i, c'; split; [apply Hl; auto | done] |]. destruct (x_owner _ X n Hw) as (j & d & Hd & Ho). exists j, d. split; [| done].
    apply Hl. right. split; [| done]. intros ->. apply Hne. unfold client_at. by rewrite Hd.
Qed.

Lemma mutex_acts_inv l s s' : mutex_inv s -> forallb mutex_act l = true -> acts l s = Ok s' -> mutex_inv s'.
Proof.
  revert s. induction l as [|a l IH]; intros s X Hl; [by intros [= <-] |]. cbn in Hl. apply andb_true_iff in Hl as [Ha Hl].
  change (acts (a :: l) s) with (match act a s with Ok s' => acts l s' | Err e => Err e end). destruct (act a s) as [s1|] eqn:Ea; [| done].
  apply IH; [by eapply mutex_act_inv | done].
Qed.

Lemma mutex_new spins s : system_new spins 1 = Some s -> mutex_inv s.
Proof.
  intros Hs. pose proof (system_inv _ _ _ Hs ltac:(lia)) as Hi. cbn in Hs. injection Hs as <-. constructor; [done | done | done | | ].
  - cbn. assert (view (Z.shiftl 1 SHIFT) = Mk false false false false false false false 1) as -> by (vm_compute; reflexivity).
    assert (Hw : forall m, ~ waits ∅ m) by (by intros m (x & Hx & _)).
    constructor; try done; try (by intros [m []%Hw]); try (by intros st (i & c & Hc & _)). by intros m []%Hw.
  - by intros n (x & Hx & _).
Qed.

(** ** The next poll of who was told *)

(** Steps of one client. *)
Fixpoint runs (k : nat) (i : nat) (c : Client) (h : Shared) : CStep :=
  match k with O => Ok (c, h) | S k => let? (c, h) := client_step i false c h in runs k i c h end.

Lemma acts_runs k i s c c' h' :
  clients s !! i = Some c -> runs k i c (shared s) = Ok (c', h') ->
  exists s', acts (replicate k (StepOf i false)) s = Ok s' /\ shared s' = h' /\ clients s' !! i = Some c'.
Proof.
  revert s c. induction k as [|k IH]; intros s c Hc Hr; cbn in Hr; [simplify_eq; by exists s |].
  destruct (client_step i false c (shared s)) as [[c1 h1]|] eqn:Es; [| done]. cbn in Hr.
  change (acts (replicate (S k) (StepOf i false)) s) with (match act (StepOf i false) s with Ok s' => acts (replicate k (StepOf i false)) s' | Err e => Err e end).
  unfold act. cbn. rewrite Hc. cbn. rewrite Es. cbn. apply (IH _ c1); [apply lookup_insert_eq | done].
Qed.

Lemma runs_one k i c h c' h' : client_step i false c h = Ok (c', h') -> runs (S k) i c h = runs k i c' h'.
Proof. intros Es. cbn. by rewrite Es. Qed.

(** A retry takes a permit that is free: on its own, and as the attempt before
    it is owed a handoff. *)
Lemma retry_takes i c h :
  free (word h) = 1 -> has HANDOFF (word h) = false -> has CLOSED (word h) = false -> need c = 1 ->
  runs 2 i (at_ (TakeLoad Retry 1) c) h = Ok (at_ WonLook c, set_word (minus 1 (word h)) h).
Proof.
  intros Hf Hh Hc Hn. assert (Ha : admits (word h) 1 = Some (minus 1 (word h))) by (unfold admits; by rewrite Hf, Hc).
  rewrite (runs_one _ _ _ _ (at_ (TakeSwap Retry 1 (word h)) c) h).
  - cbn. by rewrite Z.eqb_refl.
  - unfold client_step, try_take, take_goes. cbn. by rewrite Ha, Hh.
Qed.

Lemma owed_takes i c h m x :
  free (word h) = 1 -> has HANDOFF (word h) = false -> has CLOSED (word h) = false -> need c = 1 -> queued c = Some m ->
  nodes h !! m = Some x -> phase x = Waiting ->
  exists h', runs 4 i (at_ OweCount c) h = Ok (at_ (OweUnowe true (word h)) c, h') /\ word h' = minus 1 (word h).
Proof.
  intros Hf Hh Hc Hn Hq Hx Hp. assert (Ha : admits (word h) 1 = Some (minus 1 (word h))) by (unfold admits; by rewrite Hf, Hc).
  set (h1 := set_nodes (<[m := set_owed_mark true x]> (nodes h)) (owe_one h)). eexists. split.
  - rewrite (runs_one _ _ _ _ (at_ OweMark c) (owe_one h)) by done.
    rewrite (runs_one _ _ _ _ (at_ (TrLoad (TOwe 1) KOwed) c) h1).
    2: { unfold client_step, on_mine, on_node, node_at. cbn. rewrite Hq, Hx. cbn. unfold cell_owe, is_waiting. by rewrite Hp, Hn. }
    rewrite (runs_one _ _ _ _ (at_ (TrSwap (TOwe 1) KOwed (word h) (Set_ (minus 1 (word h)))) c) h1).
    2: { unfold client_step, tr_goes. cbn. unfold owe_or_take. by rewrite Hh, Ha. }
    cbn. rewrite Z.eqb_refl. reflexivity.
  - done.
Qed.

(** A waiter that was nudged looks, and takes a permit that is free. *)
Lemma told_takes i c h m x :
  pc c = ParkLook -> need c = 1 -> queued c = Some m -> nodes h !! m = Some x -> phase x = Waiting -> nudged x = true ->
  free (word h) = 1 -> has HANDOFF (word h) = false -> has CLOSED (word h) = false ->
  exists k c' h', (k <= 6)%nat /\ runs k i c h = Ok (c', h') /\ free (word h') = 0 /\ under_way c' = 1.
Proof.
  intros Hpc Hn Hq Hx Hp Hu Hf Hh Hcl. destruct (view_of (word h)) as (d & y & q & nu & ha & f & cl & Hv).
  rewrite (test_handoff Hv) in Hh. rewrite (test_closed Hv) in Hcl. rewrite Hf in Hv. subst ha cl.
  pose proof (view_no_nudge Hv) as V. set (w := Z.ldiff (word h) NUDGE_OUT) in *. pose proof (test_free (view_minus V 1)) as Hw.
  set (h1 := set_word w (set_nodes (<[m := set_nudged false x]> (nodes h)) h)).
  assert (H2 : forall k, runs (S (S k)) i c h = runs k i (if bypass c + 1 =? MAX_BYPASS then at_ OweCount c else at_ (TakeLoad Retry 1) c) h1).
  { intros k. rewrite (runs_one _ _ _ _ (at_ (Consume None) c) (set_nodes (<[m := set_nudged false x]> (nodes h)) h)).
    - apply runs_one. cbn. rewrite Hn. by destruct (_ =? _).
    - unfold client_step, on_mine, on_node, node_at. rewrite Hpc, Hq, Hx. cbn. unfold cell_look, is_granted. by rewrite Hp, Hu. }
  destruct (bypass c + 1 =? MAX_BYPASS).
  - destruct (owed_takes i c h1 m (set_nudged false x)) as (h' & Hr & Hw'); try done; [apply (test_free V) | apply (test_handoff V) | apply (test_closed V) | apply lookup_insert_eq |].
    exists 6%nat, (at_ (OweUnowe true w) c), h'. rewrite H2, Hw'. split; [lia |]. split; [exact Hr |]. by split.
  - exists 4%nat, (at_ WonLook c), (set_word (minus 1 w) h1). rewrite H2, retry_takes; [split; [lia | done] | apply (test_free V) | apply (test_handoff V) | apply (test_closed V) | done].
Qed.

(** A free mutex that somebody waits for, with no call under way: a waiter was
    nudged, and no handoff is owed. *)
Lemma told_one s i c :
  mutex_inv s -> (forall j d, clients s !! j = Some d -> pc d = Idle) -> free (word (shared s)) = 1 -> clients s !! i = Some c -> queued c <> None ->
  exists m x, nodes (shared s) !! m = Some x /\ phase x = Waiting /\ nudged x = true /\ has HANDOFF (word (shared s)) = false.
Proof.
  intros X Hidle Hf Hc Hq. destruct (queued c) as [n|] eqn:Eq; [| done]. pose proof (x_ready X i) as R. pose proof (x_env X i) as EN. pose proof (x_wk X i) as HW.
  assert (Hci : client_at i s = c) by (unfold client_at; by rewrite Hc). destruct (my_node i (client_at i s) (shared s) n R) as (z & Hz & Hh & Hcz & _); [by rewrite Hci |].
  assert (Hw : exists m, waits (nodes (shared s)) m).
  { exists n, z. split; [done |]. destruct (phase z) eqn:Ep; [done | | done]. pose proof (granted_takes _ _ _ _ n z EN HW Hz Ep Hh). pose proof (carries_ok _ _ _ R). lia. }
  assert (Hno : forall r, parts s r -> r = RNone) by (intros r (j & d & Hd & <-); by rewrite (Hidle j d Hd)).
  destruct (view_of (word (shared s))) as (d & y & q & nu & ha & f & cl & Hv). pose proof (w_due _ _ _ _ _ (x_wakes _ X)) as Hdue. rewrite Hv, Hf in Hdue.
  destruct (Hdue eq_refl Hw) as [[-> [(m & x & Hx & Hp & Hu) | [?%Hno | ?%Hno]]] | [(st & ?%Hno & _) | (r & ->%Hno & ?)]]; try done.
  exists m, x. rewrite (test_handoff Hv). done.
Qed.

(** C17. A mutex loses no wake: whatever its users do, and however their steps
    interleave, if it is free while somebody waits and no call is under way,
    then some waiter has been told, and the next poll of that waiter takes the
    mutex, within six steps. *)
Theorem shared_mutex_loses_no_wake spins s0 l s i c :
  system_new spins 1 = Some s0 -> forallb mutex_act l = true -> acts l s0 = Ok s ->
  (forall j d, clients s !! j = Some d -> pc d = Idle) -> free (word (shared s)) = 1 -> clients s !! i = Some c -> queued c <> None ->
  exists j d m x,
    clients s !! j = Some d /\ queued d = Some m /\ nodes (shared s) !! m = Some x /\ phase x = Waiting /\ nudged x = true /\
    forall w ops, exists k s', (k <= 6)%nat /\ acts (PollOne j w ops :: replicate k (StepOf j false)) s = Ok s' /\
      free (word (shared s')) = 0 /\ under_way (client_at j s') = 1.
Proof.
  intros Hs Hl Ha Hidle Hf Hc Hq. pose proof (mutex_acts_inv l s0 s (mutex_new _ _ Hs) Hl Ha) as X.
  destruct (told_one s i c X Hidle Hf Hc Hq) as (m & x & Hx & Hp & Hu & Hh).
  destruct (x_owner _ X m) as (j & d & Hd & Ho); [by exists x |]. pose proof (Hidle j d Hd) as Hpc. unfold own_node in Ho. rewrite Hpc in Ho.
  exists j, d, m, x. repeat (split; [done |]). intros w ops.
  destruct (x_clients _ X j d Hd) as [_ Hn]. apply asks_queued in Hn; [| congruence].
  destruct (told_takes j (begins TakeOneLoad w ops d) (shared s) m x) as (k & c' & h' & Hk & Hr & Hf' & Hun); try done;
    [unfold begins, not_queued; by rewrite Ho | exact (open_word (x_wk X j)) |].
  set (s1 := {| shared := shared s; clients := <[j := begins TakeOneLoad w ops d]> (clients s) |}).
  destruct (acts_runs k j s1 _ c' h' (lookup_insert_eq _ _ _) Hr) as (s' & Hacts & <- & Hc').
  exists k, s'. repeat split; try done.
  - rewrite (run_step act _ _ s1); [done |]. unfold act. cbn. rewrite Hd. cbn. unfold is_idle. by rewrite Hpc, Hn.
  - unfold client_at. by rewrite Hc'.
Qed.

(** Client 1 locks; client 2 waits; client 1 unlocks. *)
Definition unlocked : list Act := call (TryAcquire 1 1) 2 ++ [Acquire 2 1] ++ call (PollOne 2 7 10) 22 ++ call (Release 1 1) 20.
Definition after_unlock : Sys := match acts unlocked one_permit with Ok s => s | Err _ => one_permit end.

Lemma idle_all s : forallb (fun p => is_idle (snd p)) (map_to_list (clients s)) = true -> forall j d, clients s !! j = Some d -> pc d = Idle.
Proof.
  intros Hi j d Hd%elem_of_map_to_list%list_elem_of_In. rewrite forallb_forall in Hi. specialize (Hi _ Hd). cbn in Hi.
  unfold is_idle in Hi. by destruct (pc d).
Qed.

Lemma shared_mutex_loses_no_wake_witness :
  free (word (shared after_unlock)) = 1 /\ queued (client_at 2 after_unlock) = Some 0%nat /\
  exists j d m x,
    clients after_unlock !! j = Some d /\ queued d = Some m /\ nodes (shared after_unlock) !! m = Some x /\ phase x = Waiting /\ nudged x = true /\
    forall w ops, exists k s', (k <= 6)%nat /\ acts (PollOne j w ops :: replicate k (StepOf j false)) after_unlock = Ok s' /\
      free (word (shared s')) = 0 /\ under_way (client_at j s') = 1.
Proof.
  split; [vm_compute; reflexivity |]. split; [vm_compute; reflexivity |].
  apply (shared_mutex_loses_no_wake false one_permit unlocked after_unlock 2 (client_at 2 after_unlock)).
  - vm_compute; reflexivity.
  - vm_compute; reflexivity.
  - vm_compute; reflexivity.
  - apply idle_all. vm_compute; reflexivity.
  - vm_compute; reflexivity.
  - vm_compute; reflexivity.
  - vm_compute; discriminate.
Defined.
