(* ===== verification/Streams.v ===== *)
(** * Streams

    The traits of [futures_io] that [io/util] is written against, as classes:
    one for the operations of a reader, a writer, a buffered reader; one for
    what each promises. A promise speaks of the bytes a stream has handed over
    so far: [gave r h] says that [r] may have given exactly [h], [took w h] that
    [w] may have taken exactly [h]. A poll that panics answers [None]. *)

From S2P Require Import Prelude Bytes.
Open Scope Z_scope.

Notation byte := Z (only parsing).

(** [io::Error], by its kind; the errors of a stream from outside by a code. *)
Inductive Error : Type := WriteZero | UnexpectedEof | InvalidData | Foreign (code : Z).

Definition PollIo (T : Type) : Type := Poll (Result T Error).

(** A poll of a stream [S]: what it answers and the stream after it. *)
Definition Polled (S T : Type) : Type := option (PollIo T * S).

(** An index or a sum that is out of range panics. *)
Notation "'let*' x ':=' m 'in' k" := (match m with Some x => k | None => None end)
  (at level 200, x pattern, m at level 100, k at level 200) : nuclei_scope.

(** [ready!(m)?] and what follows it: a pending poll and an error answer at
    once, with the state the caller has then. *)
Definition ready {S S' T U} (m : Polled S T) (back : S -> S') (k : T -> S -> Polled S' U) : Polled S' U :=
  match m with
  | Some (Ready (Ok t), s) => k t s
  | Some (Ready (Err e), s) => Some (Ready (Err e), back s)
  | Some (Pending, s) => Some (Pending, back s)
  | None => None
  end.

(** ** Readers *)

(** [poll_read] into a slice of [n] bytes: the bytes it put at its front. *)
Class AsyncRead (R : Type) : Type := poll_read : Waker -> Z -> R -> Polled R (list byte).

(** What a poll of a reader promises to one who has had [h] from it. *)
Definition read_promise {R} (gave : R -> list byte -> Prop) (n : Z) (h : list byte) (m : Polled R (list byte)) : Prop :=
  exists p r, m = Some (p, r) /\
  match p with
  | Ready (Ok bs) => vlen bs <= n /\ gave r (h ++ bs)
  | _ => gave r h
  end.

Class Reader (R : Type) `{AsyncRead R} : Type := {
  gave : R -> list byte -> Prop;
  read_law : forall cx n r h, 0 <= n -> gave r h -> read_promise gave n h (poll_read cx n r) }.

(** A reader that comes to an end: it has at most [left] more bytes to give. *)
Class Finite (R : Type) `{AsyncRead R} : Type := {
  left : R -> nat;
  left_law : forall cx n r p r', poll_read cx n r = Some (p, r') ->
    match p with
    | Ready (Ok bs) => (left r' + length bs <= left r)%nat
    | _ => (left r' <= left r)%nat
    end }.

(** A reader with a known end: [source r bs] says that it has [bs] left to give.
    It says that it is at its end only when it is. *)
Definition source_promise {R} (source : R -> list byte -> Prop) (n : Z) (bs : list byte) (m : Polled R (list byte)) : Prop :=
  exists p r, m = Some (p, r) /\
  match p with
  | Ready (Ok got) => vlen got <= n /\ (got = [] -> n = 0 \/ bs = []) /\ exists rest, bs = got ++ rest /\ source r rest
  | _ => source r bs
  end.

Class Source (R : Type) `{AsyncRead R} : Type := {
  source : R -> list byte -> Prop;
  source_law : forall cx n r bs, 0 <= n -> source r bs -> source_promise source n bs (poll_read cx n r) }.

(** ** Buffered readers *)

Class AsyncBufRead (R : Type) : Type := {
  poll_fill_buf : Waker -> R -> Polled R (list byte);
  consume : Z -> R -> option R }.

(** [holds r h a]: the reader has handed over [h], and [a] is in its buffer. *)
Class BufReads (R : Type) `{AsyncBufRead R} : Type := {
  holds : R -> list byte -> list byte -> Prop;
  fill_law : forall cx r h a, holds r h a ->
    exists p r', poll_fill_buf cx r = Some (p, r') /\
    match p with
    | Ready (Ok a') => holds r' h a' /\ (a <> [] -> a' = a)
    | _ => holds r' h a
    end;
  consume_law : forall n r h a, holds r h a -> 0 <= n <= vlen a ->
    exists r', consume n r = Some r' /\ holds r' (h ++ takez n a) (dropz n a) }.

Class FiniteBuf (R : Type) `{BufReads R} : Type := {
  buf_left : R -> nat;
  fill_left : forall cx r h p r', holds r h [] -> poll_fill_buf cx r = Some (p, r') ->
    match p with
    | Ready (Ok a) => (buf_left r' + length a <= buf_left r)%nat
    | _ => (buf_left r' <= buf_left r)%nat
    end;
  kept_left : forall cx r h a p r', a <> [] -> holds r h a -> poll_fill_buf cx r = Some (p, r') ->
    (buf_left r' <= buf_left r)%nat;
  consume_left : forall n r r', consume n r = Some r' -> (buf_left r' <= buf_left r)%nat }.

Section buffered.
Context {R : Type} `{HR : BufReads R} `{!FiniteBuf R}.

(** What a fill leaves: the bytes in the buffer, and no more to come than before. *)
Lemma filled cx r h a :
  holds r h a ->
  exists p r', poll_fill_buf cx r = Some (p, r') /\
  match p with
  | Ready (Ok a') => holds r' h a' /\ (buf_left r' <= buf_left r)%nat /\
      (buf_left r' + length a' <= buf_left r + length a)%nat /\
      (a' <> [] -> buf_left r' < buf_left r + (if a is [] then 0 else 1))%nat
  | _ => holds r' h a /\ (buf_left r' <= buf_left r)%nat
  end.
Proof using HR.
  intros Hh. destruct (fill_law cx r h a Hh) as (p & r' & E & Hp). exists p, r'. split; [done |].
  destruct a as [|c a].
  - pose proof (fill_left cx r h p r' Hh E) as Hl. destruct p as [[a'|e]|]; [| done ..].
    split; [tauto |]. cbn. split; [lia |]. split; [lia |]. intros Hne. destruct a'; [done |]. cbn in Hl. lia.
  - pose proof (kept_left cx r h (c :: a) p r' ltac:(done) Hh E) as Hl. destruct p as [[a'|e]|]; [| done ..].
    destruct Hp as [Hh' Ha]. split; [done |]. split; [done |]. rewrite Ha by done. split; [lia |]. intros _. lia.
Qed.

Lemma consumed r h got rest :
  holds r h (got ++ rest) ->
  exists r', consume (vlen got) r = Some r' /\ holds r' (h ++ got) rest /\ (buf_left r' <= buf_left r)%nat.
Proof using HR.
  intros Hh. pose proof (vlen_nonneg got). pose proof (vlen_nonneg rest).
  destruct (consume_law (vlen got) r h _ Hh) as (r' & E & Hh'); [rewrite vlen_app; lia |]. exists r'. split; [done |].
  rewrite takez_app_l, takez_all, dropz_app_r, dropz_0 in Hh' by lia. split; [done |]. by eapply consume_left.
Qed.
End buffered.

(** ** Writers *)

Class AsyncWrite (W : Type) : Type := {
  poll_write : Waker -> list byte -> W -> Polled W Z;
  poll_flush : Waker -> W -> Polled W unit;
  poll_close : Waker -> W -> Polled W unit }.

Definition write_promise {W} (took : W -> list byte -> Prop) (bs h : list byte) (m : Polled W Z) : Prop :=
  exists p w, m = Some (p, w) /\
  match p with
  | Ready (Ok n) => 0 <= n <= vlen bs /\ took w (h ++ takez n bs)
  | _ => took w h
  end.

(** A flush or a close: nothing is taken, and when it is done, what was taken has
    left every buffer. *)
Definition flush_promise {W} (took : W -> list byte -> Prop) (flushed : W -> Prop) (h : list byte) (m : Polled W unit) : Prop :=
  exists p w, m = Some (p, w) /\ took w h /\ (p = Ready (Ok tt) -> flushed w).

Class Writer (W : Type) `{AsyncWrite W} : Type := {
  took : W -> list byte -> Prop;
  flushed : W -> Prop;
  write_law : forall cx bs w h, took w h -> write_promise took bs h (poll_write cx bs w);
  flush_law : forall cx w h, took w h -> flush_promise took flushed h (poll_flush cx w);
  close_law : forall cx w h, took w h -> flush_promise took flushed h (poll_close cx w) }.

(** ** Streams in memory

    A reader over given bytes and a writer that keeps what it takes, each of
    which is pending every other time and moves a few bytes at a time: concrete
    streams that keep the promises of [Streams.v], for the examples. *)

Record MemReader : Type := { mr_given : list byte; mr_rest : list byte; mr_step : Z; mr_ready : bool }.

Definition mem_reader (step : Z) (bs : list byte) : MemReader :=
  {| mr_given := []; mr_rest := bs; mr_step := step; mr_ready := true |}.

#[export] Instance mem_read : AsyncRead MemReader := fun _ n r =>
  if mr_ready r then
    let k := Z.min n (mr_step r) in
    Some (Ready (Ok (takez k (mr_rest r))),
          {| mr_given := mr_given r ++ takez k (mr_rest r); mr_rest := dropz k (mr_rest r);
             mr_step := mr_step r; mr_ready := false |})
  else Some (Pending, {| mr_given := mr_given r; mr_rest := mr_rest r; mr_step := mr_step r; mr_ready := true |}).

#[export] Instance mem_reader_reader : Reader MemReader.
Proof.
  refine {| gave r h := mr_given r = h |}. intros cx n r h Hn <-. unfold poll_read, mem_read, read_promise.
  destruct (mr_ready r); [| by eexists _, _]. eexists _, _. split; [done |]. split; [| done].
  destruct (Z.le_gt_cases 0 (Z.min n (mr_step r))); [rewrite vlen_takez_min; lia |].
  rewrite takez_0 by lia. done.
Defined.

#[export] Instance mem_reader_finite : Finite MemReader.
Proof.
  refine {| left r := length (mr_rest r) |}. intros cx n r p r'. unfold poll_read, mem_read.
  destruct (mr_ready r); [| by intros [= <- <-]]. intros [= <- <-]. cbn [mr_rest].
  set (k := Z.min n (mr_step r)). pose proof (takez_dropz k (mr_rest r)) as E.
  apply (f_equal length) in E. rewrite length_app in E. lia.
Defined.

#[export] Instance mem_reader_source : Source MemReader.
Proof.
  refine {| source r bs := mr_rest r = bs /\ 0 < mr_step r |}. intros cx n r bs Hn [<- Hs].
  unfold poll_read, mem_read, source_promise. destruct (mr_ready r); [| by eexists _, _].
  eexists _, _. split; [done |]. set (k := Z.min n (mr_step r)). split; [rewrite vlen_takez_min by lia; lia |].
  split; [| exists (dropz k (mr_rest r)); by rewrite takez_dropz].
  intros E. apply (f_equal vlen) in E. rewrite vlen_takez_min in E by lia.
  destruct (mr_rest r); [by right |]. rewrite vlen_cons in E. pose proof (vlen_nonneg l). change (vlen (@nil Z)) with 0 in E. lia.
Defined.

Record MemWriter : Type := { mw_taken : list byte; mw_step : Z; mw_ready : bool }.

Definition mem_writer (step : Z) : MemWriter := {| mw_taken := []; mw_step := step; mw_ready := false |}.

Definition mw_toggle (w : MemWriter) : MemWriter :=
  {| mw_taken := mw_taken w; mw_step := mw_step w; mw_ready := negb (mw_ready w) |}.

Definition mem_poll_write (_ : Waker) (bs : list byte) (w : MemWriter) : Polled MemWriter Z :=
  if mw_ready w then
    let k := Z.max 0 (Z.min (vlen bs) (mw_step w)) in
    Some (Ready (Ok k), {| mw_taken := mw_taken w ++ takez k bs; mw_step := mw_step w; mw_ready := false |})
  else Some (Pending, mw_toggle w).

Definition mem_poll_flush (_ : Waker) (w : MemWriter) : Polled MemWriter unit :=
  if mw_ready w then Some (Ready (Ok tt), mw_toggle w) else Some (Pending, mw_toggle w).

#[export] Instance mem_write : AsyncWrite MemWriter :=
  {| poll_write := mem_poll_write; poll_flush := mem_poll_flush; poll_close := mem_poll_flush |}.

Lemma mem_flush_ok cx w h :
  mw_taken w = h -> flush_promise (fun w h => mw_taken w = h) (fun _ => True) h (mem_poll_flush cx w).
Proof. intros <-. unfold mem_poll_flush. destruct (mw_ready w); by eexists _, _. Qed.

#[export] Instance mem_writer_writer : Writer MemWriter.
Proof.
  refine {| took w h := mw_taken w = h; flushed _ := True; flush_law := mem_flush_ok; close_law := mem_flush_ok |}.
  intros cx bs w h <-. unfold poll_write, mem_write, mem_poll_write, write_promise. pose proof (vlen_nonneg bs).
  destruct (mw_ready w); [| by eexists _, _]. eexists _, _. split; [done |]. split; [lia | done].
Defined.

(** *** A stream of a reader and a writer *)

Section pair.
Context {R W : Type}.

Definition on_first {T} (w : W) (m : Polled R T) : Polled (R * W) T :=
  match m with Some (p, r) => Some (p, (r, w)) | None => None end.
Definition on_second {T} (r : R) (m : Polled W T) : Polled (R * W) T :=
  match m with Some (p, w) => Some (p, (r, w)) | None => None end.

#[export] Instance pair_read `{AsyncRead R} : AsyncRead (R * W) := fun cx n s => on_first s.2 (poll_read cx n s.1).
#[export] Instance pair_write `{AsyncWrite W} : AsyncWrite (R * W) :=
  {| poll_write cx bs s := on_second s.1 (poll_write cx bs s.2);
     poll_flush cx s := on_second s.1 (poll_flush cx s.2);
     poll_close cx s := on_second s.1 (poll_close cx s.2) |}.

#[export] Instance pair_reader `{HR : Reader R} : Reader (R * W).
Proof.
  refine {| gave s h := gave s.1 h |}. intros cx n [r w] h Hn Hg. destruct (read_law cx n r h Hn Hg) as (p & r' & E & Hp).
  exists p, (r', w). unfold poll_read, pair_read, on_first. cbn. rewrite E. by destruct p as [[]|].
Defined.

#[export] Instance pair_finite `{HF : Finite R} : Finite (R * W).
Proof.
  refine {| left s := left s.1 |}. intros cx n [r w] p s' E. unfold poll_read, pair_read, on_first in E. cbn in E.
  destruct (Streams.poll_read cx n r) as [[q r']|] eqn:E2; [| done]. injection E as <- <-. by apply (left_law cx n r q r').
Defined.

#[export] Instance pair_writer `{HW : Writer W} : Writer (R * W).
Proof.
  refine {| took s h := took s.2 h; flushed s := flushed s.2 |}.
  - intros cx bs [r w] h Ht. destruct (write_law cx bs w h Ht) as (p & w' & E & Hp).
    exists p, (r, w'). cbn. rewrite E. by destruct p as [[]|].
  - intros cx [r w] h Ht. destruct (flush_law cx w h Ht) as (p & w' & E & Hp). exists p, (r, w'). cbn. by rewrite E.
  - intros cx [r w] h Ht. destruct (close_law cx w h Ht) as (p & w' & E & Hp). exists p, (r, w'). cbn. by rewrite E.
Defined.
End pair.
