(* ===== verification/Buffered.v ===== *)
(** * Buffers in front of streams

    [io/util/buffered.rs]: [BufReader], [BufWriter] and the two at once. Each is
    a stream over any stream, and keeps the promises of its kind when the stream
    inside does. *)

From S2P Require Import Prelude Bytes Streams.
Open Scope Z_scope.

Definition DEFAULT_CAPACITY : Z := 8 * 1024.

(** ** The reader *)

Module BufReader.
Record BufReader (R : Type) : Type := { inner : R; buf : list byte; pos : Z; cap : Z }.
Arguments inner {R} _.
Arguments buf {R} _.
Arguments pos {R} _.
Arguments cap {R} _.

Section reader.
Context {R : Type}.
Implicit Types b : BufReader R.

Definition set_inner (x : R) b : BufReader R := {| inner := x; buf := buf b; pos := pos b; cap := cap b |}.
Definition set_pos (x : Z) b : BufReader R := {| inner := inner b; buf := buf b; pos := x; cap := cap b |}.

Definition with_capacity (capacity : Z) (r : R) : BufReader R :=
  {| inner := r; buf := replicate (Z.to_nat capacity) 0; pos := 0; cap := 0 |}.

Definition new (r : R) : BufReader R := with_capacity DEFAULT_CAPACITY r.

Definition into_inner b : R := inner b.

Definition buffer b : option (list byte) := slice (pos b) (cap b) (buf b).

Definition discard_buffer b : BufReader R := {| inner := inner b; buf := buf b; pos := 0; cap := 0 |}.

Context `{AsyncRead R}.

(** A read of the stream inside into the whole buffer. *)
Definition refill (bs : list byte) (r : R) b : option (BufReader R) :=
  let* l := write_at 0 bs (buf b) in Some {| inner := r; buf := l; pos := 0; cap := vlen bs |}.

Definition answer b : Polled (BufReader R) (list byte) := let* a := buffer b in Some (Ready (Ok a), b).

Definition poll_fill_buf (cx : Waker) b : Polled (BufReader R) (list byte) :=
  if cap b <=? pos b then
    ready (poll_read cx (vlen (buf b)) (inner b)) (fun r => set_inner r b) (fun bs r =>
      let* c := refill bs r b in answer c)
  else answer b.

Definition consume (amount : Z) b : option (BufReader R) :=
  let* p := add64 (pos b) amount in Some (set_pos (Z.min p (cap b)) b).

Definition poll_read (cx : Waker) (n : Z) b : Polled (BufReader R) (list byte) :=
  if (pos b =? cap b) && (vlen (buf b) <=? n) then
    ready (poll_read cx n (inner b)) (fun r => set_inner r b) (fun bs r =>
      Some (Ready (Ok bs), discard_buffer (set_inner r b)))
  else
    ready (poll_fill_buf cx b) id (fun available b =>
      let n := Z.min (vlen available) n in
      let* out := slice 0 n available in
      let* c := consume n b in
      Some (Ready (Ok out), c)).
End reader.
End BufReader.

#[export] Instance buf_reader_read {R} `{AsyncRead R} : AsyncRead (BufReader.BufReader R) := BufReader.poll_read.
#[export] Instance buf_reader_buf_read {R} `{AsyncRead R} : AsyncBufRead (BufReader.BufReader R) :=
  {| poll_fill_buf := BufReader.poll_fill_buf; consume := BufReader.consume |}.

(** A call on the stream inside. *)
Definition through {S T U} (back : S -> T) (m : Polled S U) : Polled T U :=
  match m with Some (p, s) => Some (p, back s) | None => None end.

#[export] Instance buf_reader_write {R} `{AsyncWrite R} : AsyncWrite (BufReader.BufReader R) :=
  {| poll_write cx bs b := through (fun r => BufReader.set_inner r b) (poll_write cx bs (BufReader.inner b));
     poll_flush cx b := through (fun r => BufReader.set_inner r b) (poll_flush cx (BufReader.inner b));
     poll_close cx b := through (fun r => BufReader.set_inner r b) (poll_close cx (BufReader.inner b)) |}.

(** ** The writer *)

Module BufWriter.
(** [capacity] is what the [Vec] has room for, at least what was asked. *)
Record BufWriter (W : Type) : Type := { inner : W; buf : list byte; capacity : Z; written : Z }.
Arguments inner {W} _.
Arguments buf {W} _.
Arguments capacity {W} _.
Arguments written {W} _.

Section writer.
Context {W : Type}.
Implicit Types b : BufWriter W.

Definition set_inner (x : W) b : BufWriter W :=
  {| inner := x; buf := buf b; capacity := capacity b; written := written b |}.
Definition set_buf (x : list byte) b : BufWriter W :=
  {| inner := inner b; buf := x; capacity := capacity b; written := written b |}.
Definition set_written (x : Z) b : BufWriter W :=
  {| inner := inner b; buf := buf b; capacity := capacity b; written := x |}.

(** [room] is the capacity the allocation came with. *)
Definition with_capacity (room : Z) (w : W) : BufWriter W :=
  {| inner := w; buf := []; capacity := room; written := 0 |}.

Definition buffer b : option (list byte) := slice (written b) (vlen (buf b)) (buf b).

Context `{AsyncWrite W}.

(** [flush_buf], its loop cut after [fuel] passes: each takes a byte at least,
    so the length of the buffer and one more are enough. *)
Fixpoint flush_loop (fuel : nat) (cx : Waker) b : Polled (BufWriter W) unit :=
  match fuel with
  | O => None
  | S fuel =>
      if written b <? vlen (buf b) then
        let* rest := buffer b in
        ready (poll_write cx rest (inner b)) (fun w => set_inner w b) (fun n w =>
          let b := set_inner w b in
          if n =? 0 then Some (Ready (Err WriteZero), b)
          else flush_loop fuel cx (set_written (written b + n) b))
      else Some (Ready (Ok tt), set_written 0 (set_buf [] b))
  end.

Definition flush_buf (cx : Waker) b : Polled (BufWriter W) unit := flush_loop (S (length (buf b))) cx b.

Definition poll_write (cx : Waker) (bs : list byte) b : Polled (BufWriter W) Z :=
  let after b :=
    if capacity b <=? vlen bs
    then through (fun w => set_inner w b) (poll_write cx bs (inner b))
    else Some (Ready (Ok (vlen bs)), set_buf (buf b ++ bs) b) in
  if capacity b <? vlen (buf b) + vlen bs
  then ready (flush_buf cx b) id (fun _ b => after b)
  else after b.

Definition poll_flush (cx : Waker) b : Polled (BufWriter W) unit :=
  ready (flush_buf cx b) id (fun _ b => through (fun w => set_inner w b) (poll_flush cx (inner b))).

Definition poll_close (cx : Waker) b : Polled (BufWriter W) unit :=
  ready (flush_buf cx b) id (fun _ b => through (fun w => set_inner w b) (poll_close cx (inner b))).
End writer.
End BufWriter.

#[export] Instance buf_writer_write {W} `{AsyncWrite W} : AsyncWrite (BufWriter.BufWriter W) :=
  {| poll_write := BufWriter.poll_write; poll_flush := BufWriter.poll_flush; poll_close := BufWriter.poll_close |}.

#[export] Instance buf_writer_read {W} `{AsyncRead W} : AsyncRead (BufWriter.BufWriter W) :=
  fun cx n b => through (fun w => BufWriter.set_inner w b) (poll_read cx n (BufWriter.inner b)).

(** ** Both at once *)

Definition BufStream (S : Type) : Type := BufReader.BufReader (BufWriter.BufWriter S).

Definition buf_stream {S} (read write : Z) (stream : S) : BufStream S :=
  BufReader.with_capacity read (BufWriter.with_capacity write stream).

(** ** Buffered streams keep the promises of streams

    The instances by which [BufReader] and [BufWriter] of [io/util/buffered.rs]
    are a reader, a buffered reader and a writer wherever the stream inside is
    one. *)

(** ** The reader *)

Section reader.
Context {R : Type} `{HR : Reader R}.
Import BufReader.
Implicit Types b : BufReader R.

Definition in_buffer b : list byte := takez (cap b - pos b) (dropz (pos b) (buf b)).

Record reader_wf b : Prop := {
  wf_pos : 0 <= pos b <= cap b;
  wf_cap : cap b <= vlen (buf b);
  wf_size : vlen (buf b) <= isize_max }.

Definition buf_holds b (h a : list byte) : Prop := reader_wf b /\ a = in_buffer b /\ gave (inner b) (h ++ a).

Lemma vlen_in_buffer b : reader_wf b -> vlen (in_buffer b) = cap b - pos b.
Proof. intros []. unfold in_buffer. rewrite vlen_takez; [done |]. rewrite vlen_dropz; lia. Qed.

Lemma answer_ok b : reader_wf b -> answer b = Some (Ready (Ok (in_buffer b)), b).
Proof. intros []. unfold answer, buffer. by rewrite slice_Some by lia. Qed.

Lemma holds_inner r b h a : buf_holds b h a -> gave r (h ++ a) -> buf_holds (set_inner r b) h a.
Proof. intros ([] & -> & _) Hg. by split; [constructor |]. Qed.

Lemma refill_ok bs r b h :
  reader_wf b -> vlen bs <= vlen (buf b) -> gave r (h ++ bs) ->
  exists b', refill bs r b = Some b' /\ buf_holds b' h bs /\ vlen (buf b') = vlen (buf b).
Proof.
  intros [] Hn Hg. pose proof (vlen_nonneg bs). unfold refill. rewrite write_at_Some by lia.
  eexists. split; [done |]. pose proof (vlen_write 0 bs (buf b) ltac:(lia) ltac:(lia)) as Hl.
  split; [| done]. split; [| split; [| done]].
  - constructor; cbn [pos cap buf]; lia.
  - unfold in_buffer. cbn [pos cap buf]. rewrite (dropz_0 0), (takez_0 0) by lia. cbn [app].
    rewrite Z.sub_0_r, takez_app_l by lia. by rewrite takez_all by lia.
Qed.

Lemma fill_ok cx b h a :
  buf_holds b h a ->
  exists p b', BufReader.poll_fill_buf cx b = Some (p, b') /\
  match p with
  | Ready (Ok a') => buf_holds b' h a' /\ (a <> [] -> a' = a)
  | _ => buf_holds b' h a
  end.
Proof using HR.
  intros Hb. assert (Hb' := Hb). destruct Hb as (Hwf & -> & Hg). unfold BufReader.poll_fill_buf.
  destruct (Z.leb_spec (cap b) (pos b)) as [Hle|Hlt].
  - assert (Hnil : in_buffer b = []) by (unfold in_buffer; apply takez_0; lia). rewrite Hnil, app_nil_r in *.
    destruct (read_law cx (vlen (buf b)) (inner b) h (vlen_nonneg _) Hg) as (p & r & -> & Hp).
    destruct p as [[bs|e]|]; cbn [ready].
    + destruct Hp as [Hn Hg']. destruct (refill_ok bs r b h Hwf Hn Hg') as (b' & -> & Hh & _).
      assert (Hh' := Hh). destruct Hh as (Hwf' & Ha & _). rewrite (answer_ok b' Hwf'), <- Ha.
      exists (Ready (Ok bs)), b'. split; [done |]. by split.
    + exists (Ready (Err e)), (set_inner r b). split; [done |]. apply holds_inner; [done | by rewrite app_nil_r].
    + exists Pending, (set_inner r b). split; [done |]. apply holds_inner; [done | by rewrite app_nil_r].
  - rewrite answer_ok by done. by eexists _, b.
Qed.

Lemma buf_consume_ok n b h a :
  buf_holds b h a -> 0 <= n <= vlen a ->
  exists b', BufReader.consume n b = Some b' /\ buf_holds b' (h ++ takez n a) (dropz n a).
Proof.
  intros (Hwf & -> & Hg) Hn. rewrite vlen_in_buffer in Hn by done. destruct Hwf. unfold BufReader.consume.
  rewrite add64_Some by (unfold u64_max; unfold isize_max in *; lia). eexists. split; [done |].
  split; [| split].
  - constructor; cbn [pos cap buf set_pos]; lia.
  - unfold in_buffer. cbn [pos cap buf set_pos]. rewrite dropz_takez, dropz_dropz, Z.min_l by lia. f_equal. lia.
  - cbn [inner set_pos]. by rewrite <- app_assoc, takez_dropz.
Qed.

#[export] Instance buf_reader_holds : BufReads (BufReader R) :=
  {| holds := buf_holds; fill_law := fill_ok; consume_law := buf_consume_ok |}.

Definition buf_gave b (h : list byte) : Prop := exists a, buf_holds b h a.

Lemma buf_read_ok cx n b h : 0 <= n -> buf_gave b h -> read_promise buf_gave n h (BufReader.poll_read cx n b).
Proof using HR.
  intros Hn [a Hb]. unfold BufReader.poll_read.
  destruct ((pos b =? cap b) && (vlen (buf b) <=? n)) eqn:Hpass.
  - apply andb_prop in Hpass as [Hpos%Z.eqb_eq _]. assert (Hb' := Hb). destruct Hb as (Hwf & -> & Hg).
    assert (Hnil : in_buffer b = []) by (unfold in_buffer; apply takez_0; lia). rewrite Hnil, app_nil_r in *.
    destruct (read_law cx n (inner b) h Hn Hg) as (p & r & -> & Hp). destruct Hwf.
    destruct p as [[bs|e]|]; cbn [ready]; eexists _, _; (split; [done |]).
    + destruct Hp as [Hl Hg']. split; [done |]. exists []. rewrite <- (app_nil_r (h ++ bs)) in Hg'.
      split; [| split]; [| by unfold in_buffer; rewrite takez_0 by (cbn; lia) | done].
      constructor; cbn; lia.
    + exists []. apply holds_inner; [done | by rewrite app_nil_r].
    + exists []. apply holds_inner; [done | by rewrite app_nil_r].
  - destruct (fill_ok cx b h a Hb) as (p & b' & -> & Hp). destruct p as [[a'|e]|]; cbn [ready id].
    + destruct Hp as [Hh _]. pose proof (vlen_nonneg a'). rewrite slice_front by lia.
      destruct (buf_consume_ok (Z.min (vlen a') n) b' h a' Hh ltac:(lia)) as (b2 & -> & Hh2).
      eexists _, _. split; [done |]. split; [| by eexists]. rewrite vlen_takez; lia.
    + eexists _, _. split; [done |]. by exists a.
    + eexists _, _. split; [done |]. by exists a.
Qed.

#[export] Instance buf_reader_reader : Reader (BufReader R) := {| gave := buf_gave; read_law := buf_read_ok |}.

Lemma with_capacity_holds n r h : 0 <= n <= isize_max -> gave r h -> holds (with_capacity n r) h [].
Proof.
  intros Hn Hg. split; [| split; [done | by rewrite app_nil_r]].
  constructor; cbn -[isize_max]; unfold vlen; rewrite ?length_replicate; lia.
Qed.

(** What is left of a buffered reader that must be asked for. *)
Context `{!Finite R}.

Definition reader_left b : nat := left (inner b).

Lemma reader_fill_left cx b h p b' :
  buf_holds b h [] -> BufReader.poll_fill_buf cx b = Some (p, b') ->
  match p with
  | Ready (Ok a) => (reader_left b' + length a <= reader_left b)%nat
  | _ => (reader_left b' <= reader_left b)%nat
  end.
Proof.
  intros (Hwf & Ha & Hg). pose proof (vlen_in_buffer b Hwf) as Hl. rewrite <- Ha in Hl. change (vlen []) with 0 in Hl.
  unfold BufReader.poll_fill_buf. destruct (Z.leb_spec (cap b) (pos b)); [| lia].
  destruct (read_law cx (vlen (buf b)) (inner b) (h ++ []) (vlen_nonneg _) Hg) as (q & r & Hq & Hp).
  pose proof (left_law cx _ _ _ _ Hq) as Hleft. rewrite Hq. destruct q as [[bs|e]|]; cbn [ready].
  - destruct Hp as [Hn Hg']. rewrite app_nil_r in Hg'.
    destruct (refill_ok bs r b h Hwf Hn Hg') as (b1 & E & (Hwf1 & Ha1 & _) & _). rewrite E, (answer_ok b1 Hwf1), <- Ha1.
    intros [= <- <-]. unfold refill in E. destruct (write_at 0 bs (buf b)); [| done]. by injection E as <-.
  - by intros [= <- <-].
  - by intros [= <- <-].
Qed.

Lemma reader_kept_left cx b h a p b' :
  a <> [] -> buf_holds b h a -> BufReader.poll_fill_buf cx b = Some (p, b') ->
  (reader_left b' <= reader_left b)%nat.
Proof.
  intros Hne (Hwf & -> & _). unfold BufReader.poll_fill_buf. destruct (Z.leb_spec (cap b) (pos b)).
  - destruct Hne. unfold in_buffer. apply takez_0. lia.
  - rewrite answer_ok by done. by intros [= <- <-].
Qed.

Lemma reader_consume_left n b b' : BufReader.consume n b = Some b' -> (reader_left b' <= reader_left b)%nat.
Proof. unfold BufReader.consume. destruct (add64 _ _); [| done]. by intros [= <-]. Qed.

#[export] Instance buf_reader_finite : FiniteBuf (BufReader R) :=
  {| buf_left := reader_left; fill_left := reader_fill_left; kept_left := reader_kept_left;
     consume_left := reader_consume_left |}.
End reader.

(** ** The writer *)

Section writer.
Context {W : Type} `{HW : Writer W}.
Import BufWriter.
Implicit Types b : BufWriter W.

Definition unwritten b : list byte := dropz (written b) (buf b).

(** What it took is what the writer inside took and what is in the buffer. *)
Definition buf_took b (h : list byte) : Prop :=
  0 <= written b <= vlen (buf b) /\ exists h0, took (inner b) h0 /\ h = h0 ++ unwritten b.

Definition buf_flushed b : Prop := buf b = [] /\ flushed (inner b).

Lemma flush_loop_ok fuel cx b h :
  buf_took b h -> vlen (buf b) - written b < Z.of_nat fuel ->
  exists p b', flush_loop fuel cx b = Some (p, b') /\ buf_took b' h /\ capacity b' = capacity b /\
    (p = Ready (Ok tt) -> buf b' = [] /\ took (inner b') h).
Proof using HW.
  revert b. induction fuel as [|fuel IH]; intros b (Hb & h0 & Ht & ->) Hf; [lia |]. cbn [flush_loop].
  destruct (Z.ltb_spec (written b) (vlen (buf b))) as [Hlt|Hge].
  - unfold buffer. rewrite slice_Some by lia. rewrite takez_all by (rewrite vlen_dropz; lia). fold (unwritten b).
    destruct (write_law cx (unwritten b) (inner b) h0 Ht) as (p & w & -> & Hp).
    destruct p as [[n|e]|]; cbn [ready].
    + destruct Hp as [Hn Ht']. assert (Hv : vlen (unwritten b) = vlen (buf b) - written b) by (apply vlen_dropz; lia).
      destruct (Z.eqb_spec n 0) as [->|Hne].
      * eexists _, _. split; [done |]. split; [| by split]. split; [done |]. exists h0. split; [| done].
        by rewrite takez_0, app_nil_r in Ht' by lia.
      * apply (IH (set_written (written b + n) (set_inner w b))); [| cbn; lia]. split; [cbn; lia |].
        exists (h0 ++ takez n (unwritten b)). split; [done |]. unfold unwritten. cbn [written buf set_written set_inner].
        rewrite <- dropz_dropz by lia. by rewrite <- app_assoc, takez_dropz.
    + eexists _, _. split; [done |]. split; [| by split]. split; [done |]. by exists h0.
    + eexists _, _. split; [done |]. split; [| by split]. split; [done |]. by exists h0.
  - assert (Hnil : unwritten b = []) by (unfold unwritten; apply dropz_all; lia). rewrite Hnil, app_nil_r.
    eexists _, _. split; [done |]. split; [| by split]. split; [done |]. exists h0. split; [done |].
    unfold unwritten. cbn. by rewrite dropz_0, app_nil_r by lia.
Qed.

Lemma flush_buf_ok cx b h :
  buf_took b h ->
  exists p b', flush_buf cx b = Some (p, b') /\ buf_took b' h /\ capacity b' = capacity b /\
    (p = Ready (Ok tt) -> buf b' = [] /\ took (inner b') h).
Proof using HW. intros Hb. apply flush_loop_ok; [done |]. destruct Hb as [Hb _]. unfold vlen in *. lia. Qed.

(** Once the buffer is empty, what the writer inside takes is all there is. *)
Lemma took_inner w b h0 h : buf_took b h0 -> buf b = [] -> took w h -> buf_took (set_inner w b) h.
Proof.
  intros [Hw _] Hb Ht. split; [done |]. exists h. split; [done |].
  unfold unwritten. cbn. by rewrite Hb, dropz_nil, app_nil_r.
Qed.

Lemma buf_write_ok cx bs b h : buf_took b h -> write_promise buf_took bs h (BufWriter.poll_write cx bs b).
Proof using HW.
  intros Hb. unfold BufWriter.poll_write. pose proof (vlen_nonneg bs).
  assert (Happ : forall b, buf_took b h -> buf_took (set_buf (buf b ++ bs) b) (h ++ bs)).
  { clear b Hb. intros b (Hw & h0 & Ht & ->). split; [cbn; len |]. exists h0. split; [done |].
    unfold unwritten. cbn. by rewrite dropz_app_l, app_assoc by lia. }
  assert (Hall : forall b, buf_took b h ->
    write_promise buf_took bs h (Some (Ready (Ok (vlen bs)), set_buf (buf b ++ bs) b))).
  { intros c Hc. eexists _, _. split; [done |]. split; [lia |]. rewrite takez_all by lia. by apply Happ. }
  destruct (Z.ltb_spec (capacity b) (vlen (buf b) + vlen bs)) as [Hlt|Hge].
  - destruct (flush_buf_ok cx b h Hb) as (p & b' & -> & Hb' & Hcap & Hdone).
    destruct p as [[[]|e]|]; cbn [ready id]; [| by eexists _, _ ..]. destruct (Hdone eq_refl) as [Hnil Ht].
    destruct (Z.leb_spec (capacity b') (vlen bs)); [| by apply Hall].
    destruct (write_law cx bs (inner b') h Ht) as (p & w & -> & Hp). eexists _, _. split; [done |].
    destruct p as [[n|e]|]; [destruct Hp; split; [done |] |..]; by eapply took_inner.
  - destruct (Z.leb_spec (capacity b) (vlen bs)) as [Hc|]; [| by apply Hall].
    assert (Hnil : buf b = []) by (apply nil_length_inv; pose proof (vlen_nonneg (buf b)); len).
    destruct Hb as (Hw & h0 & Ht & Hh). assert (Hun : unwritten b = []) by (unfold unwritten; rewrite Hnil; apply dropz_nil).
    rewrite Hun, app_nil_r in Hh. subst h0. assert (Hb : buf_took b h) by (split; [done |]; exists h; by rewrite Hun, app_nil_r).
    destruct (write_law cx bs (inner b) h Ht) as (p & w & -> & Hp). eexists _, _. split; [done |].
    destruct p as [[n|e]|]; [destruct Hp; split; [done |] |..]; by eapply took_inner.
Qed.

(** A flush and a close: the buffer goes out, then the call on the writer inside. *)
Lemma buf_flush_with cx b h (m : W -> Polled W unit) :
  (forall w h, took w h -> flush_promise took flushed h (m w)) -> buf_took b h ->
  flush_promise buf_took buf_flushed h
    (ready (flush_buf cx b) id (fun _ b => through (fun w => set_inner w b) (m (inner b)))).
Proof using HW.
  intros Hm Hb. destruct (flush_buf_ok cx b h Hb) as (p & b' & -> & Hb' & _ & Hdone).
  destruct p as [[[]|e]|]; cbn [ready id]; [| by eexists _, _ ..].
  destruct (Hdone eq_refl) as [Hnil Ht]. destruct (Hm (inner b') h Ht) as (p & w & -> & Ht' & Hf).
  eexists _, _. split; [done |]. split; [by eapply took_inner |]. intros Hp. split; [done | by apply Hf].
Qed.

Lemma buf_flush_ok cx b h : buf_took b h -> flush_promise buf_took buf_flushed h (BufWriter.poll_flush cx b).
Proof using HW. apply (buf_flush_with cx b h (Streams.poll_flush cx)). apply flush_law. Qed.

Lemma buf_close_ok cx b h : buf_took b h -> flush_promise buf_took buf_flushed h (BufWriter.poll_close cx b).
Proof using HW. apply (buf_flush_with cx b h (Streams.poll_close cx)). apply close_law. Qed.

#[export] Instance buf_writer_writer : Writer (BufWriter W) :=
  {| took := buf_took; flushed := buf_flushed; write_law := buf_write_ok; flush_law := buf_flush_ok;
     close_law := buf_close_ok |}.

Lemma with_capacity_took n w h : took w h -> took (with_capacity n w) h.
Proof. intros Ht. split; [done |]. exists h. by rewrite app_nil_r. Qed.
End writer.

(** ** Calls that go straight through *)

Section through.
Context {S : Type}.

#[export] Instance buf_reader_writer `{HW : Writer S} : Writer (BufReader.BufReader S).
Proof using Type.
  refine {| took b := took (BufReader.inner b); flushed b := flushed (BufReader.inner b) |}.
  - intros cx bs b h Ht. destruct (write_law cx bs _ h Ht) as (p & w & E & Hp).
    exists p, (BufReader.set_inner w b). cbn. rewrite E. by destruct p as [[]|].
  - intros cx b h Ht. destruct (flush_law cx _ h Ht) as (p & w & E & Hp).
    exists p, (BufReader.set_inner w b). cbn. by rewrite E.
  - intros cx b h Ht. destruct (close_law cx _ h Ht) as (p & w & E & Hp).
    exists p, (BufReader.set_inner w b). cbn. by rewrite E.
Defined.

#[export] Instance buf_writer_reader `{HR : Reader S} : Reader (BufWriter.BufWriter S).
Proof using Type.
  refine {| gave b := gave (BufWriter.inner b) |}.
  intros cx n b h Hn Hg. destruct (read_law cx n _ h Hn Hg) as (p & w & E & Hp).
  exists p, (BufWriter.set_inner w b). unfold poll_read, buf_writer_read. rewrite E. by destruct p as [[]|].
Defined.
End through.
