(* ===== verification/BufReads.v ===== *)
(** * Reads of a buffered reader

    [io/util/buf_read_ext.rs]: reads up to a byte, and the segments between
    bytes one by one, over any buffered reader that keeps the promises of its
    trait. *)

From S2P Require Import Prelude Bytes Streams Buffered.
Open Scope Z_scope.

(** ** The code *)

(** [memchr]. *)
Fixpoint memchr (delim : byte) (haystack : list byte) : option Z :=
  match haystack with
  | [] => None
  | b :: l => if b =? delim then Some 0 else option_map (Z.add 1) (memchr delim l)
  end.

(** A buffered reader with the bytes of a segment that is not yet whole and
    their count: [ReadUntil], and [Split] with its byte. *)
Record Split (R : Type) : Type := { reader : R; byte_ : byte; buf : list byte; read : Z }.
Arguments reader {R} _.
Arguments byte_ {R} _.
Arguments buf {R} _.
Arguments read {R} _.

Section split.
Context {R : Type} `{AsyncBufRead R}.
Implicit Types s : Split R.

Definition with_reader (x : R) s : Split R := {| reader := x; byte_ := byte_ s; buf := buf s; read := read s |}.
Definition with_buf (x : list byte) s : Split R := {| reader := reader s; byte_ := byte_ s; buf := x; read := read s |}.
Definition with_read (x : Z) s : Split R := {| reader := reader s; byte_ := byte_ s; buf := buf s; read := x |}.

Definition split (r : R) (delim : byte) : Split R := {| reader := r; byte_ := delim; buf := []; read := 0 |}.

(** What a pass takes of the bytes available: whether it is done, and how many. *)
Definition until (delim : byte) (available : list byte) : bool * Z :=
  match memchr delim available with
  | Some i => (true, i + 1)
  | None => (bool_decide (available = []), vlen available)
  end.

(** [read_until]. *)
Fixpoint read_until (fuel : nat) (cx : Waker) s : Polled (Split R) Z :=
  match fuel with
  | O => None
  | S fuel =>
      ready (poll_fill_buf cx (reader s)) (fun r => with_reader r s) (fun available r =>
      let '(done, used) := until (byte_ s) available in
      let* got := slice 0 used available in
      let* r := consume used r in
      let* total := add64 (read s) used in
      let t := with_read total (with_buf (buf s ++ got) (with_reader r s)) in
      if done then Some (Ready (Ok total), with_read 0 t) else read_until fuel cx t)
  end.

(** [poll_next_segment]. *)
Definition poll_next_segment (fuel : nat) (cx : Waker) s : Polled (Split R) (option (list byte)) :=
  ready (read_until fuel cx s) id (fun n s =>
  if (n =? 0) && bool_decide (buf s = []) then Some (Ready (Ok None), s)
  else
    let segment := buf s in
    let t := with_buf [] s in
    let segment := if bool_decide (last segment = Some (byte_ s)) then removelast segment else segment in
    Some (Ready (Ok (Some segment)), t)).

(** The segments of as many polls as there are wakers, up to the end. *)
Fixpoint segments (fuel : nat) (cxs : list Waker) s : option (list (list byte) * bool * Split R) :=
  match cxs with
  | [] => Some ([], false, s)
  | cx :: cxs =>
      match poll_next_segment fuel cx s with
      | None => None
      | Some (Ready (Ok None), s) => Some ([], true, s)
      | Some (Ready (Ok (Some segment)), s) =>
          match segments fuel cxs s with
          | Some (l, ended, s) => Some (segment :: l, ended, s)
          | None => None
          end
      | Some (_, s) => segments fuel cxs s
      end
  end.
End split.

(** ** What it promises *)

(** The bytes of segments, each with the delimiter that ended it, if one did. *)
Fixpoint joined (delim : byte) (segs : list (list byte)) (marks : list bool) : list byte :=
  match segs, marks with
  | seg :: segs, m :: marks => seg ++ (if m then [delim] else []) ++ joined delim segs marks
  | _, _ => []
  end.

Section spec.
Context (delim : byte).

Lemma memchr_Some l i :
  memchr delim l = Some i ->
  exists a b, l = a ++ delim :: b /\ vlen a = i /\ delim ∉ a.
Proof.
  revert i. induction l as [|c l IH]; intros i; cbn; [done |]. destruct (Z.eqb_spec c delim) as [->|Hne].
  - intros [= <-]. exists [], l. split; [done |]. split; [done |]. set_solver.
  - destruct (memchr delim l) as [j|]; [| done]. intros [= <-]. destruct (IH j eq_refl) as (a & b & -> & <- & Hn).
    exists (c :: a), b. split; [done |]. split; [apply vlen_cons |]. set_solver.
Qed.

Lemma memchr_None l : memchr delim l = None -> delim ∉ l.
Proof.
  induction l as [|c l IH]; cbn; [set_solver |]. destruct (Z.eqb_spec c delim); [done |].
  destruct (memchr delim l); [done |]. intros _. specialize (IH eq_refl). set_solver.
Qed.

Lemma last_mark (a : list Z) : last (a ++ [delim]) = Some delim /\ removelast (a ++ [delim]) = a.
Proof. split; [apply last_snoc | apply removelast_last]. Qed.

Lemma last_free (a : list Z) : delim ∉ a -> last a <> Some delim.
Proof. intros Hn Hl. apply last_Some in Hl as [l ->]. set_solver. Qed.
End spec.

Section reads.
Context {R : Type} `{HR : BufReads R} `{!FiniteBuf R} (delim : byte).
Implicit Types s : Split R.

(** With [h] read before the segment under way: the reader handed over [h] and
    the bytes of the segment, none of which is the delimiter. *)
Record split_inv s (h a : list byte) : Prop := {
  s_byte : byte_ s = delim;
  s_holds : holds (reader s) (h ++ buf s) a;
  s_free : delim ∉ buf s;
  s_read : read s = vlen (buf s);
  s_fits : vlen (buf s) + vlen a + Z.of_nat (buf_left (reader s)) <= u64_max }.

(** A pass for the bytes in the buffer and one for each refill, at most, before
    the last. *)
Definition reads_left s (a : list byte) : nat := buf_left (reader s) + (if a is [] then 0 else 1).

(** A whole segment, with its delimiter or at the end. *)
Record segment_inv s (h a : list byte) : Prop := {
  e_byte : byte_ s = delim;
  e_holds : holds (reader s) (h ++ buf s) a;
  e_read : read s = 0;
  e_whole : (exists seg, buf s = seg ++ [delim] /\ delim ∉ seg) \/ (delim ∉ buf s /\ a = []);
  e_fits : vlen a + Z.of_nat (buf_left (reader s)) <= u64_max }.

(** What a pass takes: everything up to and including the delimiter, or
    everything. *)
Lemma until_ok l :
  exists got rest done, until delim l = (done, vlen got) /\ l = got ++ rest /\
    (done = true /\ (exists seg, got = seg ++ [delim] /\ delim ∉ seg) \/
     rest = [] /\ delim ∉ got /\ done = bool_decide (got = [])).
Proof using Type.
  unfold until. destruct (memchr delim l) as [i|] eqn:E.
  - apply memchr_Some in E as (a & b & -> & <- & Hn). exists (a ++ [delim]), b, true.
    split; [by rewrite vlen_app | split; [by rewrite <- app_assoc |]]. left. split; [done |]. by exists a.
  - exists l, [], (bool_decide (l = [])). split; [done |]. split; [by rewrite app_nil_r |]. right.
    split; [done |]. split; [by apply memchr_None | done].
Qed.

Lemma read_until_ok fuel cx s h a :
  split_inv s h a -> (reads_left s a < fuel)%nat ->
  exists p s' a', read_until fuel cx s = Some (p, s') /\ (buf_left (reader s') <= buf_left (reader s))%nat /\
  match p with
  | Ready (Ok n) => n = vlen (buf s') /\ segment_inv s' h a'
  | _ => split_inv s' h a'
  end.
Proof using HR.
  revert s a. induction fuel as [|fuel IH]; intros s a Hi Hf; [lia |]. cbn [read_until].
  assert (Hi' := Hi). destruct Hi as [Hby Hh Hfree Hrd Hfit]. unfold reads_left in Hf.
  destruct (filled cx (reader s) _ a Hh) as (p & r & -> & Hp). destruct p as [[av|e]|]; cbn [ready].
  2, 3: destruct Hp as [Hh' Hl]; eexists _, _, a; split; [done |]; split; [done |]; by constructor; cbn; try done; lia.
  destruct Hp as (Hav & Hle & Hl & Hlt). rewrite Hby.
  destruct (until_ok av) as (got & rest & done_ & -> & -> & Hcase). pose proof (vlen_nonneg rest) as Hvr.
  pose proof (vlen_nonneg got) as Hvg.
  rewrite slice_front by (len). rewrite takez_app_l, takez_all by lia.
  destruct (consumed r _ got rest Hav) as (r' & -> & Hh' & Hl'). rewrite <- app_assoc in Hh'.
  assert (Hsum : vlen (buf s) + vlen got + vlen rest + Z.of_nat (buf_left r') <= u64_max)
    by (rewrite length_app in Hl; len).
  pose proof (vlen_nonneg (buf s)). rewrite Hrd, add64_Some by lia. destruct done_.
  - eexists _, _, rest. split; [done |]. cbn [with_read with_buf with_reader reader buf byte_ read].
    split; [lia |]. split; [by rewrite vlen_app |]. constructor; cbn; try done; [| lia].
    destruct Hcase as [[_ (seg & -> & Hn)] | (-> & Hn & _)]; [left; exists (buf s ++ seg) | right].
    + split; [by rewrite app_assoc | set_solver].
    + split; [set_solver | done].
  - destruct Hcase as [[] | (-> & Hn & Hg)]; [done |]. symmetry in Hg. apply bool_decide_eq_false in Hg.
    set (s1 := with_read _ _). specialize (Hlt ltac:(by rewrite app_nil_r)).
    destruct (IH s1 []) as (p & s' & a' & -> & Hl2 & Hp).
    { constructor; cbn; try done; [set_solver | by rewrite vlen_app | len]. }
    { unfold reads_left. cbn. lia. }
    eexists _, _, a'. split; [done |]. cbn in Hl2. split; [lia | done].
Qed.

Lemma next_segment_ok fuel cx s h a :
  split_inv s h a -> (S (buf_left (reader s)) < fuel)%nat ->
  exists p s', poll_next_segment fuel cx s = Some (p, s') /\ (buf_left (reader s') <= buf_left (reader s))%nat /\
  match p with
  | Ready (Ok (Some seg)) => delim ∉ seg /\ exists (m : bool) a',
      (m = false -> seg <> []) /\ split_inv s' (h ++ seg ++ (if m then [delim] else [])) a'
  | Ready (Ok None) => split_inv s' h [] /\ buf s' = []
  | _ => exists a', split_inv s' h a'
  end.
Proof using HR.
  intros Hi Hf. unfold poll_next_segment.
  destruct (read_until_ok fuel cx s h a Hi) as (p & s1 & a1 & -> & Hl & Hp); [unfold reads_left; destruct a; lia |].
  destruct p as [[n|e]|]; cbn [ready id]; [| eexists _, _; split; [done |]; split; [done |]; by exists a1 ..].
  destruct Hp as [-> [Hby Hh Hrd Hwhole Hfit]]. pose proof (vlen_nonneg (buf s1)).
  destruct (Z.eqb_spec (vlen (buf s1)) 0) as [Hz|Hnz]; cbn [andb].
  - assert (Hnil : buf s1 = []) by (apply nil_length_inv; unfold vlen in Hz; lia).
    rewrite bool_decide_true by done. eexists _, _. split; [done |]. split; [done |]. split; [| done].
    destruct Hwhole as [(seg & Hseg & _) | [Hn ->]]; [rewrite Hnil in Hseg; by destruct seg |].
    constructor; [done | done | done | by rewrite Hrd, Hnil | by rewrite Hnil].
  - eexists _, _. split; [done |]. split; [done |]. rewrite Hby.
    assert (Hne : buf s1 <> []) by (intros E; by rewrite E in Hnz).
    destruct Hwhole as [(seg & Hseg & Hn) | [Hn ->]].
    + rewrite Hseg. destruct (last_mark delim seg) as [-> ->]. rewrite bool_decide_true by done.
      split; [done |]. exists true, a1. split; [done |].
      constructor; cbn; try done; [by rewrite app_nil_r, <- Hseg | set_solver].
    + rewrite bool_decide_false by (by apply last_free). split; [done |]. exists false, []. split; [done |].
      constructor; cbn; try done; [by rewrite !app_nil_r | set_solver].
Qed.

Lemma segments_ok fuel cxs s h a :
  split_inv s h a -> (S (buf_left (reader s)) < fuel)%nat ->
  exists segs ended s' marks a', segments fuel cxs s = Some (segs, ended, s') /\
    Forall2 (fun seg (m : bool) => delim ∉ seg /\ (m = false -> seg <> [])) segs marks /\
    split_inv s' (h ++ joined delim segs marks) a' /\ (ended = true -> buf s' = [] /\ a' = []).
Proof using HR.
  revert s h a. induction cxs as [|cx cxs IH]; intros s h a Hi Hf; cbn [segments].
  { exists [], false, s, [], a. split; [done |]. split; [done |]. by rewrite app_nil_r. }
  destruct (next_segment_ok fuel cx s h a Hi Hf) as (p & s1 & -> & Hl & Hp).
  destruct p as [[[seg|]|e]|].
  - destruct Hp as (Hn & m & a1 & Hm & Hi1).
    destruct (IH s1 _ a1 Hi1 ltac:(lia)) as (segs & ended & s' & marks & a' & -> & Hall & Hi' & He).
    exists (seg :: segs), ended, s', (m :: marks), a'. split; [done |]. split; [by constructor |].
    split; [| done]. cbn [joined]. by rewrite <- !app_assoc in Hi'.
  - destruct Hp as [Hi1 Hnil]. exists [], true, s1, [], []. split; [done |]. split; [done |]. by rewrite app_nil_r.
  - destruct Hp as [a1 Hi1]. apply (IH s1 h a1 Hi1). lia.
  - destruct Hp as [a1 Hi1]. apply (IH s1 h a1 Hi1). lia.
Qed.
End reads.

(** C32. Splitting a buffered reader into the segments between a byte loses
    nothing and makes nothing up, through any number of polls, pending and
    failed ones included: each poll ends; the segments, none of which holds the
    delimiter, joined again with the delimiter after each that ended at one,
    are exactly the bytes the reader handed over, but for those of a segment
    not yet whole; a segment that ended without a delimiter is not empty; and
    at the end nothing is left over. *)
Theorem split_joins_back {R : Type} `{HR : BufReads R} `{!FiniteBuf R} (delim : byte) (r : R)
    (h a : list byte) (cxs : list Waker) (fuel : nat)
    (Hr : holds r h a) (Hsize : vlen a + Z.of_nat (buf_left r) <= u64_max) (Hfuel : (S (buf_left r) < fuel)%nat) :
  exists segs ended s marks rest,
    segments fuel cxs (split r delim) = Some (segs, ended, s) /\
    Forall2 (fun seg (m : bool) => delim ∉ seg /\ (m = false -> seg <> [])) segs marks /\
    holds (reader s) (h ++ joined delim segs marks ++ buf s) rest /\ delim ∉ buf s /\
    (ended = true -> buf s = [] /\ rest = []).
Proof.
  destruct (segments_ok delim fuel cxs (split r delim) h a) as (segs & ended & s & marks & rest & E & Hall & [] & He).
  - constructor; cbn; try done; [by rewrite app_nil_r | set_solver].
  - done.
  - exists segs, ended, s, marks, rest. rewrite <- app_assoc in s_holds0. done.
Qed.

#[local] Transparent takez dropz.

(** Segments of a reader that is pending every other time, through a buffer of
    three bytes. *)
Definition split_source : BufReader.BufReader MemReader :=
  BufReader.with_capacity 3 (mem_reader 2 [1; 2; 0; 3; 0; 0; 4]).

Lemma split_joins_back_witness :
  exists s marks,
    segments 9 (replicate 20 1) (split split_source 0) = Some ([[1; 2]; [3]; []; [4]], true, s) /\
    holds (reader s) (joined 0 [[1; 2]; [3]; []; [4]] marks) [].
Proof.
  assert (Hh : holds split_source [] []) by (apply with_capacity_holds; [cbv; split; discriminate | reflexivity]).
  destruct (split_joins_back 0 split_source [] [] (replicate 20 1) 9 Hh) as (segs & ended & s & marks & rest & E & _ & Hs & _ & He);
    [cbv; discriminate | cbn; lia |].
  assert (Hp : option_map fst (segments 9 (replicate 20 1) (split split_source 0)) = Some ([[1; 2]; [3]; []; [4]], true))
    by (lazy; reflexivity).
  rewrite E in Hp. cbn in Hp. injection Hp as -> ->. destruct (He eq_refl) as [Hb ->]. exists s, marks.
  split; [exact E |]. rewrite Hb, app_nil_r in Hs. exact Hs.
Defined.
