(* ===== verification/Copy.v ===== *)
(** * Copying from a reader to a writer

    [io/util/copy.rs]: one direction through a buffer, from a buffered reader's
    own buffer, and both ways at once. The loops are cut by fuel, which the
    theorems show to be enough for a reader that ends. *)

From S2P Require Import Prelude Bytes Streams Buffered.
Open Scope Z_scope.

Definition DEFAULT_BUF_SIZE : Z := 8 * 1024.

Record CopyBuffer : Type := {
  read_done : bool;
  need_flush : bool;
  pos : Z;
  cap : Z;
  amount : Z;
  buf : list byte }.

Definition set_read_done x b := {| read_done := x; need_flush := need_flush b; pos := pos b; cap := cap b;
  amount := amount b; buf := buf b |}.
Definition set_need_flush x b := {| read_done := read_done b; need_flush := x; pos := pos b; cap := cap b;
  amount := amount b; buf := buf b |}.
Definition set_pos x b := {| read_done := read_done b; need_flush := need_flush b; pos := x; cap := cap b;
  amount := amount b; buf := buf b |}.
Definition set_cap x b := {| read_done := read_done b; need_flush := need_flush b; pos := pos b; cap := x;
  amount := amount b; buf := buf b |}.
Definition set_amount x b := {| read_done := read_done b; need_flush := need_flush b; pos := pos b; cap := cap b;
  amount := x; buf := buf b |}.
Definition set_buf x b := {| read_done := read_done b; need_flush := need_flush b; pos := pos b; cap := cap b;
  amount := amount b; buf := x |}.

Definition new (size : Z) : CopyBuffer :=
  {| read_done := false; need_flush := false; pos := 0; cap := 0; amount := 0;
     buf := replicate (Z.to_nat (Z.max size 1)) 0 |}.

(** The buffer with the two streams it is polled with. *)
Record Copying (R W : Type) : Type := { cb : CopyBuffer; rd : R; wr : W }.
Arguments cb {R W} _.
Arguments rd {R W} _.
Arguments wr {R W} _.

Section copy.
Context {R W : Type} `{AsyncRead R} `{AsyncWrite W}.
Implicit Types s : Copying R W.

Definition with_cb (x : CopyBuffer) s : Copying R W := {| cb := x; rd := rd s; wr := wr s |}.
Definition with_rd (x : R) s : Copying R W := {| cb := cb s; rd := x; wr := wr s |}.
Definition with_wr (x : W) s : Copying R W := {| cb := cb s; rd := rd s; wr := x |}.

(** The reader is asked when the buffer is empty; before a wait for it, what was
    written is flushed. [Ready (Ok tt)]: the loop goes on. *)
Definition copy_read (cx : Waker) s : Polled (Copying R W) unit :=
  let b := cb s in
  if (pos b =? cap b) && negb (read_done b) then
    match poll_read cx (vlen (buf b)) (rd s) with
    | None => None
    | Some (Ready (Ok []), r) => Some (Ready (Ok tt), with_cb (set_read_done true b) (with_rd r s))
    | Some (Ready (Ok bs), r) =>
        let* l := write_at 0 bs (buf b) in
        Some (Ready (Ok tt), with_cb (set_cap (vlen bs) (set_pos 0 (set_buf l b))) (with_rd r s))
    | Some (Ready (Err e), r) => Some (Ready (Err e), with_rd r s)
    | Some (Pending, r) =>
        let t := with_rd r s in
        if need_flush b then
          ready (poll_flush cx (wr t)) (fun w => with_wr w t) (fun _ w =>
            Some (Pending, with_cb (set_need_flush false b) (with_wr w t)))
        else Some (Pending, t)
    end
  else Some (Ready (Ok tt), s).

(** [while self.pos < self.cap]. *)
Fixpoint copy_write (fuel : nat) (cx : Waker) s : Polled (Copying R W) unit :=
  match fuel with
  | O => None
  | S fuel =>
      let b := cb s in
      if pos b <? cap b then
        let* rest := slice (pos b) (cap b) (buf b) in
        ready (poll_write cx rest (wr s)) (fun w => with_wr w s) (fun n w =>
          let t := with_wr w s in
          if n =? 0 then Some (Ready (Err WriteZero), t)
          else
            let* total := add64 (amount b) n in
            copy_write fuel cx (with_cb (set_need_flush true (set_amount total (set_pos (pos b + n) b))) t))
      else Some (Ready (Ok tt), s)
  end.

(** [poll_copy]. *)
Fixpoint poll_copy (fuel : nat) (cx : Waker) s : Polled (Copying R W) Z :=
  match fuel with
  | O => None
  | S fuel =>
      ready (copy_read cx s) id (fun _ s =>
      ready (copy_write (S (Z.to_nat (cap (cb s) - pos (cb s)))) cx s) id (fun _ s =>
      if (pos (cb s) =? cap (cb s)) && read_done (cb s) then
        ready (poll_flush cx (wr s)) (fun w => with_wr w s) (fun _ w =>
          Some (Ready (Ok (amount (cb s))), with_wr w s))
      else poll_copy fuel cx s))
  end.

(** [copy]: the future it returns, and its polls, one for each waker, up to the
    one that is ready. *)
Definition copying (size : Z) (r : R) (w : W) : Copying R W := {| cb := new size; rd := r; wr := w |}.

Definition copy (r : R) (w : W) : Copying R W := copying DEFAULT_BUF_SIZE r w.

Fixpoint drive (fuel : nat) (cxs : list Waker) s : Polled (Copying R W) Z :=
  match cxs with
  | [] => Some (Pending, s)
  | cx :: cxs =>
      match poll_copy fuel cx s with
      | Some (Pending, s) => drive fuel cxs s
      | m => m
      end
  end.
End copy.

(** [copy_buf]. *)
Section copy_buf.
Context {R W : Type} `{AsyncBufRead R} `{AsyncWrite W}.

Fixpoint copy_buf (fuel : nat) (cx : Waker) (s : Z * R * W) : Polled (Z * R * W) Z :=
  match fuel with
  | O => None
  | S fuel =>
      let '(amount, r, w) := s in
      ready (poll_fill_buf cx r) (fun r => (amount, r, w)) (fun available r =>
      match available with
      | [] =>
          ready (poll_flush cx w) (fun w => (amount, r, w)) (fun _ w => Some (Ready (Ok amount), (amount, r, w)))
      | _ =>
          ready (poll_write cx available w) (fun w => (amount, r, w)) (fun n w =>
          if n =? 0 then Some (Ready (Err WriteZero), (amount, r, w))
          else
            let* r := consume n r in
            let* total := add64 amount n in
            copy_buf fuel cx (total, r, w))
      end)
  end.
End copy_buf.

(** ** Both ways *)

Inductive Transfer : Type :=
| Running (b : CopyBuffer)
| ShuttingDown (amount : Z)
| Done (amount : Z).

Section transfer.
Context {R W : Type} `{AsyncRead R} `{AsyncWrite W}.

Definition poll_after_copy (cx : Waker) (t : Transfer) (w : W) : Polled (Transfer * W) Z :=
  match t with
  | ShuttingDown amount =>
      ready (poll_close cx w) (fun w => (t, w)) (fun _ w => Some (Ready (Ok amount), (Done amount, w)))
  | Done amount => Some (Ready (Ok amount), (t, w))
  | Running _ => Some (Pending, (t, w))
  end.

Definition poll_transfer (fuel : nat) (cx : Waker) (t : Transfer) (r : R) (w : W) : Polled (Transfer * R * W) Z :=
  let after t r w :=
    match poll_after_copy cx t w with
    | Some (p, (t, w)) => Some (p, (t, r, w))
    | None => None
    end in
  match t with
  | Running b =>
      ready (poll_copy fuel cx {| cb := b; rd := r; wr := w |})
        (fun s => (Running (cb s), rd s, wr s))
        (fun amount s => after (ShuttingDown amount) (rd s) (wr s))
  | _ => after t r w
  end.
End transfer.

(** [copy_bidirectional_with_sizes]: the two transfers and the two streams. *)
Section bidirectional.
Context {A B : Type} `{AsyncRead A} `{AsyncWrite A} `{AsyncRead B} `{AsyncWrite B}.

Record Both : Type := { forward : Transfer; backward : Transfer; a_side : A; b_side : B }.

Definition copy_bidirectional_with_sizes (a : A) (b : B) (a_to_b b_to_a : Z) : Both :=
  {| forward := Running (new a_to_b); backward := Running (new b_to_a); a_side := a; b_side := b |}.

Definition copy_bidirectional (a : A) (b : B) : Both :=
  copy_bidirectional_with_sizes a b DEFAULT_BUF_SIZE DEFAULT_BUF_SIZE.

(** A poll: each direction in turn; an error of one ends both. *)
Definition poll_both (fuel : nat) (cx : Waker) (s : Both) : Polled Both (Z * Z) :=
  match poll_transfer fuel cx (forward s) (a_side s) (b_side s) with
  | None => None
  | Some (ab, (f, a, b)) =>
      let s := {| forward := f; backward := backward s; a_side := a; b_side := b |} in
      match ab with
      | Ready (Err e) => Some (Ready (Err e), s)
      | _ =>
          match poll_transfer fuel cx (backward s) b a with
          | None => None
          | Some (ba, (g, b, a)) =>
              let s := {| forward := f; backward := g; a_side := a; b_side := b |} in
              match ab, ba with
              | _, Ready (Err e) => Some (Ready (Err e), s)
              | Ready (Ok n), Ready (Ok m) => Some (Ready (Ok (n, m)), s)
              | _, _ => Some (Pending, s)
              end
          end
      end
  end.
End bidirectional.

(** ** What a copy promises

    Properties of [io/util/copy.rs] over any reader and any writer that keep the
    promises of their traits. *)

(** ** One direction *)

Section copy.
Context {R W : Type} `{HR : Reader R} `{HW : Writer W} `{!Finite R}.
Context (g0 t0 : list byte).
Implicit Types s : Copying R W.

(** What it means that a reader which gave [h] is at its end: all that is asked
    is that it is when it says so. *)
Context (ended : R -> list byte -> Prop).
Context (ended_law : forall cx n r h r', 0 < n -> gave r h -> poll_read cx n r = Some (Ready (Ok []), r') -> ended r' h).

Definition pending (b : CopyBuffer) : list byte := takez (cap b - pos b) (dropz (pos b) (buf b)).

(** With [x] copied: the reader gave [x] and what is in the buffer, the writer
    took [x]; what is left cannot overflow the count; and a reader that is done
    has ended. *)
Record copy_inv s (x : list byte) : Prop := {
  c_pos : 0 <= pos (cb s) <= cap (cb s);
  c_cap : cap (cb s) <= vlen (buf (cb s));
  c_buf : 0 < vlen (buf (cb s));
  c_gave : gave (rd s) (g0 ++ x ++ pending (cb s));
  c_took : took (wr s) (t0 ++ x);
  c_amount : amount (cb s) = vlen x;
  c_fits : amount (cb s) + (cap (cb s) - pos (cb s)) + Z.of_nat (left (rd s)) <= u64_max;
  c_done : read_done (cb s) = true -> ended (rd s) (g0 ++ x ++ pending (cb s)) }.

Lemma pending_none b : cap b <= pos b -> pending b = [].
Proof. intros. apply takez_0. lia. Qed.

Lemma pending_filled bs b :
  pending (set_cap (vlen bs) (set_pos 0 (set_buf (takez 0 (buf b) ++ bs ++ dropz (0 + vlen bs) (buf b)) b))) = bs.
Proof.
  unfold pending. cbn [set_cap set_pos set_buf pos cap buf].
  rewrite (takez_0 0), (dropz_0 0), Z.sub_0_r by lia. cbn [app]. by rewrite takez_app_l, takez_all by lia.
Qed.

(** How many passes are left, at most, before the one that ends: one for a buffer
    that still holds bytes and one for each read. *)
Definition passes_left s : nat := left (rd s) + (if pos (cb s) <? cap (cb s) then 1 else 0).

Lemma passes_full s : passes_left s = S (left (rd s)) \/ cap (cb s) <= pos (cb s) /\ passes_left s = left (rd s).
Proof. unfold passes_left. destruct (Z.ltb_spec (pos (cb s)) (cap (cb s))); [left | right]; lia. Qed.

(** The read of a pass: the buffer has bytes, or the reader ended. *)
Lemma copy_read_ok cx s x :
  copy_inv s x ->
  exists p s', copy_read cx s = Some (p, s') /\ copy_inv s' x /\ (passes_left s' <= passes_left s)%nat /\
    (p = Ready (Ok tt) ->
     pos (cb s') < cap (cb s') /\ (left (rd s') < passes_left s)%nat \/ read_done (cb s') = true).
Proof using HR HW ended_law.
  intros Hi0. pose proof Hi0 as [Hpos Hcap Hbuf Hgave Htook Ham Hfit Hend]. unfold copy_read.
  destruct (Z.eqb_spec (pos (cb s)) (cap (cb s))) as [Heq|Hne]; cbn [andb].
  2: { exists (Ready (Ok tt)), s. split; [done |]. split; [done |]. split; [done |]. left.
       destruct (passes_full s); lia. }
  destruct (read_done (cb s)) eqn:Hdone; cbn [negb].
  { exists (Ready (Ok tt)), s. split; [done |]. split; [done |]. split; [done |]. by right. }
  rewrite pending_none, app_nil_r in Hgave by lia.
  destruct (read_law cx (vlen (buf (cb s))) (rd s) _ (vlen_nonneg _) Hgave) as (p & r & E & Hp).
  pose proof (left_law cx _ _ _ _ E) as Hleft. rewrite E.
  destruct p as [[[|c bs]|e]|].
  - destruct Hp as [_ Hg]. rewrite app_nil_r in Hg. eexists _, _. split; [done |]. split.
    + assert (Hpn : pending (set_read_done true (cb s)) = []) by (apply pending_none; cbn; lia).
      constructor; cbn [cb rd wr with_cb with_rd]; rewrite ?Hpn, ?app_nil_r; cbn; try done; [lia |].
      intros _. exact (ended_law _ _ _ _ _ Hbuf Hgave E).
    + split; [| by right]. unfold passes_left in *. cbn. lia.
  - destruct Hp as [Hn Hg]. pose proof (vlen_nonneg bs). rewrite vlen_cons in Hn.
    rewrite write_at_Some by (rewrite ?vlen_cons; lia). eexists _, _. split; [done |].
    pose proof (vlen_write 0 (c :: bs) (buf (cb s)) ltac:(lia) ltac:(rewrite vlen_cons; lia)) as Hl. split.
    + constructor; cbn [cb rd wr with_cb with_rd]; rewrite ?pending_filled;
        cbn [set_cap set_pos set_buf pos cap buf amount read_done]; rewrite ?Hl, ?vlen_cons; try done; try lia; [| cbn [length] in Hleft; len | congruence].
      by rewrite app_assoc.
    + cbn [length] in Hleft. unfold passes_left in *. cbn [cb rd with_cb with_rd set_cap set_pos set_buf pos cap]. rewrite vlen_cons.
      destruct (Z.ltb_spec 0 (1 + vlen bs)), (Z.ltb_spec (pos (cb s)) (cap (cb s))); lia.
  - eexists _, _. split; [done |]. split; [| split; [unfold passes_left; cbn; lia | done]].
    constructor; cbn; try done; [by rewrite pending_none, app_nil_r by lia | lia | congruence].
  - assert (Hi : copy_inv (with_rd r s) x)
      by (constructor; cbn; try done; [by rewrite pending_none, app_nil_r by lia | lia | congruence]).
    assert (Hl : (passes_left (with_rd r s) <= passes_left s)%nat) by (unfold passes_left; cbn; lia).
    destruct (need_flush (cb s)); [| by eexists _, _].
    destruct (flush_law cx (wr s) _ Htook) as (p & w & E2 & Ht & _). cbn [wr with_rd]. rewrite E2.
    destruct Hi as [? ? ? Hg ? ? Hf Hde]. destruct p as [[[]|e]|]; cbn [ready];
      (eexists _, _; split; [done |]; split; [by constructor | by split]).
Qed.

Lemma copy_write_ok fuel cx s x :
  copy_inv s x -> cap (cb s) - pos (cb s) < Z.of_nat fuel ->
  exists p s' x', copy_write fuel cx s = Some (p, s') /\ copy_inv s' x' /\ rd s' = rd s /\
    read_done (cb s') = read_done (cb s) /\ cap (cb s') = cap (cb s) /\ pos (cb s) <= pos (cb s') /\
    (p = Ready (Ok tt) -> pos (cb s') = cap (cb s')) /\ x' ++ pending (cb s') = x ++ pending (cb s).
Proof using HW.
  revert s x. induction fuel as [|fuel IH]; intros s x Hi Hf; [destruct Hi; lia |]. cbn [copy_write].
  assert (Hi' := Hi). destruct Hi as [Hpos Hcap Hbuf Hgave Htook Ham Hfit Hend].
  destruct (Z.ltb_spec (pos (cb s)) (cap (cb s))) as [Hlt|Hge].
  2: { exists (Ready (Ok tt)), s, x. split; [done |]. split; [done |]. at_hand 4. split; [intros _; lia | done]. }
  rewrite slice_Some by lia. fold (pending (cb s)). set (rest := pending (cb s)) in *.
  assert (Hv : vlen rest = cap (cb s) - pos (cb s)) by (apply vlen_takez; rewrite vlen_dropz; lia).
  destruct (write_law cx rest (wr s) _ Htook) as (p & w & -> & Hp). destruct p as [[n|e]|]; cbn [ready].
  - destruct Hp as [Hn Ht]. destruct (Z.eqb_spec n 0) as [->|Hne].
    + eexists _, _, x. split; [done |]. split; [| done]. rewrite takez_0, app_nil_r in Ht by lia. by constructor.
    + rewrite add64_Some by lia.
      assert (Hpd : pending (set_need_flush true (set_amount (amount (cb s) + n) (set_pos (pos (cb s) + n) (cb s)))) = dropz n rest).
      { unfold rest, pending. cbn. rewrite dropz_takez, dropz_dropz by lia. f_equal. lia. }
      assert (Hi : copy_inv (with_cb (set_need_flush true (set_amount (amount (cb s) + n) (set_pos (pos (cb s) + n) (cb s)))) (with_wr w s))
        (x ++ takez n rest)).
      { constructor; cbn [cb rd wr with_cb with_wr]; rewrite ?Hpd; cbn; try lia; try done.
        - by rewrite <- app_assoc, takez_dropz.
        - by rewrite app_assoc.
        - rewrite vlen_app, vlen_takez by lia. lia.
        - intros Hrd. rewrite <- app_assoc, takez_dropz. auto. }
      destruct (IH _ _ Hi) as (p & s' & x' & -> & H1 & H2 & H3 & H4 & H5 & H6 & H7); [cbn; lia |].
      cbn [cb with_cb with_wr] in H7. rewrite Hpd, <- app_assoc, takez_dropz in H7.
      cbn in H1, H2, H3, H4, H5, H6. eexists _, _, x'. split; [done |]. at_hand 4. split; [lia | done].
  - eexists _, _, x. split; [done |]. split; [by constructor | done].
  - eexists _, _, x. split; [done |]. split; [by constructor | done].
Qed.

Lemma poll_copy_ok fuel cx s x :
  copy_inv s x -> (passes_left s < fuel)%nat ->
  exists p s' x', poll_copy fuel cx s = Some (p, s') /\ copy_inv s' x' /\ (passes_left s' <= passes_left s)%nat /\
    (forall n, p = Ready (Ok n) ->
      n = vlen x' /\ gave (rd s') (g0 ++ x') /\ flushed (wr s') /\ ended (rd s') (g0 ++ x')).
Proof using HR HW ended_law.
  revert s x. induction fuel as [|fuel IH]; intros s x Hi Hf; [lia |]. cbn [poll_copy].
  destruct (copy_read_ok cx s x Hi) as (p1 & s1 & -> & Hi1 & Hl1 & Hon).
  destruct p1 as [[[]|e]|]; cbn [ready id]; [| by eexists _, _, x ..]. specialize (Hon eq_refl).
  destruct (copy_write_ok (S (Z.to_nat (cap (cb s1) - pos (cb s1)))) cx s1 x Hi1 ltac:(lia))
    as (p2 & s2 & x2 & -> & Hi2 & Hrd & Hdone & Hcap & Hpos & Hall & _).
  assert (Hl2 : (passes_left s2 <= passes_left s1)%nat).
  { unfold passes_left. rewrite Hrd. destruct (Z.ltb_spec (pos (cb s2)) (cap (cb s2))), (Z.ltb_spec (pos (cb s1)) (cap (cb s1))); lia. }
  destruct p2 as [[[]|e]|]; cbn [ready id]; [| eexists _, _, x2; split; [done |]; split; [done |]; split; [lia | done] ..].
  specialize (Hall eq_refl). rewrite Hall, Z.eqb_refl. cbn [andb]. destruct (read_done (cb s2)) eqn:Hd2.
  - assert (Hi3 := Hi2). destruct Hi2 as [? ? ? Hg Ht Ham ? Hde]. specialize (Hde Hd2). destruct (flush_law cx (wr s2) _ Ht) as (p & w & -> & Ht' & Hfl).
    rewrite pending_none, app_nil_r in Hg, Hde by lia.
    destruct p as [[[]|e]|]; cbn [ready]; (eexists _, _, x2; split; [done |]; split; [by destruct Hi3; constructor |]; split; [exact (Nat.le_trans _ _ _ Hl2 Hl1) |]); [| done ..].
    intros n [= <-]. split; [done |]. split; [done |]. split; [by apply Hfl | done].
  - destruct Hon as [[Hlt Hleft] | Hd]; [| congruence].
    assert (Hm : (passes_left s2 < passes_left s)%nat).
    { unfold passes_left at 1. rewrite Hrd. destruct (Z.ltb_spec (pos (cb s2)) (cap (cb s2))); lia. }
    destruct (IH s2 x2 Hi2 ltac:(lia)) as (p & s' & x' & E & H1 & H2 & H3). rewrite E.
    eexists _, _, x'. split; [done |]. split; [done |]. split; [lia | done].
Qed.

Lemma drive_ok fuel cxs s x :
  copy_inv s x -> (passes_left s < fuel)%nat ->
  exists p s' x', drive fuel cxs s = Some (p, s') /\ copy_inv s' x' /\
    (forall n, p = Ready (Ok n) ->
      n = vlen x' /\ gave (rd s') (g0 ++ x') /\ flushed (wr s') /\ ended (rd s') (g0 ++ x')).
Proof using HR HW ended_law.
  revert s x. induction cxs as [|cx cxs IH]; intros s x Hi Hf; cbn [drive]; [by eexists _, _, x |].
  destruct (poll_copy_ok fuel cx s x Hi Hf) as (p & s' & x' & -> & Hi' & Hl & Hd).
  destruct p as [[n|e]|]; [by eexists _, _, x' .. |]. apply (IH s' x'); [done | lia].
Qed.
End copy.

(** *** Where an answer comes from *)

Section answers.
Context {R W : Type} `{AsyncRead R} `{AsyncWrite W}.
Implicit Types s : Copying R W.

(** A poll with [cx] waits only as a stream polled with [cx] waits, and fails
    only as one failed, or as the writer took none of the bytes it was given. *)
Definition from_streams {T} (cx : Waker) (p : PollIo T) : Prop :=
  match p with
  | Ready (Ok _) => True
  | Ready (Err e) =>
      (exists n (r r' : R), poll_read cx n r = Some (Ready (Err e), r')) \/
      (exists bs (w w' : W), poll_write cx bs w = Some (Ready (Err e), w')) \/
      (exists (w w' : W), poll_flush cx w = Some (Ready (Err e), w')) \/
      e = WriteZero /\ exists bs (w w' : W), bs <> [] /\ poll_write cx bs w = Some (Ready (Ok 0), w')
  | Pending =>
      (exists n (r r' : R), poll_read cx n r = Some (Pending, r')) \/
      (exists bs (w w' : W), poll_write cx bs w = Some (Pending, w')) \/
      (exists (w w' : W), poll_flush cx w = Some (Pending, w'))
  end.

Lemma copy_read_from cx s p s' : copy_read cx s = Some (p, s') -> from_streams cx p.
Proof.
  unfold copy_read. destruct (_ && _); [| by intros [= <- <-]].
  destruct (poll_read cx _ (rd s)) as [[[[[|c bs]|e]|] r]|] eqn:E; [| | | | done].
  - by intros [= <- <-].
  - destruct (write_at _ _ _); [| done]. by intros [= <- <-].
  - intros [= <- <-]. left. eauto.
  - destruct (need_flush (cb s)); [| intros [= <- <-]; left; eauto].
    unfold ready. cbn [wr with_rd]. destruct (poll_flush cx (wr s)) as [[[[[]|e]|] w]|] eqn:E2; [.. | done]; intros [= <- <-];
      [left; eauto | do 2 right; left; eauto | left; eauto].
Qed.

Lemma slice_vlen a b (l rest : list byte) : slice a b l = Some rest -> vlen rest = b - a.
Proof.
  unfold slice. destruct (Z.leb_spec 0 a), (Z.leb_spec a b), (Z.leb_spec b (vlen l)); try done. intros [= <-].
  apply vlen_takez. rewrite vlen_dropz; lia.
Qed.

Lemma copy_write_from fuel cx s p s' : copy_write fuel cx s = Some (p, s') -> from_streams cx p.
Proof.
  revert s. induction fuel as [|fuel IH]; intros s; [done |]. cbn [copy_write].
  destruct (Z.ltb_spec (pos (cb s)) (cap (cb s))) as [Hlt|]; [| by intros [= <- <-]].
  destruct (slice _ _ _) as [rest|] eqn:Es; [| done]. unfold ready.
  destruct (poll_write cx rest (wr s)) as [[[[n|e]|] w]|] eqn:E; [| | | done].
  - destruct (Z.eqb_spec n 0) as [->|].
    + intros [= <- <-]. do 3 right. split; [done |]. exists rest, (wr s), w. split; [| done]. intros ->.
      apply slice_vlen in Es. change (vlen []) with 0 in Es. lia.
    + destruct (add64 _ _); [apply IH | done].
  - intros [= <- <-]. right; left. eauto.
  - intros [= <- <-]. right; left. eauto.
Qed.

Lemma poll_copy_from fuel cx s p s' : poll_copy fuel cx s = Some (p, s') -> from_streams cx p.
Proof.
  revert s. induction fuel as [|fuel IH]; intros s; [done |]. cbn [poll_copy]. unfold ready at 1.
  destruct (copy_read cx s) as [[[[[]|e]|] s1]|] eqn:E1; [| intros [= <- <-]; exact (copy_read_from _ _ _ _ E1) .. | done].
  unfold ready at 1.
  destruct (copy_write _ cx s1) as [[[[[]|e]|] s2]|] eqn:E2; [| intros [= <- <-]; exact (copy_write_from _ _ _ _ _ E2) .. | done].
  destruct (_ && _); [| apply IH]. unfold ready.
  destruct (poll_flush cx (wr s2)) as [[[[[]|e]|] w]|] eqn:E; [.. | done]; intros [= <- <-]; [done | |]; do 2 right; [left |]; eauto.
Qed.

Lemma drive_from fuel cxs s p s' : drive fuel cxs s = Some (p, s') -> cxs = [] \/ exists cx, cx ∈ cxs /\ from_streams cx p.
Proof.
  revert s. induction cxs as [|cx cxs IH]; intros s Ed; [by left |]. right. cbn [drive] in Ed.
  destruct (poll_copy fuel cx s) as [[q s1]|] eqn:E; [| done]. pose proof (poll_copy_from _ _ _ _ _ E) as Hf.
  destruct q as [q|]; [injection Ed as <- <-; exists cx; split; [by left | done] |].
  destruct (IH s1 Ed) as [-> | (cx' & Hin & Hf')]; [| exists cx'; split; [by right | done]].
  cbn in Ed. injection Ed as <- <-. exists cx. split; [by left | done].
Qed.
End answers.

(** *** The end of the reader *)

(** A reader with a known end, as one that gives what it has left. *)
Section sources.
Context {R : Type} `{HS : Source R} (bs : list byte).

Definition source_gave (r : R) (h : list byte) : Prop := exists rest, source r rest /\ bs = h ++ rest.

Definition source_reader : Reader R.
Proof using HS bs.
  refine {| gave := source_gave |}. intros cx n r h Hn (rest & Hr & ->).
  destruct (source_law cx n r rest Hn Hr) as (p & r' & E & Hp). exists p, r'. split; [done |].
  destruct p as [[got|e]|]; [| by exists rest ..]. destruct Hp as (Hv & _ & rest' & -> & Hr'). split; [done |].
  exists rest'. by rewrite <- app_assoc.
Defined.

Lemma source_ended cx n r h r' :
  0 < n -> source_gave r h -> poll_read cx n r = Some (Ready (Ok []), r') -> source r' [] /\ h = bs.
Proof using HS bs.
  intros Hn (rest & Hr & Hb) E. destruct (source_law cx n r rest ltac:(lia) Hr) as (p & r1 & E1 & Hp). rewrite E1 in E. injection E as -> ->.
  destruct Hp as (_ & Hend & rest' & E2 & Hr'). cbn in E2. subst rest'. destruct Hend as [? | ->]; [done | lia |].
  by rewrite app_nil_r in Hb.
Qed.
End sources.

(** ** From a reader's own buffer *)

Section copy_buf.
Context {R W : Type} `{HR : BufReads R} `{!FiniteBuf R} `{HW : Writer W}.
Context (g0 t0 : list byte).

(** With [x] copied, the reader handed over [x] and nothing else. *)
Record copy_buf_inv (s : Z * R * W) (x a : list byte) : Prop := {
  cb_holds : holds s.1.2 (g0 ++ x) a;
  cb_took : took s.2 (t0 ++ x);
  cb_amount : s.1.1 = vlen x;
  cb_fits : s.1.1 + vlen a + Z.of_nat (buf_left s.1.2) <= u64_max }.

(** [copy_buf] ends within one pass more than the bytes left; it hands over to
    the writer exactly what it takes from the reader, and answers [Ok] at the
    end, with the writer flushed. *)
Lemma copy_buf_ok fuel cx s x a :
  copy_buf_inv s x a -> (length a + buf_left s.1.2 < fuel)%nat ->
  exists p s' x' a', copy_buf fuel cx s = Some (p, s') /\ copy_buf_inv s' x' a' /\
    (forall n, p = Ready (Ok n) -> n = vlen x' /\ a' = [] /\ flushed s'.2).
Proof using HR HW.
  revert s x a. induction fuel as [|fuel IH]; intros [[n r] w] x a [Hh Ht Hn Hf] Hl; [lia |]. cbn in *.
  destruct (filled cx r _ a Hh) as (p & r1 & -> & Hp). destruct p as [[av|e]|]; cbn [ready].
  2, 3: destruct Hp; eexists _, _, x, a; split; [done |]; split; [constructor; cbn; done || lia | done].
  destruct Hp as (Hav & Hle & Hsum & _). destruct av as [|c av].
  - destruct (flush_law cx w _ Ht) as (p & w1 & -> & Ht1 & Hfl).
    assert (Hi : copy_buf_inv (n, r1, w1) x [])
      by (pose proof (vlen_nonneg a); constructor; cbn; try done; change (vlen []) with 0; lia).
    destruct p as [[[]|e]|]; cbn [ready]; (eexists _, _, x, []; split; [done |]; split; [done |]); [| done ..].
    intros k [= <-]. split; [done |]. split; [done |]. by apply Hfl.
  - destruct (write_law cx (c :: av) w _ Ht) as (p & w1 & -> & Hp). set (all := c :: av) in *.
    assert (Hfit : n + vlen all + Z.of_nat (buf_left r1) <= u64_max) by len.
    destruct p as [[k|e]|]; cbn [ready].
    2, 3: eexists _, _, x, all; split; [done |]; split; [constructor; cbn; done || lia | done].
    destruct Hp as [Hk Ht1]. destruct (Z.eqb_spec k 0) as [->|Hne].
    { eexists _, _, x, all. split; [done |]. rewrite takez_0, app_nil_r in Ht1 by lia.
      split; [constructor; cbn; done || lia | done]. }
    rewrite <- (takez_dropz k all) in Hav. assert (Hkl : vlen (takez k all) = k) by (apply vlen_takez; lia).
    destruct (consumed r1 _ _ _ Hav) as (r2 & E & Hh2 & Hl2). rewrite Hkl in E. rewrite E, add64_Some by lia.
    assert (Hd : vlen (dropz k all) = vlen all - k) by (apply vlen_dropz; lia).
    apply (IH (n + k, r2, w1) (x ++ takez k all) (dropz k all)); [| cbn; len].
    constructor; cbn; rewrite ?app_assoc; try done; [len | lia].
Qed.
End copy_buf.

(** C31. Copying through a buffer of any size ([copy] has one of 8 KiB), from any
    reader with a known end to any writer, which keep the promises of their
    traits, through any number of polls: every poll ends (with more passes than
    the reader has reads left); the writer has taken, in order, a prefix of the
    reader's bytes, the copy's own buffer holds the next ones, and the reader
    still has the rest; when the copy answers [Ok n], the writer took all of the
    reader's bytes, [n] of them, and was flushed. It waits only as one of the
    streams, polled with the same waker, waits; and fails only as one of them
    failed, or as the writer took none of the bytes it was given. *)
Theorem copy_copies_everything {R W : Type} `{HS : Source R} `{HW : Writer W} `{!Finite R}
    (bs t0 : list byte) (size : Z) (r : R) (w : W) (cxs : list Waker) (fuel : nat)
    (Hr : source r bs) (Hw : took w t0)
    (Hsize : Z.of_nat (left r) <= u64_max) (Hfuel : (left r < fuel)%nat) :
  exists p s x rest, drive fuel cxs (copying size r w) = Some (p, s) /\
    took (wr s) (t0 ++ x) /\ bs = x ++ pending (cb s) ++ rest /\ source (rd s) rest /\
    (forall n, p = Ready (Ok n) -> x = bs /\ n = vlen bs /\ flushed (wr s)) /\
    (cxs = [] \/ exists cx, cx ∈ cxs /\ from_streams (R := R) (W := W) cx p).
Proof.
  assert (Hl : vlen (replicate (Z.to_nat (Z.max size 1)) (0 : Z)) = Z.max size 1).
  { unfold vlen. rewrite length_replicate. lia. }
  destruct (@drive_ok R W _ (source_reader bs) _ _ _ [] t0 (fun r' h => h = bs) (fun cx n r h r' Hn Hg E => proj2 (source_ended bs cx n r h r' Hn Hg E))
    fuel cxs (copying size r w) []) as (p & s & x & E & [_ _ _ (rest & Hrest & Hbs) Htook _ _ _] & Hdone).
  - constructor; cbn [copying cb rd wr new pos cap buf amount]; rewrite ?Hl, ?app_nil_r; try done; try lia.
    by exists bs.
  - unfold passes_left. cbn [copying cb rd new pos cap]. change (0 <? 0) with false. cbn. lia.
  - exists p, s, x, rest. split; [done |]. split; [done |]. split; [cbn [app] in Hbs; by rewrite <- app_assoc in Hbs |]. split; [done |]. split; [| exact (drive_from _ _ _ _ _ E)].
    intros n Hn. destruct (Hdone n Hn) as (-> & _ & Hf & Hx). cbn in Hx. by subst x.
Qed.

#[local] Transparent takez dropz.

Lemma copy_copies_everything_witness :
  exists s, drive 8 (replicate 40 1) (copying 4 (mem_reader 3 [1; 2; 3; 4; 5; 6; 7]) (BufWriter.with_capacity 4 (mem_writer 2))) =
      Some (Ready (Ok 7), s) /\
    took (wr s) [1; 2; 3; 4; 5; 6; 7] /\ flushed (wr s).
Proof.
  set (r := mem_reader 3 [1; 2; 3; 4; 5; 6; 7]). set (w := BufWriter.with_capacity 4 (mem_writer 2)).
  destruct (copy_copies_everything [1; 2; 3; 4; 5; 6; 7] [] 4 r w (replicate 40 1) 8) as (p & s & x & rest & E & Ht & _ & _ & Hd & _);
    [done | by apply with_capacity_took | cbv; discriminate | cbn; lia |].
  assert (Hp : fst <$> drive 8 (replicate 40 1) (copying 4 r w) = Some (Ready (Ok 7))) by (lazy; reflexivity).
  rewrite E in Hp. cbn in Hp. injection Hp as ->. exists s. destruct (Hd 7 eq_refl) as (-> & _ & Hf).
  split; [exact E |]. split; [exact Ht | exact Hf].
Defined.
