(* ===== verification/CopyBoth.v ===== *)
(** * Copying both ways

    [copy_bidirectional] of [io/util/copy.rs] over two streams that are each
    read and written: each direction is a copy, and neither disturbs the other. *)

From S2P Require Import Prelude Bytes Streams Copy.
Open Scope Z_scope.

(** A stream whose two directions do not interfere: a read changes nothing of
    what it took, a write nothing of what it gave, and a write does not make it
    give more. *)
Class TwoWay (S : Type) `{Reader S} `{Writer S} `{!Finite S} : Type := {
  read_keeps : forall cx n s g h p s', gave s g -> took s h -> poll_read cx n s = Some (p, s') -> took s' h;
  write_keeps : forall cx bs s g h p s', gave s g -> took s h -> poll_write cx bs s = Some (p, s') ->
    gave s' g /\ (left s' <= left s)%nat;
  flush_keeps : forall cx s g h p s', gave s g -> took s h -> poll_flush cx s = Some (p, s') ->
    gave s' g /\ (left s' <= left s)%nat;
  close_keeps : forall cx s g h p s', gave s g -> took s h -> poll_close cx s = Some (p, s') ->
    gave s' g /\ (left s' <= left s)%nat }.

Section sides.
Context {S : Type} `{HT : TwoWay S}.

(** The stream as a reader that also keeps what it took, and as a writer that
    also keeps what it gave. *)
Definition gave_with (h : list byte) (n : nat) (s : S) (g : list byte) : Prop :=
  gave s g /\ took s h /\ (left s <= n)%nat.
Definition took_with (g : list byte) (n : nat) (s : S) (h : list byte) : Prop :=
  took s h /\ gave s g /\ (left s <= n)%nat.

Definition reader_with (h : list byte) (n : nat) : Reader S.
Proof using HT.
  refine {| gave := gave_with h n |}. intros cx k s g Hk (Hg & Ht & Hl).
  destruct (read_law cx k s g Hk Hg) as (p & s' & E & Hp). exists p, s'. split; [done |].
  pose proof (read_keeps cx k s g h p s' Hg Ht E) as Hkeep.
  pose proof (left_law cx k s p s' E) as Hleft.
  assert ((left s' <= n)%nat) by (destruct p as [[[]|]|]; lia).
  destruct p as [[bs|e]|]; [destruct Hp; by repeat split |..]; by repeat split.
Defined.

Lemma flush_with (m : Waker -> S -> Polled S unit) g n cx s h :
  (forall s h, took s h -> flush_promise took flushed h (m cx s)) ->
  (forall s g h p s', gave s g -> took s h -> m cx s = Some (p, s') -> gave s' g /\ (left s' <= left s)%nat) ->
  took_with g n s h -> flush_promise (took_with g n) flushed h (m cx s).
Proof using Type.
  intros Hlaw Hkeep (Ht & Hg & Hl). destruct (Hlaw s h Ht) as (p & s' & E & Ht' & Hf).
  destruct (Hkeep s g h p s' Hg Ht E) as [Hg' Hl']. exists p, s'. split; [done |]. split; [| done].
  split; [done |]. split; [done | lia].
Qed.

Definition writer_with (g : list byte) (n : nat) : Writer S.
Proof using HT.
  refine {| took := took_with g n; flushed := flushed |}.
  - intros cx bs s h (Ht & Hg & Hl). destruct (write_law cx bs s h Ht) as (p & s' & E & Hp).
    destruct (write_keeps cx bs s g h p s' Hg Ht E) as [Hg' Hl']. exists p, s'. split; [done |].
    assert (Hn : (left s' <= n)%nat) by lia.
    destruct p as [[k|e]|]; [destruct Hp; split; [done |]; by repeat split |..]; by repeat split.
  - intros cx s h. apply flush_with; [by apply flush_law | apply flush_keeps].
  - intros cx s h. apply flush_with; [by apply close_law | apply close_keeps].
Defined.
End sides.

(** ** A direction *)

Section direction.
Context {R W : Type} `{HR : TwoWay R} `{HW : TwoWay W}.
Context (g0 t0 : list byte).

(** A direction that copied [x]: from [r], which gave it, to [w], which took it. *)
Definition transfer_inv (t : Transfer) (r : R) (w : W) (x : list byte) : Prop :=
  match t with
  | Running b => copy_inv g0 t0 (fun _ _ => True) {| cb := b; rd := r; wr := w |} x
  | ShuttingDown n | Done n => n = vlen x /\ gave r (g0 ++ x) /\ took w (t0 ++ x)
  end.

(** What the two streams are to the other direction. *)
Definition other_ok (h1 g1 : list byte) (n m : nat) (r : R) (w : W) : Prop :=
  took r h1 /\ (left r <= n)%nat /\ gave w g1 /\ (left w <= m)%nat.

Lemma copy_inv_with h1 g1 n m s x :
  copy_inv g0 t0 (fun _ _ => True) s x -> other_ok h1 g1 n m (rd s) (wr s) ->
  @copy_inv R W _ (reader_with h1 n) _ (writer_with g1 m) _ g0 t0 (fun _ _ => True) s x.
Proof. intros [] (? & ? & ? & ?). constructor; try done; by repeat split. Qed.

Lemma copy_inv_without h1 g1 n m s x :
  @copy_inv R W _ (reader_with h1 n) _ (writer_with g1 m) _ g0 t0 (fun _ _ => True) s x ->
  copy_inv g0 t0 (fun _ _ => True) s x /\ other_ok h1 g1 n m (rd s) (wr s).
Proof.
  intros [? ? ? (Hg & ? & ?) (Ht & ? & ?) ? ? ?]. split; [by constructor | by repeat split].
Qed.

Lemma after_copy_ok cx t r w x h1 g1 n m :
  (forall b, t <> Running b) -> transfer_inv t r w x -> other_ok h1 g1 n m r w ->
  exists p t' w', poll_after_copy cx t w = Some (p, (t', w')) /\ transfer_inv t' r w' x /\
    other_ok h1 g1 n m r w' /\
    (forall k, p = Ready (Ok k) -> k = vlen x /\ gave r (g0 ++ x) /\ t' = Done k).
Proof using HW.
  intros Hrun Hi Ho. destruct t as [b|k|k]; [by destruct (Hrun b) | |]; cbn [poll_after_copy].
  - destruct Hi as (-> & Hg & Ht), Ho as (Ho1 & Ho2 & Ho3 & Ho4).
    destruct (close_law cx w _ Ht) as (p & w' & E & Ht' & _).
    destruct (close_keeps cx w _ _ p w' Ho3 Ht E) as [Hg' Hl]. rewrite E.
    assert (Ho : other_ok h1 g1 n m r w') by (repeat split; done || lia).
    destruct p as [[[]|e]|]; cbn [ready]; eexists _, _, _; (split; [done |]; split; [done |]; split; [done |]);
      [| done ..]. by intros ? [= <-].
  - eexists _, _, _. at_hand 3. intros ? [= <-]. by destruct Hi as (? & ? & ?).
Qed.

Lemma transfer_ok fuel cx t r w x h1 g1 n m :
  transfer_inv t r w x -> other_ok h1 g1 n m r w -> (S n < fuel)%nat ->
  exists p t' r' w' x', poll_transfer fuel cx t r w = Some (p, (t', r', w')) /\ transfer_inv t' r' w' x' /\
    other_ok h1 g1 n m r' w' /\
    (forall k, p = Ready (Ok k) -> k = vlen x' /\ gave r' (g0 ++ x') /\ t' = Done k).
Proof using HR HW.
  intros Hi Ho Hf. unfold poll_transfer. destruct t as [b|k|k].
  - assert (Hc := copy_inv_with h1 g1 n m _ x Hi Ho).
    destruct (@poll_copy_ok R W _ (reader_with h1 n) _ (writer_with g1 m) _ g0 t0 (fun _ _ => True) ltac:(done) fuel cx _ x Hc)
      as (p & s & x' & E & Hc' & _ & Hd).
    { unfold passes_left. cbn. destruct Ho as (_ & ? & _). destruct (pos b <? cap b); lia. }
    rewrite E. apply copy_inv_without in Hc' as [Hi' Ho']. destruct p as [[k|e]|]; cbn [ready].
    + destruct (Hd k eq_refl) as (Hk & (Hg & _) & _).
      destruct (after_copy_ok cx (ShuttingDown k) (rd s) (wr s) x' h1 g1 n m) as (p & t' & w' & -> & Ha & Hb & Hc2);
        [done | by destruct Hi' | done |]. by eexists _, _, _, _, x'.
    + eexists _, _, _, _, x'. split; [done |]. split; [by destruct s | by split].
    + eexists _, _, _, _, x'. split; [done |]. split; [by destruct s | by split].
  - destruct (after_copy_ok cx (ShuttingDown k) r w x h1 g1 n m) as (p & t' & w' & -> & Ha & Hb & Hc2); [done .. |].
    by eexists _, _, _, _, x.
  - destruct (after_copy_ok cx (Done k) r w x h1 g1 n m) as (p & t' & w' & -> & Ha & Hb & Hc2); [done .. |].
    by eexists _, _, _, _, x.
Qed.

(** What it took and what the other direction may do to the two streams. *)
Lemma transfer_took t r w x : transfer_inv t r w x -> took w (t0 ++ x).
Proof. destruct t; [by intros [] | by intros (? & ? & ?) ..]. Qed.

Lemma transfer_gave t r w x : transfer_inv t r w x -> exists y, gave r (g0 ++ x ++ y).
Proof.
  destruct t as [b|k|k]; [intros []; by eexists | intros (? & Hg & ?); exists []; by rewrite app_nil_r ..].
Qed.
End direction.

(** A direction that is not polled stands while the other moves. *)
Lemma transfer_frame {R W : Type} `{HR : TwoWay R} `{HW : TwoWay W} g0 t0 (t : Transfer) (r : R) (w : W) x :
  transfer_inv g0 t0 t r w x ->
  exists g, gave r g /\
    forall (r' : R) (w' : W), gave r' g -> took w' (t0 ++ x) -> (left r' <= left r)%nat -> transfer_inv g0 t0 t r' w' x.
Proof.
  destruct t as [b|k|k].
  - intros []. eexists. split; [done |]. intros r' w' Hg Ht Hl. cbn in *. constructor; cbn; try done. nia.
  - intros (-> & Hg & Ht). by exists (g0 ++ x).
  - intros (-> & Hg & Ht). by exists (g0 ++ x).
Qed.

Section both.
Context {A B : Type} `{HA : TwoWay A} `{HB : TwoWay B}.
Context (ga ta gb tb : list byte).
Implicit Types s : @Both A B.

(** [x] copied from the first to the second, [y] back; and no more left to read
    of the two than [n] and [m]. *)
Record both_inv (n m : nat) (s : @Both A B) (x y : list byte) : Prop := {
  bi_forward : transfer_inv ga tb (forward s) (a_side s) (b_side s) x;
  bi_backward : transfer_inv gb ta (backward s) (b_side s) (a_side s) y;
  bi_left : (left (a_side s) <= n)%nat /\ (left (b_side s) <= m)%nat }.

Lemma poll_both_ok n m fuel cx s x y :
  both_inv n m s x y -> (S n < fuel)%nat -> (S m < fuel)%nat ->
  exists p s' x' y', poll_both fuel cx s = Some (p, s') /\ both_inv n m s' x' y' /\
    (forall j k, p = Ready (Ok (j, k)) ->
      j = vlen x' /\ k = vlen y' /\ gave (a_side s') (ga ++ x') /\ gave (b_side s') (gb ++ y') /\
      forward s' = Done j /\ backward s' = Done k).
Proof using HA HB.
  intros [Hf Hb [Hla Hlb]] Hn Hm. unfold poll_both.
  pose proof (transfer_took _ _ _ _ _ _ Hb) as Hta. destruct (transfer_frame _ _ _ _ _ _ Hb) as (g1 & Hg1 & Hframe).
  destruct (transfer_ok ga tb fuel cx (forward s) (a_side s) (b_side s) x (ta ++ y) g1 n (left (b_side s)) Hf
    ltac:(by repeat split) Hn) as (p & f & a & b & x' & -> & Hf' & (Ha1 & Ha2 & Hb1 & Hb2) & Hd).
  assert (Hb' : transfer_inv gb ta (backward s) b a y) by (by apply Hframe).
  destruct p as [[j|e]|].
  2: { eexists _, _, x', y. split; [done |]. split; [| done]. constructor; cbn; try done. lia. }
  all: pose proof (transfer_took _ _ _ _ _ _ Hf') as Htb; destruct (transfer_frame _ _ _ _ _ _ Hf') as (g2 & Hg2 & Hframe2);
    cbn [backward];
    destruct (transfer_ok gb ta fuel cx (backward s) b a y (tb ++ x') g2 (left b) (left a) Hb'
      ltac:(by repeat split) ltac:(lia)) as (q & g & b2 & a2 & y' & -> & Hb2' & (Hc1 & Hc2 & Hc3 & Hc4) & Hd2);
    assert (Hf2 : transfer_inv ga tb f a2 b2 x') by (by apply Hframe2);
    assert (Hi : both_inv n m {| forward := f; backward := g; a_side := a2; b_side := b2 |} x' y')
      by (constructor; cbn; try done; lia).
  - destruct q as [[k|e]|]; eexists _, _, x', y'; (split; [done |]); (split; [done |]); [| done ..].
    intros ? ? [= <- <-]. destruct (Hd j eq_refl) as (Hj & _ & ->), (Hd2 k eq_refl) as (Hk & Hgb & ->).
    destruct Hf2 as (_ & Hga & _). by repeat split.
  - destruct q as [[k|e]|]; eexists _, _, x', y'; (split; [done |]); (split; [done |]); done.
Qed.

Fixpoint drive_both (fuel : nat) (cxs : list Waker) (s : @Both A B) : Polled (@Both A B) (Z * Z) :=
  match cxs with
  | [] => Some (Pending, s)
  | cx :: cxs =>
      match poll_both fuel cx s with
      | Some (Pending, s) => drive_both fuel cxs s
      | m => m
      end
  end.

Lemma drive_both_ok n m fuel cxs s x y :
  both_inv n m s x y -> (S n < fuel)%nat -> (S m < fuel)%nat ->
  exists p s' x' y', drive_both fuel cxs s = Some (p, s') /\ both_inv n m s' x' y' /\
    (forall j k, p = Ready (Ok (j, k)) ->
      j = vlen x' /\ k = vlen y' /\ gave (a_side s') (ga ++ x') /\ gave (b_side s') (gb ++ y') /\
      forward s' = Done j /\ backward s' = Done k).
Proof using HA HB.
  intros Hi Hn Hm. revert s x y Hi. induction cxs as [|cx cxs IH]; intros s x y Hi; cbn [drive_both];
    [by eexists _, _, x, y |].
  destruct (poll_both_ok n m fuel cx s x y Hi Hn Hm) as (p & s' & x' & y' & -> & Hi' & Hd).
  destruct p as [[[j k]|e]|]; [by eexists _, _, x', y' .. |]. by apply (IH s' x' y').
Qed.
End both.

(** Copying both ways between two streams that are each read and written,
    through buffers of any sizes and any number of polls: every poll ends; each
    stream has taken, in order, a prefix of what the other gave; and when the
    copy answers [Ok (n, m)], each took exactly what the other gave, [n] and [m]
    bytes of it, and was closed. *)
Theorem copy_bidirectional_copies_both {A B : Type} `{HA : TwoWay A} `{HB : TwoWay B}
    (ga ta gb tb : list byte) (a_to_b b_to_a : Z) (a : A) (b : B) (cxs : list Waker) (fuel : nat)
    (Ha : gave a ga /\ took a ta) (Hb : gave b gb /\ took b tb)
    (Hsize : Z.of_nat (left a) <= u64_max /\ Z.of_nat (left b) <= u64_max)
    (Hfuel : (S (left a) < fuel)%nat /\ (S (left b) < fuel)%nat) :
  exists p s x y, drive_both fuel cxs (copy_bidirectional_with_sizes a b a_to_b b_to_a) = Some (p, s) /\
    took (b_side s) (tb ++ x) /\ (exists x', gave (a_side s) (ga ++ x ++ x')) /\
    took (a_side s) (ta ++ y) /\ (exists y', gave (b_side s) (gb ++ y ++ y')) /\
    (forall n m, p = Ready (Ok (n, m)) ->
      n = vlen x /\ m = vlen y /\ gave (a_side s) (ga ++ x) /\ gave (b_side s) (gb ++ y) /\
      forward s = Done n /\ backward s = Done m).
Proof.
  destruct Ha as [Hga Hta], Hb as [Hgb Htb].
  assert (Hnew : forall size, vlen (buf (new size)) = Z.max size 1).
  { intros size. cbn. unfold vlen. rewrite length_replicate. lia. }
  destruct (drive_both_ok ga ta gb tb (left a) (left b) fuel cxs (copy_bidirectional_with_sizes a b a_to_b b_to_a) [] [])
    as (p & s & x & y & E & [Hf Hbk _] & Hd); [| tauto | tauto |].
  - constructor; [| | cbn; lia];
      (constructor; cbn [cb rd wr]; rewrite ?Hnew, ?app_nil_r; try done;
       cbn [new pos cap amount a_side b_side copy_bidirectional_with_sizes]; lia).
  - exists p, s, x, y. split; [done |]. split; [exact (transfer_took _ _ _ _ _ _ Hf) |].
    split; [exact (transfer_gave _ _ _ _ _ _ Hf) |]. split; [exact (transfer_took _ _ _ _ _ _ Hbk) |].
    split; [exact (transfer_gave _ _ _ _ _ _ Hbk) | done].
Qed.

(** A reader and a writer with nothing between them do not interfere. *)
#[export] Instance pair_two_way {R W : Type} `{HR : Reader R} `{HF : !Finite R} `{HW : Writer W} : TwoWay (R * W).
Proof.
  constructor; cbn.
  - intros cx n [r w] g h p s' _ Ht. unfold poll_read, pair_read, on_first. cbn.
    destruct (Streams.poll_read cx n r) as [[]|]; [| done]. by intros [= <- <-].
  - intros cx bs [r w] g h p s' Hg _. cbn. destruct (poll_write cx bs w) as [[]|]; [| done]. by intros [= <- <-].
  - intros cx [r w] g h p s' Hg _. cbn. destruct (poll_flush cx w) as [[]|]; [| done]. by intros [= <- <-].
  - intros cx [r w] g h p s' Hg _. cbn. destruct (poll_close cx w) as [[]|]; [| done]. by intros [= <- <-].
Qed.

#[local] Transparent takez dropz.

Definition left_end : MemReader * MemWriter := (mem_reader 3 [1; 2; 3; 4; 5], mem_writer 2).
Definition right_end : MemReader * MemWriter := (mem_reader 2 [6; 7; 8], mem_writer 4).

Lemma copy_bidirectional_copies_both_witness :
  exists s x y, drive_both 8 (replicate 40 1) (copy_bidirectional_with_sizes left_end right_end 4 2) =
      Some (Ready (Ok (5, 3)), s) /\
    vlen x = 5 /\ gave (a_side s) x /\ took (b_side s) x /\ vlen y = 3 /\ gave (b_side s) y /\ took (a_side s) y.
Proof.
  destruct (copy_bidirectional_copies_both [] [] [] [] 4 2 left_end right_end (replicate 40 1) 8)
    as (p & s & x & y & E & Htx & _ & Hty & _ & Hd);
    [done | done | split; cbv; discriminate | cbn; lia |].
  assert (Hp : option_map fst (drive_both 8 (replicate 40 1) (copy_bidirectional_with_sizes left_end right_end 4 2)) =
    Some (Ready (Ok (5, 3)))) by (lazy; reflexivity).
  rewrite E in Hp. cbn in Hp. injection Hp as ->. destruct (Hd 5 3 eq_refl) as (H5 & H3 & Hgx & Hgy & _).
  exists s, x, y. split; [exact E |]. split; [by symmetry |]. split; [exact Hgx |]. split; [exact Htx |].
  split; [by symmetry |]. split; [exact Hgy | exact Hty].
Defined.
