(* ===== verification/Numbers.v ===== *)
(** * Numbers as bytes

    The tables of [io/util/read_ext.rs] and [io/util/write_ext.rs]: the types
    their typed reads and writes are of, in big and in little endian, and
    Rust's [to_be_bytes], [from_be_bytes] and the like. A float is its bits. *)

From S2P Require Import Prelude.
Open Scope Z_scope.

Inductive NumType : Type := U8 | I8 | U16 | I16 | U32 | I32 | U64 | I64 | U128 | I128 | F32 | F64.
Inductive Endian : Type := Big | Little.

#[export] Instance num_type_eq_dec : EqDecision NumType.
Proof. solve_decision. Defined.

(** [size_of], and whether the type is signed. *)
Definition size_of (ty : NumType) : Z :=
  match ty with
  | U8 | I8 => 1
  | U16 | I16 => 2
  | U32 | I32 | F32 => 4
  | U64 | I64 | F64 => 8
  | U128 | I128 => 16
  end.
Definition signed (ty : NumType) : bool :=
  match ty with I8 | I16 | I32 | I64 | I128 => true | _ => false end.

(** The values of the type. *)
Definition in_range (ty : NumType) (v : Z) : Prop :=
  let n := 2 ^ (8 * size_of ty) in
  if signed ty then - (n / 2) <= v < n / 2 else 0 <= v < n.

(** The lowest [n] bytes of a word, from the lowest, and back. *)
Fixpoint le_bytes (n : nat) (v : Z) : list Z :=
  match n with
  | O => []
  | S n => Z.land v 255 :: le_bytes n (Z.shiftr v 8)
  end.
Fixpoint of_le_bytes (bs : list Z) : Z :=
  match bs with
  | [] => 0
  | b :: bs => Z.lor b (Z.shiftl (of_le_bytes bs) 8)
  end.

(** [to_be_bytes], [to_le_bytes]: the word in two's complement. *)
Definition to_bytes (ty : NumType) (e : Endian) (v : Z) : list Z :=
  let bs := le_bytes (Z.to_nat (size_of ty)) v in
  match e with Big => rev bs | Little => bs end.

(** [from_be_bytes], [from_le_bytes]. *)
Definition from_bytes (ty : NumType) (e : Endian) (bs : list Z) : Z :=
  let u := of_le_bytes (match e with Big => rev bs | Little => bs end) in
  if signed ty && (2 ^ (8 * size_of ty - 1) <=? u) then u - 2 ^ (8 * size_of ty) else u.

(** ** There and back *)

Definition is_byte (b : Z) : Prop := 0 <= b < 256.

Lemma land_255 v : Z.land v 255 = v mod 256.
Proof. change 255 with (Z.ones 8). by rewrite Z.land_ones. Qed.

Lemma lor_shift b x : is_byte b -> Z.lor b (Z.shiftl x 8) = b + 256 * x.
Proof.
  intros Hb. pose proof (Z.add_lor_land b (Z.shiftl x 8)) as E.
  assert (Z.land b (Z.shiftl x 8) = 0) as Hz.
  { apply Z.bits_inj'. intros n Hn. rewrite Z.land_spec, Z.bits_0, Z.shiftl_spec by done.
    destruct (decide (n < 8)).
    - by rewrite (Z.testbit_neg_r x) by lia; rewrite andb_false_r.
    - rewrite <- (Z.mod_small b (2 ^ 8)) by exact Hb. by rewrite Z.mod_pow2_bits_high by lia. }
  rewrite Hz in E. rewrite Z.shiftl_mul_pow2 in E |- * by lia. lia.
Qed.

Lemma length_le_bytes n v : length (le_bytes n v) = n.
Proof. revert v. induction n as [|n IH]; intros v; [done |]. cbn. by rewrite IH. Qed.

Lemma le_bytes_bytes n v : Forall is_byte (le_bytes n v).
Proof.
  revert v. induction n as [|n IH]; intros v; [done |]. cbn. constructor; [| apply IH].
  rewrite land_255. unfold is_byte. pose proof (Z.mod_pos_bound v 256). lia.
Qed.

Lemma of_le_bytes_bound bs : Forall is_byte bs -> 0 <= of_le_bytes bs < 256 ^ Z.of_nat (length bs).
Proof.
  induction 1 as [|b bs Hb _ IH]; cbn [of_le_bytes length]; [lia |].
  rewrite lor_shift, Nat2Z.inj_succ, Z.pow_succ_r by (done || lia). unfold is_byte in Hb. lia.
Qed.

Lemma of_le_bytes_le_bytes n v : of_le_bytes (le_bytes n v) = v mod 256 ^ Z.of_nat n.
Proof.
  revert v. induction n as [|n IH]; intros v; cbn [le_bytes of_le_bytes].
  - by rewrite Z.mod_1_r.
  - rewrite lor_shift, land_255, IH, Nat2Z.inj_succ, Z.pow_succ_r, Z.shiftr_div_pow2 by
      (try lia; rewrite land_255; unfold is_byte; pose proof (Z.mod_pos_bound v 256); lia).
    rewrite Z.rem_mul_r by lia. done.
Qed.

Lemma le_bytes_of_le_bytes bs : Forall is_byte bs -> le_bytes (length bs) (of_le_bytes bs) = bs.
Proof.
  induction 1 as [|b bs Hb Hbs IH]; [done |]. cbn [le_bytes of_le_bytes length].
  rewrite land_255, lor_shift, Z.shiftr_div_pow2 by (done || lia).
  unfold is_byte in Hb. change (2 ^ 8) with 256. rewrite (Z.mul_comm 256).
  rewrite Z.mod_add, Z.mod_small, Z.div_add, Z.div_small, Z.add_0_l by lia. by rewrite IH.
Qed.

Lemma size_pos ty : 0 < size_of ty.
Proof. by destruct ty. Qed.

Lemma length_to_bytes ty e v : Z.of_nat (length (to_bytes ty e v)) = size_of ty.
Proof.
  unfold to_bytes. pose proof (size_pos ty).
  destruct e; rewrite ?length_rev, length_le_bytes; lia.
Qed.

Lemma to_bytes_bytes ty e v : Forall is_byte (to_bytes ty e v).
Proof. unfold to_bytes. destruct e; [apply Forall_rev |]; apply le_bytes_bytes. Qed.

Lemma widths ty : 256 ^ Z.of_nat (Z.to_nat (size_of ty)) = 2 ^ (8 * size_of ty)
  /\ 2 ^ (8 * size_of ty) = 2 * 2 ^ (8 * size_of ty - 1) /\ 0 < 2 ^ (8 * size_of ty - 1).
Proof. by destruct ty. Qed.

(** Reading the bytes of a value gives the value back, in every type and either endianness. *)
Lemma from_to_bytes ty e v : in_range ty v -> from_bytes ty e (to_bytes ty e v) = v.
Proof.
  intros H. unfold from_bytes, to_bytes, in_range in *. cbn zeta in *.
  destruct (widths ty) as (W & E & Hp).
  replace (of_le_bytes _) with (v mod 2 ^ (8 * size_of ty))
    by (destruct e; by rewrite ?rev_involutive, of_le_bytes_le_bytes, W).
  rewrite E in *. set (h := 2 ^ (8 * size_of ty - 1)) in *. clearbody h. clear E W.
  destruct (signed ty); cbn [andb]; [| by apply Z.mod_small].
  rewrite (Z.mul_comm 2), Z.div_mul in H by lia.
  destruct (Z.leb_spec 0 v) as [Hv | Hv].
  - rewrite Z.mod_small by lia. destruct (Z.leb_spec h v); lia.
  - rewrite <- (Z_mod_plus_full v 1), Z.mod_small by lia.
    destruct (Z.leb_spec h (v + 1 * (2 * h))); lia.
Qed.

(** Every pattern of bytes is a value of the type, and the value has those bytes. *)
Lemma from_bytes_range ty e bs :
  Forall is_byte bs -> Z.of_nat (length bs) = size_of ty -> in_range ty (from_bytes ty e bs).
Proof.
  intros Hb Hl. unfold from_bytes, in_range. cbn zeta. destruct (widths ty) as (W & E & Hp).
  assert (0 <= of_le_bytes (match e with Big => rev bs | Little => bs end) < 2 ^ (8 * size_of ty)) as Hu.
  { rewrite <- W, <- Hl, Nat2Z.id.
    destruct e; [rewrite <- (length_rev bs) |]; apply of_le_bytes_bound; [by apply Forall_rev | done]. }
  revert Hu. generalize (of_le_bytes (match e with Big => rev bs | Little => bs end)). intros u Hu.
  rewrite E in *. set (h := 2 ^ (8 * size_of ty - 1)) in *. clearbody h. clear E W.
  destruct (signed ty); cbn [andb]; [| done].
  rewrite (Z.mul_comm 2), Z.div_mul by lia. destruct (Z.leb_spec h u); lia.
Qed.

Lemma le_bytes_mod n v w : v mod 256 ^ Z.of_nat n = w mod 256 ^ Z.of_nat n -> le_bytes n v = le_bytes n w.
Proof.
  intros E. pose proof (le_bytes_of_le_bytes _ (le_bytes_bytes n v)) as Hv.
  pose proof (le_bytes_of_le_bytes _ (le_bytes_bytes n w)) as Hw.
  rewrite length_le_bytes, of_le_bytes_le_bytes in Hv, Hw. congruence.
Qed.

Lemma to_from_bytes ty e bs :
  Forall is_byte bs -> Z.of_nat (length bs) = size_of ty -> to_bytes ty e (from_bytes ty e bs) = bs.
Proof.
  intros Hb Hl. unfold from_bytes, to_bytes. destruct (widths ty) as (W & E & Hp).
  set (cs := match e with Big => rev bs | Little => bs end).
  assert (le_bytes (Z.to_nat (size_of ty))
    (if signed ty && (2 ^ (8 * size_of ty - 1) <=? of_le_bytes cs)
     then of_le_bytes cs - 2 ^ (8 * size_of ty) else of_le_bytes cs) = cs) as ->.
  { transitivity (le_bytes (Z.to_nat (size_of ty)) (of_le_bytes cs)).
    - apply le_bytes_mod. rewrite W. destruct (_ && _); [| done].
      rewrite <- (Z_mod_plus_full _ 1). f_equal. lia.
    - rewrite <- Hl, Nat2Z.id. subst cs.
      destruct e; [rewrite <- (length_rev bs) |]; apply le_bytes_of_le_bytes; [by apply Forall_rev | done]. }
  subst cs. destruct e; [apply rev_involutive | done].
Qed.
