(* ===== verification/Utf8.v ===== *)
(** * UTF-8

    What [str::from_utf8] and [String::from_utf8] accept: the encodings of
    Unicode scalar values, one to four bytes each, none longer than it need be. *)

From S2P Require Import Prelude.
Open Scope Z_scope.

(** A [char]: a code point that is not a surrogate. *)
Definition scalar (c : Z) : Prop := 0 <= c <= 0x10FFFF /\ ~ (0xD800 <= c <= 0xDFFF).

(** The bytes of a [char] ([char::encode_utf8]). *)
Definition encode (c : Z) : list Z :=
  if c <? 0x80 then [c]
  else if c <? 0x800 then [0xC0 + c / 0x40; 0x80 + c mod 0x40]
  else if c <? 0x10000 then [0xE0 + c / 0x1000; 0x80 + c / 0x40 mod 0x40; 0x80 + c mod 0x40]
  else [0xF0 + c / 0x40000; 0x80 + c / 0x1000 mod 0x40; 0x80 + c / 0x40 mod 0x40; 0x80 + c mod 0x40].

Definition between (lo hi b : Z) : bool := (lo <=? b) && (b <=? hi).
Definition continues (b : Z) : bool := between 0x80 0xBF b.

(** The ranges of the second byte of a sequence of three and of four, by its first. *)
Definition second_of_three (a : Z) (b : Z) : bool :=
  if a =? 0xE0 then between 0xA0 0xBF b else if a =? 0xED then between 0x80 0x9F b else continues b.
Definition second_of_four (a : Z) (b : Z) : bool :=
  if a =? 0xF0 then between 0x90 0xBF b else if a =? 0xF4 then between 0x80 0x8F b else continues b.

(** Whether the bytes are UTF-8. *)
Fixpoint is_utf8 (bs : list Z) : bool :=
  match bs with
  | [] => true
  | a :: bs1 =>
      if between 0 0x7F a then is_utf8 bs1
      else if between 0xC2 0xDF a then
        match bs1 with b :: bs2 => continues b && is_utf8 bs2 | _ => false end
      else if between 0xE0 0xEF a then
        match bs1 with b :: c :: bs3 => second_of_three a b && continues c && is_utf8 bs3 | _ => false end
      else if between 0xF0 0xF4 a then
        match bs1 with
        | b :: c :: d :: bs4 => second_of_four a b && continues c && continues d && is_utf8 bs4
        | _ => false
        end
      else false
  end.

(** A text as its bytes. *)
Definition encode_all (cs : list Z) : list Z := flat_map encode cs.

(** ** What the ranges accept *)

Lemma between_spec lo hi b : BoolSpec (lo <= b <= hi) (~ (lo <= b <= hi)) (between lo hi b).
Proof. unfold between. destruct (Z.leb_spec lo b), (Z.leb_spec b hi); constructor; lia. Qed.

(** The digits of a code point, six bits each. *)
Lemma digits c :
  0 <= c ->
  exists r0 x r1 y r2 z,
    c mod 0x40 = r0 /\ c / 0x40 = x /\ x mod 0x40 = r1 /\ c / 0x1000 = y /\ y mod 0x40 = r2 /\ c / 0x40000 = z /\
    c = 0x40 * x + r0 /\ x = 0x40 * y + r1 /\ y = 0x40 * z + r2 /\
    0 <= r0 < 0x40 /\ 0 <= r1 < 0x40 /\ 0 <= r2 < 0x40 /\ 0 <= z.
Proof.
  intros Hc. exists (c mod 0x40), (c / 0x40), (c / 0x40 mod 0x40), (c / 0x1000), (c / 0x1000 mod 0x40), (c / 0x40000).
  at_hand 6.
  assert (c / 0x1000 = c / 0x40 / 0x40) as E1 by (by rewrite Z.div_div).
  assert (c / 0x40000 = c / 0x1000 / 0x40) as E2 by (by rewrite Z.div_div).
  pose proof (Z.div_mod c 0x40). pose proof (Z.div_mod (c / 0x40) 0x40). pose proof (Z.div_mod (c / 0x1000) 0x40).
  pose proof (Z.mod_pos_bound c 0x40). pose proof (Z.mod_pos_bound (c / 0x40) 0x40).
  pose proof (Z.mod_pos_bound (c / 0x1000) 0x40). pose proof (Z.div_pos c 0x40000). lia.
Qed.

(** The tests in sight, decided by the arithmetic at hand. *)
Ltac tests :=
  unfold second_of_three, second_of_four, continues in *;
  repeat match goal with
  | |- context [between ?lo ?hi ?b] => destruct (between_spec lo hi b); try lia
  | |- context [?a =? ?b] => destruct (Z.eqb_spec a b); try lia
  end; cbn [andb].

Lemma encode_accepted c rest : scalar c -> is_utf8 (encode c ++ rest) = is_utf8 rest.
Proof.
  intros [Hr Hs]. destruct (digits c) as (r0 & x & r1 & y & r2 & z & E0 & Ex & E1 & Ey & E2 & Ez & Hd6); [lia |].
  unfold encode. rewrite Ey, E2, E0, Ez, Ex, E1. clear E0 Ex E1 Ey E2 Ez.
  destruct (Z.ltb_spec c 0x80); [| destruct (Z.ltb_spec c 0x800); [| destruct (Z.ltb_spec c 0x10000)]]; cbn [app is_utf8].
  all: tests; done.
Qed.

Lemma encode_all_accepted cs : Forall scalar cs -> is_utf8 (encode_all cs) = true.
Proof.
  induction 1 as [|c cs Hc _ IH]; [done |]. cbn [encode_all flat_map]. by rewrite encode_accepted.
Qed.

(** A sequence of two, three and four bytes, and the value it encodes. *)
Lemma encode_two a b :
  between 0xC2 0xDF a = true -> continues b = true ->
  let c := 0x40 * (a - 0xC0) + (b - 0x80) in scalar c /\ encode c = [a; b].
Proof.
  intros Ha Hb c. unfold continues, encode, scalar in *.
  destruct (between_spec 0xC2 0xDF a), (between_spec 0x80 0xBF b); [| done ..]. destruct (digits c) as (r0 & x & r1 & y & r2 & z & E0 & Ex & E1 & Ey & E2 & Ez & Hd6); [lia |].
  split; [lia |]. destruct (Z.ltb_spec c 0x80), (Z.ltb_spec c 0x800); [lia .. | | lia].
  rewrite E0, Ex. f_equal; [lia | f_equal; lia].
Qed.

Lemma encode_three a b d :
  between 0xE0 0xEF a = true -> second_of_three a b = true -> continues d = true ->
  let c := 0x1000 * (a - 0xE0) + 0x40 * (b - 0x80) + (d - 0x80) in scalar c /\ encode c = [a; b; d].
Proof.
  intros Ha Hb Hd c. unfold second_of_three, continues, encode, scalar in *.
  destruct (between_spec 0xE0 0xEF a), (between_spec 0x80 0xBF d); [| done ..].
  assert (0x80 <= b <= 0xBF /\ (a = 0xE0 -> 0xA0 <= b) /\ (a = 0xED -> b <= 0x9F)) as Hb'.
  { destruct (Z.eqb_spec a 0xE0); [destruct (between_spec 0xA0 0xBF b); [lia | done] |].
    destruct (Z.eqb_spec a 0xED); [destruct (between_spec 0x80 0x9F b); [lia | done] |].
    destruct (between_spec 0x80 0xBF b); [lia | done]. }
  destruct (digits c) as (r0 & x & r1 & y & r2 & z & E0 & Ex & E1 & Ey & E2 & Ez & Hd6); [lia |].
  split; [lia |]. destruct (Z.ltb_spec c 0x80), (Z.ltb_spec c 0x800), (Z.ltb_spec c 0x10000); try lia.
  rewrite E0, Ex, E1, Ey. f_equal; [lia | f_equal; [lia | f_equal; lia]].
Qed.

Lemma encode_four a b d e :
  between 0xF0 0xF4 a = true -> second_of_four a b = true -> continues d = true -> continues e = true ->
  let c := 0x40000 * (a - 0xF0) + 0x1000 * (b - 0x80) + 0x40 * (d - 0x80) + (e - 0x80) in
  scalar c /\ encode c = [a; b; d; e].
Proof.
  intros Ha Hb Hd He c. unfold second_of_four, continues, encode, scalar in *.
  destruct (between_spec 0xF0 0xF4 a), (between_spec 0x80 0xBF d), (between_spec 0x80 0xBF e); [| done ..].
  assert (0x80 <= b <= 0xBF /\ (a = 0xF0 -> 0x90 <= b) /\ (a = 0xF4 -> b <= 0x8F)) as Hb'.
  { destruct (Z.eqb_spec a 0xF0); [destruct (between_spec 0x90 0xBF b); [lia | done] |].
    destruct (Z.eqb_spec a 0xF4); [destruct (between_spec 0x80 0x8F b); [lia | done] |].
    destruct (between_spec 0x80 0xBF b); [lia | done]. }
  destruct (digits c) as (r0 & x & r1 & y & r2 & z & E0 & Ex & E1 & Ey & E2 & Ez & Hd6); [lia |].
  split; [lia |]. destruct (Z.ltb_spec c 0x80), (Z.ltb_spec c 0x800), (Z.ltb_spec c 0x10000); try lia.
  rewrite E0, Ex, E1, Ey, E2, Ez. f_equal; [lia | f_equal; [lia | f_equal; [lia | f_equal; lia]]].
Qed.

(** One sequence off the front of accepted bytes. *)
Lemma accepted_front a bs :
  is_utf8 (a :: bs) = true -> exists c rest, scalar c /\ a :: bs = encode c ++ rest /\ is_utf8 rest = true.
Proof.
  cbn [is_utf8]. destruct (between_spec 0 0x7F a) as [Ha|_].
  { intros Hu. exists a, bs. unfold encode, scalar. destruct (Z.ltb_spec a 0x80); [split; [lia | done] | lia]. }
  destruct (between 0xC2 0xDF a) eqn:H2.
  { destruct bs as [|b bs]; [done |]. intros [Hb Hu]%andb_true_iff.
    destruct (encode_two a b H2 Hb) as [Hs E]. eexists _, bs. split; [exact Hs |]. by rewrite E. }
  destruct (between 0xE0 0xEF a) eqn:H3.
  { destruct bs as [|b [|d bs]]; [done .. |]. intros [[Hb Hd]%andb_true_iff Hu]%andb_true_iff.
    destruct (encode_three a b d H3 Hb Hd) as [Hs E]. eexists _, bs. split; [exact Hs |]. by rewrite E. }
  destruct (between 0xF0 0xF4 a) eqn:H4; [| done].
  destruct bs as [|b [|d [|e bs]]]; [done .. |].
  intros [[[Hb Hd]%andb_true_iff He]%andb_true_iff Hu]%andb_true_iff.
  destruct (encode_four a b d e H4 Hb Hd He) as [Hs E]. eexists _, bs. split; [exact Hs |]. by rewrite E.
Qed.

(** The test accepts exactly the encodings of texts. *)
Lemma is_utf8_spec bs : is_utf8 bs = true <-> exists cs, Forall scalar cs /\ bs = encode_all cs.
Proof.
  split; [| intros (cs & Hcs & ->); by apply encode_all_accepted].
  induction bs as [bs IH] using (induction_ltof1 _ (@length Z)). destruct bs as [|a bs]; [by exists [] |].
  intros (c & rest & Hc & E & Hu)%accepted_front.
  destruct (IH rest) as (cs & Hcs & ->); [| done |].
  - unfold ltof. rewrite E, length_app. unfold encode.
    destruct (c <? 0x80), (c <? 0x800), (c <? 0x10000); cbn [length]; lia.
  - exists (c :: cs). by split; [constructor |].
Qed.
