(* ===== verification/ReadExt.v ===== *)
(** * Reads of any reader

    [io/util/read_ext.rs]: a read into a [ReadBuf], an exact read, the typed
    reads, the read to the end and to the end of a text, and the readers made of
    others: one that ends early, and two in a row. *)

From S2P Require Import Prelude Bytes Streams ReadBuf Numbers Utf8.
Open Scope Z_scope.

(** How a poll ends without an answer: a panic, memory read that was never
    written, or the loop cut before its end. *)
Inductive Halt : Type := Panics | Uninit | Unfinished.

Definition Ran (S T : Type) : Type := Result (PollIo T * S) Halt.

Definition or_halt {A B} (h : Halt) (o : option A) (k : A -> Result B Halt) : Result B Halt :=
  match o with Some a => k a | None => Err h end.

(** [ready!(m)?] of a poll of a stream, and of a function of this file. *)
Definition ready_of {S S' T U} (m : Polled S T) (back : S -> S') (k : T -> S -> Ran S' U) : Ran S' U :=
  match m with
  | Some (Ready (Ok t), s) => k t s
  | Some (Ready (Err e), s) => Ok (Ready (Err e), back s)
  | Some (Pending, s) => Ok (Pending, back s)
  | None => Err Panics
  end.
Definition ready_ran {S S' T U} (m : Ran S T) (back : S -> S') (k : T -> S -> Ran S' U) : Ran S' U :=
  match m with
  | Ok (Ready (Ok t), s) => k t s
  | Ok (Ready (Err e), s) => Ok (Ready (Err e), back s)
  | Ok (Pending, s) => Ok (Pending, back s)
  | Err h => Err h
  end.

(** What an operation of a [ReadBuf] that halts does to the poll. *)
Definition of_buf {A B} (m : Out A) (k : A -> Result B Halt) : Result B Halt :=
  match m with
  | Ok a => k a
  | Err Panicked => Err Panics
  | Err _ => Err Uninit
  end.

Section reads.
Context {R : Type} `{AsyncRead R}.

(** [poll_read_buf]. *)
Definition poll_read_buf (cx : Waker) (r : R) (b : ReadBuf) : Ran (R * ReadBuf) Z :=
  of_buf (remaining b) (fun room =>
  if room =? 0 then Ok (Ready (Ok 0), (r, b))
  else
    of_buf (initialize_unfilled b) (fun '(dst, b) =>
    ready_of (poll_read cx (vlen dst) r) (fun r => (r, b)) (fun bs r =>
    of_buf (write_shown (filled b) dst (takez (vlen dst) bs ++ dropz (vlen bs) dst) b) (fun b =>
    of_buf (advance (vlen bs) b) (fun b => Ok (Ready (Ok (vlen bs)), (r, b))))))).

(** *** A read of a length *)

(** [ReadExact]; a typed read has the same state. *)
Record ReadExact : Type := { reader : R; buf : list byte; done : Z }.

Definition read_exact (r : R) (buf : list byte) : ReadExact := {| reader := r; buf := buf; done := 0 |}.

Definition with_reader (r : R) (s : ReadExact) : ReadExact := {| reader := r; buf := buf s; done := done s |}.

(** [fill]. A reader that says it wrote more than its slice holds has filled the slice. *)
Fixpoint fill (fuel : nat) (cx : Waker) (s : ReadExact) : Ran ReadExact unit :=
  match fuel with
  | O => Err Unfinished
  | S fuel =>
      if done s <? vlen (buf s) then
        or_halt Panics (slice (done s) (vlen (buf s)) (buf s)) (fun dst =>
        ready_of (poll_read cx (vlen dst) (reader s)) (fun r => with_reader r s) (fun bs r =>
        or_halt Panics (write_at (done s) (takez (vlen dst) bs) (buf s)) (fun l =>
        if vlen bs =? 0 then Ok (Ready (Err UnexpectedEof), {| reader := r; buf := l; done := done s |})
        else
          or_halt Panics (add64 (done s) (vlen bs)) (fun d =>
          fill fuel cx {| reader := r; buf := l; done := d |}))))
      else Ok (Ready (Ok tt), s)
  end.

(** More passes than [fill] can take: each of them fills a byte. *)
Definition fill_fuel (s : ReadExact) : nat := S (Z.to_nat (vlen (buf s) - done s)).

Definition poll_read_exact (cx : Waker) (s : ReadExact) : Ran ReadExact Z :=
  ready_ran (fill (fill_fuel s) cx s) id (fun _ s => Ok (Ready (Ok (vlen (buf s))), s)).

(** The typed reads, and their poll. *)
Definition read_number (ty : NumType) (r : R) : ReadExact :=
  {| reader := r; buf := replicate (Z.to_nat (size_of ty)) 0; done := 0 |}.

Definition poll_read_number (ty : NumType) (e : Endian) (cx : Waker) (s : ReadExact) : Ran ReadExact Z :=
  ready_ran (fill (fill_fuel s) cx s) id (fun _ s => Ok (Ready (Ok (from_bytes ty e (buf s))), s)).
End reads.

Arguments ReadExact : clear implicits.

(** ** Reading to the end *)

Definition MIN_READ : Z := 32.
Definition MAX_READ : Z := 64 * 1024.

(** A [Vec<u8>]: its memory, as long as its capacity, with the bytes that were
    never written as [None]; and how much of it is in use. *)
Record Vec : Type := { mem : list (option byte); vec_len : Z }.

Definition vec_new : Vec := {| mem := []; vec_len := 0 |}.
Definition vec_cap (v : Vec) : Z := vlen (mem v).

Section to_end.
Context {R : Type} `{AsyncRead R}.

(** The capacity an allocation grows to, of the one it has and the one it needs:
    the standard library may give more than is asked for. *)
Context (grow : Z -> Z -> Z).

(** [Vec::reserve]. A new allocation keeps the bytes in use. *)
Definition reserve (additional : Z) (v : Vec) : option Vec :=
  if additional <=? vec_cap v - vec_len v then Some v
  else
    let new := grow (vec_cap v) (vec_len v + additional) in
    if new <=? isize_max
    then Some {| mem := takez (vec_len v) (mem v) ++ replicate (Z.to_nat (new - vec_len v)) None; vec_len := vec_len v |}
    else None.

(** The reader, the vector and how many bytes of its spare room are written. *)
Record ToEnd : Type := { te_reader : R; te_buf : Vec; zeroed : Z }.

(** Room for a read, in memory that has been written. *)
Definition make_room (v : Vec) (z : Z) : option (Vec * Z) :=
  let* sp := sub64 (vec_cap v) (vec_len v) in
  if sp <? MIN_READ then
    let* v' := reserve (Z.max MIN_READ (Z.min MAX_READ (vec_len v))) v in
    Some (v', if vec_cap v' =? vec_cap v then z else 0)
  else Some (v, z).

Definition zero_room (v : Vec) (z : Z) : option (Vec * Z * Z) :=
  let room := Z.min (vec_cap v - vec_len v) MAX_READ in
  if z <? room then
    let* m := write_at (vec_len v + z) (replicate (Z.to_nat (room - z)) (Some 0)) (mem v) in
    Some ({| mem := m; vec_len := vec_len v |}, room, room)
  else Some (v, z, room).

(** [read_to_end]. *)
Fixpoint read_to_end (fuel : nat) (cx : Waker) (s : ToEnd) : Ran ToEnd unit :=
  match fuel with
  | O => Err Unfinished
  | S fuel =>
      or_halt Panics (make_room (te_buf s) (zeroed s)) (fun '(v, z) =>
      or_halt Panics (zero_room v z) (fun '(v, z, room) =>
      or_halt Panics (slice (vec_len v) (vec_len v + room) (mem v)) (fun spare =>
      of_buf (slice_assume_init spare) (fun dst =>
      let back r := {| te_reader := r; te_buf := v; zeroed := z |} in
      ready_of (poll_read cx (vlen dst) (te_reader s)) back (fun bs r =>
      or_halt Panics (write_at (vec_len v) (Some <$> takez (vlen dst) bs) (mem v)) (fun m =>
      let n := vlen bs in
      let back v z := {| te_reader := r; te_buf := v; zeroed := z |} in
      if n =? 0 then Ok (Ready (Ok tt), back {| mem := m; vec_len := vec_len v |} z)
      else if room <? n then Ok (Ready (Err InvalidData), back {| mem := m; vec_len := vec_len v |} z)
      else
        or_halt Panics (sub64 z n) (fun z =>
        read_to_end fuel cx (back {| mem := m; vec_len := vec_len v + n |} z))))))))
  end.

(** [ReadToEnd]: where it started, and its poll. *)
Record ReadToEnd : Type := { to_end : ToEnd; start : Z }.

Definition read_all (r : R) (v : Vec) : ReadToEnd :=
  {| to_end := {| te_reader := r; te_buf := v; zeroed := 0 |}; start := vec_len v |}.

Definition poll_read_to_end (fuel : nat) (cx : Waker) (s : ReadToEnd) : Ran ReadToEnd Z :=
  let back t := {| to_end := t; start := start s |} in
  ready_ran (read_to_end fuel cx (to_end s)) back (fun _ t =>
  or_halt Panics (sub64 (vec_len (te_buf t)) (start s)) (fun n => Ok (Ready (Ok n), back t))).

(** [ReadToString]: the text so far is apart from the bytes, which are moved out
    of their vector before they are looked at. *)
Record ReadToString : Type := { text : list byte; bytes : ToEnd }.

Definition read_to_string (r : R) (text : list byte) : ReadToString :=
  {| text := text; bytes := {| te_reader := r; te_buf := vec_new; zeroed := 0 |} |}.

Definition poll_read_to_string (fuel : nat) (cx : Waker) (s : ReadToString) : Ran ReadToString Z :=
  ready_ran (read_to_end fuel cx (bytes s)) (fun t => {| text := text s; bytes := t |}) (fun _ t =>
  of_buf (slice_assume_init (takez (vec_len (te_buf t)) (mem (te_buf t)))) (fun bs =>
  let t := {| te_reader := te_reader t; te_buf := vec_new; zeroed := zeroed t |} in
  if is_utf8 bs
  then Ok (Ready (Ok (vlen bs)), {| text := text s ++ bs; bytes := t |})
  else Ok (Ready (Err InvalidData), {| text := text s; bytes := t |}))).
End to_end.

Arguments ToEnd : clear implicits.
Arguments ReadToEnd : clear implicits.
Arguments ReadToString : clear implicits.

(** ** Readers of readers *)

Record Take (R : Type) : Type := { inner : R; limit : Z }.
Arguments inner {R} _.
Arguments limit {R} _.

(** [take], and what [Take] answers and changes. *)
Definition take {R} (r : R) (limit : Z) : Take R := {| inner := r; limit := limit |}.
Definition set_limit {R} (n : Z) (t : Take R) : Take R := {| inner := inner t; limit := n |}.

#[export] Instance take_read {R} `{AsyncRead R} : AsyncRead (Take R) := fun cx n t =>
  if limit t =? 0 then Some (Ready (Ok []), t)
  else
    let max := Z.min (limit t) n in
    ready (poll_read cx max (inner t)) (fun r => {| inner := r; limit := limit t |}) (fun bs r =>
    let* l := sub64 (limit t) (vlen bs) in
    Some (Ready (Ok bs), {| inner := r; limit := l |})).

Record Chain (A B : Type) : Type := { first : A; second : B; first_done : bool }.
Arguments first {A B} _.
Arguments second {A B} _.
Arguments first_done {A B} _.

Definition chain {A B} (a : A) (b : B) : Chain A B := {| first := a; second := b; first_done := false |}.

#[export] Instance chain_read {A B} `{AsyncRead A} `{AsyncRead B} : AsyncRead (Chain A B) := fun cx n c =>
  let rest c := 
    match poll_read cx n (second c) with
    | Some (p, b) => Some (p, {| first := first c; second := b; first_done := first_done c |})
    | None => None
    end in
  if first_done c then rest c
  else
    let back a := {| first := a; second := second c; first_done := false |} in
    ready (poll_read cx n (first c)) back (fun bs a =>
    if (0 <? vlen bs) || (n =? 0) then Some (Ready (Ok bs), back a)
    else rest {| first := a; second := second c; first_done := true |}).
