(* ===== verification/ReadExtSpec.v ===== *)
(** * What the reads of any reader read

    The readers made of others keep a source's promise; an exact read and a
    typed read take just their bytes; a read to the end appends all that is left
    and, whatever the reader reports, shows no memory that was never written. *)

From S2P Require Import Prelude Bytes Streams ReadBuf Numbers Utf8 ReadExt.
Open Scope Z_scope.

(** The polls of a future, one for each waker, up to the one that is ready. *)
Fixpoint drive {S T} (poll : Waker -> S -> Ran S T) (cxs : list Waker) (s : S) : Ran S T :=
  match cxs with
  | [] => Ok (Pending, s)
  | cx :: cxs =>
      match poll cx s with
      | Ok (Pending, s) => drive poll cxs s
      | m => m
      end
  end.

(** What each poll keeps until one is ready holds of them all. *)
Definition keeps {S T} (I : S -> Prop) (Q : Result T Error -> S -> Prop) (m : Ran S T) : Prop :=
  match m with
  | Ok (Ready x, s) => Q x s
  | Ok (Pending, s) => I s
  | Err _ => False
  end.

Lemma drive_keeps {S T} (poll : Waker -> S -> Ran S T) I Q cxs s :
  (forall cx s, I s -> keeps I Q (poll cx s)) -> I s -> keeps I Q (drive poll cxs s).
Proof.
  intros Hp. revert s. induction cxs as [|cx cxs IH]; intros s Hs; [done |]. cbn.
  specialize (Hp cx s Hs). destruct (poll cx s) as [[[x|] s']|h]; [done | | done]. by apply IH.
Qed.

Lemma keeps_ready {S S' T U} I Q I' Q' (m : Ran S T) (back : S -> S') (k : T -> S -> Ran S' U) :
  keeps I Q m -> (forall s, I s -> I' (back s)) -> (forall e s, Q (Err e) s -> Q' (Err e) (back s)) ->
  (forall t s, Q (Ok t) s -> keeps I' Q' (k t s)) -> keeps I' Q' (ready_ran m back k).
Proof. intros Hm HI He Hk. destruct m as [[[[t|e]|] s]|h]; cbn in *; auto. Qed.

(** ** Sources of sources *)

#[export] Instance take_source {R} `{HR : Source R} : Source (Take R).
Proof.
  refine {| source t bs := 0 <= limit t <= u64_max /\ exists all, source (inner t) all /\ bs = takez (limit t) all |}.
  intros cx n [r l] bs Hn (Hl & all & Hs & ->). unfold poll_read, take_read, source_promise. cbn [limit inner] in *.
  destruct (Z.eqb_spec l 0) as [->|Hl0].
  { eexists _, _. split; [done |]. split; [done |]. rewrite takez_0 by lia. split; [by right |].
    exists []. split; [done |]. cbn. split; [done |]. exists all. by rewrite takez_0 by lia. }
  destruct (source_law cx (Z.min l n) r all ltac:(lia) Hs) as (p & r' & E & Hp). rewrite E.
  destruct p as [[got|e]|]; cbn [ready]; [| eexists _, _; split; [done |]; cbn; by eauto ..].
  destruct Hp as (Hg & He & rest & -> & Hr). rewrite sub64_Some by lia.
  eexists _, _. split; [done |]. split; [lia |]. pose proof (vlen_nonneg got). split.
  { intros ->. destruct He as [|He]; [done | lia |]. right. by rewrite He, takez_all by (change (vlen (@nil Z)) with 0; lia). }
  exists (takez (l - vlen got) rest). rewrite takez_app_r by lia. split; [done |]. cbn. split; [lia |]. by exists rest.
Defined.

#[export] Instance chain_source {A B} `{HA : Source A} `{HB : Source B} : Source (Chain A B).
Proof.
  refine {| source c bs := exists b2, source (second c) b2 /\
    if first_done c then bs = b2 else exists b1, source (first c) b1 /\ bs = b1 ++ b2 |}.
  intros cx n [a b d] bs Hn (b2 & Hs2 & Hs). unfold poll_read, chain_read, source_promise. cbn [first_done first second] in *.
  destruct (source_law cx n b b2 Hn Hs2) as (p & b' & E & Hp). destruct d.
  { subst bs. rewrite E. eexists _, _. split; [done |]. destruct p as [[got|e]|]; [| by exists b2 ..].
    destruct Hp as (Hg & He & rest & -> & Hr). split; [done |]. split; [done |]. exists rest. split; [done |]. by exists rest. }
  destruct Hs as (b1 & Hs1 & ->).
  destruct (source_law cx n a b1 Hn Hs1) as (q & a' & E1 & Hq). rewrite E1.
  destruct q as [[got|e]|]; cbn [ready]; [| eexists _, _; split; [done |]; exists b2; split; [done |]; by exists b1 ..].
  destruct Hq as (Hg & He & rest & -> & Hr).
  destruct (Z.ltb_spec 0 (vlen got)) as [Hpos|Hneg]; cbn [orb].
  { eexists _, _. split; [done |]. split; [done |]. split; [by intros -> |]. exists (rest ++ b2).
    rewrite <- app_assoc. split; [done |]. exists b2. split; [done |]. by exists rest. }
  assert (got = []) as -> by (destruct got; [done | len]).
  destruct (Z.eqb_spec n 0) as [->|Hn0].
  { eexists _, _. split; [done |]. split; [done |]. split; [by left |]. exists (rest ++ b2).
    split; [done |]. exists b2. split; [done |]. by exists rest. }
  destruct He as [|He]; [done | done |]. cbn [app] in He |- *. rewrite He. rewrite E. cbn [first second first_done].
  eexists _, _. split; [done |]. destruct p as [[got|e]|]; [| by exists b2 ..].
  destruct Hp as (Hg2 & He2 & rest2 & -> & Hr2). split; [done |]. split; [done |]. exists rest2. split; [done |]. by exists rest2.
Defined.

(** ** Reads of a length *)

Section exact.
Context {R : Type} `{HR : Source R}.
Implicit Types (s : ReadExact R) (bs : list byte).

(** An error of the reader's own. *)
Definition own (e : Error) : Prop :=
  exists cx n r bs r', source r bs /\ poll_read cx n r = Some (Ready (Err e), r').

(** The front of the buffer has the front of [bs], and the reader the rest. *)
Definition filling (bs : list byte) (n : Z) s : Prop :=
  vlen (buf s) = n /\ 0 <= done s <= n /\ exists rest, source (reader s) rest /\ bs = takez (done s) (buf s) ++ rest.

Definition fill_ends (bs : list byte) (n : Z) (x : Result unit Error) s : Prop :=
  filling bs n s /\
  match x with
  | Ok _ => done s = n
  | Err e => own e \/ e = UnexpectedEof /\ done s < n /\ takez (done s) (buf s) = bs
  end.

Lemma fill_pass bs n s got rest r' d :
  filling bs n s -> done s < n -> source r' rest -> vlen got <= n - done s ->
  bs = takez (done s) (buf s) ++ got ++ rest -> d = done s + vlen got ->
  exists l, write_at (done s) got (buf s) = Some l /\ filling bs n {| reader := r'; buf := l; done := d |}.
Proof.
  intros (Hl & Hd & _) Hlt Hr Hg -> ->. pose proof (vlen_nonneg got). rewrite write_at_Some by lia. eexists. split; [done |].
  split; [cbn; by rewrite vlen_write by lia |]. cbn. split; [lia |]. exists rest. split; [done |].
  rewrite (app_assoc (takez (done s) (buf s)) got), (app_assoc (takez (done s) (buf s)) got).
  rewrite takez_app_l, (takez_all _ (_ ++ got)) by (rewrite vlen_app, vlen_takez; lia). done.
Qed.

Lemma write_nothing {A} a (l : list A) : 0 <= a <= vlen l -> write_at a [] l = Some l.
Proof.
  intros. change (@nil A) with (@nil A). rewrite write_at_Some by (change (vlen (@nil A)) with 0; lia).
  change (vlen (@nil A)) with 0. by rewrite Z.add_0_r, app_nil_l, takez_dropz.
Qed.

Lemma fill_keeps fuel cx bs n s :
  n <= isize_max -> filling bs n s -> n - done s < Z.of_nat fuel -> keeps (filling bs n) (fill_ends bs n) (fill fuel cx s).
Proof.
  intros Hn. revert s. induction fuel as [|fuel IH]; intros s Hs Hf; [destruct Hs; lia |]. cbn [fill].
  assert (Hs' := Hs). destruct Hs as (Hl & Hd & rest & Hr & E). rewrite Hl.
  destruct (Z.ltb_spec (done s) n) as [Hlt|]; [| split; [done |]; lia].
  rewrite slice_Some by lia. cbn [or_halt].
  assert (vlen (takez (n - done s) (dropz (done s) (buf s))) = n - done s) as ->
    by (rewrite vlen_takez; [done |]; rewrite vlen_dropz; lia).
  destruct (source_law cx (n - done s) (reader s) rest ltac:(lia) Hr) as (p & r' & Ep & Hp). rewrite Ep.
  destruct p as [[got|e]|]; cbn [ready_of]; [| cbn ..].
  - destruct Hp as (Hg & He & rest' & -> & Hr'). rewrite (takez_all _ got) by lia.
    destruct (Z.eqb_spec (vlen got) 0) as [Hz|Hz].
    + assert (got = []) as -> by (destruct got; [done | len]). rewrite write_nothing by lia. cbn [or_halt].
      destruct He as [|He]; [done | lia |]. cbn [app] in He, E. subst rest'.
      split; [split; [done |]; split; [done |]; by exists [] |].
      right. split; [done |]. split; [done |]. by rewrite E, app_nil_r.
    + destruct (fill_pass bs n s got rest' r' (done s + vlen got)) as (l & -> & Hs''); [done .. |]. cbn [or_halt].
      pose proof (vlen_nonneg got). rewrite add64_Some by (unfold isize_max, u64_max in *; lia). cbn [or_halt].
      apply IH; [done |]. cbn. lia.
  - split; [| left; by exists cx, (n - done s), (reader s), rest, r']. split; [done |]. split; [done |]. by exists rest.
  - split; [done |]. split; [done |]. by exists rest.
Qed.

Lemma fill_poll cx bs n s :
  n <= isize_max -> filling bs n s -> keeps (filling bs n) (fill_ends bs n) (fill (fill_fuel s) cx s).
Proof.
  intros Hn Hs. apply fill_keeps; [done | done |]. unfold fill_fuel. destruct Hs as (-> & Hd & _). lia.
Qed.

(** An exact read from a source that has [bs] left: whichever polls are
    pending, once it is ready it has the next bytes of the source and left the
    rest there; its only error besides the reader's own is the unexpected end,
    given when the source had too little, all of which is then in the buffer; and
    it never panics. *)
Theorem read_exact_reads_just_its_bytes (cxs : list Waker) (r : R) (buf0 bs : list byte) :
  source r bs -> vlen buf0 <= isize_max ->
  keeps (filling bs (vlen buf0))
    (fun x s => match x with
     | Ok n => n = vlen buf0 /\ vlen (buf s) = n /\ exists rest, source (reader s) rest /\ bs = buf s ++ rest
     | Err e => own e \/ e = UnexpectedEof /\ vlen bs < vlen buf0 /\ takez (vlen bs) (buf s) = bs
     end)
    (drive poll_read_exact cxs (read_exact r buf0)).
Proof using HR.
  intros Hs Hn. pose proof (vlen_nonneg buf0). apply drive_keeps.
  - intros cx s Hf. eapply keeps_ready; [by apply fill_poll | done | |].
    + intros e s' ((Hl & Hd & _) & [Ho | (-> & Hlt & E)]); [by left |]. right.
      assert (vlen bs = done s') by (rewrite <- E, vlen_takez; lia). split; [done |]. split; [lia |]. by rewrite H1.
    + intros [] s' ((Hl & Hd & rest & Hr & E) & Hdone). cbn. rewrite takez_all in E by lia.
      split; [done |]. split; [done |]. by exists rest.
  - split; [done |]. cbn. split; [lia |]. exists bs. split; [done |]. by rewrite takez_0 by lia.
Qed.

(** A typed read, of a source that goes on with the bytes of a value. *)
Lemma poll_number_ok ty e v rest0 cx s :
  in_range ty v -> filling (to_bytes ty e v ++ rest0) (size_of ty) s ->
  keeps (filling (to_bytes ty e v ++ rest0) (size_of ty))
    (fun x s => match x with
     | Ok w => w = v /\ source (reader s) rest0
     | Err e => own e
     end) (poll_read_number ty e cx s).
Proof.
  intros Hv Hf. pose proof (size_pos ty). pose proof (length_to_bytes ty e v) as Hlen.
  eapply keeps_ready; [refine (fill_poll cx _ (size_of ty) s _ Hf); by destruct ty | done | |].
  - intros er s' ((Hl & Hd & _) & [Ho | (-> & Hlt & E)]); [done |].
    apply (f_equal vlen) in E. rewrite vlen_takez, vlen_app in E by lia. pose proof (vlen_nonneg rest0). unfold vlen in *. lia.
  - intros [] s' ((Hl & Hd & rest & Hr & E) & Hdone). cbn. rewrite takez_all in E by lia.
    apply app_inj_1 in E as [E ->]; [| unfold vlen in *; lia]. rewrite <- E, from_to_bytes by done. done.
Qed.
End exact.

#[local] Transparent takez dropz.
Lemma read_exact_reads_just_its_bytes_witness :
  exists s, drive poll_read_exact [1; 1; 1] (read_exact (mem_reader 2 [10; 11; 12; 13]) [0; 0; 0]) = Ok (Ready (Ok 3), s) /\
    buf s = [10; 11; 12] /\ exists rest, source (reader s) rest /\ [10; 11; 12; 13] = buf s ++ rest.
Proof.
  pose proof (read_exact_reads_just_its_bytes [1; 1; 1] (mem_reader 2 [10; 11; 12; 13]) [0; 0; 0] [10; 11; 12; 13]
    (conj eq_refl eq_refl) ltac:(vm_compute; discriminate)) as Hk.
  destruct (drive _ _ _) as [[p s]|h] eqn:E; [| done]. vm_compute in E. injection E as <- <-.
  destruct Hk as (_ & _ & Hr). eexists. by split.
Defined.
#[local] Opaque takez dropz.

(** ** Reads to the end *)

Lemma slice_middle {A} n (a b : list A) : 0 <= n <= vlen b -> slice (vlen a) (vlen a + n) (a ++ b) = Some (takez n b).
Proof.
  intros Hn. pose proof (vlen_nonneg a). rewrite slice_Some by (rewrite ?vlen_app; lia).
  rewrite dropz_app_r, dropz_0 by lia. do 2 f_equal. lia.
Qed.

Lemma write_middle {A} (a k b : list A) :
  vlen k <= vlen b -> write_at (vlen a) k (a ++ b) = Some (a ++ k ++ dropz (vlen k) b).
Proof.
  intros Hk. pose proof (vlen_nonneg a). pose proof (vlen_nonneg k). rewrite write_at_Some by (rewrite ?vlen_app; lia).
  rewrite takez_app_l, takez_all, dropz_app_r by lia. do 4 f_equal. lia.
Qed.

Lemma vlen_replicate {A} n (x : A) : 0 <= n -> vlen (replicate (Z.to_nat n) x) = n.
Proof. intros. unfold vlen. rewrite length_replicate. lia. Qed.

(** The vector holds [data], then the written part of its spare room, [z] bytes,
    then the rest of it. *)
Definition laid_out (data junk : list byte) (tail : list (option byte)) (v : Vec) (z : Z) : Prop :=
  mem v = (Some <$> data) ++ (Some <$> junk) ++ tail /\ vec_len v = vlen data /\ vec_cap v <= isize_max /\ z = vlen junk.

(** Between polls: so it is, unless nothing was allocated yet. *)
Definition laid (data : list byte) (v : Vec) (z : Z) : Prop :=
  (exists junk tail, laid_out data junk tail v z) \/ (v = vec_new /\ data = [] /\ 0 <= z).

Section vectors.
Context (grow : Z -> Z -> Z).
Hypothesis grow_enough : forall cap need, cap < need -> need <= grow cap need.

(** A vector of [n] bytes, with less than a read's room left, cannot grow by what
    the loop reserves then. *)
Definition outgrown (n : Z) : Prop :=
  exists cap, n <= cap <= isize_max /\ cap - n < MIN_READ /\
    isize_max < grow cap (n + Z.max MIN_READ (Z.min MAX_READ n)).

Lemma laid_cap data junk tail v z : laid_out data junk tail v z -> vec_cap v = vlen data + z + vlen tail.
Proof. intros (Hm & _ & _ & ->). unfold vec_cap. rewrite Hm, !vlen_app, !vlen_fmap. lia. Qed.

Lemma grown data v :
  takez (vec_len v) (mem v) = Some <$> data -> vec_len v = vlen data -> vec_len v <= vec_cap v <= isize_max -> vec_cap v - vec_len v < MIN_READ ->
  match reserve grow (Z.max MIN_READ (Z.min MAX_READ (vec_len v))) v with
  | None => outgrown (vlen data)
  | Some v' => (exists tail, laid_out data [] tail v' 0) /\ MIN_READ <= vec_cap v' - vec_len v' /\ vec_cap v < vec_cap v'
  end.
Proof using grow_enough.
  intros Hm Hl Hc Hs. unfold outgrown, reserve, MIN_READ, MAX_READ in *. pose proof (vlen_nonneg data).
  set (more := Z.max 32 (Z.min (64 * 1024) (vec_len v))) in *.
  destruct (Z.leb_spec more (vec_cap v - vec_len v)); [lia |].
  pose proof (grow_enough (vec_cap v) (vec_len v + more) ltac:(lia)) as Hg.
  destruct (Z.leb_spec (grow (vec_cap v) (vec_len v + more)) isize_max) as [Hi|Hi].
  2: { exists (vec_cap v). rewrite <- Hl. fold more. lia. }
  set (tail := replicate _ None).
  assert (Hg' : vec_cap {| mem := takez (vec_len v) (mem v) ++ tail; vec_len := vec_len v |} = grow (vec_cap v) (vec_len v + more)).
  { unfold vec_cap at 1. cbn [mem]. unfold tail. rewrite Hm, vlen_app, vlen_fmap, vlen_replicate by lia. lia. }
  rewrite Hg'. cbn [vec_len]. split; [| lia]. exists tail. unfold laid_out. rewrite Hg'. cbn. by rewrite Hm.
Qed.

Lemma read_room_ok data v z :
  laid data v z ->
  match make_room grow v z with
  | None => outgrown (vlen data)
  | Some (v', z') => (exists junk tail, laid_out data junk tail v' z') /\ MIN_READ <= vec_cap v' - vec_len v'
  end.
Proof using grow_enough.
  intros Hv. unfold make_room.
  assert (takez (vec_len v) (mem v) = Some <$> data /\ vec_len v = vlen data /\ vec_len v <= vec_cap v <= isize_max) as (Hm & Hl & Hc).
  { destruct Hv as [(junk & tail & Hv) | (-> & -> & _)]; [| cbn; by rewrite takez_0 by lia].
    assert (Hc := laid_cap _ _ _ _ _ Hv). destruct Hv as (Hm & Hl & Hi & ->). pose proof (vlen_nonneg junk). pose proof (vlen_nonneg tail).
    rewrite Hm, Hl, takez_app_l, takez_all by (rewrite vlen_fmap; lia). split; [done |]. lia. }
  rewrite sub64_Some by lia. destruct (Z.ltb_spec (vec_cap v - vec_len v) MIN_READ) as [Hs|Hs].
  - pose proof (grown data v Hm Hl Hc Hs) as Hg. destruct (reserve _ _ v) as [v'|]; [| done].
    destruct Hg as ((tail & Hg) & Hr & Hlt). destruct (Z.eqb_spec (vec_cap v') (vec_cap v)); [lia |].
    split; [| done]. by exists [], tail.
  - split; [| done]. destruct Hv as [Hv | (-> & -> & _)]; [done |]. by cbn in Hs.
Qed.

Lemma zero_room_ok data junk tail v z :
  laid_out data junk tail v z -> MIN_READ <= vec_cap v - vec_len v ->
  exists v' z' room junk' tail', zero_room v z = Some (v', z', room) /\ laid_out data junk' tail' v' z' /\ 0 < room <= z'.
Proof using.
  intros Hv Hr. assert (Hc := laid_cap _ _ _ _ _ Hv). assert (Hv' := Hv). destruct Hv as (Hm & Hl & Hi & Hz).
  unfold zero_room. pose proof (vlen_nonneg junk). set (room := Z.min _ MAX_READ).
  assert (0 < room <= z + vlen tail) as Hroom by (unfold room, MIN_READ, MAX_READ in *; lia).
  destruct (Z.ltb_spec z room) as [Hlt|Hge].
  2: { exists v, z, room, junk, tail. split; [done |]. split; [done |]. lia. }
  set (zeros := replicate (Z.to_nat (room - z)) 0). assert (Hk : vlen zeros = room - z) by (apply vlen_replicate; lia).
  replace (replicate _ (Some 0)) with (Some <$> zeros) by (unfold zeros; by rewrite fmap_replicate).
  rewrite Hm, app_assoc, <- fmap_app.
  replace (vec_len v + z) with (vlen (Some <$> (data ++ junk))) by (rewrite vlen_fmap, vlen_app; lia).
  rewrite write_middle by (rewrite vlen_fmap; lia). rewrite vlen_fmap, Hk.
  eexists _, _, room, (junk ++ zeros), _. split; [done |]. split; [| lia].
  split; [cbn; rewrite !fmap_app, <- !app_assoc; done |]. split; [done |].
  split; [| rewrite vlen_app; lia]. unfold vec_cap. cbn. rewrite !vlen_app, !vlen_fmap, vlen_app, vlen_dropz by lia. lia.
Qed.

(** What a reader writes into the room it is given. *)
Lemma written data junk tail v z room bs :
  laid_out data junk tail v z -> 0 < room <= z ->
  exists m, write_at (vec_len v) (Some <$> takez room bs) (mem v) = Some m /\
    (exists junk', laid_out data junk' tail {| mem := m; vec_len := vec_len v |} z) /\
    (vlen bs <= room -> exists junk', laid_out (data ++ bs) junk' tail {| mem := m; vec_len := vec_len v + vlen bs |} (z - vlen bs)).
Proof using.
  intros Hv Hr. assert (Hc := laid_cap _ _ _ _ _ Hv). destruct Hv as (Hm & Hl & Hi & Hz).
  set (ws := takez room bs). pose proof (vlen_nonneg ws). pose proof (vlen_nonneg tail). pose proof (vlen_nonneg data).
  assert (Hw : vlen ws <= room) by (unfold ws; rewrite vlen_takez_min by lia; lia).
  assert (Hj : vlen (dropz (vlen ws) junk) = vlen junk - vlen ws) by (apply vlen_dropz; lia).
  rewrite Hm, Hl, <- (vlen_fmap Some data). rewrite write_middle by (rewrite vlen_app, !vlen_fmap; lia).
  rewrite vlen_fmap, dropz_app_l, <- fmap_dropz by (rewrite vlen_fmap; lia). eexists. split; [done |].
  assert (Hcap : forall n, vec_cap {| mem := (Some <$> data) ++ (Some <$> ws) ++ (Some <$> dropz (vlen ws) junk) ++ tail; vec_len := n |}
    <= isize_max) by (intros n; unfold vec_cap; cbn; rewrite !vlen_app, !vlen_fmap, Hj; lia).
  split.
  - exists (ws ++ dropz (vlen ws) junk). split; [cbn; by rewrite fmap_app, <- !app_assoc |].
    split; [cbn; by rewrite vlen_fmap |]. split; [done |]. rewrite vlen_app, Hj. lia.
  - intros Hb. assert (ws = bs) as E by (by apply takez_all). exists (dropz (vlen ws) junk).
    split; [cbn; by rewrite fmap_app, <- !app_assoc, E |]. split; [cbn; by rewrite vlen_app, vlen_fmap |].
    split; [done |]. rewrite Hj, <- E. lia.
Qed.
End vectors.

Section to_end.
Context {R : Type} `{HR : AsyncRead R} (grow : Z -> Z -> Z).
Hypothesis grow_enough : forall cap need, cap < need -> need <= grow cap need.

Definition te (r : R) (v : Vec) (z : Z) : ToEnd R := {| te_reader := r; te_buf := v; zeroed := z |}.

(** One pass of the loop, for what the reader does with the room it is given. *)
Definition pass_of (fuel : nat) (cx : Waker) (data : list byte) (m : Polled R (list byte)) (room : Z) (ran : Ran (ToEnd R) unit) : Prop :=
  match m with
  | None => ran = Err Panics
  | Some (Pending, r) => exists v z, ran = Ok (Pending, te r v z) /\ laid data v z
  | Some (Ready (Err e), r) => exists v z, ran = Ok (Ready (Err e), te r v z) /\ laid data v z
  | Some (Ready (Ok bs), r) =>
      exists v z,
      if vlen bs =? 0 then ran = Ok (Ready (Ok tt), te r v z) /\ laid data v z
      else if room <? vlen bs then ran = Ok (Ready (Err InvalidData), te r v z) /\ laid data v z
      else ran = read_to_end grow fuel cx (te r v z) /\ laid (data ++ bs) v z
  end.

Lemma one_pass fuel cx data r v z :
  laid data v z ->
  (read_to_end grow (S fuel) cx (te r v z) = Err Panics /\ outgrown grow (vlen data)) \/
  exists room, 0 < room /\ pass_of fuel cx data (poll_read cx room r) room (read_to_end grow (S fuel) cx (te r v z)).
Proof using grow_enough.
  intros Hv. apply (read_room_ok grow grow_enough) in Hv. cbn [read_to_end te te_buf zeroed te_reader].
  destruct (make_room grow v z) as [[v1 z1]|]; [| by left]. destruct Hv as ((junk & tail & Hv) & Hr). right. cbn [or_halt].
  destruct (zero_room_ok data junk tail v1 z1 Hv Hr) as (v2 & z2 & room & junk2 & tail2 & -> & Hv2 & Hroom). cbn [or_halt].
  assert (slice (vec_len v2) (vec_len v2 + room) (mem v2) = Some (Some <$> takez room junk2)) as ->.
  { destruct Hv2 as (-> & -> & _ & Hz). rewrite <- (vlen_fmap Some data), slice_middle.
    - by rewrite takez_app_l, fmap_takez by (rewrite vlen_fmap; lia).
    - rewrite vlen_app, vlen_fmap. pose proof (vlen_nonneg tail2). lia. }
  cbn [or_halt]. rewrite assume_somes. cbn [of_buf].
  assert (vlen (takez room junk2) = room) as -> by (apply vlen_takez; destruct Hv2 as (_ & _ & _ & ?); lia).
  exists room. split; [lia |]. destruct (poll_read cx room r) as [[[[bs|e]|] r']|]; cbn [ready_of pass_of]; [| | | done].
  2, 3: eexists _, _; split; [done |]; left; by eauto.
  destruct (written data junk2 tail2 v2 z2 room bs Hv2 Hroom) as (m & -> & (junk3 & H3) & H4). cbn [or_halt].
  destruct (Z.eqb_spec (vlen bs) 0); [eexists _, _; split; [done |]; left; by eauto |].
  destruct (Z.ltb_spec room (vlen bs)) as [|Hb]; [eexists _, _; split; [done |]; left; by eauto |].
  destruct (H4 Hb) as (junk4 & H5). rewrite sub64_Some by lia. cbn [or_halt].
  eexists _, _. split; [done |]. left. by eauto.
Qed.

(** *** Whatever the reader reports *)

(** The bytes of an answer that fit the room they were asked for. *)
Definition got (room : Z) (p : Poll (Result (list byte) Error)) : list byte :=
  match p with Ready (Ok bs) => if vlen bs <=? room then bs else [] | _ => [] end.

(** Reads in a row, and the bytes they gave. *)
Inductive reads_on : R -> list byte -> R -> Prop :=
| reads_none r : reads_on r [] r
| reads_next r gave r1 cx room p r2 :
    reads_on r gave r1 -> 0 < room -> poll_read cx room r1 = Some (p, r2) -> reads_on r (gave ++ got room p) r2.

(** What a poll that began with [data] may come to, of a reader that [gave] so
    much before: what the reader gave since is after [data]. It panics when the
    reader does or when the vector cannot grow, and it is not over only when as
    many bytes came as it was given passes. *)
Definition safe (r0 : R) (gave data : list byte) (fuel : nat) (ran : Ran (ToEnd R) unit) : Prop :=
  match ran with
  | Ok (_, s) => exists more, reads_on r0 (gave ++ more) (te_reader s) /\ laid (data ++ more) (te_buf s) (zeroed s)
  | Err h => exists more r, reads_on r0 (gave ++ more) r /\
      match h with
      | Uninit => False
      | Panics => (exists cx room, 0 < room /\ poll_read cx room r = None) \/ outgrown grow (vlen (data ++ more))
      | Unfinished => Z.of_nat fuel <= vlen more
      end
  end.

Lemma safe_next r0 gave data fuel bs ran :
  bs <> [] -> safe r0 (gave ++ bs) (data ++ bs) fuel ran -> safe r0 gave data (S fuel) ran.
Proof using.
  intros Hb. assert (1 <= vlen bs) by (destruct bs; [done |]; len). unfold safe. destruct ran as [[p s]|h].
  - intros (more & Hr & Hs). exists (bs ++ more). by rewrite !app_assoc.
  - intros (more & r & Hr & Hh). exists (bs ++ more), r. rewrite !app_assoc. split; [done |].
    destruct h; [done | done |]. rewrite vlen_app. lia.
Qed.

Lemma read_to_end_safe r0 fuel cx gave data r v z :
  reads_on r0 gave r -> laid data v z -> safe r0 gave data fuel (read_to_end grow fuel cx (te r v z)).
Proof using grow_enough.
  revert gave data r v z. induction fuel as [|fuel IH]; intros gave data r v z Hon Hv.
  { exists [], r. by rewrite app_nil_r. }
  destruct (one_pass fuel cx data r v z Hv) as [(-> & Ho) | (room & Hroom & Hp)].
  { exists [], r. rewrite !app_nil_r. split; [done | by right]. }
  unfold pass_of in Hp. destruct (poll_read cx room r) as [[p r']|] eqn:E.
  2: { rewrite Hp. exists [], r. rewrite !app_nil_r. split; [done |]. left. by exists cx, room. }
  assert (Hon' := reads_next r0 gave r cx room p r' Hon Hroom E).
  assert (Hstay : got room p = [] -> forall q v z, laid data v z -> safe r0 gave data (S fuel) (Ok (q, te r' v z))).
  { intros Eg q v' z' Hv'. exists []. rewrite Eg in Hon'. rewrite app_nil_r in Hon'. by rewrite !app_nil_r. }
  destruct p as [[bs|e]|]; [| destruct Hp as (v' & z' & -> & Hv'); by apply Hstay ..].
  destruct Hp as (v' & z' & Hp). cbn [got] in Hstay, Hon'.
  destruct (Z.eqb_spec (vlen bs) 0) as [Hz|Hz]; [destruct Hp as (-> & Hv'); apply Hstay; [| done]; destruct bs; [by case_match | len] |].
  destruct (Z.ltb_spec room (vlen bs)) as [Hlt|Hge]; destruct Hp as (-> & Hv').
  { apply Hstay; [| done]. by destruct (Z.leb_spec (vlen bs) room); [lia |]. }
  apply (safe_next _ _ _ _ bs); [by intros -> |]. apply IH; [| done]. by destruct (Z.leb_spec (vlen bs) room); [| lia].
Qed.

(** Polls in a row, whatever each of them answers, up to one that halts. *)
Fixpoint poll_all {S T} (poll : Waker -> S -> Ran S T) (cxs : list Waker) (s : S) : Result S Halt :=
  match cxs with
  | [] => Ok s
  | cx :: cxs =>
      match poll cx s with
      | Ok (_, s) => poll_all poll cxs s
      | Err h => Err h
      end
  end.

Lemma laid_shown data v z : laid data v z -> slice_assume_init (takez (vec_len v) (mem v)) = Ok data /\ vec_len v = vlen data /\ 0 <= z.
Proof using.
  intros [(junk & tail & Hm & Hl & _ & ->) | (-> & -> & ?)].
  - rewrite Hm, Hl, takez_app_l, takez_all, assume_somes by (rewrite vlen_fmap; lia). pose proof (vlen_nonneg junk). done.
  - cbn. by rewrite takez_0 by lia.
Qed.

(** A halt that is not the code's, of polls that began with [data] and a reader
    [r0]: after the reader gave so many bytes it panics itself, or a vector with
    no more than them cannot grow, or they are as many as the passes a poll was
    given. *)
Definition excused (r0 : R) (data : list byte) (fuel : nat) (h : Halt) : Prop :=
  exists gave r, reads_on r0 gave r /\
    match h with
    | Uninit => False
    | Panics => (exists cx room, 0 < room /\ poll_read cx room r = None) \/
        exists n, 0 <= n <= vlen (data ++ gave) /\ outgrown grow n
    | Unfinished => Z.of_nat fuel <= vlen gave
    end.

Lemma safe_excused r0 base gave data fuel h :
  vlen data <= vlen (base ++ gave) -> safe r0 gave data fuel (Err h) -> excused r0 base fuel h.
Proof using.
  intros Hd (more & r & Hr & Hh). exists (gave ++ more), r. split; [done |]. pose proof (vlen_nonneg gave).
  destruct h; [| done | rewrite vlen_app; lia]. destruct Hh as [? | Ho]; [by left | right].
  exists (vlen (data ++ more)). split; [| done]. rewrite !vlen_app in *. pose proof (vlen_nonneg data). pose proof (vlen_nonneg more). lia.
Qed.

Lemma to_end_polls_safe r0 fuel cxs data0 s :
  (exists gave, reads_on r0 gave (te_reader (to_end s)) /\ laid (data0 ++ gave) (te_buf (to_end s)) (zeroed (to_end s))) ->
  start s = vlen data0 ->
  match poll_all (poll_read_to_end grow fuel) cxs s with
  | Err h => excused r0 data0 fuel h
  | Ok s => exists gave, reads_on r0 gave (te_reader (to_end s)) /\
      slice_assume_init (takez (vec_len (te_buf (to_end s))) (mem (te_buf (to_end s)))) = Ok (data0 ++ gave)
  end.
Proof using grow_enough.
  revert s. induction cxs as [|cx cxs IH]; intros s (gave & Hon & Hs) Hst; cbn [poll_all].
  { exists gave. by apply laid_shown in Hs as (-> & _). }
  unfold poll_read_to_end. destruct s as [[r v z] st]. cbn [to_end te_buf zeroed start te_reader] in *.
  pose proof (read_to_end_safe r0 fuel cx gave (data0 ++ gave) r v z Hon Hs) as Hr.
  destruct (read_to_end grow fuel cx _) as [[p s']|h]; [| by apply (safe_excused _ _ gave (data0 ++ gave))].
  destruct Hr as (more & Hon' & Hr). rewrite <- app_assoc in Hr.
  pose proof (laid_shown _ _ _ Hr) as (_ & Hl & _). rewrite vlen_app in Hl. pose proof (vlen_nonneg (gave ++ more)).
  destruct p as [[[]|e]|]; cbn [ready_ran]; [rewrite sub64_Some by lia; cbn [or_halt] | |]; apply IH; eauto.
Qed.

(** The vector of a text has no more than the reader gave. *)
Lemma to_string_polls_safe r0 fuel cxs text0 s :
  (exists gave data, reads_on r0 gave (te_reader (bytes s)) /\ vlen data <= vlen gave /\ laid data (te_buf (bytes s)) (zeroed (bytes s))) ->
  (exists cs, Forall scalar cs /\ text s = text0 ++ encode_all cs) ->
  match poll_all (poll_read_to_string grow fuel) cxs s with
  | Err h => excused r0 [] fuel h
  | Ok s => exists cs, Forall scalar cs /\ text s = text0 ++ encode_all cs
  end.
Proof using grow_enough.
  revert s. induction cxs as [|cx cxs IH]; intros s (gave & data & Hon & Hn & Hs) Ht; cbn [poll_all]; [done |].
  unfold poll_read_to_string. destruct s as [tx [r v z]]. cbn [bytes te_buf zeroed text te_reader] in *.
  pose proof (read_to_end_safe r0 fuel cx gave data r v z Hon Hs) as Hr.
  destruct (read_to_end grow fuel cx _) as [[p s']|h]; [| by apply (safe_excused _ _ gave data)]. destruct Hr as (more & Hon' & Hr).
  assert (vlen (data ++ more) <= vlen (gave ++ more)) as Hn' by (rewrite !vlen_app; lia).
  pose proof (laid_shown _ _ _ Hr) as (Hb & _ & Hz).
  destruct p as [[[]|e]|]; cbn [ready_ran]; [| apply IH; cbn; by eauto 6 ..]. rewrite Hb. cbn [of_buf].
  pose proof (vlen_nonneg (gave ++ more)).
  destruct (is_utf8 (data ++ more)) eqn:Hu; (apply IH; cbn; [exists (gave ++ more), []; split; [done |]; split; [done | by right] |]); [| done].
  apply is_utf8_spec in Hu as (cs' & Hcs' & ->). destruct Ht as (cs & Hcs & ->). exists (cs ++ cs').
  split; [by apply Forall_app |]. unfold encode_all. by rewrite flat_map_app, app_assoc.
Qed.
End to_end.

(** *** From a source *)

Section from_source.
Context {R : Type} `{HR : Source R} (grow : Z -> Z -> Z).
Hypothesis grow_enough : forall cap need, cap < need -> need <= grow cap need.

(** A vector can grow to [n] bytes and a read more. *)
Definition fits (n : Z) : Prop := forall cap need, cap < need <= n + MAX_READ -> grow cap need <= isize_max.

(** The vector has [data0] and the front of [all], and the source the rest. *)
Definition reading (data0 all : list byte) (s : ToEnd R) : Prop :=
  exists more rest, all = more ++ rest /\ source (te_reader s) rest /\ laid (data0 ++ more) (te_buf s) (zeroed s).

Definition read_up (data0 all : list byte) (x : Result unit Error) (s : ToEnd R) : Prop :=
  match x with
  | Ok _ => source (te_reader s) [] /\ laid (data0 ++ all) (te_buf s) (zeroed s)
  | Err e => own (R := R) e /\ reading data0 all s
  end.

Lemma source_to_end fuel cx data0 all r v z more rest :
  fits (vlen data0 + vlen all) -> (length rest < fuel)%nat ->
  all = more ++ rest -> source r rest -> laid (data0 ++ more) v z ->
  keeps (reading data0 all) (read_up data0 all) (read_to_end grow fuel cx (te r v z)).
Proof using grow_enough HR.
  intros Hfit. revert r v z more rest. induction fuel as [|fuel IH]; intros r v z more rest Hf -> Hr Hv; [lia |].
  destruct (one_pass grow grow_enough fuel cx (data0 ++ more) r v z Hv) as [(_ & cap & Hn & Hc & Hg) | (room & Hroom & Hp)].
  { apply Z.lt_nge in Hg. destruct Hg. apply Hfit. unfold MIN_READ, MAX_READ in *. rewrite !vlen_app in *. pose proof (vlen_nonneg rest). lia. }
  destruct (source_law cx room r rest ltac:(lia) Hr) as (p & r' & E & Hs). rewrite E in Hp. cbn [pass_of] in Hp.
  destruct p as [[got|e]|]; destruct Hp as (v' & z' & Hp).
  - destruct Hs as (Hg & He & rest' & -> & Hr').
    destruct (Z.eqb_spec (vlen got) 0) as [Hz|Hz].
    + assert (got = []) as -> by (destruct got; [done | len]). destruct Hp as (-> & Hv').
      destruct He as [|He]; [done | lia |]. cbn [app] in He. subst rest'. rewrite !app_nil_r. done.
    + destruct (Z.ltb_spec room (vlen got)); [lia |]. destruct Hp as (-> & Hv').
      assert (0 < length got)%nat by (destruct got; [done | cbn; lia]).
      apply (IH r' v' z' (more ++ got) rest'); rewrite ?length_app in Hf; [lia | by rewrite <- app_assoc | done | by rewrite app_assoc].
  - destruct Hp as (-> & Hv'). split; [by exists cx, room, r, rest, r' |]. by exists more, rest.
  - destruct Hp as (-> & Hv'). by exists more, rest.
Qed.

Lemma poll_source fuel cx data0 all s :
  fits (vlen data0 + vlen all) -> (length all < fuel)%nat -> reading data0 all s ->
  keeps (reading data0 all) (read_up data0 all) (read_to_end grow fuel cx s).
Proof using grow_enough HR.
  intros Hfit Hf (more & rest & E & Hr & Hv). destruct s as [r v z].
  apply (source_to_end fuel cx data0 all r v z more rest); [done | | done ..].
  apply (f_equal length) in E. rewrite length_app in E. lia.
Qed.
End from_source.

Definition vec_with (data : list byte) (spare : list (option byte)) : Vec :=
  {| mem := (Some <$> data) ++ spare; vec_len := vlen data |}.

Lemma vec_with_laid data spare : vlen data + vlen spare <= isize_max -> laid data (vec_with data spare) 0.
Proof.
  intros Hn. left. exists [], spare. split; [done |]. split; [done |]. split; [| done].
  unfold vec_cap. cbn. by rewrite vlen_app, vlen_fmap.
Qed.

Definition shown (v : Vec) : Out (list byte) := slice_assume_init (takez (vec_len v) (mem v)).

(** C7. Whatever a reader reports - too many bytes, none, errors - and wherever
    its polls are cut, a read to the end, or of a text to its end, never reads
    memory that was not written: after every poll, of a finished future too, the
    vector shows the bytes it had and then just those the reader gave, and the
    text is what it was with a text in UTF-8 after it. A poll panics only where
    the reader panics after what it gave so far, or where the vector, with no
    more bytes than it began with and was given, cannot grow by what the loop
    reserves; and it does not end only while the reader gives a byte on each of
    its passes. *)
Theorem reads_to_the_end_show_written_memory {R : Type} `{AsyncRead R} (grow : Z -> Z -> Z) (fuel : nat) (cxs : list Waker)
    (r : R) (data : list byte) (spare : list (option byte)) (text0 : list byte) :
  (forall cap need, cap < need -> need <= grow cap need) -> vlen data + vlen spare <= isize_max ->
  match poll_all (poll_read_to_end grow fuel) cxs (read_all r (vec_with data spare)) with
  | Err h => excused grow r data fuel h
  | Ok s => exists gave, reads_on r gave (te_reader (to_end s)) /\ shown (te_buf (to_end s)) = Ok (data ++ gave)
  end /\
  match poll_all (poll_read_to_string grow fuel) cxs (read_to_string r text0) with
  | Err h => excused grow r [] fuel h
  | Ok s => exists cs, Forall scalar cs /\ text s = text0 ++ encode_all cs
  end.
Proof.
  intros Hg Hn. split.
  - apply to_end_polls_safe; [done | | done]. exists []. split; [constructor |]. rewrite app_nil_r. by apply vec_with_laid.
  - apply to_string_polls_safe; [done | |]; [exists [], []; split; [constructor |]; split; [done | by right] |].
    exists []. by rewrite app_nil_r.
Qed.

(** What a read to the end of a source is ready with. *)
Definition all_read {R : Type} `{Source R} (data bs : list byte) (x : Result Z Error) (s : ReadToEnd R) : Prop :=
  match x with
  | Ok n => n = vlen bs /\ shown (te_buf (to_end s)) = Ok (data ++ bs) /\ source (te_reader (to_end s)) []
  | Err e => own (R := R) e /\ exists more rest, bs = more ++ rest /\
      shown (te_buf (to_end s)) = Ok (data ++ more) /\ source (te_reader (to_end s)) rest
  end.

Definition reading_all {R : Type} `{Source R} (data bs : list byte) (s : ReadToEnd R) : Prop :=
  reading data bs (to_end s) /\ start s = vlen data.

Lemma drive_read_all {R : Type} `{Source R} (grow : Z -> Z -> Z) (fuel : nat) (cxs : list Waker)
    (r : R) (data bs : list byte) (spare : list (option byte)) :
  (forall cap need, cap < need -> need <= grow cap need) -> fits grow (vlen data + vlen bs) ->
  vlen data + vlen spare <= isize_max -> source r bs -> (length bs < fuel)%nat ->
  keeps (reading_all data bs) (all_read data bs) (drive (poll_read_to_end grow fuel) cxs (read_all r (vec_with data spare))).
Proof.
  intros Hg Hfit Hn Hs Hf. apply drive_keeps.
  - intros cx [t st] [Ht Hst]. cbn [to_end start] in *. unfold poll_read_to_end. cbn [to_end start].
    eapply keeps_ready; [by apply poll_source | by cbn | |].
    + intros e t' [Ho (more & rest & E & Hr & Hv)]. split; [done |]. exists more, rest. by apply laid_shown in Hv as (Hv & _).
    + intros [] t' [Hr Hv]. apply laid_shown in Hv as (Hv & Hl & _). rewrite vlen_app in Hl. pose proof (vlen_nonneg bs).
      rewrite sub64_Some by lia. cbn. split; [lia |]. done.
  - split; [| done]. exists [], bs. split; [done |]. split; [done |]. rewrite app_nil_r. by apply vec_with_laid.
Qed.

(** C21. A read to the end of a source with [bs] left, its vector able to grow to
    them: a poll takes at most one pass more than there are bytes, none panics,
    and when it is ready it has appended just [bs], answered how many they are, and left the
    source at its end; an error is the reader's own, and the bytes read before it
    are in the vector, with the rest still in the source. *)
Theorem read_to_end_appends_all_that_is_left {R : Type} `{Source R} (grow : Z -> Z -> Z) (fuel : nat) (cxs : list Waker)
    (r : R) (data bs : list byte) (spare : list (option byte)) :
  (forall cap need, cap < need -> need <= grow cap need) -> fits grow (vlen data + vlen bs) ->
  vlen data + vlen spare <= isize_max -> source r bs -> (length bs < fuel)%nat ->
  keeps (reading_all data bs) (all_read data bs) (drive (poll_read_to_end grow fuel) cxs (read_all r (vec_with data spare))).
Proof. apply drive_read_all. Qed.

(** The first [n] bytes of one source and then another, read to the end: what
    is appended is those bytes and then all of the other's. *)
Theorem chained_sources_are_read_in_order {A B : Type} `{Source A} `{Source B} (grow : Z -> Z -> Z) (fuel : nat)
    (cxs : list Waker) (a : A) (b : B) (n : Z) (data b1 b2 : list byte) (spare : list (option byte)) :
  (forall cap need, cap < need -> need <= grow cap need) -> fits grow (vlen data + vlen (takez n b1 ++ b2)) ->
  vlen data + vlen spare <= isize_max -> 0 <= n <= u64_max ->
  source a b1 -> source b b2 -> (length b1 + length b2 < fuel)%nat ->
  keeps (reading_all data (takez n b1 ++ b2)) (all_read data (takez n b1 ++ b2))
    (drive (poll_read_to_end grow fuel) cxs (read_all (chain (take a n) b) (vec_with data spare))).
Proof.
  intros Hg Hfit Hv Hn Ha Hb Hf. apply drive_read_all; [done .. | |].
  - exists b2. split; [done |]. exists (takez n b1). split; [| done]. split; [done |]. by exists b1.
  - rewrite length_app. pose proof (vlen_takez_min n b1). unfold vlen in *. lia.
Qed.

(** A read of a text to its end: when it is ready the text is what it was
    with all the source had after it, which is the encoding of some text; bytes
    that are no text are an error that leaves the text as it was. *)
Theorem read_to_string_appends_text {R : Type} `{Source R} (grow : Z -> Z -> Z) (fuel : nat) (cxs : list Waker)
    (r : R) (text0 bs : list byte) :
  (forall cap need, cap < need -> need <= grow cap need) -> fits grow (vlen bs) ->
  source r bs -> (length bs < fuel)%nat ->
  keeps (fun s => text s = text0 /\ reading [] bs (bytes s))
    (fun x s => match x with
     | Ok n => n = vlen bs /\ text s = text0 ++ bs /\ (exists cs, Forall scalar cs /\ bs = encode_all cs) /\
         source (te_reader (bytes s)) []
     | Err e => text s = text0 /\
         (own (R := R) e \/ e = InvalidData /\ ~ (exists cs, Forall scalar cs /\ bs = encode_all cs))
     end)
    (drive (poll_read_to_string grow fuel) cxs (read_to_string r text0)).
Proof.
  intros Hg Hfit Hs Hf. apply drive_keeps.
  - intros cx [tx t] [Ht Hr]. cbn [text bytes] in *. unfold poll_read_to_string. cbn [text bytes].
    eapply keeps_ready; [by apply (poll_source grow Hg fuel cx [] bs) | by cbn | |].
    + intros e t' [Ho _]. cbn. split; [done | by left].
    + intros [] t' [Hr' Hv]. apply laid_shown in Hv as (Hv & _ & _). rewrite Hv. cbn [of_buf app].
      destruct (is_utf8 bs) eqn:Hu; cbn; rewrite <- is_utf8_spec, Hu; [by rewrite Ht |]. split; [done |]. by right.
  - split; [done |]. exists [], bs. split; [done |]. split; [done |]. by right.
Qed.

(** ** Examples *)

(** Growth by doubling. *)
Definition double (cap need : Z) : Z := Z.max (Z.max (2 * cap) need) 8.

Lemma double_enough cap need : cap < need -> need <= double cap need.
Proof. unfold double. lia. Qed.

Lemma double_fits n : 2 * (n + MAX_READ) + 8 <= isize_max -> fits double n.
Proof. intros Hn cap need Hc. unfold double, MAX_READ, isize_max in *. lia. Qed.

(** A reader that says it read more than it was given room for. *)
Record Liar : Type := { says : Z }.
#[export] Instance liar_read : AsyncRead Liar := fun _ n r =>
  Some (Ready (Ok (replicate (Z.to_nat (n + says r)) 7)), r).

#[local] Transparent takez dropz.

Lemma reads_to_the_end_show_written_memory_witness :
  match poll_all (poll_read_to_end double 3) [1; 1] (read_all {| says := 1 |} (vec_with [5] [None; Some 4])) with
  | Err h => excused double {| says := 1 |} [5] 3 h
  | Ok s => exists gave, reads_on {| says := 1 |} gave (te_reader (to_end s)) /\ shown (te_buf (to_end s)) = Ok ([5] ++ gave)
  end.
Proof.
  exact (proj1 (reads_to_the_end_show_written_memory double 3 [1; 1] {| says := 1 |} [5] [None; Some 4] [] double_enough
    ltac:(vm_compute; discriminate))).
Defined.

Lemma read_to_end_appends_all_that_is_left_witness :
  all_read [5] [10; 11; 12] (Ok 3)
    match drive (poll_read_to_end double 4) [1; 1; 1; 1] (read_all (mem_reader 2 [10; 11; 12]) (vec_with [5] [None])) with
    | Ok (_, s) => s
    | Err _ => read_all (mem_reader 2 []) vec_new
    end.
Proof.
  pose proof (read_to_end_appends_all_that_is_left double 4 [1; 1; 1; 1] (mem_reader 2 [10; 11; 12]) [5] [10; 11; 12] [None]
    double_enough ltac:(apply double_fits; vm_compute; discriminate) ltac:(vm_compute; discriminate)
    (conj eq_refl eq_refl) ltac:(cbn; lia)) as Hk.
  destruct (drive _ _ _) as [[p s]|h] eqn:E; [| destruct Hk]. vm_compute in E. injection E as <- <-. exact Hk.
Defined.

Lemma chained_sources_are_read_in_order_witness :
  all_read [5] [10; 11; 20] (Ok 3)
    match drive (poll_read_to_end double 6) [1; 1; 1; 1; 1; 1]
      (read_all (chain (take (mem_reader 2 [10; 11; 12]) 2) (mem_reader 2 [20])) (vec_with [5] [])) with
    | Ok (_, s) => s
    | Err _ => read_all (chain (take (mem_reader 2 []) 2) (mem_reader 2 [])) vec_new
    end.
Proof.
  pose proof (chained_sources_are_read_in_order double 6 [1; 1; 1; 1; 1; 1] (mem_reader 2 [10; 11; 12]) (mem_reader 2 [20]) 2
    [5] [10; 11; 12] [20] [] double_enough ltac:(apply double_fits; vm_compute; discriminate) ltac:(vm_compute; discriminate)
    ltac:(split; vm_compute; discriminate) (conj eq_refl eq_refl) (conj eq_refl eq_refl) ltac:(cbn; lia)) as Hk.
  destruct (drive _ _ _) as [[p s]|h] eqn:E; [| destruct Hk]. vm_compute in E. injection E as <- <-. exact Hk.
Defined.

Lemma read_to_string_appends_text_witness :
  exists s, drive (poll_read_to_string double 4) [1; 1; 1; 1; 1; 1] (read_to_string (mem_reader 2 [0xE2; 0x82; 0xAC]) [65]) = Ok (Ready (Ok 3), s) /\
    text s = [65; 0xE2; 0x82; 0xAC] /\ (exists cs, Forall scalar cs /\ [0xE2; 0x82; 0xAC] = encode_all cs).
Proof.
  pose proof (read_to_string_appends_text double 4 [1; 1; 1; 1; 1; 1] (mem_reader 2 [0xE2; 0x82; 0xAC]) [65] [0xE2; 0x82; 0xAC]
    double_enough ltac:(apply double_fits; vm_compute; discriminate) (conj eq_refl eq_refl) ltac:(cbn; lia)) as Hk.
  destruct (drive _ _ _) as [[p s]|h] eqn:E; [| destruct Hk]. vm_compute in E. injection E as <- <-.
  destruct Hk as (_ & Ht & Hc & _). eexists. by split.
Defined.
