(* ===== verification/WriteExt.v ===== *)
(** * Writes to any writer

    [io/util/write_ext.rs]: writing all of a slice, and the typed writes; and a
    number written is the number read. *)

From S2P Require Import Prelude Bytes Streams Numbers ReadExt ReadExtSpec.
Open Scope Z_scope.

Section writes.
Context {W : Type} `{AsyncWrite W}.

(** [WriteAll]: the bytes still to write. *)
Record WriteAll : Type := { writer : W; rest : list byte }.

Definition write_all (w : W) (bs : list byte) : WriteAll := {| writer := w; rest := bs |}.

(** The poll of [write_all]: every pass writes a byte, so that one more pass than
    there are bytes is enough. *)
Fixpoint write_all_loop (fuel : nat) (cx : Waker) (s : WriteAll) : Ran WriteAll unit :=
  match fuel with
  | O => Err Unfinished
  | S fuel =>
      match rest s with
      | [] => Ok (Ready (Ok tt), s)
      | _ =>
          let back w := {| writer := w; rest := rest s |} in
          ready_of (poll_write cx (rest s) (writer s)) back (fun n w =>
          if n =? 0 then Ok (Ready (Err WriteZero), back w)
          else
            or_halt Panics (slice n (vlen (rest s)) (rest s)) (fun l =>
            write_all_loop fuel cx {| writer := w; rest := l |}))
      end
  end.

Definition poll_write_all (cx : Waker) (s : WriteAll) : Ran WriteAll unit :=
  write_all_loop (S (length (rest s))) cx s.

(** [WriteNumber]. *)
Record WriteNumber : Type := { num_writer : W; num_bytes : list byte; num_done : Z }.

Definition write_number (ty : NumType) (e : Endian) (v : Z) (w : W) : WriteNumber :=
  {| num_writer := w; num_bytes := to_bytes ty e v; num_done := 0 |}.

Fixpoint write_number_loop (fuel : nat) (cx : Waker) (s : WriteNumber) : Ran WriteNumber unit :=
  match fuel with
  | O => Err Unfinished
  | S fuel =>
      if num_done s <? vlen (num_bytes s) then
        or_halt Panics (slice (num_done s) (vlen (num_bytes s)) (num_bytes s)) (fun l =>
        let back w d := {| num_writer := w; num_bytes := num_bytes s; num_done := d |} in
        ready_of (poll_write cx l (num_writer s)) (fun w => back w (num_done s)) (fun n w =>
        if n =? 0 then Ok (Ready (Err WriteZero), back w (num_done s))
        else
          or_halt Panics (add64 (num_done s) n) (fun d => write_number_loop fuel cx (back w d))))
      else Ok (Ready (Ok tt), s)
  end.

Definition poll_write_number (cx : Waker) (s : WriteNumber) : Ran WriteNumber unit :=
  write_number_loop (S (Z.to_nat (vlen (num_bytes s) - num_done s))) cx s.
End writes.

Arguments WriteAll : clear implicits.
Arguments WriteNumber : clear implicits.

Section writing.
Context {W : Type} `{HW : Writer W}.

(** An error of the writer's own. *)
Definition writer_own (e : Error) : Prop :=
  exists cx bs w h w', took w h /\ poll_write cx bs w = Some (Ready (Err e), w').

(** The writer has taken [h] and the front of [bs]; [todo] is the rest. *)
Definition writing (h bs : list byte) (w : W) (todo : list byte) : Prop :=
  exists put, bs = put ++ todo /\ took w (h ++ put).

Lemma write_pass cx h bs w todo :
  writing h bs w todo ->
  exists p w', poll_write cx todo w = Some (p, w') /\
  match p with
  | Ready (Ok n) => 0 <= n <= vlen todo /\ writing h bs w' (dropz n todo)
  | Ready (Err e) => writer_own e /\ writing h bs w' todo
  | Pending => writing h bs w' todo
  end.
Proof.
  intros (put & -> & Ht). destruct (write_law cx todo w (h ++ put) Ht) as (p & w' & E & Hp).
  exists p, w'. split; [done |]. destruct p as [[n|e]|].
  - destruct Hp as [Hn Hp]. split; [done |]. exists (put ++ takez n todo).
    by rewrite <- app_assoc, takez_dropz, app_assoc.
  - split; [by exists cx, todo, w, (h ++ put), w' |]. by exists put.
  - by exists put.
Qed.

(** What a write of all of [bs] has come to when it is ready. *)
Definition wrote (h bs : list byte) (x : Result unit Error) (w : W) (todo : list byte) : Prop :=
  match x with
  | Ok _ => took w (h ++ bs)
  | Err e => (e = WriteZero \/ writer_own e) /\ writing h bs w todo
  end.

Lemma wrote_all h bs w : writing h bs w [] -> took w (h ++ bs).
Proof. intros (put & -> & Ht). by rewrite app_nil_r. Qed.

Lemma write_all_ok fuel cx h bs s :
  writing h bs (writer s) (rest s) -> (length (rest s) < fuel)%nat ->
  keeps (fun s => writing h bs (writer s) (rest s)) (fun x s => wrote h bs x (writer s) (rest s)) (write_all_loop fuel cx s).
Proof.
  revert s. induction fuel as [|fuel IH]; intros s Hs Hf; [lia |]. cbn [write_all_loop].
  destruct (rest s) as [|b bs'] eqn:E; [rewrite <- E in Hs; cbn; by apply wrote_all; rewrite <- E |]. rewrite <- E in *.
  destruct (write_pass cx h bs (writer s) (rest s) Hs) as (p & w' & Ep & Hp). rewrite Ep.
  destruct p as [[n|e]|]; cbn [ready_of]; [| cbn; tauto | done].
  destruct Hp as [Hn Hp]. destruct (Z.eqb_spec n 0) as [->|Hn0].
  { cbn. split; [by left |]. by rewrite dropz_0 in Hp by lia. }
  rewrite slice_Some by lia. cbn [or_halt]. rewrite takez_all by (rewrite vlen_dropz; lia).
  apply IH; [done |]. cbn [rest]. pose proof (vlen_dropz n (rest s) Hn). unfold vlen in *. lia.
Qed.

Lemma poll_write_all_ok cx h bs s :
  writing h bs (writer s) (rest s) ->
  keeps (fun s => writing h bs (writer s) (rest s)) (fun x s => wrote h bs x (writer s) (rest s)) (poll_write_all cx s).
Proof. intros Hs. apply write_all_ok; [done | lia]. Qed.

Definition numbering (h bs : list byte) (s : WriteNumber W) : Prop :=
  num_bytes s = bs /\ 0 <= num_done s <= vlen bs /\ writing h bs (num_writer s) (dropz (num_done s) bs).

Definition numbered (h bs : list byte) (x : Result unit Error) (s : WriteNumber W) : Prop :=
  wrote h bs x (num_writer s) (dropz (num_done s) bs).

Lemma write_number_ok fuel cx h bs s :
  vlen bs <= isize_max -> numbering h bs s -> vlen bs - num_done s < Z.of_nat fuel ->
  keeps (numbering h bs) (numbered h bs) (write_number_loop fuel cx s).
Proof.
  intros Hi. revert s. induction fuel as [|fuel IH]; intros s Hs Hf; [destruct Hs; lia |]. cbn [write_number_loop].
  destruct Hs as (E & Hd & Hw). rewrite E. destruct (Z.ltb_spec (num_done s) (vlen bs)) as [Hlt|Hge].
  2: { cbn. rewrite dropz_all in Hw by lia. unfold numbered. cbn. by apply wrote_all. }
  rewrite slice_Some by lia. cbn [or_halt]. rewrite takez_all by (rewrite vlen_dropz; lia).
  destruct (write_pass cx h bs (num_writer s) _ Hw) as (p & w' & Ep & Hp). rewrite Ep.
  destruct p as [[n|e]|]; cbn [ready_of].
  - destruct Hp as [Hn Hp]. rewrite vlen_dropz in Hn by lia. destruct (Z.eqb_spec n 0) as [->|Hn0].
    { unfold numbered. cbn. split; [by left |]. by rewrite (dropz_0 0) in Hp by lia. }
    rewrite add64_Some by (unfold isize_max, u64_max in *; lia). cbn [or_halt].
    apply IH; [| cbn; lia]. split; [done |]. cbn. split; [lia |]. by rewrite dropz_dropz in Hp by lia.
  - unfold keeps, numbered. cbn. tauto.
  - done.
Qed.

Lemma poll_write_number_ok cx h bs s :
  vlen bs <= isize_max -> numbering h bs s -> keeps (numbering h bs) (numbered h bs) (poll_write_number cx s).
Proof. intros Hi Hs. apply write_number_ok; [done | done |]. destruct Hs as (-> & Hd & _). lia. Qed.
End writing.

(** Writing all of a slice: every poll answers, and when it is ready the
    writer has taken the whole slice, in order, after what it had; the errors are
    the writer's own and that it takes nothing, and then it has taken a front of
    the slice and the future has just the rest. *)
Theorem write_all_writes_the_slice {W : Type} `{Writer W} (cxs : list Waker) (w : W) (h bs : list byte) :
  took w h ->
  keeps (fun s => writing h bs (writer s) (rest s)) (fun x s => wrote h bs x (writer s) (rest s))
    (drive poll_write_all cxs (write_all w bs)).
Proof.
  intros Hw. apply drive_keeps; [intros; by apply poll_write_all_ok |]. exists []. by rewrite app_nil_r.
Qed.

Lemma write_all_writes_the_slice_witness :
  keeps (fun s => writing [] [1; 2; 3] (writer s) (rest s)) (fun x s => wrote [] [1; 2; 3] x (writer s) (rest s))
    (drive poll_write_all [7; 7; 7] (write_all (mem_writer 2) [1; 2; 3])).
Proof. apply (write_all_writes_the_slice [7; 7; 7] (mem_writer 2) [] [1; 2; 3]). reflexivity. Defined.

(** C33. A number of any type, in either endianness: a write that is ready has
    given the writer its bytes and no others; a read of a source that goes on
    with those bytes gives the number back, leaves what follows, and has no error
    but the reader's own. *)
Theorem numbers_read_are_numbers_written {W R : Type} `{Writer W} `{Source R} (cxs cxs' : list Waker)
    (ty : NumType) (e : Endian) (v : Z) (w : W) (h : list byte) (r : R) (after : list byte) :
  in_range ty v -> took w h -> source r (to_bytes ty e v ++ after) ->
  keeps (numbering h (to_bytes ty e v)) (numbered h (to_bytes ty e v))
    (drive poll_write_number cxs (write_number ty e v w)) /\
  keeps (filling (to_bytes ty e v ++ after) (size_of ty))
    (fun x s => match x with
     | Ok v' => v' = v /\ source (reader s) after
     | Err e => own (R := R) e
     end)
    (drive (poll_read_number ty e) cxs' (read_number ty r)).
Proof.
  intros Hv Hw Hr. pose proof (size_pos ty). split.
  - assert (vlen (to_bytes ty e v) = size_of ty) as Hl by apply length_to_bytes.
    apply drive_keeps; [intros; apply poll_write_number_ok; [rewrite Hl; by destruct ty | done] |].
    split; [done |]. cbn. split; [lia |]. rewrite dropz_0 by lia. exists []. by rewrite app_nil_r.
  - apply drive_keeps; [intros; by apply poll_number_ok |]. split; [by apply vlen_replicate; lia |].
    cbn. split; [lia |]. exists (to_bytes ty e v ++ after). by rewrite takez_0 by lia.
Qed.

#[local] Transparent takez dropz.
Lemma numbers_read_are_numbers_written_witness :
  exists s, drive (poll_read_number I32 Little) [1; 1; 1; 1; 1] (read_number I32 (mem_reader 3 [254; 255; 255; 255; 9]))
    = Ok (Ready (Ok (-2)), s) /\ source (reader s) [9].
Proof.
  destruct (numbers_read_are_numbers_written [] [1; 1; 1; 1; 1] I32 Little (-2) (mem_writer 2) []
    (mem_reader 3 [254; 255; 255; 255; 9]) [9]) as [_ Hr];
    [split; vm_compute; done | reflexivity | split; reflexivity |].
  revert Hr. vm_compute. intros [_ Hs]. by eexists.
Defined.
