(* ===== verification/Misc.v ===== *)
(** * Readers and writers with nothing behind them

    [io/util/misc.rs]: [Empty], [Repeat] and [Sink] keep the promises of
    [Streams.v]. [Repeat] and [Sink] spend the budget of the thread that polls
    them, which is part of their state here. *)

From S2P Require Import Prelude Bytes Coop Streams.
Open Scope Z_scope.

(** ** Nothing to read, everything to write *)

Record Empty : Type := { emptied : list byte }.

Definition empty : Empty := {| emptied := [] |}.

#[export] Instance empty_read : AsyncRead Empty := fun _ _ s => Some (Ready (Ok []), s).

#[export] Instance empty_buf_read : AsyncBufRead Empty :=
  {| poll_fill_buf _ s := Some (Ready (Ok []), s); consume _ s := Some s |}.

(** The bytes taken, which nothing keeps, are the model's. *)
#[export] Instance empty_write : AsyncWrite Empty :=
  {| poll_write _ bs s := Some (Ready (Ok (vlen bs)), {| emptied := emptied s ++ bs |});
     poll_flush _ s := Some (Ready (Ok tt), s);
     poll_close _ s := Some (Ready (Ok tt), s) |}.

#[export] Instance empty_source : Source Empty.
Proof.
  refine {| source _ bs := bs = [] |}. intros cx n s bs Hn ->. eexists _, _. split; [done |].
  split; [done |]. split; [by right |]. by exists [].
Defined.

#[export] Instance empty_writer : Writer Empty.
Proof.
  refine {| took s h := emptied s = h; flushed _ := True |}; [| intros cx w h <-; by eexists _, _ ..].
  intros cx bs w h <-. eexists _, _. split; [done |]. pose proof (vlen_nonneg bs).
  split; [lia |]. by rewrite takez_all by lia.
Defined.

(** ** One byte, over and over *)

Record Repeat : Type := { rep_byte : byte; rep_on : Thread }.

Definition repeat (b : byte) (t : Thread) : Repeat := {| rep_byte := b; rep_on := t |}.

#[export] Instance repeat_read : AsyncRead Repeat := fun cx n s =>
  let '(p, t) := poll_budget cx (fun t => (Ready (Ok (replicate (Z.to_nat n) (rep_byte s))), t)) (rep_on s) in
  Some (p, {| rep_byte := rep_byte s; rep_on := t |}).

(** What a budgeted poll that is ready at once answers. *)
Lemma budgeted {T} cx (x : T) t : exists t', poll_budget cx (fun t => (Ready x, t)) t = (if budget t <? 1 then Pending else Ready x, t').
Proof.
  unfold poll_budget, try_spend, refused. destruct (budget t <? 1); cbn; by eexists.
Qed.

#[export] Instance repeat_reader : Reader Repeat.
Proof.
  refine {| gave s h := exists k, h = replicate k (rep_byte s) |}. intros cx n [b t] h Hn [k ->].
  unfold poll_read, repeat_read. cbn [rep_byte rep_on]. destruct (budgeted (T := Result (list byte) Error) cx (Ok (replicate (Z.to_nat n) b)) t) as [t' ->].
  destruct (budget t <? 1); eexists _, _; (split; [done |]); [by exists k |].
  split; [unfold vlen; rewrite length_replicate; lia |]. exists (k + Z.to_nat n)%nat. by rewrite replicate_add.
Defined.

(** ** A writer that keeps nothing *)

Record Sink : Type := { sunk : list byte; sink_on : Thread }.

Definition sink (t : Thread) : Sink := {| sunk := []; sink_on := t |}.

#[export] Instance sink_write : AsyncWrite Sink :=
  {| poll_write cx bs s :=
       match poll_budget cx (fun t => (Ready (Ok (vlen bs)), t)) (sink_on s) with
       | (Pending, t) => Some (Pending, {| sunk := sunk s; sink_on := t |})
       | (p, t) => Some (p, {| sunk := sunk s ++ bs; sink_on := t |})
       end;
     poll_flush _ s := Some (Ready (Ok tt), s);
     poll_close _ s := Some (Ready (Ok tt), s) |}.

#[export] Instance sink_writer : Writer Sink.
Proof.
  refine {| took s h := sunk s = h; flushed _ := True |}; [| intros cx w h <-; by eexists _, _ ..].
  intros cx bs [k t] h <-. cbn [poll_write sink_write sink_on sunk]. destruct (budgeted (T := Result Z Error) cx (Ok (vlen bs)) t) as [t' ->].
  destruct (budget t <? 1); eexists _, _; (split; [done |]); [done |]. pose proof (vlen_nonneg bs).
  split; [lia |]. by rewrite takez_all by lia.
Defined.
