(* ===== verification/Sleep.v ===== *)
(** * Sleeps on a shard

    [time/sleep.rs], [time/units.rs] and the firing of [rt/shard/timers.rs], for
    the sleeps of the tasks of one shard: the timer a sleep is, armed in the
    shard's millisecond or microsecond wheel, the clock, the thread's budget, and
    the loop that fires what came due. Instants are nanoseconds after the clock's
    origin, which may be before it. *)

From S2P Require Import Prelude Coop Wheel Streams.
Open Scope Z_scope.

Definition NANOS : Z := 1000000000.
Definition MILLIS : Z := 1000.
Definition MICROS : Z := 1000000.

(** [units]. *)
Definition units (nanos per_second : Z) (up : bool) : Z :=
  let nanos_per_unit := NANOS / per_second in
  if up then (nanos + nanos_per_unit - 1) / nanos_per_unit else nanos / nanos_per_unit.

(** [clock::nanos]. *)
Definition clock_nanos (at_ : Z) : Z := Z.min (Z.max 0 at_) u64_max.

(** The shard's thread, its clock and its two wheels. *)
Record World : Type := { thread : Thread; now : Z; wheel : Wheel; fine : Wheel }.

Definition set_thread x w := {| thread := x; now := now w; wheel := wheel w; fine := fine w |}.
Definition set_now x w := {| thread := thread w; now := x; wheel := wheel w; fine := fine w |}.

Definition per_second (precise : bool) : Z := if precise then MICROS else MILLIS.

(** [wheel_of], and the wheel put back. *)
Definition wheel_of (precise : bool) (w : World) : Wheel := if precise then fine w else wheel w.
Definition set_wheel (precise : bool) (x : Wheel) (w : World) : World :=
  if precise then {| thread := thread w; now := now w; wheel := wheel w; fine := x |}
  else {| thread := thread w; now := now w; wheel := x; fine := fine w |}.

(** [time_of], and [wheel_now] with [precise_now]. *)
Definition time_of (precise : bool) (at_ : Z) : Z := units at_ (per_second precise) true.
Definition wheel_now (precise : bool) (w : World) : Z := units (now w) (per_second precise) false.

(** ** Timers *)

Inductive Deadline : Type := Nanos (at_ : Z) | Given (at_ : Z).

(** Of [State], what a timer of this shard is in. *)
Inductive State : Type := Idle | Local (key : TimerKey) | Done.

Record Timer : Type := { deadline_of : Deadline; state : State; grain : bool }.

Definition set_state x t := {| deadline_of := deadline_of t; state := x; grain := grain t |}.

Definition timer_new (precise : bool) (deadline : Z) : Timer :=
  {| deadline_of := Given deadline; state := Idle; grain := precise |}.

(** [far_future]. *)
Definition far_future (w : World) : Z := now w + 86400 * 365 * 30 * NANOS.

Definition checked (x : Z) : option Z := if x <=? u64_max then Some x else None.

(** [Timer::after], of a duration of whole seconds and nanoseconds. *)
Definition timer_after (precise : bool) (secs nanos : Z) (w : World) : Timer :=
  let span := let* whole := checked (secs * NANOS) in checked (whole + nanos) in
  match (let* span := span in checked (now w + span)) with
  | Some at_ => {| deadline_of := Nanos at_; state := Idle; grain := precise |}
  | None => timer_new precise (far_future w)
  end.

Definition deadline (t : Timer) : Z :=
  match deadline_of t with Nanos at_ => at_ | Given at_ => at_ end.

Definition nanos (t : Timer) : Z :=
  match deadline_of t with Nanos at_ => at_ | Given at_ => clock_nanos at_ end.

Definition is_elapsed (t : Timer) (w : World) : bool :=
  match state t with Done => true | _ => nanos t <=? now w end.

(** [release] and [release_armed]: the timer is idle, and in no wheel. *)
Definition timer_release (t : Timer) (w : World) : option (Timer * World) :=
  match state t with
  | Idle => Some (t, w)
  | Done => Some (set_state Idle t, w)
  | Local key =>
      let* (_, x) := remove (wheel_of (grain t) w) key in
      Some (set_state Idle t, set_wheel (grain t) x w)
  end.

Definition timer_reset (deadline : Z) (t : Timer) (w : World) : option (Timer * World) :=
  let* (t, w) := timer_release t w in
  Some ({| deadline_of := Given deadline; state := state t; grain := grain t |}, w).

(** [ready]: one operation of the budget, or the task is woken. *)
Definition ready_now (cx : Waker) (t : Timer) (w : World) : Poll unit * Timer * World :=
  let '(ok, th) := spend cx (thread w) in
  (if ok : bool then Ready tt else Pending, t, set_thread th w).

(** [end_local] and [ready]. *)
Definition end_local (cx : Waker) (t : Timer) (w : World) : Poll unit * Timer * World :=
  ready_now cx (set_state Done t) w.

Definition poll_local (cx : Waker) (t : Timer) (w : World) : option (Poll unit * Timer * World) :=
  let p := grain t in
  match state t with
  | Local key =>
      if is_fired (wheel_of p w) key then Some (end_local cx t w)
      else if wakes (wheel_of p w) key cx then Some (Pending, t, w)
      else
        let* (_, x) := replace_waker (wheel_of p w) key cx in
        let w := set_wheel p x w in
        if is_fired (wheel_of p w) key then Some (end_local cx t w) else Some (Pending, t, w)
  | _ =>
      let at_ := nanos t in
      if at_ <=? now w then Some (ready_now cx (set_state Done t) w)
      else
        let* (armed, x) := insert (wheel_of p w) (time_of p at_) cx in
        let w := set_wheel p x w in
        match armed with
        | Ok key => Some (Pending, set_state (Local key) t, w)
        | Err _ => Some (ready_now cx (set_state Done t) w)
        end
  end.

(** [poll] and [poll_any], inside the shard's loop. *)
Definition timer_poll (cx : Waker) (t : Timer) (w : World) : option (Poll unit * Timer * World) :=
  let any :=
    match state t with
    | Done => Some (ready_now cx t w)
    | _ => poll_local cx t w
    end in
  match state t with
  | Local key => if is_fired (wheel_of (grain t) w) key then Some (end_local cx t w) else any
  | _ => any
  end.

(** ** Firing *)

(** [wake_fired]. *)
Definition wake_fired (fired : list Waker) (w : World) : World :=
  set_thread (fold_left (fun t wk => wake wk t) fired (thread w)) w.

(** One wheel of the two, if anything is armed in it. *)
Definition fire_wheel (precise : bool) (w : World) : option World :=
  if armed (wheel_of precise w) =? 0 then Some w
  else
    let* (x, fired) := advance (wheel_of precise w) (wheel_now precise w) [] in
    Some (wake_fired fired (set_wheel precise x w)).

(** [fire_timers] and [fire_armed_timers]: the microsecond wheel first. *)
Definition fire_timers (w : World) : option World :=
  if (armed (wheel w) =? 0) && (armed (fine w) =? 0) then Some w
  else
    let* w := fire_wheel true w in
    fire_wheel false w.

(** ** The sleeps of a shard *)

Record Sys : Type := { world : World; sleeps : gmap Z Timer }.

Definition sys_start (t : Thread) : Sys :=
  {| world := {| thread := t; now := 0; wheel := new; fine := new |}; sleeps := ∅ |}.

(** What the shard's tasks, its loop and the clock do. [Enters] is a task's poll
    begun, which has a budget of its own. *)
Inductive Act : Type :=
| Sleeps (id : Z) (precise : bool) (secs nanos : Z)
| SleepsUntil (id : Z) (precise : bool) (deadline : Z)
| Polls (id : Z) (cx : Waker)
| Resets (id : Z) (deadline : Z)
| Drops (id : Z)
| Enters (task : Z)
| Passes (by_ : Z)
| Fires.

Definition put (id : Z) (t : Timer) (w : World) (s : Sys) : Sys :=
  {| world := w; sleeps := <[id := t]> (sleeps s) |}.

(** What an act answers, and the shard after it: [None] for one that panics or
    that nobody can make. *)
Definition act (a : Act) (s : Sys) : option (option (Poll unit) * Sys) :=
  let w := world s in
  match a with
  | Sleeps id p secs nanos =>
      match sleeps s !! id with
      | None => Some (None, put id (timer_after p secs nanos w) w s)
      | Some _ => None
      end
  | SleepsUntil id p d =>
      match sleeps s !! id with
      | None => Some (None, put id (timer_new p d) w s)
      | Some _ => None
      end
  | Polls id cx =>
      let* t := sleeps s !! id in
      let* (p, t, w) := timer_poll cx t w in
      Some (Some p, put id t w s)
  | Resets id d =>
      let* t := sleeps s !! id in
      let* (t, w) := timer_reset d t w in
      Some (None, put id t w s)
  | Drops id =>
      let* t := sleeps s !! id in
      let* (_, w) := timer_release t w in
      Some (None, {| world := w; sleeps := delete id (sleeps s) |})
  | Enters task =>
      Some (None, {| world := set_thread (snd (enter_task task (thread w))) w; sleeps := sleeps s |})
  | Passes d =>
      let* n := checked (now w + d) in
      if 0 <=? d then Some (None, {| world := set_now n w; sleeps := sleeps s |}) else None
  | Fires =>
      let* w := fire_timers w in
      Some (None, {| world := w; sleeps := sleeps s |})
  end.

Fixpoint acts (l : list Act) (s : Sys) : option Sys :=
  match l with
  | [] => Some s
  | a :: l =>
      let* (_, s) := act a s in
      acts l s
  end.
