(* ===== verification/SleepInv.v ===== *)
(** * Sleeps and their wheels

    What a wheel promises the sleeps armed in it, as clients of its keys, and the
    invariant of a shard's sleeps: each is in its wheel under a key of its own
    until it fires, and never fires early. *)

From S2P Require Import Prelude Coop Chains Wheel WheelPlace WheelInv WheelOps WheelAdvance WheelSpec Streams Sleep.
Open Scope Z_scope.

(** ** A wheel and the keys of its clients *)

(** After [n] calls at most, at time [t]. Generations count the calls, so that they
    do not come round. *)
Record wheel_ok (n t : Z) (x : Wheel) : Prop := {
  wheel_wf : wf x;
  wheel_own : phantom x = 0 /\ tag x = 0;
  wheel_len : vlen (entries x) <= n;
  wheel_time : elapsed x <= t;
  wheel_gens : forall i g, gen x i = Some g -> 0 <= g <= n }.

(** The key of a timer due at [at_] that is armed, and of one that fired. *)
Definition armed_as (x : Wheel) (k : TimerKey) (at_ : Z) (wk : Waker) : Prop := timer x k = Some (at_, Some wk).
Definition fired_as (x : Wheel) (k : TimerKey) (at_ : Z) : Prop :=
  at_ <= elapsed x /\ exists g, gen x (key_index k) = Some g /\ key_generation k < g.

(** Time and generations only go on. *)
Definition moves (x x' : Wheel) : Prop :=
  elapsed x <= elapsed x' /\ forall i g, gen x i = Some g -> exists g', gen x' i = Some g' /\ g <= g'.

Lemma moves_refl x : moves x x.
Proof. split; [lia |]. intros i g Hg. exists g. split; [done | lia]. Qed.

Lemma fired_moves x x' k at_ : moves x x' -> fired_as x k at_ -> fired_as x' k at_.
Proof.
  intros [He Hg] [Ha (g & Hk & Hl)]. split; [lia |]. destruct (Hg _ _ Hk) as (g' & Hg' & Hle). exists g'. split; [done | lia].
Qed.

Lemma fired_stale x k at_ : fired_as x k at_ -> timer x k = None.
Proof.
  intros [_ (g & Hk & Hl)]. destruct (timer x k) as [d|] eqn:E; [| done]. apply timer_gen in E. rewrite E in Hk.
  injection Hk as Hk. lia.
Qed.

Lemma wheel_ok_le n n' t t' x : n <= n' -> t <= t' -> wheel_ok n t x -> wheel_ok n' t' x.
Proof. intros Hn Ht [? ? ? ? Hg]. constructor; [done | done | lia | lia |]. intros i g Hi. specialize (Hg i g Hi). lia. Qed.

Lemma view_some x j : is_Some (view x j) <-> 0 <= j < vlen (entries x).
Proof.
  unfold view. rewrite fmap_is_Some. split.
  - intros [e He]. by apply vget_bound in He.
  - intros Hj. destruct (vget_is_Some _ _ Hj) as [e He]. by exists e.
Qed.

(** A wheel with the entries of another has no more of them; one more, one more. *)
Lemma len_same x x' i :
  is_Some (view x i) -> (forall j, j <> i -> view x' j = view x j) -> vlen (entries x') <= vlen (entries x).
Proof.
  intros Hi Hv. destruct (Z.le_gt_cases (vlen (entries x')) (vlen (entries x))) as [|Hgt]; [done |]. exfalso.
  pose proof (vlen_nonneg (entries x)). apply view_some in Hi.
  assert (is_Some (view x' (vlen (entries x)))) as Hs by (apply view_some; lia).
  rewrite Hv in Hs by lia. apply view_some in Hs. lia.
Qed.

Lemma len_one x x' i : (forall j, j <> i -> view x' j = view x j) -> vlen (entries x') <= vlen (entries x) + 1.
Proof.
  intros Hv. destruct (Z.le_gt_cases (vlen (entries x')) (vlen (entries x) + 1)) as [|Hgt]; [done |]. exfalso.
  pose proof (vlen_nonneg (entries x)). set (l := vlen (entries x)) in *.
  assert (forall j, l <= j <= l + 1 -> j = i) as Hj.
  { intros j Hj. destruct (decide (j = i)); [done |]. exfalso.
    assert (is_Some (view x' j)) as Hs by (apply view_some; lia). rewrite Hv in Hs by done. apply view_some in Hs. lia. }
  pose proof (Hj l ltac:(lia)). pose proof (Hj (l + 1) ltac:(lia)). lia.
Qed.

Section calls.
Context (n t : Z) (x : Wheel) (Hx : wheel_ok n t x).

Lemma armed_key k d : timer x k = Some d -> is_Some (view x (key_index k)) /\ 0 <= key_generation k <= n.
Proof using Hx.
  intros Ht%timer_gen. split; [| by eapply wheel_gens].
  unfold gen in Ht. destruct (view x (key_index k)); [by eexists | done].
Qed.

Lemma insert_key at_ wk :
  elapsed x < at_ -> n + 1 <= u64_max ->
  exists k x', insert x at_ wk = Some (Ok k, x') /\ wheel_ok (n + 1) t x' /\ moves x x' /\ elapsed x' = elapsed x /\
    timer x k = None /\ armed_as x' k at_ wk /\ (forall k', k' <> k -> timer x' k' = timer x k') /\
    (forall at_', ~ fired_as x k at_').
Proof using Hx.
  intros Hat Hn. destruct Hx as [Hwf [Hph Htg] Hlen Htime Hgens].
  destruct (insert_armed x at_ wk Hwf Hat) as (k & x' & E & Hwf' & (He & Hp & Ht) & _ & H1 & H2 & H3 & Hg & Hv); [lia |].
  exists k, x'. split; [done |].
  assert (Hgen : forall i g, gen x' i = Some g -> gen x i = Some g \/ (i = key_index k /\ g = key_generation k)).
  { intros i g Hi. unfold gen in *. rewrite Hv in Hi. destruct (decide (i = key_index k)) as [->|Hne].
    - rewrite upd_eq in Hi. injection Hi as <-. by right.
    - rewrite upd_ne in Hi by done. by left. }
  assert (0 <= key_generation k <= n) as Hk.
  { rewrite Hg. destruct (view x (key_index k)) as [[g d]|] eqn:Ev; [| rewrite Htg; pose proof (vlen_nonneg (entries x)); lia].
    apply (Hgens (key_index k)). unfold gen. by rewrite Ev. }
  split.
  { constructor; [done | by rewrite Hp, Ht | | lia |].
    - pose proof (len_one x x' (key_index k)) as Hl.
      enough (vlen (entries x') <= vlen (entries x) + 1) by lia. apply Hl. intros j Hj. by rewrite Hv, upd_ne.
    - intros i g Hi. destruct (Hgen i g Hi) as [Hi'|[_ ->]]; [specialize (Hgens i g Hi'); lia | lia]. }
  split.
  { split; [lia |]. intros i g Hi. unfold gen in *. rewrite Hv. unfold upd.
    destruct (Z.eqb_spec i (key_index k)) as [->|]; [| exists g; split; [done | lia]].
    exists (key_generation k). split; [done |]. rewrite Hg. destruct (view x (key_index k)) as [[g' d]|]; [| done].
    injection Hi as ->. lia. }
  split; [done |]. split; [done |]. split; [done |]. split; [done |].
  intros at_' [_ (g & Hg' & Hlt)]. unfold gen in Hg'. rewrite Hg in Hlt.
  destruct (view x (key_index k)) as [[g' d]|]; [| done]. injection Hg' as ->. lia.
Qed.

Lemma remove_key k d :
  timer x k = Some d -> n + 1 < 2 ^ 64 ->
  exists x', remove x k = Some (snd d, x') /\ wheel_ok (n + 1) t x' /\ moves x x' /\ elapsed x' = elapsed x /\
    timer x' k = None /\ (forall k', k' <> k -> timer x' k' = timer x k').
Proof using Hx.
  intros Ht Hn. destruct (armed_key k d Ht) as [Hsome Hk]. destruct Hx as [Hwf [Hph Htg] Hlen Htime Hgens].
  destruct (remove_live x k d Hwf Ht) as (x' & E & Hwf' & (He & Hp & Htag) & _ & H1 & H2 & Hv).
  assert (wrapping_add 64 (key_generation k) 1 = key_generation k + 1) as Hw
    by (unfold wrapping_add; apply Z.mod_small; lia). rewrite Hw in Hv.
  exists x'. split; [done |]. split.
  { constructor; [done | by rewrite Hp, Htag | | lia |].
    - enough (vlen (entries x') <= vlen (entries x)) by lia. apply (len_same x x' (key_index k) Hsome).
      intros j Hj. by rewrite Hv, upd_ne.
    - intros i g Hi. unfold gen in Hi. rewrite Hv in Hi. unfold upd in Hi.
      destruct (i =? key_index k); [injection Hi as <-; lia |]. specialize (Hgens i g Hi). lia. }
  split; [| done]. split; [lia |]. intros i g Hi. unfold gen in *. rewrite Hv. unfold upd.
  destruct (Z.eqb_spec i (key_index k)) as [->|]; [| exists g; split; [done | lia]].
  apply timer_gen in Ht. unfold gen in Ht. rewrite Ht in Hi. injection Hi as <-. exists (key_generation k + 1). split; [done | lia].
Qed.

Lemma replace_key k d wk :
  timer x k = Some d ->
  exists x', replace_waker x k wk = Some (snd d, x') /\ wheel_ok n t x' /\ moves x x' /\ elapsed x' = elapsed x /\
    armed_as x' k (fst d) wk /\ (forall k', k' <> k -> timer x' k' = timer x k').
Proof using Hx.
  intros Ht. destruct Hx as [Hwf [Hph Htg] Hlen Htime Hgens].
  destruct (replace_waker_live x k d wk Hwf Ht) as (x' & E & Hwf' & (He & Hp & Htag) & _ & H1 & H2 & Hv).
  exists x'. split; [done |]. split.
  { constructor; [done | by rewrite Hp, Htag | | lia |].
    - enough (vlen (entries x') <= vlen (entries x)) by lia.
      destruct (Z.le_gt_cases (vlen (entries x')) (vlen (entries x))) as [|Hgt]; [done |]. exfalso.
      pose proof (vlen_nonneg (entries x)). assert (is_Some (view x' (vlen (entries x)))) as [v Hs] by (apply view_some; lia).
      specialize (Hv (vlen (entries x))). rewrite Hs in Hv.
      destruct (view x (vlen (entries x))) as [v'|] eqn:E'; [| done].
      assert (is_Some (view x (vlen (entries x)))) as Hs'%view_some by (by rewrite E'). lia.
    - intros i g Hi. apply (Hgens i). unfold gen in *. by rewrite <- Hv. }
  split; [| done]. split; [lia |]. intros i g Hi. exists g. split; [| lia]. unfold gen in *. by rewrite Hv.
Qed.
End calls.

(** *** Firing *)

Lemma fired_view now x x' j : stubs x' = fire now <$> stubs x -> view x' j = fire now <$> view x j.
Proof. intros Hs. by rewrite <- !stubs_view, Hs, vget_fmap. Qed.

Lemma in_due now x wk : wk ∈ due_wakers now x <-> exists j v, view x j = Some v /\ due_waker now v = Some wk.
Proof.
  unfold due_wakers. rewrite list_elem_of_omap. split.
  - intros (v & Hv & Hd). apply list_elem_of_lookup in Hv as [j Hj]. exists (Z.of_nat j), v. split; [| done].
    rewrite <- stubs_view. apply vget_Some. pose proof (lookup_lt_Some _ _ _ Hj). unfold vlen.
    split; [lia |]. by rewrite Nat2Z.id.
  - intros (j & v & Hv & Hd). exists v. split; [| done]. rewrite <- stubs_view in Hv.
    apply vget_Some in Hv as [_ Hv]. by apply list_elem_of_lookup_2 in Hv.
Qed.

Lemma armed_view x k at_ wk : armed_as x k at_ wk <-> view x (key_index k) = Some (key_generation k, Some (at_, Some wk)).
Proof.
  unfold armed_as. rewrite timer_view. unfold reach. destruct (view x (key_index k)) as [[g [d|]]|]; [| naive_solver ..].
  destruct (Z.eqb_spec g (key_generation k)) as [->|]; naive_solver.
Qed.

Lemma advance_keys n t x :
  wheel_ok n t x -> t + SPAN <= u64_max -> n + 1 < 2 ^ 64 ->
  exists x' out, advance x t [] = Some (x', out) /\ wheel_ok (n + 1) t x' /\ moves x x' /\ elapsed x' = t /\
    (forall k at_ wk, armed_as x k at_ wk ->
       if at_ <=? t then fired_as x' k at_ /\ wk ∈ out else armed_as x' k at_ wk) /\
    (forall k d, timer x' k = Some d -> timer x k = Some d) /\
    (forall wk, wk ∈ out -> exists k at_, armed_as x k at_ wk /\ at_ <= t).
Proof.
  intros [Hwf [Hph Htg] Hlen Htime Hgens] Hspan Hn.
  destruct (advance_ok t x [] Hwf Hspan) as (x' & out & E & Hwf' & He & Hp & Ht & Hst & Hout).
  cbn [app] in E. rewrite Z.max_r in He by done. exists x', out. split; [done |].
  assert (Hv := fun j => fired_view t x x' j Hst).
  assert (Hg : forall j v, view x j = Some v -> 0 <= fst v <= n).
  { intros j v Hj. apply (Hgens j). unfold gen. by rewrite Hj. }
  assert (Hfst : forall j v, view x j = Some v -> fst v <= fst (fire t v) <= fst v + 1).
  { intros j v Hj. specialize (Hg j v Hj). destruct (fire_gen t v) as [->| ->]; [lia |].
    unfold wrapping_add. rewrite Z.mod_small by lia. lia. }
  split.
  { constructor; [done | by rewrite Hp, Ht | | lia |].
    - apply (f_equal vlen) in Hst. unfold stubs in Hst. rewrite !vlen_fmap in Hst. lia.
    - intros i g Hi. unfold gen in Hi. rewrite Hv in Hi. destruct (view x i) as [v|] eqn:Ev; [| done].
      injection Hi as <-. specialize (Hg i v Ev). specialize (Hfst i v Ev). lia. }
  split.
  { split; [lia |]. intros i g Hi. unfold gen in *. rewrite Hv. destruct (view x i) as [v|] eqn:Ev; [| done].
    injection Hi as <-. exists (fst (fire t v)). split; [done |]. by apply (Hfst i v). }
  split; [done |]. split; [| split].
  - intros k at_ wk Hk%armed_view. specialize (Hv (key_index k)). rewrite Hk in Hv. cbn in Hv.
    destruct (Z.leb_spec at_ t); [| by apply armed_view]. split.
    + split; [lia |]. unfold gen. rewrite Hv. eexists. split; [done |].
      specialize (Hg _ _ Hk). cbn in *. unfold wrapping_add. rewrite Z.mod_small by lia. lia.
    + rewrite Hout. apply in_due. exists (key_index k). eexists. split; [exact Hk |]. cbn.
      by destruct (Z.leb_spec at_ t); [| lia].
  - intros k d. rewrite !timer_view, Hv. destruct (view x (key_index k)) as [[g [[at_ wk]|]]|]; [| done ..].
    cbn. by destruct (at_ <=? t).
  - intros wk Hwk. rewrite Hout in Hwk. apply in_due in Hwk as (j & [g [[at_ wk']|]] & Hj & Hd); [| done].
    cbn in Hd. destruct (Z.leb_spec at_ t); [| done]. subst wk'.
    exists {| key_index := j; key_generation := g |}, at_. split; [| done]. by apply armed_view.
Qed.

(** ** The sleeps of a shard *)

(** A timer of the shard, by its state. *)
Definition sleep_ok (w : World) (t : Timer) : Prop :=
  match state t with
  | Idle => True
  | Done => nanos t <= now w
  | Local k =>
      let x := wheel_of (grain t) w in
      let at_ := time_of (grain t) (nanos t) in
      (exists wk, armed_as x k at_ wk) \/ fired_as x k at_
  end.

Record ok (n : Z) (s : Sys) : Prop := {
  ok_now : 0 <= now (world s) <= u64_max;
  ok_wheels : forall p, wheel_ok n (wheel_now p (world s)) (wheel_of p (world s));
  ok_sleeps : forall id t, sleeps s !! id = Some t -> sleep_ok (world s) t;
  ok_apart : forall id id' t t' k, sleeps s !! id = Some t -> sleeps s !! id' = Some t' ->
    state t = Local k -> state t' = Local k -> grain t = grain t' -> id = id';
  ok_owned : forall p k d, timer (wheel_of p (world s)) k = Some d ->
    exists id t, sleeps s !! id = Some t /\ state t = Local k /\ grain t = p }.

(** A wheel that reached a deadline in its units is at a time past it. *)
Lemma units_reached p at_ n : 0 <= n -> time_of p at_ <= units n (per_second p) false -> at_ <= n.
Proof.
  unfold time_of, units. intros Hn H. assert (0 < NANOS / per_second p) as Hu by (by destruct p).
  set (u := NANOS / per_second p) in *. clearbody u.
  pose proof (Z.div_mod n u). pose proof (Z.mod_pos_bound n u Hu).
  pose proof (Z.div_mod (at_ + u - 1) u). pose proof (Z.mod_pos_bound (at_ + u - 1) u Hu). nia.
Qed.

(** At the latest one unit after a deadline, the wheel has reached it. *)
Lemma units_in_time p at_ n : at_ + NANOS / per_second p <= n -> time_of p at_ <= units n (per_second p) false.
Proof.
  unfold time_of, units. intros H. assert (0 < NANOS / per_second p) as Hu by (by destruct p).
  set (u := NANOS / per_second p) in *. apply Z.div_le_mono; lia.
Qed.

Lemma units_mono p n m : n <= m -> units n (per_second p) false <= units m (per_second p) false.
Proof. intros. apply Z.div_le_mono; [by destruct p | done]. Qed.

Lemma wheel_now_span p w : 0 <= now w <= u64_max -> wheel_now p w + SPAN <= u64_max.
Proof.
  intros Hn. unfold wheel_now, units. change SPAN with 68719476736.
  destruct p; [change (NANOS / per_second true) with 1000 | change (NANOS / per_second false) with 1000000].
  - pose proof (Z.div_le_mono (now w) u64_max 1000 ltac:(lia) ltac:(lia)).
    change (u64_max / 1000) with 18446744073709551 in *. unfold u64_max. lia.
  - pose proof (Z.div_le_mono (now w) u64_max 1000000 ltac:(lia) ltac:(lia)).
    change (u64_max / 1000000) with 18446744073709 in *. unfold u64_max. lia.
Qed.

(** *** What changes keep *)

Lemma wheel_of_set p q x w : wheel_of p (set_wheel q x w) = if Bool.eqb p q then x else wheel_of p w.
Proof. by destruct p, q. Qed.

Lemma set_wheel_same p w : set_wheel p (wheel_of p w) w = w.
Proof. by destruct p, w. Qed.

Lemma now_set p x w : now (set_wheel p x w) = now w.
Proof. by destruct p. Qed.

Lemma wheel_now_set q p x w : wheel_now q (set_wheel p x w) = wheel_now q w.
Proof. unfold wheel_now. by rewrite now_set. Qed.

Lemma sleep_ok_wheel w p x' t :
  sleep_ok w t -> moves (wheel_of p w) x' ->
  (forall k, state t = Local k -> grain t = p -> timer x' k = timer (wheel_of p w) k) ->
  sleep_ok (set_wheel p x' w) t.
Proof.
  unfold sleep_ok. destruct (state t) as [|k|] eqn:Es; [done | | by rewrite now_set].
  intros Hk Hm Hf. rewrite wheel_of_set. destruct (Bool.eqb_spec (grain t) p) as [Eg|]; [| done].
  specialize (Hf k eq_refl Eg). rewrite Eg in *.
  destruct Hk as [(wk & Hk)|Hk]; [left; exists wk; unfold armed_as in *; by rewrite Hf | right; by eapply fired_moves].
Qed.

(** A sleep becomes [t'] and the wheel [p] becomes [x']. *)
Lemma put_ok n n' s id t' p x' :
  ok n s -> n <= n' ->
  wheel_ok n' (wheel_now p (world s)) x' -> moves (wheel_of p (world s)) x' ->
  (forall t k, sleeps s !! id = Some t -> state t = Local k -> grain t = p) ->
  (forall id' t k, id' <> id -> sleeps s !! id' = Some t -> state t = Local k -> grain t = p ->
     timer x' k = timer (wheel_of p (world s)) k /\ state t' <> Local k) ->
  (forall k d, timer x' k = Some d -> state t' = Local k \/ (timer (wheel_of p (world s)) k = Some d /\
     forall t, sleeps s !! id = Some t -> state t <> Local k)) ->
  grain t' = p -> sleep_ok (set_wheel p x' (world s)) t' ->
  ok n' (put id t' (set_wheel p x' (world s)) s).
Proof.
  intros Hs Hn Hw Hm Hold Hoth Hown Hg Ht'. destruct Hs as [Hnow Hws Hsl Hap Hown0]. constructor; cbn [put world sleeps].
  - by rewrite now_set.
  - intros q. rewrite wheel_now_set, wheel_of_set. destruct (Bool.eqb_spec q p) as [->|]; [done |].
    eapply wheel_ok_le; [done | | apply Hws]. lia.
  - intros id1 t1. rewrite lookup_insert. destruct (decide (id = id1)) as [<-|Hne]; [by intros [= <-] |].
    intros H1. apply sleep_ok_wheel; [by eapply Hsl | done |]. intros k Hk Hgr. by apply (Hoth id1 t1).
  - intros id1 id2 t1 t2 k. rewrite !lookup_insert.
    destruct (decide (id = id1)) as [<-|Hne1], (decide (id = id2)) as [<-|Hne2]; [done | | |].
    + intros [= <-] H2 Hk1 Hk2 Hgr. exfalso. by destruct (Hoth id2 t2 k ltac:(done) H2 Hk2 ltac:(congruence)).
    + intros H1 [= <-] Hk1 Hk2 Hgr. exfalso. by destruct (Hoth id1 t1 k ltac:(done) H1 Hk1 ltac:(congruence)).
    + apply Hap.
  - intros q k d. rewrite wheel_of_set.
    assert (Hkeep : forall d, timer (wheel_of q (world s)) k = Some d -> (q = p -> forall t, sleeps s !! id = Some t -> state t <> Local k) ->
      exists id0 t, <[id := t']> (sleeps s) !! id0 = Some t /\ state t = Local k /\ grain t = q).
    { intros d0 Hd Hnot. destruct (Hown0 q k d0 Hd) as (id1 & t1 & H1 & Hk1 & Hg1). exists id1, t1.
      rewrite lookup_insert_ne; [done |]. intros <-. specialize (Hold t1 k H1 Hk1). subst q. by apply (Hnot Hold t1). }
    destruct (Bool.eqb_spec q p) as [->|Hne].
    + intros Hd. destruct (Hown k d Hd) as [Hk | [Hd' Hnot]]; [| by eapply Hkeep].
      exists id, t'. by rewrite lookup_insert_eq.
    + intros Hd. by eapply Hkeep.
Qed.

(** A sleep that is in no wheel becomes one that is in none, or goes. *)
Definition unarmed (t : Timer) : Prop := match state t with Local _ => False | _ => True end.

Lemma put_unarmed n s id t' :
  ok n s -> (forall t, sleeps s !! id = Some t -> unarmed t) -> unarmed t' -> sleep_ok (world s) t' -> ok n (put id t' (world s) s).
Proof.
  intros Hs Hold Hu Ht'. rewrite <- (set_wheel_same (grain t') (world s)).
  apply (put_ok n n); [done | lia | apply Hs | apply moves_refl | | | | done | by rewrite set_wheel_same].
  - intros t k Ht Hk. specialize (Hold t Ht). unfold unarmed in Hold. by rewrite Hk in Hold.
  - intros id' t k _ _ _ _. split; [done |]. intros Hk. unfold unarmed in Hu. by rewrite Hk in Hu.
  - intros k d Hd. right. split; [done |]. intros t Ht Hk. specialize (Hold t Ht). unfold unarmed in Hold. by rewrite Hk in Hold.
Qed.

Lemma delete_ok n s id t : ok n s -> sleeps s !! id = Some t -> unarmed t -> ok n {| world := world s; sleeps := delete id (sleeps s) |}.
Proof.
  intros [Hnow Hws Hsl Hap Hown] Ht Hu. constructor; cbn [world sleeps]; [done | done | | |].
  - intros id1 t1 [_ H1]%lookup_delete_Some. by eapply Hsl.
  - intros id1 id2 t1 t2 k [_ H1]%lookup_delete_Some [_ H2]%lookup_delete_Some. by apply Hap with (t := t1) (t' := t2) (k := k).
  - intros p k d Hd. destruct (Hown p k d Hd) as (id1 & t1 & H1 & Hk & Hg). exists id1, t1. split; [| done].
    apply lookup_delete_Some. split; [| done]. intros <-. rewrite Ht in H1. injection H1 as ->. unfold unarmed in Hu. by rewrite Hk in Hu.
Qed.

Lemma thread_ok n s th : ok n s -> ok n {| world := set_thread th (world s); sleeps := sleeps s |}.
Proof. intros [Hnow Hws Hsl Hap Hown]. by constructor. Qed.

Lemma ok_le n n' s : n <= n' -> ok n s -> ok n' s.
Proof. intros Hn [Hnow Hws Hsl Hap Hown]. constructor; [done | | done ..]. intros p. eapply wheel_ok_le; [done | | apply Hws]. lia. Qed.

(** *** The operations *)

(** What [ready_now] answers: by the budget, and a task refused is woken. *)
Lemma ready_now_ok cx t w :
  exists th, ready_now cx t w = (if budget (thread w) <? 1 then Pending else Ready tt, t, set_thread th w) /\
    woken th = woken (thread w) ++ (if budget (thread w) <? 1 then [cx] else []).
Proof.
  unfold ready_now, spend, try_spend. destruct (budget (thread w) <? 1); cbn; eexists; (split; [done |]); cbn; [done |].
  by rewrite app_nil_r.
Qed.

#[export] Instance key_eq_dec : EqDecision TimerKey.
Proof. solve_decision. Defined.

(** A timer whose sleep is over. *)
Definition over (w : World) (t : Timer) : Prop :=
  match state t with
  | Idle => nanos t <= now w
  | Done => True
  | Local k => fired_as (wheel_of (grain t) w) k (time_of (grain t) (nanos t))
  end.

(** The other timers of the wheels stay as they are. *)
Definition spares (t : Timer) (w w' : World) : Prop :=
  forall p k at_ wk, armed_as (wheel_of p w) k at_ wk ->
  (state t = Local k /\ grain t = p) \/ armed_as (wheel_of p w') k at_ wk.

Lemma spares_wheel t w x' k :
  (forall k', k' <> k -> timer x' k' = timer (wheel_of (grain t) w) k') ->
  (state t = Local k \/ timer (wheel_of (grain t) w) k = None) -> spares t w (set_wheel (grain t) x' w).
Proof.
  intros Hoth Hk p k1 at_ wk Ha. rewrite wheel_of_set. destruct (Bool.eqb_spec p (grain t)) as [->|]; [| by right].
  destruct (decide (k1 = k)) as [->|Hne]; [| right; unfold armed_as in *; by rewrite Hoth].
  destruct Hk as [|Hk]; [by left | unfold armed_as in Ha; congruence].
Qed.

(** What a poll of a timer comes to. *)
Definition polled (cx : Waker) (t : Timer) (w : World) (p : Poll unit) (t' : Timer) (w' : World) : Prop :=
  deadline_of t' = deadline_of t /\ grain t' = grain t /\ now w' = now w /\ spares t w w' /\ state t' <> Idle /\
  (exists more, woken (thread w') = woken (thread w) ++ more /\
  match p with
  | Ready _ => nanos t <= now w
  | Pending => cx ∈ more \/ exists k, state t' = Local k /\ armed_as (wheel_of (grain t) w') k (time_of (grain t) (nanos t)) cx
  end) /\ (over w t -> 1 <= budget (thread w) -> p = Ready tt).

Lemma fired_elapsed n w t k :
  0 <= now w -> wheel_ok n (wheel_now (grain t) w) (wheel_of (grain t) w) ->
  fired_as (wheel_of (grain t) w) k (time_of (grain t) (nanos t)) -> nanos t <= now w.
Proof. intros Hn Hw [Ha _]. apply (units_reached (grain t)); [done |]. pose proof (wheel_time _ _ _ Hw). unfold wheel_now in *. lia. Qed.

(** The end of a sleep that is over. *)
Lemma end_ok n s id t cx :
  ok n s -> sleeps s !! id = Some t -> nanos t <= now (world s) ->
  (forall k, state t = Local k -> timer (wheel_of (grain t) (world s)) k = None) ->
  exists p w', ready_now cx (set_state Done t) (world s) = (p, set_state Done t, w') /\
    ok n (put id (set_state Done t) w' s) /\ polled cx t (world s) p (set_state Done t) w'.
Proof.
  intros Hs Ht Hd Hk. destruct (ready_now_ok cx (set_state Done t) (world s)) as (th & -> & Hwk).
  eexists _, _. split; [done |]. split.
  - assert (ok n (put id (set_state Done t) (world s) s)) as Hp; [| by apply (thread_ok n _ th) in Hp].
    rewrite <- (set_wheel_same (grain t) (world s)).
    apply (put_ok n n); [done | lia | apply Hs | apply moves_refl | | by intros | | done | by rewrite set_wheel_same].
    + intros t1 k H1 _. congruence.
    + intros k d Hd'. right. split; [done |]. intros t1 H1 Hk1. rewrite Ht in H1. injection H1 as <-. by rewrite Hk in Hd'.
  - split; [done |]. split; [done |]. split; [done |]. split; [by right |]. split; [done |]. split.
    + eexists. split; [exact Hwk |]. destruct (budget (thread (world s)) <? 1); [left; set_solver | done].
    + intros _ Hb. by destruct (Z.ltb_spec (budget (thread (world s))) 1); [lia |].
Qed.

Lemma poll_idle_ok n s id t cx :
  ok n s -> n + 1 < 2 ^ 64 -> sleeps s !! id = Some t -> state t = Idle ->
  exists p t' w', poll_local cx t (world s) = Some (p, t', w') /\
    ok (n + 1) (put id t' w' s) /\ polled cx t (world s) p t' w'.
Proof.
  intros Hs Hn Ht Est. assert (Hx := ok_wheels _ _ Hs (grain t)). unfold poll_local. rewrite Est.
  assert (forall k, state t = Local k -> timer (wheel_of (grain t) (world s)) k = None) as Hnot by (intros k; congruence).
  destruct (Z.leb_spec (nanos t) (now (world s))) as [Hd|Hd].
  { destruct (end_ok n s id t cx Hs Ht Hd Hnot) as (p & w' & -> & Hok & Hp). eexists _, _, _. split; [done |].
    split; [| done]. by apply (ok_le n); [lia |]. }
  destruct (Z.le_gt_cases (time_of (grain t) (nanos t)) (elapsed (wheel_of (grain t) (world s)))) as [Hle|Hgt].
  { exfalso. pose proof (wheel_time _ _ _ Hx) as Htm. unfold wheel_now in Htm. destruct (ok_now _ _ Hs) as [Hn0 _].
    pose proof (units_reached (grain t) (nanos t) (now (world s)) Hn0). lia. }
  destruct (insert_key n _ _ Hx (time_of (grain t) (nanos t)) cx Hgt ltac:(unfold u64_max; lia))
    as (k & x' & E & Hx' & Hm & He & Hk & Ha & Hoth & Hfresh). rewrite E.
  eexists _, _, _. split; [done |]. split.
  - apply (put_ok n (n + 1)); [done | lia | done | done | | | | done |].
    + intros t1 k1 H1 Hk1. congruence.
    + intros id1 t1 k1 Hne H1 Hk1 Hg1. assert (k1 <> k) as Hkk.
      { intros ->. pose proof (ok_sleeps _ _ Hs id1 t1 H1) as Hs1. unfold sleep_ok in Hs1. rewrite Hk1, Hg1 in Hs1.
        destruct Hs1 as [(wk & Hs1)|Hs1]; [unfold armed_as in Hs1; congruence | by apply (Hfresh _ Hs1)]. }
      split; [by apply Hoth |]. cbn. congruence.
    + intros k1 d Hd1. destruct (decide (k1 = k)) as [->|Hne]; [by left |]. right.
      rewrite Hoth in Hd1 by done. split; [done |]. intros t1 H1 Hk1. congruence.
    + unfold sleep_ok. cbn. left. exists cx. by rewrite wheel_of_set, Bool.eqb_reflx.
  - split; [done |]. split; [done |]. split; [by apply now_set |]. split; [apply (spares_wheel t _ x' k); [done | by right] |].
    split; [done |]. split.
    + exists []. rewrite app_nil_r. split; [by destruct (grain t) |]. right. exists k. split; [done |].
      by rewrite wheel_of_set, Bool.eqb_reflx.
    + unfold over. rewrite Est. lia.
Qed.

(** The wheel of an armed sleep after a call that changes that sleep's entry alone. *)
Lemma put_armed n n' s id t t' k x' :
  ok n s -> n <= n' -> sleeps s !! id = Some t -> state t = Local k -> grain t' = grain t ->
  wheel_ok n' (wheel_now (grain t) (world s)) x' -> moves (wheel_of (grain t) (world s)) x' ->
  (forall k', k' <> k -> timer x' k' = timer (wheel_of (grain t) (world s)) k') ->
  (timer x' k = None \/ state t' = Local k) -> (state t' = Local k \/ unarmed t') ->
  sleep_ok (set_wheel (grain t) x' (world s)) t' ->
  ok n' (put id t' (set_wheel (grain t) x' (world s)) s).
Proof.
  intros Hs Hn Ht Hk Hg Hx Hm Hoth Hgone Hst Ht'. apply (put_ok n n'); [done | done | done | done | | | | done | done].
  - intros t1 k1 H1 _. congruence.
  - intros id1 t1 k1 Hne H1 Hk1 Hg1. assert (k1 <> k) as Hkk by (intros ->; by apply Hne, (ok_apart _ _ Hs id1 id t1 t k)).
    split; [by apply Hoth |]. destruct Hst as [-> | Hu]; [congruence |]. intros E. unfold unarmed in Hu. by rewrite E in Hu.
  - intros k1 d Hd. destruct (decide (k1 = k)) as [->|Hne].
    + destruct Hgone as [Hgone|]; [congruence | by left].
    + right. rewrite Hoth in Hd by done. split; [done |]. intros t1 H1 Hk1. congruence.
Qed.

Lemma poll_armed_ok n s id t k cx wk :
  ok n s -> sleeps s !! id = Some t -> state t = Local k ->
  armed_as (wheel_of (grain t) (world s)) k (time_of (grain t) (nanos t)) wk ->
  exists p t' w', poll_local cx t (world s) = Some (p, t', w') /\
    ok n (put id t' w' s) /\ polled cx t (world s) p t' w'.
Proof.
  intros Hs Ht Hk Ha. assert (Hx := ok_wheels _ _ Hs (grain t)). unfold poll_local. rewrite Hk.
  assert (is_fired (wheel_of (grain t) (world s)) k = false) as -> by (rewrite is_fired_timer, Ha; done).
  assert (Hnot : over (world s) t -> 1 <= budget (thread (world s)) -> Pending = Ready tt).
  { unfold over. rewrite Hk. intros Hf%fired_stale. unfold armed_as in Ha. congruence. }
  destruct (wakes _ k cx) eqn:Hw.
  { assert (wk = cx) as ->.
    { unfold wakes, armed_as, timer in *. destruct (entry _ k) as [e|]; [| done]. cbn in Ha. injection Ha as _ Hwk.
      rewrite Hwk in Hw. unfold will_wake in Hw. by apply Z.eqb_eq in Hw. }
    eexists _, _, _. split; [done |]. split.
    - destruct s as [w m]. unfold put. cbn in *. by rewrite insert_id by done.
    - split; [done |]. split; [done |]. split; [done |]. split; [by right |]. split; [congruence |]. split; [| done]. exists []. rewrite app_nil_r. split; [done |]. right. by exists k. }
  destruct (replace_key n _ _ Hx k _ cx Ha) as (x' & -> & Hx' & Hm & He & Ha' & Hoth). cbn [snd fst] in *.
  rewrite wheel_of_set, Bool.eqb_reflx. assert (is_fired x' k = false) as -> by (rewrite is_fired_timer, Ha'; done).
  eexists _, _, _. split; [done |]. split.
  - apply (put_armed n n s id t t k x'); [done | lia | done | done | done | done | done | done | by right | by left |].
    unfold sleep_ok. rewrite Hk. left. exists cx. by rewrite wheel_of_set, Bool.eqb_reflx.
  - split; [done |]. split; [done |]. split; [by apply now_set |].
    split; [apply (spares_wheel t _ x' k); [done | by left] |]. split; [congruence |]. split; [| done]. exists [].
    rewrite app_nil_r. split; [by destruct (grain t) |]. right. exists k. split; [done |]. by rewrite wheel_of_set, Bool.eqb_reflx.
Qed.

Lemma poll_ok n s id t cx :
  ok n s -> n + 1 < 2 ^ 64 -> sleeps s !! id = Some t ->
  exists p t' w', timer_poll cx t (world s) = Some (p, t', w') /\
    ok (n + 1) (put id t' w' s) /\ polled cx t (world s) p t' w'.
Proof.
  intros Hs Hn Ht. pose proof (ok_sleeps _ _ Hs id t Ht) as Hst. unfold timer_poll. unfold sleep_ok in Hst.
  destruct (state t) as [|k|] eqn:Es.
  - by apply poll_idle_ok.
  - destruct Hst as [(wk & Ha)|Hf].
    + assert (is_fired (wheel_of (grain t) (world s)) k = false) as -> by (rewrite is_fired_timer, Ha; done).
      destruct (poll_armed_ok n s id t k cx wk Hs Ht Es Ha) as (p & t' & w' & E & Hok & Hp).
      exists p, t', w'. split; [done |]. split; [| done]. apply (ok_le n); [lia | done].
    + assert (timer (wheel_of (grain t) (world s)) k = None) as Hstale by (by eapply fired_stale).
      rewrite is_fired_timer, bool_decide_true by done.
      destruct (end_ok n s id t cx Hs Ht) as (p & w' & E & Hok & Hp).
      * eapply fired_elapsed; [apply Hs | apply (ok_wheels _ _ Hs) | done].
      * intros k1 Hk1. rewrite Es in Hk1. by injection Hk1 as <-.
      * unfold end_local. rewrite E. eexists _, _, _. split; [done |]. split; [| done]. apply (ok_le n); [lia | done].
  - destruct (end_ok n s id t cx Hs Ht Hst) as (p & w' & E & Hok & Hp); [intros k1; congruence |].
    assert (set_state Done t = t) as Et by (destruct t; cbn in *; by subst). rewrite Et in *. rewrite E.
    eexists _, _, _. split; [done |]. split; [| done]. apply (ok_le n); [lia | done].
Qed.

Lemma timer_release_ok n s id t :
  ok n s -> n + 1 < 2 ^ 64 -> sleeps s !! id = Some t ->
  exists w', timer_release t (world s) = Some (set_state Idle t, w') /\
    ok (n + 1) (put id (set_state Idle t) w' s) /\ thread w' = thread (world s) /\ now w' = now (world s) /\
    spares t (world s) w'.
Proof.
  intros Hs Hn Ht. unfold timer_release. pose proof (ok_sleeps _ _ Hs id t Ht) as Hst. unfold sleep_ok in Hst.
  assert (Hun : unarmed t -> exists w', Some (set_state Idle t, world s) = Some (set_state Idle t, w') /\
    ok (n + 1) (put id (set_state Idle t) w' s) /\ thread w' = thread (world s) /\ now w' = now (world s) /\ spares t (world s) w').
  { intros Hu. eexists. split; [done |]. split; [| split; [done |]; split; [done |]; by right]. apply (ok_le n); [lia |].
    apply put_unarmed; [done | | done | done]. intros t1 H1. congruence. }
  destruct (state t) as [|k|] eqn:Es.
  - assert (set_state Idle t = t) as Et by (destruct t; cbn in *; by subst). rewrite Et in *. apply Hun. unfold unarmed. by rewrite Es.
  - destruct Hst as [(wk & Ha)|Hf].
    + destruct (remove_key n _ _ (ok_wheels _ _ Hs (grain t)) k _ Ha Hn) as (x' & -> & Hx' & Hm & He & Hk & Hoth).
      eexists. split; [done |]. split; [| split; [by destruct (grain t) |]; split; [by apply now_set |]; apply (spares_wheel t _ x' k); [done | by left]].
      apply (put_armed n (n + 1) s id t _ k x'); [done | lia | done .. | by left | by right | done].
    + rewrite remove_stale by (by eapply fired_stale). rewrite set_wheel_same.
      eexists. split; [done |]. split; [| split; [done |]; split; [done |]; by right].
      apply (ok_le n); [lia |]. rewrite <- (set_wheel_same (grain t) (world s)).
      apply (put_armed n n s id t _ k); [done | lia | done | done | done | apply Hs | apply moves_refl | done | left; by eapply fired_stale | by right | done].
  - apply Hun. unfold unarmed. by rewrite Es.
Qed.

(** *** The shard's look at its wheels *)

Lemma nothing_armed n t x k : wheel_ok n t x -> armed x = 0 -> timer x k = None.
Proof.
  intros [Hwf [Hph _] _ _ _] Ha. pose proof (wf_armed x Hwf) as Hw. rewrite Ha, Hph in Hw.
  destruct (timer x k) as [d|] eqn:E; [exfalso | done]. unfold timer, entry in E.
  destruct (entries x !!z key_index k) as [e|] eqn:Ee; [| done]. cbn in E.
  destruct (generation e =? key_generation k), (is_free (place e)) eqn:Ef; cbn in E; try done.
  assert (e ∈ armed_entries x) as Hin.
  { unfold armed_entries. apply list_elem_of_In, filter_In. rewrite Ef. split; [| done].
    apply list_elem_of_In. apply vget_Some in Ee as [_ Ee]. by apply list_elem_of_lookup_2 in Ee. }
  destruct (armed_entries x); [by apply not_elem_of_nil in Hin |]. rewrite vlen_cons in Hw. pose proof (vlen_nonneg l). lia.
Qed.

Lemma woken_all fired t : woken (fold_left (fun t wk => wake wk t) fired t) = woken t ++ fired.
Proof. revert t. induction fired as [|wk fired IH]; intros t; cbn; [by rewrite app_nil_r |]. rewrite IH. cbn. by rewrite <- app_assoc. Qed.

(** What a look at a wheel does to the sleeps armed in it. *)
Definition looked (p : bool) (w w' : World) (out : list Waker) : Prop :=
  (forall k at_ wk, armed_as (wheel_of p w) k at_ wk ->
     if at_ <=? wheel_now p w then fired_as (wheel_of p w') k at_ /\ wk ∈ out else armed_as (wheel_of p w') k at_ wk) /\
  (forall wk, wk ∈ out -> exists k at_, armed_as (wheel_of p w) k at_ wk /\ at_ <= wheel_now p w).

Lemma fire_wheel_ok n s p :
  ok n s -> n + 1 < 2 ^ 64 ->
  exists w' out, fire_wheel p (world s) = Some w' /\ ok (n + 1) {| world := w'; sleeps := sleeps s |} /\
    now w' = now (world s) /\ wheel_of (negb p) w' = wheel_of (negb p) (world s) /\ moves (wheel_of p (world s)) (wheel_of p w') /\
    woken (thread w') = woken (thread (world s)) ++ out /\ looked p (world s) w' out.
Proof.
  intros Hs Hn. assert (Hx := ok_wheels _ _ Hs p). unfold fire_wheel.
  destruct (Z.eqb_spec (armed (wheel_of p (world s))) 0) as [Ha|Ha].
  { exists (world s), []. split; [done |]. split; [apply (ok_le n); [lia | by destruct s] |].
    split; [done |]. split; [done |]. split; [apply moves_refl |]. split; [by rewrite app_nil_r |]. split; [| set_solver].
    intros k at_ wk Hk. unfold armed_as in Hk. rewrite (nothing_armed _ _ _ _ Hx Ha) in Hk. done. }
  destruct (advance_keys n _ _ Hx (wheel_now_span p _ (ok_now _ _ Hs)) Hn)
    as (x' & out & -> & Hx' & Hm & He & Hfire & Hkeep & Hout).
  assert (Hwp : forall th, wheel_of p (set_thread th (set_wheel p x' (world s))) = x') by (intros th; by destruct p).
  exists (wake_fired out (set_wheel p x' (world s))), out. unfold wake_fired. split; [done |]. split.
  { apply (thread_ok _ {| world := set_wheel p x' (world s); sleeps := sleeps s |}).
    destruct Hs as [Hnow Hws Hsl Hap Hown]. constructor; cbn [world sleeps].
    - by rewrite now_set.
    - intros q. rewrite wheel_now_set, wheel_of_set. destruct (Bool.eqb_spec q p) as [->|]; [done |].
      eapply wheel_ok_le; [| | apply Hws]; lia.
    - intros id t Ht. pose proof (Hsl id t Ht) as H1. unfold sleep_ok in *. destruct (state t) as [|k|]; [done | | by rewrite now_set].
      rewrite wheel_of_set. destruct (Bool.eqb_spec (grain t) p) as [Eg|]; [| done]. rewrite Eg in *.
      destruct H1 as [(wk & H1)|H1]; [| right; by eapply fired_moves].
      specialize (Hfire k _ wk H1). destruct (_ <=? _); [right; tauto | left; by exists wk].
    - done.
    - intros q k d. rewrite wheel_of_set. destruct (Bool.eqb_spec q p) as [->|]; [| apply Hown]. intros Hd. by eapply Hown, Hkeep. }
  split; [by apply now_set |]. split; [by destruct p |]. rewrite Hwp. split; [done |].
  split; [cbn; rewrite woken_all; by destruct p |]. split; [| done]. by rewrite Hwp.
Qed.
