(* ===== verification/SleepSpec.v ===== *)
(** * What a sleep promises

    Over everything the tasks of a shard do with their sleeps: no sleep ends
    early, a task whose sleep is pending is woken by the shard's first look once
    its time has come, and a look wakes no other task. *)

From S2P Require Import Prelude Coop Wheel WheelInv WheelOps WheelSpec Streams Sleep SleepInv.
Open Scope Z_scope.

Lemma fire_timers_ok n s :
  ok n s -> n + 2 < 2 ^ 64 ->
  exists w' out, fire_timers (world s) = Some w' /\ ok (n + 2) {| world := w'; sleeps := sleeps s |} /\
    now w' = now (world s) /\ woken (thread w') = woken (thread (world s)) ++ out /\
    (forall p k at_ wk, armed_as (wheel_of p (world s)) k at_ wk ->
       if at_ <=? wheel_now p (world s) then fired_as (wheel_of p w') k at_ /\ wk ∈ out else armed_as (wheel_of p w') k at_ wk) /\
    (forall wk, wk ∈ out -> exists p k at_, armed_as (wheel_of p (world s)) k at_ wk /\ at_ <= wheel_now p (world s)) /\
    (forall p k at_, fired_as (wheel_of p (world s)) k at_ -> fired_as (wheel_of p w') k at_).
Proof.
  intros Hs Hn. unfold fire_timers.
  destruct ((armed (wheel (world s)) =? 0) && (armed (fine (world s)) =? 0)) eqn:Ez.
  { apply andb_true_iff in Ez as [E1%Z.eqb_eq E2%Z.eqb_eq]. exists (world s), [].
    split; [done |]. split; [apply (ok_le n); [lia | by destruct s] |]. split; [done |]. split; [by rewrite app_nil_r |].
    split; [| split; [set_solver | done]]. intros p k at_ wk Hk. exfalso. unfold armed_as in Hk.
    rewrite (nothing_armed _ _ _ k (ok_wheels _ _ Hs p)) in Hk; [done |]. by destruct p. }
  destruct (fire_wheel_ok n s true Hs ltac:(lia)) as (w1 & out1 & -> & Hok1 & Hn1 & Hsame1 & Hm1 & Hw1 & Hl1 & Ho1).
  destruct (fire_wheel_ok (n + 1) _ false Hok1 ltac:(lia)) as (w2 & out2 & E2 & Hok2 & Hn2 & Hsame2 & Hm2 & Hw2 & Hl2 & Ho2).
  cbn [world sleeps negb] in *. rewrite E2. exists w2, (out1 ++ out2). split; [done |].
  split; [by replace (n + 2) with (n + 1 + 1) by lia |]. split; [congruence |]. split; [by rewrite Hw2, Hw1, app_assoc |].
  assert (Hnow : forall p, wheel_now p w1 = wheel_now p (world s)) by (intros p; unfold wheel_now; by rewrite Hn1).
  rewrite Hnow in Hl2, Ho2. split; [| split].
  - intros [|] k at_ wk Ha.
    + specialize (Hl1 k at_ wk Ha). rewrite Hsame2. destruct (_ <=? _); [set_solver | done].
    + rewrite <- Hsame1 in Ha. specialize (Hl2 k at_ wk Ha). destruct (_ <=? _); [set_solver | done].
  - intros wk [Hwk|Hwk]%elem_of_app.
    + destruct (Ho1 wk Hwk) as (k & at_ & ?). by exists true, k, at_.
    + destruct (Ho2 wk Hwk) as (k & at_ & ?). exists false, k, at_. by rewrite <- Hsame1.
  - intros [|] k at_ Hf; [rewrite Hsame2; by apply (fired_moves _ _ _ _ Hm1) |].
    apply (fired_moves _ _ _ _ Hm2). by rewrite Hsame1.
Qed.

(** ** Acts *)

(** An act nobody can make: of a sleep that is not there or is already, or of a
    clock past its range. *)
Definition senseless (a : Act) (s : Sys) : Prop :=
  match a with
  | Sleeps id _ _ _ | SleepsUntil id _ _ => is_Some (sleeps s !! id)
  | Polls id _ | Resets id _ | Drops id => sleeps s !! id = None
  | Passes d => d < 0 \/ u64_max < now (world s) + d
  | Enters _ | Fires => False
  end.

(** The sleep an act is of. *)
Definition of_sleep (a : Act) : option Z :=
  match a with
  | Sleeps id _ _ _ | SleepsUntil id _ _ | Polls id _ | Resets id _ | Drops id => Some id
  | _ => None
  end.

(** The sleep [id] of another act stays armed as it is, or the act wakes its task. *)
Definition stays (id : Z) (s s' : Sys) : Prop :=
  forall t k wk, sleeps s !! id = Some t -> state t = Local k ->
  armed_as (wheel_of (grain t) (world s)) k (time_of (grain t) (nanos t)) wk ->
  sleeps s' !! id = Some t /\
  (armed_as (wheel_of (grain t) (world s')) k (time_of (grain t) (nanos t)) wk \/
   exists more, woken (thread (world s')) = woken (thread (world s)) ++ more /\ wk ∈ more).

Definition acted (n : Z) (a : Act) (s : Sys) (r : option (option (Poll unit) * Sys)) : Prop :=
  match r with
  | None => senseless a s
  | Some (ans, s') =>
      ok (n + 2) s' /\ now (world s) <= now (world s') /\
      (exists more, woken (thread (world s')) = woken (thread (world s)) ++ more) /\
      (forall id, of_sleep a <> Some id -> stays id s s')
  end.

Lemma spared n id id' t s w' m :
  ok n s -> sleeps s !! id' = Some t -> id' <> id -> spares t (world s) w' -> m !! id = sleeps s !! id ->
  stays id s {| world := w'; sleeps := m |}.
Proof.
  intros Hs Ht Hne Hsp Hm t1 k wk H1 Hk Ha. cbn. rewrite Hm. split; [done |]. left.
  destruct (Hsp _ _ _ _ Ha) as [[Hk' Hg]|Ha']; [| done]. exfalso. apply Hne. by apply (ok_apart _ _ Hs id' id t t1 k).
Qed.

Lemma act_start n s id t :
  ok n s -> sleeps s !! id = None -> state t = Idle -> ok (n + 2) (put id t (world s) s).
Proof.
  intros Hs Hid Ht. apply (ok_le n); [lia |]. apply put_unarmed; [done | | unfold unarmed; by rewrite Ht | unfold sleep_ok; by rewrite Ht].
  intros t1 H1. congruence.
Qed.

Lemma stays_put id id' t s : sleeps s !! id' = None -> stays id s (put id' t (world s) s).
Proof.
  intros Hid t1 k wk H1 Hk Ha. cbn. rewrite lookup_insert_ne by congruence. split; [done | by left].
Qed.

Lemma after_idle p secs nanos w : state (timer_after p secs nanos w) = Idle.
Proof. unfold timer_after. by repeat case_match. Qed.

Lemma stays_same id s w' :
  (forall p, wheel_of p w' = wheel_of p (world s)) -> stays id s {| world := w'; sleeps := sleeps s |}.
Proof. intros Hw t k wk H1 Hk Ha. split; [done |]. left. cbn. by rewrite Hw. Qed.

Lemma act_polls n s id cx :
  ok n s -> n + 2 < 2 ^ 64 -> acted n (Polls id cx) s (act (Polls id cx) s).
Proof.
  intros Hs Hn. cbn. destruct (sleeps s !! id) as [t|] eqn:Ht; [| done].
  destruct (poll_ok n s id t cx Hs ltac:(lia) Ht) as (p & t' & w' & -> & Hok & Hd & Hg & Hnow & Hsp & _ & (more & Hw & _) & _).
  split; [apply (ok_le (n + 1)); [lia | done] |]. cbn. split; [lia |]. split; [by exists more |].
  intros id1 Hne. eapply spared; [done | done | congruence | done |]. apply lookup_insert_ne. congruence.
Qed.

Lemma act_resets n s id d :
  ok n s -> n + 2 < 2 ^ 64 -> acted n (Resets id d) s (act (Resets id d) s).
Proof.
  intros Hs Hn. cbn. unfold timer_reset. destruct (sleeps s !! id) as [t|] eqn:Ht; [| done].
  destruct (timer_release_ok n s id t Hs ltac:(lia) Ht) as (w' & -> & Hok & Hth & Hnow & Hsp). cbn.
  split.
  { apply (ok_le (n + 1)); [lia |].
    pose proof (put_unarmed (n + 1) _ id {| deadline_of := Given d; state := Idle; grain := grain t |} Hok) as Hp.
    unfold put in *. cbn in Hp. rewrite insert_insert_eq in Hp. apply Hp; [| done | done].
    intros t1. rewrite lookup_insert_eq. by intros [= <-]. }
  split; [lia |]. split; [exists []; by rewrite app_nil_r, Hth |].
  intros id1 Hne. eapply spared; [done | done | congruence | done |]. apply lookup_insert_ne. congruence.
Qed.

Lemma act_drops n s id :
  ok n s -> n + 2 < 2 ^ 64 -> acted n (Drops id) s (act (Drops id) s).
Proof.
  intros Hs Hn. cbn. destruct (sleeps s !! id) as [t|] eqn:Ht; [| done].
  destruct (timer_release_ok n s id t Hs ltac:(lia) Ht) as (w' & -> & Hok & Hth & Hnow & Hsp). cbn.
  split.
  { apply (ok_le (n + 1)); [lia |].
    pose proof (delete_ok (n + 1) _ id (set_state Idle t) Hok) as Hp. unfold put in Hp. cbn in Hp.
    rewrite delete_insert_eq in Hp. apply Hp; [apply lookup_insert_eq | done]. }
  split; [lia |]. split; [exists []; by rewrite app_nil_r, Hth |].
  intros id1 Hne. eapply spared; [done | done | congruence | done |]. apply lookup_delete_ne. congruence.
Qed.

Lemma act_passes n s d : ok n s -> acted n (Passes d) s (act (Passes d) s).
Proof.
  intros Hs. cbn. unfold checked. destruct (Z.leb_spec (now (world s) + d) u64_max); [| by right].
  destruct (Z.leb_spec 0 d) as [Hd|]; [| by left]. destruct Hs as [Hnow Hws Hsl Hap Hown]. split.
  - constructor; cbn; [lia | | | done | done].
    + intros p. eapply wheel_ok_le; [| | apply Hws]; [lia |]. apply units_mono. cbn. lia.
    + intros id t Ht. specialize (Hsl id t Ht). unfold sleep_ok in *. destruct (state t); [done | done |]. cbn. lia.
  - cbn. split; [lia |]. split; [exists []; by rewrite app_nil_r |]. intros id _. apply stays_same. by intros [].
Qed.

Lemma act_fires n s : ok n s -> n + 2 < 2 ^ 64 -> acted n Fires s (act Fires s).
Proof.
  intros Hs Hn. cbn. destruct (fire_timers_ok n s Hs Hn) as (w' & out & -> & Hok & Hnow & Hw & Hl & _ & _).
  split; [done |]. cbn. split; [lia |]. split; [by exists out |]. intros id _ t k wk Ht Hk Ha. cbn. split; [done |].
  specialize (Hl _ _ _ _ Ha). destruct (_ <=? _); [right | by left]. exists out. tauto.
Qed.

Lemma sleep_act_ok n a s : ok n s -> n + 2 < 2 ^ 64 -> acted n a s (act a s).
Proof.
  intros Hs Hn. destruct a as [id p secs nanos|id p d|id cx|id d|id|task|d|].
  - cbn. destruct (sleeps s !! id) as [t|] eqn:Ht; [by exists t |].
    split; [apply act_start; [done | done | apply after_idle] |]. cbn. split; [lia |].
    split; [exists []; by rewrite app_nil_r |]. intros. by apply stays_put.
  - cbn. destruct (sleeps s !! id) as [t|] eqn:Ht; [by exists t |].
    split; [by apply act_start |]. cbn. split; [lia |]. split; [exists []; by rewrite app_nil_r |]. intros. by apply stays_put.
  - by apply act_polls.
  - by apply act_resets.
  - by apply act_drops.
  - cbn. split; [apply (ok_le n); [lia |]; by apply thread_ok |]. cbn. split; [lia |].
    split; [exists []; by rewrite app_nil_r |]. intros id _. apply stays_same. by intros [].
  - by apply act_passes.
  - by apply act_fires.
Qed.

(** ** Runs *)

Lemma new_view i : view new i = None.
Proof. unfold view. rewrite vget_None; [done |]. change (vlen (entries new)) with 0. lia. Qed.

Lemma sys_start_ok th : ok 0 (sys_start th).
Proof.
  constructor; cbn; [unfold u64_max; lia | | done | done |].
  - assert (forall t, 0 <= t -> wheel_ok 0 t new) as Hnew.
    { intros t Ht. constructor; [apply (wf_new 0) | done | done | done |]. intros i g. unfold gen. by rewrite new_view. }
    intros []; apply Hnew; vm_compute; discriminate.
  - intros [] k d; rewrite timer_view, new_view; done.
Qed.

Definition calls (l : list Act) : Z := 2 * vlen l.

Lemma sleep_acts_ok n l s s' :
  ok n s -> n + calls l < 2 ^ 64 -> acts l s = Some s' ->
  ok (n + calls l) s' /\ now (world s) <= now (world s') /\
  exists more, woken (thread (world s')) = woken (thread (world s)) ++ more.
Proof.
  revert n s. induction l as [|a l IH]; intros n s Hs Hn E; cbn [acts] in E.
  { injection E as <-. unfold calls in *. change (vlen (@nil Act)) with 0. rewrite Z.add_0_r. split; [done |].
    split; [lia |]. exists []. by rewrite app_nil_r. }
  unfold calls in Hn. rewrite vlen_cons in Hn. pose proof (vlen_nonneg l).
  pose proof (sleep_act_ok n a s Hs ltac:(lia)) as Ha. destruct (act a s) as [[ans s1]|]; [| done].
  destruct Ha as (Hok & Hnow & (more & Hw) & _). destruct (IH (n + 2) s1 Hok) as (Hok' & Hnow' & more' & Hw'); [unfold calls; lia | done |].
  split; [unfold calls in *; rewrite vlen_cons; by replace (n + 2 * (1 + vlen l)) with (n + 2 + 2 * vlen l) by lia |].
  split; [lia |]. exists (more ++ more'). by rewrite Hw', Hw, app_assoc.
Qed.

Lemma reached th l s : acts l (sys_start th) = Some s -> calls l < 2 ^ 64 -> ok (calls l) s.
Proof. intros E Hl. by apply (sleep_acts_ok 0 l _ _ (sys_start_ok th)). Qed.

(** A sleep whose task waits: it is armed with the task's waker, or the task was
    woken since [base] wakes. *)
Definition waits (id : Z) (t : Timer) (cx : Waker) (base : nat) (s : Sys) : Prop :=
  sleeps s !! id = Some t /\ (base <= length (woken (thread (world s))))%nat /\
  (cx ∈ drop base (woken (thread (world s))) \/
   exists k, state t = Local k /\ armed_as (wheel_of (grain t) (world s)) k (time_of (grain t) (nanos t)) cx).

Lemma act_other a s ans s' id : of_sleep a <> Some id -> act a s = Some (ans, s') -> sleeps s' !! id = sleeps s !! id.
Proof.
  intros Hne. destruct a as [id' p secs nanos|id' p d|id' cx|id' d|id'|task|d|]; cbn in *.
  1-5: assert (id' <> id) as Hid by congruence.
  1-5: repeat case_match; intros; simplify_eq; cbn; by rewrite ?lookup_insert_ne, ?lookup_delete_ne by done.
  all: repeat case_match; intros; simplify_eq; done.
Qed.

Lemma waits_act n id t cx base a s ans s' :
  ok n s -> n + 2 < 2 ^ 64 -> of_sleep a <> Some id ->
  waits id t cx base s -> act a s = Some (ans, s') -> waits id t cx base s'.
Proof.
  intros Hs Hn Hne (Ht & Hb & Hw) E. pose proof (act_other _ _ _ _ _ Hne E) as Ht'. rewrite Ht in Ht'.
  pose proof (sleep_act_ok n a s Hs Hn) as Ha. rewrite E in Ha.
  destruct Ha as (_ & _ & (more & Hm) & Hst). split; [done |]. rewrite Hm.
  split; [rewrite length_app; lia |]. rewrite drop_app_le by done. destruct Hw as [Hw|(k & Hk & Ha)]; [left; set_solver |].
  destruct (Hst id Hne t k cx Ht Hk Ha) as (_ & [Ha'|(more' & Hm' & Hin)]); [right; by exists k |].
  left. rewrite Hm in Hm'. apply app_inj_1 in Hm' as [_ ->]; [set_solver | done].
Qed.

Lemma waits_acts n id t cx base l s s' :
  ok n s -> n + calls l < 2 ^ 64 -> Forall (fun a => of_sleep a <> Some id) l ->
  waits id t cx base s -> acts l s = Some s' -> waits id t cx base s'.
Proof.
  intros Hs Hn Hl. revert n s Hs Hn. induction Hl as [|a l Ha Hl IH]; intros n s Hs Hn Hw E; cbn [acts] in E; [by injection E as <- |].
  unfold calls in Hn. rewrite vlen_cons in Hn. pose proof (vlen_nonneg l).
  pose proof (sleep_act_ok n a s Hs ltac:(lia)) as Hok. destruct (act a s) as [[ans s1]|] eqn:Ea; [| done].
  apply (IH (n + 2) s1); [apply Hok | unfold calls; lia | | done]. eapply (waits_act n); [done | lia | done | done | done].
Qed.

(** C5. A sleep never ends early: over anything the tasks of a shard do, a poll of
    a sleep that answers ready finds the clock at its deadline or past it (or at
    the end of its range); and no operation on a sleep panics. *)
Theorem sleep_never_ends_early (th : Thread) (l : list Act) (a : Act) (s : Sys) :
  acts l (sys_start th) = Some s -> calls l + 2 < 2 ^ 64 ->
  match act a s with
  | None => senseless a s
  | Some (Some (Ready _), _) =>
      exists id cx t, a = Polls id cx /\ sleeps s !! id = Some t /\ Z.min (deadline t) u64_max <= now (world s)
  | Some _ => True
  end.
Proof.
  intros E Hl. pose proof (reached th l s E ltac:(lia)) as Hs. pose proof (sleep_act_ok _ a s Hs Hl) as Ha.
  destruct (act a s) as [[ans s']|] eqn:Ea; [| done]. destruct ans as [[[]|]|]; [| done ..].
  destruct a as [id p secs nanos|id p d|id cx|id d|id|task|d|]; try (cbn in Ea; repeat case_match; by simplify_eq).
  cbn in Ea. destruct (sleeps s !! id) as [t|] eqn:Ht; [| done]. exists id, cx, t. split; [done |]. split; [done |].
  destruct (poll_ok _ s id t cx Hs ltac:(lia) Ht) as (p & t' & w' & E' & _ & _ & _ & _ & _ & _ & (more & _ & Hr) & _).
  rewrite E' in Ea. injection Ea as -> _. unfold nanos, deadline, clock_nanos in *. destruct (deadline_of t); lia.
Qed.

(** A look once the time has come. *)
Lemma look_wakes n id t cx base s :
  ok n s -> n + 2 < 2 ^ 64 -> waits id t cx base s -> state t <> Idle ->
  time_of (grain t) (nanos t) <= wheel_now (grain t) (world s) ->
  exists s', act Fires s = Some (None, s') /\ ok (n + 2) s' /\ sleeps s' !! id = Some t /\
    cx ∈ drop base (woken (thread (world s'))) /\ over (world s') t.
Proof.
  intros Hs Hn (Ht & Hb & Hw) Hst Hdue.
  destruct (fire_timers_ok n s Hs Hn) as (w' & out & E & Hok & Hnow & Hwk & Hl & _ & Hf). cbn. rewrite E.
  eexists. split; [done |]. split; [done |]. split; [done |]. cbn. rewrite Hwk, drop_app_le by done. split.
  - destruct Hw as [Hw|(k & _ & Ha)]; [set_solver |]. specialize (Hl _ _ _ _ Ha).
    destruct (Z.leb_spec (time_of (grain t) (nanos t)) (wheel_now (grain t) (world s))); [set_solver | lia].
  - pose proof (ok_sleeps _ _ Hs id t Ht) as Hok'. unfold sleep_ok, over in *. destruct (state t) as [|k|]; [done | | done].
    destruct Hok' as [(wk & Ha)|Hfd]; [| by apply Hf]. specialize (Hl _ _ _ _ Ha).
    destruct (Z.leb_spec (time_of (grain t) (nanos t)) (wheel_now (grain t) (world s))); [tauto | lia].
Qed.

(** C3. A task is woken in time: after a poll of its sleep is pending, whatever
    other tasks do and however often the shard looks at its wheels meanwhile, the
    first look one unit of the wheel's time after the deadline has the task woken
    since the poll began, and finds the sleep over: any poll with budget left is
    ready from then on. *)
Theorem sleeping_task_is_woken_in_time (th : Thread) (l l' : list Act) (s s1 s2 : Sys) (id : Z) (cx : Waker) (t : Timer) :
  acts l (sys_start th) = Some s -> sleeps s !! id = Some t ->
  act (Polls id cx) s = Some (Some Pending, s1) ->
  Forall (fun a => of_sleep a <> Some id) l' -> acts l' s1 = Some s2 ->
  nanos t + NANOS / per_second (grain t) <= now (world s2) -> calls l + calls l' + 6 < 2 ^ 64 ->
  exists s3, act Fires s2 = Some (None, s3) /\
    cx ∈ drop (length (woken (thread (world s)))) (woken (thread (world s3))) /\
    (1 <= budget (thread (world s3)) -> forall cx', exists s4, act (Polls id cx') s3 = Some (Some (Ready tt), s4)).
Proof.
  intros E Ht Ep Hl' E' Hdue Hn. pose proof (vlen_nonneg l'). unfold calls in Hn. fold (calls l) in Hn.
  pose proof (reached th l s E ltac:(lia)) as Hs. assert (Hs1 := sleep_act_ok _ (Polls id cx) s Hs ltac:(lia)). rewrite Ep in Hs1.
  destruct Hs1 as (Hs1 & _). cbn in Ep. rewrite Ht in Ep.
  destruct (poll_ok _ s id t cx Hs ltac:(lia) Ht) as (p & t1 & w1 & Ew & _ & Hd1 & Hg1 & _ & _ & Hst & (more & Hm & Hp) & _).
  rewrite Ew in Ep. injection Ep as -> <-.
  assert (nanos t1 = nanos t) as Hn1 by (unfold nanos; by rewrite Hd1).
  assert (Hw : waits id t1 cx (length (woken (thread (world s)))) (put id t1 w1 s)).
  { split; [apply lookup_insert_eq |]. cbn. rewrite Hm. split; [rewrite length_app; lia |]. rewrite drop_app_length.
    rewrite Hg1, Hn1. by destruct Hp; [left | right]. }
  pose proof (waits_acts _ id t1 cx _ l' _ s2 Hs1 ltac:(unfold calls in *; lia) Hl' Hw E') as Hw2.
  destruct (sleep_acts_ok _ l' _ s2 Hs1 ltac:(unfold calls in *; lia) E') as (Hs2 & _).
  destruct (look_wakes _ id t1 cx _ s2 Hs2 ltac:(unfold calls in *; lia) Hw2 Hst) as (s3 & E3 & Hs3 & Ht3 & Hc & Ho).
  { rewrite Hg1, Hn1. by apply units_in_time. }
  exists s3. split; [done |]. split; [done |]. intros Hb cx'. cbn. rewrite Ht3.
  destruct (poll_ok _ s3 id t1 cx' Hs3 ltac:(unfold calls in *; lia) Ht3) as (p & t4 & w4 & -> & _ & _ & _ & _ & _ & _ & _ & Hr).
  rewrite Hr by done. by eexists.
Qed.

(** A look wakes nobody else: every waker it wakes is that of a sleep that is
    still there, pending, with its deadline reached; a sleep that was dropped or
    moved wakes nobody. *)
Theorem look_wakes_only_due_sleeps (th : Thread) (l : list Act) (s : Sys) :
  acts l (sys_start th) = Some s -> calls l + 2 < 2 ^ 64 ->
  exists s' out, act Fires s = Some (None, s') /\ woken (thread (world s')) = woken (thread (world s)) ++ out /\
    forall wk, wk ∈ out -> exists id t k, sleeps s !! id = Some t /\ state t = Local k /\
      timer (wheel_of (grain t) (world s)) k = Some (time_of (grain t) (nanos t), Some wk) /\ nanos t <= now (world s).
Proof.
  intros E Hl. pose proof (reached th l s E ltac:(lia)) as Hs.
  destruct (fire_timers_ok _ s Hs Hl) as (w' & out & E' & _ & _ & Hw & _ & Ho & _). cbn. rewrite E'.
  eexists _, out. split; [done |]. split; [done |]. intros wk Hwk. destruct (Ho wk Hwk) as (p & k & at_ & Ha & Hd).
  destruct (ok_owned _ _ Hs p k _ Ha) as (id & t & Ht & Hk & Hg). exists id, t, k. split; [done |]. split; [done |].
  pose proof (ok_sleeps _ _ Hs id t Ht) as Hst. unfold sleep_ok in Hst. rewrite Hk, Hg in Hst. rewrite Hg.
  unfold armed_as in *. destruct Hst as [(wk' & Hst)|Hst]; [| apply fired_stale in Hst; congruence].
  rewrite Ha in Hst. injection Hst as Eat _. rewrite Eat in *. split; [done |].
  apply (units_reached p); [apply Hs | exact Hd].
Qed.

(** ** An example *)

(** A sleep of three milliseconds and one of two microseconds, the second dropped. *)
Definition two_sleeps : list Act :=
  [Sleeps 1 false 0 3000000; Sleeps 2 true 0 2000; Polls 2 20].

Definition rest_of_it : list Act := [Passes 1000; Polls 2 21; Fires; Drops 2; Passes 4000000].

Definition at_start : Sys := sys_start thread_new.

Definition then_ (l : list Act) (s : Sys) : Sys := default s (acts l s).

Lemma sleep_never_ends_early_witness :
  exists s', act (Polls 1 10) (then_ (two_sleeps ++ rest_of_it) at_start) = Some (Some (Ready tt), s') /\
    exists id cx t, Polls 1 10 = Polls id cx /\ sleeps (then_ (two_sleeps ++ rest_of_it) at_start) !! id = Some t /\
      Z.min (deadline t) u64_max <= now (world (then_ (two_sleeps ++ rest_of_it) at_start)).
Proof.
  pose proof (sleep_never_ends_early thread_new (two_sleeps ++ rest_of_it) (Polls 1 10)
    (then_ (two_sleeps ++ rest_of_it) at_start) ltac:(vm_compute; reflexivity) ltac:(vm_compute; reflexivity)) as Hk.
  destruct (act _ _) as [[ans s']|] eqn:E; [| vm_compute in E; discriminate E].
  assert (ans = Some (Ready tt)) as -> by (vm_compute in E; injection E as <- _; reflexivity). exists s'. split; [reflexivity | exact Hk].
Defined.

Lemma sleeping_task_is_woken_in_time_witness :
  exists s3, act Fires (then_ (Polls 1 10 :: rest_of_it) (then_ two_sleeps at_start)) = Some (None, s3) /\
    10 ∈ drop 0 (woken (thread (world s3))).
Proof.
  destruct (sleeping_task_is_woken_in_time thread_new two_sleeps rest_of_it (then_ two_sleeps at_start)
    (then_ [Polls 1 10] (then_ two_sleeps at_start)) (then_ (Polls 1 10 :: rest_of_it) (then_ two_sleeps at_start)) 1 10
    {| deadline_of := Nanos 3000000; state := Idle; grain := false |}) as (s3 & E & Hin & _);
    [vm_compute; reflexivity .. | | vm_compute; reflexivity | vm_compute; discriminate | vm_compute; reflexivity |].
  - repeat constructor; discriminate.
  - exists s3. split; [exact E | exact Hin].
Defined.

Lemma look_wakes_only_due_sleeps_witness :
  exists s' out, act Fires (then_ (two_sleeps ++ rest_of_it) at_start) = Some (None, s') /\
    woken (thread (world s')) = woken (thread (world (then_ (two_sleeps ++ rest_of_it) at_start))) ++ out.
Proof.
  destruct (look_wakes_only_due_sleeps thread_new (two_sleeps ++ rest_of_it) (then_ (two_sleeps ++ rest_of_it) at_start))
    as (s' & out & E & Hw & _); [vm_compute; reflexivity .. |]. exists s', out. split; [exact E | exact Hw].
Defined.
