(* ===== verification/Interval.v ===== *)
(** * Intervals and timeouts

    [time/interval.rs] and [time/timeout.rs] on the sleeps of a shard: a poll of
    an interval is a poll of its sleep and, when that is over, a reset of it to
    the next tick; a timeout polls its future before its sleep. *)

From S2P Require Import Prelude Coop Wheel WheelOps WheelSpec Streams Sleep SleepInv SleepSpec.
Open Scope Z_scope.

Inductive MissedTickBehavior : Type := Burst | Delay | Skip.

(** A period in nanoseconds. *)
Record Interval : Type := { period : Z; sleep : Timer; missed : MissedTickBehavior }.

Definition with_sleep (t : Timer) (i : Interval) : Interval := {| period := period i; sleep := t; missed := missed i |}.
Definition set_missed_tick_behavior (b : MissedTickBehavior) (i : Interval) : Interval :=
  {| period := period i; sleep := sleep i; missed := b |}.

Section interval.
(** The last instant of the clock. *)
Context (range : Z).

Definition checked_add (at_ d : Z) : option Z := if at_ + d <=? range then Some (at_ + d) else None.

(** [interval_at], and [interval], which starts now. *)
Definition interval_at (start period : Z) : option Interval :=
  if 0 <? period then Some {| period := period; sleep := timer_new false start; missed := Burst |} else None.
Definition interval (period : Z) (w : World) : option Interval := interval_at (now w) period.

(** [nanos_duration]. *)
Definition nanos_duration (n : Z) : Z := Z.min (n / NANOS) u64_max * NANOS + n mod NANOS.

(** The next tick after one that was due at [due]. *)
Definition next_tick (b : MissedTickBehavior) (period due now : Z) : option (option Z) :=
  match b with
  | Burst => Some (checked_add due period)
  | Delay => Some (checked_add now period)
  | Skip =>
      let late := Z.max 0 (now - due) in
      let into := late mod period in
      let* left := sub64 period (nanos_duration into) in
      Some (checked_add (Z.max now due) left)
  end.

(** [poll_tick]. *)
Definition poll_tick (cx : Waker) (i : Interval) (w : World) : option (Poll Z * Interval * World) :=
  let* (p, t, w) := timer_poll cx (sleep i) w in
  match p with
  | Pending => Some (Pending, with_sleep t i, w)
  | Ready _ =>
      let due := deadline t in
      let* next := next_tick (missed i) (period i) due (now w) in
      let* (t, w) := timer_reset (default (far_future w) next) t w in
      Some (Ready due, with_sleep t i, w)
  end.

(** [Interval::reset]. *)
Definition interval_reset (i : Interval) (w : World) : option (Interval * World) :=
  let* (t, w) := timer_reset (default (far_future w) (checked_add (now w) (period i))) (sleep i) w in
  Some (with_sleep t i, w).

(** Where the next tick belongs, by what the interval does with missed ticks. *)
Definition on_schedule (b : MissedTickBehavior) (period due now next : Z) : Prop :=
  match b with
  | Burst => next = due + period
  | Delay => next = now + period
  | Skip => Z.max now due < next <= Z.max now due + period /\ exists k, 0 < k /\ next = due + k * period
  end.

(** What a [Duration] can hold. *)
Definition duration_ok (n : Z) : Prop := 0 <= n < u64_size * NANOS.

Lemma nanos_duration_id n : duration_ok n -> nanos_duration n = n.
Proof.
  unfold duration_ok, nanos_duration, NANOS. intros Hn. pose proof (Z.div_mod n 1000000000 ltac:(lia)) as E.
  assert (n / 1000000000 < u64_size) by (apply Z.div_lt_upper_bound; lia). unfold u64_max, u64_size in *. rewrite Z.min_l by lia. lia.
Qed.

(** The next tick, unless it is beyond the clock. *)
Lemma next_tick_ok b period due now :
  0 < period -> duration_ok period ->
  exists at_, next_tick b period due now = Some (if at_ <=? range then Some at_ else None) /\ on_schedule b period due now at_.
Proof.
  intros Hp Hd. unfold next_tick, checked_add. destruct b; [by eexists | by eexists |].
  set (late := Z.max 0 (now - due)). pose proof (Z.mod_pos_bound late period ltac:(lia)) as Hm.
  rewrite nanos_duration_id by (unfold duration_ok in *; lia). rewrite sub64_Some by lia. eexists. split; [done |].
  cbn. split; [lia |]. exists (late / period + 1). pose proof (Z.div_mod late period ltac:(lia)) as E.
  pose proof (Z.div_pos late period ltac:(lia) ltac:(lia)). split; [lia |].
  assert (Z.max now due = due + late) by lia. lia.
Qed.

(** C34. An interval's poll is a poll of its sleep and a reset, so all that holds
    of sleeps holds of it: it never ticks early; a tick answers when it was due
    and moves the sleep to the next one, on the schedule: a period after the tick,
    or after now, or, for an interval that skips, the first one of the schedule
    after now. Only where that lies beyond the last instant of the clock is it
    thirty years from now instead. It never panics, however late it is. *)
Theorem interval_keeps_its_schedule (th : Thread) (l : list Act) (s : Sys) (id : Z) (cx : Waker) (i : Interval) :
  acts l (sys_start th) = Some s -> calls l + 4 < 2 ^ 64 -> sleeps s !! id = Some (sleep i) ->
  0 < period i -> duration_ok (period i) ->
  match poll_tick cx i (world s) with
  | None => False
  | Some (Pending, i', w') =>
      act (Polls id cx) s = Some (Some Pending, put id (sleep i') w' s) /\ deadline (sleep i') = deadline (sleep i)
  | Some (Ready due, i', w') =>
      due = deadline (sleep i) /\ Z.min due u64_max <= now (world s) /\
      exists at_ next, acts [Polls id cx; Resets id next] s = Some (put id (sleep i') w' s) /\ deadline (sleep i') = next /\
        on_schedule (missed i) (period i) due (now (world s)) at_ /\
        next = if at_ <=? range then at_ else now (world s) + 86400 * 365 * 30 * NANOS
  end.
Proof.
  intros E Hl Hid Hp Hpd. pose proof (reached th l s E ltac:(lia)) as Hs. unfold poll_tick.
  destruct (poll_ok _ s id (sleep i) cx Hs ltac:(lia) Hid) as (p & t' & w' & Ep & Hok & Hd & Hg & Hnow & _ & _ & (more & _ & Hr) & _).
  assert (deadline t' = deadline (sleep i)) as Hdl by (unfold deadline; by rewrite Hd).
  rewrite Ep. destruct p as [[]|]; [| split; [cbn; by rewrite Hid, Ep | done]].
  destruct (next_tick_ok (missed i) (period i) (deadline t') (now w') Hp Hpd) as (at_ & -> & Hnext).
  unfold timer_reset. destruct (timer_release_ok _ _ id t' Hok ltac:(lia) ltac:(apply lookup_insert_eq)) as (w2 & Er & _ & _ & Hnow2 & _).
  cbn [put world] in Er, Hnow2. rewrite Er. cbn [sleep with_sleep]. rewrite Hdl in *. split; [done |].
  split; [unfold nanos, deadline, clock_nanos in *; destruct (deadline_of (sleep i)); lia |].
  exists at_. eexists. split; [| split; [done | split; [by rewrite <- Hnow |]]].
  - cbn [acts act]. rewrite Hid, Ep. cbn [acts act put sleeps world]. rewrite lookup_insert_eq. unfold timer_reset. rewrite Er.
    cbn [acts put world sleeps]. unfold put. cbn. by rewrite insert_insert_eq.
  - unfold far_future. rewrite Hnow. by destruct (at_ <=? range).
Qed.
End interval.

(** ** Timeouts *)

Section timeout.
Context {F T : Type} (poll : Waker -> F -> World -> option (Poll T * F * World)).

Record Timeout : Type := { future : F; limit_ : Timer }.

Definition timeout (secs nanos : Z) (f : F) (w : World) : Timeout := {| future := f; limit_ := timer_after false secs nanos w |}.
Definition timeout_at (at_ : Z) (f : F) : Timeout := {| future := f; limit_ := timer_new false at_ |}.

(** A poll: [None] in the result is [Elapsed]. *)
Definition poll_timeout (cx : Waker) (x : Timeout) (w : World) : option (Poll (option T) * Timeout * World) :=
  let* (p, f, w) := poll cx (future x) w in
  match p with
  | Ready out => Some (Ready (Some out), {| future := f; limit_ := limit_ x |}, w)
  | Pending =>
      let* (q, t, w) := timer_poll cx (limit_ x) w in
      let x := {| future := f; limit_ := t |} in
      match q with
      | Ready _ => Some (Ready None, x, w)
      | Pending => Some (Pending, x, w)
      end
  end.

(** The future is looked at first: its output is answered however late it is. The
    time ran out only if the future is not done and the deadline was reached. *)
Lemma timeout_ok n m id cx x w p f w1 :
  poll cx (future x) w = Some (p, f, w1) -> ok n {| world := w1; sleeps := m |} -> n + 1 < 2 ^ 64 -> m !! id = Some (limit_ x) ->
  exists r x' w', poll_timeout cx x w = Some (r, x', w') /\
  match p, r with
  | Ready out, Ready (Some out') => out' = out
  | Pending, Ready None => Z.min (deadline (limit_ x)) u64_max <= now w1
  | Pending, Pending => True
  | _, _ => False
  end.
Proof using.
  intros E Hs Hn Hid. unfold poll_timeout. rewrite E. destruct p as [out|]; [by eexists _, _, _ |].
  destruct (poll_ok n {| world := w1; sleeps := m |} id (limit_ x) cx Hs Hn Hid) as (q & t' & w' & Eq & _ & _ & _ & _ & _ & _ & (more & _ & Hr) & _).
  cbn [world] in *. rewrite Eq. destruct q as [[]|]; eexists _, _, _; (split; [done |]); [| done].
  unfold nanos, deadline, clock_nanos in *. destruct (deadline_of (limit_ x)); lia.
Qed.
End timeout.

(** ** An example *)

(** An interval of three milliseconds that skips, polled ten late. *)
Definition late_interval : Interval := {| period := 3000000; sleep := timer_new false 1000000; missed := Skip |}.

Definition late_shard : list Act := [SleepsUntil 1 false 1000000; Passes 11000000].

Lemma interval_keeps_its_schedule_witness :
  exists i' w', poll_tick (2 ^ 80) 9 late_interval (world (then_ late_shard at_start)) = Some (Ready 1000000, i', w') /\
    on_schedule Skip 3000000 1000000 11000000 (deadline (sleep i')).
Proof.
  pose proof (interval_keeps_its_schedule (2 ^ 80) thread_new late_shard (then_ late_shard at_start) 1 9 late_interval
    ltac:(vm_compute; reflexivity) ltac:(vm_compute; reflexivity) ltac:(vm_compute; reflexivity) ltac:(reflexivity)
    ltac:(vm_compute; split; [discriminate | reflexivity])) as Hk.
  destruct (poll_tick _ _ _ _) as [[[[due|] i'] w']|] eqn:E; [| vm_compute in E; discriminate E ..].
  destruct Hk as (-> & _ & at_ & next & _ & Hd & Hon & Hn).
  assert (En : now (world (then_ late_shard at_start)) = 11000000) by (vm_compute; reflexivity).
  rewrite En in Hon. change (on_schedule Skip 3000000 1000000 11000000 at_) in Hon. exists i', w'. split; [reflexivity |]. rewrite Hd, Hn.
  destruct (Z.leb_spec at_ (2 ^ 80)) as [_ | Hb]; [exact Hon |]. exfalso. cbn in Hon. lia.
Defined.
