(* ===== verification/Inbox.v ===== *)
(** * A shard's inbox and its park

    [rt/inbox.rs], [rt/handshake.rs] and what [rt/shard.rs] does with them: the
    queue other threads push runnables through, linked through the tasks
    themselves; the handshake by which a shard goes to sleep; and the drains of
    a shard that stopped. Each call is a small program whose steps are the
    single atomic operations on the shared words and the links. A link is known
    to the memory while its item is in the queue's hands: a step that follows a
    link of an item that was handed out dangles. *)

From S2P Require Import Prelude.
Open Scope Z_scope.

(** ** The queue *)

Definition Link : Type := Z.

(** The queue's own node; an item's link is any other. *)
Definition stub : Link := 0.

Record Inbox : Type := {
  head : Link;
  tail : Link;
  next : gmap Z (option Link);
  taken : bool;
}.

Definition new : Inbox := {| head := stub; tail := stub; next := {[stub := None]}; taken := true |}.

Definition set_head x i := {| head := x; tail := tail i; next := next i; taken := taken i |}.
Definition set_tail x i := {| head := head i; tail := x; next := next i; taken := taken i |}.
Definition set_next x i := {| head := head i; tail := tail i; next := x; taken := taken i |}.
Definition set_taken x i := {| head := head i; tail := tail i; next := next i; taken := x |}.

(** The [next] of a link: [None] where the link is no longer the queue's to follow. *)
Definition load_next (l : Link) (i : Inbox) : option (option Link) := next i !! l.
Definition store_next (l : Link) (x : option Link) (i : Inbox) : option Inbox :=
  if bool_decide (is_Some (next i !! l)) then Some (set_next (<[l := x]> (next i)) i) else None.

(** [into_link]: the item's link becomes the queue's; [from_link] gives it back. *)
Definition into_link (l : Link) (i : Inbox) : Inbox := set_next (<[l := None]> (next i)) i.
Definition from_link (l : Link) (i : Inbox) : Inbox := set_next (delete l (next i)) i.

(** *** Pushing *)

(** Where [push_link] is: about to clear the link, to swap it in as the head,
    to link the old head to it. *)
Inductive Push : Type :=
| PushClear (l : Link)
| PushSwap (l : Link)
| PushLink (l prev : Link).

Definition push_step (p : Push) (i : Inbox) : option (Inbox * option Push) :=
  match p with
  | PushClear l => i ← store_next l None i; Some (i, Some (PushSwap l))
  | PushSwap l => Some (set_head l i, Some (PushLink l (head i)))
  | PushLink l prev => i ← store_next prev (Some l) i; Some (i, None)
  end.

(** *** Taking *)

Definition is_empty (i : Inbox) : bool := head i =? stub.
Definition is_drained (i : Inbox) : bool := (tail i =? stub) && is_empty i.

Inductive Pop : Type :=
| Item (l : Link)
| Empty
| Busy.

(** Where [pop] is: at the taker's end, to look whether the queue is empty, to
    read the next item's link, to look whether the item is the last, to put the
    stub behind it, to read its link again. *)
Inductive Popping : Type :=
| PopTail
| PopEmpty
| PopNext (cur : Link)
| PopHead (cur : Link)
| PopStub (cur : Link) (p : Push)
| PopLast (cur : Link).

(** The taker's end moves past [cur], which is handed out. *)
Definition hand_out (cur n : Link) (i : Inbox) : Inbox * (Popping + Pop) :=
  (from_link cur (set_tail n i), inr (Item cur)).

Definition pop_step (p : Popping) (i : Inbox) : option (Inbox * (Popping + Pop)) :=
  match p with
  | PopTail =>
      let cur := tail i in
      n ← load_next cur i;
      if cur =? stub then
        match n with
        | None => Some (i, inl PopEmpty)
        | Some n => Some (set_tail n i, inl (PopNext n))
        end
      else
        match n with
        | Some n => Some (hand_out cur n i)
        | None => Some (i, inl (PopHead cur))
        end
  | PopEmpty => Some (i, inr (if is_empty i then Empty else Busy))
  | PopNext cur =>
      n ← load_next cur i;
      match n with
      | Some n => Some (hand_out cur n i)
      | None => Some (i, inl (PopHead cur))
      end
  | PopHead cur =>
      if cur =? head i then Some (i, inl (PopStub cur (PushClear stub))) else Some (i, inr Busy)
  | PopStub cur p =>
      '(i, p) ← push_step p i;
      match p with
      | Some p => Some (i, inl (PopStub cur p))
      | None => Some (i, inl (PopLast cur))
      end
  | PopLast cur =>
      n ← load_next cur i;
      match n with
      | Some n => Some (hand_out cur n i)
      | None => Some (i, inr Busy)
      end
  end.

(** [try_take]: the taker's role, if nobody holds it. *)
Definition try_take (i : Inbox) : Inbox * bool :=
  if taken i then (i, false) else (set_taken true i, true).
Definition release (i : Inbox) : Inbox := set_taken false i.

(** ** The shard others see *)

Record Shared : Type := {
  inbox : Inbox;
  parked : bool;
  stopped : bool;
  released : bool;
  woken : bool;       (** the signal of the future the loop runs *)
  notified : bool;    (** a wake left on the shard's poller *)
}.

Definition set_inbox x c := {| inbox := x; parked := parked c; stopped := stopped c;
  released := released c; woken := woken c; notified := notified c |}.
Definition set_parked x c := {| inbox := inbox c; parked := x; stopped := stopped c;
  released := released c; woken := woken c; notified := notified c |}.
Definition set_stopped x c := {| inbox := inbox c; parked := parked c; stopped := x;
  released := released c; woken := woken c; notified := notified c |}.
Definition set_released x c := {| inbox := inbox c; parked := parked c; stopped := stopped c;
  released := x; woken := woken c; notified := notified c |}.
Definition set_woken x c := {| inbox := inbox c; parked := parked c; stopped := stopped c;
  released := released c; woken := x; notified := notified c |}.
Definition set_notified x c := {| inbox := inbox c; parked := parked c; stopped := stopped c;
  released := released c; woken := woken c; notified := x |}.

(** [ParkState::wake]: the load, the swap, the notification. *)
Inductive Waking : Type := WakeLoad | WakeSwap | WakeNotify.

Definition wake_step (w : Waking) (c : Shared) : Shared * option Waking :=
  match w with
  | WakeLoad => (c, if parked c then Some WakeSwap else None)
  | WakeSwap => (set_parked false c, if parked c then Some WakeNotify else None)
  | WakeNotify => (set_notified true c, None)
  end.

(** [ParkState::begin_park] with the shard's look for work, the sleep, and
    [end_park]. The look reads both ends of the inbox, then the signal. *)
Inductive Parking : Type := ParkStore | ParkLook | ParkLookWoken | ParkBack | Asleep | ParkEnd.

Definition begin_park_step (k : Parking) (c : Shared) : Shared * option Parking :=
  match k with
  | ParkStore => (set_parked true c, Some ParkLook)
  | ParkLook => (c, Some (if is_drained (inbox c) then ParkLookWoken else ParkBack))
  | ParkLookWoken => (c, Some (if woken c then ParkBack else Asleep))
  | ParkBack => (set_parked false c, None)
  | Asleep => (set_notified false c, Some ParkEnd)
  | ParkEnd => (set_parked false c, None)
  end.

(** [drop_stopped]: the role, the drain, letting go, the look after. *)
Inductive Dropping : Type := DropTry | DropPop (p : Popping) | DropRelease | DropLook.

(** [settled], without the count of writes; then [is_idle]. *)
Inductive Settling : Type := SettledReleased | IdleTaken | IdleHead.

Definition settled_step (q : Settling) (c : Shared) : Settling + bool :=
  match q with
  | SettledReleased => if released c then inl IdleTaken else inr true
  | IdleTaken => if taken (inbox c) then inr false else inl IdleHead
  | IdleHead => inr (is_empty (inbox c))
  end.

(** ** The threads *)

(** Where a thread is. The shard's own thread runs, pops, parks and goes; any
    other is in [push_remote], in [Signal::wake_by_ref], in [stop], or asks
    whether the shard settled. *)
Inductive Pc : Type :=
| Pushes (p : Push)
| SeesStopped
| Wakes (w : Waking)
| Drops (d : Dropping)
| Signals
| Stops
| Settles (q : Settling)
| Runs
| Pops (p : Popping)
| Parks (k : Parking)
| Releases (d : Dropping)
| Released
| Gone.

#[export] Instance push_eq_dec : EqDecision Push.
Proof. solve_decision. Defined.
#[export] Instance popping_eq_dec : EqDecision Popping.
Proof. solve_decision. Defined.
#[export] Instance dropping_eq_dec : EqDecision Dropping.
Proof. solve_decision. Defined.
#[export] Instance waking_eq_dec : EqDecision Waking.
Proof. solve_decision. Defined.
#[export] Instance parking_eq_dec : EqDecision Parking.
Proof. solve_decision. Defined.
#[export] Instance settling_eq_dec : EqDecision Settling.
Proof. solve_decision. Defined.
#[export] Instance pc_eq_dec : EqDecision Pc.
Proof. solve_decision. Defined.

Definition shard : Z := 0.

(** The system: the shared words, where each thread is; and, to speak of them,
    the items swapped into the queue and those handed out, in that order, and
    what was last said to each thread that asked. *)
Record Sys : Type := {
  shared : Shared;
  pcs : gmap Z Pc;
  pushed : list Link;
  handed : list Link;
  said : gmap Z bool;
}.

Definition with_shared x s := {| shared := x; pcs := pcs s; pushed := pushed s; handed := handed s; said := said s |}.
Definition with_pcs x s := {| shared := shared s; pcs := x; pushed := pushed s; handed := handed s; said := said s |}.
Definition with_pushed x s := {| shared := shared s; pcs := pcs s; pushed := x; handed := handed s; said := said s |}.
Definition with_handed x s := {| shared := shared s; pcs := pcs s; pushed := pushed s; handed := x; said := said s |}.
Definition with_said x s := {| shared := shared s; pcs := pcs s; pushed := pushed s; handed := handed s; said := x |}.

Definition with_inbox (i : Inbox) (s : Sys) : Sys := with_shared (set_inbox i (shared s)) s.
Definition box (s : Sys) : Inbox := inbox (shared s).

Definition start : Sys :=
  {| shared := {| inbox := new; parked := false; stopped := false; released := false; woken := true;
                  notified := false |};
     pcs := {[shard := Runs]}; pushed := []; handed := []; said := ∅ |}.

(** A thread goes on at [pc], or its call is over. *)
Definition goes (t : Z) (pc : option Pc) (s : Sys) : Sys :=
  with_pcs (match pc with Some pc => <[t := pc]> (pcs s) | None => delete t (pcs s) end) s.

(** An item is in the queue from its swap; the stub, which a pop pushes, is no item. *)
Definition note_push (p : Push) (s : Sys) : Sys :=
  match p with
  | PushSwap l => with_pushed (pushed s ++ [l]) s
  | _ => s
  end.
Definition note_pop (r : Popping + Pop) (s : Sys) : Sys :=
  match r with inr (Item l) => with_handed (handed s ++ [l]) s | _ => s end.

(** A step that cannot be taken, and one that follows a link the queue gave away. *)
Inductive Stop : Type := Disabled | Dangles.
Definition Step : Type := Result Sys Stop.

Definition or_dangles {A} (o : option A) : Result A Stop :=
  match o with Some a => Ok a | None => Err Dangles end.
Definition and_then {A B} (m : Result A Stop) (k : A -> Result B Stop) : Result B Stop :=
  match m with Ok a => k a | Err e => Err e end.

Declare Scope inbox_scope.
Notation "'let?' x := m 'in' k" := (and_then m (fun x => k))
  (at level 200, x pattern, m at level 100, k at level 200, right associativity) : inbox_scope.
Open Scope inbox_scope.

(** One step of a push by [t], which goes on at [k]. *)
Definition push_by (t : Z) (p : Push) (k : option Push -> Pc) (s : Sys) : Step :=
  let? (i, q) := or_dangles (push_step p (box s)) in
  Ok (goes t (Some (k q)) (note_push p (with_inbox i s))).

(** One step of a pop by [t]. *)
Definition pop_by (t : Z) (p : Popping) (k : Popping + Pop -> Pc) (s : Sys) : Step :=
  let? (i, r) := or_dangles (pop_step p (box s)) in
  Ok (goes t (Some (k r)) (note_pop r (with_inbox i s))).

(** [drain]: an item is dropped and the next one taken, a push under way waited
    for, until the queue is empty. *)
Definition drained (r : Popping + Pop) : Dropping :=
  match r with inl p => DropPop p | inr Empty => DropRelease | inr _ => DropPop PopTail end.

Definition drop_by (t : Z) (d : Dropping) (k : Dropping -> Pc) (last : option Pc) (s : Sys) : Step :=
  match d with
  | DropTry =>
      match try_take (box s) with
      | (i, true) => Ok (goes t (Some (k (DropPop PopTail))) (with_inbox i s))
      | (i, false) => Ok (goes t last (with_inbox i s))
      end
  | DropPop p => pop_by t p (fun r => k (drained r)) s
  | DropRelease => Ok (goes t (Some (k DropLook)) (with_inbox (release (box s)) s))
  | DropLook => Ok (goes t (if is_empty (box s) then last else Some (k DropTry)) s)
  end.

(** The next step of thread [t]. *)
Definition step (t : Z) (s : Sys) : Step :=
  match pcs s !! t with
  | Some (Pushes p) => push_by t p (fun q => match q with Some q => Pushes q | None => SeesStopped end) s
  | Some SeesStopped =>
      Ok (goes t (Some (if stopped (shared s) then Drops DropTry else Wakes WakeLoad)) s)
  | Some (Wakes w) =>
      let '(c, w) := wake_step w (shared s) in Ok (goes t (Wakes <$> w) (with_shared c s))
  | Some (Drops d) => drop_by t d Drops None s
  | Some Signals => Ok (goes t (Some (Wakes WakeLoad)) (with_shared (set_woken true (shared s)) s))
  | Some Stops => Ok (goes t (Some (Wakes WakeLoad)) (with_shared (set_stopped true (shared s)) s))
  | Some (Settles q) =>
      match settled_step q (shared s) with
      | inl q => Ok (goes t (Some (Settles q)) s)
      | inr b => Ok (goes t None (with_said (<[t := b]> (said s)) s))
      end
  | Some (Pops p) => pop_by t p (fun r => match r with inl p => Pops p | inr _ => Runs end) s
  | Some (Parks k) =>
      let '(c, k) := begin_park_step k (shared s) in
      Ok (goes t (Some (match k with Some k => Parks k | None => Runs end)) (with_shared c s))
  | Some (Releases d) => drop_by t d Releases (Some Released) s
  | Some Released => Ok (goes t (Some Gone) (with_shared (set_released true (shared s)) s))
  | Some Runs | Some Gone | None => Err Disabled
  end.

(** What the shard's thread does between tasks. *)
Inductive ShardCall : Type :=
| PopInbox
| Park
| PollFuture    (** the loop takes the signal and polls its future *)
| Drive         (** a look at the poller that does not wait takes a notification *)
| GoStop        (** the shard goes: it says that it stopped *)
| ReleaseInbox.

Definition shard_call (c : ShardCall) (s : Sys) : Step :=
  match c with
  | PopInbox => Ok (goes shard (Some (Pops PopTail)) s)
  | Park => Ok (goes shard (Some (Parks ParkStore)) s)
  | PollFuture => Ok (with_shared (set_woken false (shared s)) s)
  | Drive => Ok (with_shared (set_notified false (shared s)) s)
  | GoStop => Ok (with_shared (set_stopped true (shared s)) s)
  | ReleaseInbox =>
      if stopped (shared s) then Ok (goes shard (Some (Releases (DropPop PopTail))) s) else Err Disabled
  end.

(** What another thread calls. *)
Inductive Call : Type :=
| PushRemote (l : Link)
| WakeSignal
| StopShard
| Settled.

(** An item is pushed by who owns it: it is in no queue. *)
Definition call (t : Z) (c : Call) (s : Sys) : Step :=
  match c with
  | PushRemote l =>
      if bool_decide (next (box s) !! l = None)
      then Ok (goes t (Some (Pushes (PushClear l))) (with_inbox (into_link l (box s)) s))
      else Err Disabled
  | WakeSignal => Ok (goes t (Some Signals) s)
  | StopShard => Ok (goes t (Some Stops) s)
  | Settled => Ok (goes t (Some (Settles SettledReleased)) s)
  end.

Inductive Act : Type :=
| Calls (t : Z) (c : Call)
| ShardCalls (c : ShardCall)
| Steps (t : Z).

Definition act (a : Act) (s : Sys) : Step :=
  match a with
  | Calls t c => match pcs s !! t with None => call t c s | Some _ => Err Disabled end
  | ShardCalls c => match pcs s !! shard with Some Runs => shard_call c s | _ => Err Disabled end
  | Steps t => step t s
  end.

Fixpoint acts (l : list Act) (s : Sys) : Step :=
  match l with
  | [] => Ok s
  | a :: l => let? s := act a s in acts l s
  end.
