(* ===== verification/InboxInv.v ===== *)
(** * The inbox's queue, step by step

    The queue is a list of links from the taker's end to the pushers': the
    items swapped in and not handed out, and the stub where it lies. Two
    neighbours are linked, or the push that swapped the second in is about to
    link them. Every step of a push and of a pop keeps that, whatever the other
    threads are at, and follows no link that was given away. *)

From S2P Require Import Prelude Inbox.
Open Scope Z_scope.

(** ** Neighbours *)

Definition adj (q : list Link) (a b : Link) : Prop := exists q1 q2, q = q1 ++ a :: b :: q2.

Section adj.
Implicit Types (q : list Link) (a b x : Link).

Lemma adj_l q a b : adj q a b -> a ∈ q.
Proof. intros (q1 & q2 & ->). set_solver. Qed.
Lemma adj_r q a b : adj q a b -> b ∈ q.
Proof. intros (q1 & q2 & ->). set_solver. Qed.

Lemma adj_cons q x a b : adj q a b -> adj (x :: q) a b.
Proof. intros (q1 & q2 & ->). by exists (x :: q1), q2. Qed.

Lemma adj_first a b q : adj (a :: b :: q) a b.
Proof. by exists [], q. Qed.

Lemma adj_cons_inv q x a b : adj (x :: q) a b -> a <> x -> adj q a b.
Proof. intros ([|y q1] & q2 & E) Hne; simplify_eq/=. by exists q1, q2. Qed.

Lemma adj_first_inv a x b q : NoDup (a :: x :: q) -> adj (a :: x :: q) a b -> b = x.
Proof.
  intros Hn ([|y q1] & q2 & E); [by simplify_eq/= |]. injection E as <- E.
  exfalso. apply NoDup_cons in Hn as [Hn _]. apply Hn. rewrite E. set_solver.
Qed.

Lemma adj_snoc q a b x : adj q a b -> adj (q ++ [x]) a b.
Proof. intros (q1 & q2 & ->). exists q1, (q2 ++ [x]). by rewrite <- app_assoc. Qed.

Lemma adj_last q a x : last q = Some a -> adj (q ++ [x]) a x.
Proof. intros (q' & ->)%last_Some. exists q', []. by rewrite <- app_assoc. Qed.

Lemma adj_snoc_inv q a b x : adj (q ++ [x]) a b -> adj q a b \/ b = x /\ last q = Some a.
Proof.
  intros (q1 & q2 & E). destruct q2 as [|y q2] using rev_ind.
  - right. change (q1 ++ [a; b]) with (q1 ++ [a] ++ [b]) in E. rewrite app_assoc in E.
    apply app_inj_tail in E as [-> ->]. by rewrite last_snoc.
  - left. exists q1, q2. rewrite !app_comm_cons, app_assoc in E. by apply app_inj_tail in E as [-> _].
Qed.

Lemma not_adj_first q a x : NoDup (x :: q) -> ~ adj (x :: q) a x.
Proof.
  intros Hn ([|y q1] & q2 & E); injection E as -> E; apply NoDup_cons in Hn as [Hn _];
    apply Hn; rewrite E; set_solver.
Qed.

Lemma adj_unique q a b c : NoDup q -> adj q a b -> adj q a c -> b = c.
Proof.
  induction q as [|x q IH]; [by intros _ (q1 & q2 & E); destruct q1 |].
  intros Hn Hb Hc. destruct (decide (a = x)) as [-> | Hne].
  - destruct q as [|y q]; [by destruct Hb as ([|? []] & ? & ?) |].
    by rewrite (adj_first_inv _ _ _ _ Hn Hb), (adj_first_inv _ _ _ _ Hn Hc).
  - apply NoDup_cons in Hn as [_ Hn]. apply IH; [done | by eapply adj_cons_inv..].
Qed.

Lemma not_adj_end q a b : NoDup q -> last q = Some a -> ~ adj q a b.
Proof.
  intros Hn Hl (q1 & q2 & ->). rewrite last_app_cons, last_cons_cons in Hl.
  apply last_Some in Hl as (q' & Hl). apply NoDup_app in Hn as (_ & _ & Hn).
  apply NoDup_cons in Hn as [Hn _]. apply Hn. rewrite Hl. set_solver.
Qed.
End adj.

Create HintDb inbox.
#[export] Hint Resolve adj_l adj_r adj_cons adj_first adj_snoc adj_last : inbox.

(** ** The queue and the pushes under way *)

Definition plink (p : Push) : Link :=
  match p with PushClear l | PushSwap l | PushLink l _ => l end.

(** What a push under way has done to the queue [q]. *)
Definition push_ok (q : list Link) (i : Inbox) (p : Push) : Prop :=
  match p with
  | PushClear l => l ∉ q /\ is_Some (next i !! l)
  | PushSwap l => l ∉ q /\ next i !! l = Some None
  | PushLink l prev => adj q prev l /\ next i !! prev = Some None
  end.

Record queue_ok (q : list Link) (i : Inbox) (ps : gmap Z Push) : Prop := {
  q_nodup : NoDup q;
  q_tail : List.head q = Some (tail i);
  q_head : last q = Some (head i);
  q_end : next i !! head i = Some None;
  q_known : forall l, l ∈ q -> is_Some (next i !! l);
  q_stub : is_Some (next i !! stub);
  q_links : forall a b, adj q a b ->
    next i !! a = Some (Some b) \/
    next i !! a = Some None /\ exists t, ps !! t = Some (PushLink b a);
  q_pushes : forall t p, ps !! t = Some p -> push_ok q i p;
  q_apart : forall t t' p p', ps !! t = Some p -> ps !! t' = Some p' -> plink p = plink p' -> t = t';
}.

Definition becomes (t : Z) (p : option Push) (ps : gmap Z Push) : gmap Z Push :=
  match p with Some p => <[t := p]> ps | None => delete t ps end.

Lemma store_next_ok l x i : is_Some (next i !! l) -> store_next l x i = Some (set_next (<[l := x]> (next i)) i).
Proof. intros H. unfold store_next. by rewrite bool_decide_true. Qed.

Section queue.
Context (q : list Link) (i : Inbox) (ps : gmap Z Push) (Q : queue_ok q i ps).

(** No push under way has the link of another, nor waits behind the queue's end. *)
Lemma other_link t t' p p' : ps !! t = Some p -> ps !! t' = Some p' -> t <> t' -> plink p <> plink p'.
Proof using Q. intros H H' Hne E. apply Hne. by eapply (q_apart _ _ _ Q). Qed.

Lemma link_known t p : ps !! t = Some p -> is_Some (next i !! plink p).
Proof using Q.
  intros H. pose proof (q_pushes _ _ _ Q _ _ H) as Hp. destruct p; cbn in *; destruct Hp as [? ?]; [done | by eexists |].
  eapply (q_known _ _ _ Q), adj_r. done.
Qed.

Lemma prev_known t l prev : ps !! t = Some (PushLink l prev) -> is_Some (next i !! prev).
Proof using Q. intros H. apply (q_pushes _ _ _ Q) in H as [_ H]. by eexists. Qed.
End queue.

(** ** The steps of a push *)

Section pushing.
Context (q : list Link) (i : Inbox) (ps : gmap Z Push) (Q : queue_ok q i ps) (t : Z).

(** A write to a link nobody reads, or to the queue's own, leaves the rest as it was. *)
Lemma push_ok_insert l x p :
  push_ok q i p -> plink p <> l -> (forall m, p = PushLink m l -> x = None) ->
  push_ok q (set_next (<[l := x]> (next i)) i) p.
Proof using Type.
  destruct p as [m | m | m prev]; cbn; intros [H1 H2] Hne Hx; (split; [done |]).
  - by rewrite lookup_insert_ne.
  - by rewrite lookup_insert_ne.
  - destruct (decide (l = prev)) as [-> | Hp]; [| by rewrite lookup_insert_ne].
    by rewrite lookup_insert_eq, (Hx m).
Qed.

Lemma q_links_becomes l p (a b : Link) :
  l ∉ q -> (exists t', ps !! t' = Some (PushLink b a)) -> adj q a b ->
  ps !! t = None \/ (exists p0, ps !! t = Some p0 /\ plink p0 = l) ->
  exists t', <[t := p]> ps !! t' = Some (PushLink b a).
Proof using Type.
  intros Hl (t' & Ht') Hadj Hown. exists t'. rewrite lookup_insert_ne; [done |]. intros <-.
  destruct Hown as [Hn | (p0 & H0 & Hl0)]; [congruence |].
  apply Hl. rewrite Ht' in H0. injection H0 as <-. cbn in Hl0. subst. by eapply adj_r.
Qed.

(** An item enters: its link is the queue's to clear. *)
Lemma push_enter l :
  ps !! t = None -> next i !! l = None -> queue_ok q (into_link l i) (<[t := PushClear l]> ps).
Proof using Q.
  intros Ht Hl. destruct Q as [Q1 Q2 Q3 Q4 Q5 Q6 Q7 Q8 Q9].
  assert (Hq : l ∉ q) by (intros [y Hy]%Q5; congruence).
  assert (Hne : forall m, is_Some (next i !! m) -> m <> l) by (intros m [y Hy] ->; congruence).
  split; try done; cbn.
  - rewrite lookup_insert_ne; [done |]. symmetry. apply Hne. by eexists.
  - intros m Hm. rewrite lookup_insert_ne; [by apply Q5 |]. symmetry. by apply Hne, Q5.
  - rewrite lookup_insert_ne; [done |]. symmetry. by apply Hne.
  - intros a b Hab. rewrite lookup_insert_ne by (symmetry; apply Hne, Q5; eauto with inbox).
    destruct (Q7 a b Hab) as [H | [H Hp]]; [by left | right; split; [done |]].
    eapply q_links_becomes; eauto.
  - intros t' p [[-> <-] | [Hne' Hp]]%lookup_insert_Some.
    + split; [done |]. cbn. rewrite lookup_insert_eq. by eexists.
    + pose proof (link_known _ _ _ Q _ _ Hp). apply push_ok_insert; [by eapply Q8 | by apply Hne | done].
  - intros t1 t2 p1 p2 [[<- <-] | [H1 H1']]%lookup_insert_Some [[<- <-] | [H2 H2']]%lookup_insert_Some E;
      [done | exfalso | exfalso | by eapply Q9].
    + eapply Hne; [eapply (link_known _ _ _ Q); exact H2' | by rewrite <- E].
    + eapply Hne; [eapply (link_known _ _ _ Q); exact H1' | done].
Qed.

(** A push's own link, still out of the queue, is cleared. *)
Lemma push_clear l :
  ps !! t = Some (PushClear l) ->
  queue_ok q (set_next (<[l := None]> (next i)) i) (<[t := PushSwap l]> ps).
Proof using Q.
  intros Ht. destruct Q as [Q1 Q2 Q3 Q4 Q5 Q6 Q7 Q8 Q9].
  destruct (Q8 _ _ Ht) as [Hq Hl].
  assert (Hne : forall m, m ∈ q -> l <> m) by (by intros m Hm ->).
  assert (Hother : forall t' p, t <> t' -> ps !! t' = Some p -> l <> plink p).
  { intros t' p Htt Hp E. apply Htt. by eapply Q9. }
  split; try done; cbn.
  - rewrite lookup_insert_ne; [done |]. apply Hne. apply last_Some in Q3 as [q' ->]. set_solver.
  - intros m Hm. rewrite lookup_insert_ne; [by apply Q5 | by apply Hne].
  - destruct (decide (l = stub)) as [-> | Hs]; [rewrite lookup_insert_eq; by eexists |].
    by rewrite lookup_insert_ne.
  - intros a b Hab. rewrite lookup_insert_ne by (apply Hne; eauto with inbox).
    destruct (Q7 a b Hab) as [H | [H Hp]]; [by left | right; split; [done |]].
    eapply q_links_becomes; eauto.
  - intros t' p [[-> <-] | [Htt Hp]]%lookup_insert_Some.
    + split; [done |]. cbn. by rewrite lookup_insert_eq.
    + apply push_ok_insert; [by eapply Q8 | apply not_eq_sym; by eapply Hother | done].
  - intros t1 t2 p1 p2 [[<- <-] | [H1 H1']]%lookup_insert_Some [[<- <-] | [H2 H2']]%lookup_insert_Some E;
      [done | | | by eapply Q9].
    + by eapply (Q9 _ _ (PushClear l)).
    + by eapply (Q9 _ _ _ (PushClear l)).
Qed.

(** The swap: the queue is longer by one, linked to the rest in a moment. *)
Lemma push_swap l :
  ps !! t = Some (PushSwap l) ->
  queue_ok (q ++ [l]) (set_head l i) (<[t := PushLink l (head i)]> ps).
Proof using Q.
  intros Ht. destruct Q as [Q1 Q2 Q3 Q4 Q5 Q6 Q7 Q8 Q9].
  destruct (Q8 _ _ Ht) as [Hq Hl].
  split; cbn.
  - apply NoDup_app. split; [done |]. split; [set_solver | apply NoDup_singleton].
  - by destruct q.
  - by rewrite last_snoc.
  - done.
  - intros m [Hm | ->%list_elem_of_singleton]%elem_of_app; [by apply Q5 | by eexists].
  - done.
  - intros a b [Hab | [-> E]]%adj_snoc_inv.
    + destruct (Q7 a b Hab) as [H | [H Hp]]; [by left | right; split; [done |]].
      eapply q_links_becomes; eauto.
    + rewrite Q3 in E. injection E as <-. right. split; [done |]. exists t. by rewrite lookup_insert_eq.
  - intros t' p [[-> <-] | [Htt Hp]]%lookup_insert_Some; [split; [by apply adj_last | done] |].
    pose proof (Q8 _ _ Hp) as Hok. assert (plink p <> l) by (intros E; apply Htt; by eapply Q9).
    destruct p as [m | m | m prev]; cbn in *; destruct Hok; (split; [| done]); [set_solver.. | by apply adj_snoc].
  - intros t1 t2 p1 p2 [[<- <-] | [H1 H1']]%lookup_insert_Some [[<- <-] | [H2 H2']]%lookup_insert_Some E;
      [done | | | by eapply Q9].
    + by eapply (Q9 _ _ (PushSwap l)).
    + by eapply (Q9 _ _ _ (PushSwap l)).
Qed.

(** The link: the push is over. *)
Lemma push_link l prev :
  ps !! t = Some (PushLink l prev) ->
  queue_ok q (set_next (<[prev := Some l]> (next i)) i) (delete t ps).
Proof using Q.
  intros Ht. destruct Q as [Q1 Q2 Q3 Q4 Q5 Q6 Q7 Q8 Q9].
  destruct (Q8 _ _ Ht) as [Hadj Hprev].
  split; try done; cbn.
  - rewrite lookup_insert_ne; [done |]. intros ->. by eapply not_adj_end.
  - intros m Hm. destruct (decide (prev = m)) as [-> | Hne]; [rewrite lookup_insert_eq; by eexists |].
    rewrite lookup_insert_ne by done. by apply Q5.
  - destruct (decide (prev = stub)) as [-> | Hne]; [rewrite lookup_insert_eq; by eexists |].
    by rewrite lookup_insert_ne.
  - intros a b Hab. destruct (decide (prev = a)) as [<- | Hne].
    + rewrite lookup_insert_eq. left. by rewrite (adj_unique q prev l b).
    + rewrite lookup_insert_ne by done.
      destruct (Q7 a b Hab) as [H | [H [t' Hp]]]; [by left | right; split; [done |]].
      exists t'. rewrite lookup_delete_ne; [done |]. intros <-. congruence.
  - intros t' p [Htt Hp]%lookup_delete_Some.
    pose proof (Q8 _ _ Hp) as Hok.
    destruct p as [m | m | m prev']; cbn in *; destruct Hok as [H1 H2]; (split; [done |]).
    + rewrite lookup_insert_ne; [done |]. intros ->. apply H1. by eapply adj_l.
    + rewrite lookup_insert_ne; [done |]. intros ->. apply H1. by eapply adj_l.
    + rewrite lookup_insert_ne; [done |]. intros ->. apply Htt.
      eapply (Q9 _ _ (PushLink l prev') (PushLink m prev')); [done.. |]. cbn. by eapply adj_unique.
  - intros t1 t2 p1 p2 [_ H1]%lookup_delete_Some [_ H2]%lookup_delete_Some. by apply Q9.
Qed.
End pushing.

(** The queue after a step of a push. *)
Definition swapped (q : list Link) (p : Push) : list Link :=
  match p with PushSwap l => q ++ [l] | _ => q end.

Lemma push_step_ok q i ps t p :
  queue_ok q i ps -> ps !! t = Some p ->
  exists i' p', push_step p i = Some (i', p') /\ queue_ok (swapped q p) i' (becomes t p' ps) /\
    tail i' = tail i /\ taken i' = taken i /\ (forall p'', p' = Some p'' -> plink p'' = plink p).
Proof.
  intros Q Ht. destruct p as [l | l | l prev]; cbn.
  - rewrite store_next_ok by apply (q_pushes _ _ _ Q _ _ Ht). cbn.
    do 2 eexists. split; [done |]. split; [by apply push_clear |]. at_hand 2. naive_solver.
  - do 2 eexists. split; [done |]. split; [by apply push_swap |]. at_hand 2. naive_solver.
  - rewrite store_next_ok by (eapply prev_known; eauto). cbn.
    do 2 eexists. split; [done |]. split; [by apply push_link |]. done.
Qed.

(** ** The steps of a pop *)

Section popping.
Context (q : list Link) (i : Inbox) (ps : gmap Z Push) (Q : queue_ok q i ps).

Lemma q_cons : exists q', q = tail i :: q'.
Proof using Q. pose proof (q_tail _ _ _ Q) as H. destruct q as [|x q']; simplify_eq/=. by exists q'. Qed.

(** The taker's end is linked to what comes next, *)
Lemma q_next n : next i !! tail i = Some (Some n) -> exists q', q = tail i :: n :: q'.
Proof using Q.
  intros Hn. destruct q_cons as [[|b q'] E].
  - pose proof (q_head _ _ _ Q) as Hh. rewrite E in Hh. injection Hh as Hh.
    pose proof (q_end _ _ _ Q) as He. rewrite <- Hh in He. congruence.
  - exists q'. rewrite E. destruct (q_links _ _ _ Q (tail i) b) as [H | [H _]]; [rewrite E; apply adj_first | | congruence].
    congruence.
Qed.

(** or is the queue's end, or a push is about to link it. *)
Lemma q_unlinked :
  next i !! tail i = Some None -> q = [tail i] \/ exists t b, ps !! t = Some (PushLink b (tail i)).
Proof using Q.
  intros Hn. destruct q_cons as [[|b q'] E]; [by left | right].
  destruct (q_links _ _ _ Q (tail i) b) as [H | [_ [t H]]]; [rewrite E; apply adj_first | congruence |].
  by exists t, b.
Qed.

Lemma q_single : tail i = head i -> q = [tail i].
Proof using Q.
  intros E. destruct q_cons as [q' Eq]. pose proof (q_nodup _ _ _ Q) as Hn. pose proof (q_head _ _ _ Q) as Hh.
  destruct q' as [|b q']; [done |]. exfalso. rewrite Eq in Hh, Hn. cbn [last] in Hh. rewrite <- E in Hh.
  apply NoDup_cons in Hn as [Hn _]. apply Hn. change (last (b :: q') = Some (tail i)) in Hh.
  apply last_Some in Hh as [q'' ->]. set_solver.
Qed.

Lemma q_adj_rest x n q' a b :
  q = x :: n :: q' -> next i !! x = Some (Some n) -> adj q a b -> next i !! a = Some None -> adj (n :: q') a b.
Proof using Type. intros Eq Hx Hab Ha. rewrite Eq in Hab. eapply adj_cons_inv; [done |]. congruence. Qed.

(** The taker's end moves off the stub, which stays the queue's own, *)
Lemma q_skip n q' :
  q = stub :: n :: q' -> next i !! stub = Some (Some n) -> queue_ok (n :: q') (set_tail n i) ps.
Proof using Q.
  intros Eq Hn. destruct Q as [Q1 Q2 Q3 Q4 Q5 Q6 Q7 Q8 Q9]. split; try done; cbn.
  - rewrite Eq in Q1. by apply NoDup_cons in Q1 as [_ ?].
  - by rewrite Eq in Q3.
  - intros l Hl. apply Q5. rewrite Eq. by right.
  - intros a b Hab. apply Q7. rewrite Eq. by apply adj_cons.
  - intros t p Hp. specialize (Q8 _ _ Hp). destruct p as [l | l | l prev]; cbn in *; destruct Q8 as [H1 H2]; (split; [| done]).
    + rewrite Eq in H1. set_solver.
    + rewrite Eq in H1. set_solver.
    + by eapply q_adj_rest.
Qed.

(** or off an item, which is handed out with its link. *)
Lemma q_hand cur n q' :
  q = cur :: n :: q' -> cur <> stub -> next i !! cur = Some (Some n) ->
  queue_ok (n :: q') (from_link cur (set_tail n i)) ps.
Proof using Q.
  intros Eq Hs Hn. destruct Q as [Q1 Q2 Q3 Q4 Q5 Q6 Q7 Q8 Q9].
  pose proof Q1 as Q1'. rewrite Eq in Q1'. apply NoDup_cons in Q1' as [Hcur Hnd].
  split; try done; cbn.
  - by rewrite Eq in Q3.
  - rewrite lookup_delete_ne; [done |]. intros ->. congruence.
  - intros l Hl. rewrite lookup_delete_ne by (intros ->; done). apply Q5. rewrite Eq. by right.
  - by rewrite lookup_delete_ne.
  - intros a b Hab. rewrite lookup_delete_ne by (intros ->; apply Hcur; by eapply adj_l).
    apply Q7. rewrite Eq. by apply adj_cons.
  - intros t p Hp. specialize (Q8 _ _ Hp). destruct p as [l | l | l prev]; cbn in *; destruct Q8 as [H1 H2]; split.
    + rewrite Eq in H1. set_solver.
    + rewrite lookup_delete_ne; [done |]. intros ->. apply H1. rewrite Eq. by left.
    + rewrite Eq in H1. set_solver.
    + rewrite lookup_delete_ne; [done |]. intros ->. apply H1. rewrite Eq. by left.
    + by eapply q_adj_rest.
    + rewrite lookup_delete_ne; [done |]. intros ->. congruence.
Qed.

(** The stub enters again, where it is not in the queue. *)
Lemma q_stub_enter t :
  ps !! t = None -> stub ∉ q -> (forall t' p, ps !! t' = Some p -> plink p <> stub) ->
  queue_ok q i (<[t := PushClear stub]> ps).
Proof using Q.
  intros Ht Hs Hno. destruct Q as [Q1 Q2 Q3 Q4 Q5 Q6 Q7 Q8 Q9]. split; try done.
  - intros a b Hab. destruct (Q7 a b Hab) as [H | [H Hp]]; [by left | right; split; [done |]].
    eapply q_links_becomes; eauto.
  - intros t' p [[-> <-] | [Hne Hp]]%lookup_insert_Some; [done | by eapply Q8].
  - intros t1 t2 p1 p2 [[<- <-] | [H1 H1']]%lookup_insert_Some [[<- <-] | [H2 H2']]%lookup_insert_Some E;
      [done | exfalso | exfalso | by eapply Q9].
    + by eapply Hno.
    + by eapply (Hno _ _ H1').
Qed.
End popping.
