(* ===== verification/InboxSys.v ===== *)
(** * The inbox among its threads

    The invariant of the whole system: the queue of [InboxInv] with the pushes
    of every thread, one holder of the taker's role at most, and the ledger of
    what went in and what came out. Every act keeps it and none dangles. *)

From S2P Require Import Prelude Inbox InboxInv.
Open Scope Z_scope.

(** ** What a thread is at, for the queue *)

Definition pop_of (pc : Pc) : option Popping :=
  match pc with Pops p | Drops (DropPop p) | Releases (DropPop p) => Some p | _ => None end.
Definition stub_push (p : Popping) : option Push := match p with PopStub _ p => Some p | _ => None end.
Definition push_of (pc : Pc) : option Push :=
  match pc with Pushes p => Some p | _ => p ← pop_of pc; stub_push p end.

(** It holds the taker's role; it is about to let go of it. *)
Definition holds (pc : Pc) : bool :=
  match pc with
  | Runs | Pops _ | Parks _ => true
  | Drops d | Releases d => match d with DropPop _ | DropRelease => true | _ => false end
  | _ => false
  end.
Definition releasing (pc : Pc) : bool :=
  match pc with Drops DropRelease | Releases DropRelease => true | _ => false end.

Definition pushes (s : Sys) : gmap Z Push := omap push_of (pcs s).
Definition items (q : list Link) : list Link := filter (fun l => l <> stub) q.

(** Where a pop is, against the queue. *)
Definition pop_ok (q : list Link) (i : Inbox) (p : Popping) : Prop :=
  match p with
  | PopTail => True
  | PopEmpty => tail i = stub
  | PopNext cur | PopHead cur | PopLast cur => tail i = cur /\ cur <> stub
  | PopStub cur p => (tail i = cur /\ cur <> stub) /\ plink p = stub
  end.

(** [r] is the thread that holds the role. *)
Definition role_ok (r : option Z) (held : bool) (m : gmap Z Pc) : Prop :=
  held = bool_decide (is_Some r) /\ forall t, r = Some t <-> exists pc, m !! t = Some pc /\ holds pc = true.

Record inv (q : list Link) (r : option Z) (s : Sys) : Prop := {
  i_queue : queue_ok q (box s) (pushes s);
  i_role : role_ok r (taken (box s)) (pcs s);
  i_items : forall t p, pcs s !! t = Some (Pushes p) -> plink p <> stub;
  i_pops : forall t pc p, pcs s !! t = Some pc -> pop_of pc = Some p -> pop_ok q (box s) p;
  i_rest : (forall t pc, r = Some t -> pcs s !! t = Some pc -> releasing pc = true) -> tail (box s) = stub;
  i_ledger : pushed s = handed s ++ items q;
}.

(** ** Maps of threads *)

Lemma pushes_goes t pc s :
  pushes (goes t pc s) = becomes t (pc ← pc; push_of pc) (pushes s).
Proof.
  unfold pushes, goes, becomes. destruct pc as [pc|]; cbn.
  - destruct (push_of pc) as [p|] eqn:E; [by rewrite (omap_insert_Some _ _ _ _ p) | by rewrite omap_insert_None].
  - by rewrite omap_delete.
Qed.

Lemma lookup_pushes t s : pushes s !! t = pc ← pcs s !! t; push_of pc.
Proof. unfold pushes. apply lookup_omap. Qed.

Lemma lookup_goes t t' pc s :
  pcs (goes t pc s) !! t' = if decide (t = t') then pc else pcs s !! t'.
Proof.
  unfold goes. cbn. destruct pc as [pc|].
  - rewrite lookup_insert. by destruct (decide (t = t')).
  - rewrite lookup_delete. by destruct (decide (t = t')).
Qed.

Lemma becomes_id t (ps : gmap Z Push) : becomes t (ps !! t) ps = ps.
Proof. unfold becomes. destruct (ps !! t) eqn:E; [by apply insert_id | by apply delete_id]. Qed.

Lemma becomes_becomes t p p' (ps : gmap Z Push) : becomes t p (becomes t p' ps) = becomes t p ps.
Proof.
  unfold becomes. destruct p, p'; by rewrite ?insert_insert_eq, ?insert_delete_eq, ?delete_insert_eq, ?delete_delete_eq.
Qed.

(** ** The taker's role *)

Definition holds_at (pc : option Pc) : bool := match pc with Some pc => holds pc | None => false end.

Lemma role_move r held t pc s :
  role_ok r held (pcs s) -> holds_at pc = holds_at (pcs s !! t) -> role_ok r held (pcs (goes t pc s)).
Proof.
  intros [Hr H] E. split; [done |]. intros t'. rewrite H, lookup_goes. destruct (decide (t = t')) as [<- | Hne]; [| done].
  destruct pc as [pc|], (pcs s !! t) as [pc0|]; cbn in E; naive_solver congruence.
Qed.

Lemma role_holds r held m t pc : role_ok r held m -> m !! t = Some pc -> holds pc = true -> r = Some t /\ held = true.
Proof. intros [-> H] Ht Hh. assert (r = Some t) as -> by (apply H; eauto). split; [done |]. by apply bool_decide_true. Qed.

Lemma role_other r held m t pc t' pc' :
  role_ok r held m -> m !! t = Some pc -> holds pc = true -> m !! t' = Some pc' -> t <> t' -> holds pc' = false.
Proof.
  intros R Ht Hh Ht' Hne. destruct (holds pc') eqn:E; [| done].
  destruct (role_holds _ _ _ _ _ R Ht Hh), (role_holds _ _ _ _ _ R Ht' E). congruence.
Qed.

Lemma role_take t pc s :
  role_ok None false (pcs s) -> holds pc = true -> role_ok (Some t) true (pcs (goes t (Some pc) s)).
Proof.
  intros [_ H] E. split; [done |]. intros t'. rewrite lookup_goes. destruct (decide (t = t')) as [<- | Hne]; [naive_solver |].
  split; [naive_solver |]. intros Hx. apply H in Hx. done.
Qed.

Lemma role_release t pc pc' s :
  role_ok (Some t) true (pcs s) -> pcs s !! t = Some pc' -> holds_at pc = false ->
  role_ok None false (pcs (goes t pc s)).
Proof.
  intros [_ H] Ht E. split; [done |]. intros t'. rewrite lookup_goes. split; [done |]. intros (pc0 & H0 & Hh).
  destruct (decide (t = t')) as [<- | Hne]; [subst pc; cbn in E; congruence |].
  assert (Some t = Some t') by (apply H; eauto). congruence.
Qed.

Lemma pop_holds pc p : pop_of pc = Some p -> holds pc = true.
Proof. destruct pc as [| | |[]| | | | | | |[]| |]; cbn; naive_solver. Qed.

(** ** Moving one thread *)

(** A thread that goes to [pc] keeps the invariant of a system whose inbox and
    ledgers are given, when it may be there. *)
Record arrives (q : list Link) (i : Inbox) (pc : option Pc) : Prop := {
  a_items : forall p, pc = Some (Pushes p) -> plink p <> stub;
  a_pops : forall pc' p, pc = Some pc' -> pop_of pc' = Some p -> pop_ok q i p;
  a_rest : forall pc', pc = Some pc' -> releasing pc' = true -> tail i = stub;
}.

Lemma arrives_idle q i pc : pop_of pc = None -> push_of pc = None -> releasing pc = false -> arrives q i (Some pc).
Proof. intros H1 H2 H3. split; intros; simplify_eq; cbn in *; congruence. Qed.

Lemma arrives_none q i : arrives q i None.
Proof. by split. Qed.

#[export] Hint Resolve arrives_idle arrives_none : inbox.

(** The thread's move, its own pushes and role aside. *)
Lemma inv_moves q r r' q' s s0 t pc :
  inv q r s -> pcs s0 = pcs s ->
  queue_ok q' (box s0) (becomes t (pc ← pc; push_of pc) (pushes s)) ->
  role_ok r' (taken (box s0)) (pcs (goes t pc s)) ->
  arrives q' (box s0) pc ->
  (forall t' pc' p, t' <> t -> pcs s !! t' = Some pc' -> pop_of pc' = Some p -> pop_ok q' (box s0) p) ->
  (r' <> Some t -> (forall t' pc', r' = Some t' -> pcs s !! t' = Some pc' -> releasing pc' = true) -> tail (box s0) = stub) ->
  pushed s0 = handed s0 ++ items q' ->
  inv q' r' (goes t pc s0).
Proof.
  intros I E Q R A P T L.
  assert (Ep : pcs (goes t pc s0) = pcs (goes t pc s)) by (unfold goes; cbn; by rewrite E).
  split; change (box (goes t pc s0)) with (box s0); try done.
  - rewrite pushes_goes. by unfold pushes in *; rewrite E.
  - by rewrite <- Ep in R.
  - intros t' p. rewrite Ep, lookup_goes. destruct (decide (t = t')) as [<- | Hne]; [apply (a_items _ _ _ A) |].
    apply (i_items _ _ _ I).
  - intros t' pc' p. rewrite Ep, lookup_goes. destruct (decide (t = t')) as [<- | Hne]; [apply (a_pops _ _ _ A) |].
    apply P. congruence.
  - intros H. destruct (decide (r' = Some t)) as [-> | Hne].
    + destruct R as [_ R]. destruct (proj1 (R t) eq_refl) as (pc' & Hpc & _). rewrite lookup_goes, decide_True in Hpc by done.
      eapply (a_rest _ _ _ A); [done |]. apply (H t); [done |]. by rewrite Ep, lookup_goes, decide_True.
    + apply T; [done |]. intros t' pc' -> H'. apply (H t'); [done |]. rewrite Ep, lookup_goes, decide_False by congruence. done.
Qed.

(** A step that leaves the inbox alone. *)
Lemma inv_elsewhere q r s s0 t pc :
  inv q r s -> pcs s0 = pcs s -> box s0 = box s -> pushed s0 = pushed s -> handed s0 = handed s ->
  (pc ← pc; push_of pc) = pushes s !! t -> holds_at pc = holds_at (pcs s !! t) -> arrives q (box s) pc ->
  inv q r (goes t pc s0).
Proof.
  intros I Ep Eb E1 E2 Hp Hh A. eapply (inv_moves q r r q s s0 t pc); try done; rewrite ?Eb, ?E1, ?E2.
  - rewrite Hp, becomes_id. apply I.
  - apply role_move; [apply I | done].
  - done.
  - intros. by eapply (i_pops _ _ _ I).
  - intros _ H. by apply (i_rest _ _ _ I).
  - apply I.
Qed.

(** A step that moves no thread, on words that are not the inbox's. *)
Lemma inv_words q r s c : inv q r s -> inbox c = box s -> inv q r (with_shared c s).
Proof. intros [] E. by split; cbn; unfold box in *; cbn; rewrite ?E. Qed.

(** *** Pushing *)

Definition swaps (p : Push) : list Link := match p with PushSwap l => [l] | _ => [] end.

Lemma swapped_app q p : swapped q p = q ++ swaps p.
Proof. by destruct p; cbn; rewrite ?app_nil_r. Qed.

Lemma items_app q q' : items (q ++ q') = items q ++ items q'.
Proof. apply filter_app. Qed.

Lemma items_swaps p : plink p <> stub -> items (swaps p) = swaps p.
Proof. intros H. destruct p; [done | | done]. unfold items, swaps. by rewrite filter_cons_True. Qed.

Lemma items_stub p : plink p = stub -> items (swaps p) = [].
Proof. destruct p; cbn; try done. by intros ->. Qed.

Lemma note_push_rest p s :
  pcs (note_push p s) = pcs s /\ shared (note_push p s) = shared s /\ handed (note_push p s) = handed s /\
  pushed (note_push p s) = pushed s ++ swaps p.
Proof. by destruct p; cbn; rewrite ?app_nil_r. Qed.

(** What another thread's pop relies on is not a push's to change. *)
Lemma pop_ok_tail q q' i i' p : tail i' = tail i -> pop_ok q i p -> pop_ok q' i' p.
Proof. intros E. destruct p; cbn; rewrite ?E; tauto. Qed.

Lemma push_by_inv q r s t p :
  inv q r s -> pcs s !! t = Some (Pushes p) ->
  exists s', step t s = Ok s' /\ inv (swapped q p) r s'.
Proof.
  intros I Ht. pose proof (lookup_pushes t s) as Hp. rewrite Ht in Hp. cbn in Hp.
  destruct (push_step_ok _ _ _ _ _ (i_queue _ _ _ I) Hp) as (i' & p' & E & Q' & Et & Etk & El).
  unfold step, push_by. rewrite Ht, E. cbn.
  eexists. split; [done |]. destruct (note_push_rest p (with_inbox i' s)) as (N1 & N2 & N3 & N4).
  assert (Nb : box (note_push p (with_inbox i' s)) = i') by (unfold box; by rewrite N2).
  eapply (inv_moves q r r _ s); rewrite ?N1, ?N3, ?Nb; try done.
  - cbn. by destruct p' as [p'|].
  - rewrite Etk. apply role_move; [apply I |]. rewrite Ht. by destruct p'.
  - split; destruct p' as [p'|]; intros; simplify_eq; try done. rewrite (El _ eq_refl). by eapply (i_items _ _ _ I).
  - intros t' pc' p0 _ H1 H2. eapply pop_ok_tail; [done |]. by eapply (i_pops _ _ _ I).
  - intros _ H. rewrite Et. by apply (i_rest _ _ _ I).
  - rewrite N4, swapped_app, items_app, items_swaps, app_assoc by (by eapply (i_items _ _ _ I)).
    f_equal. apply I.
Qed.

(** *** Taking *)

Definition next_push (x : Popping + Pop) : option Push := match x with inl p => stub_push p | inr _ => None end.

(** What a step of a pop does to the items. *)
Definition takes (x : Popping + Pop) : list Link := match x with inr (Item l) => [l] | _ => [] end.

Definition pop_steps (q : list Link) (i : Inbox) (ps : gmap Z Push) (t : Z) (p : Popping) : Prop :=
  exists i' x q', pop_step p i = Some (i', x) /\ queue_ok q' i' (becomes t (next_push x) ps) /\
    taken i' = taken i /\ (forall p', x = inl p' -> pop_ok q' i' p') /\
    (x = inr Empty -> q' = [stub]) /\ items q = takes x ++ items q'.

Section take.
Context (q : list Link) (i : Inbox) (ps : gmap Z Push) (t : Z).
Context (Q : queue_ok q i ps).

Lemma pop_hands p cur n :
  pop_step p i = Some (hand_out cur n i) -> ps !! t = None -> tail i = cur -> cur <> stub ->
  next i !! cur = Some (Some n) -> pop_steps q i ps t p.
Proof using Q.
  intros E Ht <- Hs Hn. destruct (q_next _ _ _ Q n Hn) as [q' Eq].
  exists (from_link (tail i) (set_tail n i)), (inr (Item (tail i))), (n :: q'). split; [done |]. cbn. rewrite delete_id by done.
  split; [by apply (q_hand q) |]. at_hand 1. split; [done |]. split; [done |].
  rewrite Eq. unfold items. by rewrite filter_cons_True.
Qed.

Lemma pop_stays p x :
  pop_step p i = Some (i, x) -> ps !! t = None -> next_push x = None -> takes x = [] ->
  (forall p', x = inl p' -> pop_ok q i p') -> (x = inr Empty -> q = [stub]) -> pop_steps q i ps t p.
Proof using Q.
  intros E Ht Hx Hk Hp He. exists i, x, q. rewrite Hx, Hk. cbn. rewrite delete_id by done. done.
Qed.

Lemma pop_reads p cur :
  pop_step p i = (n ← load_next cur i; match n with Some n => Some (hand_out cur n i) | None => Some (i, inl (PopHead cur)) end) ->
  ps !! t = None -> tail i = cur -> cur <> stub -> pop_steps q i ps t p.
Proof using Q.
  intros E Ht Hc Hs. destruct (q_known _ _ _ Q cur) as [n Hn].
  { destruct (q_cons _ _ _ Q) as [q' ->]. rewrite Hc. by left. }
  unfold load_next in E. rewrite Hn in E. cbn in E. destruct n as [n|].
  - by eapply pop_hands.
  - eapply pop_stays; try done. by intros p' [= <-].
Qed.

Lemma pop_step_ok p :
  pop_ok q i p -> ps !! t = stub_push p -> (forall t' p', t' <> t -> ps !! t' = Some p' -> plink p' <> stub) ->
  pop_steps q i ps t p.
Proof using Q.
  intros Hp Ht Hstub. destruct p as [| | cur | cur | cur p | cur]; cbn in Hp, Ht.
  - destruct (Z.eqb_spec (tail i) stub) as [Es | Hs].
    2: { eapply (pop_reads PopTail (tail i)); [| done..]. cbn. destruct (Z.eqb_spec (tail i) stub); [done |].
         unfold load_next. by destruct (next i !! tail i) as [[?|]|]. }
    assert (Es' : (tail i =? stub) = true) by lia.
    destruct (q_stub _ _ _ Q) as [n Hn]. assert (Hn' := Hn). rewrite <- Es in Hn'. destruct n as [n|].
    + destruct (q_next _ _ _ Q n Hn') as [q' Eq]. rewrite Es in Eq.
      exists (set_tail n i), (inl (PopNext n)), (n :: q'). cbn. unfold load_next. rewrite Hn', Es'. cbn.
      split; [done |]. rewrite delete_id by done. split; [by eapply q_skip |]. split; [done |].
      split; [| split; [done | by rewrite Eq]]. intros p' [= <-]. split; [done |].
      pose proof (q_nodup _ _ _ Q) as Hnd. rewrite Eq in Hnd. apply NoDup_cons in Hnd as [Hnd _]. set_solver.
    + eapply (pop_stays _ (inl PopEmpty)); try done; cbn.
      * unfold load_next. by rewrite Hn', Es'.
      * by intros p' [= <-].
  - eapply (pop_stays _ (inr (if is_empty i then Empty else Busy))); try done; [by destruct is_empty |].
    unfold is_empty. destruct (Z.eqb_spec (head i) stub) as [Eh |]; [intros _ | done].
    rewrite <- Hp. eapply q_single; [done | congruence].
  - destruct Hp as [Hc Hs]. by eapply (pop_reads _ cur).
  - destruct Hp as [Hc Hs]. destruct (Z.eqb_spec cur (head i)) as [Eh | Hne].
    2: { eapply (pop_stays _ (inr Busy)); try done. cbn. by destruct (Z.eqb_spec cur (head i)). }
    exists i, (inl (PopStub cur (PushClear stub))), q. cbn. rewrite (proj2 (Z.eqb_eq _ _) Eh). split; [done |].
    split; [| split; [done | split; [by intros p' [= <-] | by split]]].
    eapply q_stub_enter; [done | done | | ].
    + rewrite (q_single _ _ _ Q) by congruence. set_solver.
    + intros t' p' Hp'. destruct (decide (t' = t)) as [-> | Hne]; [congruence | by eapply Hstub].
  - destruct Hp as [[Hc Hs] Hl]. destruct (push_step_ok _ _ _ _ _ Q Ht) as (i' & p' & E & Q' & Et & Etk & El).
    exists i', (inl (match p' with Some p' => PopStub cur p' | None => PopLast cur end)), (swapped q p).
    cbn. rewrite E. cbn. split; [by destruct p' |]. split; [by destruct p' |]. split; [done |]. split; [| split; [done |]].
    + intros p0 [= <-]. destruct p' as [p'|]; cbn; rewrite Et; [| done]. split; [done |]. by rewrite (El p').
    + by rewrite swapped_app, items_app, items_stub, app_nil_r.
  - destruct Hp as [Hc Hs]. destruct (q_known _ _ _ Q cur) as [n Hn].
    { destruct (q_cons _ _ _ Q) as [q' ->]. rewrite Hc. by left. }
    destruct n as [n|].
    + eapply (pop_hands _ cur n); try done. cbn. unfold load_next. by rewrite Hn.
    + eapply (pop_stays _ (inr Busy)); try done. cbn. unfold load_next. by rewrite Hn.
Qed.
End take.

(** How a thread goes on after a step of its pop: still holding the role, to let
    go of it only once the queue was empty. *)
Record goes_on (k : Popping + Pop -> Pc) : Prop := {
  k_pop : forall p, pop_of (k (inl p)) = Some p;
  k_done : forall x, pop_of (k (inr x)) = None \/ pop_of (k (inr x)) = Some PopTail;
  k_holds : forall x, holds (k x) = true;
  k_rest : forall x, releasing (k x) = true -> x = inr Empty;
}.

Lemma push_of_holds pc : holds pc = true -> push_of pc = p ← pop_of pc; stub_push p.
Proof. by destruct pc. Qed.

Lemma k_push k x : goes_on k -> push_of (k x) = next_push x.
Proof.
  intros K. rewrite push_of_holds by apply K. destruct x as [p | x]; [by rewrite (k_pop _ K) |].
  by destruct (k_done _ K x) as [-> | ->].
Qed.

(** Only the role's holder pushes the stub. *)
Lemma stub_held q r s t pc :
  inv q r s -> pcs s !! t = Some pc -> holds pc = true ->
  forall t' p', t' <> t -> pushes s !! t' = Some p' -> plink p' <> stub.
Proof.
  intros I Ht Hh t' p' Hne Hp. rewrite lookup_pushes in Hp. destruct (pcs s !! t') as [pc'|] eqn:E; [| done]. cbn in Hp.
  assert (Hh' : holds pc' = false) by (eapply role_other; [apply I | exact Ht | done | exact E | done]).
  destruct pc' as [| | |d| | | | | | |d| |]; cbn in Hp, Hh'; try done.
  - simplify_eq. by eapply (i_items _ _ _ I).
  - by destruct d.
  - by destruct d.
Qed.

(** The system after a step of a pop. *)
Definition popped (t : Z) (k : Popping + Pop -> Pc) (i : Inbox) (x : Popping + Pop) (s : Sys) : Sys :=
  goes t (Some (k x)) (note_pop x (with_inbox i s)).

Lemma note_pop_rest x s :
  pcs (note_pop x s) = pcs s /\ shared (note_pop x s) = shared s /\ pushed (note_pop x s) = pushed s /\
  handed (note_pop x s) = handed s ++ takes x.
Proof. by destruct x as [|[]]; cbn; rewrite ?app_nil_r. Qed.

Lemma pop_by_inv q r s t pc p k :
  inv q r s -> pcs s !! t = Some pc -> pop_of pc = Some p -> goes_on k ->
  exists i x q', pop_step p (box s) = Some (i, x) /\ pop_by t p k s = Ok (popped t k i x s) /\
    inv q' r (popped t k i x s) /\ items q = takes x ++ items q' /\ (x = inr Empty -> q' = [stub]).
Proof.
  intros I Ht Hp K. pose proof (pop_holds _ _ Hp) as Hh. pose proof (lookup_pushes t s) as Hl.
  rewrite Ht in Hl. cbn in Hl. rewrite push_of_holds, Hp in Hl by done. cbn in Hl.
  destruct (role_holds _ _ _ _ _ (i_role _ _ _ I) Ht Hh) as [Hr _].
  destruct (pop_step_ok q _ _ t (i_queue _ _ _ I) p) as (i & x & q' & E & Q' & Etk & Hok & He & Hi).
  { by eapply (i_pops _ _ _ I). } { done. } { by eapply stub_held. }
  exists i, x, q'. unfold pop_by. rewrite E. cbn. split; [done |]. split; [done |]. split; [| done].
  destruct (note_pop_rest x (with_inbox i s)) as (N1 & N2 & N3 & N4).
  assert (Nb : box (note_pop x (with_inbox i s)) = i) by (unfold box; by rewrite N2).
  eapply (inv_moves q r r _ s); rewrite ?N1, ?N3, ?N4, ?Nb; try done.
  - cbn. by rewrite k_push.
  - rewrite Etk. apply role_move; [apply I |]. rewrite Ht. cbn. by rewrite (k_holds _ K).
  - split.
    + intros p0 [= E0]. pose proof (k_holds _ K x) as Hx. by rewrite E0 in Hx.
    + intros pc' p0 [= <-] H. destruct x as [p'|x]; [rewrite (k_pop _ K) in H; simplify_eq; by apply Hok |].
      destruct (k_done _ K x); congruence || by simplify_eq.
    + intros pc' [= <-] H%(k_rest _ K). rewrite (He H) in Q'. by injection (q_tail _ _ _ Q').
  - intros t' pc' p' Hne H1 H2. exfalso. apply pop_holds in H2.
    assert (holds pc' = false) by (eapply role_other; [apply I | exact Ht | done | exact H1 | done]). congruence.
  - cbn. rewrite (i_ledger _ _ _ I), Hi. by rewrite app_assoc.
Qed.

(** *** The drains of a shard that stopped *)

Definition drops (k : Dropping -> Pc) (last : option Pc) : Prop :=
  k = Drops /\ last = None \/ k = Releases /\ last = Some Released.

Lemma drops_goes_on k last : drops k last -> goes_on (fun x => k (drained x)).
Proof.
  intros [[-> _] | [-> _]]; (split; cbn; [done | by intros [] ; auto | by intros [?|[]] | by intros [?|[]]]).
Qed.

Lemma drop_by_inv q r s t d k last :
  inv q r s -> drops k last -> pcs s !! t = Some (k d) ->
  exists s' q' r', drop_by t d k last s = Ok s' /\ inv q' r' s'.
Proof.
  intros I K Ht. destruct d as [| p | |].
  - unfold drop_by, try_take. destruct (taken (box s)) eqn:Etk.
    + eexists _, q, r. split; [done |]. eapply (inv_elsewhere q r s); try done.
      * rewrite lookup_pushes, Ht. by destruct K as [[-> ->] | [-> ->]].
      * rewrite Ht. by destruct K as [[-> ->] | [-> ->]].
      * destruct K as [[-> ->] | [-> ->]]; auto with inbox.
    + destruct (i_role _ _ _ I) as [Er Hr]. rewrite Etk in Er. destruct r as [t'|]; [done |].
      eexists _, q, (Some t). split; [done |]. eapply (inv_moves q None (Some t) q s); try done.
      * replace (becomes _ _ _) with (pushes s); [by destruct (i_queue _ _ _ I) |].
        rewrite <- (becomes_id t (pushes s)) at 1. rewrite lookup_pushes, Ht. by destruct K as [[-> ->] | [-> ->]].
      * apply role_take; [split; [done | exact Hr] |]. by destruct K as [[-> ->] | [-> ->]].
      * destruct K as [[-> ->] | [-> ->]]; split; intros; simplify_eq/=; done.
      * intros t' pc' p Hne H1 H2. eapply pop_ok_tail; [| by eapply (i_pops _ _ _ I)]. done.
      * apply I.
  - destruct (pop_by_inv q r s t (k (DropPop p)) p (fun x => k (drained x))) as (i & x & q' & _ & E & I' & _).
    { done. } { done. } { by destruct K as [[-> _] | [-> _]]. } { by eapply drops_goes_on. }
    eexists _, q', r. split; [exact E | done].
  - destruct (role_holds r (taken (box s)) (pcs s) t (k DropRelease)) as [-> Etk]; [apply I | done | by destruct K as [[-> _] | [-> _]] |].
    assert (tail (box s) = stub).
    { apply (i_rest _ _ _ I). intros t' pc' [= <-] H'. rewrite Ht in H'. simplify_eq. by destruct K as [[-> _] | [-> _]]. }
    eexists _, q, None. split; [done |]. eapply (inv_moves q (Some t) None q s); try done.
    + replace (becomes _ _ _) with (pushes s); [by destruct (i_queue _ _ _ I) |].
      rewrite <- (becomes_id t (pushes s)) at 1. rewrite lookup_pushes, Ht. by destruct K as [[-> ->] | [-> ->]].
    + eapply role_release; [rewrite <- Etk; apply I | done |]. by destruct K as [[-> ->] | [-> ->]].
    + destruct K as [[-> ->] | [-> ->]]; auto with inbox.
    + intros t' pc' p Hne H1 H2. eapply pop_ok_tail; [| by eapply (i_pops _ _ _ I)]. done.
    + apply I.
  - eexists _, q, r. split; [done |]. eapply (inv_elsewhere q r s); try done.
    + rewrite lookup_pushes, Ht. by destruct K as [[-> ->] | [-> ->]], is_empty.
    + rewrite Ht. by destruct K as [[-> ->] | [-> ->]], is_empty.
    + destruct K as [[-> ->] | [-> ->]], is_empty; auto with inbox.
Qed.

(** ** Every act *)

(** A step of a thread that touches neither the inbox nor its role. *)
Ltac elsewhere I Ht :=
  eapply inv_elsewhere; [exact I | done | done | done | done | by rewrite lookup_pushes, Ht | by rewrite Ht | first [apply arrives_none | by apply arrives_idle]].

Lemma step_inv q r s t :
  inv q r s -> pcs s !! t <> None -> pcs s !! t <> Some Runs -> pcs s !! t <> Some Gone ->
  exists s' q' r', step t s = Ok s' /\ inv q' r' s'.
Proof.
  intros I H1 H2 H3. destruct (pcs s !! t) as [pc|] eqn:Ht; [| done].
  destruct pc as [p| |w|d| | |x| |p|k|d| |]; try done; unfold step; rewrite Ht.
  - destruct (push_by_inv q r s t p I Ht) as (s' & E & I'). unfold step in E. rewrite Ht in E. eauto.
  - eexists _, q, r. split; [done |]. destruct (stopped (shared s)); elsewhere I Ht.
  - destruct (wake_step w (shared s)) as [c w'] eqn:E. eexists _, q, r. split; [done |].
    assert (inbox c = box s) by (destruct w; cbn in E; simplify_eq; done).
    destruct w' as [w'|]; elsewhere I Ht.
  - apply (drop_by_inv q r); [done | by left | done].
  - eexists _, q, r. split; [done |]. elsewhere I Ht.
  - eexists _, q, r. split; [done |]. elsewhere I Ht.
  - destruct (settled_step x (shared s)) as [x'|b]; (eexists _, q, r; split; [done |]); elsewhere I Ht.
  - destruct (pop_by_inv q r s t (Pops p) p (fun r => match r with inl p => Pops p | inr _ => Runs end))
      as (i & x & q' & _ & E & I' & _); try done; [| eauto].
    split; [done | by left | by intros [] | by intros []].
  - destruct (begin_park_step k (shared s)) as [c k'] eqn:E. eexists _, q, r. split; [done |].
    assert (inbox c = box s) by (destruct k; cbn in E; simplify_eq; done).
    destruct k' as [k'|]; elsewhere I Ht.
  - apply (drop_by_inv q r); [done | by right | done].
  - eexists _, q, r. split; [done |]. elsewhere I Ht.
Qed.

Lemma shard_call_inv q r s c s' :
  inv q r s -> pcs s !! shard = Some Runs -> shard_call c s = Ok s' -> inv q r s'.
Proof.
  intros I Ht E. destruct c; cbn in E; simplify_eq.
  - eapply inv_elsewhere; try done; [by rewrite lookup_pushes, Ht | by rewrite Ht |].
    split; intros; simplify_eq/=; done.
  - elsewhere I Ht.
  - by apply inv_words.
  - by apply inv_words.
  - by apply inv_words.
  - destruct (stopped (shared s)); simplify_eq.
    eapply inv_elsewhere; try done; [by rewrite lookup_pushes, Ht | by rewrite Ht |].
    split; intros; simplify_eq/=; done.
Qed.

Lemma call_inv q r s t c s' :
  inv q r s -> pcs s !! t = None -> call t c s = Ok s' -> inv q r s'.
Proof.
  intros I Ht E. destruct c as [l | | |]; cbn in E; simplify_eq; [| elsewhere I Ht..].
  case_bool_decide as Hl; simplify_eq. eapply (inv_moves q r r q s); try done.
  - apply push_enter; [apply I | by rewrite lookup_pushes, Ht | done].
  - apply role_move; [apply I | by rewrite Ht].
  - split; intros; simplify_eq/=. intros ->. destruct (q_stub _ _ _ (i_queue _ _ _ I)). congruence.
  - intros t' pc' p _ H1 H2. eapply pop_ok_tail; [| by eapply (i_pops _ _ _ I)]. done.
  - intros _ H. by apply (i_rest _ _ _ I).
  - apply I.
Qed.

Lemma act_inv q r s a s' : inv q r s -> act a s = Ok s' -> exists q' r', inv q' r' s'.
Proof.
  intros I E. destruct a as [t c | c | t]; unfold act in E.
  - destruct (pcs s !! t) as [pc|] eqn:Ht; [done |]. exists q, r. by eapply call_inv.
  - destruct (pcs s !! shard) as [[]|] eqn:Ht; try done. exists q, r. by eapply shard_call_inv.
  - destruct (pcs s !! t) as [pc|] eqn:Ht; [| unfold step in E; by rewrite Ht in E].
    destruct (decide (pc = Runs \/ pc = Gone)) as [[-> | ->] | Hne]; [unfold step in E; by rewrite Ht in E.. |].
    destruct (step_inv q r s t I) as (s0 & q' & r' & E0 & I'); [rewrite Ht; naive_solver.. |].
    rewrite E0 in E. simplify_eq. eauto.
Qed.
