(* ===== verification/InboxPark.v ===== *)
(** * Sleeping, stopping, popping alone

    Who is on the way to wake a shard that sleeps with work, who is on the way
    to drop what a stopped shard was handed, and that a pop not disturbed by a
    push under way finds what there is. *)

From S2P Require Import Prelude Inbox InboxInv InboxSys.
Open Scope Z_scope.

(** ** Some thread is where [P] says *)

Definition someone (P : Pc -> bool) (s : Sys) : Prop := exists t pc, pcs s !! t = Some pc /\ P pc = true.

Lemma someone_at P s t pc : pcs s !! t = Some pc -> P pc = true -> someone P s.
Proof. by exists t, pc. Qed.

Lemma someone_here P t pc s : P pc = true -> someone P (goes t (Some pc) s).
Proof. intros H. exists t, pc. split; [by rewrite lookup_goes, decide_True | done]. Qed.

Definition at_pc (P : Pc -> bool) (pc : option Pc) : bool := match pc with Some pc => P pc | None => false end.

Lemma someone_goes P t pc s s0 :
  someone P s -> pcs s0 = pcs s -> (at_pc P (pcs s !! t) = true -> at_pc P pc = true) -> someone P (goes t pc s0).
Proof.
  intros (t' & pc' & Ht' & Hp) E H. destruct (decide (t = t')) as [-> | Hne].
  - rewrite Ht' in H. destruct pc as [pc|]; [| by discriminate H]. apply someone_here. by apply H.
  - exists t', pc'. rewrite lookup_goes, decide_False, E by done. done.
Qed.

(** The items not handed out yet. *)
Definition work (s : Sys) : Prop := handed s <> pushed s.

Lemma work_items q r s : inv q r s -> work s <-> items q <> [].
Proof.
  intros I. unfold work. rewrite (i_ledger _ _ _ I). split; intros H E; apply H.
  - by rewrite E, app_nil_r.
  - rewrite <- (app_nil_r (handed s)) in E at 1. by apply app_inv_head in E.
Qed.

Lemma drained_no_work q r s : inv q r s -> is_drained (box s) = true -> ~ work s.
Proof.
  intros I [Ht Hh]%andb_prop. unfold is_empty in Hh. rewrite (work_items q r) by done. intros H. apply H.
  assert (q = [tail (box s)]) as -> by (eapply q_single; [apply I | lia]). assert (tail (box s) = stub) as -> by lia. done.
Qed.

(** ** On the way to wake the shard *)

Definition wakes_soon (pc : Pc) : bool :=
  match pc with Pushes (PushLink _ _) | SeesStopped | Wakes WakeLoad | Wakes WakeSwap => true | _ => false end.
Definition notifies_soon (pc : Pc) : bool := match pc with Wakes WakeNotify => true | _ => false end.

(** A shard that said it parks, and then looked for [w]: its flag was taken back
    by who notifies it, or whoever brings work will find it. *)
Definition minded (w : Prop) (s : Sys) : Prop :=
  (parked (shared s) = false -> notified (shared s) = true \/ someone notifies_soon s) /\
  (parked (shared s) = true -> stopped (shared s) = false -> w -> someone wakes_soon s).

(** What the shard has looked for by then, and did not find. *)
Definition looks (pc : Pc) : bool :=
  match pc with Parks ParkLook | Parks ParkLookWoken | Parks Asleep => true | _ => false end.
Definition missed (pc : Pc) (s : Sys) : Prop :=
  match pc with
  | Parks ParkLookWoken => work s
  | Parks Asleep => work s \/ woken (shared s) = true
  | _ => False
  end.

Definition park_ok (s : Sys) : Prop :=
  forall pc, pcs s !! shard = Some pc -> looks pc = true -> minded (missed pc s) s.

(** A thread but the shard's moves on: whoever was on the way still is, unless
    it took the flag, or notified. *)
Lemma minded_moves w w' s s0 t pc :
  minded w s -> pcs s0 = pcs s ->
  (parked (shared s0) = false -> parked (shared s) = true -> at_pc notifies_soon pc = true) ->
  (notified (shared s) = true -> notified (shared s0) = true) ->
  (parked (shared s0) = false -> at_pc notifies_soon (pcs s !! t) = true -> notified (shared s0) = true \/ at_pc notifies_soon pc = true) ->
  (parked (shared s0) = true -> parked (shared s) = true) ->
  (stopped (shared s0) = false -> stopped (shared s) = false) ->
  (parked (shared s0) = true -> stopped (shared s0) = false -> w' -> w \/ at_pc wakes_soon pc = true) ->
  (parked (shared s0) = true -> stopped (shared s0) = false -> at_pc wakes_soon (pcs s !! t) = true -> at_pc wakes_soon pc = true) ->
  minded w' (goes t pc s0).
Proof.
  intros [M1 M2] E Hf Hn Hn' Hp Hs Hw Hw'. split; cbn.
  - intros E0. destruct (parked (shared s)) eqn:Eps.
    + right. specialize (Hf E0 eq_refl). destruct pc as [pc|]; [by apply someone_here | done].
    + destruct (M1 eq_refl) as [H | (t' & pc' & Ht' & Hpc)]; [left; by apply Hn |].
      destruct (decide (t = t')) as [-> | Hne].
      * rewrite Ht' in Hn'. destruct (Hn' E0 Hpc) as [H | H]; [by left | right].
        destruct pc as [pc|]; [by apply someone_here | done].
      * right. exists t', pc'. by rewrite lookup_goes, decide_False, E by done.
  - intros E0 E1 W. destruct (Hw E0 E1 W) as [W' | Hpc]; [| destruct pc as [pc|]; [by apply someone_here | done]].
    eapply someone_goes; [apply M2; auto | done | by apply Hw'].
Qed.

(** *** Other threads *)

Lemma missed_less pc s s' :
  (work s' -> work s) -> (woken (shared s') = true -> woken (shared s) = true) -> missed pc s' -> missed pc s.
Proof. destruct pc as [| | | | | | | | |[]| | |]; cbn; tauto. Qed.

Lemma missed_goes pc t pc' s : missed pc (goes t pc' s) <-> missed pc s.
Proof. by destruct pc as [| | | | | | | | |[]| | |]. Qed.

(** A step that concerns neither the flags nor what is looked for. *)
Lemma minded_aside pc s s0 t pc' :
  minded (missed pc s) s -> pcs s0 = pcs s ->
  parked (shared s0) = parked (shared s) -> notified (shared s0) = notified (shared s) ->
  (stopped (shared s0) = false -> stopped (shared s) = false) ->
  at_pc notifies_soon (pcs s !! t) = false ->
  (parked (shared s0) = true -> stopped (shared s0) = false -> missed pc s0 -> missed pc s \/ at_pc wakes_soon pc' = true) ->
  (parked (shared s0) = true -> stopped (shared s0) = false -> at_pc wakes_soon (pcs s !! t) = true -> at_pc wakes_soon pc' = true) ->
  minded (missed pc (goes t pc' s0)) (goes t pc' s0).
Proof.
  intros M E Ep En Es Hn Hw Hb. eapply (minded_moves _ _ s s0 t pc'); try done; congruence.
Qed.

Lemma push_minded pc q r s t p s' :
  inv q r s -> minded (missed pc s) s -> pcs s !! t = Some (Pushes p) -> step t s = Ok s' -> minded (missed pc s') s'.
Proof.
  intros I M Ht E. unfold step, push_by in E. rewrite Ht in E.
  pose proof (lookup_pushes t s) as Hp. rewrite Ht in Hp. cbn in Hp.
  destruct (push_step_ok _ _ _ _ _ (i_queue _ _ _ I) Hp) as (i' & p' & E' & _ & _).
  rewrite E' in E. cbn in E. simplify_eq. destruct (note_push_rest p (with_inbox i' s)) as (N1 & N2 & N3 & N4).
  eapply (minded_aside pc s); rewrite ?N1, ?N2, ?Ht; try done.
  - intros _ _ W. destruct p as [l | l | l prev]; cbn in E'.
    + left. eapply missed_less; [| | exact W]; done.
    + right. by simplify_eq.
    + left. eapply missed_less; [| | exact W]; done.
  - intros _ _ Hw. destruct p as [l | l | l prev]; cbn in E', Hw; try done. destruct (store_next prev (Some l) (box s)); by simplify_eq/=.
Qed.

Lemma pop_minded pc q r s t pc' p k s' :
  inv q r s -> minded (missed pc s) s -> pcs s !! t = Some pc' -> pop_of pc' = Some p -> goes_on k ->
  pop_by t p k s = Ok s' -> minded (missed pc s') s'.
Proof.
  intros I M Ht Hp K E. destruct (pop_by_inv q r s t pc' p k I Ht Hp K) as (i & x & q' & _ & E' & I' & Ei & _).
  rewrite E' in E. simplify_eq. destruct (note_pop_rest x (with_inbox i s)) as (N1 & N2 & N3 & N4).
  pose proof (pop_holds _ _ Hp) as Hh.
  eapply (minded_aside pc s); rewrite ?N1, ?N2, ?Ht; try done.
  - by destruct pc'.
  - intros _ _ W. left. eapply missed_less; [| | exact W]; [| by rewrite N2].
    rewrite (work_items q r s I). change (work (note_pop x (with_inbox i s))) with (work (popped t k i x s)).
    rewrite (work_items q' r _ I'), Ei. by destruct (takes x).
  - intros _ _ Hw. by destruct pc' as [| | |[]| | | | | | |[]| |].
Qed.

Ltac aside pc s Ht := apply (minded_aside pc s); rewrite ?Ht; try done; cbn; auto.

Lemma drop_minded pc q r s t d s' :
  inv q r s -> minded (missed pc s) s -> pcs s !! t = Some (Drops d) -> step t s = Ok s' -> minded (missed pc s') s'.
Proof.
  intros I M Ht E. unfold step in E. rewrite Ht in E. destruct d as [| p | |]; cbn in E.
  - unfold try_take in E. destruct (taken (box s)); simplify_eq; aside pc s Ht.
  - eapply (pop_minded _ q r s t (Drops (DropPop p))); try done. apply (drops_goes_on Drops None). by left.
  - simplify_eq. aside pc s Ht.
  - simplify_eq. aside pc s Ht.
Qed.

Lemma wake_minded pc s t w s' :
  minded (missed pc s) s -> pcs s !! t = Some (Wakes w) -> step t s = Ok s' -> minded (missed pc s') s'.
Proof.
  intros M Ht E. unfold step in E. rewrite Ht in E. destruct w; cbn in E; simplify_eq.
  - aside pc s Ht. by intros ->.
  - eapply (minded_moves (missed pc s) _ s); rewrite ?Ht; try done; cbn. by intros _ ->.
  - eapply (minded_moves (missed pc s) _ s); rewrite ?Ht; try done; cbn; auto. congruence.
Qed.

(** The shard's thread is where only it goes, the others are not. *)
Definition shard_pc (pc : Pc) : bool :=
  match pc with Runs | Pops _ | Parks _ | Releases _ | Released | Gone => true | _ => false end.
Definition kinds (s : Sys) : Prop := forall t pc, pcs s !! t = Some pc -> shard_pc pc = bool_decide (t = shard).

Lemma kinds_goes t pc s s0 :
  kinds s -> pcs s0 = pcs s -> (forall pc', pc = Some pc' -> shard_pc pc' = bool_decide (t = shard)) -> kinds (goes t pc s0).
Proof.
  intros K E H t' pc'. rewrite lookup_goes, E. destruct (decide (t = t')) as [<- | Hne]; [apply H | apply K].
Qed.

Lemma other_minded pc q r s t s' :
  inv q r s -> kinds s -> minded (missed pc s) s -> t <> shard -> step t s = Ok s' -> minded (missed pc s') s'.
Proof.
  intros I K M Hne E. destruct (pcs s !! t) as [pc0|] eqn:Ht; [| by unfold step in E; rewrite Ht in E].
  pose proof (K t pc0 Ht) as Hk. rewrite bool_decide_false in Hk by done.
  destruct pc0 as [p| |w|d| | |x| | | | | |]; try done.
  - by eapply push_minded.
  - unfold step in E. rewrite Ht in E. simplify_eq. aside pc s Ht. intros _ -> _. done.
  - by eapply wake_minded.
  - by eapply drop_minded.
  - unfold step in E. rewrite Ht in E. simplify_eq. aside pc s Ht.
  - unfold step in E. rewrite Ht in E. simplify_eq. aside pc s Ht.
  - unfold step in E. rewrite Ht in E. destruct (settled_step x (shared s)) as [x'|b]; simplify_eq; aside pc s Ht.
Qed.

(** *** The shard's own thread *)

(** The shard's flag is its own to set, and its looks find what is there. *)
Lemma shard_minded q r s k s' :
  inv q r s -> park_ok s -> pcs s !! shard = Some (Parks k) -> step shard s = Ok s' -> park_ok s'.
Proof.
  intros I M Ht E. unfold step in E. rewrite Ht in E. pose proof (M _ Ht) as Mk.
  destruct k; cbn in E; simplify_eq; intros pc; rewrite lookup_goes, decide_True by done; intros [= <-] Hl; try done.
  - change (inbox (shared s)) with (box s) in *. destruct (is_drained (box s)) eqn:Ed; cbn in Hl; [| done]. destruct (Mk eq_refl) as [M1 M2].
    assert (W : ~ work s) by (by eapply drained_no_work). split; cbn.
    + intros H. destruct (M1 H) as [? | ?]; [by left | right]. eapply someone_goes; [done | done |]. rewrite Ht. by cbn.
    + intros _ _ H. by exfalso; apply W.
  - destruct (woken (shared s)) eqn:Ew; cbn in Hl; [done |]. destruct (Mk eq_refl) as [M1 M2]. split; cbn.
    + intros H. destruct (M1 H) as [? | ?]; [by left | right]. eapply someone_goes; [done | done |]. rewrite Ht. by cbn.
    + intros H1 H2 [H3 | H3]; [| congruence]. eapply someone_goes; [by apply M2 | done |]. rewrite Ht. by cbn.
Qed.

(** ** On the way to drop what a stopped shard was handed *)

Definition leaving (pc : Pc) : bool := match pc with Releases _ | Released | Gone => true | _ => false end.
Definition cares (pc : Pc) : bool :=
  match pc with Pushes (PushLink _ _) | SeesStopped | Drops _ | Releases _ => true | _ => false end.

Definition drop_ok (s : Sys) : Prop :=
  forall pc, pcs s !! shard = Some pc -> leaving pc = true ->
    stopped (shared s) = true /\ (work s -> someone cares s).

(** Once the shard leaves, whoever holds the role drains. *)
Lemma holder_cares q r s t pc pc0 :
  inv q r s -> kinds s -> pcs s !! shard = Some pc0 -> leaving pc0 = true ->
  taken (box s) = true -> pcs s !! t = Some pc -> holds pc = false ->
  exists t' pc', t' <> t /\ pcs s !! t' = Some pc' /\ cares pc' = true.
Proof.
  intros I K Hs Hl Etk Ht Hh. destruct (i_role _ _ _ I) as [Er Hr]. rewrite Etk in Er.
  destruct r as [t'|]; [| done]. destruct (proj1 (Hr t') eq_refl) as (pc' & Ht' & Hh').
  exists t', pc'. split; [intros ->; congruence |]. split; [done |].
  pose proof (K _ _ Ht') as Hk. destruct (decide (t' = shard)) as [-> | Hne].
  - rewrite Hs in Ht'. simplify_eq. by destruct pc' as [| | |[]| | | | | | |[]| |].
  - rewrite bool_decide_false in Hk by done. by destruct pc' as [| | |[]| | | | | | |[]| |].
Qed.

(** A queue the role of which is free is empty where its head is the stub. *)
Lemma free_empty q r s t pc :
  inv q r s -> taken (box s) = false -> pcs s !! t = Some pc -> is_empty (box s) = true -> ~ work s.
Proof.
  intros I Etk Ht He. eapply drained_no_work; [done |]. unfold is_drained. rewrite He, andb_true_r.
  destruct (i_role _ _ _ I) as [Er _]. rewrite Etk in Er. destruct r; [done |].
  rewrite (i_rest _ _ _ I); done.
Qed.

Lemma drop_cares q r s t d k last s' pc0 :
  inv q r s -> kinds s -> pcs s !! shard = Some pc0 -> leaving pc0 = true ->
  drops k last -> pcs s !! t = Some (k d) -> drop_by t d k last s = Ok s' ->
  work s' -> someone cares s'.
Proof.
  intros I K Hs Hl Hk Ht E W.
  assert (Hc : forall d, cares (k d) = true) by (by destruct Hk as [[-> _] | [-> _]]).
  assert (holds (k DropTry) = false /\ holds (k DropLook) = false) as [Hf1 Hf2] by (by destruct Hk as [[-> _] | [-> _]]).
  assert (Hout : forall s0, taken (box s) = true -> holds (k d) = false -> pcs s0 = pcs s -> someone cares (goes t last s0)).
  { intros s0 Etk Hh E0. destruct (holder_cares q r s t _ pc0 I K Hs Hl Etk Ht Hh) as (t' & pc' & Hne & Ht' & Hc').
    exists t', pc'. by rewrite lookup_goes, decide_False, E0 by done. }
  destruct d as [| p | |]; cbn in E.
  - unfold try_take in E. destruct (taken (box s)) eqn:Etk; simplify_eq; [by apply Hout | by apply someone_here].
  - destruct (pop_by_inv q r s t (k (DropPop p)) p (fun x => k (drained x))) as (i & x & q' & _ & E' & _).
    { done. } { done. } { by destruct Hk as [[-> _] | [-> _]]. } { by eapply drops_goes_on. }
    rewrite E' in E. simplify_eq. by apply someone_here.
  - simplify_eq. by apply someone_here.
  - simplify_eq. destruct (is_empty (box s)) eqn:He; [| by apply someone_here].
    destruct (taken (box s)) eqn:Etk; [by apply Hout |]. exfalso. by eapply (free_empty q r s).
Qed.

Lemma cares_aside s s0 t pc :
  (work s -> someone cares s) -> pcs s0 = pcs s -> (work s0 -> work s) -> at_pc cares (pcs s !! t) = false ->
  work (goes t pc s0) -> someone cares (goes t pc s0).
Proof. intros H E Hw Hn W. eapply someone_goes; [by apply H, Hw | done | congruence]. Qed.

Lemma other_cares q r s t s' pc0 :
  inv q r s -> kinds s -> pcs s !! shard = Some pc0 -> leaving pc0 = true -> stopped (shared s) = true ->
  (work s -> someone cares s) -> t <> shard -> step t s = Ok s' ->
  stopped (shared s') = true /\ (work s' -> someone cares s').
Proof.
  intros I K Hs Hl Hst H Hne E. destruct (pcs s !! t) as [pc|] eqn:Ht; [| by unfold step in E; rewrite Ht in E].
  pose proof (K t pc Ht) as Hk. rewrite bool_decide_false in Hk by done.
  unfold step in E. rewrite Ht in E. destruct pc as [p| |w|d| | |x| | | | | |]; try done.
  - unfold push_by in E. pose proof (lookup_pushes t s) as Hp. rewrite Ht in Hp. cbn in Hp.
    destruct (push_step_ok _ _ _ _ _ (i_queue _ _ _ I) Hp) as (i' & p' & E' & _ & _). rewrite E' in E. cbn in E. simplify_eq.
    destruct (note_push_rest p (with_inbox i' s)) as (N1 & N2 & N3 & N4). cbn. rewrite N2. split; [done |].
    destruct p as [l | l | l prev]; cbn in E'.
    + apply (cares_aside s); try done. by rewrite Ht.
    + simplify_eq. intros _. by apply someone_here.
    + destruct (store_next prev (Some l) (box s)); simplify_eq/=. intros _. by apply someone_here.
  - simplify_eq. rewrite Hst. split; [done | intros _; by apply someone_here].
  - split; [by destruct w; cbn in E; simplify_eq |]. destruct (wake_step w (shared s)) as [c w'] eqn:Ew. simplify_eq.
    apply (cares_aside s); try done. by rewrite Ht.
  - split; [| eapply (drop_cares q r s t d Drops None); try done; by left]. destruct d as [| p | |]; cbn in E.
    + by destruct (try_take (box s)) as [i []]; simplify_eq.
    + destruct (pop_by_inv q r s t (Drops (DropPop p)) p (fun x => Drops (drained x))) as (i & x & q' & _ & E' & _); try done.
      { apply (drops_goes_on Drops None). by left. }
      rewrite E' in E. simplify_eq. cbn. destruct (note_pop_rest x (with_inbox i s)) as (_ & -> & _). done.
    + by simplify_eq.
    + by simplify_eq.
  - simplify_eq. split; [done |]. apply (cares_aside s); try done. by rewrite Ht.
  - simplify_eq. split; [done |]. apply (cares_aside s); try done. by rewrite Ht.
  - destruct (settled_step x (shared s)) as [x'|b]; simplify_eq; (split; [done |]); apply (cares_aside s); try done; by rewrite Ht.
Qed.

(** ** Every act *)

Record ok (s : Sys) : Prop := {
  ok_inv : exists q r, inv q r s;
  ok_kinds : kinds s;
  ok_shard : is_Some (pcs s !! shard);
  ok_park : park_ok s;
  ok_drop : drop_ok s;
}.

Lemma start_ok : ok start.
Proof.
  assert (E0 : pushes start = ∅) by reflexivity. split.
  - exists [stub], (Some shard). split; rewrite ?E0; change (pcs start) with ({[shard := Runs]} : gmap Z Pc).
    + split; cbn.
      * apply NoDup_singleton.
      * done.
      * done.
      * done.
      * intros l ->%list_elem_of_singleton. by eexists.
      * by eexists.
      * intros a b ([|? []] & q2 & E); done.
      * intros t p. by rewrite lookup_empty.
      * intros t t' p p'. by rewrite lookup_empty.
    + split; [done |]. intros t. rewrite lookup_singleton. case_decide; naive_solver.
    + intros t p [_ ?]%lookup_singleton_Some. done.
    + intros t pc p [_ <-]%lookup_singleton_Some. done.
    + done.
    + done.
  - intros t pc. change (pcs start) with ({[shard := Runs]} : gmap Z Pc). by intros [<- <-]%lookup_singleton_Some.
  - by eexists.
  - by intros pc [= <-].
  - by intros pc [= <-].
Qed.

(** A thread goes on as the kind it is. *)
Lemma step_kinds q r s t s' : inv q r s -> kinds s -> step t s = Ok s' -> kinds s'.
Proof.
  intros I K E. destruct (pcs s !! t) as [pc|] eqn:Ht; [| by unfold step in E; rewrite Ht in E].
  pose proof (K t pc Ht) as Hk.
  assert (Hgo : forall s0 pc', pcs s0 = pcs s -> (forall x, pc' = Some x -> shard_pc x = shard_pc pc) -> kinds (goes t pc' s0)).
  { intros s0 pc' E0 Hx. eapply kinds_goes; [done | done |]. intros x Hx'. rewrite (Hx x Hx'). done. }
  assert (Hpop : forall p k, (forall x, shard_pc (k x) = shard_pc pc) -> pop_by t p k s = Ok s' -> kinds s').
  { intros p k Hx E0. unfold pop_by in E0. destruct (pop_step p (box s)) as [[i x]|]; cbn in E0; simplify_eq.
    apply Hgo; [by destruct x as [|[]] | intros y [= <-]; apply Hx]. }
  assert (Hdrop : forall d k last, (forall x, shard_pc (k x) = shard_pc pc) -> (forall x, last = Some x -> shard_pc x = shard_pc pc) ->
    drop_by t d k last s = Ok s' -> kinds s').
  { intros d k last Hx Hy E0. destruct d; cbn in E0.
    - destruct (try_take (box s)) as [i []]; simplify_eq; apply Hgo; try done. intros y [= <-]. apply Hx.
    - eapply Hpop; [| exact E0]. intros x. apply Hx.
    - simplify_eq. apply Hgo; [done |]. intros y [= <-]. apply Hx.
    - simplify_eq. apply Hgo; [done |]. intros y. destruct (is_empty (box s)); [apply Hy | intros [= <-]; apply Hx]. }
  unfold step in E. rewrite Ht in E. destruct pc as [p| |w|d| | |x| |p|k|d| |]; try done.
  - unfold push_by in E. destruct (push_step p (box s)) as [[i q']|]; cbn in E; simplify_eq.
    apply Hgo; [by destruct p | intros y [= <-]; by destruct q'].
  - simplify_eq. apply Hgo; [done | intros y [= <-]; by destruct stopped].
  - destruct (wake_step w (shared s)) as [c w']. simplify_eq. apply Hgo; [done | by intros y; destruct w'; intros [= <-]].
  - by eapply (Hdrop d Drops None).
  - simplify_eq. apply Hgo; [done | by intros y [= <-]].
  - simplify_eq. apply Hgo; [done | by intros y [= <-]].
  - destruct (settled_step x (shared s)); simplify_eq; apply Hgo; try done; by intros y [= <-].
  - eapply (Hpop p); [| exact E]. by intros [].
  - destruct (begin_park_step k (shared s)) as [c k']. simplify_eq. apply Hgo; [done | intros y [= <-]; by destruct k'].
  - eapply (Hdrop d Releases (Some Released)); [done | by intros x [= <-] | done].
  - simplify_eq. apply Hgo; [done | by intros y [= <-]].
Qed.

(** The shard's thread, stepping. *)
Lemma shard_step_ok q r s s' : inv q r s -> ok s -> step shard s = Ok s' -> park_ok s' /\ drop_ok s'.
Proof.
  intros I O E. pose proof (step_kinds q r s shard s' I (ok_kinds _ O) E) as K'.
  destruct (pcs s !! shard) as [pc|] eqn:Ht; [| by unfold step in E; rewrite Ht in E].
  pose proof (ok_kinds _ O _ _ Ht) as Hk. rewrite bool_decide_true in Hk by done.
  destruct pc as [p| |w|d| | |x| |p|k|d| |]; try done; pose proof E as E0; unfold step in E; rewrite Ht in E; try done.
  - unfold pop_by in E. destruct (pop_step p (box s)) as [[i x]|]; cbn in E; simplify_eq.
    split; intros pc; rewrite lookup_goes, decide_True by done; intros [= <-]; by destruct x.
  - split; [eapply shard_minded; [exact I | apply O | exact Ht | exact E0] |]. destruct (begin_park_step k (shared s)) as [c k']. simplify_eq.
    intros pc. rewrite lookup_goes, decide_True by done. intros [= <-]. by destruct k'.
  - destruct (ok_drop _ O _ Ht eq_refl) as [Hst Hc]. split.
    + intros pc Hpc Hl. exfalso. destruct (pcs s' !! shard) eqn:Es; simplify_eq. unfold drop_by, pop_by in E.
      destruct d as [|p| |]; [destruct (try_take (box s)) as [i []] | destruct (pop_step p (box s)) as [[i x]|] | | ];
        cbn in E; simplify_eq; rewrite lookup_goes, decide_True in Es by done; simplify_eq; try done.
      destruct (is_empty (box s)); by simplify_eq.
    + intros pc _ _. split; [| eapply (drop_cares q r s shard d Releases (Some Released)); [exact I | apply O | exact Ht | done | by right | exact Ht | exact E]].
      unfold drop_by, pop_by in E.
      destruct d as [|p| |]; [destruct (try_take (box s)) as [i []] | destruct (pop_step p (box s)) as [[i x]|] | | ];
        cbn in E; simplify_eq; try done. cbn. by destruct (note_pop_rest x (with_inbox i s)) as (_ & -> & _).
  - destruct (ok_drop _ O _ Ht eq_refl) as [Hst Hc]. simplify_eq. split.
    + intros pc. rewrite lookup_goes, decide_True by done. by intros [= <-].
    + intros pc _ _. split; [done |]. apply (cares_aside s); try done. by rewrite Ht.
Qed.

(** A step moves its own thread. *)
Lemma step_goes t s s' : step t s = Ok s' -> exists pc s0, s' = goes t pc s0 /\ pcs s0 = pcs s.
Proof.
  intros E. assert (Hpop : forall p k s', pop_by t p k s = Ok s' -> exists pc s0, s' = goes t pc s0 /\ pcs s0 = pcs s).
  { intros p k s0 E0. unfold pop_by in E0. destruct (pop_step p (box s)) as [[i x]|]; cbn in E0; simplify_eq.
    do 2 eexists. split; [done |]. apply (note_pop_rest x (with_inbox i s)). }
  assert (Hdrop : forall d k l s', drop_by t d k l s = Ok s' -> exists pc s0, s' = goes t pc s0 /\ pcs s0 = pcs s).
  { intros d k l s0 E0. destruct d; cbn in E0; [| by eapply Hpop | |].
    - destruct (try_take (box s)) as [i []]; simplify_eq; by do 2 eexists.
    - simplify_eq. by do 2 eexists.
    - simplify_eq. by do 2 eexists. }
  unfold step in E. destruct (pcs s !! t) as [[p| |w|d| | |x| |p|k|d| |]|]; try done;
    try (simplify_eq; by do 2 eexists); try (by eapply Hpop); try (by eapply Hdrop).
  - unfold push_by in E. destruct (push_step p (box s)) as [[i q]|]; cbn in E; simplify_eq.
    do 2 eexists. split; [done |]. apply (note_push_rest p (with_inbox i s)).
  - destruct (wake_step w (shared s)). simplify_eq. by do 2 eexists.
  - destruct (settled_step x (shared s)); simplify_eq; by do 2 eexists.
  - destruct (begin_park_step k (shared s)). simplify_eq. by do 2 eexists.
Qed.

(** Another thread steps: the shard is where it was. *)
Lemma other_step_ok q r s t s' : inv q r s -> ok s -> t <> shard -> step t s = Ok s' -> park_ok s' /\ drop_ok s'.
Proof.
  intros I O Hne E. assert (Hsame : pcs s' !! shard = pcs s !! shard).
  { destruct (step_goes t s s' E) as (pc & s0 & -> & E0). by rewrite lookup_goes, decide_False, E0. }
  split; intros pc Hpc Hl; rewrite Hsame in Hpc.
  - eapply other_minded; [exact I | apply O | by apply (ok_park _ O) | done | done].
  - destruct (ok_drop _ O pc Hpc Hl). eapply other_cares; try done. apply O.
Qed.

(** The shard's thread is always somewhere. *)
Lemma step_shard q r s t s' : inv q r s -> ok s -> step t s = Ok s' -> is_Some (pcs s' !! shard).
Proof.
  intros I O E. destruct (step_goes t s s' E) as (pc & s0 & -> & E0). rewrite lookup_goes, E0.
  case_decide; [subst t | apply O]. destruct pc as [pc|]; [done | exfalso].
  destruct (ok_shard _ O) as [pc0 Ht]. pose proof (ok_kinds _ O _ _ Ht) as Hk. rewrite bool_decide_true in Hk by done.
  assert (Hn : forall pc s1 s2, (Ok (goes shard (Some pc) s1) : Step) = Ok (goes shard None s2) -> False).
  { intros pc s1 s2 H%(f_equal (fun x : Step => match x with Ok s => pcs s !! shard | _ => None end)).
    rewrite !lookup_goes, !decide_True in H; done. }
  unfold step in E. rewrite Ht in E. destruct pc0 as [p| |w|d| | |x| |p|k|d| |]; try done; unfold drop_by, pop_by in E.
  - destruct (pop_step p (box s)) as [[i x]|]; cbn in E; [by eapply Hn | done].
  - destruct (begin_park_step k (shared s)). by eapply Hn.
  - destruct d as [|p| |]; [destruct (try_take (box s)) as [i []] | destruct (pop_step p (box s)) as [[i x]|] | | ]; cbn in E;
      try done; try (by eapply Hn). destruct (is_empty (box s)); by eapply Hn.
  - by eapply Hn.
Qed.

(** A thread that begins a call joins those there are. *)
Lemma call_goes t c s s' :
  call t c s = Ok s' -> exists pc s0, s' = goes t (Some pc) s0 /\ pcs s0 = pcs s /\
    shared s0 = set_inbox (inbox (shared s0)) (shared s) /\ pushed s0 = pushed s /\ handed s0 = handed s /\ shard_pc pc = false.
Proof.
  intros E. destruct c as [l | | |]; cbn in E; [case_bool_decide; simplify_eq | simplify_eq..];
    (do 2 eexists; split; [reflexivity |]); repeat split; by destruct (shared s).
Qed.

Lemma call_ok q r s t c s' : inv q r s -> ok s -> pcs s !! t = None -> call t c s = Ok s' -> ok s'.
Proof.
  intros I O Ht E. pose proof (call_inv q r s t c s' I Ht E) as I'.
  destruct (call_goes t c s s' E) as (pc & s0 & -> & Ep & Es & E1 & E2 & Hk).
  assert (Hne : t <> shard) by (intros ->; destruct (ok_shard _ O); congruence).
  assert (Hsame : pcs (goes t (Some pc) s0) !! shard = pcs s !! shard) by (by rewrite lookup_goes, decide_False, Ep).
  assert (Hw : work s0 -> work s) by (unfold work; by rewrite E1, E2).
  split; [eauto | | by rewrite Hsame; apply O | |].
  - eapply kinds_goes; [apply O | done |]. intros pc' [= <-]. by rewrite bool_decide_false.
  - intros pc' Hpc Hl. rewrite Hsame in Hpc. apply (minded_aside pc' s); rewrite ?Ht; try done; try (by rewrite Es).
    + by apply (ok_park _ O).
    + intros _ _ W. left. eapply missed_less; [done | by rewrite Es | done].
  - intros pc' Hpc Hl. rewrite Hsame in Hpc. destruct (ok_drop _ O pc' Hpc Hl) as [H1 H2]. split; [cbn; by rewrite Es |].
    apply (cares_aside s); try done. by rewrite Ht.
Qed.

Lemma shard_call_ok q r s c s' : inv q r s -> ok s -> pcs s !! shard = Some Runs -> shard_call c s = Ok s' -> ok s'.
Proof.
  intros I O Ht E. pose proof (shard_call_inv q r s c s' I Ht E) as I'.
  assert (Hstay : forall c, s' = with_shared c s -> inbox c = box s -> ok s').
  { intros c0 -> _. split; [eauto | apply O | apply O | |]; intros pc Hpc; cbn in Hpc; rewrite Ht in Hpc; by simplify_eq. }
  assert (Hgo : forall pc, s' = goes shard (Some pc) s -> shard_pc pc = true -> looks pc = false ->
    (leaving pc = true -> stopped (shared s) = true /\ cares pc = true) -> ok s').
  { intros pc -> Hk Hl Hlv. split; [eauto | | | |].
    - eapply kinds_goes; [apply O | done |]. by intros pc' [= <-].
    - rewrite lookup_goes, decide_True; done.
    - intros pc'. rewrite lookup_goes, decide_True by done. intros [= <-]. congruence.
    - intros pc'. rewrite lookup_goes, decide_True by done. intros [= <-] Hv. destruct (Hlv Hv).
      split; [done | intros _; by apply someone_here]. }
  destruct c; cbn in E; simplify_eq; try (by eapply Hstay); try (by eapply Hgo).
  destruct (stopped (shared s)) eqn:Es; simplify_eq. by eapply Hgo.
Qed.

Lemma inbox_act_ok s a s' : ok s -> act a s = Ok s' -> ok s'.
Proof.
  intros O E. destruct (ok_inv _ O) as (q & r & I). destruct (act_inv q r s a s' I E) as (q' & r' & I').
  destruct a as [t c | c | t]; unfold act in E.
  - destruct (pcs s !! t) eqn:Ht; [done |]. by eapply (call_ok q r s).
  - destruct (pcs s !! shard) as [[]|] eqn:Ht; try done. by eapply (shard_call_ok q r s).
  - assert (park_ok s' /\ drop_ok s') as [HP HD].
    { destruct (decide (t = shard)) as [-> | Hne]; [by eapply (shard_step_ok q r s) | by eapply (other_step_ok q r s)]. }
    split; [eauto | eapply (step_kinds q r s); [done | apply O | done] | by eapply (step_shard q r s) | done | done].
Qed.

Lemma acts_ok l s s' : ok s -> acts l s = Ok s' -> ok s'.
Proof.
  revert s. induction l as [|a l IH]; intros s O E; cbn in E; [by simplify_eq |].
  destruct (act a s) as [s1|] eqn:Ea; [| done]. cbn in E. eapply IH; [| done]. by eapply inbox_act_ok.
Qed.

(** ** A pop that no push disturbs *)

(** Between which steps of its own, and how many are left. *)
Definition calm (i : Inbox) (p : Popping) : Prop :=
  match p with
  | PopTail => True
  | PopEmpty => head i = stub
  | PopNext cur => tail i = cur
  | PopHead cur | PopStub cur (PushClear _) | PopStub cur (PushSwap _) => tail i = cur /\ head i = cur
  | PopStub cur (PushLink _ prev) => prev = cur
  | PopLast cur => exists n, next i !! cur = Some (Some n)
  end.
Definition left (p : Popping) : nat :=
  match p with
  | PopTail => 8
  | PopNext _ => 7
  | PopHead _ => 6
  | PopStub _ (PushClear _) => 5
  | PopStub _ (PushSwap _) => 4
  | PopStub _ (PushLink _ _) => 3
  | PopEmpty | PopLast _ => 2
  end.

Definition unlinked (ps : gmap Z Push) (t : Z) : Prop := forall t' l prev, ps !! t' = Some (PushLink l prev) -> t' = t.

Lemma calm_step q i ps t p i' x :
  queue_ok q i ps -> pop_ok q i p -> ps !! t = stub_push p -> unlinked ps t -> calm i p -> pop_step p i = Some (i', x) ->
  match x with inl p' => calm i' p' /\ (left p' < left p)%nat | inr Busy => False | inr _ => True end.
Proof.
  intros Q Hp Ht Hu Hc E.
  assert (Hend : stub_push p = None -> next i !! tail i = Some None -> head i = tail i).
  { intros Hs Hn. destruct (q_unlinked _ _ _ Q Hn) as [Eq | (t' & b & H')].
    - pose proof (q_head _ _ _ Q) as Hh. rewrite Eq in Hh. by injection Hh.
    - pose proof (Hu _ _ _ H') as ->. congruence. }
  destruct p as [| | cur | cur | cur p | cur]; cbn in E, Hc, Hp, Ht; unfold hand_out in E.
  - unfold load_next in E. destruct (next i !! tail i) as [[n|]|] eqn:En; [| | done]; cbn in E;
      destruct (Z.eqb_spec (tail i) stub) as [Es | Hs]; simplify_eq; cbn; try done;
      (split; [rewrite ?Hend by done; done | lia]).
  - unfold is_empty in E. rewrite Hc in E. by simplify_eq.
  - subst cur. unfold load_next in E. destruct (next i !! tail i) as [[n|]|] eqn:En; [| | done]; cbn in E; simplify_eq; [done |].
    cbn. rewrite Hend by done. split; [done | lia].
  - destruct Hc as [H1 H2]. rewrite <- H2, Z.eqb_refl in E. simplify_eq. cbn. split; [done | lia].
  - destruct p as [l | l | l prev]; cbn in E.
    + destruct (store_next l None i) as [i1|] eqn:E1; cbn in E; simplify_eq. unfold store_next in E1. case_bool_decide; simplify_eq.
      cbn. split; [done | lia].
    + simplify_eq. cbn. split; [by destruct Hc | lia].
    + destruct (store_next prev (Some l) i) as [i1|] eqn:E1; cbn in E; simplify_eq. unfold store_next in E1. case_bool_decide; simplify_eq.
      cbn. split; [| lia]. exists l. by rewrite lookup_insert_eq.
  - destruct Hc as [n Hn]. unfold load_next in E. rewrite Hn in E. cbn in E. by simplify_eq.
Qed.

Lemma acts_app l l' s : acts (l ++ l') s = let? s := acts l s in acts l' s.
Proof. revert s. induction l as [|a l IH]; intros s; [done |]. cbn. destruct (act a s); [apply IH | done]. Qed.

Definition front {A} (l : list A) : list A := match l with [] => [] | x :: _ => [x] end.

Lemma lone_pop n q r s p :
  inv q r s -> pcs s !! shard = Some (Pops p) -> unlinked (pushes s) shard -> calm (box s) p -> (left p <= n)%nat ->
  exists m s', (m <= n)%nat /\ acts (replicate m (Steps shard)) s = Ok s' /\ pcs s' !! shard = Some Runs /\
    pushed s' = pushed s /\ handed s' = handed s ++ front (items q).
Proof.
  revert q s p. induction n as [|n IH]; intros q s p I Ht Hu Hc Hn; [destruct p as [| | | | ?[] |]; cbn in Hn; lia |].
  set (k := fun r : Popping + Pop => match r with inl p => Pops p | inr _ => Runs end).
  assert (K : goes_on k) by (split; [done | by left | by intros [] | by intros []]).
  destruct (pop_by_inv q r s shard (Pops p) p k I Ht eq_refl K) as (i & x & q' & Es & E & I' & Ei & He).
  assert (Hl : pushes s !! shard = stub_push p) by (by rewrite lookup_pushes, Ht).
  pose proof (calm_step q _ _ shard p i x (i_queue _ _ _ I) (i_pops _ _ _ I _ _ p Ht eq_refl) Hl Hu Hc Es) as Hx.
  assert (Ea : act (Steps shard) s = Ok (popped shard k i x s)) by (cbn; unfold step; by rewrite Ht).
  destruct (note_pop_rest x (with_inbox i s)) as (N1 & N2 & N3 & N4).
  destruct x as [p' | x].
  - destruct Hx as [Hc' Hlt]. destruct (IH q' (popped shard k i (inl p') s) p') as (m & s' & Hm & E1 & E2 & E3 & E4).
    + done.
    + unfold popped. by rewrite lookup_goes, decide_True.
    + unfold popped. rewrite pushes_goes. intros t' l prev. unfold becomes. cbn.
      destruct (stub_push p') as [sp|]; [rewrite lookup_insert_Some; intros [[<- _] | [_ H]]; [done |]
        | rewrite lookup_delete_Some; intros [_ H]]; by eapply Hu.
    + done.
    + lia.
    + exists (S m), s'. split; [lia |]. cbn. cbn in Ea. rewrite Ea. cbn. at_hand 3.
      rewrite E4. cbn in *. by rewrite Ei.
  - exists 1%nat, (popped shard k i (inr x) s). split; [lia |].
    split; [cbn; cbn in Ea; by rewrite Ea |]. unfold popped. rewrite lookup_goes, decide_True by done. split; [done |].
    split; [exact N3 |]. etrans; [exact N4 |]. rewrite Ei.
    by destruct x; cbn; [| rewrite He |].
Qed.
