(* ===== verification/InboxSpec.v ===== *)
(** * What a shard's inbox and park promise

    The theorems of [Inbox]: order and safety of the queue, progress of a pop,
    no lost wake, nothing left behind a shard that stopped, and one look that
    says too early that nothing is left. *)

From S2P Require Import Prelude Inbox InboxInv InboxSys InboxPark.
Open Scope Z_scope.

Lemma act_safe s a : ok s -> act a s <> Err Dangles.
Proof.
  intros O E. destruct (ok_inv _ O) as (q & r & I). destruct a as [t c | c | t]; unfold act in E.
  - destruct (pcs s !! t); [done |]. destruct c; cbn in E; try done. by case_bool_decide.
  - destruct (pcs s !! shard) as [[]|]; try done. destruct c; cbn in E; try done. by destruct (stopped (shared s)).
  - destruct (pcs s !! t) as [pc|] eqn:Ht; [| unfold step in E; by rewrite Ht in E].
    destruct (decide (pc = Runs \/ pc = Gone)) as [[-> | ->] | Hne]; [unfold step in E; by rewrite Ht in E.. |].
    destruct (step_inv q r s t I) as (s0 & q' & r' & E0 & _); [rewrite Ht; naive_solver.. |]. congruence.
Qed.

(** C2. Whatever threads push, pop, wake, stop and drop, in any interleaving of
    their atomic steps: no step follows a link of an item that was given away;
    what is handed out is what was pushed, in the order of the pushes' swaps,
    each once; a pop answers that the queue is empty, and the taker's look at
    both ends finds it drained, only when everything pushed was handed out. *)
Theorem inbox_delivers_in_order l s :
  acts l start = Ok s ->
  (exists waiting, pushed s = handed s ++ waiting) /\
  (forall a, act a s <> Err Dangles) /\
  (forall t pc i, pcs s !! t = Some pc -> pop_of pc = Some PopEmpty ->
     pop_step PopEmpty (box s) = Some (i, inr Empty) -> handed s = pushed s) /\
  (is_drained (box s) = true -> handed s = pushed s).
Proof.
  intros E. assert (O := acts_ok l start s start_ok E). destruct (ok_inv _ O) as (q & r & I).
  assert (Hd : is_drained (box s) = true -> handed s = pushed s).
  { intros Hd. pose proof (drained_no_work q r s I Hd) as Hw. unfold work in Hw.
    destruct (decide (handed s = pushed s)); done. }
  split; [by exists (items q); apply I |]. split; [intros a; by apply act_safe |]. split; [| exact Hd].
  intros t pc i Ht Hp He. apply Hd. pose proof (i_pops _ _ _ I _ _ _ Ht Hp) as Htl. cbn in Htl, He.
  unfold is_drained. rewrite Htl, Z.eqb_refl. destruct (is_empty (box s)); [done | by simplify_eq].
Qed.

(** Two threads race to push; the first links last, and the shard, which looks
    in between, takes both in the order of the swaps. *)
Definition race : list Act :=
  [Calls 1 (PushRemote 7); Calls 2 (PushRemote 8); Steps 1; Steps 2; Steps 1; Steps 2; Steps 2;
   ShardCalls PopInbox; Steps shard; Steps shard; Steps 1;
   ShardCalls PopInbox; Steps shard; Steps shard].
Definition after (l : list Act) : Sys := match acts l start with Ok s => s | Err _ => start end.

Lemma inbox_delivers_in_order_witness :
  acts race start = Ok (after race) /\ handed (after race) = [7] /\ pushed (after race) = [7; 8] /\
  exists waiting, pushed (after race) = handed (after race) ++ waiting.
Proof.
  assert (E : acts race start = Ok (after race)) by (vm_compute; reflexivity).
  split; [exact E |]. split; [vm_compute; reflexivity |]. split; [vm_compute; reflexivity |].
  exact (proj1 (inbox_delivers_in_order race (after race) E)).
Defined.

(** A pop makes progress: where no push is between its swap and its link,
    the shard's pop, left alone, ends within nine of its own steps, having
    handed out the oldest item, or nothing where there is none. *)
Theorem pop_finds_the_front l s :
  acts l start = Ok s -> pcs s !! shard = Some Runs ->
  (forall t pc a b, pcs s !! t = Some pc -> pc <> Pushes (PushLink a b)) ->
  exists n s' waiting, (n <= 9)%nat /\
    acts (ShardCalls PopInbox :: replicate n (Steps shard)) s = Ok s' /\ pcs s' !! shard = Some Runs /\
    pushed s' = pushed s /\ pushed s = handed s ++ waiting /\ handed s' = handed s ++ front waiting.
Proof.
  intros E Ht Hq. assert (O := acts_ok l start s start_ok E). destruct (ok_inv _ O) as (q & r & I).
  set (s1 := goes shard (Some (Pops PopTail)) s).
  assert (E1 : act (ShardCalls PopInbox) s = Ok s1) by (cbn; by rewrite Ht).
  assert (I1 : inv q r s1) by (by eapply (shard_call_inv q r s PopInbox)).
  destruct (lone_pop 8 q r s1 PopTail) as (n & s' & Hn & E2 & E3 & E4 & E5).
  - done.
  - unfold s1. by rewrite lookup_goes, decide_True.
  - intros t a b. unfold s1. rewrite pushes_goes. cbn. rewrite lookup_delete_Some, lookup_pushes. intros [_ H].
    destruct (pcs s !! t) as [pc|] eqn:Hpc; [| done]. cbn in H. exfalso.
    destruct (decide (pc = Pushes (PushLink a b))) as [-> | Hne]; [by eapply Hq |].
    assert (Hh : holds pc = true) by (destruct pc as [| | |[]| | | | | | |[]| |]; cbn in H; naive_solver).
    destruct (role_holds _ _ _ _ _ (i_role _ _ _ I) Hpc Hh) as [Er _].
    destruct (role_holds _ _ _ _ _ (i_role _ _ _ I) Ht eq_refl) as [Er' _]. rewrite Er in Er'. by simplify_eq.
  - done.
  - cbn. lia.
  - exists n, s', (items q). split; [lia |]. split; [cbn [acts]; by rewrite E1 |]. split; [done |]. split; [done |].
    split; [apply I |]. done.
Qed.

Lemma pop_finds_the_front_witness :
  let s := after (take 11 race) in
  acts (take 11 race) start = Ok s /\ pcs s !! shard = Some Runs /\ handed s = [] /\
  exists n s' waiting, (n <= 9)%nat /\
    acts (ShardCalls PopInbox :: replicate n (Steps shard)) s = Ok s' /\ pcs s' !! shard = Some Runs /\
    pushed s' = pushed s /\ pushed s = handed s ++ waiting /\ handed s' = handed s ++ front waiting.
Proof.
  intros s. assert (E : acts (take 11 race) start = Ok s) by (vm_compute; reflexivity).
  split; [exact E |]. split; [vm_compute; reflexivity |]. split; [vm_compute; reflexivity |].
  apply (pop_finds_the_front (take 11 race) s E); [vm_compute; reflexivity |].
  assert (Em : pcs s = {[shard := Runs; 1 := SeesStopped; 2 := SeesStopped]}) by (vm_compute; reflexivity).
  intros t pc a b. rewrite Em. rewrite !lookup_insert_Some, lookup_singleton_Some. naive_solver.
Defined.

(** Whoever is on the way to wake a parked shard, left alone, notifies it. *)
Lemma soon_notifies q r s t pc :
  inv q r s -> pcs s !! t = Some pc -> parked (shared s) = true -> stopped (shared s) = false -> wakes_soon pc = true ->
  exists n s', (n <= 5)%nat /\ acts (replicate n (Steps t)) s = Ok s' /\ notified (shared s') = true.
Proof.
  intros I Ht Hp Hs Hw.
  assert (Hswap : forall s, pcs s !! t = Some (Wakes WakeSwap) -> parked (shared s) = true ->
    exists s', acts (replicate 2 (Steps t)) s = Ok s' /\ notified (shared s') = true).
  { intros s0 H0 H1. cbn. unfold step. rewrite H0. cbn. rewrite H1. cbn. rewrite lookup_insert_eq. cbn. by eexists. }
  assert (Hload : forall s, pcs s !! t = Some (Wakes WakeLoad) -> parked (shared s) = true ->
    exists s', acts (replicate 3 (Steps t)) s = Ok s' /\ notified (shared s') = true).
  { intros s0 H0 H1. change (replicate 3 _) with (Steps t :: replicate 2 (Steps t)). cbn [acts act]. unfold step. rewrite H0.
    cbn [wake_step]. rewrite H1. apply Hswap; [by rewrite lookup_goes, decide_True | done]. }
  assert (Hsees : forall s, pcs s !! t = Some SeesStopped -> parked (shared s) = true -> stopped (shared s) = false ->
    exists s', acts (replicate 4 (Steps t)) s = Ok s' /\ notified (shared s') = true).
  { intros s0 H0 H1 H2. change (replicate 4 _) with (Steps t :: replicate 3 (Steps t)). cbn [acts act]. unfold step. rewrite H0, H2.
    apply Hload; [by rewrite lookup_goes, decide_True | done]. }
  destruct pc as [[| | a b]| |[]| | | | | | | | | |]; try done.
  - destruct (push_by_inv q r s t _ I Ht) as (s1 & E1 & _). pose proof E1 as E2. unfold step, push_by in E2. rewrite Ht in E2. cbn in E2.
    assert (pcs s1 !! t = Some SeesStopped /\ parked (shared s1) = true /\ stopped (shared s1) = false) as (H0 & H1 & H2).
    { destruct (store_next b (Some a) (box s)); cbn in E2; simplify_eq. by rewrite lookup_goes, decide_True. }
    destruct (Hsees s1 H0 H1 H2) as (s' & E & Hn). exists 5%nat, s'. split; [lia |]. split; [| exact Hn].
    change (replicate 5 _) with (Steps t :: replicate 4 (Steps t)). cbn [acts act]. by rewrite E1.
  - destruct (Hsees s Ht Hp Hs) as (s' & E & Hn). exists 4%nat, s'. split; [lia | done].
  - destruct (Hload s Ht Hp) as (s' & E & Hn). exists 3%nat, s'. split; [lia | done].
  - destruct (Hswap s Ht Hp) as (s' & E & Hn). exists 2%nat, s'. split; [lia | done].
Qed.

(** C4. No wake is lost: in whatever order the shard parks and others bring it
    work, a shard asleep in its park while its inbox holds an item (or the
    signal of its future is set), and which did not stop, has a notification
    waiting, or there is a thread whose next steps, at most five, alone leave
    one. *)
Theorem park_loses_no_wake l s :
  acts l start = Ok s -> pcs s !! shard = Some (Parks Asleep) -> stopped (shared s) = false ->
  handed s <> pushed s \/ woken (shared s) = true ->
  notified (shared s) = true \/
  exists t n s', (n <= 5)%nat /\ acts (replicate n (Steps t)) s = Ok s' /\ notified (shared s') = true.
Proof.
  intros E Ht Hs Hw. assert (O := acts_ok l start s start_ok E). destruct (ok_inv _ O) as (q & r & I).
  destruct (ok_park _ O _ Ht eq_refl) as [M1 M2]. destruct (parked (shared s)) eqn:Ep.
  - destruct (M2 eq_refl Hs Hw) as (t & pc & Ht' & Hpc). right. exists t. by eapply (soon_notifies q r s).
  - destruct (M1 eq_refl) as [H | (t & pc & Ht' & Hpc)]; [by left | right]. destruct pc as [| |[]| | | | | | | | | |]; try done.
    eexists t, 1%nat, _. split; [lia |]. cbn. unfold step. rewrite Ht'. done.
Qed.

(** A push swaps in just after the shard's look. *)
Definition late_push : list Act :=
  [ShardCalls PollFuture; Calls 1 (PushRemote 7); Steps 1; ShardCalls Park; Steps shard; Steps shard; Steps 1; Steps shard].

Lemma park_loses_no_wake_witness :
  let s := after late_push in
  acts late_push start = Ok s /\ pcs s !! shard = Some (Parks Asleep) /\ handed s <> pushed s /\
  (notified (shared s) = true \/
   exists t n s', (n <= 5)%nat /\ acts (replicate n (Steps t)) s = Ok s' /\ notified (shared s') = true).
Proof.
  intros s. assert (E : acts late_push start = Ok s) by (vm_compute; reflexivity).
  assert (Hw : handed s <> pushed s) by (vm_compute; discriminate).
  split; [exact E |]. split; [vm_compute; reflexivity |]. split; [exact Hw |].
  apply (park_loses_no_wake late_push s E); [vm_compute; reflexivity | vm_compute; reflexivity | left; exact Hw].
Defined.

(** Nothing is left behind a shard that stopped: once it let go of its
    inbox, and no other thread is past its push's swap or drains, everything
    that was ever pushed was handed out. In particular pushers that found the
    role held left their items to a holder that looks again. *)
Theorem stopped_inbox_is_emptied l s pc :
  acts l start = Ok s -> pcs s !! shard = Some pc -> pc = Released \/ pc = Gone ->
  (forall t pc', pcs s !! t = Some pc' -> cares pc' = false) -> handed s = pushed s.
Proof.
  intros E Ht Hpc Hno. assert (O := acts_ok l start s start_ok E).
  destruct (ok_drop _ O _ Ht) as [_ Hc]; [by destruct Hpc as [-> | ->] |].
  destruct (decide (handed s = pushed s)) as [| Hne]; [done | exfalso].
  destruct (Hc Hne) as (t & pc' & Ht' & Hcares). by rewrite (Hno t pc' Ht') in Hcares.
Qed.

(** A push finds the stop while the shard still holds the role, and leaves its item to it. *)
Definition late_stop : list Act :=
  [ShardCalls GoStop; ShardCalls ReleaseInbox; Steps shard; Steps shard;
   Calls 1 (PushRemote 7); Steps 1; Steps 1; Steps 1; Steps 1; Steps 1] ++ replicate 15 (Steps shard).

Lemma stopped_inbox_is_emptied_witness :
  let s := after late_stop in
  acts late_stop start = Ok s /\ pcs s = {[shard := Gone]} /\ pushed s = [7] /\ handed s = pushed s.
Proof.
  intros s. assert (E : acts late_stop start = Ok s) by (vm_compute; reflexivity).
  assert (Em : pcs s = {[shard := Gone]}) by (vm_compute; reflexivity).
  split; [exact E |]. split; [exact Em |]. split; [vm_compute; reflexivity |].
  apply (stopped_inbox_is_emptied late_stop s Gone E); [by rewrite Em | by right |].
  intros t pc'. rewrite Em, lookup_singleton_Some. by intros [_ <-].
Defined.

(** The look by which a runtime's drop decides that nothing is left to
    drop is not one look: [is_idle] reads first that nobody holds the role, then
    that the head is the stub. A pusher may take the role in between and put the
    stub back before it hands its item out. So a shard can be said to have
    settled while an item pushed before the question was asked is still there. *)
Theorem settled_says_too_early :
  exists l l' s s' item, acts l start = Ok s /\ item ∈ pushed s /\ pcs s !! 9 = None /\
    pcs s !! shard = Some Gone /\ acts (Calls 9 Settled :: l') s = Ok s' /\
    said s' !! 9 = Some true /\ item ∉ handed s'.
Proof.
  exists ([ShardCalls GoStop; ShardCalls ReleaseInbox] ++ replicate 5 (Steps shard) ++
          [Calls 1 (PushRemote 7); Steps 1; Steps 1; Steps 1]),
    [Steps 9; Steps 9; Steps 1; Steps 1; Steps 1; Steps 1; Steps 1; Steps 1; Steps 1; Steps 9].
  eexists _, _, 7. split; [vm_compute; reflexivity |]. split; [vm_compute; left |]. split; [vm_compute; reflexivity |].
  split; [vm_compute; reflexivity |]. split; [vm_compute; reflexivity |]. split; [vm_compute; reflexivity |].
  vm_compute. set_solver.
Qed.
