(* ===== verification/ShardOrder.v ===== *)
(** * The order a shard takes its runnables in

    [rt/shard/order.rs] and [push_local_from] of [rt/shard.rs]: the slot of the
    task woken last, the local queue, the inbox and the homes of bound tasks,
    and the turns at which remote work comes first. The inbox and the homes are
    the queues [Inbox] shows them to be, seen when no push to them is between
    its two steps. Counts for statistics are left out. *)

From S2P Require Import Prelude.
Open Scope Z_scope.

Definition Runnable : Type := Z.

Definition LIFO_MAX : Z := 3.

Record Shard : Type := {
  lifo : option Runnable;
  queue : list Runnable;
  lifo_streak : Z;
  until_inbox : Z;
  homes_first : bool;
  inbox : list Runnable;
  thread_home : option (list Runnable);   (** the home of the thread that runs the shard *)
  home : option (list Runnable);          (** the shard's own *)
  inbox_interval : Z;
  tuning_lifo : bool;
}.

Definition set_lifo x s := {| lifo := x; queue := queue s; lifo_streak := lifo_streak s; until_inbox := until_inbox s;
  homes_first := homes_first s; inbox := inbox s; thread_home := thread_home s; home := home s;
  inbox_interval := inbox_interval s; tuning_lifo := tuning_lifo s |}.
Definition set_queue x s := {| lifo := lifo s; queue := x; lifo_streak := lifo_streak s; until_inbox := until_inbox s;
  homes_first := homes_first s; inbox := inbox s; thread_home := thread_home s; home := home s;
  inbox_interval := inbox_interval s; tuning_lifo := tuning_lifo s |}.
Definition set_lifo_streak x s := {| lifo := lifo s; queue := queue s; lifo_streak := x; until_inbox := until_inbox s;
  homes_first := homes_first s; inbox := inbox s; thread_home := thread_home s; home := home s;
  inbox_interval := inbox_interval s; tuning_lifo := tuning_lifo s |}.
Definition set_until_inbox x s := {| lifo := lifo s; queue := queue s; lifo_streak := lifo_streak s; until_inbox := x;
  homes_first := homes_first s; inbox := inbox s; thread_home := thread_home s; home := home s;
  inbox_interval := inbox_interval s; tuning_lifo := tuning_lifo s |}.
Definition set_homes_first x s := {| lifo := lifo s; queue := queue s; lifo_streak := lifo_streak s; until_inbox := until_inbox s;
  homes_first := x; inbox := inbox s; thread_home := thread_home s; home := home s;
  inbox_interval := inbox_interval s; tuning_lifo := tuning_lifo s |}.
Definition set_inbox x s := {| lifo := lifo s; queue := queue s; lifo_streak := lifo_streak s; until_inbox := until_inbox s;
  homes_first := homes_first s; inbox := x; thread_home := thread_home s; home := home s;
  inbox_interval := inbox_interval s; tuning_lifo := tuning_lifo s |}.
Definition set_thread_home x s := {| lifo := lifo s; queue := queue s; lifo_streak := lifo_streak s; until_inbox := until_inbox s;
  homes_first := homes_first s; inbox := inbox s; thread_home := x; home := home s;
  inbox_interval := inbox_interval s; tuning_lifo := tuning_lifo s |}.
Definition set_home x s := {| lifo := lifo s; queue := queue s; lifo_streak := lifo_streak s; until_inbox := until_inbox s;
  homes_first := homes_first s; inbox := inbox s; thread_home := thread_home s; home := x;
  inbox_interval := inbox_interval s; tuning_lifo := tuning_lifo s |}.

(** ** Taking *)

(** A shard's answer with the shard after it. *)
Definition Took : Type := option Runnable * Shard.

(** [pop_home]: the home of the thread, else the shard's own. *)
Definition pop_home (s : Shard) : Took :=
  match thread_home s with
  | Some (r :: l) => (Some r, set_thread_home (Some l) s)
  | _ =>
      match home s with
      | Some (r :: l) => (Some r, set_home (Some l) s)
      | _ => (None, s)
      end
  end.

Definition pop_inbox_only (s : Shard) : Took :=
  match inbox s with
  | r :: l => (Some r, set_inbox l s)
  | [] => (None, s)
  end.

Definition pop_inbox (s : Shard) : Took :=
  match inbox s with
  | r :: l => (Some r, set_inbox l s)
  | [] => pop_home s
  end.

(** [pop_remote]: the interval's look, the inbox first or the home first, by turns. *)
Definition pop_remote (s : Shard) : Took :=
  let first := negb (homes_first s) in
  let s := set_homes_first first s in
  if negb first then pop_inbox s
  else
    match pop_home s with
    | (Some r, s) => (Some r, s)
    | (None, s) => pop_inbox_only s
    end.

(** The front of the local queue, else the inbox. *)
Definition pop_queue (s : Shard) : Took :=
  let s := set_lifo_streak 0 s in
  match queue s with
  | r :: l => (Some r, set_queue l s)
  | [] => pop_inbox s
  end.

(** [next_local]: the slot, at most [LIFO_MAX] times in a row while others wait. *)
Definition next_local (s : Shard) : Took :=
  match lifo s with
  | Some r =>
      let s := set_lifo None s in
      if lifo_streak s <? LIFO_MAX then (Some r, set_lifo_streak (lifo_streak s + 1) s)
      else
        match queue s with
        | [] => (Some r, set_lifo_streak 0 s)
        | q => pop_queue (set_queue (q ++ [r]) s)
        end
  | None => pop_queue s
  end.

Definition interval_turn (s : Shard) : Took :=
  match pop_remote (set_until_inbox (inbox_interval s) s) with
  | (Some r, s) => (Some r, s)
  | (None, s) => next_local s
  end.

Definition next (s : Shard) : Took :=
  let left := (until_inbox s - 1) mod 2 ^ 32 in
  if left =? 0 then interval_turn s else next_local (set_until_inbox left s).

(** ** Queueing *)

(** [push_local_from]: a task woken by the task that runs goes to the slot. *)
Definition push_local_from (r : Runnable) (woken_while_running in_task : bool) (s : Shard) : Shard :=
  if tuning_lifo s && negb woken_while_running && in_task then
    let previous := lifo s in
    let s := set_lifo (Some r) s in
    match previous with Some p => set_queue (queue s ++ [p]) s | None => s end
  else set_queue (queue s ++ [r]) s.

(** What happens between two runs: tasks woken here, and pushed from elsewhere. *)
Inductive Push : Type :=
| PushLocal (r : Runnable) (woken_while_running in_task : bool)
| PushInbox (r : Runnable)
| PushThreadHome (r : Runnable)
| PushHome (r : Runnable).

Definition onto (r : Runnable) (q : option (list Runnable)) : option (list Runnable) := option_map (fun l => l ++ [r]) q.

Definition push (p : Push) (s : Shard) : Shard :=
  match p with
  | PushLocal r w i => push_local_from r w i s
  | PushInbox r => set_inbox (inbox s ++ [r]) s
  | PushThreadHome r => set_thread_home (onto r (thread_home s)) s
  | PushHome r => set_home (onto r (home s)) s
  end.

Definition pushes (l : list Push) (s : Shard) : Shard := fold_left (fun s p => push p s) l s.

(** Runs of the loop, each after the pushes that came before it: what it took. *)
Fixpoint runs (l : list (list Push)) (s : Shard) : list (option Runnable) * Shard :=
  match l with
  | [] => ([], s)
  | ps :: l =>
      let '(r, s) := next (pushes ps s) in
      let '(rs, s) := runs l s in (r :: rs, s)
  end.

(** ** Every place that holds work is served

    A place is a queue of the shard with a bound on the runs until its entry at
    an index is taken. That other threads and tasks push does not change the
    bound, and each run lowers it or takes the entry; so the entry is taken
    within the bound, whatever is pushed meanwhile. *)

(** ** The counts the order keeps *)

Record wf (s : Shard) : Prop := {
  wf_interval : 1 <= inbox_interval s < 2 ^ 32;
  wf_until : 1 <= until_inbox s <= inbox_interval s;
  wf_streak : 0 <= lifo_streak s <= LIFO_MAX;
}.

(** What a run and a push leave of them. *)
Record kept (s s' : Shard) : Prop := {
  kept_interval : inbox_interval s' = inbox_interval s;
  kept_until : until_inbox s' = until_inbox s;
  kept_homes : homes_first s' = homes_first s;
}.

Lemma pop_home_kept s : kept s (snd (pop_home s)) /\ lifo_streak (snd (pop_home s)) = lifo_streak s /\
  queue (snd (pop_home s)) = queue s /\ inbox (snd (pop_home s)) = inbox s.
Proof. unfold pop_home. repeat case_match; done. Qed.

Lemma push_kept p s : kept s (push p s) /\ lifo_streak (push p s) = lifo_streak s.
Proof. destruct p as [r w i | r | r | r]; cbn; try done. unfold push_local_from. repeat case_match; done. Qed.

Lemma push_wf p s : wf s -> wf (push p s).
Proof. intros []. destruct (push_kept p s) as [[E1 E2 E3] E4]. split; by rewrite ?E1, ?E2, ?E4. Qed.

Lemma pop_inbox_kept s : kept s (snd (pop_inbox s)) /\ lifo_streak (snd (pop_inbox s)) = lifo_streak s /\
  queue (snd (pop_inbox s)) = queue s.
Proof. unfold pop_inbox. destruct (inbox s); [| done]. by destruct (pop_home_kept s) as (H & H' & H'' & _). Qed.

Lemma next_local_kept s : wf s -> kept s (snd (next_local s)) /\ 0 <= lifo_streak (snd (next_local s)) <= LIFO_MAX.
Proof.
  intros [_ _ Hs]. unfold next_local. destruct (lifo s) as [r|]; cbn.
  - destruct (Z.ltb_spec (lifo_streak s) LIFO_MAX); cbn; [split; [done | lia] |].
    destruct (queue s) as [|x q]; cbn; [split; [done | unfold LIFO_MAX; lia] |]. split; [done | unfold LIFO_MAX; lia].
  - unfold pop_queue. cbn. destruct (queue s) as [|x q]; cbn; [| split; [done | unfold LIFO_MAX; lia]].
    destruct (pop_inbox_kept (set_lifo_streak 0 s)) as ([] & H' & _). split; [by split |]. rewrite H'. cbn. unfold LIFO_MAX. lia.
Qed.

(** ** Places *)

(** A place: what it holds, and within how many runs its entry at an index is taken. *)
Class Place (ok : Shard -> Prop) (held : Shard -> list Runnable) (wait : Shard -> nat -> Z) : Prop := {
  place_pos : forall s k, wf s -> ok s -> 0 < wait s k;
  place_push : forall s p, exists more, held (push p s) = held s ++ more;
  place_push_wait : forall s p k, wait (push p s) k = wait s k;
  place_push_ok : forall s p, ok s -> ok (push p s);
  place_next_ok : forall s, wf s -> ok s -> ok (snd (next s));
  place_next : forall s k r, wf s -> ok s -> held s !! k = Some r ->
    fst (next s) = Some r \/ exists k', held (snd (next s)) !! k' = Some r /\ wait (snd (next s)) k' < wait s k;
}.

(** The run that ends the interval, and the others. *)
Lemma next_cases s :
  wf s -> next s = (if until_inbox s =? 1 then interval_turn s else next_local (set_until_inbox (until_inbox s - 1) s)).
Proof.
  intros [H1 H2 _]. unfold next. rewrite Z.mod_small by lia.
  destruct (Z.eqb_spec (until_inbox s) 1), (Z.eqb_spec (until_inbox s - 1) 0); try done; lia.
Qed.

Lemma until_wf s n : wf s -> 1 <= n <= inbox_interval s -> wf (set_until_inbox n s).
Proof. intros [] ?. by split. Qed.

Lemma homes_wf s b : wf s -> wf (set_homes_first b s).
Proof. intros []. by split. Qed.

(** The interval's look leaves the counts of a fresh interval, its turns alternating. *)
Lemma pop_remote_kept s :
  kept (set_homes_first (negb (homes_first s)) s) (snd (pop_remote s)) /\ lifo_streak (snd (pop_remote s)) = lifo_streak s /\
  queue (snd (pop_remote s)) = queue s.
Proof.
  unfold pop_remote. destruct (homes_first s) eqn:E; cbn.
  - destruct (pop_inbox_kept (set_homes_first false s)) as (H & H' & H''). done.
  - destruct (pop_home (set_homes_first true s)) as [[r|] s'] eqn:E'.
    + destruct (pop_home_kept (set_homes_first true s)) as (H & H' & H'' & _). rewrite E' in *. done.
    + destruct (pop_home_kept (set_homes_first true s)) as (H & H' & H'' & _). rewrite E' in *. cbn in *.
      unfold pop_inbox_only. destruct (inbox s'); cbn; [done |]. by destruct H; split.
Qed.

Lemma next_wf s : wf s -> wf (snd (next s)) /\ inbox_interval (snd (next s)) = inbox_interval s.
Proof.
  intros W. rewrite next_cases by done. pose proof W as [W1 W2 W3]. destruct (Z.eqb_spec (until_inbox s) 1) as [E | Hne].
  - unfold interval_turn. set (s1 := set_until_inbox (inbox_interval s) s).
    assert (W' : wf s1) by (apply until_wf; [done | lia]).
    destruct (pop_remote_kept s1) as ([E1 E2 E3] & E4 & _). destruct (pop_remote s1) as [[r|] s2]; cbn in *.
    + split; [split; rewrite ?E1, ?E2, ?E4; done || lia | done].
    + assert (W2' : wf s2) by (split; rewrite ?E1, ?E2, ?E4; done || lia).
      destruct (next_local_kept s2 W2') as ([F1 F2 F3] & F4). split; [split; rewrite ?F1, ?F2, ?E1, ?E2; done || lia | by rewrite F1].
  - set (s1 := set_until_inbox (until_inbox s - 1) s). assert (W' : wf s1) by (apply until_wf; [done | lia]).
    destruct (next_local_kept s1 W') as ([F1 F2 F3] & F4). split; [split; rewrite ?F1, ?F2; cbn; done || lia | done].
Qed.

Section served.
Context {ok : Shard -> Prop} {held : Shard -> list Runnable} {wait : Shard -> nat -> Z} {P : Place ok held wait}.

Lemma pushes_place ps s k r :
  wf s -> ok s -> held s !! k = Some r ->
  wf (pushes ps s) /\ ok (pushes ps s) /\ held (pushes ps s) !! k = Some r /\ wait (pushes ps s) k = wait s k.
Proof using P.
  revert s. induction ps as [|p ps IH]; intros s W O H; [done |].
  change (pushes (p :: ps) s) with (pushes ps (push p s)).
  destruct (IH (push p s)) as (H1 & H2 & H3 & H4).
  - by apply push_wf.
  - by apply place_push_ok.
  - destruct (place_push s p) as [more ->]. by apply lookup_app_l_Some.
  - at_hand 3. by rewrite H4, place_push_wait.
Qed.

Lemma place_served l s k r :
  wf s -> ok s -> held s !! k = Some r -> wait s k <= vlen l -> Some r ∈ fst (runs l s).
Proof using P.
  revert s k. induction l as [|ps l IH]; intros s k W O H Hw.
  - pose proof (place_pos s k W O). change (vlen (@nil (list Push))) with 0 in Hw. lia.
  - destruct (pushes_place ps s k r W O H) as (W1 & O1 & H1 & Hw1). cbn.
    pose proof (place_next _ k r W1 O1 H1) as Hn. pose proof (next_wf _ W1) as [W2 _]. pose proof (place_next_ok _ W1 O1) as O2.
    destruct (next (pushes ps s)) as [o s2]. cbn in *. destruct Hn as [-> | (k' & Hk' & Hlt)].
    + destruct (runs l s2). by left.
    + assert (Hin : Some r ∈ fst (runs l s2)) by (eapply IH; eauto; rewrite vlen_cons in Hw; lia).
      destruct (runs l s2). by right.
Qed.
End served.

(** *** The inbox *)

Definition any (s : Shard) : Prop := True.
Definition inbox_wait (s : Shard) (k : nat) : Z :=
  2 * inbox_interval s * Z.of_nat k + until_inbox s + (if homes_first s then 0 else inbox_interval s).

(** The entry was taken, or is where it was, or one closer to the front. *)
Lemma front_taken (l : list Runnable) k r x q :
  l !! k = Some r -> l = x :: q -> x = r \/ exists k', k = S k' /\ q !! k' = Some r.
Proof. intros H ->. destruct k as [|k']; [left; by injection H | right; by exists k']. Qed.

Lemma pop_inbox_inbox s k r :
  inbox s !! k = Some r ->
  fst (pop_inbox s) = Some r \/ exists k', k = S k' /\ inbox (snd (pop_inbox s)) !! k' = Some r.
Proof.
  intros H. unfold pop_inbox. destruct (inbox s) as [|x q] eqn:E; [done |].
  destruct (front_taken (x :: q) k r x q H eq_refl) as [-> | ?]; [by left | by right].
Qed.

Lemma next_local_inbox s k r :
  inbox s !! k = Some r ->
  fst (next_local s) = Some r \/ exists k', (k' <= k)%nat /\ inbox (snd (next_local s)) !! k' = Some r.
Proof.
  intros H. unfold next_local. destruct (lifo s) as [x|]; cbn.
  - destruct (lifo_streak s <? LIFO_MAX); cbn; [right; by exists k |].
    destruct (queue s) as [|y q]; cbn; right; by exists k.
  - unfold pop_queue. cbn. destruct (queue s) as [|y q]; cbn; [| right; by exists k].
    destruct (pop_inbox_inbox (set_lifo_streak 0 s) k r H) as [? | (k' & -> & ?)]; [by left | right; exists k'; split; [lia | done]].
Qed.

(** The interval's turn serves the inbox, or, when it looks at the home first, one that is not empty. *)
Lemma turn_inbox s k r :
  inbox s !! k = Some r ->
  fst (interval_turn s) = Some r \/
  exists k', inbox (snd (interval_turn s)) !! k' = Some r /\ (if homes_first s then k = S k' else (k' <= k)%nat) /\
    inbox_interval (snd (interval_turn s)) = inbox_interval s /\ until_inbox (snd (interval_turn s)) = inbox_interval s /\
    homes_first (snd (interval_turn s)) = negb (homes_first s).
Proof.
  intros H. unfold interval_turn, pop_remote. cbn. destruct (homes_first s) eqn:E; cbn.
  - unfold pop_inbox. cbn. destruct (inbox s) as [|x q] eqn:Ei; [done |].
    destruct (front_taken (x :: q) k r x q H eq_refl) as [-> | (k' & -> & ?)]; [by left | right]. by exists k'.
  - set (s1 := set_homes_first true (set_until_inbox (inbox_interval s) s)).
    destruct (pop_home_kept s1) as ([E1 E2 E3] & _ & _ & Ei). destruct (pop_home s1) as [[x|] s2]; cbn in *.
    + right. exists k. by rewrite Ei, E1, E2, E3.
    + unfold pop_inbox_only. rewrite Ei. cbn. destruct (inbox s) as [|x q]; [done |]. cbn.
      destruct (front_taken (x :: q) k r x q H eq_refl) as [-> | (k' & -> & ?)]; [by left | right].
      exists k'. rewrite E1, E2, E3. split; [done |]. split; [lia | done].
Qed.

#[export] Instance inbox_place : Place any inbox inbox_wait.
Proof.
  split; try done.
  - intros s k [H1 H2 _] _. unfold inbox_wait. destruct (homes_first s); nia.
  - intros s p. destruct p as [x w i | x | x | x]; cbn; try (by exists []; rewrite app_nil_r); [| by exists [x]].
    exists []. rewrite app_nil_r. unfold push_local_from. by repeat case_match.
  - intros s p k. unfold inbox_wait. by destruct (push_kept p s) as [[-> -> ->] _].
  - intros s k r W _ H. rewrite next_cases by done. pose proof W as [W1 W2 W3]. destruct (Z.eqb_spec (until_inbox s) 1) as [E | Hne].
    + destruct (turn_inbox s k r H) as [? | (k' & H' & Hk & E1 & E2 & E3)]; [by left | right]. exists k'. split; [done |].
      unfold inbox_wait. rewrite E1, E2, E3, E. destruct (homes_first s); cbn; [subst k | ]; nia.
    + set (s1 := set_until_inbox (until_inbox s - 1) s).
      destruct (next_local_kept s1) as ([F1 F2 F3] & _); [apply until_wf; [done | lia] |].
      destruct (next_local_inbox s1 k r H) as [? | (k' & Hk & ?)]; [by left | right]. exists k'. split; [done |].
      unfold inbox_wait. rewrite F1, F2, F3. cbn. destruct (homes_first s); nia.
Qed.

(** *** The home that is looked at first *)

Definition homes (s : Shard) : list Runnable := match thread_home s with Some l => l | None => default [] (home s) end.
Definition home_wait (s : Shard) (k : nat) : Z :=
  2 * inbox_interval s * Z.of_nat k + until_inbox s + (if homes_first s then inbox_interval s else 0).

Lemma pop_home_homes s k r :
  homes s !! k = Some r -> fst (pop_home s) = Some r \/ exists k', k = S k' /\ homes (snd (pop_home s)) !! k' = Some r.
Proof.
  unfold homes, pop_home. intros H. destruct (thread_home s) as [[|x q]|] eqn:E; [done | |].
  - destruct (front_taken (x :: q) k r x q H eq_refl) as [-> | ?]; [by left | by right].
  - destruct (home s) as [[|x q]|]; [done | | done]. cbn. rewrite E.
    destruct (front_taken (x :: q) k r x q H eq_refl) as [-> | ?]; [by left | by right].
Qed.

Lemma pop_inbox_homes s k r :
  homes s !! k = Some r ->
  fst (pop_inbox s) = Some r \/ exists k', (k' <= k)%nat /\ homes (snd (pop_inbox s)) !! k' = Some r.
Proof.
  intros H. unfold pop_inbox. destruct (inbox s) as [|x q]; [| right; by exists k].
  destruct (pop_home_homes s k r H) as [? | (k' & -> & ?)]; [by left | right; exists k'; split; [lia | done]].
Qed.

Lemma next_local_homes s k r :
  homes s !! k = Some r ->
  fst (next_local s) = Some r \/ exists k', (k' <= k)%nat /\ homes (snd (next_local s)) !! k' = Some r.
Proof.
  intros H. unfold next_local. destruct (lifo s) as [x|]; cbn.
  - destruct (lifo_streak s <? LIFO_MAX); cbn; [right; by exists k |].
    destruct (queue s) as [|y q]; cbn; right; by exists k.
  - unfold pop_queue. cbn. destruct (queue s) as [|y q]; cbn; [| right; by exists k]. by apply pop_inbox_homes.
Qed.

Lemma turn_homes s k r :
  homes s !! k = Some r ->
  fst (interval_turn s) = Some r \/
  exists k', homes (snd (interval_turn s)) !! k' = Some r /\ (if homes_first s then (k' <= k)%nat else k = S k') /\
    inbox_interval (snd (interval_turn s)) = inbox_interval s /\ until_inbox (snd (interval_turn s)) = inbox_interval s /\
    homes_first (snd (interval_turn s)) = negb (homes_first s).
Proof.
  intros H. unfold interval_turn, pop_remote. cbn. destruct (homes_first s) eqn:E; cbn.
  - set (s1 := set_homes_first false (set_until_inbox (inbox_interval s) s)).
    destruct (pop_inbox_kept s1) as ([E1 E2 E3] & _). pose proof (pop_inbox_homes s1 k r H) as Hp.
    assert (Hsome : fst (pop_inbox s1) <> None).
    { unfold pop_inbox, pop_home. cbn. destruct (inbox s); [| done]. unfold homes in H.
      destruct (thread_home s) as [[|]|]; [done | done |]. by destruct (home s) as [[|]|]. }
    destruct (pop_inbox s1) as [[x|] s2]; cbn in *; [| done]. destruct Hp as [? | (k' & Hk & ?)]; [by left | right].
    exists k'. by rewrite E1, E2, E3.
  - set (s1 := set_homes_first true (set_until_inbox (inbox_interval s) s)).
    destruct (pop_home_kept s1) as ([E1 E2 E3] & _). pose proof (pop_home_homes s1 k r H) as Hp.
    assert (Hsome : fst (pop_home s1) <> None).
    { unfold pop_home. cbn. unfold homes in H. destruct (thread_home s) as [[|]|]; [done | done |]. by destruct (home s) as [[|]|]. }
    destruct (pop_home s1) as [[x|] s2]; cbn in *; [| done]. destruct Hp as [? | (k' & Hk & ?)]; [by left | right].
    exists k'. by rewrite E1, E2, E3.
Qed.

#[export] Instance home_place : Place any homes home_wait.
Proof.
  split; try done.
  - intros s k [H1 H2 _] _. unfold home_wait. destruct (homes_first s); nia.
  - intros s p. unfold homes. destruct p as [x w i | x | x | x]; cbn.
    + exists []. rewrite app_nil_r. unfold push_local_from. by destruct (tuning_lifo s && negb w && i), (lifo s).
    + exists []. by rewrite app_nil_r.
    + destruct (thread_home s); cbn; [by exists [x] | exists []; by rewrite app_nil_r].
    + destruct (thread_home s); cbn; [exists []; by rewrite app_nil_r |].
      destruct (home s); cbn; [by exists [x] | by exists []].
  - intros s p k. unfold home_wait. by destruct (push_kept p s) as [[-> -> ->] _].
  - intros s k r W _ H. rewrite next_cases by done. pose proof W as [W1 W2 W3]. destruct (Z.eqb_spec (until_inbox s) 1) as [E | Hne].
    + destruct (turn_homes s k r H) as [? | (k' & H' & Hk & E1 & E2 & E3)]; [by left | right]. exists k'. split; [done |].
      unfold home_wait. rewrite E1, E2, E3, E. destruct (homes_first s); cbn; [ | subst k]; nia.
    + set (s1 := set_until_inbox (until_inbox s - 1) s).
      destruct (next_local_kept s1) as ([F1 F2 F3] & _); [apply until_wf; [done | lia] |].
      destruct (next_local_homes s1 k r H) as [? | (k' & Hk & ?)]; [by left | right]. exists k'. split; [done |].
      unfold home_wait. rewrite F1, F2, F3. cbn. destruct (homes_first s); nia.
Qed.

(** *** The local queue *)

(** With an interval of two at least, no two turns in a row are the interval's. *)
Definition apart (s : Shard) : Prop := 2 <= inbox_interval s.
Definition queue_wait (s : Shard) (k : nat) : Z :=
  2 * ((LIFO_MAX + 1) * Z.of_nat k + (LIFO_MAX - lifo_streak s)) + (if until_inbox s =? 1 then 1 else 0) + 1.

Lemma next_local_queue s k r :
  wf s -> queue s !! k = Some r ->
  fst (next_local s) = Some r \/
  exists k', queue (snd (next_local s)) !! k' = Some r /\
    (LIFO_MAX + 1) * Z.of_nat k' - lifo_streak (snd (next_local s)) < (LIFO_MAX + 1) * Z.of_nat k - lifo_streak s.
Proof.
  intros [_ _ W3] H. unfold next_local. destruct (lifo s) as [x|]; cbn.
  - destruct (Z.ltb_spec (lifo_streak s) LIFO_MAX); cbn; [right; exists k; split; [done | unfold LIFO_MAX in *; lia] |].
    destruct (queue s) as [|y q]; [done |]. unfold pop_queue. cbn.
    destruct (front_taken (y :: q) k r y q H eq_refl) as [-> | (k' & -> & ?)]; [by left | right].
    exists k'. split; [by apply lookup_app_l_Some | unfold LIFO_MAX in *; lia].
  - unfold pop_queue. cbn. destruct (queue s) as [|y q]; [done |]. cbn.
    destruct (front_taken (y :: q) k r y q H eq_refl) as [-> | (k' & -> & ?)]; [by left | right]. exists k'. split; [done | unfold LIFO_MAX in *; lia].
Qed.

#[export] Instance queue_place : Place apart queue queue_wait.
Proof.
  split.
  - intros s k [H1 H2 H3] _. unfold queue_wait, LIFO_MAX in *. case_match; lia.
  - intros s p. destruct p as [x w i | x | x | x]; cbn; try (by exists []; rewrite app_nil_r).
    unfold push_local_from. destruct (tuning_lifo s && negb w && i); [| by exists [x]].
    destruct (lifo s) as [y|]; [by exists [y] | exists []; by rewrite app_nil_r].
  - intros s p k. unfold queue_wait. by destruct (push_kept p s) as [[_ -> _] ->].
  - intros s p. unfold apart. by destruct (push_kept p s) as [[-> _ _] _].
  - intros s W. unfold apart. by destruct (next_wf s W) as [_ ->].
  - intros s k r W Ha H. rewrite next_cases by done. pose proof W as [W1 W2 W3]. unfold apart in Ha.
    destruct (Z.eqb_spec (until_inbox s) 1) as [E | Hne].
    + unfold interval_turn. set (s1 := set_until_inbox (inbox_interval s) s).
      destruct (pop_remote_kept s1) as ([E1 E2 E3] & E4 & E5). destruct (pop_remote s1) as [[x|] s2]; cbn in *.
      * right. exists k. rewrite E5. split; [done |]. unfold queue_wait, LIFO_MAX in *. rewrite E2, E4, E.
        subst s1. cbn. destruct (Z.eqb_spec (inbox_interval s) 1); lia.
      * assert (W' : wf s2) by (split; rewrite ?E1, ?E2, ?E4; done || lia). rewrite <- E5 in H.
        destruct (next_local_kept s2 W') as ([F1 F2 F3] & F4).
        destruct (next_local_queue s2 k r W' H) as [? | (k' & Hk' & Hlt)]; [by left | right]. exists k'. split; [done |].
        unfold queue_wait, LIFO_MAX in *. rewrite F2, E2, E.
        subst s1. cbn in *. destruct (Z.eqb_spec (inbox_interval s) 1); lia.
    + set (s1 := set_until_inbox (until_inbox s - 1) s). assert (W' : wf s1) by (apply until_wf; [done | lia]).
      destruct (next_local_kept s1 W') as ([F1 F2 F3] & F4).
      destruct (next_local_queue s1 k r W' H) as [? | (k' & Hk' & Hlt)]; [by left | right]. exists k'. split; [done |].
      unfold queue_wait, LIFO_MAX in *. rewrite F2. cbn in *. destruct (Z.eqb_spec (until_inbox s) 1); [lia |]. case_match; lia.
Qed.

(** ** Nothing is lost *)

Definition slot (o : option Runnable) : list Runnable := match o with Some r => [r] | None => [] end.
Definition all (s : Shard) : list Runnable :=
  slot (lifo s) ++ queue s ++ inbox s ++ default [] (thread_home s) ++ default [] (home s).

(** An answer is one of the runnables, and the rest stay; there is none only
    where the shard has none. *)
Definition takes_one (s : Shard) (t : Took) : Prop :=
  all s ≡ₚ slot (fst t) ++ all (snd t) /\ (fst t = None -> all s = []).

Lemma takes_one_of s s' t : all s ≡ₚ all s' -> takes_one s' t -> takes_one s t.
Proof.
  intros E [H1 H2]. split; [by rewrite E |]. intros Hn. rewrite (H2 Hn) in E. by apply Permutation_nil_r in E.
Qed.

Lemma pop_home_takes s :
  all s ≡ₚ slot (fst (pop_home s)) ++ all (snd (pop_home s)) /\
  (fst (pop_home s) = None -> pop_home s = (None, s) /\ default [] (thread_home s) = [] /\ default [] (home s) = []).
Proof.
  unfold pop_home, all. destruct (thread_home s) as [[|x q]|] eqn:E; cbn.
  1, 3: destruct (home s) as [[|y q']|] eqn:E'; cbn; rewrite ?E, ?E'; cbn; (split; [| done]); solve_Permutation.
  split; [| done]. solve_Permutation.
Qed.

Lemma pop_inbox_takes s :
  all s ≡ₚ slot (fst (pop_inbox s)) ++ all (snd (pop_inbox s)) /\
  (fst (pop_inbox s) = None -> pop_inbox s = (None, s) /\ inbox s = [] /\ default [] (thread_home s) = [] /\ default [] (home s) = []).
Proof.
  unfold pop_inbox. destruct (inbox s) as [|x q] eqn:E.
  - destruct (pop_home_takes s) as [H1 H2]. naive_solver.
  - unfold all. cbn. rewrite E. split; [solve_Permutation | done].
Qed.

Lemma pop_queue_takes s : lifo s = None -> takes_one s (pop_queue s).
Proof.
  intros El. unfold pop_queue, takes_one. cbn. destruct (queue s) as [|x q] eqn:E.
  - destruct (pop_inbox_takes (set_lifo_streak 0 s)) as [H1 H2]. split; [exact H1 |]. intros Hn.
    destruct (H2 Hn) as (_ & Ei & Et & Eh). cbn in *. unfold all. by rewrite El, E, Ei, Et, Eh.
  - unfold all. cbn. rewrite El, E. split; [solve_Permutation | done].
Qed.

Lemma next_local_takes s : takes_one s (next_local s).
Proof.
  unfold next_local. destruct (lifo s) as [r|] eqn:El; [| by apply pop_queue_takes]. cbn.
  destruct (lifo_streak s <? LIFO_MAX); [unfold takes_one, all; cbn; by rewrite El |].
  destruct (queue s) as [|x q] eqn:E; [unfold takes_one, all; cbn; by rewrite El, E |].
  apply (takes_one_of s (set_queue ((x :: q) ++ [r]) (set_lifo None s))); [| by apply pop_queue_takes].
  unfold all. cbn. rewrite El, E. solve_Permutation.
Qed.

Lemma pop_remote_takes s :
  all s ≡ₚ slot (fst (pop_remote s)) ++ all (snd (pop_remote s)).
Proof.
  unfold pop_remote. destruct (homes_first s); cbn; [apply (pop_inbox_takes (set_homes_first false s)) |].
  destruct (pop_home_takes (set_homes_first true s)) as [H1 H2].
  destruct (pop_home (set_homes_first true s)) as [[r|] s1] eqn:E; cbn in *; [exact H1 |].
  destruct (H2 eq_refl) as ([= ->] & _). unfold pop_inbox_only. cbn. destruct (inbox s) as [|x q] eqn:Ei; [done |].
  unfold all. cbn. rewrite Ei. solve_Permutation.
Qed.

Lemma next_takes s : takes_one s (next s).
Proof.
  unfold next. destruct (_ =? 0); [| by apply (takes_one_of s (set_until_inbox ((until_inbox s - 1) mod 2 ^ 32) s)), next_local_takes].
  unfold interval_turn. pose proof (pop_remote_takes (set_until_inbox (inbox_interval s) s)) as H.
  destruct (pop_remote _) as [[r|] s1]; cbn in *; [split; [exact H | done] |].
  eapply takes_one_of; [exact H | apply next_local_takes].
Qed.

(** ** The theorems *)

(** C28. Every place that holds work is served within a bound of runs, whatever
    is pushed anywhere meanwhile: the inbox's entry at index [k], and that of the
    homes that are looked at first, within [2 (k+1)] intervals; the local
    queue's, for an interval of two at least, within [8 (k+1)] runs. And a run
    takes one runnable, leaves every other where some place holds it, and finds
    none only where there is none. *)
Theorem order_serves_every_place s :
  wf s ->
  (forall l k r, inbox s !! k = Some r -> 2 * inbox_interval s * (Z.of_nat k + 1) <= vlen l -> Some r ∈ fst (runs l s)) /\
  (forall l k r, homes s !! k = Some r -> 2 * inbox_interval s * (Z.of_nat k + 1) <= vlen l -> Some r ∈ fst (runs l s)) /\
  (2 <= inbox_interval s ->
   forall l k r, queue s !! k = Some r -> 8 * (Z.of_nat k + 1) <= vlen l -> Some r ∈ fst (runs l s)) /\
  all s ≡ₚ slot (fst (next s)) ++ all (snd (next s)) /\ (fst (next s) = None -> all s = []).
Proof.
  intros W. pose proof W as [W1 W2 W3]. split; [| split; [| split; [| apply next_takes]]].
  - intros l k r H Hl. apply (place_served l s k r W I H). unfold inbox_wait. destruct (homes_first s); nia.
  - intros l k r H Hl. apply (place_served l s k r W I H). unfold home_wait. destruct (homes_first s); nia.
  - intros Ha l k r H Hl. apply (place_served (ok := apart) l s k r W Ha H). unfold queue_wait, LIFO_MAX in *. case_match; lia.
Qed.

(** A shard of the default interval with a task in every place. *)
Definition busy_shard : Shard :=
  {| lifo := Some 1; queue := [2; 3]; lifo_streak := 0; until_inbox := 31; homes_first := false; inbox := [4];
     thread_home := Some [5]; home := None; inbox_interval := 31; tuning_lifo := true |}.

Lemma order_serves_every_place_witness :
  wf busy_shard /\ Some 5 ∈ fst (runs (replicate 62 [PushLocal 6 false true; PushInbox 7]) busy_shard).
Proof.
  assert (W : wf busy_shard) by (split; cbn; unfold LIFO_MAX; lia). split; [exact W |].
  apply (proj1 (proj2 (order_serves_every_place busy_shard W)) _ 0%nat 5 eq_refl). vm_compute. discriminate.
Defined.

(** With the interval of one that the builder accepts, every turn looks at
    the remote work first, and there is no bound for the local queue: for any
    number of runs, other threads can keep a task queued here waiting that long. *)
Theorem interval_of_one_starves_the_queue :
  exists s, wf s /\ inbox_interval s = 1 /\ queue s = [7] /\
    forall n, exists l, length l = n /\ Some 7 ∉ fst (runs l s) /\ queue (snd (runs l s)) = [7].
Proof.
  set (s b := {| lifo := None; queue := [7]; lifo_streak := 0; until_inbox := 1; homes_first := b; inbox := [];
                 thread_home := None; home := None; inbox_interval := 1; tuning_lifo := true |}).
  exists (s false). split; [split; cbn; unfold LIFO_MAX; lia |]. split; [done |]. split; [done |]. intros n.
  exists (replicate n [PushInbox 1]). split; [apply length_replicate |]. generalize false. induction n as [|n IH]; intros b.
  - cbn. split; [set_solver | done].
  - destruct (IH (negb b)) as [H1 H2]. cbn [runs replicate]. replace (next _) with (Some 1, s (negb b)) by (by destruct b).
    destruct (runs (replicate n [PushInbox 1]) (s (negb b))) as [rs s']. cbn in *. split; [| done].
    rewrite elem_of_cons. intros [? | ?]; done.
Qed.
